(* ===== verification/_CoqProject ===== *)
-Q . S2P
Prelude.v
RateLimits.v
RustStr.v
RustWhitespace.v
SchedRecord.v
ScheduleCursor.v
BudgetLedger.v
SchedulerState.v
PercentRecord.v
LineRecord.v
Vocabulary.v
RustNet.v
CapturePolicy.v
OperationRequest.v
OperationCodec.v
OperationRoundtrip.v
ControlProtocol.v
JobJournal.v
JournalLifecycle.v
JournalContract.v
JournalRestart.v
JournalCodec.v
Lease.v
RuntimeControl.v
PrivateNamespace.v
TemporaryTopology.v
RuntimePermit.v
RuntimeRecord.v
RuntimeCheckpoint.v
RuntimeOverride.v
OverrideContract.v
Effects.v
RuntimeActuator.v
RuntimeStore.v
RuntimeDriver.v
DriverContract.v
DriverSystem.v
DriverRestart.v
UciEdits.v
UciLexing.v
UciMarks.v
UciPasses.v
UciCarried.v
UciOutput.v
UciSections.v
UciValues.v
UciScopes.v
UciBounds.v
UciView.v
UciKept.v
UciTotal.v
Binary64.v
FloatRounding.v
FloatOps.v
StdTime.v
AdaptiveCeiling.v
CeilingContract.v
SchedulerCalls.v
SchedulerStore.v
SchedulerRuntime.v
SchedulerPoll.v
SchedulerRecords.v
SchedulerSafety.v
SchedulerTransactions.v
SchedulerPasses.v
SchedulerSystem.v
SchedulerEvidence.v
TransportQuality.v
QualitySearch.v
QualityContract.v
LatencyBaseline.v
ControllerConfig.v
CakeControl.v
RateControl.v
ConfigDefaults.v
ConfigContract.v
RateTypes.v
RateContract.v
RateSystem.v
RateSafety.v
