(* ===== verification/Prelude.v ===== *)
(** * Verification of cake-autorate-rs

    The program keeps the CAKE queues of an OpenWrt router at the right rates and can
    calibrate them. The controller of an instance measures delay and load, moves the rate of
    each direction between its limits and writes it to CAKE; two slower loops move its limits
    (the adaptive ceiling) and answer to what a transport probe measures (the quality
    search). A calibration, Full Auto-Tune, is a job. Its coordinator keeps a durable
    journal, leases the resources of the job, starts a worker and issues it a permit; the
    worker asks, through a control record, for the runtime to be overridden; the instance
    daemon that owns the runtime applies the override, attests it and restores the baseline
    afterwards, whatever happens to the other processes; while it does, the controller keeps
    its hands off the rates. The scheduler decides when calibrations run and how much traffic
    they may use, and keeps the accounts. Results reach the configuration as edits of UCI
    files. This library models these parts, from the text of the records and the rounding of
    the rates to the interleavings of crashes, and proves them.

    Sources are below [src/package/cake-autorate-rs/src/src/].

    ** Parts and files

    - This file: results as values ([result]), the state and error monad [M] of methods
      on [&mut self], integers of the machine, list and option lemmas, hints.
      [RustStr], [RustWhitespace]: strings as Rust uses them (bytes, lines, splitting,
      numbers, white space). [RustNet]: the text of IP addresses. [Vocabulary]: the
      enumerations of [operations/protocol.rs] and [autotune.rs] and their names.
      [RateLimits]: [rate_limits.rs]. [Effects]: programs as trees of calls and answers,
      methods over them, their safety against an environment, and their small-step runs.
    - Numbers and time. [Binary64]: [f64] as binary64 of IEEE 754, with the operations and
      conversions of Rust; [FloatRounding], [FloatOps]: what they compute in real numbers,
      and bounds that survive rounding. [StdTime]: instants and durations.
    - The rate controller, [main.rs]. [ControllerConfig], [ConfigDefaults]: the
      configuration, its checks ([Config::validate], [config_validation.rs]) and defaults;
      [ConfigContract]: what an accepted one promises. [AdaptiveCeiling]
      ([adaptive_ceiling.rs]) with [CeilingContract]; [TransportQuality], [QualitySearch]
      ([transport_quality.rs]) with [QualityContract]; [LatencyBaseline]
      ([latency_baseline.rs]). [CakeControl]: the root qdisc of an interface and the change
      of its bandwidth. [RateControl]: the controller itself, its handlers of samples,
      probes, pauses and gaps. [RateTypes]: its numbers stay numbers. [RateContract]: the
      invariant, and where a bandwidth may be written. [RateSystem]: whole runs.
      [RateSafety]: what a step does to the rates, and what holds of every run.
    - Text records. [SchedRecord] (tab separated, [operations/scheduler.rs]),
      [PercentRecord] (percent encoded, [operations/protocol.rs], [journal.rs]),
      [LineRecord] ([key=value] lines, [autotune.rs], [autotune_runtime_store.rs]):
      writers, readers and what makes a field readable again.
    - The scheduler, [operations/scheduler.rs]: [ScheduleCursor] (due times, failed
      attempts, [evaluate_schedule]), [BudgetLedger] (reservations and settlements of
      traffic against daily and monthly limits), [SchedulerState] (both in one record).
    - The scheduler at work. [SchedulerCalls]: what it reads and writes outside its memory.
      [SchedulerStore] ([operations/scheduler_store.rs]), [SchedulerRuntime]
      ([operations/scheduler_runtime.rs]), [SchedulerPoll] (the polls and acknowledgements
      of [operations/coordinator.rs]). [SchedulerRecords]: names and widths.
      [SchedulerSafety]: worlds with what a loss of power could leave, and where each call
      may be made; [SchedulerTransactions], [SchedulerPasses]: that it is; [SchedulerSystem]:
      polls, kills, power losses and restarts as one step relation. [SchedulerEvidence]: quiet
      windows, the calendar, the smallest budget.
    - Requests, [operations/protocol.rs]: [CapturePolicy] (also
      [operations/autotune_capture_policy.rs]), [OperationRequest] (the request and its
      validation), [OperationCodec] and [OperationRoundtrip] (its schemas),
      [ControlProtocol] (the control messages).
    - The job journal, [operations/journal.rs]: [JobJournal] (the record and every
      method), [JournalLifecycle] (what each method does to a valid journal),
      [JournalContract] (the abstract phase machine it refines), [JournalRestart]
      (start-up reconciliation, also [operations/coordinator.rs]), [JournalCodec].
    - Leases, [operations/lease.rs]: [Lease].
    - The runtime override. [RuntimeControl] ([autotune.rs]: controls and
      acknowledgements), [PrivateNamespace] ([operations/kernel_topology.rs]),
      [TemporaryTopology], [RuntimePermit] and [RuntimeOverride]
      ([operations/autotune_runtime.rs]: the tracker), [RuntimeRecord] and
      [RuntimeCheckpoint] (records of [operations/autotune_runtime_store.rs]),
      [OverrideContract] (the lease the tracker refines).
    - The driver of the override, [operations/autotune_runtime_driver.rs].
      [RuntimeActuator]: the calls. [RuntimeStore]: the store's operations.
      [RuntimeDriver]: [poll], start-up and [execute]. [DriverContract]: worlds, where
      each call may be made, the safety of every part. [DriverSystem]: polls, crashes and
      restarts as one step relation. [DriverRestart]: the first poll after a crash.
    - Edits of UCI files, [operations/uci_edits.rs]: [UciEdits] is the code. [UciLexing],
      [UciMarks], [UciPasses], [UciCarried], [UciOutput], [UciSections], [UciValues],
      [UciScopes], [UciBounds] follow a file through it as statements with marks; [UciView],
      [UciKept] and [UciTotal] say what comes out, what is kept and that it comes.

    ** How state and operations correspond

    A struct is a record with the fields of the source, prefixed where Rocq needs it; an
    enum is an inductive type. A method on [&mut self] that can fail half-way is a
    program of [M] that keeps what it had written; a method that writes only on success
    returns the new value. Integers are [N] with their width checked where the source
    checks, saturates or wraps. Texts are byte strings. An [f64] is a binary64 number with
    its infinities, NaN and signed zeros; times are nanoseconds. The driver, the scheduler
    and the controller work in the monad [method]: its state is the Rust struct, its calls
    are the actuator's and the file system's, the coordinator's, or the clock's and [tc]'s.
    Where the controller treats the two directions alike in twin fields and blocks, the
    model has a [Direction] each and one function with a flag. Log lines and published
    status are left out; a panic of [Duration::from_secs_f64] is an error of its own.

    ** What is shown

    - The controller: under an accepted configuration, whatever is measured and answered, a
      bandwidth is written only to the CAKE qdisc that was just shown, inside the limits of
      its direction ([rate_changes_allowed]); no handler panics ([controller_never_panics],
      for probe times a [Duration] can hold); held rates are left alone
      ([held_rates_untouched]); bufferbloat never raises a rate, only a clean high load
      raises one above its base ([bufferbloat_never_raises], [rate_grows_only_clean]); a due
      rate reaches CAKE by exactly one command ([rate_reaches_cake]).
    - The adaptive ceiling stays between what was verified and the larger of its limit and
      that limit rounded to a whole kbit/s, learns only from a finished clean probe, and rests without load ([ceiling_bounded],
      [ceiling_raised_by_probe], [failed_bound_from_bufferbloat],
      [unloaded_direction_rests]). The quality search asks for nothing below its floor and
      gives up ([search_requests_bounded], [search_gives_up]). A baseline is never one reply
      ([baseline_qualified]).
    - The scheduler: whatever fails, is killed or loses power, the budget of a started job
      stays reserved in every copy of its record until it is settled
      ([started_traffic_accounted]), every call is made where it may be
      ([scheduler_calls_allowed]), every record is an account book
      ([records_are_account_books]); a quiet window is proven and the calendar exact
      ([quiet_window_proven], [calendar_exact]).
    - UCI edits: unless the original ends in an escaped line end or the statements exceed
      their limit, the output says what the edits make of the original ([render_view]); it
      keeps every statement no edit is about, with every gap and comment, and adds only lines
      an edit asks for ([render_keeps_bytes]); it always comes ([render_total]).
    - Records: everything that is written can be read back exactly, and what is accepted
      is the one text that would be written ([permit_codec_exact], [control_codec_exact],
      [journal_decode_encode], [request_decode_encode], ...).
    - The journal refines a phase machine in which a changed runtime ends only through
      recovery; a restart never forgets one and reconciles every job.
    - The tracker refines a lease with one owner and one baseline: overrides are what the
      permit authorizes, in sequence, and end only with an exact attestation.
    - The driver: with calls failing anywhere and the process killed between any two, a
      changed runtime always has a durable checkpoint of its baseline, every call is made
      where it may be, a driver at rest tells the truth, and a restart restores.
    - Leases exclude each other; the ledger refines an account book and keeps the limits;
      the schedule admits exactly when it says and never retries a failure by itself.

    ** Bounds and fuel

    The recursive decoders of requests and journals recurse one level and are shown to
    satisfy their own equations. [execute] of the driver runs with fuel three; with more
    it does the same ([execute_recursion_bounded]). The UCI scanner runs with the length of
    its input as fuel, which is shown to be enough. All other recursion is structural.

    ** Parameters and assumptions

    [sha256] (the [sha2] crate), [usize_max] (the width of the target), [persist] and
    [still_matches] (whether a journal write succeeds and a process is still the same),
    [localtime] and [mktime] are arguments of what uses them. The environments are step
    relations. That of the driver ([world_step]): records change as the calls say, calls may
    fail, a failed mutation may have changed the runtime, an attestation reports what is
    there. That of the scheduler: a rename is durable only after its directory is synced, a
    job identity the coordinator hands out is fresh, and an accepted job is held until it is
    done. That of the controller: the clock and [tc] may answer anything.

    ** Not modelled

    Of the controller: the loop around the handlers with pingers, timers and signals, the
    status file, logs and history, the displayed rating, the reset after a change of the
    route and the accepted recovery of SQM, the checks of the configuration on names, routes
    and reflectors. Of the calibrations: the worker and the search of [autotune.rs]. Of the
    scheduler: the lock and the permissions of its store, the scan of other processes, the
    UCI queries behind its policy, its status table. Of UCI: the comparison of two listings
    of [uci show], the transaction, and the manifests of the apply step. Besides: sockets,
    netlink, child processes and [/proc], service lifecycle, MQTT and LuCI: input, output and
    text for other programs. [Debug] texts and test-only methods are left out. *)

From Stdlib Require Export Ascii String.
From stdpp Require Export base tactics option list strings gmap sets.
From Stdlib Require Export ZArith NArith Lia.

#[global] Set Default Goal Selector "!".
#[global] Arguments String.append !s1 s2 / : simpl nomatch.

(** ** Results: Rust's [Result<A, E>] *)

Inductive result (E A : Type) : Type :=
| Ok (a : A)
| Err (e : E).
Arguments Ok {E A} a.
Arguments Err {E A} e.

#[export] Instance result_eq_dec {E A} `{EqDecision E, EqDecision A} :
  EqDecision (result E A).
Proof. solve_decision. Defined.

#[export] Instance result_ret E : MRet (result E) := λ A a, Ok a.
#[export] Instance result_bind E : MBind (result E) := λ A B f r,
  match r with Ok a => f a | Err e => Err e end.

(** [if cond { return Err(e) }] *)
Definition fail_if {E} (cond : bool) (e : E) : result E unit :=
  if cond then Err e else Ok tt.

(** [option.ok_or_else(|| e)] *)
Definition ok_or {E A} (o : option A) (e : E) : result E A :=
  match o with Some a => Ok a | None => Err e end.

Definition is_ok {E A} (r : result E A) : bool :=
  match r with Ok _ => true | Err _ => false end.

(** [option.is_some()] *)
Definition is_some {A} (o : option A) : bool := match o with Some _ => true | None => false end.

(** [option.is_some_and(p)] *)
Definition is_some_and {A} (p : A → bool) (o : option A) : bool :=
  match o with Some a => p a | None => false end.

Lemma is_some_and_false {A} (p : A → bool) (o : option A) :
  is_some_and p o = false ↔ ∀ a, o = Some a → p a = false.
Proof. destruct o; simpl; split; [by intros ? ? [= <-] | auto | done | done]. Qed.

Lemma is_some_and_true {A} (p : A → bool) (o : option A) :
  is_some_and p o = true ↔ ∃ a, o = Some a ∧ p a = true.
Proof.
  destruct o as [a |]; simpl; split; [eauto | by intros (? & [= <-] & ?) | done |].
  by intros (? & ? & _).
Qed.

Section result_lemmas.
Context {E A B : Type}.
Implicit Types r : result E A.

Lemma bind_ok_inv r (f : A → result E B) b :
  (r ≫= f) = Ok b → ∃ a, r = Ok a ∧ f a = Ok b.
Proof. destruct r; simpl; [eauto | discriminate]. Qed.

Lemma bind_err_inv r (f : A → result E B) e :
  (r ≫= f) = Err e → r = Err e ∨ ∃ a, r = Ok a ∧ f a = Err e.
Proof. destruct r; simpl; [eauto | intros [= ->]; eauto]. Qed.

Lemma fail_if_ok_inv (c : bool) (e : E) u : fail_if c e = Ok u → c = false.
Proof. by destruct c. Qed.

Lemma fail_if_err_inv (c : bool) (e e' : E) : fail_if c e = Err e' → c = true ∧ e' = e.
Proof. destruct c; simpl; [intros [= ->]; done | discriminate]. Qed.

Lemma ret_ok_inv (a b : A) : mret (M:=result E) a = Ok b → a = b.
Proof. by intros [= ->]. Qed.

Lemma ok_or_ok_inv (o : option A) (e : E) a : ok_or o e = Ok a → o = Some a.
Proof. destruct o; simpl; congruence. Qed.

(** A chain of checks passes when every check passes. *)
Lemma then_ok (r : result E unit) (k : result E B) b :
  (r ≫= λ _, k) = Ok b ↔ r = Ok tt ∧ k = Ok b.
Proof. destruct r as [[] |]; simpl; split; [eauto | by intros [_ ?] | done | by intros [? _]]. Qed.

Lemma fail_if_ok (c : bool) (e : E) : fail_if c e = Ok tt ↔ c = false.
Proof. by destruct c. Qed.
End result_lemmas.

(** ** Methods on [&mut self] that return a [Result]

    The state survives an error: a method that fails after it has assigned a
    field leaves the assignment visible, so the model returns the state in
    both cases. *)

Definition M (S E A : Type) : Type := S → result E A * S.

#[export] Instance M_ret S E : MRet (M S E) := λ A a s, (Ok a, s).
#[export] Instance M_bind S E : MBind (M S E) := λ A B f m s,
  match m s with
  | (Ok a, s') => f a s'
  | (Err e, s') => (Err e, s')
  end.

Definition get {S E} : M S E S := λ s, (Ok s, s).
Definition put {S E} (s : S) : M S E unit := λ _, (Ok tt, s).
Definition modify {S E} (f : S → S) : M S E unit := λ s, (Ok tt, f s).
(** A pure fallible call under [?]. *)
Definition lift {S E A} (r : result E A) : M S E A := λ s, (r, s).
(** A method called on a local clone under [?]: the clone is dropped when the
    call fails and returned, mutated, when it succeeds. *)
Definition on_clone {S T E A} (m : M T E A) (t : T) : M S E T := λ s,
  match m t with
  | (Ok _, t') => (Ok t', s)
  | (Err e, _) => (Err e, s)
  end.

Section M_lemmas.
Context {S E : Type}.

Lemma M_bind_ok_inv {A B} (m : M S E A) (f : A → M S E B) s b s' :
  (m ≫= f) s = (Ok b, s') → ∃ a s1, m s = (Ok a, s1) ∧ f a s1 = (Ok b, s').
Proof. unfold mbind, M_bind. destruct (m s) as [[] ?]; [eauto | discriminate]. Qed.

Lemma M_bind_err_inv {A B} (m : M S E A) (f : A → M S E B) s e s' :
  (m ≫= f) s = (Err e, s') →
  m s = (Err e, s') ∨ ∃ a s1, m s = (Ok a, s1) ∧ f a s1 = (Err e, s').
Proof.
  unfold mbind, M_bind. destruct (m s) as [[] ?]; [eauto |].
  intros [= -> ->]. eauto.
Qed.

Lemma M_ret_inv {A} (a b : A) (s s' : S) :
  mret (M:=M S E) a s = (Ok b, s') → a = b ∧ s = s'.
Proof. by intros [= -> ->]. Qed.

Lemma lift_inv {A} (r : result E A) (s s' : S) x : lift r s = (x, s') → r = x ∧ s' = s.
Proof. unfold lift. by intros [= -> ->]. Qed.

Lemma on_clone_ok_inv {T A} (m : M T E A) (t t' : T) (s s' : S) :
  on_clone m t s = (Ok t', s') → (∃ a, m t = (Ok a, t')) ∧ s' = s.
Proof. unfold on_clone. destruct (m t) as [[] ?]; intros [= -> ->]; eauto. Qed.

Lemma on_clone_err_inv {T A} (m : M T E A) (t : T) (s s' : S) e :
  on_clone m t s = (Err e, s') → (∃ t', m t = (Err e, t')) ∧ s' = s.
Proof. unfold on_clone. destruct (m t) as [[] ?]; intros [= -> ->]; eauto. Qed.

(** A computation that never writes its state when it fails. *)
Definition keeps_on_err {A} (m : M S E A) : Prop :=
  ∀ s e s', m s = (Err e, s') → s' = s.
(** A computation that never writes its state. *)
Definition reads_only {A} (m : M S E A) : Prop := ∀ s x s', m s = (x, s') → s' = s.

Lemma reads_only_keeps {A} (m : M S E A) : reads_only m → keeps_on_err m.
Proof. intros H s e s'. apply H. Qed.
Lemma reads_only_get : reads_only get.
Proof. by intros s x s' [= <- <-]. Qed.
Lemma reads_only_lift {A} (r : result E A) : reads_only (lift r).
Proof. by intros s x s' [= <- <-]. Qed.
Lemma reads_only_ret {A} (a : A) : reads_only (mret a).
Proof. by intros s x s' [= <- <-]. Qed.
Lemma reads_only_on_clone {T A} (m : M T E A) t : reads_only (on_clone m t).
Proof. intros s x s'. unfold on_clone. destruct (m t) as [[] ?]; by intros [= <- <-]. Qed.
Lemma keeps_put (s0 : S) : keeps_on_err (put s0).
Proof. intros s e s'. discriminate. Qed.

(** A write may only be followed by steps that cannot fail. *)
Lemma keeps_bind_read {A B} (m : M S E A) (f : A → M S E B) :
  reads_only m → (∀ a, keeps_on_err (f a)) → keeps_on_err (m ≫= f).
Proof.
  intros Hm Hf s e s' H. apply M_bind_err_inv in H as [H | (a & s1 & H1 & H2)].
  - by eapply Hm.
  - apply Hf in H2. apply Hm in H1. congruence.
Qed.

(** Steps that cannot fail may follow a write. *)
Lemma keeps_bind_total {A B} (m : M S E A) (f : A → M S E B) :
  keeps_on_err m → (∀ a s, ∃ b s', f a s = (Ok b, s')) → keeps_on_err (m ≫= f).
Proof.
  intros Hm Hf s e s' H. apply M_bind_err_inv in H as [H | (a & s1 & _ & H)]; [by eapply Hm |].
  destruct (Hf a s1) as (? & ? & E'). by rewrite E' in H.
Qed.

Lemma keeps_put_ret {A} (s0 : S) (a : A) :
  keeps_on_err (put s0 ≫= λ _, mret a : M S E A).
Proof. intros s e s'. unfold mbind, M_bind, put, mret, M_ret. discriminate. Qed.
End M_lemmas.

Create HintDb effects.
#[export] Hint Resolve reads_only_get reads_only_lift reads_only_ret
  reads_only_on_clone keeps_put keeps_bind_read reads_only_keeps keeps_put_ret : effects.

(** Proves [keeps_on_err]: skips the read-only prefix and splits the branches. *)
Ltac keeps_tac :=
  repeat first
    [ solve [auto with effects]
    | apply keeps_bind_read; [solve [auto with effects] | intros]
    | case_match ].

(** ** Machine integers

    A [u64] is an [N]; the operations that can leave the width say so. *)

Definition u64_max : N := 18446744073709551615.
Definition is_u64 (n : N) : Prop := (n ≤ u64_max)%N.
Definition u32_max : N := 4294967295.
Definition is_u32 (n : N) : Prop := (n ≤ u32_max)%N.

Lemma is_u32_u64 n : is_u32 n → is_u64 n.
Proof. unfold is_u32, u32_max, is_u64, u64_max. lia. Qed.

Definition u64_checked_add (a b : N) : option N :=
  if (a + b <=? u64_max)%N then Some (a + b)%N else None.
Definition u64_checked_sub (a b : N) : option N :=
  if (b <=? a)%N then Some (a - b)%N else None.
(** [N.sub] truncates at zero, as [saturating_sub] does. *)
Definition u64_saturating_sub (a b : N) : N := (a - b)%N.
Definition u64_saturating_add (a b : N) : N := N.min (a + b) u64_max.

Lemma u64_checked_add_Some a b c :
  u64_checked_add a b = Some c ↔ c = (a + b)%N ∧ is_u64 c.
Proof. unfold u64_checked_add, is_u64. destruct (N.leb_spec (a + b) u64_max); split;
  intros; destruct_and?; simplify_eq; try done; lia.
Qed.

Lemma u64_checked_add_None a b : u64_checked_add a b = None ↔ (u64_max < a + b)%N.
Proof.
  unfold u64_checked_add. destruct (N.leb_spec (a + b) u64_max); split;
  intros; simplify_eq; try done; lia.
Qed.

Lemma u64_checked_sub_Some a b c :
  u64_checked_sub a b = Some c ↔ (b ≤ a)%N ∧ c = (a - b)%N.
Proof.
  unfold u64_checked_sub. destruct (N.leb_spec b a); split;
  intros; destruct_and?; simplify_eq; try done; lia.
Qed.

Lemma u64_checked_sub_None a b : u64_checked_sub a b = None ↔ (a < b)%N.
Proof.
  unfold u64_checked_sub. destruct (N.leb_spec b a); split;
  intros; destruct_and?; simplify_eq; try done; lia.
Qed.

(** ** Automation *)

(** A closed decidable fact, by evaluating its decision procedure. *)
Ltac vm_decide := apply (bool_decide_eq_true_1 _); vm_compute; reflexivity.

(** Turns boolean tests of the code into propositions. *)
Ltac reflect_bools :=
  repeat match goal with
  | H : (_ && _)%bool = true |- _ => apply andb_true_iff in H as [? ?]
  | H : (_ || _)%bool = false |- _ => apply orb_false_iff in H as [? ?]
  | H : negb _ = true |- _ => apply negb_true_iff in H
  | H : negb _ = false |- _ => apply negb_false_iff in H
  | H : (_ =? _)%N = true |- _ => apply N.eqb_eq in H
  | H : (_ =? _)%N = false |- _ => apply N.eqb_neq in H
  | H : (_ <=? _)%N = true |- _ => apply N.leb_le in H
  | H : (_ <=? _)%N = false |- _ => apply N.leb_gt in H
  | H : (_ <? _)%N = true |- _ => apply N.ltb_lt in H
  | H : (_ <? _)%N = false |- _ => apply N.ltb_ge in H
  | H : bool_decide _ = true |- _ => apply bool_decide_eq_true in H
  | H : bool_decide _ = false |- _ => apply bool_decide_eq_false in H
  end.

(** Opens every successful bind, guard and option in the context. *)
Ltac unbind :=
  repeat match goal with
  | H : (?r ≫= _) = Ok _ |- _ =>
      let a := fresh "a" in let Ha := fresh "Ha" in
      apply bind_ok_inv in H as (a & Ha & H)
  | H : (_ ≫= _) _ = (Ok _, _) |- _ =>
      let a := fresh "a" in let s := fresh "s" in let Ha := fresh "Ha" in
      apply M_bind_ok_inv in H as (a & s & Ha & H)
  | H : lift _ _ = (Ok _, _) |- _ => apply lift_inv in H as [H ->]
  | H : on_clone _ _ _ = (Ok _, _) |- _ => apply on_clone_ok_inv in H as [[? H] ->]
  | H : get _ = (Ok _, _) |- _ => unfold get in H; injection H as <- <-
  | H : put _ _ = (Ok _, _) |- _ => unfold put in H; injection H as <- <-
  | H : modify _ _ = (Ok _, _) |- _ => unfold modify in H; injection H as <- <-
  | H : mret _ _ = (Ok _, _) |- _ => apply M_ret_inv in H as [? ?]; subst
  | H : fail_if _ _ = Ok _ |- _ => apply fail_if_ok_inv in H
  | H : ok_or _ _ = Ok _ |- _ => apply ok_or_ok_inv in H
  | H : mret _ = Ok _ |- _ => apply ret_ok_inv in H
  end.

(** Opens every failing bind: one case per step that can be the one that failed. *)
Ltac unbind_err :=
  repeat match goal with
  | H : (_ ≫= _) = Err _ |- _ => apply bind_err_inv in H as [H | (? & ? & H)]
  | H : (_ ≫= _) _ = (Err _, _) |- _ => apply M_bind_err_inv in H as [H | (? & ? & ? & H)]
  | H : get _ = _ |- _ => unfold get in H; simplify_eq
  | H : put _ _ = _ |- _ => unfold put in H; simplify_eq
  | H : modify _ _ = _ |- _ => unfold modify in H; simplify_eq
  | H : lift _ _ = _ |- _ => apply lift_inv in H as [? ->]
  | H : on_clone _ _ _ = (Err _, _) |- _ => apply on_clone_err_inv in H as [[? H] ->]
  end.
