(* ===== verification/RateLimits.v ===== *)
(** * Rate limits

    [rate_limits.rs]: the limit shared by the controller and by calibrations. *)

From S2P Require Import Prelude.

(** Maximum accepted configured or measured link rate, in kbit/s. *)
Definition MAX_RATE_KBPS : N := 100000000.

Definition DEFAULT_MIN_DL_SHAPER_RATE_KBPS : N := 5000.
Definition DEFAULT_BASE_DL_SHAPER_RATE_KBPS : N := 20000.
Definition DEFAULT_MAX_DL_SHAPER_RATE_KBPS : N := 80000.
Definition DEFAULT_MIN_UL_SHAPER_RATE_KBPS : N := 5000.
Definition DEFAULT_BASE_UL_SHAPER_RATE_KBPS : N := 20000.
Definition DEFAULT_MAX_UL_SHAPER_RATE_KBPS : N := 35000.
