(* ===== verification/RustStr.v ===== *)
(** * The string layer of the Rust sources

    A [&str] is the [string] of its UTF-8 bytes. This file models the methods
    of the standard library that the modelled code calls ([lines],
    [split_once], [splitn], [starts_with], [parse::<u64>], [to_string], ...)
    and proves the facts the record codecs need: a printed number parses back
    to itself, and a text built line by line is read back line by line. *)

From stdpp Require Import pretty.
From S2P Require Import Prelude.
Local Open Scope string_scope.

(** ** Bytes *)

Definition byte (c : ascii) : N := N_of_ascii c.
Definition chr (n : N) : ascii := ascii_of_N n.
Definition nl : ascii := chr 10.
Definition cr : ascii := chr 13.
Definition tab : ascii := chr 9.
Definition str1 (c : ascii) : string := String c "".

Definition is_ascii_digit (c : ascii) : bool := (48 <=? byte c)%N && (byte c <=? 57)%N.
Definition is_ascii_lowercase (c : ascii) : bool := (97 <=? byte c)%N && (byte c <=? 122)%N.
Definition is_ascii_uppercase (c : ascii) : bool := (65 <=? byte c)%N && (byte c <=? 90)%N.
Definition is_ascii_alphanumeric (c : ascii) : bool :=
  is_ascii_digit c || is_ascii_lowercase c || is_ascii_uppercase c.
(** [b'0'..=b'9' | b'a'..=b'f'] *)
Definition is_lower_hex (c : ascii) : bool :=
  is_ascii_digit c || ((97 <=? byte c)%N && (byte c <=? 102)%N).

(** ** Inspecting strings *)

Definition len (s : string) : N := N.of_nat (String.length s).

(** [s.bytes().all(p)] *)
Fixpoint all_bytes (p : ascii → bool) (s : string) : bool :=
  match s with
  | "" => true
  | String c s => p c && all_bytes p s
  end.

(** [s.bytes().any(p)] *)
Definition any_byte (p : ascii → bool) (s : string) : bool :=
  negb (all_bytes (λ c, negb (p c)) s).

Definition contains (c : ascii) (s : string) : bool := any_byte (Ascii.eqb c) s.

Fixpoint starts_with (p s : string) : bool :=
  match p, s with
  | "", _ => true
  | String a p, String b s => Ascii.eqb a b && starts_with p s
  | _, "" => false
  end.

Fixpoint strip_prefix (p s : string) : option string :=
  match p, s with
  | "", _ => Some s
  | String a p, String b s => if Ascii.eqb a b then strip_prefix p s else None
  | _, "" => None
  end.

Fixpoint ends_with_char (c : ascii) (s : string) : bool :=
  match s with
  | "" => false
  | String a "" => Ascii.eqb a c
  | String _ s => ends_with_char c s
  end.

(** [s.strip_suffix(c)], with the unchanged string when there is no suffix. *)
Fixpoint trim_one_end (c : ascii) (s : string) : string :=
  match s with
  | "" => ""
  | String a "" => if Ascii.eqb a c then "" else String a ""
  | String a s => String a (trim_one_end c s)
  end.

(** [s.split(c)] *)
Fixpoint split_on (c : ascii) (s : string) : list string :=
  match s with
  | "" => [""]
  | String a s =>
      if Ascii.eqb a c then "" :: split_on c s
      else match split_on c s with
           | first :: rest => String a first :: rest
           | [] => [str1 a]
           end
  end.

(** [s.split_once(c)] *)
Fixpoint split_once (c : ascii) (s : string) : option (string * string) :=
  match s with
  | "" => None
  | String a s =>
      if Ascii.eqb a c then Some ("", s)
      else match split_once c s with
           | Some (l, r) => Some (String a l, r)
           | None => None
           end
  end.

(** [s.splitn(n, c)] *)
Fixpoint splitn (n : nat) (c : ascii) (s : string) : list string :=
  match n with
  | O => []
  | S O => [s]
  | S n => match split_once c s with
           | Some (l, r) => l :: splitn n c r
           | None => [s]
           end
  end.

(** The pieces of [s.split_inclusive('\n')], without the newline; the flag
    tells whether the piece had one. *)
Fixpoint split_newlines (s : string) : list (string * bool) :=
  match s with
  | "" => []
  | String a s =>
      if Ascii.eqb a nl then ("", true) :: split_newlines s
      else match split_newlines s with
           | [] => [(str1 a, false)]
           | (l, t) :: ls => (String a l, t) :: ls
           end
  end.

(** [s.lines()]: a terminated line also loses one carriage return. *)
Definition lines (s : string) : list string :=
  (λ p : string * bool, if p.2 then trim_one_end cr p.1 else p.1) <$> split_newlines s.

(** [s.as_bytes().split_at(n)] for [n <= s.len()]. *)
Fixpoint split_at (n : nat) (s : string) : string * string :=
  match n, s with
  | O, _ => ("", s)
  | S n, String c s => let '(l, r) := split_at n s in (String c l, r)
  | S _, "" => ("", "")
  end.

(** Ordering of [str]: lexicographic on bytes. *)
Definition str_ltb (a b : string) : bool :=
  match String.compare a b with Lt => true | _ => false end.

(** ** UTF-8 validity, as [std::str::from_utf8] checks it *)

Definition in_range (lo hi : N) (c : ascii) : bool := (lo <=? byte c)%N && (byte c <=? hi)%N.
Definition cont (c : ascii) : bool := in_range 128 191 c.

Fixpoint utf8_valid (s : string) : bool :=
  match s with
  | "" => true
  | String a s1 =>
      if (byte a <? 128)%N then utf8_valid s1
      else match s1 with
      | "" => false
      | String b s2 =>
          if in_range 194 223 a then cont b && utf8_valid s2
          else match s2 with
          | "" => false
          | String c s3 =>
              if (byte a =? 224)%N then in_range 160 191 b && cont c && utf8_valid s3
              else if (byte a =? 237)%N then in_range 128 159 b && cont c && utf8_valid s3
              else if in_range 225 239 a then cont b && cont c && utf8_valid s3
              else match s3 with
              | "" => false
              | String d s4 =>
                  if (byte a =? 240)%N then in_range 144 191 b && cont c && cont d && utf8_valid s4
                  else if in_range 241 243 a then cont b && cont c && cont d && utf8_valid s4
                  else if (byte a =? 244)%N then in_range 128 143 b && cont c && cont d && utf8_valid s4
                  else false
              end
          end
      end
  end.

(** ** Numbers *)

Definition digit_value (c : ascii) : N := byte c - 48.

(** The digit loop of [u64::from_str]: every step is checked. *)
Fixpoint parse_digits (max acc : N) (s : string) : option N :=
  match s with
  | "" => Some acc
  | String c s =>
      if is_ascii_digit c then
        let next := (acc * 10 + digit_value c)%N in
        if (next <=? max)%N then parse_digits max next s else None
      else None
  end.

(** [s.parse::<uN>()]: at least one digit, an optional leading [+]. *)
Definition parse_uint (max : N) (s : string) : option N :=
  match s with
  | "" => None
  | String c s' =>
      if Ascii.eqb c "+" then (if String.eqb s' "" then None else parse_digits max 0 s')
      else parse_digits max 0 s
  end.

Definition str_parse_u64 (s : string) : option N := parse_uint u64_max s.
Definition str_parse_u16 (s : string) : option N := parse_uint 65535 s.
Definition str_parse_u8 (s : string) : option N := parse_uint 255 s.

(** [n.to_string()] *)
Definition show (n : N) : string := pretty n.

(** ** Lemmas *)

Lemma append_assoc (a b c : string) : (a +:+ b) +:+ c = a +:+ (b +:+ c).
Proof. induction a; simpl; congruence. Qed.

Lemma append_nil_r (a : string) : a +:+ "" = a.
Proof. induction a; simpl; congruence. Qed.

Lemma strip_prefix_app p s : strip_prefix p (p +:+ s) = Some s.
Proof. induction p as [| a p IH]; simpl; [done |]. by rewrite Ascii.eqb_refl. Qed.

Lemma length_append (a b : string) :
  String.length (a +:+ b) = String.length a + String.length b.
Proof. induction a; simpl; congruence. Qed.

Lemma len_append a b : len (a +:+ b) = (len a + len b)%N.
Proof. unfold len. rewrite length_append. lia. Qed.

Lemma split_at_append a b : split_at (String.length a) (a +:+ b) = (a, b).
Proof. induction a as [|c a IH]; simpl; [by destruct b | by rewrite IH]. Qed.

Lemma all_bytes_append p a b : all_bytes p (a +:+ b) = all_bytes p a && all_bytes p b.
Proof. induction a; simpl; [done | by rewrite IHa, andb_assoc]. Qed.

Lemma all_bytes_impl (p q : ascii → bool) s :
  (∀ c, p c = true → q c = true) → all_bytes p s = true → all_bytes q s = true.
Proof.
  intros Hpq. induction s as [|c s IH]; simpl; [done |].
  rewrite !andb_true_iff. intros [Hc Hs]. split; [by apply Hpq | by apply IH].
Qed.

(** A byte that the class [p] excludes does not occur in a string of [p]. *)
Lemma contains_class p c s : all_bytes p s = true → p c = false → contains c s = false.
Proof.
  intros Hs Hc. unfold contains, any_byte. apply negb_false_iff.
  eapply all_bytes_impl; [| exact Hs].
  intros d Hd. destruct (Ascii.eqb_spec c d); [congruence | done].
Qed.

Lemma contains_cons c a s : contains c (String a s) = Ascii.eqb c a || contains c s.
Proof.
  unfold contains, any_byte. simpl. by rewrite negb_andb, negb_involutive.
Qed.

Lemma contains_append c a b : contains c (a +:+ b) = contains c a || contains c b.
Proof.
  unfold contains, any_byte. by rewrite all_bytes_append, negb_andb.
Qed.

Lemma split_once_append c l r :
  contains c l = false → split_once c (l +:+ String c r) = Some (l, r).
Proof.
  induction l as [|a l IH]; simpl.
  - intros _. by rewrite Ascii.eqb_refl.
  - rewrite contains_cons. intros [Ha Hl]%orb_false_iff.
    rewrite Ascii.eqb_sym, Ha. by rewrite IH.
Qed.

Lemma trim_one_end_keep c s : contains c s = false → trim_one_end c s = s.
Proof.
  induction s as [|a s IH]; [done |].
  rewrite contains_cons. intros [Ha Hs]%orb_false_iff. specialize (IH Hs).
  destruct s; simpl in *; [by rewrite Ascii.eqb_sym, Ha | by rewrite IH].
Qed.

Lemma split_newlines_append l r :
  contains nl l = false → split_newlines (l +:+ String nl r) = (l, true) :: split_newlines r.
Proof.
  induction l as [|a l IH]; intros H; [done |].
  rewrite contains_cons in H. apply orb_false_iff in H as [Ha Hl].
  cbn [String.append split_newlines]. by rewrite Ascii.eqb_sym, Ha, IH.
Qed.

(** Reading back one line of a text built line by line. *)
Lemma lines_append l r :
  contains nl l = false → contains cr l = false → lines (l +:+ String nl r) = l :: lines r.
Proof.
  intros Hnl Hcr. unfold lines. rewrite split_newlines_append by done.
  rewrite fmap_cons; simpl. by rewrite trim_one_end_keep.
Qed.

Lemma ends_with_char_append c s : ends_with_char c (s +:+ str1 c) = true.
Proof.
  induction s as [|a s IH]; simpl; [apply Ascii.eqb_refl |].
  destruct (s +:+ str1 c) eqn:E; [by destruct s | done].
Qed.

Lemma ends_with_char_append_r c a b : ends_with_char c b = true → ends_with_char c (a +:+ b) = true.
Proof.
  intros Hb. induction a as [|x a IH]; simpl; [done |].
  destruct (a +:+ b) eqn:E; [| done].
  destruct a; simpl in E; [by subst | done].
Qed.

(** *** Decimal numbers *)

Lemma is_ascii_digit_char (d : N) :
  (d < 10)%N → is_ascii_digit (pretty_N_char d) = true ∧ digit_value (pretty_N_char d) = d.
Proof.
  intros H.
  assert (d = 0 ∨ d = 1 ∨ d = 2 ∨ d = 3 ∨ d = 4 ∨ d = 5 ∨ d = 6 ∨ d = 7 ∨ d = 8 ∨ d = 9)%N
    as Hd by lia.
  by repeat destruct Hd as [-> | Hd]; subst.
Qed.

Lemma show_pos n : (0 < n)%N → show n = pretty_N_go n "".
Proof. intros H. unfold show, pretty, pretty_N. rewrite decide_False by lia. done. Qed.

Lemma parse_show_go max x s :
  (x ≤ max)%N → parse_digits max 0 (pretty_N_go x s) = parse_digits max x s.
Proof.
  revert s. induction x as [x IH] using (well_founded_induction N.lt_wf_0). intros s Hx.
  destruct (N.eq_dec x 0) as [-> | H0]; [by rewrite pretty_N_go_0 |].
  rewrite pretty_N_go_step by lia.
  assert (x / 10 < x)%N by (apply N.div_lt; lia).
  rewrite IH by lia. cbn [parse_digits].
  destruct (is_ascii_digit_char (x mod 10)) as [-> ->]; [by apply N.mod_lt |].
  cbv zeta. replace (x / 10 * 10 + x mod 10)%N with x
    by (rewrite (N.Div0.div_mod x 10) at 1; lia).
  destruct (N.leb_spec x max); [done | lia].
Qed.

Lemma show_digits_go x s :
  all_bytes is_ascii_digit s = true → all_bytes is_ascii_digit (pretty_N_go x s) = true.
Proof.
  revert s. induction x as [x IH] using (well_founded_induction N.lt_wf_0). intros s Hs.
  destruct (N.eq_dec x 0) as [-> | H0]; [by rewrite pretty_N_go_0 |].
  rewrite pretty_N_go_step by lia.
  apply IH; [apply N.div_lt; lia |]. simpl.
  by rewrite (proj1 (is_ascii_digit_char (x mod 10) ltac:(by apply N.mod_lt))), Hs.
Qed.

(** The first byte of a printed positive number is not ['0']. *)
Lemma show_head_go x s :
  (0 < x)%N → ∃ d r, pretty_N_go x s = String (pretty_N_char d) r ∧ (0 < d < 10)%N.
Proof.
  revert s. induction x as [x IH] using (well_founded_induction N.lt_wf_0). intros s Hx.
  rewrite pretty_N_go_step by lia.
  destruct (N.eq_dec (x / 10) 0) as [E | E].
  - rewrite E, pretty_N_go_0. exists (x mod 10)%N, s. split; [done |].
    assert (x < 10)%N by (by apply N.div_small_iff in E).
    rewrite N.mod_small by done. split; [lia | done].
  - apply IH; [apply N.div_lt; lia |]. by apply N.neq_0_lt_0.
Qed.

Lemma show_digits n : all_bytes is_ascii_digit (show n) = true.
Proof.
  destruct (N.eq_dec n 0) as [-> | H]; [done |].
  rewrite show_pos by lia. by apply show_digits_go.
Qed.

Lemma show_nonempty n : String.eqb (show n) "" = false.
Proof.
  destruct (N.eq_dec n 0) as [-> | H]; [done |].
  rewrite show_pos by lia. destruct (show_head_go n "") as (d & r & -> & _); [lia | done].
Qed.

Lemma parse_uint_digits max s :
  all_bytes is_ascii_digit s = true → String.eqb s "" = false →
  parse_uint max s = parse_digits max 0 s.
Proof.
  destruct s as [|c s]; [done |]. cbn [all_bytes parse_uint].
  intros [Hc _]%andb_true_iff _.
  destruct (Ascii.eqb_spec c "+"); [subst; discriminate | done].
Qed.

(** [n.to_string().parse()] gives [n] back, for every [n] of the width. *)
Lemma parse_uint_show max n : (n ≤ max)%N → parse_uint max (show n) = Some n.
Proof.
  intros H. rewrite parse_uint_digits; [| apply show_digits | apply show_nonempty].
  destruct (N.eq_dec n 0) as [-> | H0].
  - transitivity (if (0 <=? max)%N then Some 0%N else None); [reflexivity |].
    by rewrite (proj2 (N.leb_le 0 max)).
  - rewrite show_pos by lia. by rewrite parse_show_go.
Qed.

(** Printed numbers carry no redundant leading zero. *)
Lemma show_no_leading_zero n :
  (1 <? len (show n))%N && starts_with "0" (show n) = false.
Proof.
  destruct (N.eq_dec n 0) as [-> | H]; [done |].
  rewrite show_pos by lia. destruct (show_head_go n "") as (d & r & -> & Hd); [lia |].
  apply andb_false_iff. right.
  assert (d = 1 ∨ d = 2 ∨ d = 3 ∨ d = 4 ∨ d = 5 ∨ d = 6 ∨ d = 7 ∨ d = 8 ∨ d = 9)%N
    as Hd' by lia.
  by repeat destruct Hd' as [-> | Hd']; subst.
Qed.

Lemma show_contains c n : is_ascii_digit c = false → contains c (show n) = false.
Proof. intros H. eapply contains_class; [apply show_digits | done]. Qed.

Lemma show_not_dash n : String.eqb (show n) "-" = false.
Proof.
  destruct (String.eqb_spec (show n) "-") as [E |]; [| done].
  pose proof (show_digits n) as H. by rewrite E in H.
Qed.

(** *** UTF-8 *)

Lemma utf8_ascii s : all_bytes (λ c, (byte c <? 128)%N) s = true → utf8_valid s = true.
Proof.
  induction s as [|a s IH]; [done |]. cbn [all_bytes utf8_valid].
  intros [-> Hs]%andb_true_iff. by apply IH.
Qed.

(** *** String order *)

Lemma str_ltb_trichotomy a b : str_ltb a b = false → str_ltb b a = false → a = b.
Proof.
  unfold str_ltb. rewrite (String.compare_antisym b a).
  destruct (String.compare a b) eqn:E; simpl; try done.
  intros _ _. by apply String.compare_eq_iff.
Qed.

Lemma str_ltb_asym a b : str_ltb a b = true → str_ltb b a = false.
Proof.
  unfold str_ltb. rewrite (String.compare_antisym b a).
  by destruct (String.compare a b).
Qed.

Lemma str_ltb_irrefl a : str_ltb a a = false.
Proof. destruct (str_ltb a a) eqn:E; [| done]. pose proof (str_ltb_asym _ _ E). congruence. Qed.

Lemma str_ltb_cons a s b t :
  str_ltb (String a s) (String b t) =
    (byte a <? byte b)%N || ((byte a =? byte b)%N && str_ltb s t).
Proof.
  unfold str_ltb, byte. cbn [String.compare]. unfold Ascii.compare, N.ltb.
  destruct (N.compare_spec (N_of_ascii a) (N_of_ascii b)) as [E | E | E].
  - by rewrite E, N.eqb_refl.
  - done.
  - destruct (N.eqb_spec (N_of_ascii a) (N_of_ascii b)); [lia | done].
Qed.

Lemma str_ltb_trans a b c : str_ltb a b = true → str_ltb b c = true → str_ltb a c = true.
Proof.
  revert b c. induction a as [|x a IH]; intros [|y b] [|z c]; try done.
  rewrite !str_ltb_cons, !orb_true_iff, !andb_true_iff, !N.ltb_lt, !N.eqb_eq.
  intros [? | [? ?]] [? | [? ?]]; [left; lia | left; lia | left; lia | right].
  split; [lia | by eapply IH].
Qed.

(** [c <= a < b] implies [c <= b]. *)
Lemma str_ltb_advance a b c : str_ltb a c = false → str_ltb a b = true → str_ltb b c = false.
Proof.
  intros Hac Hab. destruct (str_ltb b c) eqn:E; [| done].
  by rewrite (str_ltb_trans a b c) in Hac.
Qed.

(** [a] not after [b] and different from it is before it. *)
Lemma str_ltb_total a b : str_ltb b a = false → a ≠ b → str_ltb a b = true.
Proof.
  intros Hba Hne. destruct (str_ltb a b) eqn:E; [done |]. by destruct Hne, (str_ltb_trichotomy a b).
Qed.
