(* ===== verification/RustWhitespace.v ===== *)
(** * White space in Rust strings

    [char::is_whitespace] and the functions of [str] built on it, on the UTF-8 bytes of a
    string. *)

From S2P Require Import Prelude RustStr.

Local Open Scope string_scope.
Local Open Scope N_scope.

(** The length in bytes of the white space character at the front of a string; 0 when there is
    none. The characters are those of Unicode's [White_Space] property. *)
Definition whitespace_len (s : string) : nat :=
  match s with
  | "" => 0%nat
  | String a r =>
      let n := byte a in
      if ((9 <=? n) && (n <=? 13)) || (n =? 32) then 1%nat
      else
        match r with
        | "" => 0%nat
        | String b r =>
            let m := byte b in
            if (n =? 0xC2) && ((m =? 0x85) || (m =? 0xA0)) then 2%nat
            else
              match r with
              | "" => 0%nat
              | String c _ =>
                  let k := byte c in
                  if ((n =? 0xE1) && (m =? 0x9A) && (k =? 0x80))
                     || ((n =? 0xE2) && (m =? 0x80)
                         && (((0x80 <=? k) && (k <=? 0x8A)) || (k =? 0xA8) || (k =? 0xA9) || (k =? 0xAF)))
                     || ((n =? 0xE2) && (m =? 0x81) && (k =? 0x9F))
                     || ((n =? 0xE3) && (m =? 0x80) && (k =? 0x80))
                  then 3%nat else 0%nat
              end
        end
  end.

(** [s.chars().any(char::is_whitespace)]. *)
Fixpoint any_whitespace (s : string) : bool :=
  match s with
  | "" => false
  | String _ r => negb (whitespace_len s =? 0)%nat || any_whitespace r
  end.

(** Puts a byte at the front of the first word, which is open. *)
Definition extend_word (c : ascii) (words : list string) : list string :=
  match words with [] => [str1 c] | w :: ws => String c w :: ws end.

(** The words of a string; the first is empty when the string starts with white space or is
    empty. [skip] counts the bytes left of the white space character being passed over. *)
Fixpoint words_from (skip : nat) (s : string) : list string :=
  match s with
  | "" => [""]
  | String c r =>
      match skip with
      | S k => words_from k r
      | O => match whitespace_len s with
             | S k => "" :: words_from k r
             | O => extend_word c (words_from O r)
             end
      end
  end.

(** [s.split_whitespace()]: the words between white space, none of them empty. *)
Definition split_whitespace (s : string) : list string :=
  filter (λ w, w ≠ "") (words_from O s).

Fixpoint skip_whitespace (skip : nat) (s : string) : string :=
  match s with
  | "" => ""
  | String _ r =>
      match skip with
      | S k => skip_whitespace k r
      | O => match whitespace_len s with S k => skip_whitespace k r | O => s end
      end
  end.

(** Drops the trailing white space. *)
Fixpoint trim_end (skip : nat) (s : string) : string :=
  match s with
  | "" => ""
  | String c r =>
      match skip with
      | S k => let t := trim_end k r in if String.eqb t "" then "" else String c t
      | O => match whitespace_len s with
             | S k => let t := trim_end k r in if String.eqb t "" then "" else String c t
             | O => String c (trim_end O r)
             end
      end
  end.

(** [s.trim()]. *)
Definition trim (s : string) : string := trim_end O (skip_whitespace O s).

Definition ascii_lowercase (c : ascii) : ascii :=
  if is_ascii_uppercase c then chr (byte c + 32) else c.

(** [s.to_ascii_lowercase()]. *)
Fixpoint to_ascii_lowercase (s : string) : string :=
  match s with "" => "" | String c r => String (ascii_lowercase c) (to_ascii_lowercase r) end.

Example words_sample :
  split_whitespace "  qdisc cake_mq  8001: root " = ["qdisc"; "cake_mq"; "8001:"; "root"].
Proof. reflexivity. Qed.

Example trim_sample : trim "  a b " = "a b" ∧ to_ascii_lowercase "WebSocket" = "websocket".
Proof. by split. Qed.

(** ** Words *)

Lemma whitespace_len_pos s : (whitespace_len s <= 3)%nat.
Proof. unfold whitespace_len. repeat case_match; lia. Qed.

Lemma words_cons skip s : ∃ w ws, words_from skip s = w :: ws.
Proof.
  revert skip. induction s as [| c s IH]; intros skip; [by eexists _, _ |]. simpl.
  destruct skip; [| apply IH]. case_match; [| by eexists _, _].
  destruct (IH O) as (w & ws & ->). by eexists _, _.
Qed.
