(* ===== verification/SchedRecord.v ===== *)
(** * Scheduler records: field validators and the ordered text record

    Models the private helpers at the end of [operations/scheduler.rs]: the
    identifier, fingerprint, period and byte-count validators, the canonical
    number parser, and [OrderedRecord], the reader of the tab-separated record
    format in which cursors and budget ledgers are stored. *)

From S2P Require Import Prelude RustStr.
Local Open Scope string_scope.

Abbreviation Res := (result string).

Definition MAX_EXACT_BYTES : N := 9007199254740991.

(** ** Validators *)

Definition require_identifier (name value : string) : Res unit :=
  fail_if (String.eqb value "" || (64 <? len value)%N
           || negb (all_bytes (λ c, is_ascii_alphanumeric c || contains c "_.:-") value))
    (name +:+ " is invalid").

Definition validate_scheduler_instance (value : string) : Res unit :=
  require_identifier "scheduler instance" value.

Definition require_lower_hex (name value : string) (bytes : N) : Res unit :=
  fail_if (negb (len value =? bytes)%N || negb (all_bytes is_lower_hex value))
    (name +:+ " is invalid").

Definition validate_accounted_bytes (name : string) (value : N) : Res unit :=
  fail_if (MAX_EXACT_BYTES <? value)%N (name +:+ " exceeds the exact accounting range").

Definition checked_bytes_add (lhs rhs : N) (name : string) : Res N :=
  value ← ok_or (u64_checked_add lhs rhs) (name +:+ " overflow");
  validate_accounted_bytes name value ≫= λ _, mret value.

Definition replace_reservation_charge (charged reserved consumed : N) (name : string) : Res N :=
  without_reservation ← ok_or (u64_checked_sub charged reserved)
    (name +:+ " is missing its reservation charge");
  checked_bytes_add without_reservation consumed name.

(** [year % 4 == 0 && (year % 100 != 0 || year % 400 == 0)] *)
Definition leap_year (year : N) : bool :=
  (year mod 4 =? 0)%N && (negb (year mod 100 =? 0)%N || (year mod 400 =? 0)%N).

Definition maximum_day (year month : N) : N :=
  if (month =? 2)%N then (if leap_year year then 29 else 28)
  else if (month =? 4)%N || (month =? 6)%N || (month =? 9)%N || (month =? 11)%N then 30
  else 31.

Definition validate_period (day month : string) : Res unit :=
  fail_if (negb (len day =? 8)%N || negb (len month =? 6)%N
           || negb (all_bytes is_ascii_digit day) || negb (all_bytes is_ascii_digit month)
           || negb (starts_with month day))
    "scheduler budget period is invalid" ≫= λ _,
  let '(y, md) := split_at 4 day in
  let '(m, d) := split_at 2 md in
  year ← ok_or (str_parse_u16 y) "scheduler budget year is invalid";
  parsed_month ← ok_or (str_parse_u8 m) "scheduler budget month is invalid";
  parsed_day ← ok_or (str_parse_u8 d) "scheduler budget day is invalid";
  fail_if (negb ((1970 <=? year)%N && (year <=? 9999)%N)
           || negb ((1 <=? parsed_month)%N && (parsed_month <=? 12)%N))
    "scheduler budget calendar date is invalid" ≫= λ _,
  fail_if ((parsed_day =? 0)%N || (maximum_day year parsed_month <? parsed_day)%N)
    "scheduler budget calendar date is invalid".

(** ** Canonical numbers *)

Definition parse_u64 (name value : string) : Res N :=
  fail_if (String.eqb value "" || ((1 <? len value)%N && starts_with "0" value))
    (name +:+ " is not canonical") ≫= λ _,
  ok_or (str_parse_u64 value) (name +:+ " is not an unsigned integer").

Definition optional_u64 (value : option N) : string :=
  match value with Some n => show n | None => "-" end.

Definition parse_optional_u64 (name value : string) : Res (option N) :=
  if String.eqb value "-" then Ok None
  else n ← parse_u64 name value; Ok (Some n).

(** ** The ordered record

    The reader's state is what is left of the [lines] iterator. *)

Module OrderedRecord.
Definition new (input header : string) : Res (list string) :=
  fail_if (negb (ends_with_char nl input) || contains (chr 0) input)
    "scheduler record is not a complete text record" ≫= λ _,
  match lines input with
  | first :: rest =>
      fail_if (negb (String.eqb first header)) "scheduler record header is invalid" ≫= λ _,
      mret rest
  | [] => Err "scheduler record header is invalid"
  end.

Definition field (expected : string) : M (list string) string string := λ record,
  match record with
  | [] => (Err ("scheduler record field " +:+ expected +:+ " is missing"), [])
  | line :: rest =>
      (match split_once tab line with
       | None => Err ("scheduler record field " +:+ expected +:+ " is malformed")
       | Some (name, value) =>
           fail_if (negb (String.eqb name expected) || String.eqb value ""
                    || contains tab value)
             ("scheduler record field " +:+ expected +:+ " is invalid") ≫= λ _,
           mret value
       end, rest)
  end.

Definition finish : M (list string) string unit := λ record,
  match record with
  | [] => (Ok tt, [])
  | _ :: rest => (Err "scheduler record has unexpected fields", rest)
  end.
End OrderedRecord.

(** ** Printing a record *)

(** One [name\tvalue\n] line of the [format!] strings. *)
Definition field_line (f : string * string) (rest : string) : string :=
  f.1 +:+ String tab (f.2 +:+ String nl rest).

Definition render (header : string) (fields : list (string * string)) : string :=
  header +:+ String nl (foldr field_line "" fields).

(** ** Lemmas *)

(** A visible ASCII byte; the record format uses none of them as a separator. *)
Definition printable (c : ascii) : bool := (32 <? byte c)%N && (byte c <? 127)%N.
Definition plain (s : string) : bool := negb (String.eqb s "") && all_bytes printable s.

Lemma plain_contains s c : plain s = true → printable c = false → contains c s = false.
Proof. intros [_ H]%andb_true_iff. by apply contains_class. Qed.

Lemma class_plain p s :
  (∀ c, p c = true → printable c = true) →
  String.eqb s "" = false → all_bytes p s = true → plain s = true.
Proof.
  intros Hp Hs Ha. unfold plain. rewrite Hs. by apply (all_bytes_impl p).
Qed.

Lemma digit_printable c : is_ascii_digit c = true → printable c = true.
Proof.
  unfold is_ascii_digit, printable. rewrite !andb_true_iff, !N.leb_le, !N.ltb_lt. lia.
Qed.

Lemma hex_printable c : is_lower_hex c = true → printable c = true.
Proof.
  unfold is_lower_hex. intros [H | H]%orb_true_iff; [by apply digit_printable |].
  revert H. unfold printable. rewrite !andb_true_iff, !N.leb_le, !N.ltb_lt. lia.
Qed.

Lemma identifier_printable c :
  is_ascii_alphanumeric c || contains c "_.:-" = true → printable c = true.
Proof.
  intros [H | H]%orb_true_iff.
  - revert H. unfold is_ascii_alphanumeric, is_ascii_digit, is_ascii_lowercase,
      is_ascii_uppercase, printable.
    rewrite !orb_true_iff, !andb_true_iff, !N.leb_le, !N.ltb_lt. lia.
  - rewrite !contains_cons in H.
    repeat (apply orb_true_iff in H as [H%Ascii.eqb_eq | H]; [by subst |]). done.
Qed.

Lemma show_plain n : plain (show n) = true.
Proof.
  eapply (class_plain is_ascii_digit);
    [apply digit_printable | apply show_nonempty | apply show_digits].
Qed.

Lemma optional_u64_plain o : plain (optional_u64 o) = true.
Proof. destruct o; [apply show_plain | done]. Qed.

Lemma require_identifier_plain name s u : require_identifier name s = Ok u → plain s = true.
Proof.
  intros H%fail_if_ok_inv. reflect_bools.
  by eapply class_plain; [apply identifier_printable | ..].
Qed.

Lemma require_lower_hex_plain name s n u :
  (0 < n)%N → require_lower_hex name s n = Ok u → plain s = true.
Proof.
  intros Hn H%fail_if_ok_inv. reflect_bools.
  eapply class_plain; [apply hex_printable | | done]. by destruct s; [unfold len in *; simpl in *; lia |].
Qed.

(** A fingerprint is never the placeholder of an absent field. *)
Lemma require_lower_hex_not_dash name s n u :
  (1 < n)%N → require_lower_hex name s n = Ok u → String.eqb s "-" = false.
Proof.
  intros Hn H%fail_if_ok_inv. reflect_bools.
  destruct (String.eqb_spec s "-"); [subst; unfold len in *; simpl in *; lia | done].
Qed.

Lemma parse_u64_show name n : is_u64 n → parse_u64 name (show n) = Ok n.
Proof.
  intros H. unfold parse_u64.
  rewrite show_nonempty, show_no_leading_zero. simpl. unfold str_parse_u64.
  by rewrite parse_uint_show.
Qed.

Lemma parse_optional_show name o :
  (∀ n, o = Some n → is_u64 n) → parse_optional_u64 name (optional_u64 o) = Ok o.
Proof.
  intros H. unfold parse_optional_u64. destruct o as [n |]; [| done]. simpl.
  rewrite show_not_dash, parse_u64_show by auto. done.
Qed.

Lemma parse_digits_max max acc s n : (acc ≤ max)%N → parse_digits max acc s = Some n → (n ≤ max)%N.
Proof.
  revert acc. induction s as [|c s IH]; intros acc Hacc; cbn [parse_digits].
  - by intros [= <-].
  - destruct (is_ascii_digit c); [| done]. cbv zeta.
    destruct (N.leb_spec (acc * 10 + digit_value c) max); [by apply IH | done].
Qed.

(** Whatever is parsed fits the width. *)
Lemma parse_uint_max max s n : parse_uint max s = Some n → (n ≤ max)%N.
Proof.
  destruct s as [|c s]; [done |]. unfold parse_uint.
  destruct (Ascii.eqb c "+"); [destruct (String.eqb s ""); [done |] |];
    apply parse_digits_max, N.le_0_l.
Qed.

Lemma parse_u64_range name s n : parse_u64 name s = Ok n → is_u64 n.
Proof. intros H. unfold parse_u64 in H. unbind. by eapply parse_uint_max. Qed.

Lemma parse_optional_u64_range name s n : parse_optional_u64 name s = Ok (Some n) → is_u64 n.
Proof.
  unfold parse_optional_u64. destruct (String.eqb s "-"); [done |].
  intros H. unbind. injection H as <-. by eapply parse_u64_range.
Qed.

(** Reading a rendered record back gives its lines. *)
Definition plain_fields (fields : list (string * string)) : Prop :=
  Forall (λ f, plain f.1 = true ∧ plain f.2 = true) fields.

Definition field_text (f : string * string) : string := f.1 +:+ String tab f.2.

Lemma field_line_text f rest : field_line f rest = field_text f +:+ String nl rest.
Proof. unfold field_line, field_text. by rewrite append_assoc. Qed.

Lemma field_text_contains f c :
  plain f.1 = true → plain f.2 = true → printable c = false → c ≠ tab →
  contains c (field_text f) = false.
Proof.
  intros H1 H2 Hc Htab. unfold field_text.
  rewrite contains_append, contains_cons, !plain_contains by done.
  by destruct (Ascii.eqb_spec c tab).
Qed.

Lemma lines_fields fields :
  plain_fields fields → lines (foldr field_line "" fields) = field_text <$> fields.
Proof.
  induction 1 as [|f fields [H1 H2] _ IH]; [done |].
  cbn [foldr]. rewrite field_line_text, lines_append by (by apply field_text_contains).
  by rewrite IH.
Qed.

Lemma fields_no_nul fields :
  plain_fields fields → contains (chr 0) (foldr field_line "" fields) = false.
Proof.
  induction 1 as [|f fields [H1 H2] _ IH]; [done |].
  cbn [foldr]. rewrite field_line_text, contains_append, contains_cons, IH.
  by rewrite field_text_contains.
Qed.

Lemma render_ends header fields : ends_with_char nl (render header fields) = true.
Proof.
  unfold render. apply ends_with_char_append_r.
  assert (∀ s, ends_with_char nl s = true ∨ s = "" → ends_with_char nl (String nl s) = true)
    as Hs by (intros s [H | ->]; [destruct s; done | done]).
  apply Hs. induction fields as [|f fields IH]; [by right | left].
  cbn [foldr]. rewrite field_line_text. by apply ends_with_char_append_r, Hs.
Qed.

Lemma record_new_render header fields :
  contains nl header = false → contains cr header = false → contains (chr 0) header = false →
  plain_fields fields →
  OrderedRecord.new (render header fields) header = Ok (field_text <$> fields).
Proof.
  intros Hnl Hcr H0 Hf. unfold OrderedRecord.new. rewrite render_ends. unfold render.
  rewrite contains_append, contains_cons, H0, fields_no_nul by done. simpl.
  rewrite lines_append, lines_fields by done. by rewrite String.eqb_refl.
Qed.

Lemma record_field name value rest :
  plain name = true → plain value = true →
  OrderedRecord.field name (field_text (name, value) :: rest) = (Ok value, rest).
Proof.
  intros Hn Hv. unfold OrderedRecord.field, field_text; cbn [fst snd].
  rewrite split_once_append by (by apply plain_contains).
  rewrite String.eqb_refl, (plain_contains value tab) by done.
  by apply andb_true_iff in Hv as [->%negb_true_iff _].
Qed.

(** Records are ASCII text. *)
Definition is_ascii (s : string) : bool := all_bytes (λ c, (byte c <? 128)%N) s.

Lemma plain_ascii s : plain s = true → is_ascii s = true.
Proof.
  intros [_ H]%andb_true_iff. eapply all_bytes_impl; [| exact H].
  intros c. unfold printable. rewrite andb_true_iff, !N.ltb_lt. lia.
Qed.

Lemma render_ascii header fields :
  is_ascii header = true → plain_fields fields → is_ascii (render header fields) = true.
Proof.
  intros Hh Hf. unfold render, is_ascii in *. rewrite all_bytes_append, Hh. simpl.
  induction Hf as [|f fields [H1%plain_ascii H2%plain_ascii] _ IH]; [done |].
  cbn [foldr]. unfold field_line, is_ascii in *. rewrite all_bytes_append, H1. simpl.
  by rewrite all_bytes_append, H2.
Qed.
