(* ===== verification/ScheduleCursor.v ===== *)
(** * The durable schedule cursor and the admission decision

    Models [SchedulerGenerations], [FailedAttemptFence], [ScheduleCursor] and
    [evaluate_schedule] of [operations/scheduler.rs]. The cursor remembers when
    a calibration last succeeded and which attempt failed; the decision
    function combines it with the gates the coordinator observes. *)

From S2P Require Import Prelude RustStr SchedRecord.
Local Open Scope string_scope.

Definition CURSOR_HEADER : string := "cake-autorate-native-schedule" +:+ String tab "2".

(** ** Generations: the authority under which an attempt was made *)

Record SchedulerGenerations := {
  config_fingerprint : string;
  route_fingerprint : string;
  runtime_sequence : N;
  coordinator_generation : string;
}.

#[export] Instance SchedulerGenerations_eq_dec : EqDecision SchedulerGenerations.
Proof. solve_decision. Defined.

Definition generations_validate (g : SchedulerGenerations) : Res unit :=
  require_lower_hex "scheduler config fingerprint" g.(config_fingerprint) 64 ≫= λ _,
  require_lower_hex "scheduler route fingerprint" g.(route_fingerprint) 64 ≫= λ _,
  fail_if (g.(runtime_sequence) =? 0)%N "scheduler runtime sequence must be non-zero" ≫= λ _,
  require_lower_hex "scheduler coordinator generation" g.(coordinator_generation) 32.

(** ** The fence of a failed attempt *)

Record FailedAttemptFence := {
  fence_due_unix_s : N;
  interval_s : N;
  generations : SchedulerGenerations;
  explicit_retry_sequence : N;
}.

#[export] Instance FailedAttemptFence_eq_dec : EqDecision FailedAttemptFence.
Proof. solve_decision. Defined.

Definition fence_validate (f : FailedAttemptFence) : Res unit :=
  fail_if ((f.(fence_due_unix_s) =? 0)%N || (f.(interval_s) =? 0)%N)
    "failed scheduler attempt is missing its due time or interval" ≫= λ _,
  generations_validate f.(generations).

Definition blocks (f : FailedAttemptFence) (due_unix_s : N) (g : SchedulerGenerations)
    (explicit_retry : N) : bool :=
  (f.(fence_due_unix_s) =? due_unix_s)%N && bool_decide (f.(generations) = g)
  && (f.(explicit_retry_sequence) =? explicit_retry)%N.

(** ** The cursor *)

Record ScheduleCursor := {
  cursor_instance : string;
  cursor_sequence : N;
  initial_due_unix_s : N;
  last_success_unix_s : option N;
  failed_attempt : option FailedAttemptFence;
}.

Definition cursor_validate (c : ScheduleCursor) : Res unit :=
  require_identifier "scheduler instance" c.(cursor_instance) ≫= λ _,
  fail_if ((c.(cursor_sequence) =? 0)%N || (c.(initial_due_unix_s) =? 0)%N)
    "scheduler cursor identity is incomplete" ≫= λ _,
  match c.(failed_attempt) with
  | Some fence => fence_validate fence
  | None => Ok tt
  end.

Definition cursor_new (instance : string) (initial_due : N) : Res ScheduleCursor :=
  let cursor := {| cursor_instance := instance; cursor_sequence := 1;
                   initial_due_unix_s := initial_due; last_success_unix_s := None;
                   failed_attempt := None |} in
  cursor_validate cursor ≫= λ _, mret cursor.

Definition due_unix_s (c : ScheduleCursor) (interval : N) : Res N :=
  fail_if (interval =? 0)%N "scheduler interval must be non-zero" ≫= λ _,
  interval_due ← match c.(last_success_unix_s) with
                 | Some last => ok_or (u64_checked_add last interval)
                                  "scheduler due time overflow"
                 | None => Ok c.(initial_due_unix_s)
                 end;
  mret (N.max interval_due c.(initial_due_unix_s)).

(** Field assignments of the [&mut self] methods. *)
Definition cursor_set_sequence (n : N) (c : ScheduleCursor) : ScheduleCursor :=
  {| cursor_instance := c.(cursor_instance); cursor_sequence := n;
     initial_due_unix_s := c.(initial_due_unix_s);
     last_success_unix_s := c.(last_success_unix_s); failed_attempt := c.(failed_attempt) |}.
Definition cursor_set_failed (f : option FailedAttemptFence) (c : ScheduleCursor) : ScheduleCursor :=
  {| cursor_instance := c.(cursor_instance); cursor_sequence := c.(cursor_sequence);
     initial_due_unix_s := c.(initial_due_unix_s);
     last_success_unix_s := c.(last_success_unix_s); failed_attempt := f |}.
Definition cursor_set_success (t : option N) (c : ScheduleCursor) : ScheduleCursor :=
  {| cursor_instance := c.(cursor_instance); cursor_sequence := c.(cursor_sequence);
     initial_due_unix_s := c.(initial_due_unix_s);
     last_success_unix_s := t; failed_attempt := c.(failed_attempt) |}.

Definition cursor_bump : M ScheduleCursor string unit :=
  self ← get;
  next ← lift (ok_or (u64_checked_add self.(cursor_sequence) 1) "scheduler cursor sequence overflow");
  modify (cursor_set_sequence next).

Definition record_failure (fence : FailedAttemptFence) : M ScheduleCursor string unit :=
  lift (fence_validate fence) ≫= λ _,
  self ← get;
  due ← lift (due_unix_s self fence.(interval_s));
  lift (fail_if (negb (fence.(fence_due_unix_s) =? due)%N)
    "scheduler failure does not belong to the current due slot") ≫= λ _,
  cursor_bump ≫= λ _,
  modify (cursor_set_failed (Some fence)) ≫= λ _,
  self' ← get;
  lift (cursor_validate self').

Definition record_success (interval due completed : N) : M ScheduleCursor string unit :=
  self ← get;
  current ← lift (due_unix_s self interval);
  lift (fail_if (negb (due =? current)%N)
    "scheduler completion does not belong to the current due slot") ≫= λ _,
  lift (fail_if ((due =? 0)%N || (completed <? due)%N)
    "scheduler completion precedes its due calendar slot") ≫= λ _,
  lift (fail_if (is_some_and (λ last, completed <? last)%N self.(last_success_unix_s))
    "scheduler completion time moved backwards") ≫= λ _,
  cursor_bump ≫= λ _,
  modify (cursor_set_success (Some completed)) ≫= λ _,
  modify (cursor_set_failed None) ≫= λ _,
  self' ← get;
  lift (cursor_validate self').

(** ** The text record *)

Definition fence_fields (o : option FailedAttemptFence) : string * string * string * string
                                                         * string * string * string :=
  match o with
  | Some f => (show f.(fence_due_unix_s), show f.(interval_s),
               f.(generations).(config_fingerprint), f.(generations).(route_fingerprint),
               show f.(generations).(runtime_sequence), f.(generations).(coordinator_generation),
               show f.(explicit_retry_sequence))
  | None => ("-", "-", "-", "-", "-", "-", "-")
  end.

Definition cursor_encode (c : ScheduleCursor) : Res string :=
  cursor_validate c ≫= λ _,
  let '(failed_due, failed_interval, failed_config, failed_route, failed_runtime,
        failed_coordinator, retry) := fence_fields c.(failed_attempt) in
  mret (render CURSOR_HEADER
    [("instance", c.(cursor_instance)); ("sequence", show c.(cursor_sequence));
     ("initial_due_unix_s", show c.(initial_due_unix_s));
     ("last_success_unix_s", optional_u64 c.(last_success_unix_s));
     ("failed_due_unix_s", failed_due); ("failed_interval_s", failed_interval);
     ("failed_config_fingerprint", failed_config); ("failed_route_fingerprint", failed_route);
     ("failed_runtime_sequence", failed_runtime);
     ("failed_coordinator_generation", failed_coordinator);
     ("failed_explicit_retry_sequence", retry)]).

Definition is_dash (s : string) : bool := String.eqb s "-".

Definition cursor_parse : M (list string) string ScheduleCursor :=
  instance ← OrderedRecord.field "instance";
  sequence_text ← OrderedRecord.field "sequence";
  sequence ← lift (parse_u64 "scheduler sequence" sequence_text);
  initial_text ← OrderedRecord.field "initial_due_unix_s";
  initial_due ← lift (parse_u64 "scheduler initial due time" initial_text);
  last_text ← OrderedRecord.field "last_success_unix_s";
  last_success ← lift (parse_optional_u64 "scheduler last success" last_text);
  failed_due ← OrderedRecord.field "failed_due_unix_s";
  failed_interval ← OrderedRecord.field "failed_interval_s";
  failed_config ← OrderedRecord.field "failed_config_fingerprint";
  failed_route ← OrderedRecord.field "failed_route_fingerprint";
  failed_runtime ← OrderedRecord.field "failed_runtime_sequence";
  failed_coordinator ← OrderedRecord.field "failed_coordinator_generation";
  failed_retry ← OrderedRecord.field "failed_explicit_retry_sequence";
  OrderedRecord.finish ≫= λ _,
  let fields := [failed_due; failed_interval; failed_config; failed_route; failed_runtime;
                 failed_coordinator; failed_retry] in
  let absent := forallb is_dash fields in
  let present := forallb (λ s, negb (is_dash s)) fields in
  failed ← lift (
    if absent then Ok None
    else if present then
      due ← parse_u64 "failed scheduler due time" failed_due;
      interval ← parse_u64 "failed scheduler interval" failed_interval;
      runtime ← parse_u64 "failed scheduler runtime sequence" failed_runtime;
      retry ← parse_u64 "failed scheduler retry sequence" failed_retry;
      mret (Some {| fence_due_unix_s := due; interval_s := interval;
                    generations := {| config_fingerprint := failed_config;
                                      route_fingerprint := failed_route;
                                      runtime_sequence := runtime;
                                      coordinator_generation := failed_coordinator |};
                    explicit_retry_sequence := retry |})
    else Err "scheduler failed-attempt fence is partial");
  mret {| cursor_instance := instance; cursor_sequence := sequence;
          initial_due_unix_s := initial_due; last_success_unix_s := last_success;
          failed_attempt := failed |}.

Definition cursor_decode (input : string) : Res ScheduleCursor :=
  record ← OrderedRecord.new input CURSOR_HEADER;
  cursor ← (cursor_parse record).1;
  cursor_validate cursor ≫= λ _,
  encoded ← cursor_encode cursor;
  fail_if (negb (String.eqb encoded input)) "scheduler cursor record is not canonical" ≫= λ _,
  mret cursor.

(** ** The admission decision *)

Inductive SchedulerBlock :=
| Disabled | ClockMovedBackwards | WindowClosed | ConfigurationPending | RecoveryPending
| ManualJobPriority | CoordinatorBusy | RouteNotReady | RuntimeNotReady | QuietWindowPending
| AccountingUnavailable | BudgetExhausted | UnchangedFailedAttempt.

Inductive SchedulerDecision :=
| Dormant (reason : SchedulerBlock)
| WakeAt (at_unix_s : N)
| AwaitState (reason : SchedulerBlock)
| Coalesced
| Admit (due_unix_s traffic_budget : N).

Record SchedulerGates := {
  configuration_committed : bool;
  recovery_clear : bool;
  manual_job_pending : bool;
  coordinator_idle : bool;
  route_ready : bool;
  runtime_ready : bool;
  quiet_window_ready : bool;
  accounting_healthy : bool;
  scheduled_job_active : bool;
}.

Record SchedulerObservation := {
  now_unix_s : N;
  window_open : bool;
  next_window_open_unix_s : option N;
  obs_generations : SchedulerGenerations;
  obs_explicit_retry_sequence : N;
  gates : SchedulerGates;
}.

(** The ordered table of the [for (ready, reason) in [...]] loop. *)
Definition gate_table (g : SchedulerGates) : list (bool * SchedulerBlock) :=
  [(g.(configuration_committed), ConfigurationPending);
   (g.(recovery_clear), RecoveryPending);
   (negb g.(manual_job_pending), ManualJobPriority);
   (g.(coordinator_idle), CoordinatorBusy);
   (g.(route_ready), RouteNotReady);
   (g.(runtime_ready), RuntimeNotReady);
   (g.(quiet_window_ready), QuietWindowPending);
   (g.(accounting_healthy), AccountingUnavailable)].

Fixpoint first_not_ready (l : list (bool * SchedulerBlock)) : option SchedulerBlock :=
  match l with
  | [] => None
  | (ready, reason) :: l => if ready then first_not_ready l else Some reason
  end.

Definition evaluate_schedule (enabled : bool) (interval maximum_job_traffic_bytes
    available_traffic_bytes : N) (c : ScheduleCursor) (o : SchedulerObservation)
    : Res SchedulerDecision :=
  cursor_validate c ≫= λ _,
  generations_validate o.(obs_generations) ≫= λ _,
  if negb enabled then Ok (Dormant Disabled) else
  if is_some_and (λ last, o.(now_unix_s) <? last)%N c.(last_success_unix_s) then Ok (AwaitState ClockMovedBackwards) else
  due ← due_unix_s c interval;
  if (o.(now_unix_s) <? due)%N then Ok (WakeAt due) else
  if negb o.(window_open) then
    match o.(next_window_open_unix_s) with
    | Some next => if (o.(now_unix_s) <? next)%N then Ok (WakeAt next)
                   else Ok (AwaitState WindowClosed)
    | None => Ok (AwaitState WindowClosed)
    end else
  if o.(gates).(scheduled_job_active) then Ok Coalesced else
  match first_not_ready (gate_table o.(gates)) with
  | Some reason => Ok (AwaitState reason)
  | None =>
  let decide_budget :=
    fail_if ((MAX_EXACT_BYTES <? maximum_job_traffic_bytes)%N
             || (MAX_EXACT_BYTES <? available_traffic_bytes)%N)
      "scheduler traffic budget exceeds the exact accounting range" ≫= λ _,
    let traffic_budget := N.min maximum_job_traffic_bytes available_traffic_bytes in
    if (traffic_budget =? 0)%N then Ok (AwaitState BudgetExhausted)
    else Ok (Admit due traffic_budget) in
  match c.(failed_attempt) with
  | Some failure =>
      let same_authority := bool_decide (failure.(generations) = o.(obs_generations))
        && (failure.(explicit_retry_sequence) =? o.(obs_explicit_retry_sequence))%N in
      fail_if (same_authority && negb (failure.(fence_due_unix_s) =? due)%N)
        "scheduler due time changed without a configuration or retry generation" ≫= λ _,
      if blocks failure due o.(obs_generations) o.(obs_explicit_retry_sequence)
      then Ok (AwaitState UnchangedFailedAttempt)
      else decide_budget
  | None => decide_budget
  end
  end.

(** ** Well-typed values: every [u64] field fits its width *)

Definition generations_typed (g : SchedulerGenerations) : Prop := is_u64 g.(runtime_sequence).
Definition fence_typed (f : FailedAttemptFence) : Prop :=
  is_u64 f.(fence_due_unix_s) ∧ is_u64 f.(interval_s) ∧ generations_typed f.(generations)
  ∧ is_u64 f.(explicit_retry_sequence).
Definition cursor_typed (c : ScheduleCursor) : Prop :=
  is_u64 c.(cursor_sequence) ∧ is_u64 c.(initial_due_unix_s)
  ∧ (∀ t, c.(last_success_unix_s) = Some t → is_u64 t)
  ∧ (∀ f, c.(failed_attempt) = Some f → fence_typed f).

(** A history of completed and failed attempts, as the scheduler applies it. *)
Inductive cursor_event :=
| Succeeded (interval due completed : N)
| Failed (fence : FailedAttemptFence).

Definition cursor_apply (e : cursor_event) : M ScheduleCursor string unit :=
  match e with
  | Succeeded interval due completed => record_success interval due completed
  | Failed fence => record_failure fence
  end.

Inductive cursor_run : ScheduleCursor → list cursor_event → ScheduleCursor → Prop :=
| cursor_run_nil c : cursor_run c [] c
| cursor_run_cons c c1 c2 e es :
    cursor_apply e c = (Ok tt, c1) → cursor_run c1 es c2 → cursor_run c (e :: es) c2.

Definition is_success (e : cursor_event) : bool :=
  match e with Succeeded _ _ _ => true | Failed _ => false end.
Definition successes (es : list cursor_event) : N :=
  N.of_nat (length (filter is_success es)).
Definition event_interval_at_least (m : N) (e : cursor_event) : Prop :=
  match e with Succeeded interval _ _ => (m ≤ interval)%N | Failed _ => True end.

(** ** Validation lemmas *)

Lemma generations_validate_ok g u :
  generations_validate g = Ok u →
  plain g.(config_fingerprint) = true ∧ plain g.(route_fingerprint) = true ∧
  plain g.(coordinator_generation) = true ∧ is_dash g.(config_fingerprint) = false ∧
  is_dash g.(route_fingerprint) = false ∧ is_dash g.(coordinator_generation) = false.
Proof.
  unfold generations_validate. intros H. unbind.
  repeat split; (by eapply require_lower_hex_plain; [| eassumption])
    || (by eapply require_lower_hex_not_dash; [| eassumption]).
Qed.

Lemma fence_validate_ok f u :
  fence_validate f = Ok u →
  f.(fence_due_unix_s) ≠ 0%N ∧ f.(interval_s) ≠ 0%N ∧ generations_validate f.(generations) = Ok u.
Proof. unfold fence_validate. intros H. unbind. by reflect_bools. Qed.

Lemma cursor_validate_ok c u :
  cursor_validate c = Ok u ↔
  (∃ v, require_identifier "scheduler instance" c.(cursor_instance) = Ok v)
  ∧ c.(cursor_sequence) ≠ 0%N ∧ c.(initial_due_unix_s) ≠ 0%N
  ∧ (∀ f, c.(failed_attempt) = Some f → fence_validate f = Ok u).
Proof.
  unfold cursor_validate. split.
  - intros H. unbind. reflect_bools. split_and!; [eauto | done | done |].
    intros f Hf. by rewrite Hf in H.
  - intros ([v Hi] & H1 & H2 & Hf). rewrite Hi; simpl.
    apply N.eqb_neq in H1 as ->. apply N.eqb_neq in H2 as ->. simpl.
    destruct c.(failed_attempt); [by apply Hf | by destruct u].
Qed.

Lemma due_unix_s_ok c i d :
  due_unix_s c i = Ok d ↔
  i ≠ 0%N ∧
  match c.(last_success_unix_s) with
  | Some last => is_u64 (last + i) ∧ d = N.max (last + i) c.(initial_due_unix_s)
  | None => d = c.(initial_due_unix_s)
  end.
Proof.
  unfold due_unix_s. destruct (N.eqb_spec i 0) as [-> | Hi]; simpl; [split; [done | by intros [? _]] |].
  destruct c.(last_success_unix_s) as [last |]; simpl.
  - destruct (u64_checked_add last i) as [v |] eqn:E; simpl.
    + apply u64_checked_add_Some in E as [-> Hv]. split; [intros [= <-]; done |].
      by intros (_ & _ & ->).
    + apply u64_checked_add_None in E. unfold is_u64. split; [done | lia].
  - rewrite N.max_id. split; [intros [= <-]; done | by intros [_ ->]].
Qed.

Lemma cursor_bump_inv c x c' :
  cursor_bump c = (x, c') →
  (x = Ok tt ∧ c' = cursor_set_sequence (c.(cursor_sequence) + 1) c
   ∧ is_u64 (c.(cursor_sequence) + 1))
  ∨ (∃ e, x = Err e ∧ c' = c).
Proof.
  unfold cursor_bump, mbind, M_bind, get, lift, modify.
  destruct (u64_checked_add (cursor_sequence c) 1) eqn:E; simpl; intros [= <- <-].
  - apply u64_checked_add_Some in E as [-> ?]. by left.
  - right. eauto.
Qed.

Lemma record_failure_ok f c u c' :
  record_failure f c = (Ok u, c') →
  fence_validate f = Ok tt ∧ due_unix_s c f.(interval_s) = Ok f.(fence_due_unix_s)
  ∧ c' = cursor_set_failed (Some f) (cursor_set_sequence (c.(cursor_sequence) + 1) c)
  ∧ is_u64 (c.(cursor_sequence) + 1) ∧ cursor_validate c' = Ok tt.
Proof.
  unfold record_failure. intros H. unbind. reflect_bools. subst.
  apply cursor_bump_inv in Ha3 as [(_ & -> & Hu) | (? & ? & _)]; [| done].
  repeat match goal with x : unit |- _ => destruct x end.
  done.
Qed.

Lemma record_success_ok i d t c u c' :
  record_success i d t c = (Ok u, c') →
  due_unix_s c i = Ok d ∧ (0 < d ≤ t)%N
  ∧ (∀ last, c.(last_success_unix_s) = Some last → (last ≤ t)%N)
  ∧ c' = cursor_set_failed None (cursor_set_success (Some t)
           (cursor_set_sequence (c.(cursor_sequence) + 1) c))
  ∧ is_u64 (c.(cursor_sequence) + 1) ∧ cursor_validate c' = Ok tt.
Proof.
  unfold record_success. intros H. unbind. reflect_bools. subst.
  match goal with H : cursor_bump _ = _ |- _ =>
    apply cursor_bump_inv in H as [(_ & -> & Hu) | (? & ? & _)]; [| done] end.
  repeat match goal with x : unit |- _ => destruct x end.
  split_and!; try done; [lia |].
  intros last E. by eapply is_some_and_false, N.ltb_ge in E.
Qed.

(** *** The text record *)

Lemma cursor_header_clean :
  contains nl CURSOR_HEADER = false ∧ contains cr CURSOR_HEADER = false
  ∧ contains (chr 0) CURSOR_HEADER = false.
Proof. by vm_compute. Qed.

Lemma fence_fields_plain c u :
  cursor_validate c = Ok u →
  let '(a, b, d, e, f, g, h) := fence_fields c.(failed_attempt) in
  plain a = true ∧ plain b = true ∧ plain d = true ∧ plain e = true ∧ plain f = true
  ∧ plain g = true ∧ plain h = true.
Proof.
  intros (_ & _ & _ & Hf)%cursor_validate_ok. unfold fence_fields.
  destruct c.(failed_attempt) as [f |]; [| done].
  specialize (Hf f eq_refl). apply fence_validate_ok in Hf as (_ & _ & Hg).
  apply generations_validate_ok in Hg as (? & ? & ? & _).
  split_and!; try done; apply show_plain.
Qed.

(** The parser reads back the fields of a rendered record. *)
Lemma cursor_parse_render c u :
  cursor_typed c → cursor_validate c = Ok u →
  let '(a, b, d, e, f, g, h) := fence_fields c.(failed_attempt) in
  (cursor_parse (field_text <$>
    [("instance", c.(cursor_instance)); ("sequence", show c.(cursor_sequence));
     ("initial_due_unix_s", show c.(initial_due_unix_s));
     ("last_success_unix_s", optional_u64 c.(last_success_unix_s));
     ("failed_due_unix_s", a); ("failed_interval_s", b);
     ("failed_config_fingerprint", d); ("failed_route_fingerprint", e);
     ("failed_runtime_sequence", f); ("failed_coordinator_generation", g);
     ("failed_explicit_retry_sequence", h)])).1 = Ok c.
Proof.
  intros (Hs & Hi & Hl & Hf) Hv. pose proof (fence_fields_plain _ _ Hv) as Hp.
  apply cursor_validate_ok in Hv as ([? Hid%require_identifier_plain] & _ & _ & Hfv).
  destruct (fence_fields (failed_attempt c)) as [[[[[[a b] d] e] f] g] h] eqn:E.
  destruct Hp as (? & ? & ? & ? & ? & ? & ?).
  unfold cursor_parse, mbind, M_bind, lift. cbn [fmap list_fmap].
  repeat (rewrite record_field by (done || apply show_plain || apply optional_u64_plain);
          cbn [OrderedRecord.finish];
          rewrite ?parse_u64_show, ?parse_optional_show by done).
  destruct c as [ci cs cd cl [fa |]]; cbn in *; simplify_eq; [| done].
  specialize (Hf fa eq_refl) as (? & ? & ? & ?).
  destruct (fence_validate_ok _ _ (Hfv fa eq_refl)) as (_ & _ & Hg).
  apply generations_validate_ok in Hg as (_ & _ & _ & D1 & D2 & D3).
  unfold is_dash in *. rewrite D1, D2, D3, !show_not_dash. cbn.
  rewrite !parse_u64_show by done. by destruct fa as [? ? [] ?].
Qed.

Lemma cursor_roundtrip c s :
  cursor_typed c → cursor_encode c = Ok s → cursor_decode s = Ok c.
Proof.
  intros Ht He. unfold cursor_decode.
  assert (He' := He). unfold cursor_encode in He'. unbind. destruct a.
  pose proof (fence_fields_plain _ _ Ha) as Hp.
  pose proof (cursor_parse_render c _ Ht Ha) as Hparse.
  destruct (fence_fields (failed_attempt c)) as [[[[[[a b] d] e] f] g] h].
  unbind; subst s. destruct cursor_header_clean as (? & ? & ?).
  destruct Hp as (? & ? & ? & ? & ? & ? & ?).
  rewrite record_new_render; try done.
  - cbn [mbind result_bind]. rewrite Hparse. cbn [mbind result_bind].
    rewrite Ha. cbn [mbind result_bind]. rewrite He. cbn [mbind result_bind].
    by rewrite String.eqb_refl.
  - apply cursor_validate_ok in Ha as ([? ?%require_identifier_plain] & _).
    repeat constructor; try done; try apply show_plain; apply optional_u64_plain.
Qed.

(** A valid cursor written by [ScheduleCursor::encode] is read back unchanged
    by [ScheduleCursor::decode], failure fence included. *)
Theorem cursor_decode_encode c s :
  cursor_typed c → cursor_encode c = Ok s → cursor_decode s = Ok c.
Proof. apply cursor_roundtrip. Qed.

Lemma cursor_encode_ascii c s : cursor_encode c = Ok s → is_ascii s = true.
Proof.
  unfold cursor_encode. intros H. unbind. pose proof (fence_fields_plain _ _ Ha) as Hp.
  apply cursor_validate_ok in Ha as ([? ?%require_identifier_plain] & _).
  destruct (fence_fields (failed_attempt c)) as [[[[[[a' b] d] e] f] g] h]. unbind. subst s.
  destruct Hp as (? & ? & ? & ? & ? & ? & ?). apply render_ascii; [done |].
  repeat constructor; try done; try apply show_plain; apply optional_u64_plain.
Qed.

Lemma cursor_parse_typed ls c : (cursor_parse ls).1 = Ok c → cursor_typed c.
Proof.
  intros H. destruct (cursor_parse ls) as [r ls'] eqn:E. simpl in H. subst r.
  unfold cursor_parse in E. unbind. unfold cursor_typed; cbn.
  repeat match goal with H : parse_u64 _ _ = Ok _ |- _ =>
    apply parse_u64_range in H end.
  split_and!; try done.
  - intros t ->. by eapply parse_optional_u64_range.
  - intros f ->. destruct (forallb is_dash _); [done |].
    destruct (forallb _ _); [| done]. unbind. simplify_eq.
    unfold fence_typed, generations_typed. cbn.
    split_and!; by eapply parse_u64_range.
Qed.

(** Decoding is canonical: a text that decodes is exactly the encoding of
    the cursor it decodes to, and that cursor is valid. *)
Theorem cursor_decode_canonical s c :
  cursor_decode s = Ok c →
  cursor_encode c = Ok s ∧ cursor_validate c = Ok tt ∧ cursor_typed c.
Proof.
  unfold cursor_decode. intros H. unbind. subst. reflect_bools.
  apply String.eqb_eq in Ha3. subst. repeat match goal with x : unit |- _ => destruct x end.
  split_and!; try done. by eapply cursor_parse_typed.
Qed.

(** *** Failures and successes *)

Lemma cursor_validate_change c c' u :
  cursor_validate c = Ok u → c'.(cursor_instance) = c.(cursor_instance) →
  c'.(initial_due_unix_s) = c.(initial_due_unix_s) → c'.(cursor_sequence) ≠ 0%N →
  (∀ f, c'.(failed_attempt) = Some f → fence_validate f = Ok u) →
  cursor_validate c' = Ok u.
Proof.
  intros (Hi & _ & Hd & _)%cursor_validate_ok Ei Ed Hs Hf. apply cursor_validate_ok.
  by rewrite Ei, Ed.
Qed.

(** On a valid cursor, [record_failure] and [record_success] either succeed
    and leave a valid cursor with the next sequence number, or fail and leave the
    cursor untouched, although both assign fields before their last check. *)
Theorem cursor_updates_atomic c e r c' :
  cursor_validate c = Ok tt → cursor_apply e c = (r, c') →
  (r = Ok tt ∧ cursor_validate c' = Ok tt ∧ c'.(cursor_sequence) = (c.(cursor_sequence) + 1)%N)
  ∨ (is_ok r = false ∧ c' = c).
Proof.
  intros Hv H. destruct r as [[] | err].
  - left. destruct e; [apply record_success_ok in H | apply record_failure_ok in H];
      destruct_and!; subst; done.
  - right. split; [done |].
    destruct e as [i d t | f]; unfold cursor_apply, record_success, record_failure in H;
      unbind_err; try done;
      (match goal with H : cursor_bump _ = _ |- _ =>
        apply cursor_bump_inv in H as [(? & -> & ?) | (? & ? & ->)]; simplify_eq end);
      try done; exfalso;
      repeat match goal with x : unit |- _ => destruct x end;
      (erewrite cursor_validate_change in H; [done | exact Hv | done | done | simpl; lia |]);
      cbn; by intros ? [= <-].
Qed.

(** Recording a success closes its slot: the next due time is at least one
    interval after the completion, hence strictly later than the slot just
    closed, and the failure fence is gone. *)
Theorem record_success_advances i d t c c' d' :
  record_success i d t c = (Ok tt, c') → due_unix_s c' i = Ok d' →
  (d < d')%N ∧ (t + i ≤ d')%N ∧ c'.(failed_attempt) = None ∧ c'.(last_success_unix_s) = Some t.
Proof.
  intros (_ & Ht & _ & -> & _ & _)%record_success_ok [Hi [_ ->]]%due_unix_s_ok. cbn.
  split_and!; try done; lia.
Qed.

Lemma cursor_run_last_mono m c es c' t0 :
  cursor_run c es c' → Forall (event_interval_at_least m) es →
  c.(last_success_unix_s) = Some t0 →
  ∃ t, c'.(last_success_unix_s) = Some t ∧ (t0 + successes es * m ≤ t)%N.
Proof.
  intros Hrun. revert t0. induction Hrun as [c | c c1 c2 e es Happly Hrun IH];
    intros t0 Hes H0.
  - exists t0. split; [done |]. unfold successes. simpl. lia.
  - inversion_clear Hes as [| ? ? He Hes']. destruct e as [i d t | f]; simpl in Happly, He.
    + apply record_success_ok in Happly as (Hd & Ht & _ & -> & _).
      apply due_unix_s_ok in Hd as [_ Hd]. rewrite H0 in Hd. destruct Hd as [_ ->].
      destruct (IH t Hes' eq_refl) as (t' & ? & ?). exists t'. split; [done |].
      unfold successes in *. rewrite filter_cons. simpl. lia.
    + apply record_failure_ok in Happly as (_ & _ & -> & _).
      destruct (IH t0 Hes' H0) as (t' & ? & ?). exists t'. split; [done |].
      unfold successes in *. by rewrite filter_cons.
Qed.

(** Cadence: over any history of successes and failures whose intervals are
    at least [m], [k] successes after the first take at least [k * m] seconds:
    no interleaving of failures and retries makes the scheduler run early. *)
Theorem cursor_cadence m c es c' t0 t :
  cursor_run c es c' → Forall (event_interval_at_least m) es →
  c.(last_success_unix_s) = Some t0 → c'.(last_success_unix_s) = Some t →
  (t0 + successes es * m ≤ t)%N.
Proof.
  intros Hrun Hes H0 H. destruct (cursor_run_last_mono _ _ _ _ _ Hrun Hes H0) as (t' & ? & ?).
  by simplify_eq.
Qed.

(** *** The admission decision *)

Lemma first_not_ready_None l :
  first_not_ready l = None ↔ Forall (λ p, p.1 = true) l.
Proof.
  induction l as [|[[] r] l IH]; simpl; [done | |].
  - rewrite Forall_cons, IH. by split; [| intros [_ ?]].
  - split; [done |]. by inversion 1.
Qed.

Lemma clock_sane c now :
  is_some_and (λ last, now <? last)%N c.(last_success_unix_s) = false ↔
  ∀ last, c.(last_success_unix_s) = Some last → (last ≤ now)%N.
Proof. rewrite is_some_and_false. by setoid_rewrite N.ltb_ge. Qed.

(** Every gate is ready, gate by gate: nothing here refers to the table the code walks. *)
Record gates_clear (g : SchedulerGates) : Prop := {
  clear_active : g.(scheduled_job_active) = false;
  clear_configuration : g.(configuration_committed) = true;
  clear_recovery : g.(recovery_clear) = true;
  clear_manual : g.(manual_job_pending) = false;
  clear_coordinator : g.(coordinator_idle) = true;
  clear_route : g.(route_ready) = true;
  clear_runtime : g.(runtime_ready) = true;
  clear_quiet : g.(quiet_window_ready) = true;
  clear_accounting : g.(accounting_healthy) = true;
}.

Lemma gates_clear_iff g :
  gates_clear g ↔ g.(scheduled_job_active) = false ∧ Forall (λ p, p.1 = true) (gate_table g).
Proof.
  unfold gate_table. rewrite !Forall_cons, Forall_nil. cbn [fst]. rewrite negb_true_iff.
  split; [by intros [] | by intros (? & ? & ? & ? & ? & ? & ? & ? & ? & _)].
Qed.

(** When the slot of a cursor falls: an interval after the last success, not before the first slot. *)
Definition slot_due (c : ScheduleCursor) (i due : N) : Prop :=
  i ≠ 0%N ∧
  match c.(last_success_unix_s) with
  | Some last => is_u64 (last + i) ∧ due = N.max (last + i) c.(initial_due_unix_s)
  | None => due = c.(initial_due_unix_s)
  end.

(** What admits a job, in the order of the checks. *)
Definition admissible (en : bool) (i mx av : N) (c : ScheduleCursor) (o : SchedulerObservation)
    (due b : N) : Prop :=
  cursor_validate c = Ok tt ∧ generations_validate o.(obs_generations) = Ok tt ∧ en = true
  ∧ (∀ last, c.(last_success_unix_s) = Some last → (last ≤ o.(now_unix_s))%N)
  ∧ slot_due c i due ∧ (due ≤ o.(now_unix_s))%N ∧ o.(window_open) = true ∧ gates_clear o.(gates)
  ∧ (∀ f, c.(failed_attempt) = Some f → f.(generations) = o.(obs_generations) →
       f.(explicit_retry_sequence) ≠ o.(obs_explicit_retry_sequence))
  ∧ (mx ≤ MAX_EXACT_BYTES)%N ∧ (av ≤ MAX_EXACT_BYTES)%N ∧ b = N.min mx av ∧ b ≠ 0%N.

Lemma fence_passes f o due (r : Res SchedulerDecision) d b :
  (fail_if (bool_decide (f.(generations) = o.(obs_generations))
            && (f.(explicit_retry_sequence) =? o.(obs_explicit_retry_sequence))%N
            && negb (f.(fence_due_unix_s) =? due)%N)
     "scheduler due time changed without a configuration or retry generation" ≫= λ _,
   if blocks f due o.(obs_generations) o.(obs_explicit_retry_sequence)
   then Ok (AwaitState UnchangedFailedAttempt) else r) = Ok (Admit d b) ↔
  r = Ok (Admit d b) ∧
  (f.(generations) = o.(obs_generations) →
   f.(explicit_retry_sequence) ≠ o.(obs_explicit_retry_sequence)).
Proof.
  unfold blocks. destruct (decide (generations f = obs_generations o)) as [E | E].
  - rewrite bool_decide_true by done.
    destruct (N.eqb_spec (explicit_retry_sequence f) (obs_explicit_retry_sequence o)) as [Er | Er];
      [| rewrite !andb_false_r; simpl; by split; [| intros [? _]]].
    destruct (N.eqb_spec (fence_due_unix_s f) due); simpl;
      (split; [done | intros [_ H]; by specialize (H E)]).
  - rewrite bool_decide_false, !andb_false_r by done. simpl. by split; [| intros [? _]].
Qed.

Lemma evaluate_schedule_admits_sound en i mx av c o due b :
  evaluate_schedule en i mx av c o = Ok (Admit due b) → admissible en i mx av c o due b.
Proof.
  unfold evaluate_schedule. intros H. unbind. repeat match goal with x : unit |- _ => destruct x end.
  destruct en; [| done].
  destruct (is_some_and _ _) eqn:Hclock; [done |].
  apply bind_ok_inv in H as (a & Hdue & H).
  destruct (N.ltb_spec (now_unix_s o) a) as [| Hnow]; [done |].
  destruct (window_open o) eqn:Hw; cbn [negb] in H.
  2:{ by destruct (next_window_open_unix_s o) as [nx |]; [destruct (now_unix_s o <? nx)%N |]. }
  destruct (scheduled_job_active (gates o)) eqn:Hact; [done |].
  destruct (first_not_ready (gate_table (gates o))) eqn:Hg; [done |].
  apply first_not_ready_None in Hg. rewrite clock_sane in Hclock.
  assert (∃ r, r = Ok (Admit due b) ∧ r = (fail_if ((MAX_EXACT_BYTES <? mx)%N
      || (MAX_EXACT_BYTES <? av)%N) "scheduler traffic budget exceeds the exact accounting range"
      ≫= λ _, if (N.min mx av =? 0)%N then Ok (AwaitState BudgetExhausted)
              else Ok (Admit a (N.min mx av)))
    ∧ ∀ f, c.(failed_attempt) = Some f → f.(generations) = o.(obs_generations) →
       f.(explicit_retry_sequence) ≠ o.(obs_explicit_retry_sequence)) as (r & Hr & -> & Hf).
  { destruct (failed_attempt c) as [f |]; [| by eauto].
    apply fence_passes in H as [H ?]. eexists. split; [exact H |]. split; [done |].
    by intros ? [= <-]. }
  unbind. reflect_bools. destruct (N.eqb_spec (N.min mx av) 0); [done |]. simplify_eq.
  apply due_unix_s_ok in Hdue. unfold admissible. rewrite gates_clear_iff. by split_and!.
Qed.

Lemma evaluate_schedule_admits_complete en i mx av c o due b :
  admissible en i mx av c o due b → evaluate_schedule en i mx av c o = Ok (Admit due b).
Proof.
  intros (Hc & Hgen & -> & Hclock & Hdue%due_unix_s_ok & Hnow & Hw & [Hact Hg]%gates_clear_iff &
    Hfence & Hmx & Hav & -> & Hb).
  unfold evaluate_schedule. rewrite Hc, Hgen, Hdue, Hw, Hact. cbn [mbind result_bind negb].
  apply first_not_ready_None in Hg as ->. rewrite <- clock_sane in Hclock; rewrite Hclock.
  apply N.ltb_ge in Hnow as ->. apply N.ltb_ge in Hmx as ->. apply N.ltb_ge in Hav as ->.
  apply N.eqb_neq in Hb as ->. cbn [mbind result_bind fail_if orb].
  destruct (failed_attempt c) as [f |]; [| done]. apply fence_passes. eauto.
Qed.

(** C38: [evaluate_schedule] admits a job exactly when the cursor and the generations are
    well formed, the schedule is enabled, the clock is not behind the last success, the slot (one
    interval after the last success, not before the first slot) is due, the window is open, no
    scheduled job runs and no manual job waits, the configuration is committed, recovery is clear,
    coordinator, route, runtime, quiet window and accounting are ready, no failure under the same
    generations and retry sequence fences the slot, and the budget is representable and
    non-zero; it then grants the smaller of the job maximum and the remaining budget. *)
Theorem evaluate_schedule_admits en i mx av c o due b :
  evaluate_schedule en i mx av c o = Ok (Admit due b) ↔ admissible en i mx av c o due b.
Proof.
  split; [apply evaluate_schedule_admits_sound | apply evaluate_schedule_admits_complete].
Qed.

(** A failed attempt is never retried because time passed: once the failure is
    recorded, no observation made under the same generations and the same
    explicit retry sequence admits a job, whatever the clock, interval, window,
    gates and budget. *)
Theorem failed_attempt_never_admitted f c c' en i mx av o due b :
  record_failure f c = (Ok tt, c') →
  o.(obs_generations) = f.(generations) →
  o.(obs_explicit_retry_sequence) = f.(explicit_retry_sequence) →
  evaluate_schedule en i mx av c' o ≠ Ok (Admit due b).
Proof.
  intros (_ & _ & -> & _)%record_failure_ok Hg Hr Ha.
  apply evaluate_schedule_admits_sound in Ha as (_ & _ & _ & _ & _ & _ & _ & _ & Hf & _).
  by apply (Hf f).
Qed.

(** The refusals are ordered: when the slot is due and the window open, the
    reported reason is the first gate that is not ready, so a pending manual job
    outranks a busy coordinator, which outranks a missing route. *)
Theorem evaluate_schedule_gate_priority en i mx av c o due
    (pre post : list (bool * SchedulerBlock)) reason :
  cursor_validate c = Ok tt → generations_validate o.(obs_generations) = Ok tt → en = true →
  (∀ last, c.(last_success_unix_s) = Some last → (last ≤ o.(now_unix_s))%N) →
  due_unix_s c i = Ok due → (due ≤ o.(now_unix_s))%N → o.(window_open) = true →
  o.(gates).(scheduled_job_active) = false →
  gate_table o.(gates) = (pre ++ (false, reason) :: post)%list → Forall (λ p, p.1 = true) pre →
  evaluate_schedule en i mx av c o = Ok (AwaitState reason).
Proof.
  intros Hc Hgen -> Hclock Hdue Hnow Hw Hact Ht Hpre. unfold evaluate_schedule.
  rewrite Hc, Hgen, Hdue, Hw, Hact, Ht. cbn [mbind result_bind negb].
  apply N.ltb_ge in Hnow as ->.
  rewrite <- clock_sane in Hclock; rewrite Hclock.
  assert (first_not_ready (pre ++ (false, reason) :: post)%list = Some reason) as ->; [| done].
  clear -Hpre. induction Hpre as [|[[] ?] pre E _ IH]; simpl in *; done.
Qed.

(** ** Witnesses *)

Module CursorSample.
Definition hex (n : nat) : string := Nat.iter n (String "a") "".
Definition gen : SchedulerGenerations :=
  {| config_fingerprint := hex 64; route_fingerprint := hex 64; runtime_sequence := 7;
     coordinator_generation := hex 32 |}.
Definition fence : FailedAttemptFence :=
  {| fence_due_unix_s := 1000; interval_s := 3600; generations := gen;
     explicit_retry_sequence := 0 |}.
Definition cursor : ScheduleCursor :=
  {| cursor_instance := "wan_sqm"; cursor_sequence := 1; initial_due_unix_s := 1000;
     last_success_unix_s := None; failed_attempt := None |}.
Definition failed : ScheduleCursor :=
  {| cursor_instance := "wan_sqm"; cursor_sequence := 2; initial_due_unix_s := 1000;
     last_success_unix_s := None; failed_attempt := Some fence |}.
Definition succeeded (seq t : N) : ScheduleCursor :=
  {| cursor_instance := "wan_sqm"; cursor_sequence := seq; initial_due_unix_s := 1000;
     last_success_unix_s := Some t; failed_attempt := None |}.
Definition all_ready (manual : bool) : SchedulerGates :=
  {| configuration_committed := true; recovery_clear := true; manual_job_pending := manual;
     coordinator_idle := true; route_ready := false; runtime_ready := true;
     quiet_window_ready := true; accounting_healthy := true; scheduled_job_active := false |}.
Definition observation (now : N) (manual : bool) : SchedulerObservation :=
  {| now_unix_s := now; window_open := true; next_window_open_unix_s := None;
     obs_generations := gen; obs_explicit_retry_sequence := 0; gates := all_ready manual |}.
Definition text : string :=
  match cursor_encode failed with Ok s => s | Err _ => "" end.
End CursorSample.

Lemma sample_cursor_typed : cursor_typed CursorSample.failed.
Proof. split_and!; try (intros ? [= <-]; split_and!); try done. Qed.

Lemma cursor_decode_encode_witness :
  cursor_decode CursorSample.text = Ok CursorSample.failed.
Proof. apply cursor_decode_encode; [apply sample_cursor_typed | by vm_compute]. Defined.

Lemma cursor_decode_canonical_witness :
  cursor_encode CursorSample.failed = Ok CursorSample.text.
Proof. apply (cursor_decode_canonical CursorSample.text CursorSample.failed). by vm_compute. Defined.

Lemma cursor_updates_atomic_witness :
  (record_success 3600 999 1000 CursorSample.cursor).2 = CursorSample.cursor.
Proof.
  destruct (cursor_updates_atomic CursorSample.cursor (Succeeded 3600 999 1000)
    (Err "scheduler completion does not belong to the current due slot") CursorSample.cursor)
    as [[H _] | [_ H]]; [by vm_compute | by vm_compute | discriminate H | exact H].
Defined.

Lemma record_success_advances_witness : (1000 < 4600)%N.
Proof.
  apply (record_success_advances 3600 1000 1000 CursorSample.failed
    (CursorSample.succeeded 3 1000)); by vm_compute.
Defined.

Lemma cursor_cadence_witness : (1000 + 1 * 3600 ≤ 4700)%N.
Proof.
  apply (cursor_cadence 3600 (CursorSample.succeeded 2 1000) [Succeeded 3600 4600 4700]
    (CursorSample.succeeded 3 4700)); [| by repeat constructor | done | done].
  eapply cursor_run_cons; [by vm_compute | constructor].
Defined.

Lemma failed_attempt_never_admitted_witness :
  evaluate_schedule true 3600 10 10 CursorSample.failed
    (CursorSample.observation 999999999 false) ≠ Ok (Admit 1000 10).
Proof.
  apply (failed_attempt_never_admitted CursorSample.fence CursorSample.cursor); by vm_compute.
Defined.

Lemma evaluate_schedule_gate_priority_witness :
  evaluate_schedule true 3600 10 10 CursorSample.cursor (CursorSample.observation 2000 true)
  = Ok (AwaitState ManualJobPriority).
Proof.
  apply (evaluate_schedule_gate_priority true 3600 10 10 CursorSample.cursor
    (CursorSample.observation 2000 true) 1000
    [(true, ConfigurationPending); (true, RecoveryPending)]
    [(true, CoordinatorBusy); (false, RouteNotReady); (true, RuntimeNotReady);
     (true, QuietWindowPending); (true, AccountingUnavailable)]);
    try done; try (by vm_compute). by repeat constructor.
Defined.
