(* ===== verification/BudgetLedger.v ===== *)
(** * The scheduler's traffic ledger

    Models [BudgetReservation] and [BudgetLedger] of [operations/scheduler.rs]:
    the conservative daily and monthly account of scheduled test traffic.
    Every method works on a clone and assigns [*self] last. *)

From S2P Require Import Prelude RustStr SchedRecord ScheduleCursor.
Local Open Scope string_scope.

Definition BUDGET_HEADER : string :=
  "cake-autorate-native-schedule-budget" +:+ String tab "2".

Record BudgetReservation := {
  reservation_id : string;
  job_id : string;
  res_day : string;
  res_month : string;
  reserved_bytes : N;
  authority : FailedAttemptFence;
}.

Record BudgetLedger := {
  instance : string;
  sequence : N;
  day : string;
  month : string;
  daily_limit_bytes : N;
  monthly_limit_bytes : N;
  daily_charged_bytes : N;
  monthly_charged_bytes : N;
  accounting_blocked : bool;
  reservation : option BudgetReservation;
}.

#[export] Instance BudgetReservation_eq_dec : EqDecision BudgetReservation.
Proof. solve_decision. Defined.
#[export] Instance BudgetLedger_eq_dec : EqDecision BudgetLedger.
Proof. solve_decision. Defined.

Definition reservation_validate (r : BudgetReservation) : Res unit :=
  require_lower_hex "scheduler reservation id" r.(reservation_id) 32 ≫= λ _,
  require_lower_hex "scheduler reservation job id" r.(job_id) 32 ≫= λ _,
  validate_period r.(res_day) r.(res_month) ≫= λ _,
  fence_validate r.(authority) ≫= λ _,
  fail_if (r.(reserved_bytes) =? 0)%N "scheduler reservation must be non-zero" ≫= λ _,
  validate_accounted_bytes "scheduler reservation" r.(reserved_bytes).

Definition ledger_validate (l : BudgetLedger) : Res unit :=
  require_identifier "scheduler budget instance" l.(instance) ≫= λ _,
  fail_if (l.(sequence) =? 0)%N "scheduler budget sequence must be non-zero" ≫= λ _,
  validate_period l.(day) l.(month) ≫= λ _,
  validate_accounted_bytes "daily scheduler limit" l.(daily_limit_bytes) ≫= λ _,
  validate_accounted_bytes "monthly scheduler limit" l.(monthly_limit_bytes) ≫= λ _,
  validate_accounted_bytes "daily scheduler charge" l.(daily_charged_bytes) ≫= λ _,
  validate_accounted_bytes "monthly scheduler charge" l.(monthly_charged_bytes) ≫= λ _,
  fail_if ((l.(daily_limit_bytes) =? 0)%N || (l.(monthly_limit_bytes) =? 0)%N)
    "scheduler traffic limits must be non-zero" ≫= λ _,
  match l.(reservation) with
  | None => Ok tt
  | Some r =>
      reservation_validate r ≫= λ _,
      fail_if (str_ltb l.(day) r.(res_day) || str_ltb l.(month) r.(res_month))
        "scheduler reservation is dated in the future"
  end.

Definition ledger_new (inst d m : string) (daily_limit monthly_limit : N) : Res BudgetLedger :=
  let ledger := {| instance := inst; sequence := 1; day := d; month := m;
                   daily_limit_bytes := daily_limit; monthly_limit_bytes := monthly_limit;
                   daily_charged_bytes := 0; monthly_charged_bytes := 0;
                   accounting_blocked := false; reservation := None |} in
  ledger_validate ledger ≫= λ _, mret ledger.

(** Field assignments. *)
Definition set_sequence (n : N) (l : BudgetLedger) : BudgetLedger :=
  {| instance := l.(instance); sequence := n; day := l.(day); month := l.(month);
     daily_limit_bytes := l.(daily_limit_bytes); monthly_limit_bytes := l.(monthly_limit_bytes);
     daily_charged_bytes := l.(daily_charged_bytes);
     monthly_charged_bytes := l.(monthly_charged_bytes);
     accounting_blocked := l.(accounting_blocked); reservation := l.(reservation) |}.
Definition set_day (d : string) (charged : N) (l : BudgetLedger) : BudgetLedger :=
  {| instance := l.(instance); sequence := l.(sequence); day := d; month := l.(month);
     daily_limit_bytes := l.(daily_limit_bytes); monthly_limit_bytes := l.(monthly_limit_bytes);
     daily_charged_bytes := charged; monthly_charged_bytes := l.(monthly_charged_bytes);
     accounting_blocked := l.(accounting_blocked); reservation := l.(reservation) |}.
Definition set_month (m : string) (charged : N) (l : BudgetLedger) : BudgetLedger :=
  {| instance := l.(instance); sequence := l.(sequence); day := l.(day); month := m;
     daily_limit_bytes := l.(daily_limit_bytes); monthly_limit_bytes := l.(monthly_limit_bytes);
     daily_charged_bytes := l.(daily_charged_bytes); monthly_charged_bytes := charged;
     accounting_blocked := l.(accounting_blocked); reservation := l.(reservation) |}.
Definition set_limits (daily monthly : N) (l : BudgetLedger) : BudgetLedger :=
  {| instance := l.(instance); sequence := l.(sequence); day := l.(day); month := l.(month);
     daily_limit_bytes := daily; monthly_limit_bytes := monthly;
     daily_charged_bytes := l.(daily_charged_bytes);
     monthly_charged_bytes := l.(monthly_charged_bytes);
     accounting_blocked := l.(accounting_blocked); reservation := l.(reservation) |}.
Definition set_account (daily monthly : N) (blocked : bool) (r : option BudgetReservation)
    (l : BudgetLedger) : BudgetLedger :=
  {| instance := l.(instance); sequence := l.(sequence); day := l.(day); month := l.(month);
     daily_limit_bytes := l.(daily_limit_bytes); monthly_limit_bytes := l.(monthly_limit_bytes);
     daily_charged_bytes := daily; monthly_charged_bytes := monthly;
     accounting_blocked := blocked; reservation := r |}.

Definition available_bytes (l : BudgetLedger) : Res N :=
  ledger_validate l ≫= λ _,
  if l.(accounting_blocked) || bool_decide (is_Some l.(reservation)) then Ok 0%N
  else Ok (N.min (u64_saturating_sub l.(daily_limit_bytes) l.(daily_charged_bytes))
                 (u64_saturating_sub l.(monthly_limit_bytes) l.(monthly_charged_bytes))).

Definition bump_sequence : M BudgetLedger string unit :=
  self ← get;
  next ← lift (ok_or (u64_checked_add self.(sequence) 1) "scheduler budget sequence overflow");
  modify (set_sequence next).

(** [next.bump_sequence()?; next.validate()?; *self = next;] *)
Definition commit (next : BudgetLedger) : M BudgetLedger string unit :=
  next ← on_clone bump_sequence next;
  lift (ledger_validate next) ≫= λ _,
  put next.

Definition roll_period (d m : string) : M BudgetLedger string unit :=
  lift (validate_period d m) ≫= λ _,
  self ← get;
  lift (fail_if (str_ltb d self.(day) || str_ltb m self.(month))
    "scheduler budget calendar moved backwards") ≫= λ _,
  if String.eqb d self.(day) && String.eqb m self.(month) then mret tt
  else
    let next := self in
    let next := if negb (String.eqb m next.(month)) then set_month m 0 next else next in
    let next := if negb (String.eqb d next.(day)) then set_day d 0 next else next in
    commit next.

Definition reconfigure_limits (d m : string) (daily monthly : N) : M BudgetLedger string unit :=
  lift (validate_accounted_bytes "daily scheduler limit" daily) ≫= λ _,
  lift (validate_accounted_bytes "monthly scheduler limit" monthly) ≫= λ _,
  lift (fail_if ((daily =? 0)%N || (monthly =? 0)%N)
    "scheduler traffic limits must be non-zero") ≫= λ _,
  self ← get;
  lift (fail_if (bool_decide (is_Some self.(reservation))
                 && (negb (self.(daily_limit_bytes) =? daily)%N
                     || negb (self.(monthly_limit_bytes) =? monthly)%N))
    "scheduler traffic limits changed during an active reservation") ≫= λ _,
  next ← on_clone (roll_period d m) self;
  if (next.(daily_limit_bytes) =? daily)%N && (next.(monthly_limit_bytes) =? monthly)%N
  then put next
  else commit (set_limits daily monthly next).

Definition reserve (rid jid d m : string) (auth : FailedAttemptFence) (bytes : N)
    : M BudgetLedger string unit :=
  self ← get;
  next ← on_clone (roll_period d m) self;
  lift (fail_if (next.(accounting_blocked) || bool_decide (is_Some next.(reservation)))
    "scheduler traffic accounting is not available for reservation") ≫= λ _,
  let r := {| reservation_id := rid; job_id := jid; res_day := d; res_month := m;
              reserved_bytes := bytes; authority := auth |} in
  lift (reservation_validate r) ≫= λ _,
  available ← lift (available_bytes next);
  lift (fail_if (available <? bytes)%N
    "scheduler traffic reservation exceeds the remaining budget") ≫= λ _,
  daily ← lift (checked_bytes_add next.(daily_charged_bytes) bytes "daily scheduler reservation");
  monthly ← lift (checked_bytes_add next.(monthly_charged_bytes) bytes
                    "monthly scheduler reservation");
  commit (set_account daily monthly next.(accounting_blocked) (Some r) next).

Definition exact_reservation (rid jid : string) (l : BudgetLedger) : Res BudgetReservation :=
  r ← ok_or l.(reservation) "scheduler budget has no active reservation";
  fail_if (negb (String.eqb r.(reservation_id) rid) || negb (String.eqb r.(job_id) jid))
    "scheduler budget reservation identity mismatch" ≫= λ _,
  mret r.

Definition settle (rid jid d m : string) (consumed : N) : M BudgetLedger string unit :=
  lift (validate_accounted_bytes "scheduler consumed traffic" consumed) ≫= λ _,
  self ← get;
  r ← lift (exact_reservation rid jid self);
  next ← on_clone (roll_period d m) self;
  daily ← lift (
    if String.eqb r.(res_day) d
    then replace_reservation_charge next.(daily_charged_bytes) r.(reserved_bytes) consumed
           "daily scheduler settlement"
    else checked_bytes_add next.(daily_charged_bytes) consumed "cross-day scheduler settlement");
  monthly ← lift (
    if String.eqb r.(res_month) m
    then replace_reservation_charge next.(monthly_charged_bytes) r.(reserved_bytes) consumed
           "monthly scheduler settlement"
    else checked_bytes_add next.(monthly_charged_bytes) consumed
           "cross-month scheduler settlement");
  commit (set_account daily monthly false None next).

Definition mark_accounting_unknown (rid jid : string) : M BudgetLedger string unit :=
  self ← get;
  lift (exact_reservation rid jid self) ≫= λ _,
  commit (set_account self.(daily_charged_bytes) self.(monthly_charged_bytes) true
            self.(reservation) self).

Definition acknowledge_accounting_unknown : M BudgetLedger string N :=
  self ← get;
  lift (fail_if (negb self.(accounting_blocked))
    "scheduler traffic accounting is not blocked") ≫= λ _,
  r ← lift (ok_or self.(reservation) "blocked scheduler accounting has no reservation");
  commit (set_account self.(daily_charged_bytes) self.(monthly_charged_bytes) false None self)
    ≫= λ _,
  mret r.(reserved_bytes).

(** ** The text record *)

Definition bool_flag (b : bool) : string := if b then "1" else "0".

Definition reservation_fields (o : option BudgetReservation) : list string :=
  match o with
  | Some r =>
      [r.(reservation_id); r.(job_id); r.(res_day); r.(res_month); show r.(reserved_bytes);
       show r.(authority).(fence_due_unix_s); show r.(authority).(interval_s);
       r.(authority).(generations).(config_fingerprint);
       r.(authority).(generations).(route_fingerprint);
       show r.(authority).(generations).(runtime_sequence);
       r.(authority).(generations).(coordinator_generation);
       show r.(authority).(explicit_retry_sequence)]
  | None => ["-"; "-"; "-"; "-"; "-"; "-"; "-"; "-"; "-"; "-"; "-"; "-"]
  end.

Definition reservation_names : list string :=
  ["reservation_id"; "reservation_job_id"; "reservation_day"; "reservation_month";
   "reservation_bytes"; "reservation_due_unix_s"; "reservation_interval_s";
   "reservation_config_fingerprint"; "reservation_route_fingerprint";
   "reservation_runtime_sequence"; "reservation_coordinator_generation";
   "reservation_explicit_retry_sequence"].

Definition ledger_fields (l : BudgetLedger) : list (string * string) :=
  [("instance", l.(instance)); ("sequence", show l.(sequence)); ("day", l.(day));
   ("month", l.(month)); ("daily_limit_bytes", show l.(daily_limit_bytes));
   ("monthly_limit_bytes", show l.(monthly_limit_bytes));
   ("daily_charged_bytes", show l.(daily_charged_bytes));
   ("monthly_charged_bytes", show l.(monthly_charged_bytes));
   ("accounting_blocked", bool_flag l.(accounting_blocked))]
  ++ zip reservation_names (reservation_fields l.(reservation)).

Definition ledger_encode (l : BudgetLedger) : Res string :=
  ledger_validate l ≫= λ _, mret (render BUDGET_HEADER (ledger_fields l)).

Definition ledger_parse : M (list string) string BudgetLedger :=
  inst ← OrderedRecord.field "instance";
  sequence_text ← OrderedRecord.field "sequence";
  seq ← lift (parse_u64 "scheduler budget sequence" sequence_text);
  d ← OrderedRecord.field "day";
  m ← OrderedRecord.field "month";
  daily_limit_text ← OrderedRecord.field "daily_limit_bytes";
  daily_limit ← lift (parse_u64 "daily scheduler limit" daily_limit_text);
  monthly_limit_text ← OrderedRecord.field "monthly_limit_bytes";
  monthly_limit ← lift (parse_u64 "monthly scheduler limit" monthly_limit_text);
  daily_charged_text ← OrderedRecord.field "daily_charged_bytes";
  daily_charged ← lift (parse_u64 "daily scheduler charge" daily_charged_text);
  monthly_charged_text ← OrderedRecord.field "monthly_charged_bytes";
  monthly_charged ← lift (parse_u64 "monthly scheduler charge" monthly_charged_text);
  blocked_text ← OrderedRecord.field "accounting_blocked";
  blocked ← lift (if String.eqb blocked_text "0" then Ok false
                  else if String.eqb blocked_text "1" then Ok true
                  else Err "scheduler accounting flag is invalid");
  r_id ← OrderedRecord.field "reservation_id";
  r_job ← OrderedRecord.field "reservation_job_id";
  r_day ← OrderedRecord.field "reservation_day";
  r_month ← OrderedRecord.field "reservation_month";
  r_bytes ← OrderedRecord.field "reservation_bytes";
  r_due ← OrderedRecord.field "reservation_due_unix_s";
  r_interval ← OrderedRecord.field "reservation_interval_s";
  r_config ← OrderedRecord.field "reservation_config_fingerprint";
  r_route ← OrderedRecord.field "reservation_route_fingerprint";
  r_runtime ← OrderedRecord.field "reservation_runtime_sequence";
  r_coordinator ← OrderedRecord.field "reservation_coordinator_generation";
  r_retry ← OrderedRecord.field "reservation_explicit_retry_sequence";
  OrderedRecord.finish ≫= λ _,
  let fields := [r_id; r_job; r_day; r_month; r_bytes; r_due; r_interval; r_config; r_route;
                 r_runtime; r_coordinator; r_retry] in
  let absent := forallb is_dash fields in
  let present := forallb (λ s, negb (is_dash s)) fields in
  res ← lift (
    if absent then Ok None
    else if present then
      bytes ← parse_u64 "scheduler reservation" r_bytes;
      due ← parse_u64 "scheduler reservation due time" r_due;
      interval ← parse_u64 "scheduler reservation interval" r_interval;
      runtime ← parse_u64 "scheduler reservation runtime sequence" r_runtime;
      retry ← parse_u64 "scheduler reservation retry sequence" r_retry;
      mret (Some {| reservation_id := r_id; job_id := r_job; res_day := r_day;
                    res_month := r_month; reserved_bytes := bytes;
                    authority := {| fence_due_unix_s := due; interval_s := interval;
                      generations := {| config_fingerprint := r_config;
                                        route_fingerprint := r_route;
                                        runtime_sequence := runtime;
                                        coordinator_generation := r_coordinator |};
                      explicit_retry_sequence := retry |} |})
    else Err "scheduler budget reservation is partial");
  mret {| instance := inst; sequence := seq; day := d; month := m;
          daily_limit_bytes := daily_limit; monthly_limit_bytes := monthly_limit;
          daily_charged_bytes := daily_charged; monthly_charged_bytes := monthly_charged;
          accounting_blocked := blocked; reservation := res |}.

Definition ledger_decode (input : string) : Res BudgetLedger :=
  record ← OrderedRecord.new input BUDGET_HEADER;
  ledger ← (ledger_parse record).1;
  ledger_validate ledger ≫= λ _,
  encoded ← ledger_encode ledger;
  fail_if (negb (String.eqb encoded input)) "scheduler budget record is not canonical" ≫= λ _,
  mret ledger.

Definition reservation_typed (r : BudgetReservation) : Prop :=
  is_u64 r.(reserved_bytes) ∧ fence_typed r.(authority).
Definition ledger_typed (l : BudgetLedger) : Prop :=
  is_u64 l.(sequence) ∧ is_u64 l.(daily_limit_bytes) ∧ is_u64 l.(monthly_limit_bytes)
  ∧ is_u64 l.(daily_charged_bytes) ∧ is_u64 l.(monthly_charged_bytes)
  ∧ (∀ r, l.(reservation) = Some r → reservation_typed r).

(** ** Histories of ledger operations and the abstract account

    The specification of the ledger is an account book: the list of charges
    [(day, month, bytes)] that settled or acknowledged jobs have caused. *)

Inductive ledger_event :=
| Rolled (d m : string)
| Reconfigured (d m : string) (daily monthly : N)
| Reserved (rid jid d m : string) (auth : FailedAttemptFence) (bytes : N)
| Settled (rid jid d m : string) (consumed : N)
| MarkedUnknown (rid jid : string)
| Acknowledged.

Definition ledger_apply (e : ledger_event) : M BudgetLedger string unit :=
  match e with
  | Rolled d m => roll_period d m
  | Reconfigured d m daily monthly => reconfigure_limits d m daily monthly
  | Reserved rid jid d m auth bytes => reserve rid jid d m auth bytes
  | Settled rid jid d m consumed => settle rid jid d m consumed
  | MarkedUnknown rid jid => mark_accounting_unknown rid jid
  | Acknowledged => acknowledge_accounting_unknown ≫= λ _, mret tt
  end.

Record charge := { ch_day : string; ch_month : string; ch_bytes : N }.

(** What an operation writes into the account book. *)
Definition charges_of (e : ledger_event) (l : BudgetLedger) : list charge :=
  match e with
  | Settled _ _ d m consumed => [{| ch_day := d; ch_month := m; ch_bytes := consumed |}]
  | Acknowledged =>
      match l.(reservation) with
      | Some r => [{| ch_day := r.(res_day); ch_month := r.(res_month);
                      ch_bytes := r.(reserved_bytes) |}]
      | None => []
      end
  | _ => []
  end.

(** Reachability from a fresh ledger, with the account book kept on the side. *)
Inductive ledger_reaches : list charge → BudgetLedger → Prop :=
| ledger_fresh inst d m daily monthly l :
    ledger_new inst d m daily monthly = Ok l → ledger_reaches [] l
| ledger_step book l e l' :
    ledger_reaches book l → ledger_apply e l = (Ok tt, l') →
    ledger_reaches (charges_of e l ++ book)%list l'.

Definition day_total (d : string) (book : list charge) : N :=
  foldr (λ c acc, (if String.eqb c.(ch_day) d then c.(ch_bytes) else 0) + acc)%N 0%N book.
Definition month_total (m : string) (book : list charge) : N :=
  foldr (λ c acc, (if String.eqb c.(ch_month) m then c.(ch_bytes) else 0) + acc)%N 0%N book.
Definition pending_day (l : BudgetLedger) : N :=
  match l.(reservation) with
  | Some r => if String.eqb r.(res_day) l.(day) then r.(reserved_bytes) else 0%N
  | None => 0%N
  end.
Definition pending_month (l : BudgetLedger) : N :=
  match l.(reservation) with
  | Some r => if String.eqb r.(res_month) l.(month) then r.(reserved_bytes) else 0%N
  | None => 0%N
  end.

(** The simulation relation between the account book and the ledger. *)
Definition represents (book : list charge) (l : BudgetLedger) : Prop :=
  ledger_validate l = Ok tt
  ∧ l.(daily_charged_bytes) = (day_total l.(day) book + pending_day l)%N
  ∧ l.(monthly_charged_bytes) = (month_total l.(month) book + pending_month l)%N
  ∧ Forall (λ c, str_ltb l.(day) c.(ch_day) = false ∧ str_ltb l.(month) c.(ch_month) = false) book
  ∧ (l.(accounting_blocked) = true → is_Some l.(reservation)).

(** ** Lemmas: what a successful operation did *)

Lemma bump_sequence_ok l u l' :
  bump_sequence l = (Ok u, l') → l' = set_sequence (l.(sequence) + 1) l ∧ is_u64 (l.(sequence) + 1).
Proof. unfold bump_sequence. intros H. unbind. by apply u64_checked_add_Some in Ha0 as [-> ?]. Qed.

Lemma commit_ok next l u l' :
  commit next l = (Ok u, l') →
  l' = set_sequence (next.(sequence) + 1) next ∧ is_u64 (next.(sequence) + 1)
  ∧ ledger_validate l' = Ok tt.
Proof.
  unfold commit. intros H. unbind. apply bump_sequence_ok in Ha as [-> ?]. by destruct a0.
Qed.

Lemma commit_keeps next : keeps_on_err (commit next).
Proof. unfold commit. eauto with effects. Qed.
#[local] Hint Resolve commit_keeps : effects.

Lemma roll_period_ok d m l u l' :
  roll_period d m l = (Ok u, l') →
  str_ltb d l.(day) = false ∧ str_ltb m l.(month) = false
  ∧ l'.(day) = d ∧ l'.(month) = m ∧ l'.(instance) = l.(instance)
  ∧ l'.(daily_limit_bytes) = l.(daily_limit_bytes)
  ∧ l'.(monthly_limit_bytes) = l.(monthly_limit_bytes)
  ∧ l'.(accounting_blocked) = l.(accounting_blocked) ∧ l'.(reservation) = l.(reservation)
  ∧ l'.(daily_charged_bytes) = (if String.eqb d l.(day) then l.(daily_charged_bytes) else 0%N)
  ∧ l'.(monthly_charged_bytes) = (if String.eqb m l.(month) then l.(monthly_charged_bytes) else 0%N)
  ∧ (ledger_validate l = Ok tt → ledger_validate l' = Ok tt).
Proof.
  unfold roll_period. intros H. unbind.
  match goal with H : (_ || _) = false |- _ => apply orb_false_iff in H as [Hd Hm] end.
  destruct (String.eqb_spec m (month l)) as [-> | Nm]; simpl in H;
    destruct (String.eqb_spec d (day l)) as [-> | Nd]; simpl in H;
    first [apply commit_ok in H as (-> & _ & Hv) | unfold mret, M_ret in H; injection H as <- <-].
  all: cbn in *; rewrite ?String.eqb_refl; try done.
Qed.

Lemma roll_period_keeps d m : keeps_on_err (roll_period d m).
Proof. unfold roll_period. keeps_tac. Qed.

Lemma ledger_validate_ok l :
  ledger_validate l = Ok tt ↔
  (∃ v, require_identifier "scheduler budget instance" l.(instance) = Ok v)
  ∧ l.(sequence) ≠ 0%N ∧ (∃ v, validate_period l.(day) l.(month) = Ok v)
  ∧ (l.(daily_limit_bytes) ≤ MAX_EXACT_BYTES)%N ∧ (l.(monthly_limit_bytes) ≤ MAX_EXACT_BYTES)%N
  ∧ (l.(daily_charged_bytes) ≤ MAX_EXACT_BYTES)%N ∧ (l.(monthly_charged_bytes) ≤ MAX_EXACT_BYTES)%N
  ∧ l.(daily_limit_bytes) ≠ 0%N ∧ l.(monthly_limit_bytes) ≠ 0%N
  ∧ (∀ r, l.(reservation) = Some r → reservation_validate r = Ok tt
       ∧ str_ltb l.(day) r.(res_day) = false ∧ str_ltb l.(month) r.(res_month) = false).
Proof.
  unfold ledger_validate, validate_accounted_bytes. split.
  - intros H. unbind. reflect_bools. split_and!; eauto.
    intros r E. rewrite E in H. unbind. match goal with x : unit |- _ => destruct x end.
    by apply orb_false_iff in H as [? ?].
  - intros ([? Hi] & Hs & [? Hp] & H1 & H2 & H3 & H4 & H5 & H6 & Hr).
    rewrite Hi, Hp. apply N.eqb_neq in Hs as ->, H5 as ->, H6 as ->.
    apply N.ltb_ge in H1 as ->, H2 as ->, H3 as ->, H4 as ->. cbn.
    destruct (reservation l) as [r |]; [| done].
    destruct (Hr r eq_refl) as (-> & E1 & E2). cbn. by rewrite E1, E2.
Qed.

Lemma checked_bytes_add_ok a b name c :
  checked_bytes_add a b name = Ok c → c = (a + b)%N ∧ (c ≤ MAX_EXACT_BYTES)%N.
Proof.
  unfold checked_bytes_add, validate_accounted_bytes. intros H. unbind. reflect_bools. subst.
  by apply u64_checked_add_Some in Ha as [-> _].
Qed.

Lemma replace_reservation_charge_ok charged reserved consumed name c :
  replace_reservation_charge charged reserved consumed name = Ok c →
  (reserved ≤ charged)%N ∧ c = (charged - reserved + consumed)%N ∧ (c ≤ MAX_EXACT_BYTES)%N.
Proof.
  unfold replace_reservation_charge. intros H. unbind.
  apply u64_checked_sub_Some in Ha as [? ->]. by apply checked_bytes_add_ok in H as [-> ?].
Qed.

Lemma exact_reservation_ok rid jid l r :
  exact_reservation rid jid l = Ok r →
  l.(reservation) = Some r ∧ r.(reservation_id) = rid ∧ r.(job_id) = jid.
Proof.
  unfold exact_reservation. intros H. unbind. reflect_bools. subst.
  split_and!; [done | by apply String.eqb_eq | by apply String.eqb_eq].
Qed.

Lemma available_bytes_ok l n :
  available_bytes l = Ok n → l.(accounting_blocked) = false → l.(reservation) = None →
  n = N.min (l.(daily_limit_bytes) - l.(daily_charged_bytes))
            (l.(monthly_limit_bytes) - l.(monthly_charged_bytes)).
Proof.
  unfold available_bytes. intros H E1 E2. rewrite E1, E2 in H. unbind.
  simpl in H. by injection H.
Qed.

(** What the operations leave behind, on top of the rolled ledger [n]. *)
Lemma reserve_ok rid jid d m auth bytes l u l' :
  reserve rid jid d m auth bytes l = (Ok u, l') →
  ∃ n, roll_period d m l = (Ok tt, n) ∧ n.(accounting_blocked) = false ∧ n.(reservation) = None
  ∧ (n.(daily_charged_bytes) + bytes ≤ n.(daily_limit_bytes))%N
  ∧ (n.(monthly_charged_bytes) + bytes ≤ n.(monthly_limit_bytes))%N
  ∧ (0 < bytes)%N
  ∧ l' = set_sequence (n.(sequence) + 1) (set_account (n.(daily_charged_bytes) + bytes)
           (n.(monthly_charged_bytes) + bytes) false
           (Some {| reservation_id := rid; job_id := jid; res_day := d; res_month := m;
                    reserved_bytes := bytes; authority := auth |}) n)
  ∧ ledger_validate l' = Ok tt.
Proof.
  unfold reserve. intros H. unbind. reflect_bools. rename a0 into n, x into v.
  destruct v. match goal with H : ¬ is_Some _ |- _ => apply eq_None_not_Some in H as Er end.
  match goal with H : available_bytes _ = _ |- _ => apply available_bytes_ok in H; [| done..] end.
  repeat match goal with H : checked_bytes_add _ _ _ = _ |- _ =>
    apply checked_bytes_add_ok in H as [-> ?] end.
  apply commit_ok in H as (-> & _ & Hv). cbn in *.
  match goal with H : accounting_blocked n = false |- _ => rewrite H in Hv |- * end.
  match goal with H : reservation_validate _ = _ |- _ =>
    unfold reservation_validate in H; unbind end. reflect_bools. cbn in *.
  exists n. split_and!; try done; lia.
Qed.

Lemma settle_ok rid jid d m consumed l u l' :
  settle rid jid d m consumed l = (Ok u, l') →
  ∃ n r, roll_period d m l = (Ok tt, n) ∧ l.(reservation) = Some r
  ∧ r.(reservation_id) = rid ∧ r.(job_id) = jid
  ∧ (if String.eqb r.(res_day) d then (r.(reserved_bytes) ≤ n.(daily_charged_bytes))%N else True)
  ∧ (if String.eqb r.(res_month) m then (r.(reserved_bytes) ≤ n.(monthly_charged_bytes))%N else True)
  ∧ l' = set_sequence (n.(sequence) + 1) (set_account
      ((if String.eqb r.(res_day) d then n.(daily_charged_bytes) - r.(reserved_bytes)
        else n.(daily_charged_bytes)) + consumed)
      ((if String.eqb r.(res_month) m then n.(monthly_charged_bytes) - r.(reserved_bytes)
        else n.(monthly_charged_bytes)) + consumed) false None n)
  ∧ ledger_validate l' = Ok tt.
Proof.
  unfold settle. intros H. unbind. reflect_bools.
  match goal with H : exact_reservation _ _ _ = _ |- _ =>
    apply exact_reservation_ok in H as (? & ? & ?) end.
  apply commit_ok in H as (-> & _ & Hv). destruct x.
  eexists _, _. split_and!; try done.
  all: destruct (String.eqb _ d) in *, (String.eqb _ m) in *; try done.
  all: repeat match goal with
  | H : replace_reservation_charge _ _ _ _ = _ |- _ =>
      apply replace_reservation_charge_ok in H as (? & -> & ?)
  | H : checked_bytes_add _ _ _ = _ |- _ => apply checked_bytes_add_ok in H as [-> ?]
  end; done.
Qed.

Lemma mark_unknown_ok rid jid l u l' :
  mark_accounting_unknown rid jid l = (Ok u, l') →
  ∃ r, l.(reservation) = Some r ∧ r.(reservation_id) = rid ∧ r.(job_id) = jid
  ∧ l' = set_sequence (l.(sequence) + 1) (set_account l.(daily_charged_bytes)
           l.(monthly_charged_bytes) true l.(reservation) l)
  ∧ ledger_validate l' = Ok tt.
Proof.
  unfold mark_accounting_unknown. intros H. unbind.
  match goal with H : exact_reservation _ _ _ = _ |- _ =>
    apply exact_reservation_ok in H as (? & ? & ?) end.
  apply commit_ok in H as (-> & _ & Hv). eexists. by split_and!.
Qed.

Lemma acknowledge_ok l b l' :
  acknowledge_accounting_unknown l = (Ok b, l') →
  ∃ r, l.(reservation) = Some r ∧ l.(accounting_blocked) = true ∧ b = r.(reserved_bytes)
  ∧ l' = set_sequence (l.(sequence) + 1) (set_account l.(daily_charged_bytes)
           l.(monthly_charged_bytes) false None l)
  ∧ ledger_validate l' = Ok tt.
Proof.
  unfold acknowledge_accounting_unknown. intros H. unbind. reflect_bools.
  match goal with H : commit _ _ = _ |- _ => apply commit_ok in H as (-> & _ & Hv) end.
  eexists. by split_and!.
Qed.

Lemma reconfigure_limits_ok d m daily monthly l u l' :
  reconfigure_limits d m daily monthly l = (Ok u, l') →
  ∃ n, roll_period d m l = (Ok tt, n)
  ∧ (l.(reservation) ≠ None →
     l.(daily_limit_bytes) = daily ∧ l.(monthly_limit_bytes) = monthly)
  ∧ (l' = n ∨ l' = set_sequence (n.(sequence) + 1) (set_limits daily monthly n))
  ∧ l'.(daily_limit_bytes) = daily ∧ l'.(monthly_limit_bytes) = monthly
  ∧ (ledger_validate n = Ok tt → ledger_validate l' = Ok tt).
Proof.
  unfold reconfigure_limits. intros H. unbind. destruct x.
  eexists. split; [done |]. split.
  - intros Hr.
    match goal with H : (bool_decide _ && _) = false |- _ =>
      rewrite bool_decide_true in H by (by destruct (reservation _)); simpl in H end.
    reflect_bools. done.
  - match goal with H : (if ?b then _ else _) _ = _ |- _ => destruct b eqn:E end;
      reflect_bools; unbind; [by split_and!; [left | ..] |].
    apply commit_ok in H as (-> & _ & Hv). split_and!; try done. by right.
Qed.

(** ** Errors leave the ledger alone *)

Lemma reconfigure_limits_keeps d m daily monthly : keeps_on_err (reconfigure_limits d m daily monthly).
Proof. unfold reconfigure_limits. keeps_tac. Qed.

Lemma reserve_keeps rid jid d m auth bytes : keeps_on_err (reserve rid jid d m auth bytes).
Proof. unfold reserve. keeps_tac. Qed.

Lemma settle_keeps rid jid d m consumed : keeps_on_err (settle rid jid d m consumed).
Proof. unfold settle. keeps_tac. Qed.

Lemma mark_unknown_keeps rid jid : keeps_on_err (mark_accounting_unknown rid jid).
Proof. unfold mark_accounting_unknown. keeps_tac. Qed.

Lemma acknowledge_keeps : keeps_on_err acknowledge_accounting_unknown.
Proof.
  unfold acknowledge_accounting_unknown. keeps_tac.
  apply keeps_bind_total; [apply commit_keeps | by repeat eexists].
Qed.

Lemma ledger_apply_keeps e : keeps_on_err (ledger_apply e).
Proof.
  destruct e; simpl; eauto using roll_period_keeps, reconfigure_limits_keeps, reserve_keeps,
    settle_keeps, mark_unknown_keeps.
  apply keeps_bind_total; [apply acknowledge_keeps | by repeat eexists].
Qed.

(** ** Successes leave a valid, newer ledger *)

(** The same ledger, or a later one of the same instance. *)
Definition moved_on (l l' : BudgetLedger) : Prop :=
  l'.(instance) = l.(instance) ∧ (l' = l ∨ (l.(sequence) < l'.(sequence))%N).

Lemma moved_on_bump l n l' :
  moved_on l n → l'.(instance) = n.(instance) → l'.(sequence) = (n.(sequence) + 1)%N → moved_on l l'.
Proof. intros [Hi Hn] Hi' Hs. split; [congruence |]. right. rewrite Hs. destruct Hn as [-> | ?]; lia. Qed.

Lemma roll_period_moved d m l u l' : roll_period d m l = (Ok u, l') → moved_on l l'.
Proof.
  intros H. destruct (roll_period_ok _ _ _ _ _ H) as (_ & _ & _ & _ & Hi & _). revert H.
  unfold roll_period. intros H. unbind.
  destruct (String.eqb d (day l) && String.eqb m (month l));
    [unfold mret, M_ret in H; injection H as <- <-; by split; [| left] |].
  apply commit_ok in H as (-> & _ & _). split; [done |]. right.
  destruct (String.eqb m (month l)); cbn [negb];
    match goal with |- context [if negb (String.eqb d ?x) then _ else _] => destruct (String.eqb d x) end;
    cbn [negb sequence set_sequence set_day set_month]; lia.
Qed.

Lemma ledger_apply_ok e l u l' :
  ledger_apply e l = (Ok u, l') →
  moved_on l l' ∧ (ledger_validate l = Ok tt → ledger_validate l' = Ok tt).
Proof.
  destruct e as [d m | d m daily monthly | rid jid d m auth bytes | rid jid d m consumed | rid jid |]; simpl; intros H.
  - split; [by eapply roll_period_moved |]. by apply roll_period_ok in H as (_ & _ & _ & _ & _ & _ & _ & _ & _ & _ & _ & Hv).
  - apply reconfigure_limits_ok in H as (n & Hn & _ & Hl' & _ & _ & Hv).
    pose proof (roll_period_moved _ _ _ _ _ Hn) as Hm.
    apply roll_period_ok in Hn as (_ & _ & _ & _ & _ & _ & _ & _ & _ & _ & _ & Hvn).
    split; [| by auto]. destruct Hl' as [-> | ->]; [done | by eapply moved_on_bump].
  - apply reserve_ok in H as (n & Hn%roll_period_moved & _ & _ & _ & _ & _ & -> & Hv).
    split; [by eapply moved_on_bump | done].
  - apply settle_ok in H as (n & r & Hn%roll_period_moved & _ & _ & _ & _ & _ & -> & Hv).
    split; [by eapply moved_on_bump | done].
  - apply mark_unknown_ok in H as (r & _ & _ & _ & -> & Hv).
    split; [by eapply (moved_on_bump l l); [split; [| left] | ..] | done].
  - unbind. match goal with H : acknowledge_accounting_unknown _ = _ |- _ =>
      apply acknowledge_ok in H as (r & _ & _ & _ & -> & Hv) end.
    split; [by eapply (moved_on_bump l l); [split; [| left] | ..] | done].
Qed.

(** C40: every ledger operation is atomic, for every ledger and every argument: when it
    returns an error, the ledger is exactly what it was; when it succeeds on a valid ledger, the
    ledger it leaves is valid, belongs to the same instance, and is either the same ledger or
    one with a larger sequence number, so no committed state is ever numbered twice. *)
Theorem ledger_operations_atomic e l :
  let '(r, l') := ledger_apply e l in
  match r with
  | Err _ => l' = l
  | Ok _ =>
      (ledger_validate l = Ok tt → ledger_validate l' = Ok tt) ∧
      l'.(instance) = l.(instance) ∧ (l' = l ∨ (l.(sequence) < l'.(sequence))%N)
  end.
Proof.
  destruct (ledger_apply e l) as [[u | err] l'] eqn:H; [| by apply ledger_apply_keeps in H].
  by destruct (ledger_apply_ok _ _ _ _ H) as [[? ?] ?].
Qed.

(** ** Refinement of the account book *)

Lemma day_total_zero d book : Forall (λ c, c.(ch_day) ≠ d) book → day_total d book = 0%N.
Proof.
  induction 1 as [|c book Hc _ IH]; simpl; [done |]. rewrite IH.
  by destruct (String.eqb_spec (ch_day c) d).
Qed.

Lemma month_total_zero m book : Forall (λ c, c.(ch_month) ≠ m) book → month_total m book = 0%N.
Proof.
  induction 1 as [|c book Hc _ IH]; simpl; [done |]. rewrite IH.
  by destruct (String.eqb_spec (ch_month c) m).
Qed.

Lemma day_total_cons d c book :
  day_total d (c :: book) = ((if String.eqb c.(ch_day) d then c.(ch_bytes) else 0) + day_total d book)%N.
Proof. done. Qed.
Lemma month_total_cons m c book :
  month_total m (c :: book)
  = ((if String.eqb c.(ch_month) m then c.(ch_bytes) else 0) + month_total m book)%N.
Proof. done. Qed.
#[local] Arguments day_total : simpl never.
#[local] Arguments month_total : simpl never.

Lemma roll_represents book d m l n :
  represents book l → roll_period d m l = (Ok tt, n) → represents book n.
Proof.
  intros (Hv & Hd & Hm & Hbook & Hb) (Hbd & Hbm & Ed & Em & _ & _ & _ & Eb & Er & Hnd & Hnm & Hn)%roll_period_ok.
  pose proof (proj1 (ledger_validate_ok l) Hv) as (_ & _ & _ & _ & _ & _ & _ & _ & _ & Hres).
  split_and!; [by apply Hn | | | | by rewrite Eb, Er].
  - rewrite Hnd. unfold pending_day in *. rewrite Er, Ed.
    destruct (String.eqb_spec d (day l)) as [-> | Ne]; [done |].
    assert (Hlt : str_ltb (day l) d = true) by (by apply str_ltb_total).
    rewrite day_total_zero.
    + destruct (reservation l) as [r |]; [| done]. destruct (Hres r eq_refl) as (_ & H & _).
      destruct (String.eqb_spec (res_day r) d); [congruence | done].
    + eapply Forall_impl; [exact Hbook |]. intros c [H _] E. congruence.
  - rewrite Hnm. unfold pending_month in *. rewrite Er, Em.
    destruct (String.eqb_spec m (month l)) as [-> | Ne]; [done |].
    assert (Hlt : str_ltb (month l) m = true) by (by apply str_ltb_total).
    rewrite month_total_zero.
    + destruct (reservation l) as [r |]; [| done]. destruct (Hres r eq_refl) as (_ & _ & H).
      destruct (String.eqb_spec (res_month r) m); [congruence | done].
    + eapply Forall_impl; [exact Hbook |]. intros c [_ H] E. congruence.
  - eapply Forall_impl; [exact Hbook |]. intros c [H1 H2]. rewrite Ed, Em.
    split.
    + destruct (String.eqb_spec (day l) d) as [<- | ?]; [done |].
      eapply str_ltb_advance; [exact H1 | by apply str_ltb_total].
    + destruct (String.eqb_spec (month l) m) as [<- | ?]; [done |].
      eapply str_ltb_advance; [exact H2 | by apply str_ltb_total].
Qed.

Lemma reserve_represents book rid jid d m auth bytes l l' :
  represents book l → reserve rid jid d m auth bytes l = (Ok tt, l') → represents book l'.
Proof.
  intros HR (n & Hroll & Eb & Er & _ & _ & _ & -> & Hv)%reserve_ok.
  pose proof (roll_period_ok _ _ _ _ _ Hroll) as (_ & _ & Ed & Em & _).
  apply (roll_represents book) in Hroll as (_ & Hd & Hm & Hbook & _); [| done].
  unfold pending_day, pending_month in Hd, Hm. rewrite Er in Hd, Hm.
  split_and!; try done; unfold pending_day, pending_month; cbn.
  - by rewrite Ed, String.eqb_refl, Hd, Ed, N.add_0_r.
  - by rewrite Em, String.eqb_refl, Hm, Em, N.add_0_r.
Qed.

Lemma settle_represents book rid jid d m consumed l l' :
  represents book l → settle rid jid d m consumed l = (Ok tt, l') →
  represents ({| ch_day := d; ch_month := m; ch_bytes := consumed |} :: book) l'.
Proof.
  intros HR (n & r & Hroll & Er & _ & _ & Hrd & Hrm & -> & Hv)%settle_ok.
  pose proof (roll_period_ok _ _ _ _ _ Hroll) as (_ & _ & Ed & Em & _ & _ & _ & _ & Ern & _).
  apply (roll_represents book) in Hroll as (_ & Hd & Hm & Hbook & _); [| done].
  unfold pending_day, pending_month in Hd, Hm. rewrite Ern, Er, Ed in Hd. rewrite Ern, Er, Em in Hm.
  split_and!; try done; unfold pending_day, pending_month;
    rewrite ?day_total_cons, ?month_total_cons; cbn.
  - rewrite Ed, String.eqb_refl. clear Hv. revert Hd Hrd.
    destruct (String.eqb (res_day r) d); intros; lia.
  - rewrite Em, String.eqb_refl. clear Hv. revert Hm Hrm.
    destruct (String.eqb (res_month r) m); intros; lia.
  - constructor; [| done]. cbn. by rewrite Ed, Em, !str_ltb_irrefl.
Qed.

Lemma mark_unknown_represents book rid jid l l' :
  represents book l → mark_accounting_unknown rid jid l = (Ok tt, l') → represents book l'.
Proof.
  intros (_ & Hd & Hm & Hbook & _) (r & Er & _ & _ & -> & Hv)%mark_unknown_ok.
  by split_and!.
Qed.

Lemma acknowledge_represents book l b l' :
  represents book l → acknowledge_accounting_unknown l = (Ok b, l') →
  represents (charges_of Acknowledged l ++ book)%list l'.
Proof.
  intros (Hv & Hd & Hm & Hbook & _) (r & Er & _ & _ & -> & Hv')%acknowledge_ok.
  apply ledger_validate_ok in Hv as (_ & _ & _ & _ & _ & _ & _ & _ & _ & Hres).
  destruct (Hres r Er) as (_ & H1 & H2).
  unfold pending_day, pending_month in Hd, Hm. unfold charges_of. rewrite Er in *.
  split_and!; try done; unfold pending_day, pending_month; cbn [app];
    rewrite ?day_total_cons, ?month_total_cons; cbn.
  - rewrite N.add_0_r, Hd. lia.
  - rewrite N.add_0_r, Hm. lia.
  - by constructor.
Qed.

Lemma reconfigure_represents book d m daily monthly l l' :
  represents book l → reconfigure_limits d m daily monthly l = (Ok tt, l') → represents book l'.
Proof.
  intros HR (n & Hroll & _ & Hl' & _ & _ & Hv)%reconfigure_limits_ok.
  apply (roll_represents book) in Hroll as (Hvn & Hd & Hm & Hbook & Hb); [| done].
  destruct Hl' as [-> | ->]; [by split_and! |]. split_and!; try done. by apply Hv.
Qed.

Lemma apply_represents book e l l' :
  represents book l → ledger_apply e l = (Ok tt, l') →
  represents (charges_of e l ++ book)%list l'.
Proof.
  intros HR H. destruct e; simpl in H.
  - by eapply roll_represents.
  - by eapply reconfigure_represents.
  - by eapply reserve_represents.
  - by eapply settle_represents.
  - by eapply mark_unknown_represents.
  - unbind. by eapply acknowledge_represents.
Qed.

Lemma reaches_represents book l : ledger_reaches book l → represents book l.
Proof.
  induction 1 as [inst d m daily monthly l H | book l e l' _ IH H]; [| by eapply apply_represents].
  unfold ledger_new in H. unbind. subst. match goal with x : unit |- _ => destruct x end.
  by split_and!.
Qed.

(** C37: refinement of the account book: whatever sequence of rollovers, limit
    changes, reservations, settlements and acknowledgements produced a ledger, it
    is valid, its daily (monthly) charge is exactly the traffic booked on its day
    (month) plus the outstanding reservation made in it, and a block always has a
    reservation to resolve it. No byte is lost or counted twice across a rollover. *)
Theorem ledger_refines_account_book book l :
  ledger_reaches book l → represents book l.
Proof. apply reaches_represents. Qed.

(** [reserve] admits a job only inside both limits, charges it in full before it
    runs, and leaves no budget for a second one until it is settled. *)
Theorem reserve_charges_within_limits rid jid d m auth bytes l l' :
  reserve rid jid d m auth bytes l = (Ok tt, l') →
  (0 < bytes)%N ∧ (bytes ≤ l'.(daily_charged_bytes) ≤ l'.(daily_limit_bytes))%N
  ∧ (bytes ≤ l'.(monthly_charged_bytes) ≤ l'.(monthly_limit_bytes))%N
  ∧ l'.(day) = d ∧ l'.(month) = m
  ∧ available_bytes l' = Ok 0%N
  ∧ (∀ rid' jid' d' m' auth' bytes', is_ok (reserve rid' jid' d' m' auth' bytes' l').1 = false).
Proof.
  intros (n & Hroll & Eb & Er & Hd & Hm & Hpos & -> & Hv)%reserve_ok.
  apply roll_period_ok in Hroll as (_ & _ & Ed & Em & _).
  split; [done |]. split; [cbn; lia |]. split; [cbn; lia |].
  split; [done |]. split; [done |]. split.
  - unfold available_bytes. by rewrite Hv.
  - intros. destruct (reserve rid' _ _ _ _ _ _) as [[[] | e] l2] eqn:E; [| done].
    apply reserve_ok in E as (n2 & Hroll2 & _ & Er2 & _).
    apply roll_period_ok in Hroll2 as (_ & _ & _ & _ & _ & _ & _ & _ & E & _).
    by rewrite E in Er2.
Qed.

(** The grant of a job: it never settles more than it reserved, and the limits are
    never lowered under the books. *)
Definition within_grant (e : ledger_event) (l : BudgetLedger) : Prop :=
  match e with
  | Settled _ _ _ _ consumed =>
      ∀ r, l.(reservation) = Some r → (consumed ≤ r.(reserved_bytes))%N
  | Reconfigured _ _ daily monthly =>
      (l.(daily_limit_bytes) ≤ daily)%N ∧ (l.(monthly_limit_bytes) ≤ monthly)%N
  | _ => True
  end.

Inductive ledger_honest : list charge → BudgetLedger → Prop :=
| honest_fresh inst d m daily monthly l :
    ledger_new inst d m daily monthly = Ok l → ledger_honest [] l
| honest_step book l e l' :
    ledger_honest book l → within_grant e l → ledger_apply e l = (Ok tt, l') →
    ledger_honest (charges_of e l ++ book)%list l'.

Lemma honest_reaches book l : ledger_honest book l → ledger_reaches book l.
Proof. induction 1; [by eapply ledger_fresh | by eapply ledger_step]. Qed.

(** The invariant of honest histories: inside the limits, also for the outstanding
    reservation, and a reservation from an earlier period is the only traffic that
    can still be charged to the present one. *)
Definition in_limits (l : BudgetLedger) : Prop :=
  (l.(daily_charged_bytes) ≤ l.(daily_limit_bytes))%N
  ∧ (l.(monthly_charged_bytes) ≤ l.(monthly_limit_bytes))%N
  ∧ ∀ r, l.(reservation) = Some r →
      (r.(reserved_bytes) ≤ l.(daily_limit_bytes))%N
      ∧ (r.(reserved_bytes) ≤ l.(monthly_limit_bytes))%N
      ∧ (r.(res_day) ≠ l.(day) → l.(daily_charged_bytes) = 0%N)
      ∧ (r.(res_month) ≠ l.(month) → l.(monthly_charged_bytes) = 0%N).

Lemma roll_in_limits d m l n :
  in_limits l → roll_period d m l = (Ok tt, n) → in_limits n.
Proof.
  intros (Hd & Hm & Hr) (_ & _ & E1 & E2 & _ & E3 & E4 & _ & E5 & E6 & E7 & _)%roll_period_ok.
  unfold in_limits. rewrite E1, E2, E3, E4, E5, E6, E7.
  destruct (String.eqb_spec d (day l)) as [-> |], (String.eqb_spec m (month l)) as [-> |];
    (split; [lia | split; [lia |]]); intros r Er;
    destruct (Hr r Er) as (? & ? & ? & ?); split_and!; auto.
Qed.

Lemma settle_in_limits rid jid d m consumed l l' :
  in_limits l → within_grant (Settled rid jid d m consumed) l →
  settle rid jid d m consumed l = (Ok tt, l') → in_limits l'.
Proof.
  intros Hl Hg (n & r & Hroll & Er & _ & _ & Hrd & Hrm & -> & _)%settle_ok.
  pose proof (roll_in_limits _ _ _ _ Hl Hroll) as (Hd & Hm & Hr).
  apply roll_period_ok in Hroll as (_ & _ & Ed & Em & _ & _ & _ & _ & Ern & _).
  rewrite Ern, Er in Hr. destruct (Hr r eq_refl) as (H1 & H2 & H3 & H4).
  specialize (Hg r Er). rewrite Ed in H3. rewrite Em in H4.
  split_and!; cbn; [| | done].
  - destruct (String.eqb_spec (res_day r) d); [| rewrite H3 by done]; lia.
  - destruct (String.eqb_spec (res_month r) m); [| rewrite H4 by done]; lia.
Qed.

Lemma honest_in_limits book l : ledger_honest book l → in_limits l.
Proof.
  induction 1 as [inst d m daily monthly l H | book l e l' _ IH Hg H].
  - unfold ledger_new in H. unbind. subst. split_and!; cbn; [lia | lia | done].
  - destruct e; simpl in H, Hg.
    + by eapply roll_in_limits.
    + apply reconfigure_limits_ok in H as (n & Hroll & _ & Hl' & Ed & Em & _).
      pose proof (roll_in_limits _ _ _ _ IH Hroll) as (Hd & Hm & Hr).
      apply roll_period_ok in Hroll as (_ & _ & _ & _ & _ & E1 & E2 & _).
      destruct Hl' as [-> | ->]; [by split_and! |]. rewrite <- E1, <- E2 in Hg.
      split_and!; cbn; [lia | lia |]. intros r Er. destruct (Hr r Er) as (? & ? & ? & ?).
      split_and!; auto; lia.
    + apply reserve_ok in H as (n & Hroll & _ & _ & Hd & Hm & _ & -> & _).
      apply roll_period_ok in Hroll as (_ & _ & Ed & Em & _).
      split_and!; cbn; [lia | lia |]. intros ? [= <-]. cbn. split_and!; try lia; congruence.
    + by eapply settle_in_limits.
    + apply mark_unknown_ok in H as (r & Er & _ & _ & -> & _). by destruct IH as (? & ? & ?).
    + unbind. match goal with H : acknowledge_accounting_unknown _ = _ |- _ =>
        apply acknowledge_ok in H as (r & Er & _ & _ & -> & _) end.
      by destruct IH as (? & ? & _).
Qed.

(** The daily and monthly traffic limits hold over every history in which jobs
    keep to what they reserved and limits are not lowered: the traffic booked in a
    period plus the outstanding reservation never exceeds the period's limit. *)
Theorem honest_traffic_within_limits book l :
  ledger_honest book l →
  (day_total l.(day) book + pending_day l ≤ l.(daily_limit_bytes))%N
  ∧ (month_total l.(month) book + pending_month l ≤ l.(monthly_limit_bytes))%N.
Proof.
  intros H. pose proof (honest_in_limits _ _ H) as (Hd & Hm & _).
  apply honest_reaches, reaches_represents in H as (_ & E1 & E2 & _). by rewrite <- E1, <- E2.
Qed.

(** *** Settlement cannot get stuck *)

Lemma str_geb_trans a b c : str_ltb b c = false → str_ltb a b = false → str_ltb a c = false.
Proof.
  intros Hbc Hab. destruct (String.eqb_spec b a) as [-> | Ne]; [done |].
  eapply str_ltb_advance; [exact Hbc | by apply str_ltb_total].
Qed.

Lemma commit_total next l :
  ledger_validate next = Ok tt → is_u64 (next.(sequence) + 1) →
  commit next l = (Ok tt, set_sequence (next.(sequence) + 1) next).
Proof.
  intros Hv Hs. unfold commit, bump_sequence, on_clone, mbind, M_bind, get, lift, modify, put.
  rewrite (proj2 (u64_checked_add_Some _ _ _) (conj eq_refl Hs)). cbn.
  replace (ledger_validate (set_sequence (sequence next + 1) next)) with (@Ok string unit tt); [done |].
  symmetry. apply ledger_validate_ok in Hv as (H1 & _ & Hrest). apply ledger_validate_ok.
  split; [done |]. split; [cbn; lia | done].
Qed.

Lemma roll_period_total d m l :
  ledger_validate l = Ok tt → validate_period d m = Ok tt →
  str_ltb d l.(day) = false → str_ltb m l.(month) = false → is_u64 (l.(sequence) + 1) →
  ∃ n, roll_period d m l = (Ok tt, n) ∧ (n.(sequence) ≤ l.(sequence) + 1)%N.
Proof.
  intros Hv Hp Hd Hm Hs. unfold roll_period, mbind, M_bind, lift, get.
  rewrite Hp, Hd, Hm. cbn.
  destruct (String.eqb d (day l) && String.eqb m (month l)) eqn:E.
  { eexists. split; [done | lia]. }
  eexists. split.
  - apply commit_total; [| by repeat case_match].
    apply ledger_validate_ok in Hv as (H1 & H2 & _ & H4 & H5 & H6 & H7 & H8 & H9 & Hr).
    apply ledger_validate_ok.
    destruct (String.eqb_spec m (month l)) as [-> |]; cbn;
      destruct (String.eqb_spec d (day l)) as [-> |]; cbn;
      (split_and!; eauto; try (unfold MAX_EXACT_BYTES; lia));
      intros r Er; destruct (Hr r Er) as (? & ? & ?); eauto using str_geb_trans.
  - by repeat case_match; cbn; lia.
Qed.

Lemma checked_bytes_add_total a b name :
  (a + b ≤ MAX_EXACT_BYTES)%N → checked_bytes_add a b name = Ok (a + b)%N.
Proof.
  intros H. unfold checked_bytes_add, validate_accounted_bytes.
  assert (is_u64 (a + b)) as Hu by (unfold is_u64, u64_max, MAX_EXACT_BYTES in *; lia).
  rewrite (proj2 (u64_checked_add_Some _ _ _) (conj eq_refl Hu)). cbn.
  by apply N.ltb_ge in H as ->.
Qed.

Lemma settlement_charge_total (same : bool) charged reserved consumed name name' :
  (charged + consumed ≤ MAX_EXACT_BYTES)%N → (same = true → (reserved ≤ charged)%N) →
  ∃ c, (if same then replace_reservation_charge charged reserved consumed name
        else checked_bytes_add charged consumed name') = Ok c ∧ (c ≤ MAX_EXACT_BYTES)%N.
Proof.
  intros H Hr. destruct same; unfold replace_reservation_charge.
  - specialize (Hr eq_refl).
    rewrite (proj2 (u64_checked_sub_Some _ _ _) (conj Hr eq_refl)). cbn.
    rewrite checked_bytes_add_total by lia. eexists. split; [done | lia].
  - rewrite checked_bytes_add_total by lia. eauto.
Qed.

Lemma rolled_charges book d m l n r :
  represents book l → l.(reservation) = Some r → roll_period d m l = (Ok tt, n) →
  (n.(daily_charged_bytes) ≤ l.(daily_charged_bytes))%N
  ∧ (n.(monthly_charged_bytes) ≤ l.(monthly_charged_bytes))%N
  ∧ (String.eqb r.(res_day) d = true → (r.(reserved_bytes) ≤ n.(daily_charged_bytes))%N)
  ∧ (String.eqb r.(res_month) m = true → (r.(reserved_bytes) ≤ n.(monthly_charged_bytes))%N).
Proof.
  intros HR Er Hroll. pose proof (roll_represents _ _ _ _ _ HR Hroll) as (_ & Hd & Hm & _).
  apply roll_period_ok in Hroll as (_ & _ & Ed & Em & _ & _ & _ & _ & Ern & Hnd & Hnm & _).
  unfold pending_day, pending_month in *. rewrite Ern, Er, Ed in Hd. rewrite Ern, Er, Em in Hm.
  split_and!.
  - rewrite Hnd. destruct (String.eqb d (day l)); lia.
  - rewrite Hnm. destruct (String.eqb m (month l)); lia.
  - intros E. rewrite E in Hd. lia.
  - intros E. rewrite E in Hm. lia.
Qed.

(** An outstanding reservation can always be resolved: on every reachable ledger,
    settling it by its own identity on a period that is not in the past succeeds
    whenever the resulting totals are representable, and unblocks the ledger. *)
Theorem settle_always_possible book l r d m consumed :
  ledger_reaches book l → l.(reservation) = Some r →
  validate_period d m = Ok tt → str_ltb d l.(day) = false → str_ltb m l.(month) = false →
  (l.(daily_charged_bytes) + consumed ≤ MAX_EXACT_BYTES)%N →
  (l.(monthly_charged_bytes) + consumed ≤ MAX_EXACT_BYTES)%N →
  (l.(sequence) + 2 ≤ u64_max)%N →
  ∃ l', settle r.(reservation_id) r.(job_id) d m consumed l = (Ok tt, l')
  ∧ l'.(reservation) = None ∧ l'.(accounting_blocked) = false.
Proof.
  intros HR%reaches_represents Er Hp Hd Hm Hcd Hcm Hs.
  destruct (roll_period_total d m l) as (n & Hroll & Hns);
    [apply HR | done | done | done | unfold is_u64; lia |].
  pose proof (rolled_charges _ _ _ _ _ _ HR Er Hroll) as (Hnd & Hnm & Hrd & Hrm).
  pose proof (roll_period_ok _ _ _ _ _ Hroll) as (_ & _ & _ & _ & _ & _ & _ & _ & _ & _ & _ & Hv).
  destruct (settlement_charge_total (String.eqb r.(res_day) d) n.(daily_charged_bytes)
    r.(reserved_bytes) consumed "daily scheduler settlement" "cross-day scheduler settlement")
    as (cd & Ecd & ?); [lia | done |].
  destruct (settlement_charge_total (String.eqb r.(res_month) m) n.(monthly_charged_bytes)
    r.(reserved_bytes) consumed "monthly scheduler settlement" "cross-month scheduler settlement")
    as (cm & Ecm & ?); [lia | done |].
  unfold settle, mbind, M_bind, lift, get, on_clone, validate_accounted_bytes, exact_reservation.
  replace (MAX_EXACT_BYTES <? consumed)%N with false by (symmetry; apply N.ltb_ge; lia).
  cbn. rewrite Er. cbn. rewrite !String.eqb_refl. cbn. rewrite Hroll, Ecd, Ecm, commit_total.
  - by eexists.
  - specialize (Hv (proj1 HR)). apply ledger_validate_ok in Hv as (H1 & H2 & H3 & H4 & H5 & _ & _ & H8 & H9 & _).
    apply ledger_validate_ok. by split_and!.
  - cbn. unfold is_u64. lia.
Qed.

(** ** The text record round trip *)

Lemma validate_period_plain d m v : validate_period d m = Ok v → plain d = true ∧ plain m = true.
Proof.
  intros (? & H%fail_if_ok_inv & _)%bind_ok_inv. reflect_bools.
  split; (eapply class_plain; [apply digit_printable | | done]);
    destruct_and?; match goal with |- String.eqb ?s "" = false => destruct s end;
    unfold len in *; simpl in *; lia || done.
Qed.

Lemma validate_period_not_dash d m v :
  validate_period d m = Ok v → is_dash d = false ∧ is_dash m = false.
Proof.
  intros (? & H%fail_if_ok_inv & _)%bind_ok_inv. reflect_bools. unfold is_dash.
  split; [destruct (String.eqb_spec d "-") | destruct (String.eqb_spec m "-")]; subst; done.
Qed.

Lemma reservation_validate_ok r u :
  reservation_validate r = Ok u →
  (plain r.(reservation_id) = true ∧ is_dash r.(reservation_id) = false)
  ∧ (plain r.(job_id) = true ∧ is_dash r.(job_id) = false)
  ∧ (∃ v, validate_period r.(res_day) r.(res_month) = Ok v)
  ∧ (∃ v, fence_validate r.(authority) = Ok v).
Proof.
  unfold reservation_validate. intros H. unbind.
  split_and!; eauto;
    (by eapply require_lower_hex_plain; [| eassumption])
    || (by eapply require_lower_hex_not_dash; [| eassumption]).
Qed.

Lemma bool_flag_plain b : plain (bool_flag b) = true.
Proof. by destruct b. Qed.

Lemma ledger_fields_plain l : ledger_validate l = Ok tt → plain_fields (ledger_fields l).
Proof.
  intros ([? Hi%require_identifier_plain] & _ & [? [? ?]%validate_period_plain] & _ & _ & _ & _ & _ & _ & Hr)%ledger_validate_ok.
  unfold ledger_fields, plain_fields. apply Forall_app. split.
  - repeat constructor; try done; try apply show_plain; apply bool_flag_plain.
  - destruct (reservation l) as [r |]; [| by repeat constructor].
    destruct (Hr r eq_refl) as (Hv & _). apply reservation_validate_ok in Hv as
      ([? _] & [? _] & [? [? ?]%validate_period_plain] & [? (_ & _ & Hg)%fence_validate_ok]).
    apply generations_validate_ok in Hg as (? & ? & ? & _).
    repeat constructor; try done; apply show_plain.
Qed.

Lemma ledger_encode_ascii l s : ledger_encode l = Ok s → is_ascii s = true.
Proof.
  unfold ledger_encode. intros H. unbind. subst s.
  match goal with x : unit |- _ => destruct x end.
  by apply render_ascii, ledger_fields_plain.
Qed.

(** Splits the plainness of a field list into one fact per field, and reads the
    fields of a rendered record one after the other. *)
Ltac split_plain_fields :=
  unfold plain_fields in *;
  repeat match goal with H : Forall _ (_ :: _) |- _ => apply Forall_cons in H as [[? ?] H] end;
  cbn [fst snd] in *.
Ltac read_fields :=
  repeat (rewrite record_field by done; cbn [OrderedRecord.finish]; rewrite ?parse_u64_show by done).

Lemma parse_bool_flag b :
  (if String.eqb (bool_flag b) "0" then Ok false
   else if String.eqb (bool_flag b) "1" then Ok true
   else Err "scheduler accounting flag is invalid") = @Ok string bool b.
Proof. by destruct b. Qed.

Lemma ledger_parse_render l :
  ledger_typed l → ledger_validate l = Ok tt →
  (ledger_parse (field_text <$> ledger_fields l)).1 = Ok l.
Proof.
  intros (T1 & T2 & T3 & T4 & T5 & Tr) Hv. pose proof (ledger_fields_plain _ Hv) as Hp.
  apply ledger_validate_ok in Hv as (_ & _ & _ & _ & _ & _ & _ & _ & _ & Hr).
  unfold ledger_fields in *. unfold ledger_parse, mbind, M_bind, lift.
  destruct l as [i s d m dl ml dc mc b [r |]];
    cbn -[field_text show bool_flag OrderedRecord.field parse_u64 String.eqb] in *;
    split_plain_fields; read_fields; rewrite parse_bool_flag; read_fields; [| done].
  destruct (Hr r eq_refl) as (Hv & _). apply reservation_validate_ok in Hv as
    ([_ D1] & [_ D2] & [? [D3 D4]%validate_period_not_dash] & [? (_ & _ & Hg)%fence_validate_ok]).
  apply generations_validate_ok in Hg as (_ & _ & _ & D5 & D6 & D7).
  destruct (Tr r eq_refl) as (? & ? & ? & ? & ?).
  unfold is_dash in *. cbn [forallb].
  rewrite D1, D2, D3, D4, D5, D6, D7, !show_not_dash. cbn [negb andb].
  rewrite !parse_u64_show by done. by destruct r as [? ? ? ? ? [? ? [] ?]].
Qed.

Lemma ledger_parse_typed ls l : (ledger_parse ls).1 = Ok l → ledger_typed l.
Proof.
  intros H. destruct (ledger_parse ls) as [r ls'] eqn:E. simpl in H. subst r.
  unfold ledger_parse in E. unbind. unfold ledger_typed; cbn.
  repeat match goal with H : parse_u64 _ _ = Ok _ |- _ => apply parse_u64_range in H end.
  split_and!; try done.
  intros r ->. destruct (forallb is_dash _); [done |].
  destruct (forallb _ _); [| done]. unbind. simplify_eq.
  unfold reservation_typed, fence_typed, generations_typed. cbn.
  split_and!; by eapply parse_u64_range.
Qed.

Lemma budget_header_clean :
  contains nl BUDGET_HEADER = false ∧ contains cr BUDGET_HEADER = false
  ∧ contains (chr 0) BUDGET_HEADER = false.
Proof. by vm_compute. Qed.

Lemma ledger_roundtrip l s :
  ledger_typed l → ledger_encode l = Ok s → ledger_decode s = Ok l.
Proof.
  intros Ht He. unfold ledger_decode.
  assert (He' := He). unfold ledger_encode in He'. unbind. subst s.
  match goal with x : unit |- _ => destruct x end. destruct budget_header_clean as (? & ? & ?).
  rewrite record_new_render by (done || by apply ledger_fields_plain). cbn [mbind result_bind].
  rewrite ledger_parse_render by done. cbn [mbind result_bind].
  rewrite Ha. cbn [mbind result_bind]. rewrite He. cbn [mbind result_bind].
  by rewrite String.eqb_refl.
Qed.

(** A valid ledger written by [BudgetLedger::encode] is read back unchanged by
    [BudgetLedger::decode]: a reservation survives a restart fully charged. *)
Theorem ledger_decode_encode l s :
  ledger_typed l → ledger_encode l = Ok s → ledger_decode s = Ok l.
Proof. apply ledger_roundtrip. Qed.

(** Decoding a ledger is canonical: every text that decodes is the encoding of
    the valid ledger it decodes to, so no two texts stand for the same ledger. *)
Theorem ledger_decode_canonical s l :
  ledger_decode s = Ok l → ledger_encode l = Ok s ∧ ledger_validate l = Ok tt ∧ ledger_typed l.
Proof.
  unfold ledger_decode. intros H. unbind. subst. reflect_bools.
  match goal with H : String.eqb _ _ = true |- _ => apply String.eqb_eq in H end. subst.
  repeat match goal with x : unit |- _ => destruct x end.
  split_and!; try done. by eapply ledger_parse_typed.
Qed.

(** ** Witnesses *)

Module LedgerSample.
Definition fresh : BudgetLedger :=
  {| instance := "wan_sqm"; sequence := 1; day := "20260805"; month := "202608";
     daily_limit_bytes := 10000; monthly_limit_bytes := 100000; daily_charged_bytes := 0;
     monthly_charged_bytes := 0; accounting_blocked := false; reservation := None |}.
Definition rid : string := CursorSample.hex 32.
Definition granted : ledger_event :=
  Reserved rid rid "20260805" "202608" CursorSample.fence 4000.
Definition reserved : BudgetLedger := (ledger_apply granted fresh).2.
Definition settled : BudgetLedger :=
  (ledger_apply (Settled rid rid "20260901" "202609" 2500) reserved).2.
Definition text : string := match ledger_encode reserved with Ok s => s | Err _ => "" end.
End LedgerSample.

Lemma sample_honest : ledger_honest [] LedgerSample.reserved.
Proof.
  eapply (honest_step [] LedgerSample.fresh LedgerSample.granted); [| done | by vm_compute].
  eapply (honest_fresh "wan_sqm" "20260805" "202608" 10000 100000). by vm_compute.
Qed.

Lemma ledger_operations_atomic_witness :
  (ledger_apply LedgerSample.granted LedgerSample.reserved).2 = LedgerSample.reserved ∧
  ledger_validate LedgerSample.reserved = Ok tt ∧ (1 < LedgerSample.reserved.(sequence))%N.
Proof.
  split; [apply (ledger_operations_atomic LedgerSample.granted LedgerSample.reserved) |].
  destruct (ledger_operations_atomic LedgerSample.granted LedgerSample.fresh) as (Hv & _ & [E | Hs]);
    [by split; [apply Hv; vm_compute | vm_compute in E] | by split; [apply Hv; vm_compute | exact Hs]].
Defined.

Lemma ledger_refines_account_book_witness :
  represents [{| ch_day := "20260901"; ch_month := "202609"; ch_bytes := 2500 |}]
    LedgerSample.settled.
Proof.
  apply ledger_refines_account_book.
  eapply (ledger_step [] LedgerSample.reserved
    (Settled LedgerSample.rid LedgerSample.rid "20260901" "202609" 2500));
    [apply honest_reaches, sample_honest | by vm_compute].
Defined.

Lemma reserve_charges_within_limits_witness : available_bytes LedgerSample.reserved = Ok 0%N.
Proof.
  apply (reserve_charges_within_limits LedgerSample.rid LedgerSample.rid "20260805" "202608"
    CursorSample.fence 4000 LedgerSample.fresh). by vm_compute.
Defined.

Lemma honest_traffic_within_limits_witness : (0 + 4000 ≤ 10000)%N.
Proof. apply (honest_traffic_within_limits [] LedgerSample.reserved), sample_honest. Defined.

Lemma settle_always_possible_witness :
  ∃ l', settle LedgerSample.rid LedgerSample.rid "20260901" "202609" 2500 LedgerSample.reserved
        = (Ok tt, l') ∧ l'.(reservation) = None ∧ l'.(accounting_blocked) = false.
Proof.
  eapply (settle_always_possible [] LedgerSample.reserved
    {| reservation_id := LedgerSample.rid; job_id := LedgerSample.rid; res_day := "20260805";
       res_month := "202608"; reserved_bytes := 4000; authority := CursorSample.fence |});
    [apply honest_reaches, sample_honest | by vm_compute ..].
Defined.

Lemma sample_ledger_typed : ledger_typed LedgerSample.reserved.
Proof. split_and!; try (intros ? [= <-]; split_and!); by vm_compute. Qed.

Lemma ledger_decode_encode_witness :
  ledger_decode LedgerSample.text = Ok LedgerSample.reserved.
Proof. apply ledger_decode_encode; [apply sample_ledger_typed | by vm_compute]. Defined.

Lemma ledger_decode_canonical_witness : ledger_encode LedgerSample.reserved = Ok LedgerSample.text.
Proof. apply (ledger_decode_canonical LedgerSample.text). by vm_compute. Defined.
