(* ===== verification/SchedulerState.v ===== *)
(** * The durable state of one scheduler instance

    Models [SchedulerInstanceState] of [operations/scheduler.rs] and its framed
    text form: a header, three byte lengths, then the cursor record, the ledger
    record and the operator warning, without separators. The width of [usize]
    depends on the router's architecture, so it is a parameter. *)

From S2P Require Import Prelude RustStr SchedRecord ScheduleCursor BudgetLedger.
Local Open Scope string_scope.

Definition INSTANCE_STATE_HEADER_V2 : string :=
  "cake-autorate-native-scheduler-state" +:+ String tab "2".

Record SchedulerInstanceState := {
  cursor : ScheduleCursor;
  budget : BudgetLedger;
  operator_warning : option string;
}.

Definition state_validate (s : SchedulerInstanceState) : Res unit :=
  cursor_validate s.(cursor) ≫= λ _,
  ledger_validate s.(budget) ≫= λ _,
  fail_if (negb (String.eqb s.(cursor).(cursor_instance) s.(budget).(instance)))
    "scheduler cursor and budget instances differ" ≫= λ _,
  match s.(operator_warning) with
  | Some warning =>
      fail_if (String.eqb warning "" || (512 <? len warning)%N
               || any_byte (λ c, (byte c <? 32)%N || (byte c =? 127)%N) warning)
        "scheduler operator warning is not a bounded visible string"
  | None => Ok tt
  end.

Definition state_new (c : ScheduleCursor) (b : BudgetLedger) : Res SchedulerInstanceState :=
  let state := {| cursor := c; budget := b; operator_warning := None |} in
  state_validate state ≫= λ _, mret state.

(** [name\tvalue] *)
Definition length_field (name : string) (n : N) : string := name +:+ String tab (show n).

Definition state_encode (s : SchedulerInstanceState) : Res string :=
  state_validate s ≫= λ _,
  c ← cursor_encode s.(cursor);
  b ← ledger_encode s.(budget);
  let warning := default "" s.(operator_warning) in
  mret (INSTANCE_STATE_HEADER_V2
    +:+ String nl (length_field "cursor_bytes" (len c)
    +:+ String nl (length_field "budget_bytes" (len b)
    +:+ String nl (length_field "warning_bytes" (len warning)
    +:+ String nl (c +:+ (b +:+ warning)))))).

Section decode.
Context (usize_max : N).

Definition usize_checked_add (a b : N) : option N :=
  if (a + b <=? usize_max)%N then Some (a + b)%N else None.

Definition parse_length_field (expected line : string) : Res N :=
  match split_once tab line with
  | None => Err "scheduler instance state length field is malformed"
  | Some (name, raw) =>
      fail_if (negb (String.eqb name expected))
        ("scheduler instance state expected " +:+ expected +:+ ", found " +:+ name) ≫= λ _,
      value ← parse_u64 "scheduler instance state payload length" raw;
      if (value <=? usize_max)%N then Ok value
      else Err "scheduler instance state payload length is too large"
  end.

Definition from_utf8 (s : string) (error : string) : Res string :=
  fail_if (negb (utf8_valid s)) error ≫= λ _, mret s.

(** The payload, once the three lengths are known. *)
Definition state_decode_payload (payload : string) (cursor_bytes budget_bytes warning_bytes : N)
    : Res SchedulerInstanceState :=
  expected ← ok_or (usize_checked_add cursor_bytes budget_bytes
                      ≫= λ value, usize_checked_add value warning_bytes)
    "scheduler instance state length overflow";
  fail_if (negb (len payload =? expected)%N)
    "scheduler instance state payload length mismatch" ≫= λ _,
  let '(cursor_text, remainder) := split_at (N.to_nat cursor_bytes) payload in
  let '(budget_text, warning) := split_at (N.to_nat budget_bytes) remainder in
  cursor_text ← from_utf8 cursor_text "scheduler cursor state is not UTF-8";
  budget_text ← from_utf8 budget_text "scheduler budget state is not UTF-8";
  c ← cursor_decode cursor_text;
  b ← ledger_decode budget_text;
  state ← state_new c b;
  w ← (if String.eqb warning "" then Ok None
       else text ← from_utf8 warning "scheduler operator warning is not UTF-8"; Ok (Some text));
  mret {| cursor := state.(cursor); budget := state.(budget); operator_warning := w |}.

Definition state_decode (input : string) : Res SchedulerInstanceState :=
  let lines := splitn 5 nl input in
  fail_if (negb (match lines with h :: _ => String.eqb h INSTANCE_STATE_HEADER_V2
                 | [] => false end))
    "scheduler instance state header is invalid" ≫= λ _,
  cursor_line ← ok_or (lines !! 1) "scheduler instance state is missing cursor length";
  cursor_bytes ← parse_length_field "cursor_bytes" cursor_line;
  budget_line ← ok_or (lines !! 2) "scheduler instance state is missing budget length";
  budget_bytes ← parse_length_field "budget_bytes" budget_line;
  warning_line ← ok_or (lines !! 3) "scheduler instance state is missing warning length";
  warning_bytes ← parse_length_field "warning_bytes" warning_line;
  payload ← ok_or (lines !! 4) "scheduler instance state is missing its payload";
  state ← state_decode_payload payload cursor_bytes budget_bytes warning_bytes;
  state_validate state ≫= λ _,
  encoded ← state_encode state;
  fail_if (negb (String.eqb encoded input)) "scheduler instance state is not canonical" ≫= λ _,
  mret state.
End decode.

(** ** Lemmas *)

Definition state_typed (s : SchedulerInstanceState) : Prop :=
  cursor_typed s.(cursor) ∧ ledger_typed s.(budget)
  ∧ ∀ w, s.(operator_warning) = Some w → utf8_valid w = true.

Lemma splitn_append n c l r :
  contains c l = false → splitn (S (S n)) c (l +:+ String c r) = l :: splitn (S n) c r.
Proof. intros H. cbn [splitn]. by rewrite split_once_append. Qed.

Lemma length_field_no_nl name n :
  contains nl name = false → contains nl (length_field name n) = false.
Proof.
  intros H. unfold length_field. rewrite contains_append, H, contains_cons. simpl.
  by apply show_contains.
Qed.

Lemma len_le_append_l a b : (len a ≤ len (a +:+ b))%N.
Proof. rewrite len_append. lia. Qed.

Section roundtrip.
Context (usize_max : N) (Husize : (usize_max ≤ u64_max)%N).

Lemma parse_length_field_show name n :
  contains tab name = false → (n ≤ usize_max)%N →
  parse_length_field usize_max name (length_field name n) = Ok n.
Proof.
  intros Hn Hm. unfold parse_length_field, length_field.
  rewrite split_once_append by done. rewrite String.eqb_refl. cbn.
  rewrite parse_u64_show by (unfold is_u64; lia). cbn.
  by apply N.leb_le in Hm as ->.
Qed.

Lemma from_utf8_ok s e : utf8_valid s = true → from_utf8 s e = Ok s.
Proof. intros H. unfold from_utf8. by rewrite H. Qed.

Lemma state_validate_ok s u :
  state_validate s = Ok u →
  cursor_validate s.(cursor) = Ok tt ∧ ledger_validate s.(budget) = Ok tt
  ∧ state_new s.(cursor) s.(budget)
    = Ok {| cursor := s.(cursor); budget := s.(budget); operator_warning := None |}
  ∧ s.(operator_warning) ≠ Some "".
Proof.
  unfold state_validate. intros H. unbind. repeat match goal with x : unit |- _ => destruct x end.
  split_and!; try done.
  - unfold state_new, state_validate. cbn. rewrite Ha, Ha0. cbn. by rewrite Ha1.
  - intros E. by rewrite E in H.
Qed.

Lemma state_decode_payload_ok s u c b :
  state_typed s → state_validate s = Ok u →
  cursor_encode s.(cursor) = Ok c → ledger_encode s.(budget) = Ok b →
  let w := default "" s.(operator_warning) in
  (len c + len b + len w ≤ usize_max)%N →
  state_decode_payload usize_max (c +:+ (b +:+ w)) (len c) (len b) (len w) = Ok s.
Proof.
  intros (Tc & Tb & Tw) Hv Ec Eb w Hlen. apply state_validate_ok in Hv as (Hvc & Hvb & Hn & Hw).
  unfold state_decode_payload, usize_checked_add.
  replace (len c + len b <=? usize_max)%N with true by (symmetry; apply N.leb_le; lia).
  cbn. replace (len c + len b + len w <=? usize_max)%N with true by (symmetry; by apply N.leb_le).
  cbn. rewrite !len_append, N.add_assoc, N.eqb_refl. cbn.
  unfold len. rewrite Nat2N.id, split_at_append, Nat2N.id, split_at_append.
  rewrite (from_utf8_ok c) by (by eapply utf8_ascii, cursor_encode_ascii). cbn.
  rewrite (from_utf8_ok b) by (by eapply utf8_ascii, ledger_encode_ascii). cbn.
  rewrite (cursor_roundtrip _ _ Tc Ec), (ledger_roundtrip _ _ Tb Eb). cbn.
  rewrite Hn. cbn. destruct s as [sc sb [sw |]]; cbn in *; [| done].
  destruct (String.eqb_spec sw ""); [by subst |]. by rewrite from_utf8_ok by auto.
Qed.

Lemma splitn_state c b w :
  splitn 5 nl (INSTANCE_STATE_HEADER_V2
    +:+ String nl (length_field "cursor_bytes" (len c)
    +:+ String nl (length_field "budget_bytes" (len b)
    +:+ String nl (length_field "warning_bytes" (len w)
    +:+ String nl (c +:+ (b +:+ w)))))) =
  [INSTANCE_STATE_HEADER_V2; length_field "cursor_bytes" (len c);
   length_field "budget_bytes" (len b); length_field "warning_bytes" (len w);
   c +:+ (b +:+ w)].
Proof. rewrite !splitn_append by (by apply length_field_no_nl || by vm_compute). done. Qed.

Lemma len_frame a b : (len b ≤ len (a +:+ String nl b))%N.
Proof. rewrite len_append. unfold len. cbn. lia. Qed.

(** The framed state of a scheduler instance round trips: a valid state is read
    back exactly, warning included, on every width of [usize] that can hold it. *)
Theorem state_decode_encode s text :
  state_typed s → state_encode s = Ok text → (len text ≤ usize_max)%N →
  state_decode usize_max text = Ok s.
Proof.
  intros Ht He Hlen. assert (He' := He). unfold state_encode in He'.
  apply bind_ok_inv in He' as ([] & Hv & He'). apply bind_ok_inv in He' as (c & Ec & He').
  apply bind_ok_inv in He' as (b & Eb & He'). apply ret_ok_inv in He'.
  set (w := default "" (operator_warning s)) in *.
  assert (Hsum : (len c + len b + len w ≤ usize_max)%N).
  { etransitivity; [| exact Hlen]. rewrite <- N.add_assoc, <- !len_append, <- He'.
    repeat (etransitivity; [| apply len_frame]). lia. }
  unfold state_decode. replace (splitn 5 nl text) with
    [INSTANCE_STATE_HEADER_V2; length_field "cursor_bytes" (len c);
     length_field "budget_bytes" (len b); length_field "warning_bytes" (len w);
     c +:+ (b +:+ w)] by (by rewrite <- He', splitn_state).
  cbn -[state_decode_payload parse_length_field length_field].
  rewrite !parse_length_field_show by (done || lia). cbn -[state_decode_payload].
  rewrite (state_decode_payload_ok s tt) by done. cbn. rewrite Hv. cbn. rewrite He. cbn.
  by rewrite String.eqb_refl.
Qed.
End roundtrip.

(** ** Witness *)

Module StateSample.
Definition state : SchedulerInstanceState :=
  {| cursor := CursorSample.failed; budget := LedgerSample.reserved;
     operator_warning := Some "clock moved" |}.
Definition text : string := match state_encode state with Ok s => s | Err _ => "" end.
End StateSample.

Lemma state_decode_encode_witness :
  state_decode 4294967295 StateSample.text = Ok StateSample.state.
Proof.
  apply (state_decode_encode 4294967295); [done | | by vm_compute | by vm_compute].
  split; [| split].
  - apply sample_cursor_typed.
  - apply sample_ledger_typed.
  - by intros ? [= <-].
Defined.
