(* ===== verification/PercentRecord.v ===== *)
(** * Operation records: percent encoding and the key=value record

    Models the private helpers at the end of [operations/protocol.rs]:
    [encode_record], [RecordReader], [percent_encode]/[percent_decode] and the
    field validators. Every record of the operation protocol is a header line,
    one [key=value] line per field with the value percent-encoded, and one
    empty line. *)

From S2P Require Import Prelude RustStr SchedRecord.
Local Open Scope string_scope.

Definition MAX_OPERATION_RECORD_BYTES : N := 8 * 1024.

(** ** Percent encoding *)

(** [byte.is_ascii_alphanumeric() || matches!(byte, b'-' | b'.' | b'_' | b'~')] *)
Definition unreserved (c : ascii) : bool := is_ascii_alphanumeric c || contains c "-._~".

Definition HEX : string := "0123456789ABCDEF".
(** [HEX[n]]; the two call sites index with a nibble. *)
Definition hex_digit (n : N) : ascii := default zero (String.get (N.to_nat n) HEX).

Fixpoint percent_encode (value : string) : string :=
  match value with
  | "" => ""
  | String c rest =>
      if unreserved c then String c (percent_encode rest)
      else String "%" (String (hex_digit (N.shiftr (byte c) 4))
             (String (hex_digit (N.land (byte c) 15)) (percent_encode rest)))
  end.

Definition hex_value (c : ascii) : Res N :=
  if is_ascii_digit c then Ok (byte c - 48)%N
  else if in_range 65 70 c then Ok (byte c - 65 + 10)%N
  else Err "operation percent escapes must use uppercase hexadecimal".

(** The index loop of [percent_decode]; the string is the unread tail. *)
Fixpoint percent_bytes (s : string) : Res string :=
  match s with
  | "" => Ok ""
  | String c rest =>
      if Ascii.eqb c "%" then
        match rest with
        | String h (String l rest) =>
            high ← hex_value h;
            low ← hex_value l;
            out ← percent_bytes rest;
            mret (String (chr (N.lor (N.shiftl high 4) low)) out)
        | _ => Err "truncated percent escape in operation field"
        end
      else if unreserved c then
        out ← percent_bytes rest; mret (String c out)
      else Err "operation field contains a non-canonical raw byte"
  end.

Definition percent_decode (value : string) : Res string :=
  decoded ← percent_bytes value;
  fail_if (negb (utf8_valid decoded)) "operation field is not valid UTF-8" ≫= λ _,
  fail_if (contains (chr 0) decoded || contains cr decoded)
    "operation field contains a forbidden control byte" ≫= λ _,
  mret decoded.

(** ** Writing a record *)

Definition encode_line (f : string * string) (rest : string) : string :=
  f.1 +:+ String "=" (percent_encode f.2 +:+ String nl rest).

Definition record_text (header : string) (fields : list (string * string)) : string :=
  header +:+ String nl (foldr encode_line (str1 nl) fields).

Definition encode_record (header : string) (fields : list (string * string)) : Res string :=
  let out := record_text header fields in
  fail_if (MAX_OPERATION_RECORD_BYTES <? len out)%N
    ("operation record exceeds " +:+ show MAX_OPERATION_RECORD_BYTES +:+ " bytes") ≫= λ _,
  mret out.

(** ** Reading a record: the state is what is left of the [lines] iterator *)

(** [s.ends_with(suffix)] *)
Fixpoint ends_with (suffix s : string) : bool :=
  String.eqb s suffix || match s with "" => false | String _ s => ends_with suffix s end.

Module RecordReader.
Definition new (input header : string) : Res (list string) :=
  fail_if (MAX_OPERATION_RECORD_BYTES <? len input)%N
    ("operation record exceeds " +:+ show MAX_OPERATION_RECORD_BYTES +:+ " bytes") ≫= λ _,
  fail_if (contains cr input || negb (ends_with (String nl (str1 nl)) input))
    "operation record must use LF and end with one empty line" ≫= λ _,
  match lines input with
  | first :: rest =>
      fail_if (negb (String.eqb first header))
        "unsupported operation record header or version" ≫= λ _,
      mret rest
  | [] => Err "unsupported operation record header or version"
  end.

Definition field (expected : string) : M (list string) string string := λ record,
  match record with
  | [] => (Err ("missing operation field " +:+ expected), [])
  | line :: rest =>
      (match split_once "=" line with
       | None => Err ("malformed operation field " +:+ expected)
       | Some (key, value) =>
           fail_if (negb (String.eqb key expected))
             ("expected operation field " +:+ expected +:+ ", received " +:+ key) ≫= λ _,
           percent_decode value
       end, rest)
  end.

Definition finish : M (list string) string unit := λ record,
  match record with
  | [""] => (Ok tt, [])
  | [] | [_] => (Err "operation record has trailing or unknown fields", [])
  | line :: next :: rest =>
      (Err "operation record has trailing or unknown fields",
       if String.eqb line "" then rest else next :: rest)
  end.
End RecordReader.

(** ** Field validators and parsers *)

Definition require_lower_hex (name value : string) (length : N) : Res unit :=
  fail_if (negb (len value =? length)%N || negb (all_bytes is_lower_hex value))
    (name +:+ " must contain exactly " +:+ show length +:+ " lowercase hexadecimal characters").

Definition require_safe_identifier (name value : string) (minimum maximum : N)
    (punctuation : string) : Res unit :=
  fail_if (negb ((minimum <=? len value)%N && (len value <=? maximum)%N)
           || negb (all_bytes (λ c, is_ascii_alphanumeric c || contains c punctuation) value))
    (name +:+ " contains unsupported characters or length").

Definition bool_text (value : bool) : string := if value then "1" else "0".

Definition parse_bool (value : string) : Res bool :=
  if String.eqb value "0" then Ok false
  else if String.eqb value "1" then Ok true
  else Err "operation boolean must be exactly 0 or 1".

Definition parse_u64 (name value : string) : Res N :=
  ok_or (str_parse_u64 value) ("invalid " +:+ name).

Definition optional_string (value : string) : option string :=
  if String.eqb value "" then None else Some value.

(** [parse] stands for the [FromStr] of the type the caller wants. *)
Definition optional_parsed {T} (parse : string → option T) (name value : string)
    : Res (option T) :=
  if String.eqb value "" then Ok None
  else t ← ok_or (parse value) ("invalid " +:+ name); Ok (Some t).

Definition parse_optional_enum {T} (value : string) (parse : string → option T) (name : string)
    : Res (option T) :=
  if String.eqb value "" then Ok None
  else t ← ok_or (parse value) ("unsupported " +:+ name); Ok (Some t).

(** [if let Some(value) = ... { check(value)?; }] *)
Definition check_some {A} (o : option A) (check : A → Res unit) : Res unit :=
  match o with Some a => check a | None => Ok tt end.

(** ** Lemmas *)

(** What survives the trip: UTF-8 without NUL and carriage return. *)
Definition clean (s : string) : bool :=
  utf8_valid s && negb (contains (chr 0) s || contains cr s).

Definition nibble_ok (n : N) : bool :=
  match hex_value (hex_digit n) with Ok m => (m =? n)%N | Err _ => false end.

Lemma nibble_table : forallb nibble_ok (N.of_nat <$> seq 0 16) = true.
Proof. by vm_compute. Qed.

Lemma hex_value_digit n : (n < 16)%N → hex_value (hex_digit n) = Ok n.
Proof.
  intros Hn. assert (H : nibble_ok n = true).
  { eapply forallb_forall; [apply nibble_table |].
    apply list_elem_of_In, list_elem_of_fmap. exists (N.to_nat n).
    split; [by rewrite N2Nat.id | apply elem_of_seq; lia]. }
  unfold nibble_ok in H. destruct (hex_value _); [| done]. by apply N.eqb_eq in H as ->.
Qed.

Lemma byte_lt c : (byte c < 256)%N.
Proof. unfold byte. apply N_ascii_bounded. Qed.

Lemma chr_byte c : chr (byte c) = c.
Proof. apply ascii_N_embedding. Qed.

Lemma nibbles n : N.lor (N.shiftl (N.shiftr n 4) 4) (N.land n 15) = n.
Proof.
  apply N.bits_inj. intros i. rewrite N.lor_spec, N.land_spec.
  change 15%N with (N.ones 4). destruct (N.lt_ge_cases i 4).
  - rewrite N.shiftl_spec_low by done. rewrite N.ones_spec_low by done. by rewrite andb_true_r.
  - rewrite N.shiftl_spec_high' by done. rewrite N.shiftr_spec'.
    rewrite N.ones_spec_high by done. rewrite andb_false_r, orb_false_r. f_equal. lia.
Qed.

Lemma shiftr_nibble n : (n < 256)%N → (N.shiftr n 4 < 16)%N.
Proof. intros H. rewrite N.shiftr_div_pow2. apply N.Div0.div_lt_upper_bound. simpl. lia. Qed.

Lemma land_nibble n : (N.land n 15 < 16)%N.
Proof.
  change 15%N with (N.ones 4). rewrite N.land_ones.
  pose proof (N.mod_lt n (2 ^ 4)). simpl in *. lia.
Qed.

Lemma percent_not_unreserved : unreserved "%" = false.
Proof. done. Qed.

Lemma percent_bytes_encode s : percent_bytes (percent_encode s) = Ok s.
Proof.
  induction s as [|c s IH]; [done |]. cbn [percent_encode].
  destruct (unreserved c) eqn:Hc; cbn [percent_bytes].
  - destruct (Ascii.eqb_spec c "%"); [by subst |]. by rewrite Hc, IH.
  - pose proof (byte_lt c). rewrite Ascii.eqb_refl.
    rewrite (hex_value_digit (N.shiftr (byte c) 4)) by (by apply shiftr_nibble).
    rewrite (hex_value_digit (N.land (byte c) 15)) by apply land_nibble.
    rewrite IH. cbn. by rewrite nibbles, chr_byte.
Qed.

Lemma percent_decode_encode s : clean s = true → percent_decode (percent_encode s) = Ok s.
Proof.
  unfold clean, percent_decode. rewrite percent_bytes_encode. cbn.
  by intros [-> ->%negb_true_iff]%andb_true_iff.
Qed.

Definition wire_byte (c : ascii) : bool := unreserved c || Ascii.eqb c "%".

Lemma hex_digit_unreserved n : (n < 16)%N → unreserved (hex_digit n) = true.
Proof.
  intros Hn. assert (H : forallb (λ n, unreserved (hex_digit n)) (N.of_nat <$> seq 0 16) = true)
    by by vm_compute.
  eapply forallb_forall in H; [exact H |].
  apply list_elem_of_In, list_elem_of_fmap. exists (N.to_nat n).
  split; [by rewrite N2Nat.id | apply elem_of_seq; lia].
Qed.

Lemma percent_encode_wire s : all_bytes wire_byte (percent_encode s) = true.
Proof.
  induction s as [|c s IH]; [done |]. cbn [percent_encode]. unfold wire_byte in *.
  destruct (unreserved c) eqn:Hc; cbn [all_bytes]; rewrite IH.
  - by rewrite Hc.
  - pose proof (byte_lt c).
    by rewrite !hex_digit_unreserved by (by apply shiftr_nibble || apply land_nibble).
Qed.

Lemma percent_encode_contains c s : wire_byte c = false → contains c (percent_encode s) = false.
Proof. intros H. eapply contains_class; [apply percent_encode_wire | done]. Qed.

Lemma percent_encode_len s : (len (percent_encode s) ≤ 3 * len s)%N.
Proof.
  unfold len. induction s as [|c s IH]; [done |]. cbn [percent_encode].
  destruct (unreserved c); cbn [String.length]; lia.
Qed.

(** A key of the record format: it has no separator in it. *)
Definition key_ok (k : string) : bool := all_bytes (λ c, unreserved c) k.

Definition wire_line (f : string * string) : string := f.1 +:+ String "=" (percent_encode f.2).

Lemma encode_line_text f rest : encode_line f rest = wire_line f +:+ String nl rest.
Proof. unfold encode_line, wire_line. by rewrite append_assoc. Qed.

Lemma wire_line_contains f c :
  key_ok f.1 = true → wire_byte c = false → Ascii.eqb c "=" = false →
  contains c (wire_line f) = false.
Proof.
  intros Hk Hc He. unfold wire_line. rewrite contains_append, contains_cons, He.
  rewrite percent_encode_contains by done.
  unfold wire_byte in Hc. apply orb_false_iff in Hc as [Hc _].
  by rewrite (contains_class unreserved c f.1).
Qed.

Definition keys_ok (fields : list (string * string)) : bool := forallb (λ f, key_ok f.1) fields.
Definition values_clean (fields : list (string * string)) : bool := forallb (λ f, clean f.2) fields.

Lemma lines_wire fields :
  keys_ok fields = true → lines (foldr encode_line (str1 nl) fields) = ((wire_line <$> fields) ++ [""])%list.
Proof.
  induction fields as [|f fields IH]; [done |]. cbn [keys_ok forallb foldr fmap list_fmap].
  intros [Hf Hfs]%andb_true_iff. rewrite encode_line_text.
  rewrite lines_append by (by apply wire_line_contains). by rewrite IH.
Qed.

Lemma fields_contains_cr fields :
  keys_ok fields = true → contains cr (foldr encode_line (str1 nl) fields) = false.
Proof.
  induction fields as [|f fields IH]; [done |]. cbn [keys_ok forallb foldr].
  intros [Hf Hfs]%andb_true_iff. rewrite encode_line_text, contains_append, contains_cons, IH by done.
  by rewrite wire_line_contains.
Qed.

Lemma ends_with_refl s : ends_with s s = true.
Proof. destruct s; [done |]. unfold ends_with. by rewrite String.eqb_refl. Qed.

Lemma ends_with_append suffix a b : ends_with suffix b = true → ends_with suffix (a +:+ b) = true.
Proof.
  intros H. induction a as [|c a IH]; [done |]. cbn [String.append ends_with].
  by rewrite IH, orb_true_r.
Qed.

Lemma record_text_ends header fields :
  ends_with (String nl (str1 nl)) (record_text header fields) = true.
Proof.
  unfold record_text. apply ends_with_append.
  induction fields as [|f fields IH]; [done |]. cbn [foldr]. rewrite encode_line_text.
  change (String nl (wire_line f +:+ ?r)) with ((String nl (wire_line f)) +:+ r).
  by apply ends_with_append.
Qed.

(** A record that was written is opened on exactly its field lines. *)
Lemma reader_new_encode header fields out :
  contains nl header = false → contains cr header = false → keys_ok fields = true →
  encode_record header fields = Ok out →
  RecordReader.new out header = Ok ((wire_line <$> fields) ++ [""])%list.
Proof.
  intros Hnl Hcr Hk H. unfold encode_record in H. cbv zeta in H. unbind. subst out.
  assert (Hc : contains cr (record_text header fields) = false).
  { unfold record_text. by rewrite contains_append, contains_cons, Hcr, fields_contains_cr. }
  unfold RecordReader.new. rewrite Ha, Hc, record_text_ends. unfold record_text.
  cbn [fail_if mbind result_bind negb orb].
  rewrite lines_append, lines_wire by done. by rewrite String.eqb_refl.
Qed.

Lemma reader_field k v rest :
  key_ok k = true → clean v = true →
  RecordReader.field k (wire_line (k, v) :: rest) = (Ok v, rest).
Proof.
  intros Hk Hv. unfold RecordReader.field, wire_line. cbn [fst snd].
  rewrite split_once_append by (by eapply contains_class).
  rewrite String.eqb_refl. cbn. by rewrite percent_decode_encode.
Qed.

Lemma clean_printable s : all_bytes printable s = true → clean s = true.
Proof.
  intros H. unfold clean. rewrite utf8_ascii.
  - by rewrite !(contains_class printable).
  - eapply all_bytes_impl; [| exact H]. intros c. unfold printable.
    rewrite andb_true_iff, !N.ltb_lt. lia.
Qed.

Lemma alphanumeric_printable c : is_ascii_alphanumeric c = true → printable c = true.
Proof. intros H. apply identifier_printable. by rewrite H. Qed.

Lemma contains_printable c s : all_bytes printable s = true → contains c s = true → printable c = true.
Proof.
  induction s as [|a s IH]; [done |]. rewrite contains_cons. cbn [all_bytes].
  intros [Ha Hs]%andb_true_iff [->%Ascii.eqb_eq | H]%orb_true_iff; auto.
Qed.

(** *** What the validators establish *)

(** A field value: printable and at most [m] bytes long. *)
Definition val_ok (m : N) (v : string) : Prop := all_bytes printable v = true ∧ (len v ≤ m)%N.

Lemma lower_hex_ok name s n u m :
  require_lower_hex name s n = Ok u → (n ≤ m)%N → val_ok m s.
Proof.
  intros H%fail_if_ok_inv Hm. reflect_bools. split; [| lia].
  by eapply all_bytes_impl; [apply hex_printable |].
Qed.

Lemma safe_identifier_ok name s lo hi p u m :
  require_safe_identifier name s lo hi p = Ok u → all_bytes printable p = true → (hi ≤ m)%N →
  val_ok m s ∧ (lo ≤ len s)%N.
Proof.
  intros H%fail_if_ok_inv Hp Hm. reflect_bools. split; [split; [| lia] | done].
  eapply all_bytes_impl; [| eassumption].
  intros c [Hc | Hc]%orb_true_iff; [by apply alphanumeric_printable | by eapply contains_printable].
Qed.

Lemma len_nonempty s : (1 ≤ len s)%N → s ≠ "".
Proof. intros H ->. unfold len in H. simpl in H. lia. Qed.

(** *** The length of a record *)

Fixpoint wire_len (fields : list (string * string)) : N :=
  match fields with
  | [] => 0
  | f :: fields => len f.1 + len (percent_encode f.2) + 2 + wire_len fields
  end.

Lemma record_text_len header fields :
  len (record_text header fields) = (len header + wire_len fields + 2)%N.
Proof.
  unfold record_text. rewrite len_append.
  assert (Hc : ∀ c s, len (String c s) = (1 + len s)%N) by (intros; unfold len; cbn; lia).
  rewrite Hc.
  assert (H : len (foldr encode_line (str1 nl) fields) = (wire_len fields + 1)%N); [| lia].
  induction fields as [|f fields IH]; [done |]. cbn [foldr wire_len]. unfold encode_line at 1.
  rewrite !len_append, Hc, len_append, Hc, IH. lia.
Qed.

Lemma wire_len_app a b : wire_len (a ++ b)%list = (wire_len a + wire_len b)%N.
Proof. induction a as [|f a IH]; [done |]. cbn [app wire_len]. rewrite IH. lia. Qed.

(** [good c fields]: the fields can be written, at most [c] bytes. *)
Definition good (c : N) (fields : list (string * string)) : Prop :=
  keys_ok fields = true ∧ values_clean fields = true ∧ (wire_len fields ≤ c)%N.

Fixpoint bound (keys : list string) (ms : list N) : N :=
  match keys, ms with
  | k :: keys, m :: ms => len k + 3 * m + 2 + bound keys ms
  | _, _ => 0
  end.

Lemma good_part ms c fields :
  keys_ok fields = true → Forall2 val_ok ms fields.*2 → (bound fields.*1 ms <=? c)%N = true →
  good c fields.
Proof.
  intros Hk Hv Hc%N.leb_le. split_and!; [done | |].
  - clear -Hv. revert ms Hv. induction fields as [|f fields IH]; intros ms Hv; [done |].
    apply Forall2_cons_inv_r in Hv as (m & ms' & [Hp _] & Hv & ->).
    unfold values_clean in *. cbn [forallb].
    by rewrite (clean_printable _ Hp), (IH ms').
  - etransitivity; [clear Hc Hk | exact Hc]. revert ms Hv.
    induction fields as [|f fields IH]; intros ms Hv; [cbn; lia |].
    apply Forall2_cons_inv_r in Hv as (m & ms' & [_ Hl] & Hv & ->).
    cbn [fmap list_fmap bound wire_len]. specialize (IH _ Hv).
    pose proof (percent_encode_len f.2). lia.
Qed.

Lemma good_app c d a b : good c a → good d b → good (c + d) (a ++ b)%list.
Proof.
  intros (Ka & Va & La) (Kb & Vb & Lb). unfold good, keys_ok, values_clean in *.
  rewrite !forallb_app, Ka, Kb, Va, Vb, wire_len_app. split_and!; [done | done | lia].
Qed.

Lemma good_nil c : good c [].
Proof. split_and!; [done | done | apply N.le_0_l]. Qed.

Lemma good_weaken c d a : good c a → (c ≤ d)%N → good d a.
Proof. intros (? & ? & ?) ?. split_and!; [done | done | lia]. Qed.

(** Printed numbers of at most [k] digits. *)
Lemma pretty_go_len k x s :
  (x < 10 ^ k)%N → (len (pretty.pretty_N_go x s) ≤ k + len s)%N.
Proof.
  revert x s. induction k as [|k IH] using N.peano_ind; intros x s Hx.
  - replace x with 0%N by (change (10 ^ 0)%N with 1%N in Hx; lia).
    rewrite pretty.pretty_N_go_0. lia.
  - destruct (N.eq_dec x 0) as [-> | H0]; [rewrite pretty.pretty_N_go_0; lia |].
    rewrite pretty.pretty_N_go_step by lia.
    etransitivity; [apply IH |].
    + apply N.Div0.div_lt_upper_bound. by rewrite N.pow_succ_r' in Hx.
    + unfold len. cbn [String.length]. lia.
Qed.

Lemma show_val_ok n : is_u64 n → val_ok 20 (show n).
Proof.
  intros Hn. split; [eapply all_bytes_impl; [apply digit_printable | apply show_digits] |].
  destruct (N.eq_dec n 0) as [-> | H]; [by vm_compute |].
  rewrite show_pos by lia. etransitivity; [apply (pretty_go_len 20) |].
  - unfold is_u64, u64_max in Hn. change (10 ^ 20)%N with 100000000000000000000%N. lia.
  - unfold len. cbn. lia.
Qed.

Lemma bool_text_ok b : val_ok 1 (bool_text b).
Proof. by destruct b. Qed.

Lemma parse_bool_text b : parse_bool (bool_text b) = Ok b.
Proof. by destruct b. Qed.

Lemma val_ok_clean m v : val_ok m v → clean v = true.
Proof. intros [H _]. by apply clean_printable. Qed.

(** *** Reading field by field *)

Lemma reader_field_step {A} k v rest (f : string → M (list string) string A) :
  key_ok k = true → clean v = true →
  (RecordReader.field k ≫= f) (wire_line (k, v) :: rest) = f v rest.
Proof. intros Hk Hv. unfold mbind, M_bind. by rewrite reader_field. Qed.

Lemma lift_step {S E A B} (a : A) (f : A → M S E B) s : (lift (Ok a) ≫= f) s = f a s.
Proof. done. Qed.

Lemma part_step {S E A B} (m : M S E A) (f : A → M S E B) s a s' :
  m s = (Ok a, s') → (m ≫= f) s = f a s'.
Proof. intros H. unfold mbind, M_bind. by rewrite H. Qed.

Lemma percent_encode_id s : all_bytes unreserved s = true → percent_encode s = s.
Proof.
  induction s as [|c s IH]; [done |]. cbn [all_bytes percent_encode].
  intros [-> Hs]%andb_true_iff. by rewrite IH.
Qed.

Lemma show_unreserved n : all_bytes unreserved (show n) = true.
Proof.
  eapply all_bytes_impl; [| apply show_digits]. intros c Hc.
  unfold unreserved, is_ascii_alphanumeric. by rewrite Hc.
Qed.
