(* ===== verification/LineRecord.v ===== *)
(** * Records of [key=value] lines

    The plain line format of the job journal and of the Auto-Tune runtime records:
    a header line and one [key=value] line per field. The fields are written with
    one loop in every encoder; this file holds that loop and what it takes to read
    its text back. *)

From S2P Require Import Prelude RustStr SchedRecord PercentRecord.
Local Open Scope string_scope.

(** ** Writing *)

Definition kv_line (f : string * string) : string := f.1 +:+ String "=" f.2.

Definition kv_text (header : string) (fields : list (string * string)) : string :=
  header +:+ String nl (foldr (λ f rest, kv_line f +:+ String nl rest) "" fields).

(** ** Values on a line *)

Definition kv_byte (c : ascii) : bool := printable c && negb (Ascii.eqb c "=").
(** A value the format can carry: no separator byte, at most 96 bytes. *)
Definition kv_value (v : string) : Prop := all_bytes kv_byte v = true ∧ (len v ≤ 96)%N.

Lemma kv_value_class (p : ascii → bool) v :
  (∀ c, p c = true → kv_byte c = true) → all_bytes p v = true → (len v ≤ 96)%N → kv_value v.
Proof. intros Hp Hv Hl. split; [by apply (all_bytes_impl p) | done]. Qed.

Lemma alphanumeric_kv_byte c : is_ascii_alphanumeric c = true → kv_byte c = true.
Proof.
  intros Hc. unfold kv_byte. rewrite alphanumeric_printable by done.
  destruct (Ascii.eqb_spec c "=") as [-> | _]; done.
Qed.

Lemma kv_value_extra extra v :
  all_bytes kv_byte extra = true →
  all_bytes (λ c, is_ascii_alphanumeric c || contains c extra) v = true →
  (len v ≤ 96)%N → kv_value v.
Proof.
  intros He. apply kv_value_class.
  intros c [Hc | Hc]%orb_true_iff; [by apply alphanumeric_kv_byte |].
  clear -He Hc. induction extra as [| a s IH]; [done |].
  rewrite contains_cons in Hc. cbn [all_bytes] in He. apply andb_true_iff in He as [Ha Hs].
  apply orb_true_iff in Hc as [E | Hc]; [by apply Ascii.eqb_eq in E as -> | by apply IH].
Qed.

Lemma kv_value_lower_hex v : all_bytes is_lower_hex v = true → (len v ≤ 96)%N → kv_value v.
Proof.
  apply kv_value_class. intros c Hc. unfold kv_byte. rewrite hex_printable by done.
  destruct (Ascii.eqb_spec c "=") as [-> | _]; done.
Qed.

Lemma kv_value_digits v : all_bytes is_ascii_digit v = true → (len v ≤ 96)%N → kv_value v.
Proof.
  apply kv_value_class. intros c Hc. apply alphanumeric_kv_byte.
  unfold is_ascii_alphanumeric. by rewrite Hc.
Qed.

Lemma kv_value_show n : is_u64 n → kv_value (show n).
Proof.
  intros Hn. destruct (show_val_ok n Hn) as [_ Hl]. apply kv_value_digits; [apply show_digits | lia].
Qed.

Lemma kv_value_bool b : kv_value (bool_text b).
Proof. by destruct b. Qed.

Lemma kv_value_some (o : option string) (check : string → Res unit) :
  (∀ s, check s = Ok tt → kv_value s) → check_some o check = Ok tt → kv_value (default "" o).
Proof. intros H. destruct o; simpl; [apply H | done]. Qed.

Lemma kv_value_contains c v : kv_value v → kv_byte c = false → contains c v = false.
Proof. intros [H _]. by apply contains_class. Qed.

(** ** The lines of a record *)

Definition kv_ok (f : string * string) : Prop :=
  (contains "=" f.1 = false ∧ all_bytes kv_byte f.1 = true ∧ (len f.1 ≤ 23)%N) ∧ kv_value f.2.

Lemma kv_ok_intro k v :
  (negb (contains "=" k) && all_bytes kv_byte k && (len k <=? 23)%N) = true → kv_value v →
  kv_ok (k, v).
Proof. intros H Hv. reflect_bools. repeat split; try done; apply Hv. Qed.

Lemma kv_line_clean f c : kv_ok f → kv_byte c = false → Ascii.eqb c "=" = false →
  contains c (kv_line f) = false.
Proof.
  intros [(_ & Hk & _) Hv] Hc He. unfold kv_line.
  rewrite contains_append, contains_cons, He, (kv_value_contains c f.2) by done.
  by rewrite (contains_class kv_byte).
Qed.

Lemma lines_kv header fields :
  contains nl header = false → contains cr header = false → Forall kv_ok fields →
  lines (kv_text header fields) = header :: (kv_line <$> fields).
Proof.
  intros H1 H2 Hf. unfold kv_text. rewrite lines_append by done. f_equal.
  induction Hf as [| f fields Hf _ IH]; [done |].
  cbn [foldr]. rewrite lines_append by (by apply kv_line_clean). by rewrite fmap_cons, IH.
Qed.

Lemma kv_text_ends header fields : ends_with_char nl (kv_text header fields) = true.
Proof.
  assert (H : ∀ s r, r = "" ∨ ends_with_char nl r = true → ends_with_char nl (s +:+ String nl r) = true).
  { intros s r [-> | Hr]; [apply ends_with_char_append |].
    apply ends_with_char_append_r. destruct r; [done |]. exact Hr. }
  unfold kv_text. apply H.
  induction fields as [| f fields IH]; [by left | right]. cbn [foldr]. by apply H.
Qed.

Lemma kv_line_len f : len (kv_line f) = (len f.1 + 1 + len f.2)%N.
Proof.
  unfold kv_line. rewrite len_append. change (String "=" ?s) with ("=" +:+ s).
  rewrite len_append. change (len "=") with 1%N. lia.
Qed.

Lemma kv_text_len header fields :
  Forall kv_ok fields →
  (len (kv_text header fields) ≤ len header + 1 + 121 * N.of_nat (length fields))%N.
Proof.
  intros Hf. unfold kv_text. rewrite len_append.
  change (String nl ?s) with (str1 nl +:+ s). rewrite len_append. change (len (str1 nl)) with 1%N.
  enough (len (foldr (λ f rest, kv_line f +:+ String nl rest) "" fields)
          ≤ 121 * N.of_nat (length fields))%N by lia.
  induction Hf as [| f fields [(_ & _ & Hk) [_ Hv]] _ IH]; [done |].
  cbn [foldr length]. rewrite len_append. change (String nl ?s) with (str1 nl +:+ s).
  rewrite len_append, kv_line_len. change (len (str1 nl)) with 1%N. lia.
Qed.

