(* ===== verification/Vocabulary.v ===== *)
(** * The vocabulary of the operation protocol

    Models the enumerations of [operations/protocol.rs], [autotune.rs] and
    [operations/autotune_capture_policy.rs] with their wire names ([as_str],
    [parse]), and [TrafficPolicy]. The class [WireName] states what the record
    codecs rely on: a printed name is a clean non-empty text that parses back. *)

From S2P Require Import Prelude RustStr SchedRecord PercentRecord.
Local Open Scope string_scope.

(** A [match] on string patterns: the first pattern that equals the value. *)
Fixpoint match_str {A} (arms : list (string * A)) (value : string) : option A :=
  match arms with
  | [] => None
  | (pattern, a) :: arms => if String.eqb value pattern then Some a else match_str arms value
  end.

Lemma match_str_Some {A} (arms : list (string * A)) value a :
  match_str arms value = Some a → (value, a) ∈ arms.
Proof.
  induction arms as [| [p x] arms IH]; simpl; [done |].
  destruct (String.eqb_spec value p) as [-> | _].
  - intros [= ->]. left.
  - intros H. right. auto.
Qed.

Class WireName (A : Type) := {
  wire_str : A → string;
  wire_parse : string → option A;
  wire_parse_str a : wire_parse (wire_str a) = Some a;
  wire_plain a : plain (wire_str a) = true;
  wire_short a : (len (wire_str a) <=? 20)%N = true;
}.

(** ** [OperationKind]: The four jobs the coordinator can run. *)

Inductive OperationKind :=
  | FullAutotune | AutomaticRating | GuidedRating | Speedtest.

#[export] Instance OperationKind_eq_dec : EqDecision OperationKind.
Proof. solve_decision. Defined.

Definition OperationKind_as_str (value : OperationKind) : string :=
  match value with
  | FullAutotune => "full_autotune"
  | AutomaticRating => "automatic_rating"
  | GuidedRating => "guided_rating"
  | Speedtest => "speedtest"
  end.

Definition OperationKind_parse : string → option OperationKind := match_str [
  ("full_autotune", FullAutotune);
  ("automatic_rating", AutomaticRating);
  ("guided_rating", GuidedRating);
  ("speedtest", Speedtest)].

#[export, refine] Instance OperationKind_wire : WireName OperationKind :=
  {| wire_str := OperationKind_as_str; wire_parse := OperationKind_parse |}.
Proof. all: by intros []. Defined.

(** ** [OperationOrigin]: Who asked for the job. *)

Inductive OperationOrigin :=
  | Luci | Scheduler | Recovery | Internal.

#[export] Instance OperationOrigin_eq_dec : EqDecision OperationOrigin.
Proof. solve_decision. Defined.

Definition OperationOrigin_as_str (value : OperationOrigin) : string :=
  match value with
  | Luci => "luci"
  | Scheduler => "scheduler"
  | Recovery => "recovery"
  | Internal => "internal"
  end.

Definition OperationOrigin_parse : string → option OperationOrigin := match_str [
  ("luci", Luci);
  ("scheduler", Scheduler);
  ("recovery", Recovery);
  ("internal", Internal)].

#[export, refine] Instance OperationOrigin_wire : WireName OperationOrigin :=
  {| wire_str := OperationOrigin_as_str; wire_parse := OperationOrigin_parse |}.
Proof. all: by intros []. Defined.

(** ** [OperationTargetState]: Whether the target instance exists yet. *)

Inductive OperationTargetState :=
  | ExistingManaged | AbsentBootstrap.

#[export] Instance OperationTargetState_eq_dec : EqDecision OperationTargetState.
Proof. solve_decision. Defined.

Definition OperationTargetState_as_str (value : OperationTargetState) : string :=
  match value with
  | ExistingManaged => "existing_managed"
  | AbsentBootstrap => "absent_bootstrap"
  end.

Definition OperationTargetState_parse : string → option OperationTargetState := match_str [
  ("existing_managed", ExistingManaged);
  ("absent_bootstrap", AbsentBootstrap)].

#[export, refine] Instance OperationTargetState_wire : WireName OperationTargetState :=
  {| wire_str := OperationTargetState_as_str; wire_parse := OperationTargetState_parse |}.
Proof. all: by intros []. Defined.

(** ** [OperationRouteMode]: How the traffic of the job is routed. *)

Inductive OperationRouteMode :=
  | Main | Mwan3 | Explicit.

#[export] Instance OperationRouteMode_eq_dec : EqDecision OperationRouteMode.
Proof. solve_decision. Defined.

Definition OperationRouteMode_as_str (value : OperationRouteMode) : string :=
  match value with
  | Main => "main"
  | Mwan3 => "mwan3"
  | Explicit => "explicit"
  end.

Definition OperationRouteMode_parse : string → option OperationRouteMode := match_str [
  ("main", Main);
  ("mwan3", Mwan3);
  ("explicit", Explicit)].

#[export, refine] Instance OperationRouteMode_wire : WireName OperationRouteMode :=
  {| wire_str := OperationRouteMode_as_str; wire_parse := OperationRouteMode_parse |}.
Proof. all: by intros []. Defined.

(** ** [CalibrationStrategy] *)

Inductive CalibrationStrategy :=
  | ShapedOnly | FullRaw | ReuseTrusted.

#[export] Instance CalibrationStrategy_eq_dec : EqDecision CalibrationStrategy.
Proof. solve_decision. Defined.

Definition CalibrationStrategy_as_str (value : CalibrationStrategy) : string :=
  match value with
  | ShapedOnly => "shaped_only"
  | FullRaw => "full_raw"
  | ReuseTrusted => "reuse_trusted"
  end.

Definition CalibrationStrategy_parse : string → option CalibrationStrategy := match_str [
  ("shaped_only", ShapedOnly);
  ("full_raw", FullRaw);
  ("reuse_trusted", ReuseTrusted)].

#[export, refine] Instance CalibrationStrategy_wire : WireName CalibrationStrategy :=
  {| wire_str := CalibrationStrategy_as_str; wire_parse := CalibrationStrategy_parse |}.
Proof. all: by intros []. Defined.

(** ** [SpeedtestDirection] *)

Inductive SpeedtestDirection :=
  | Download | Upload | Both.

#[export] Instance SpeedtestDirection_eq_dec : EqDecision SpeedtestDirection.
Proof. solve_decision. Defined.

Definition SpeedtestDirection_as_str (value : SpeedtestDirection) : string :=
  match value with
  | Download => "download"
  | Upload => "upload"
  | Both => "both"
  end.

Definition SpeedtestDirection_parse : string → option SpeedtestDirection := match_str [
  ("download", Download);
  ("upload", Upload);
  ("both", Both)].

#[export, refine] Instance SpeedtestDirection_wire : WireName SpeedtestDirection :=
  {| wire_str := SpeedtestDirection_as_str; wire_parse := SpeedtestDirection_parse |}.
Proof. all: by intros []. Defined.

(** ** [SpeedtestTopology] *)

Inductive SpeedtestTopology :=
  | Current | Unshaped.

#[export] Instance SpeedtestTopology_eq_dec : EqDecision SpeedtestTopology.
Proof. solve_decision. Defined.

Definition SpeedtestTopology_as_str (value : SpeedtestTopology) : string :=
  match value with
  | Current => "current"
  | Unshaped => "unshaped"
  end.

Definition SpeedtestTopology_parse : string → option SpeedtestTopology := match_str [
  ("current", Current);
  ("unshaped", Unshaped)].

#[export, refine] Instance SpeedtestTopology_wire : WireName SpeedtestTopology :=
  {| wire_str := SpeedtestTopology_as_str; wire_parse := SpeedtestTopology_parse |}.
Proof. all: by intros []. Defined.

(** ** [OperationState]: The life cycle of a job; its transitions are in [JobJournal.v]. *)

Inductive OperationState :=
  | Queued | Starting | Running | Cancelling | Recovering
  | ReviewReady | Completed | Failed | Cancelled.

#[export] Instance OperationState_eq_dec : EqDecision OperationState.
Proof. solve_decision. Defined.

Definition OperationState_as_str (value : OperationState) : string :=
  match value with
  | Queued => "queued"
  | Starting => "starting"
  | Running => "running"
  | Cancelling => "cancelling"
  | Recovering => "recovering"
  | ReviewReady => "review_ready"
  | Completed => "completed"
  | Failed => "failed"
  | Cancelled => "cancelled"
  end.

Definition OperationState_parse : string → option OperationState := match_str [
  ("queued", Queued);
  ("starting", Starting);
  ("running", Running);
  ("cancelling", Cancelling);
  ("recovering", Recovering);
  ("review_ready", ReviewReady);
  ("completed", Completed);
  ("failed", Failed);
  ("cancelled", Cancelled)].

#[export, refine] Instance OperationState_wire : WireName OperationState :=
  {| wire_str := OperationState_as_str; wire_parse := OperationState_parse |}.
Proof. all: by intros []. Defined.

(** ** [ControlCommand] *)

Inductive ControlCommand :=
  | Ping | Summary | Start | Status | Result
  | Cancel.

#[export] Instance ControlCommand_eq_dec : EqDecision ControlCommand.
Proof. solve_decision. Defined.

Definition ControlCommand_as_str (value : ControlCommand) : string :=
  match value with
  | Ping => "ping"
  | Summary => "summary"
  | Start => "start"
  | Status => "status"
  | Result => "result"
  | Cancel => "cancel"
  end.

Definition ControlCommand_parse : string → option ControlCommand := match_str [
  ("ping", Ping);
  ("summary", Summary);
  ("start", Start);
  ("status", Status);
  ("result", Result);
  ("cancel", Cancel)].

#[export, refine] Instance ControlCommand_wire : WireName ControlCommand :=
  {| wire_str := ControlCommand_as_str; wire_parse := ControlCommand_parse |}.
Proof. all: by intros []. Defined.

(** ** [AutotuneProfile] *)

Inductive AutotuneProfile :=
  | Gaming | GamingExtreme | BestOverall | VariableLink | Fair.

#[export] Instance AutotuneProfile_eq_dec : EqDecision AutotuneProfile.
Proof. solve_decision. Defined.

Definition AutotuneProfile_as_str (value : AutotuneProfile) : string :=
  match value with
  | Gaming => "gaming"
  | GamingExtreme => "gaming_extreme"
  | BestOverall => "best_overall"
  | VariableLink => "variable_link"
  | Fair => "fair"
  end.

Definition AutotuneProfile_parse : string → option AutotuneProfile := match_str [
  ("gaming", Gaming);
  ("gaming_extreme", GamingExtreme);
  ("gaming-extreme", GamingExtreme);
  ("extreme_gaming", GamingExtreme);
  ("best_overall", BestOverall);
  ("best-overall", BestOverall);
  ("balanced", BestOverall);
  ("variable_link", VariableLink);
  ("variable-link", VariableLink);
  ("variable", VariableLink);
  ("fair", Fair)].

#[export, refine] Instance AutotuneProfile_wire : WireName AutotuneProfile :=
  {| wire_str := AutotuneProfile_as_str; wire_parse := AutotuneProfile_parse |}.
Proof. all: by intros []. Defined.

(** ** [AccessMedium] *)

Inductive AccessMedium :=
  | Cellular | LeoSatellite | GeoSatellite | FixedWireless | SharedWired
  | Unknown.

#[export] Instance AccessMedium_eq_dec : EqDecision AccessMedium.
Proof. solve_decision. Defined.

Definition AccessMedium_as_str (value : AccessMedium) : string :=
  match value with
  | Cellular => "cellular"
  | LeoSatellite => "leo_satellite"
  | GeoSatellite => "geo_satellite"
  | FixedWireless => "fixed_wireless"
  | SharedWired => "shared_wired"
  | Unknown => "unknown"
  end.

Definition AccessMedium_parse : string → option AccessMedium := match_str [
  ("cellular", Cellular);
  ("4g", Cellular);
  ("5g", Cellular);
  ("leo_satellite", LeoSatellite);
  ("leo-satellite", LeoSatellite);
  ("leo", LeoSatellite);
  ("geo_satellite", GeoSatellite);
  ("geo-satellite", GeoSatellite);
  ("geo", GeoSatellite);
  ("high_latency_satellite", GeoSatellite);
  ("fixed_wireless", FixedWireless);
  ("fixed-wireless", FixedWireless);
  ("wisp", FixedWireless);
  ("wifi_bridge", FixedWireless);
  ("shared_wired", SharedWired);
  ("shared-wired", SharedWired);
  ("shared", SharedWired);
  ("unknown", Unknown)].

#[export, refine] Instance AccessMedium_wire : WireName AccessMedium :=
  {| wire_str := AccessMedium_as_str; wire_parse := AccessMedium_parse |}.
Proof. all: by intros []. Defined.

(** ** [AccessEvidenceSource] *)

Inductive AccessEvidenceSource :=
  | UserSelected | NetworkProtocol | DeviceType | InterfaceName | AutoInconclusive
  | LegacyDefault.

#[export] Instance AccessEvidenceSource_eq_dec : EqDecision AccessEvidenceSource.
Proof. solve_decision. Defined.

Definition AccessEvidenceSource_as_str (value : AccessEvidenceSource) : string :=
  match value with
  | UserSelected => "user_selected"
  | NetworkProtocol => "network_protocol"
  | DeviceType => "device_type"
  | InterfaceName => "interface_name"
  | AutoInconclusive => "auto_inconclusive"
  | LegacyDefault => "legacy_default"
  end.

Definition AccessEvidenceSource_parse : string → option AccessEvidenceSource := match_str [
  ("user_selected", UserSelected);
  ("network_protocol", NetworkProtocol);
  ("device_type", DeviceType);
  ("interface_name", InterfaceName);
  ("auto_inconclusive", AutoInconclusive);
  ("legacy_default", LegacyDefault)].

#[export, refine] Instance AccessEvidenceSource_wire : WireName AccessEvidenceSource :=
  {| wire_str := AccessEvidenceSource_as_str; wire_parse := AccessEvidenceSource_parse |}.
Proof. all: by intros []. Defined.

(** ** [CapacityLearningPolicy] *)

Inductive CapacityLearningPolicy :=
  | VerifiedOnly | PassiveBounded | ScheduledActive | FixedCap.

#[export] Instance CapacityLearningPolicy_eq_dec : EqDecision CapacityLearningPolicy.
Proof. solve_decision. Defined.

Definition CapacityLearningPolicy_as_str (value : CapacityLearningPolicy) : string :=
  match value with
  | VerifiedOnly => "verified_only"
  | PassiveBounded => "passive_bounded"
  | ScheduledActive => "scheduled_active"
  | FixedCap => "fixed_cap"
  end.

Definition CapacityLearningPolicy_parse : string → option CapacityLearningPolicy := match_str [
  ("verified_only", VerifiedOnly);
  ("verified-only", VerifiedOnly);
  ("passive_bounded", PassiveBounded);
  ("passive-bounded", PassiveBounded);
  ("passive", PassiveBounded);
  ("scheduled_active", ScheduledActive);
  ("scheduled-active", ScheduledActive);
  ("periodic_active", ScheduledActive);
  ("fixed_cap", FixedCap);
  ("fixed-cap", FixedCap);
  ("fixed", FixedCap)].

#[export, refine] Instance CapacityLearningPolicy_wire : WireName CapacityLearningPolicy :=
  {| wire_str := CapacityLearningPolicy_as_str; wire_parse := CapacityLearningPolicy_parse |}.
Proof. all: by intros []. Defined.

(** ** [AutotuneCapturePolicyId] *)

Inductive AutotuneCapturePolicyId :=
  | StandardV1 | StandardV2.

#[export] Instance AutotuneCapturePolicyId_eq_dec : EqDecision AutotuneCapturePolicyId.
Proof. solve_decision. Defined.

Definition AutotuneCapturePolicyId_as_str (value : AutotuneCapturePolicyId) : string :=
  match value with
  | StandardV1 => "standard_v1"
  | StandardV2 => "standard_v2"
  end.

Definition AutotuneCapturePolicyId_parse : string → option AutotuneCapturePolicyId := match_str [
  ("standard_v1", StandardV1);
  ("standard_v2", StandardV2)].

#[export, refine] Instance AutotuneCapturePolicyId_wire : WireName AutotuneCapturePolicyId :=
  {| wire_str := AutotuneCapturePolicyId_as_str; wire_parse := AutotuneCapturePolicyId_parse |}.
Proof. all: by intros []. Defined.

(** ** Predicates on the enumerations *)

Definition requires_job (c : ControlCommand) : bool :=
  match c with Start | Status | Result | Cancel => true | Ping | Summary => false end.

(** ** [TrafficPolicy]: the byte budget of a job *)

Definition MAX_TRAFFIC_BUDGET_BYTES : N := N.shiftl 1 40.

Inductive TrafficPolicy := Capped (max_bytes : N) | Unlimited.

#[export] Instance TrafficPolicy_eq_dec : EqDecision TrafficPolicy.
Proof. solve_decision. Defined.

Definition limit_bytes (p : TrafficPolicy) : option N :=
  match p with Capped max_bytes => Some max_bytes | Unlimited => None end.

Definition traffic_validate (p : TrafficPolicy) : Res unit :=
  fail_if (is_some_and (λ limit, (MAX_TRAFFIC_BUDGET_BYTES <? limit)%N) (limit_bytes p))
    ("traffic budget must not exceed " +:+ show MAX_TRAFFIC_BUDGET_BYTES +:+ " bytes").

Definition traffic_is_empty (p : TrafficPolicy) : bool :=
  match p with Capped max_bytes => (max_bytes =? 0)%N | Unlimited => false end.

Definition allows (p : TrafficPolicy) (required_bytes : N) : bool :=
  match p with Capped max_bytes => (required_bytes <=? max_bytes)%N | Unlimited => true end.

Definition exceeded (p : TrafficPolicy) (consumed_bytes : N) : bool :=
  match p with Capped max_bytes => (max_bytes <? consumed_bytes)%N | Unlimited => false end.

Definition permits (p narrowed : TrafficPolicy) : bool :=
  match limit_bytes narrowed with
  | Some limit => allows p limit
  | None => bool_decide (p = Unlimited)
  end.

Definition traffic_checked_sub (p : TrafficPolicy) (bytes : N) : option TrafficPolicy :=
  match p with
  | Capped max_bytes => Capped <$> u64_checked_sub max_bytes bytes
  | Unlimited => Some Unlimited
  end.

Definition json_limit (p : TrafficPolicy) : string :=
  match limit_bytes p with Some value => show value | None => "null" end.

