(* ===== verification/RustNet.v ===== *)
(** * The network address texts of the Rust standard library

    [Ipv4Addr] and [IpAddr] with their [Display] and [FromStr], as
    [std::net] defines them. The operation protocol and the route authority
    print addresses and read them back; this file proves that every address
    survives the trip, the compressed IPv6 forms included. *)

From S2P Require Import Prelude RustStr SchedRecord PercentRecord.
Local Open Scope string_scope.

Record Ipv4Addr := Ipv4 { oct_a : N; oct_b : N; oct_c : N; oct_d : N }.

(** An IPv6 address is the list of its eight 16-bit segments. *)
Inductive IpAddr := V4 (a : Ipv4Addr) | V6 (segments : list N).

#[export] Instance Ipv4Addr_eq_dec : EqDecision Ipv4Addr.
Proof. solve_decision. Defined.
#[export] Instance IpAddr_eq_dec : EqDecision IpAddr.
Proof. solve_decision. Defined.

Definition is_loopback (a : Ipv4Addr) : bool := (a.(oct_a) =? 127)%N.
Definition is_link_local (a : Ipv4Addr) : bool := (a.(oct_a) =? 169)%N && (a.(oct_b) =? 254)%N.

(** ** Printing *)

Definition show_ipv4 (a : Ipv4Addr) : string :=
  show a.(oct_a) +:+ String "." (show a.(oct_b) +:+ String "."
    (show a.(oct_c) +:+ String "." (show a.(oct_d)))).

Definition lower_hex (n : N) : ascii := default zero (String.get (N.to_nat n) "0123456789abcdef").

(** [format!("{:x}")] of a [u16]: no leading zeros. *)
Definition show_hex (n : N) : string :=
  let d k := lower_hex (N.land (N.shiftr n k) 15) in
  if (n <? 16)%N then str1 (d 0%N)
  else if (n <? 256)%N then String (d 4%N) (str1 (d 0%N))
  else if (n <? 4096)%N then String (d 8%N) (String (d 4%N) (str1 (d 0%N)))
  else String (d 12%N) (String (d 8%N) (String (d 4%N) (str1 (d 0%N)))).

(** Segments separated by colons. *)
Fixpoint show_segments (gs : list N) : string :=
  match gs with
  | [] => ""
  | [g] => show_hex g
  | g :: gs => show_hex g +:+ String ":" (show_segments gs)
  end.

(** The first longest run of zero segments, as (start, length). *)
Fixpoint zero_run (i : nat) (current longest : nat * nat) (gs : list N) : nat * nat :=
  match gs with
  | [] => longest
  | g :: gs =>
      if (g =? 0)%N then
        let current := (if Nat.eqb current.2 0 then i else current.1, S current.2) in
        zero_run (S i) current (if Nat.ltb longest.2 current.2 then current else longest) gs
      else zero_run (S i) (0, 0) longest gs
  end.

(** [to_ipv4_mapped] *)
Definition ipv4_mapped (gs : list N) : option Ipv4Addr :=
  match gs with
  | [0; 0; 0; 0; 0; 65535; ab; cd]%N =>
      Some (Ipv4 (N.shiftr ab 8) (N.land ab 255) (N.shiftr cd 8) (N.land cd 255))
  | _ => None
  end.

Definition show_ipv6 (gs : list N) : string :=
  match ipv4_mapped gs with
  | Some a => "::ffff:" +:+ show_ipv4 a
  | None =>
      let '(start, n) := zero_run 0 (0, 0) (0, 0) gs in
      if Nat.ltb 1 n then
        show_segments (take start gs) +:+ "::" +:+ show_segments (drop (start + n) gs)
      else show_segments gs
  end.

Definition show_ip (a : IpAddr) : string :=
  match a with V4 a => show_ipv4 a | V6 gs => show_ipv6 gs end.

(** ** Parsing: a parser restores its input when it fails *)

Definition to_digit (radix : N) (c : ascii) : option N :=
  let v := if is_ascii_digit c then Some (byte c - 48)%N
           else if is_ascii_lowercase c then Some (byte c - 97 + 10)%N
           else if is_ascii_uppercase c then Some (byte c - 65 + 10)%N
           else None in
  v ≫= λ n, if (n <? radix)%N then Some n else None.

Fixpoint read_digits (radix acc : N) (count : nat) (s : string) : N * nat * string :=
  match s with
  | "" => (acc, count, "")
  | String c rest =>
      match to_digit radix c with
      | Some d => read_digits radix (acc * radix + d)%N (S count) rest
      | None => (acc, count, s)
      end
  end.

Definition read_number (radix : N) (max_digits : nat) (allow_zero_prefix : bool) (max : N)
    (s : string) : option (N * string) :=
  let '(n, count, rest) := read_digits radix 0 0 s in
  if Nat.ltb max_digits count || Nat.eqb count 0
     || (negb allow_zero_prefix && starts_with "0" s && Nat.ltb 1 count)
     || (max <? n)%N
  then None else Some (n, rest).

Definition read_given_char (c : ascii) (s : string) : option string :=
  match s with String a s => if Ascii.eqb a c then Some s else None | "" => None end.

(** [read_separator]: no separator before the first group. *)
Definition read_separator {A} (sep : ascii) (first : bool) (inner : string → option A)
    (s : string) : option A :=
  if first then inner s else read_given_char sep s ≫= inner.

Definition read_octet (first : bool) : string → option (N * string) :=
  read_separator "." first (read_number 10 3 false 255).

Definition read_ipv4 (s : string) : option (Ipv4Addr * string) :=
  '(a, s) ← read_octet true s;
  '(b, s) ← read_octet false s;
  '(c, s) ← read_octet false s;
  '(d, s) ← read_octet false s;
  mret (Ipv4 a b c d, s).

(** [read_groups]: the groups read, whether they end in an IPv4 address. *)
Fixpoint read_groups (limit : nat) (first : bool) (s : string) : list N * bool * string :=
  match limit with
  | O => ([], false, s)
  | S limit =>
      match (if Nat.eqb limit 0 then None else read_separator ":" first read_ipv4 s) with
      | Some (a, rest) =>
          ([a.(oct_a) * 256 + a.(oct_b); a.(oct_c) * 256 + a.(oct_d)]%N, true, rest)
      | None =>
          match read_separator ":" first (read_number 16 4 true 65535) s with
          | Some (g, rest) => let '(gs, v4, rest) := read_groups limit false rest in
                              (g :: gs, v4, rest)
          | None => ([], false, s)
          end
      end
  end.

Definition read_ipv6 (s : string) : option (list N * string) :=
  let '(head, head_v4, rest) := read_groups 8 true s in
  if Nat.eqb (length head) 8 then Some (head, rest)
  else if head_v4 then None
  else
    rest ← read_given_char ":" rest;
    rest ← read_given_char ":" rest;
    let '(tail, _, rest) := read_groups (8 - (length head + 1)) true rest in
    Some ((head ++ replicate (8 - length head - length tail) 0%N ++ tail)%list, rest).

(** [parse_with]: nothing may be left over. *)
Definition parse_all {A} (p : option (A * string)) : option A :=
  '(a, rest) ← p; if String.eqb rest "" then Some a else None.

Definition parse_ipv4 (s : string) : option Ipv4Addr :=
  if (15 <? len s)%N then None else parse_all (read_ipv4 s).

Definition parse_ip (s : string) : option IpAddr :=
  parse_all match read_ipv4 s with
            | Some (a, rest) => Some (V4 a, rest)
            | None => '(gs, rest) ← read_ipv6 s; Some (V6 gs, rest)
            end.

(** ** Well-formed addresses *)

Definition ipv4_ok (a : Ipv4Addr) : Prop :=
  (a.(oct_a) < 256 ∧ a.(oct_b) < 256 ∧ a.(oct_c) < 256 ∧ a.(oct_d) < 256)%N.
Definition ipv6_ok (gs : list N) : Prop := length gs = 8 ∧ Forall (λ g, g < 65536)%N gs.
Definition ip_ok (a : IpAddr) : Prop :=
  match a with V4 a => ipv4_ok a | V6 gs => ipv6_ok gs end.

(** ** Lemmas: reading one number *)

Definition stops (radix : N) (s : string) : Prop :=
  match s with "" => True | String c _ => to_digit radix c = None end.

Lemma read_digits_append radix acc n s rest a c :
  read_digits radix acc n s = (a, c, "") → stops radix rest →
  read_digits radix acc n (s +:+ rest) = (a, c, rest).
Proof.
  revert acc n. induction s as [|x s IH]; intros acc n; cbn [read_digits String.append].
  - intros [= <- <-] Hr. destruct rest as [|y rest]; [done |]. cbn in Hr |- *. by rewrite Hr.
  - destruct (to_digit radix x); [apply IH | done].
Qed.

Lemma read_number_append radix k z max s rest n :
  read_number radix k z max s = Some (n, "") → stops radix rest →
  read_number radix k z max (s +:+ rest) = Some (n, rest).
Proof.
  unfold read_number. destruct (read_digits radix 0 0 s) as [[a c] r] eqn:E. intros H Hr.
  destruct (_ || _ || _ || _) eqn:Hb; [done |]. injection H as -> ->.
  rewrite (read_digits_append _ _ _ _ rest _ _ E Hr).
  replace (starts_with "0" (s +:+ rest)) with (starts_with "0" s); [by rewrite Hb |].
  destruct s as [|x s]; [| done]. cbn in E. injection E as <- <-.
  by rewrite !orb_true_r in Hb.
Qed.

Definition octet_ok (a : N) : bool :=
  bool_decide (read_number 10 3 false 255 (show a) = Some (a, "")).

Lemma below_table (p : N → bool) (m : nat) (n : N) :
  forallb p (N.of_nat <$> seq 0 m) = true → (n < N.of_nat m)%N → p n = true.
Proof.
  intros H Hn. eapply forallb_forall in H; [exact H |].
  apply list_elem_of_In, list_elem_of_fmap. exists (N.to_nat n).
  split; [by rewrite N2Nat.id | apply elem_of_seq; lia].
Qed.

Lemma octet_table : forallb octet_ok (N.of_nat <$> seq 0 256) = true.
Proof. by vm_compute. Qed.

Lemma read_number_octet a rest :
  (a < 256)%N → stops 10 rest →
  read_number 10 3 false 255 (show a +:+ rest) = Some (a, rest).
Proof.
  intros Ha Hr. apply read_number_append; [| done].
  eapply bool_decide_eq_true, (below_table octet_ok 256); [apply octet_table | exact Ha].
Qed.

Lemma read_ipv4_show a rest :
  ipv4_ok a → stops 10 rest → read_ipv4 (show_ipv4 a +:+ rest) = Some (a, rest).
Proof.
  intros (Ha & Hb & Hc & Hd) Hr. unfold read_ipv4, show_ipv4, read_octet, read_separator.
  assert (S : ∀ s, stops 10 (String "." s)) by done.
  rewrite append_assoc. cbn [String.append].
  rewrite read_number_octet by done. cbn [mbind option_bind read_given_char].
  rewrite Ascii.eqb_refl, append_assoc. cbn [mbind option_bind String.append].
  rewrite read_number_octet by done. cbn [mbind option_bind read_given_char].
  rewrite Ascii.eqb_refl, append_assoc. cbn [mbind option_bind String.append].
  rewrite read_number_octet by done. cbn [mbind option_bind read_given_char].
  rewrite Ascii.eqb_refl. cbn [mbind option_bind].
  rewrite read_number_octet by done. by destruct a.
Qed.

Lemma show_len_octet a : (a < 256)%N → (len (show a) <=? 3)%N = true.
Proof. intros H. eapply (below_table (λ a, len (show a) <=? 3)%N 256); [by vm_compute | done]. Qed.

Lemma show_ipv4_len a : ipv4_ok a → (len (show_ipv4 a) ≤ 15)%N.
Proof.
  intros (Ha & Hb & Hc & Hd). unfold show_ipv4. rewrite !len_append.
  assert (H : ∀ c s, len (String c s) = (1 + len s)%N) by (intros; unfold len; cbn; lia).
  rewrite !H, !len_append, !H, !len_append, !H.
  apply show_len_octet, N.leb_le in Ha, Hb, Hc, Hd. lia.
Qed.

Lemma parse_ipv4_show a : ipv4_ok a → parse_ipv4 (show_ipv4 a) = Some a.
Proof.
  intros Ha. unfold parse_ipv4.
  destruct (N.ltb_spec 15 (len (show_ipv4 a))); [by pose proof (show_ipv4_len a Ha); lia |].
  pose proof (read_ipv4_show a "" Ha I) as H'. rewrite append_nil_r in H'. by rewrite H'.
Qed.

(** ** Lemmas: IPv6 *)

Lemma read_digits_contains radix acc n s a c rest x :
  read_digits radix acc n s = (a, c, rest) → contains x rest = true → contains x s = true.
Proof.
  revert acc n. induction s as [|y s IH]; intros acc n; cbn [read_digits].
  - by intros [= _ _ <-].
  - rewrite contains_cons. destruct (to_digit radix y).
    + intros H Hr. rewrite (IH _ _ H Hr). apply orb_true_r.
    + by intros [= _ _ <-]; rewrite contains_cons.
Qed.

Lemma read_number_inv radix k z max s n rest :
  read_number radix k z max s = Some (n, rest) → ∃ c, read_digits radix 0 0 s = (n, c, rest).
Proof.
  unfold read_number. destruct (read_digits radix 0 0 s) as [[a c] r].
  destruct (_ || _ || _ || _); intros H; simplify_eq. eauto.
Qed.

Lemma read_ipv4_dot s : contains "." s = false → read_ipv4 s = None.
Proof.
  intros Hs. unfold read_ipv4. destruct (read_octet true s) as [[n rest] |] eqn:Ho; [| done].
  apply read_number_inv in Ho as [c E]. cbn [mbind option_bind].
  assert (Hnext : ∀ x r, x ≠ "."%char → read_octet false (String x r) = None).
  { intros x r Hx. unfold read_octet, read_separator. cbn [read_given_char].
    by destruct (Ascii.eqb_spec x "."). }
  destruct rest as [|x rest]; [done |]. destruct (decide (x = "."%char)); [subst | by rewrite Hnext].
  apply (read_digits_contains _ _ _ _ _ _ _ ".") in E; [congruence |].
  by rewrite contains_cons.
Qed.

Definition hex_digit_ok (n : N) : bool := bool_decide (to_digit 16 (lower_hex n) = Some n).

Lemma to_digit_lower_hex n : to_digit 16 (lower_hex (N.land n 15)) = Some (n mod 16)%N.
Proof.
  change 15%N with (N.ones 4). rewrite N.land_ones. change (2 ^ 4)%N with 16%N.
  eapply bool_decide_eq_true, (below_table hex_digit_ok 16); [by vm_compute |].
  change (N.of_nat 16) with 16%N. by apply N.mod_lt.
Qed.

Lemma div16 n k : (n / 2 ^ k / 16 = n / 2 ^ (k + 4))%N.
Proof. by rewrite N.Div0.div_div, N.pow_add_r. Qed.

Lemma show_hex_digits g rest :
  (g < 65536)%N → stops 16 rest → ∃ c, (c < 4) ∧
  read_digits 16 0 0 (show_hex g +:+ rest) = (g, S c, rest).
Proof.
  intros Hg Hr.
  assert (Hstop : ∀ a n, read_digits 16 a n rest = (a, n, rest)).
  { intros a n. destruct rest as [|x rest]; [done |]. cbn in Hr |- *. by rewrite Hr. }
  assert (D0 := N.div_mod g 16 ltac:(done)).
  assert (D1 := N.div_mod (g / 16) 16 ltac:(done)).
  assert (D2 := N.div_mod (g / 256) 16 ltac:(done)).
  assert (D3 := N.div_mod (g / 4096) 16 ltac:(done)).
  rewrite N.Div0.div_div in D1, D2, D3. change (16 * 16)%N with 256%N in D1.
  change (256 * 16)%N with 4096%N in D2. change (4096 * 16)%N with 65536%N in D3.
  rewrite (N.div_small g 65536) in D3 by done.
  unfold show_hex. cbv zeta. rewrite !N.shiftr_div_pow2.
  change (2 ^ 0)%N with 1%N; change (2 ^ 4)%N with 16%N; change (2 ^ 8)%N with 256%N;
  change (2 ^ 12)%N with 4096%N. rewrite N.div_1_r.
  destruct (N.ltb_spec g 16); [exists 0 |
    destruct (N.ltb_spec g 256); [exists 1 |
    destruct (N.ltb_spec g 4096); [exists 2 | exists 3]]]; (split; [lia |]);
    cbn [String.append str1 read_digits]; rewrite !to_digit_lower_hex, Hstop; f_equal; f_equal.
  - by rewrite N.mod_small.
  - rewrite (N.div_small g 256) in D1 by done. lia.
  - rewrite (N.div_small g 4096) in D2 by done. lia.
  - lia.
Qed.

Lemma read_number_hex g rest :
  (g < 65536)%N → stops 16 rest →
  read_number 16 4 true 65535 (show_hex g +:+ rest) = Some (g, rest).
Proof.
  intros Hg Hr. destruct (show_hex_digits g rest Hg Hr) as (c & Hc & E).
  unfold read_number. rewrite E.
  destruct (Nat.ltb_spec 4 (S c)); [lia |]. destruct (N.ltb_spec 65535 g); [lia | done].
Qed.

Lemma lower_hex_not_dot n : Ascii.eqb "." (lower_hex (N.land n 15)) = false.
Proof.
  apply negb_true_iff, (below_table (λ n, negb (Ascii.eqb "." (lower_hex n))) 16);
    [by vm_compute | apply land_nibble].
Qed.

Lemma show_hex_not_dot g : contains "." (show_hex g) = false.
Proof.
  unfold show_hex. cbv zeta. repeat case_match; unfold str1;
    rewrite ?contains_cons, ?lower_hex_not_dot; done.
Qed.

(** Groups after the first are preceded by a colon. *)
Definition group_text (first : bool) (gs : list N) (rest : string) : string :=
  match gs with
  | [] => rest
  | _ => (if first then "" else ":") +:+ (show_segments gs +:+ rest)
  end.

Lemma group_text_cons first g gs rest :
  group_text first (g :: gs) rest =
    (if first then "" else ":") +:+ (show_hex g +:+ group_text false gs rest).
Proof.
  unfold group_text. f_equal. destruct gs as [|h gs]; [done |].
  cbn [show_segments]. by rewrite append_assoc.
Qed.

Lemma group_text_next g gs rest :
  group_text false (g :: gs) rest = String ":" (show_hex g +:+ group_text false gs rest).
Proof. apply group_text_cons. Qed.

Lemma group_text_nil gs : group_text true gs "" = show_segments gs.
Proof. destruct gs; [done |]. apply append_nil_r. Qed.

(** What may follow the groups: the end, or the double colon. *)
Definition group_end (rest : string) : Prop := rest = "" ∨ ∃ s, rest = "::" +:+ s.

Lemma group_text_stops gs rest : group_end rest → stops 16 (group_text false gs rest).
Proof. intros [-> | [s ->]]; by destruct gs. Qed.

Lemma group_text_dot first gs rest :
  contains "." rest = false → contains "." (group_text first gs rest) = false.
Proof.
  intros Hd. revert first. induction gs as [|g gs IH]; intros first; [done |].
  rewrite group_text_cons, !contains_append, show_hex_not_dot, IH. by destruct first.
Qed.

Lemma read_groups_end limit first rest :
  group_end rest → contains "." rest = false → read_groups limit first rest = ([], false, rest).
Proof.
  intros He Hd. destruct limit as [|limit]; [done |]. cbn [read_groups].
  replace (if Nat.eqb limit 0 then None else read_separator ":" first read_ipv4 rest)
    with (@None (Ipv4Addr * string)).
  - by destruct He as [-> | [s ->]], first.
  - destruct (Nat.eqb limit 0); [done |]. destruct first; cbn [read_separator].
    + by rewrite read_ipv4_dot.
    + destruct He as [-> | [s ->]]; [done |].
      change ("::" +:+ s) with (String ":" (String ":" s)) in *.
      rewrite contains_cons in Hd. change (None = read_ipv4 (String ":" s)).
      by rewrite read_ipv4_dot.
Qed.

Lemma read_groups_show limit first gs rest :
  (length gs ≤ limit)%nat → Forall (λ g, g < 65536)%N gs → group_end rest →
  contains "." rest = false →
  read_groups limit first (group_text first gs rest) = (gs, false, rest).
Proof.
  revert limit first. induction gs as [|g gs IH]; intros limit first Hl Hg He Hd.
  { by apply read_groups_end. }
  apply Forall_cons in Hg as [Hg Hgs]. destruct limit as [|limit]; [simpl in Hl; lia |].
  rewrite group_text_cons. cbn [read_groups].
  assert (Hdots := group_text_dot true (g :: gs) rest Hd). rewrite group_text_cons in Hdots.
  change ("" +:+ ?s) with s in Hdots.
  assert (Hnum : read_number 16 4 true 65535 (show_hex g +:+ group_text false gs rest)
                 = Some (g, group_text false gs rest))
    by (by apply read_number_hex; [| apply group_text_stops]).
  replace (if Nat.eqb limit 0 then None else _) with (@None (Ipv4Addr * string))
    by (destruct (Nat.eqb limit 0); [done |]; symmetry; destruct first; exact (read_ipv4_dot _ Hdots)).
  replace (read_separator ":" first _ _) with (Some (g, group_text false gs rest))
    by (symmetry; destruct first; exact Hnum).
  cbn in Hl. by rewrite IH by (done || lia).
Qed.

(** *** The run of zeros *)

Local Open Scope list_scope.

Definition span_ok (full : list N) (s : nat * nat) : Prop :=
  (s.1 + s.2 ≤ length full)%nat ∧ ∀ j, (s.1 ≤ j < s.1 + s.2)%nat → full !! j = Some 0%N.

Lemma zero_run_ok gs pre current longest :
  span_ok (pre ++ gs) longest → span_ok (pre ++ gs) current →
  (current.2 ≠ 0 → current.1 + current.2 = length pre) →
  span_ok (pre ++ gs) (zero_run (length pre) current longest gs).
Proof.
  revert pre current longest. induction gs as [|g gs IH]; intros pre current longest Hl Hc He;
    cbn [zero_run]; [done |].
  replace (pre ++ g :: gs) with ((pre ++ [g]) ++ gs) in * by (by rewrite <- app_assoc).
  assert (Hlen : S (length pre) = length (pre ++ [g])) by (rewrite length_app; simpl; lia).
  destruct (N.eqb_spec g 0) as [-> |]; [| rewrite Hlen; apply IH; [done | | done]].
  - set (cur := (_, S _)). assert (Hcur : span_ok ((pre ++ [0%N]) ++ gs) cur).
    { destruct Hc as [Hc1 Hc2], current as [st n]; cbn in *. subst cur. split; cbn.
      - rewrite !length_app in *. simpl in *. destruct (Nat.eqb_spec n 0); lia.
      - intros j Hj. destruct (decide (j = length pre)) as [-> | Hne].
        + rewrite lookup_app_l by (rewrite length_app; simpl; lia).
          rewrite lookup_app_r by lia. by rewrite Nat.sub_diag.
        + apply Hc2. destruct (Nat.eqb_spec n 0); lia. }
    rewrite Hlen. apply IH; [by destruct (Nat.ltb _ _) | done |].
    intros _. subst cur. cbn. rewrite <- Hlen. destruct (Nat.eqb_spec current.2 0); lia.
  - split; cbn; [lia | intros; lia].
Qed.

Lemma span_split full st n :
  span_ok full (st, n) → full = (take st full ++ replicate n 0%N ++ drop (st + n) full)%list.
Proof.
  intros [Hlen Hz]. cbn in *. rewrite <- (take_drop st full) at 1. f_equal.
  rewrite <- (take_drop n (drop st full)) at 1. rewrite drop_drop. f_equal.
  apply list_eq. intros j. destruct (decide (j < n)) as [Hj | Hj].
  - rewrite lookup_take_lt, lookup_drop, lookup_replicate_2 by done. apply Hz. lia.
  - rewrite lookup_take_ge by lia. symmetry. apply lookup_replicate_None. lia.
Qed.

(** *** The round trip *)

Lemma segment_bytes g : (g < 65536)%N →
  (N.shiftr g 8 < 256 ∧ N.land g 255 < 256 ∧ N.shiftr g 8 * 256 + N.land g 255 = g)%N.
Proof.
  intros Hg. change 255%N with (N.ones 8). rewrite N.land_ones, N.shiftr_div_pow2.
  change (2 ^ 8)%N with 256%N. pose proof (N.div_mod g 256). pose proof (N.mod_lt g 256).
  split; [apply N.Div0.div_lt_upper_bound |]; lia.
Qed.

Lemma read_ipv6_mapped a :
  ipv4_ok a →
  read_ipv6 ("::ffff:" +:+ show_ipv4 a)%string =
    Some ([0; 0; 0; 0; 0; 65535; a.(oct_a) * 256 + a.(oct_b); a.(oct_c) * 256 + a.(oct_d)]%N, "").
Proof.
  intros Ha. pose proof (read_ipv4_show a "" Ha I) as H. rewrite append_nil_r in H.
  unfold read_ipv6.
  replace (read_groups 8 true _) with (@nil N, false, ("::ffff:" +:+ show_ipv4 a)%string) by done.
  cbn [length Nat.eqb read_given_char mbind option_bind String.append Ascii.eqb Bool.eqb].
  replace (read_groups _ true _) with
    ([65535; a.(oct_a) * 256 + a.(oct_b); a.(oct_c) * 256 + a.(oct_d)]%N, true, ""%string); [done |].
  symmetry. remember (show_ipv4 a) as t. cbn -[read_ipv4 read_number].
  replace (read_ipv4 (String "f" _)) with (@None (Ipv4Addr * string)) by done.
  replace (read_number 16 4 true 65535 _) with (Some (65535%N, String ":" t)) by done.
  change (read_given_char ":" (String ":" t) ≫= read_ipv4) with (read_ipv4 t).
  by rewrite H.
Qed.

Lemma ipv4_mapped_inv gs a :
  ipv4_mapped gs = Some a → ∃ x y, gs = [0; 0; 0; 0; 0; 65535; x; y]%N ∧
  a = Ipv4 (N.shiftr x 8) (N.land x 255) (N.shiftr y 8) (N.land y 255).
Proof. unfold ipv4_mapped. intros H. repeat case_match; simplify_eq. eauto. Qed.

Lemma read_ipv6_show gs :
  ipv6_ok gs → read_ipv6 (show_ipv6 gs) = Some (gs, ""%string).
Proof.
  intros [Hlen Hgs]. unfold show_ipv6. destruct (ipv4_mapped gs) as [a |] eqn:Hm.
  { apply ipv4_mapped_inv in Hm as (x & y & -> & ->).
    rewrite !Forall_cons in Hgs. destruct_and!.
    destruct (segment_bytes x) as (? & ? & E1); [done |].
    destruct (segment_bytes y) as (? & ? & E2); [done |].
    rewrite read_ipv6_mapped by (by split_and!). cbn. by rewrite E1, E2. }
  clear Hm. destruct (zero_run 0 (0, 0) (0, 0) gs) as [st n] eqn:E.
  assert (Hs : span_ok gs (st, n)).
  { rewrite <- E. apply (zero_run_ok gs []); [split; cbn; [lia | intros; lia] .. | done]. }
  unfold read_ipv6. destruct (Nat.ltb_spec 1 n) as [Hn | Hn].
  - assert (Hsplit := span_split _ _ _ Hs). destruct Hs as [Hb _]. cbn in Hb.
    set (head := take st gs) in *. set (tail := drop (st + n) gs) in *.
    assert (length head = st) by (apply length_take_le; lia).
    assert (length tail = 8 - (st + n)) by (unfold tail; rewrite length_drop; lia).
    assert (Forall (λ g, g < 65536)%N head) by (by apply Forall_take).
    assert (Forall (λ g, g < 65536)%N tail) by (by apply Forall_drop).
    replace (show_segments head +:+ "::" +:+ show_segments tail)%string with
      (group_text true head ("::" +:+ show_segments tail)%string) by (by destruct head).
    rewrite read_groups_show; [| lia | done | right; eauto |].
    + destruct (Nat.eqb_spec (length head) 8); [lia |].
      cbn [String.append read_given_char mbind option_bind Ascii.eqb Bool.eqb].
      rewrite <- (group_text_nil tail), read_groups_show; [| lia | done | by left | done].
      repeat f_equal. rewrite Hsplit at 1. do 3 f_equal. lia.
    + rewrite contains_append, <- group_text_nil. by apply group_text_dot.
  - rewrite <- group_text_nil, read_groups_show; [| lia | done | by left | done]. by rewrite Hlen.
Qed.

Lemma ipv6_not_ipv4 gs : read_ipv4 (show_ipv6 gs) = None.
Proof.
  unfold show_ipv6. destruct (ipv4_mapped gs); [done |].
  destruct (zero_run _ _ _ _) as [st n]. apply read_ipv4_dot.
  destruct (Nat.ltb 1 n); rewrite ?contains_append, <- !group_text_nil, !group_text_dot; done.
Qed.

(** Every address is read back from its printed form. *)
Lemma parse_ip_show a : ip_ok a → parse_ip (show_ip a) = Some a.
Proof.
  intros Ha. unfold parse_ip. destruct a as [a | gs]; cbn [show_ip].
  - pose proof (read_ipv4_show a ""%string Ha I) as H. rewrite append_nil_r in H. by rewrite H.
  - rewrite ipv6_not_ipv4. by rewrite (read_ipv6_show gs Ha).
Qed.

Lemma show_ip_nonempty a : ip_ok a → String.eqb (show_ip a) "" = false.
Proof.
  intros H%parse_ip_show. destruct (String.eqb_spec (show_ip a) ""); [| done].
  by rewrite e in H.
Qed.

(** *** Printed addresses are short and printable *)

Lemma show_hex_printable g : all_bytes printable (show_hex g) = true.
Proof.
  assert (H : ∀ n, printable (lower_hex (N.land n 15)) = true).
  { intros n. apply (below_table (λ n, printable (lower_hex n)) 16);
      [by vm_compute | apply land_nibble]. }
  unfold show_hex. cbv zeta. repeat case_match; cbn [all_bytes str1]; by rewrite !H.
Qed.

Lemma len_cons c s : len (String c s) = (1 + len s)%N.
Proof. unfold len. cbn. lia. Qed.

Lemma show_hex_len g : (len (show_hex g) ≤ 4)%N.
Proof.
  unfold show_hex, str1. cbv zeta.
  repeat case_match; rewrite !len_cons; change (len "") with 0%N; lia.
Qed.

Lemma show_segments_printable gs : all_bytes printable (show_segments gs) = true.
Proof.
  rewrite <- group_text_nil.
  assert (H : ∀ b, all_bytes printable (group_text b gs ""%string) = true); [| apply H].
  induction gs as [|g gs IH]; intros b; [done |].
  rewrite group_text_cons, !all_bytes_append, show_hex_printable, IH. by destruct b.
Qed.

Lemma show_segments_len gs : (len (show_segments gs) ≤ 5 * N.of_nat (length gs))%N.
Proof.
  assert (H : ∀ b, (len (group_text b gs ""%string) ≤ 5 * N.of_nat (length gs))%N).
  { induction gs as [|g gs IH]; intros b; [done |].
    rewrite group_text_cons, !len_append. specialize (IH false). pose proof (show_hex_len g).
    cbn [length]. rewrite Nat2N.inj_succ.
    destruct b; [change (len "") with 0%N | change (len ":") with 1%N]; lia. }
  specialize (H true). by rewrite group_text_nil in H.
Qed.

Lemma show_ipv4_printable a : all_bytes printable (show_ipv4 a) = true.
Proof.
  assert (H : ∀ n, all_bytes printable (show n) = true).
  { intros n. eapply all_bytes_impl; [apply digit_printable | apply show_digits]. }
  unfold show_ipv4. rewrite !all_bytes_append. cbn [all_bytes]. rewrite !all_bytes_append.
  cbn [all_bytes]. rewrite !all_bytes_append. cbn [all_bytes]. by rewrite !H.
Qed.

Lemma show_ip_printable a : all_bytes printable (show_ip a) = true.
Proof.
  destruct a as [a | gs]; cbn [show_ip]; [apply show_ipv4_printable |].
  unfold show_ipv6. destruct (ipv4_mapped gs).
  { rewrite all_bytes_append. by rewrite show_ipv4_printable. }
  destruct (zero_run _ _ _ _) as [st n].
  destruct (Nat.ltb 1 n); rewrite ?all_bytes_append, !show_segments_printable; done.
Qed.

Lemma show_ip_len a : ip_ok a → (len (show_ip a) ≤ 45)%N.
Proof.
  destruct a as [a | gs]; cbn [show_ip ip_ok].
  { intros H%show_ipv4_len. lia. }
  intros [Hlen Hgs]. unfold show_ipv6. destruct (ipv4_mapped gs) as [a |] eqn:Hm.
  - apply ipv4_mapped_inv in Hm as (x & y & -> & ->). rewrite !Forall_cons in Hgs. destruct_and!.
    destruct (segment_bytes x) as (? & ? & _); [done |].
    destruct (segment_bytes y) as (? & ? & _); [done |].
    rewrite len_append. change (len "::ffff:") with 7%N.
    assert (Hv : ipv4_ok (Ipv4 (N.shiftr x 8) (N.land x 255) (N.shiftr y 8) (N.land y 255)))
      by (by split_and!).
    apply show_ipv4_len in Hv. lia.
  - destruct (zero_run _ _ _ _) as [st n]. pose proof (show_segments_len gs).
    destruct (Nat.ltb_spec 1 n); [| lia]. rewrite !len_append. change (len "::") with 2%N.
    pose proof (show_segments_len (take st gs)). pose proof (show_segments_len (drop (st + n) gs)).
    rewrite length_take in *. rewrite length_drop in *. lia.
Qed.

Example show_ip_compressed :
  show_ip (V6 [8193; 3512; 0; 0; 1; 0; 0; 1]%N) = "2001:db8::1:0:0:1"%string.
Proof. by vm_compute. Qed.

Example show_ip_loopback : show_ip (V6 [0; 0; 0; 0; 0; 0; 0; 1]%N) = "::1"%string.
Proof. by vm_compute. Qed.
