(* ===== verification/CapturePolicy.v ===== *)
(** * The capture policy of an absent-bootstrap job

    Models [operations/autotune_capture_policy.rs]: a policy identifier
    expands to a complete measurement policy, whose canonical JSON text is
    hashed into the digest that the operation record carries. SHA-256 comes
    from the [ring] crate and is a parameter: a function from a text to the
    bytes of its digest. *)

From S2P Require Import Prelude RustStr SchedRecord PercentRecord Vocabulary RustNet.
Local Open Scope string_scope.

Definition CAPTURE_POLICY_V1_SCHEMA_VERSION : N := 1.
Definition CAPTURE_POLICY_V2_SCHEMA_VERSION : N := 2.
Definition MAX_CAPTURE_POLICY_BYTES : N := 16 * 1024.
Definition MAX_REFLECTORS : N := 64.

(** [reflector_defaults::standard_reflectors] *)
Definition standard_reflectors : list string := [
  "1.1.1.1"; "1.0.0.1"; "8.8.8.8"; "8.8.4.4"; "9.9.9.9"; "9.9.9.10"; "9.9.9.11";
  "94.140.14.15"; "94.140.14.140"; "94.140.14.141"; "94.140.15.15"; "94.140.15.16";
  "64.6.65.6"; "156.154.70.1"; "156.154.70.2"; "156.154.70.3"; "156.154.70.4";
  "156.154.70.5"; "156.154.71.1"; "156.154.71.2"; "156.154.71.3"; "156.154.71.4";
  "156.154.71.5"; "208.67.220.2"; "208.67.220.123"; "208.67.220.220"; "208.67.222.2";
  "208.67.222.123"; "185.228.168.9"; "185.228.168.10"].

Record AutotuneCapturePolicy := {
  policy_id : AutotuneCapturePolicyId;
  pinger_method : string;
  active_pingers : N;
  reflectors : list string;
  reflector_ping_interval_ms : N;
  reflector_response_deadline_ms : N;
  pinger_timeout_ms : N;
  transport_backend : string;
  transport_endpoint : string;
  transport_baseline_learning_interval_ms : N;
  transport_loaded_interval_ms : N;
  transport_timeout_ms : N;
  transport_load_hold_ms : N;
  transport_min_loaded_coverage_percent : N;
  rate_sample_interval_ms : N;
  maximum_counter_delta_span_ms : N;
  load_threshold_kbps : N;
  reverse_ack_ratio_ppm : N;
  cpu_sample_interval_ms : N;
}.

Definition expected_delta_span (id : AutotuneCapturePolicyId) : N :=
  match id with StandardV1 => 600 | StandardV2 => 1500 end.

Definition reflector_ok (r : string) : bool :=
  negb (String.eqb r "" || (255 <? len r)%N || starts_with "-" r
        || negb (all_bytes (λ c, is_ascii_alphanumeric c || contains c ":.-") r)).

Definition is_ascii_control (c : ascii) : bool := (byte c <? 32)%N || (byte c =? 127)%N.

Definition policy_validate (p : AutotuneCapturePolicy) : Res unit :=
  let reflector_count := N.of_nat (length p.(reflectors)) in
  fail_if (negb (String.eqb p.(pinger_method) "fping") || (p.(active_pingers) =? 0)%N
           || (reflector_count <? p.(active_pingers))%N
           || (reflector_count =? 0)%N || (MAX_REFLECTORS <? reflector_count)%N)
    "native Auto-Tune capture ICMP policy is invalid" ≫= λ _,
  fail_if (negb (forallb reflector_ok p.(reflectors)))
    "native Auto-Tune capture reflector is invalid" ≫= λ _,
  fail_if ((p.(reflector_ping_interval_ms) =? 0)%N
           || (p.(reflector_response_deadline_ms) <? p.(reflector_ping_interval_ms))%N
           || (p.(pinger_timeout_ms) <? p.(reflector_response_deadline_ms))%N
           || negb (String.eqb p.(transport_backend) "websocket")
           || negb (starts_with "wss://" p.(transport_endpoint))
           || (512 <? len p.(transport_endpoint))%N
           || any_byte is_ascii_control p.(transport_endpoint)
           || (p.(transport_baseline_learning_interval_ms) =? 0)%N
           || (p.(transport_loaded_interval_ms) =? 0)%N
           || (p.(transport_timeout_ms) =? 0)%N
           || (p.(transport_load_hold_ms) =? 0)%N
           || negb ((50 <=? p.(transport_min_loaded_coverage_percent))%N
                    && (p.(transport_min_loaded_coverage_percent) <=? 100)%N)
           || negb ((100 <=? p.(rate_sample_interval_ms))%N
                    && (p.(rate_sample_interval_ms) <=? 5000)%N)
           || negb (p.(maximum_counter_delta_span_ms) =? expected_delta_span p.(policy_id))%N
           || (p.(maximum_counter_delta_span_ms) <? p.(rate_sample_interval_ms))%N
           || (p.(transport_load_hold_ms) / 2 <? p.(maximum_counter_delta_span_ms))%N
           || (p.(load_threshold_kbps) =? 0)%N
           || (250000 <? p.(reverse_ack_ratio_ppm))%N
           || (p.(cpu_sample_interval_ms) =? 0)%N)
    "native Auto-Tune capture timing policy is invalid".

(** JSON text is written here with single quotes; [json] turns them into the
    double quotes of the format strings, which hold no single quote. *)
Fixpoint json (s : string) : string :=
  match s with
  | "" => ""
  | String c s => String (if Ascii.eqb c "'" then chr 34 else c) (json s)
  end.

Fixpoint join (separator : string) (l : list string) : string :=
  match l with
  | [] => ""
  | [s] => s
  | s :: l => s +:+ separator +:+ join separator l
  end.

Definition reflectors_json (p : AutotuneCapturePolicy) : string :=
  join "," ((λ value, str1 (chr 34) +:+ value +:+ str1 (chr 34)) <$> p.(reflectors)).

(** The parts of the two format strings that are equal. *)
Definition policy_json_head (version : N) (p : AutotuneCapturePolicy) : string :=
  json "{'autotune_capture_policy_schema_version':" +:+ show version
  +:+ json ",'policy_id':'" +:+ AutotuneCapturePolicyId_as_str p.(policy_id)
  +:+ json "','icmp':{'method':'" +:+ p.(pinger_method)
  +:+ json "','active_count':" +:+ show p.(active_pingers)
  +:+ json ",'reflectors':[" +:+ reflectors_json p
  +:+ json "],'interval_ms':" +:+ show p.(reflector_ping_interval_ms)
  +:+ json ",'response_deadline_ms':" +:+ show p.(reflector_response_deadline_ms)
  +:+ json ",'probe_timeout_ms':" +:+ show p.(pinger_timeout_ms)
  +:+ json "},'transport':{'backend':'" +:+ p.(transport_backend)
  +:+ json "','endpoint':'" +:+ p.(transport_endpoint)
  +:+ json "','baseline_learning_interval_ms':" +:+ show p.(transport_baseline_learning_interval_ms)
  +:+ json ",'loaded_interval_ms':" +:+ show p.(transport_loaded_interval_ms)
  +:+ json ",'timeout_ms':" +:+ show p.(transport_timeout_ms)
  +:+ json ",'load_hold_ms':" +:+ show p.(transport_load_hold_ms)
  +:+ json ",'minimum_loaded_coverage_percent':" +:+ show p.(transport_min_loaded_coverage_percent)
  +:+ json "},'load':{'rate_sample_interval_ms':" +:+ show p.(rate_sample_interval_ms).

Definition policy_json_tail (p : AutotuneCapturePolicy) : string :=
  json ",'active_threshold_kbps':" +:+ show p.(load_threshold_kbps)
  +:+ json ",'reverse_ack_ratio_ppm':" +:+ show p.(reverse_ack_ratio_ppm)
  +:+ json "},'cpu':{'sample_interval_ms':" +:+ show p.(cpu_sample_interval_ms)
  +:+ json "}}}" +:+ str1 nl.

Definition canonical_bytes (p : AutotuneCapturePolicy) : Res string :=
  policy_validate p ≫= λ _,
  let output :=
    match p.(policy_id) with
    | StandardV1 =>
        policy_json_head CAPTURE_POLICY_V1_SCHEMA_VERSION p +:+ policy_json_tail p
    | StandardV2 =>
        policy_json_head CAPTURE_POLICY_V2_SCHEMA_VERSION p
        +:+ json ",'maximum_counter_delta_span_ms':" +:+ show p.(maximum_counter_delta_span_ms)
        +:+ policy_json_tail p
    end in
  fail_if (MAX_CAPTURE_POLICY_BYTES <? len output)%N
    "native Auto-Tune capture policy exceeds its byte bound" ≫= λ _,
  mret output.

Definition expanded (id : AutotuneCapturePolicyId) : AutotuneCapturePolicy := {|
  policy_id := id;
  pinger_method := "fping";
  active_pingers := 6;
  reflectors := standard_reflectors;
  reflector_ping_interval_ms := 300;
  reflector_response_deadline_ms := 1000;
  pinger_timeout_ms := 10000;
  transport_backend := "websocket";
  transport_endpoint := "wss://ping-bufferbloat.libreqos.com/ws";
  transport_baseline_learning_interval_ms := 1000;
  transport_loaded_interval_ms := 1000;
  transport_timeout_ms := 5000;
  transport_load_hold_ms := 3000;
  transport_min_loaded_coverage_percent := 70;
  rate_sample_interval_ms := 200;
  maximum_counter_delta_span_ms := match id with StandardV1 => 600 | StandardV2 => 1500 end;
  load_threshold_kbps := 2000;
  reverse_ack_ratio_ppm := 80000;
  cpu_sample_interval_ms := 2000;
|}.

Definition expand (id : AutotuneCapturePolicyId) : Res AutotuneCapturePolicy :=
  policy_validate (expanded id) ≫= λ _,
  canonical_bytes (expanded id) ≫= λ _,
  mret (expanded id).

Section digest.
Context (sha256 : string → string).

(** [format!("{byte:02x}")] of every digest byte. *)
Fixpoint hex_text (bytes : string) : string :=
  match bytes with
  | "" => ""
  | String c rest => String (lower_hex (N.shiftr (byte c) 4))
                       (String (lower_hex (N.land (byte c) 15)) (hex_text rest))
  end.

Definition hex_digest (bytes : string) : string := hex_text (sha256 bytes).

Definition policy_canonical_sha256 (p : AutotuneCapturePolicy) : Res string :=
  bytes ← canonical_bytes p; mret (hex_digest bytes).

Definition canonical_sha256 (id : AutotuneCapturePolicyId) : Res string :=
  expand id ≫= policy_canonical_sha256.
End digest.

(** ** Lemmas *)

Lemma expand_ok id : expand id = Ok (expanded id).
Proof. destruct id; by vm_compute. Qed.

Lemma canonical_bytes_expanded id : ∃ bytes, canonical_bytes (expanded id) = Ok bytes.
Proof. destruct id; eexists; by vm_compute. Qed.

Lemma hex_text_printable s : all_bytes printable (hex_text s) = true.
Proof.
  induction s as [|c s IH]; [done |]. cbn [hex_text all_bytes]. rewrite IH.
  assert (H : ∀ n, (n < 16)%N → printable (lower_hex n) = true).
  { intros n. by apply (below_table (λ n, printable (lower_hex n)) 16); vm_compute. }
  pose proof (byte_lt c). by rewrite !H by (apply land_nibble || by apply shiftr_nibble).
Qed.

Lemma hex_text_len s : len (hex_text s) = (2 * len s)%N.
Proof. induction s as [|c s IH]; [done |]. cbn [hex_text]. rewrite !len_cons, IH. lia. Qed.

Lemma canonical_sha256_ok sha256 id :
  ∃ digest, canonical_sha256 sha256 id = Ok (hex_text (sha256 digest)).
Proof.
  unfold canonical_sha256, policy_canonical_sha256. rewrite expand_ok. cbn [mbind result_bind].
  destruct (canonical_bytes_expanded id) as [bytes ->]. by exists bytes.
Qed.

Fixpoint count_byte (c : ascii) (s : string) : nat :=
  match s with
  | "" => 0
  | String a s => (if Ascii.eqb a c then 1 else 0) + count_byte c s
  end.

(** The canonical text closes six objects and opens five: the last line of both
    format strings ends in one brace too many, so the text that is hashed is not
    JSON. The frozen digests of the tests fix this form. *)
Lemma canonical_bytes_unbalanced id bytes :
  canonical_bytes (expanded id) = Ok bytes →
  count_byte "{" bytes = 5 ∧ count_byte "}" bytes = 6.
Proof. intros H. destruct id; vm_compute in H; injection H as <-; by vm_compute. Qed.
