(* ===== verification/OperationRequest.v ===== *)
(** * The operation request and its validation

    Models [OperationIdentity], [OperationRouteIdentity], [AutotuneTrafficPlan]
    and [OperationRequest] of [operations/protocol.rs], with the whole of
    [OperationRequest::validate] and the admission policy. A request is the
    complete authority of a calibration job: what it may do, to which instance,
    over which route, with how much traffic. *)

From S2P Require Import Prelude RateLimits RustStr SchedRecord PercentRecord Vocabulary RustNet CapturePolicy.
Local Open Scope string_scope.

(** ** Helpers from other files of the crate *)

Definition MAX_SERVER_FAILURE_RETRIES : N := 10.
Definition DEFAULT_SERVER_FAILURE_RETRIES : N := 2.

(** [sqm_identity::validate_uci_section] *)
Definition validate_uci_section (section : string) : Res unit :=
  fail_if (String.eqb section "" || (64 <? len section)%N
           || any_byte (λ c, negb (is_ascii_alphanumeric c) && negb (Ascii.eqb c "_")) section)
    "managed SQM section name is invalid".

(** [routing::explicit_dns_server] *)
Definition explicit_dns_server (mode value : string) : Res (option Ipv4Addr) :=
  if String.eqb value "" then Ok None
  else
    fail_if (negb (String.eqb mode "explicit"))
      "route_dns_ipv4 requires explicit routing" ≫= λ _,
    ip ← ok_or (parse_ipv4 value) "route_dns_ipv4 must be an IPv4 address";
    fail_if ((ip.(oct_a) =? 0)%N || (224 <=? ip.(oct_a))%N || is_loopback ip || is_link_local ip)
      "route_dns_ipv4 requires a non-loopback unicast server" ≫= λ _,
    mret (Some ip).

(** [autotune::validate_capacity_learning_service_caps] *)
Definition validate_capacity_learning_service_caps (policy : option CapacityLearningPolicy)
    (dl ul : option N) : Res unit :=
  fail_if (bool_decide (policy = Some FixedCap) && (negb (bool_decide (is_Some dl))
                                                    || negb (bool_decide (is_Some ul))))
    "fixed-cap capacity learning requires download and upload service hard caps".

(** ** Data *)

Record OperationIdentity := {
  job_id : string;
  job_token : string;
  instance : string;
  operation : OperationKind;
  target_interface : string;
  route_fingerprint : string;
  config_fingerprint : string;
  sqm_fingerprint : string;
}.

Record OperationRouteIdentity := {
  dns_server : option Ipv4Addr;
  device_ifindex : option N;
  mode : OperationRouteMode;
  mwan3_member : option string;
  l3_device : string;
  source_ip : option IpAddr;
  fwmark : option N;
  routing_table : option N;
  fwmark_mask : option N;
}.

Record AutotuneTrafficPlan := { download_kbps : N; upload_kbps : N }.

Record OperationRequest := {
  identity : OperationIdentity;
  created_unix_ms : N;
  deadline_unix_ms : N;
  origin : OperationOrigin;
  backend : string;
  speedtest_direction : option SpeedtestDirection;
  speedtest_server_id : option N;
  speedtest_topology : option SpeedtestTopology;
  route : OperationRouteIdentity;
  target_state : OperationTargetState;
  capture_policy : option AutotuneCapturePolicyId;
  managed_sqm_section : option string;
  profile : option AutotuneProfile;
  strategy : option CalibrationStrategy;
  access_medium : option AccessMedium;
  access_source : option AccessEvidenceSource;
  access_confidence_percent : N;
  capacity_learning_policy : option CapacityLearningPolicy;
  service_dl_cap_kbps : option N;
  service_ul_cap_kbps : option N;
  allow_sqm_disable : bool;
  allow_active_traffic : bool;
  scheduled_auto_apply_requested : bool;
  traffic_budget : TrafficPolicy;
  traffic_policy_explicit : bool;
  traffic_plan : option AutotuneTrafficPlan;
  server_failure_retries : option N;
}.

#[export] Instance OperationIdentity_eq_dec : EqDecision OperationIdentity.
Proof. solve_decision. Defined.
#[export] Instance OperationRouteIdentity_eq_dec : EqDecision OperationRouteIdentity.
Proof. solve_decision. Defined.
#[export] Instance AutotuneTrafficPlan_eq_dec : EqDecision AutotuneTrafficPlan.
Proof. solve_decision. Defined.

(** ** Validation of the parts *)

Definition identity_validate (i : OperationIdentity) : Res unit :=
  require_lower_hex "job_id" i.(job_id) 32 ≫= λ _,
  require_lower_hex "job_token" i.(job_token) 64 ≫= λ _,
  require_safe_identifier "instance" i.(instance) 1 64 "_-" ≫= λ _,
  require_safe_identifier "target_interface" i.(target_interface) 1 64 "._:@-" ≫= λ _,
  require_lower_hex "route_fingerprint" i.(route_fingerprint) 64 ≫= λ _,
  require_lower_hex "config_fingerprint" i.(config_fingerprint) 64 ≫= λ _,
  require_lower_hex "sqm_fingerprint" i.(sqm_fingerprint) 64.

(** [mark & !mask != 0] on 32 bits *)
Definition outside_mask (mark mask : N) : bool := negb (N.land mark (N.lnot mask 32) =? 0)%N.

Definition explicit_source_valid (source : option IpAddr) : bool :=
  match source with
  | Some (V4 a) => negb (a.(oct_a) =? 0)%N && negb (is_loopback a) && (a.(oct_a) <? 224)%N
  | _ => false
  end.

Definition route_validate (r : OperationRouteIdentity) : Res unit :=
  match r.(dns_server) with
  | Some server =>
      explicit_dns_server (OperationRouteMode_as_str r.(mode)) (show_ipv4 server) ≫= λ _, Ok tt
  | None => Ok tt
  end ≫= λ _,
  require_safe_identifier "l3_device" r.(l3_device) 1 64 "._:@-" ≫= λ _,
  fail_if (is_some_and (λ index, (index =? 0)%N || negb (is_some r.(fwmark_mask)))
             r.(device_ifindex))
    "route link witness requires a positive index and policy mask" ≫= λ _,
  match r.(fwmark_mask) with
  | Some mask =>
      fail_if (bool_decide (r.(mode) = Main) || (mask =? 0)%N
               || match r.(fwmark) with
                  | None => true
                  | Some mark => (mark =? 0)%N || outside_mask mark mask
                  end)
        "route mask requires a nonzero contained policy mark"
  | None => Ok tt
  end ≫= λ _,
  match r.(mode), r.(mwan3_member) with
  | Explicit, None =>
      fail_if (negb (explicit_source_valid r.(source_ip)) || negb (is_some r.(device_ifindex))
               || negb (is_some r.(fwmark_mask))
               || negb (is_some_and (λ table, negb (table =? 0)%N) r.(routing_table)))
        "explicit route requires source, link, table and masked mark authority"
  | Explicit, Some _ => Err "explicit route must not carry an mwan3 member"
  | Main, None => Ok tt
  | Mwan3, Some member => require_safe_identifier "mwan3_member" member 1 64 "_-"
  | Main, Some _ => Err "main route must not carry an mwan3 member"
  | Mwan3, None => Err "mwan3 route requires a member"
  end.

Definition plan_validate (p : AutotuneTrafficPlan) : Res unit :=
  let in_rate r := (1 <=? r)%N && (r <=? 100000000)%N in
  fail_if (negb (in_rate p.(download_kbps)) || negb (in_rate p.(upload_kbps)))
    "Auto-Tune planning rates must be in 1..=100000000 kbps".

(** ** [OperationRequest::validate], block by block *)

Definition reject_autotune_context (r : OperationRequest) : Res unit :=
  fail_if (is_some r.(access_medium) || is_some r.(access_source)
           || negb (r.(access_confidence_percent) =? 0)%N
           || is_some r.(capacity_learning_policy)
           || is_some r.(service_dl_cap_kbps) || is_some r.(service_ul_cap_kbps))
    "only Full Auto-Tune may carry access context".

Definition reject_speedtest_stop_authority_or_autotune_context (r : OperationRequest)
    : Res unit :=
  let stop_authority := is_some r.(service_dl_cap_kbps) || is_some r.(service_ul_cap_kbps) in
  if negb stop_authority then reject_autotune_context r
  else
    fail_if (negb (bool_decide (r.(identity).(operation) = Speedtest))
             || negb r.(traffic_policy_explicit)
             || bool_decide (r.(traffic_budget) = Unlimited))
      "only an explicit capped Speedtest may carry stopping rate authority" ≫= λ _,
    fail_if (is_some r.(access_medium) || is_some r.(access_source)
             || negb (r.(access_confidence_percent) =? 0)%N
             || is_some r.(capacity_learning_policy))
      "only Full Auto-Tune may carry access context".

Definition validate_retries (r : OperationRequest) : Res unit :=
  match r.(server_failure_retries) with
  | Some retries =>
      fail_if (MAX_SERVER_FAILURE_RETRIES <? retries)%N
        ("server failure retries must be between 0 and " +:+ show MAX_SERVER_FAILURE_RETRIES)
      ≫= λ _,
      fail_if (negb (bool_decide (r.(identity).(operation) = FullAutotune)))
        "only Full Auto-Tune may carry server failure retries"
  | None => Ok tt
  end.

Definition validate_traffic (r : OperationRequest) : Res unit :=
  traffic_validate r.(traffic_budget) ≫= λ _,
  match r.(traffic_plan) with
  | Some plan =>
      plan_validate plan ≫= λ _,
      fail_if (negb r.(traffic_policy_explicit)
               || negb (bool_decide (r.(identity).(operation) = FullAutotune))
               || bool_decide (r.(origin) = Scheduler))
        "planning rates require an explicit non-scheduled Full Auto-Tune request"
  | None => Ok tt
  end ≫= λ _,
  fail_if (bool_decide (r.(traffic_budget) = Unlimited)
           && (negb r.(traffic_policy_explicit) || bool_decide (r.(origin) = Scheduler)))
    "unlimited traffic requires explicit non-scheduled request policy" ≫= λ _,
  fail_if (r.(scheduled_auto_apply_requested)
           && (negb (bool_decide (r.(origin) = Scheduler))
               || negb (bool_decide (r.(identity).(operation) = FullAutotune))))
    "scheduled Auto-Apply authority requires a scheduler Full Auto-Tune request".

Definition validate_target (r : OperationRequest) : Res unit :=
  if bool_decide (r.(target_state) = AbsentBootstrap) then
    fail_if (negb (match r.(identity).(operation) with
                   | FullAutotune | Speedtest => true | _ => false end))
      "absent bootstrap target state is valid only for Full Auto-Tune or Speedtest" ≫= λ _,
    fail_if (negb (bool_decide (r.(origin) = Luci)))
      "absent bootstrap target state requires a LuCI operation origin" ≫= λ _,
    fail_if r.(scheduled_auto_apply_requested)
      "absent bootstrap target state cannot request scheduled Auto-Apply" ≫= λ _,
    planned_sqm_section ← ok_or r.(managed_sqm_section)
      "absent bootstrap target state requires a planned managed SQM section";
    validate_uci_section planned_sqm_section ≫= λ _,
    policy ← ok_or r.(capture_policy)
      "absent bootstrap target state requires an explicit capture policy";
    expand policy ≫= λ _, Ok tt
  else
    fail_if (is_some r.(capture_policy))
      "only an absent bootstrap target may carry capture policy authority".

Definition validate_full_autotune (r : OperationRequest) : Res unit :=
  fail_if (is_some r.(speedtest_direction) || is_some r.(speedtest_topology))
    "Full Auto-Tune selects its test directions internally" ≫= λ _,
  fail_if (bool_decide (r.(speedtest_server_id) = Some 0%N))
    "Full Auto-Tune speed-test server ID must be positive" ≫= λ _,
  fail_if (negb (is_some r.(profile)) || negb (is_some r.(strategy)))
    "Full Auto-Tune requires a profile and strategy" ≫= λ _,
  fail_if (traffic_is_empty r.(traffic_budget))
    "Full Auto-Tune requires a non-zero traffic budget" ≫= λ _,
  fail_if (negb (is_some r.(access_medium)) || negb (is_some r.(access_source))
           || negb (is_some r.(capacity_learning_policy)))
    "Full Auto-Tune requires an explicit access context" ≫= λ _,
  fail_if (100 <? r.(access_confidence_percent))%N
    "access confidence must be between 0 and 100" ≫= λ _,
  section ← ok_or r.(managed_sqm_section)
    "Full Auto-Tune requires the attested managed SQM section";
  require_safe_identifier "managed_sqm_section" section 1 64 "_-".

Definition validate_untuned (r : OperationRequest) : Res unit :=
  fail_if (is_some r.(profile) || is_some r.(strategy))
    "only Full Auto-Tune may carry a profile or calibration strategy" ≫= λ _,
  fail_if r.(allow_sqm_disable) "only Full Auto-Tune may allow SQM disable".

Definition validate_no_speedtest (r : OperationRequest) : Res unit :=
  fail_if (is_some r.(speedtest_direction) || is_some r.(speedtest_server_id)
           || is_some r.(speedtest_topology))
    "only Speedtest may carry speed-test direction or server ID".

Definition validate_generated (r : OperationRequest) : Res unit :=
  validate_untuned r ≫= λ _,
  fail_if (traffic_is_empty r.(traffic_budget))
    "generated-traffic operation requires a non-zero budget" ≫= λ _,
  reject_speedtest_stop_authority_or_autotune_context r ≫= λ _,
  fail_if (bool_decide (r.(identity).(operation) = AutomaticRating)
           && is_some r.(managed_sqm_section))
    "Rating must not carry a managed SQM section" ≫= λ _,
  fail_if (bool_decide (r.(identity).(operation) = Speedtest)
           && bool_decide (r.(target_state) = ExistingManaged)
           && is_some r.(managed_sqm_section))
    "existing-instance Speedtest must not carry a planned SQM section" ≫= λ _,
  fail_if (negb (match r.(route).(source_ip) with Some (V4 _) => true | _ => false end))
    "generated-traffic operation requires an explicit IPv4 source" ≫= λ _,
  if bool_decide (r.(identity).(operation) = Speedtest) then
    fail_if (negb (is_some r.(speedtest_direction)))
      "Speedtest requires an explicit direction" ≫= λ _,
    fail_if (negb (is_some r.(speedtest_topology)))
      "Speedtest requires an explicit topology" ≫= λ _,
    fail_if (bool_decide (r.(speedtest_server_id) = Some 0%N))
      "Speedtest server ID must be positive"
  else validate_no_speedtest r.

Definition validate_guided (r : OperationRequest) : Res unit :=
  validate_untuned r ≫= λ _,
  reject_autotune_context r ≫= λ _,
  fail_if (is_some r.(managed_sqm_section))
    "Rating must not carry a managed SQM section" ≫= λ _,
  validate_no_speedtest r.

Definition validate_service_cap (name : string) (value : option N) : Res unit :=
  fail_if (is_some_and (λ value, negb ((100 <=? value)%N && (value <=? MAX_RATE_KBPS)%N)) value)
    (name +:+ " must be between 100 and " +:+ show MAX_RATE_KBPS +:+ " kbit/s").

Definition request_validate (r : OperationRequest) : Res unit :=
  validate_retries r ≫= λ _,
  identity_validate r.(identity) ≫= λ _,
  route_validate r.(route) ≫= λ _,
  require_safe_identifier "backend" r.(backend) 1 32 "_-" ≫= λ _,
  fail_if (r.(created_unix_ms) =? 0)%N "created_unix_ms must be non-zero" ≫= λ _,
  fail_if (r.(deadline_unix_ms) <? r.(created_unix_ms))%N
    "deadline_unix_ms must not precede creation" ≫= λ _,
  validate_traffic r ≫= λ _,
  validate_target r ≫= λ _,
  match r.(identity).(operation) with
  | FullAutotune => validate_full_autotune r
  | AutomaticRating | Speedtest => validate_generated r
  | GuidedRating => validate_guided r
  end ≫= λ _,
  validate_service_cap "download service cap" r.(service_dl_cap_kbps) ≫= λ _,
  validate_service_cap "upload service cap" r.(service_ul_cap_kbps).

Definition effective_server_failure_retries (r : OperationRequest) : N :=
  default DEFAULT_SERVER_FAILURE_RETRIES r.(server_failure_retries).

(** ** What validation establishes *)

(** A string option that can be written: absent, or non-empty and short. *)
Definition opt_ok (o : option string) : Prop := ∀ s, o = Some s → s ≠ "" ∧ val_ok 64 s.

Record request_strings_ok (r : OperationRequest) : Prop := {
  ok_job_id : val_ok 64 r.(identity).(job_id);
  ok_job_token : val_ok 64 r.(identity).(job_token);
  ok_instance : val_ok 64 r.(identity).(instance);
  ok_target_interface : val_ok 64 r.(identity).(target_interface);
  ok_route_fingerprint : val_ok 64 r.(identity).(route_fingerprint);
  ok_config_fingerprint : val_ok 64 r.(identity).(config_fingerprint);
  ok_sqm_fingerprint : val_ok 64 r.(identity).(sqm_fingerprint);
  ok_l3_device : val_ok 64 r.(route).(l3_device);
  ok_backend : val_ok 64 r.(backend);
  ok_mwan3_member : opt_ok r.(route).(mwan3_member);
  ok_managed_sqm_section : opt_ok r.(managed_sqm_section);
}.

Lemma opt_ok_None : opt_ok None.
Proof. done. Qed.

Lemma opt_ok_Some s : (1 ≤ len s)%N → val_ok 64 s → opt_ok (Some s).
Proof. intros H1 H2 ? [= <-]. split; [by apply len_nonempty | done]. Qed.

Lemma is_some_false {A} (o : option A) : is_some o = false → o = None.
Proof. by destruct o. Qed.

Lemma uci_section_ok s u : validate_uci_section s = Ok u → opt_ok (Some s).
Proof.
  intros H%fail_if_ok_inv. reflect_bools. apply opt_ok_Some.
  - destruct s; [done |]. unfold len. cbn. lia.
  - split; [| done]. unfold any_byte in *. reflect_bools.
    eapply all_bytes_impl; [| eassumption]. intros c. cbn.
    rewrite negb_andb, !negb_involutive. intros [Hc | ->%Ascii.eqb_eq]%orb_true_iff; [| done].
    by apply alphanumeric_printable.
Qed.

Lemma mwan3_member_ok r u : route_validate r = Ok u → opt_ok r.(mwan3_member).
Proof.
  unfold route_validate. intros H. unbind. clear -H.
  destruct (mode r), (mwan3_member r); try discriminate; try apply opt_ok_None.
  apply (safe_identifier_ok _ _ _ _ _ _ 64) in H as [? ?]; [by apply opt_ok_Some | done | done].
Qed.

Lemma generated_section_ok r u :
  validate_target r = Ok u → validate_generated r = Ok u →
  r.(identity).(operation) = AutomaticRating ∨ r.(identity).(operation) = Speedtest →
  opt_ok r.(managed_sqm_section).
Proof.
  unfold validate_target, validate_generated. intros Ht Hg Hop. unbind.
  destruct (managed_sqm_section r) as [s |] eqn:Es; [| apply opt_ok_None].
  destruct (bool_decide_reflect (target_state r = AbsentBootstrap)) as [Hst | Hst].
  - unbind. simplify_eq. by eapply uci_section_ok.
  - assert (target_state r = ExistingManaged) by (by destruct (target_state r)).
    destruct Hop as [Hop | Hop]; rewrite ?bool_decide_true in * by done; discriminate.
Qed.

Lemma managed_section_ok r u :
  validate_target r = Ok u →
  match r.(identity).(operation) with
  | FullAutotune => validate_full_autotune r
  | AutomaticRating | Speedtest => validate_generated r
  | GuidedRating => validate_guided r
  end = Ok u →
  opt_ok r.(managed_sqm_section).
Proof.
  intros Ht H. destruct (operation (identity r)) eqn:Eop;
    [| by eapply generated_section_ok; eauto | | by eapply generated_section_ok; eauto].
  - unfold validate_full_autotune in H. unbind. rewrite Ha5.
    apply (safe_identifier_ok _ _ _ _ _ _ 64) in H as [? ?]; [by apply opt_ok_Some | done | done].
  - unfold validate_guided in H. unbind. apply is_some_false in Ha1. by rewrite Ha1.
Qed.

Lemma identity_validate_ok i u :
  identity_validate i = Ok u →
  val_ok 64 i.(job_id) ∧ val_ok 64 i.(job_token) ∧ val_ok 64 i.(instance)
  ∧ val_ok 64 i.(target_interface) ∧ val_ok 64 i.(route_fingerprint)
  ∧ val_ok 64 i.(config_fingerprint) ∧ val_ok 64 i.(sqm_fingerprint).
Proof.
  unfold identity_validate. intros H. unbind.
  repeat match goal with
  | H : require_lower_hex _ _ _ = _ |- _ =>
      eapply (lower_hex_ok _ _ _ _ 64) in H; [| done]
  | H : require_safe_identifier _ _ _ _ _ = _ |- _ =>
      eapply (safe_identifier_ok _ _ _ _ _ _ 64) in H as [H _]; [| done | done]
  end. by split_and!.
Qed.

Lemma request_validate_strings r u : request_validate r = Ok u → request_strings_ok r.
Proof.
  unfold request_validate. intros H. unbind.
  repeat match goal with x : unit |- _ => destruct x end.
  match goal with H : identity_validate _ = _ |- _ =>
    apply identity_validate_ok in H as (? & ? & ? & ? & ? & ? & ?) end.
  constructor; try done.
  - unfold route_validate in Ha1. unbind.
    match goal with H : require_safe_identifier "l3_device" _ _ _ _ = _ |- _ =>
      apply (safe_identifier_ok _ _ _ _ _ _ 64) in H as [? _]; done end.
  - match goal with H : require_safe_identifier "backend" _ _ _ _ = _ |- _ =>
      apply (safe_identifier_ok _ _ _ _ _ _ 64) in H as [? _]; done end.
  - by eapply mwan3_member_ok.
  - by eapply managed_section_ok.
Qed.
