(* ===== verification/OperationCodec.v ===== *)
(** * The operation record: encoding and decoding a request

    Models [OperationRequest::encode], [encode_for_schema] and [decode] of
    [operations/protocol.rs]. Nineteen record schemas (4 to 22) differ in which
    optional fields they carry; schemas 23 to 41 are the same ones with a
    trailing [server_failure_retries] field. *)

From S2P Require Import Prelude RustStr SchedRecord PercentRecord Vocabulary RustNet CapturePolicy OperationRequest.
Local Open Scope string_scope.

(** ** Record headers *)

Definition RETRY_SCHEMA_OFFSET : N := 19.

Definition request_header_text (schema : string) : string :=
  "cake-autorate-operation" +:+ String tab (schema +:+ String tab "request").

Definition PUBLIC_EXISTING_REQUEST_HEADER : string := request_header_text "4".
Definition MANAGED_REQUEST_HEADER : string := request_header_text "5".
Definition REQUEST_HEADER : string := request_header_text "6".
Definition EXPLICIT_MANAGED_REQUEST_HEADER : string := request_header_text "7".
Definition EXPLICIT_BOOTSTRAP_REQUEST_HEADER : string := request_header_text "8".
Definition PLANNED_MANAGED_REQUEST_HEADER : string := request_header_text "9".
Definition PLANNED_BOOTSTRAP_REQUEST_HEADER : string := request_header_text "10".
Definition MASKED_MANAGED_REQUEST_HEADER : string := request_header_text "11".
Definition MASKED_BOOTSTRAP_REQUEST_HEADER : string := request_header_text "12".
Definition MASKED_PLANNED_MANAGED_REQUEST_HEADER : string := request_header_text "13".
Definition MASKED_PLANNED_BOOTSTRAP_REQUEST_HEADER : string := request_header_text "14".
Definition LINKED_MANAGED_REQUEST_HEADER : string := request_header_text "15".
Definition LINKED_BOOTSTRAP_REQUEST_HEADER : string := request_header_text "16".
Definition LINKED_PLANNED_MANAGED_REQUEST_HEADER : string := request_header_text "17".
Definition LINKED_PLANNED_BOOTSTRAP_REQUEST_HEADER : string := request_header_text "18".
Definition DNS_MANAGED_REQUEST_HEADER : string := request_header_text "19".
Definition DNS_BOOTSTRAP_REQUEST_HEADER : string := request_header_text "20".
Definition DNS_PLANNED_MANAGED_REQUEST_HEADER : string := request_header_text "21".
Definition DNS_PLANNED_BOOTSTRAP_REQUEST_HEADER : string := request_header_text "22".

Definition retry_request_header (schema : N) : string := request_header_text (show schema).

(** The schema table, in the order of the [match] of [decode]. *)
Definition schema_table : list (N * string) := [
  (6%N, REQUEST_HEADER);
  (5%N, MANAGED_REQUEST_HEADER);
  (4%N, PUBLIC_EXISTING_REQUEST_HEADER);
  (7%N, EXPLICIT_MANAGED_REQUEST_HEADER);
  (8%N, EXPLICIT_BOOTSTRAP_REQUEST_HEADER);
  (9%N, PLANNED_MANAGED_REQUEST_HEADER);
  (10%N, PLANNED_BOOTSTRAP_REQUEST_HEADER);
  (11%N, MASKED_MANAGED_REQUEST_HEADER);
  (12%N, MASKED_BOOTSTRAP_REQUEST_HEADER);
  (13%N, MASKED_PLANNED_MANAGED_REQUEST_HEADER);
  (14%N, MASKED_PLANNED_BOOTSTRAP_REQUEST_HEADER);
  (15%N, LINKED_MANAGED_REQUEST_HEADER);
  (16%N, LINKED_BOOTSTRAP_REQUEST_HEADER);
  (17%N, LINKED_PLANNED_MANAGED_REQUEST_HEADER);
  (18%N, LINKED_PLANNED_BOOTSTRAP_REQUEST_HEADER);
  (19%N, DNS_MANAGED_REQUEST_HEADER);
  (20%N, DNS_BOOTSTRAP_REQUEST_HEADER);
  (21%N, DNS_PLANNED_MANAGED_REQUEST_HEADER);
  (22%N, DNS_PLANNED_BOOTSTRAP_REQUEST_HEADER)].

Definition legacy_request_header (schema : N) : Res string :=
  ok_or (snd <$> List.find (λ p, p.1 =? schema)%N schema_table)
    "unsupported operation request schema".

(** [match first_line { Some(REQUEST_HEADER) => 6, ... }] *)
Definition header_schema (first_line : option string) : Res N :=
  ok_or (first_line ≫= λ line, fst <$> List.find (λ p, String.eqb p.2 line) schema_table)
    "operation record header mismatch".

Definition base_schema (schema : N) : N :=
  if (19 <=? schema)%N then schema - 12
  else if (15 <=? schema)%N then schema - 8
  else if (11 <=? schema)%N then schema - 4
  else schema.

(** [matches!(base_schema, 6 | 8 | 10)] *)
Definition bootstrap_schema (schema : N) : bool :=
  let base := base_schema schema in
  (base =? 6)%N || (base =? 8)%N || (base =? 10)%N.

(** ** Encoding *)

Definition opt_text {A} `{WireName A} (o : option A) : string :=
  match o with Some a => wire_str a | None => "" end.
Definition opt_show (o : option N) : string :=
  match o with Some n => show n | None => "" end.

Definition encode_legacy_schema (r : OperationRequest) : N :=
  let absent := bool_decide (r.(target_state) = AbsentBootstrap) in
  if is_some r.(route).(fwmark_mask) then
    let schema := match r.(target_state), is_some r.(traffic_plan) with
                  | ExistingManaged, false => 11
                  | AbsentBootstrap, false => 12
                  | ExistingManaged, true => 13
                  | AbsentBootstrap, true => 14
                  end%N in
    if is_some r.(route).(dns_server) then schema + 8
    else if is_some r.(route).(device_ifindex) then schema + 4
    else schema
  else if is_some r.(traffic_plan) then (if absent then 10 else 9)
  else if absent then (if r.(traffic_policy_explicit) then 8 else 6)
  else if r.(traffic_policy_explicit) then 7 else 5.

Definition head_fields (r : OperationRequest) : list (string * string) := [
  ("job_id", r.(identity).(job_id));
  ("job_token", r.(identity).(job_token));
  ("created_unix_ms", show r.(created_unix_ms));
  ("deadline_unix_ms", show r.(deadline_unix_ms));
  ("instance", r.(identity).(instance));
  ("operation", wire_str r.(identity).(operation));
  ("origin", wire_str r.(origin));
  ("backend", r.(backend));
  ("speedtest_direction", opt_text r.(speedtest_direction));
  ("speedtest_server_id", opt_show r.(speedtest_server_id));
  ("speedtest_topology", opt_text r.(speedtest_topology));
  ("target_interface", r.(identity).(target_interface))].

Definition route_fields (r : OperationRequest) : list (string * string) := [
  ("managed_sqm_section", default "" r.(managed_sqm_section));
  ("route_mode", wire_str r.(route).(mode));
  ("mwan3_member", default "" r.(route).(mwan3_member));
  ("l3_device", r.(route).(l3_device));
  ("source_ip", match r.(route).(source_ip) with Some a => show_ip a | None => "" end);
  ("fwmark", opt_show r.(route).(fwmark));
  ("routing_table", opt_show r.(route).(routing_table));
  ("route_fingerprint", r.(identity).(route_fingerprint));
  ("config_fingerprint", r.(identity).(config_fingerprint));
  ("sqm_fingerprint", r.(identity).(sqm_fingerprint))].

Definition tuning_fields (r : OperationRequest) : list (string * string) := [
  ("profile", opt_text r.(profile));
  ("strategy", opt_text r.(strategy));
  ("access_medium", opt_text r.(access_medium));
  ("access_source", opt_text r.(access_source));
  ("access_confidence_percent", show r.(access_confidence_percent));
  ("capacity_learning_policy", opt_text r.(capacity_learning_policy));
  ("service_dl_cap_kbps", opt_show r.(service_dl_cap_kbps));
  ("service_ul_cap_kbps", opt_show r.(service_ul_cap_kbps));
  ("allow_sqm_disable", bool_text r.(allow_sqm_disable));
  ("allow_active_traffic", bool_text r.(allow_active_traffic));
  ("scheduled_auto_apply_requested", bool_text r.(scheduled_auto_apply_requested))].

Definition policy_name (p : TrafficPolicy) : string :=
  match p with Capped _ => "capped" | Unlimited => "unlimited" end.

(** The optional fields, present or absent with the schema and the request. *)
Definition policy_fields (schema : N) (r : OperationRequest) : list (string * string) :=
  if (7 <=? schema)%N then [("traffic_policy", policy_name r.(traffic_budget))] else [].

Definition budget_fields (r : OperationRequest) : list (string * string) :=
  [("traffic_budget_bytes", opt_show (limit_bytes r.(traffic_budget)))].

Definition plan_fields (r : OperationRequest) : list (string * string) :=
  match r.(traffic_plan) with
  | Some plan => [("planning_dl_kbps", show plan.(download_kbps));
                  ("planning_ul_kbps", show plan.(upload_kbps))]
  | None => []
  end.

Definition mask_fields (r : OperationRequest) : list (string * string) :=
  match r.(route).(fwmark_mask) with
  | Some mask => [("fwmark_mask", show mask);
                  ("traffic_policy_explicit", bool_text r.(traffic_policy_explicit))]
  | None => []
  end.

Definition ifindex_fields (r : OperationRequest) : list (string * string) :=
  match r.(route).(device_ifindex) with
  | Some index => [("device_ifindex", show index)]
  | None => []
  end.

Definition dns_fields (r : OperationRequest) : list (string * string) :=
  match r.(route).(dns_server) with
  | Some server => [("route_dns_ipv4", show_ipv4 server)]
  | None => []
  end.

(** The guards of [encode_for_schema] that follow the retry check. *)
Definition check_schema (schema : N) (r : OperationRequest) : Res unit :=
  fail_if (negb (Bool.eqb (15 <=? schema)%N (is_some r.(route).(device_ifindex))))
    "request route link encoding downgrade or mismatch" ≫= λ _,
  fail_if (negb (Bool.eqb (19 <=? schema)%N (is_some r.(route).(dns_server))))
    "request route DNS encoding downgrade or mismatch" ≫= λ _,
  fail_if (negb (Bool.eqb (11 <=? schema)%N (is_some r.(route).(fwmark_mask))))
    "request route mask encoding downgrade or mismatch" ≫= λ _,
  request_validate r ≫= λ _,
  fail_if (negb (Bool.eqb (9 <=? base_schema schema)%N (is_some r.(traffic_plan))))
    "request planning encoding downgrade or mismatch" ≫= λ _,
  fail_if ((schema <? 11)%N && negb (Bool.eqb (7 <=? schema)%N r.(traffic_policy_explicit)))
    "request traffic policy encoding downgrade or mismatch" ≫= λ _,
  fail_if (negb (bootstrap_schema schema)
           && negb (bool_decide (r.(target_state) = ExistingManaged)))
    "managed operation request schema cannot represent absent bootstrap authority" ≫= λ _,
  fail_if (negb (bootstrap_schema schema) && is_some r.(capture_policy))
    "managed operation request schema cannot represent capture policy authority" ≫= λ _,
  fail_if (bootstrap_schema schema && negb (bool_decide (r.(target_state) = AbsentBootstrap)))
    "operation request schema v6 is reserved for absent bootstrap authority".

(** A schema from 23 up is a retry schema. *)
Definition supported_schema (full_schema : N) : bool :=
  ((4 <=? full_schema)%N && (full_schema <=? 22)%N)
  || ((4 + RETRY_SCHEMA_OFFSET <=? full_schema)%N && (full_schema <=? 22 + RETRY_SCHEMA_OFFSET)%N).

(** The reader's monad: the state is what is left of the record. *)
Abbreviation Reader := (M (list string) string).

Section codec.
Context (sha256 : string → string).

Definition state_fields (schema : N) (r : OperationRequest) : list (string * string) :=
  if (5 <=? schema)%N then [("target_state", wire_str r.(target_state))] else [].

Definition capture_fields (schema : N) (r : OperationRequest) : Res (list (string * string)) :=
  if bootstrap_schema schema then
    policy ← ok_or r.(capture_policy)
      "operation request schema v6 requires capture policy authority";
    digest ← canonical_sha256 sha256 policy;
    mret [("capture_policy", wire_str policy); ("capture_policy_sha256", digest)]
  else mret [].

Definition request_fields (schema : N) (r : OperationRequest) : Res (list (string * string)) :=
  capture ← capture_fields schema r;
  mret (head_fields r ++ state_fields schema r ++ capture ++ route_fields r ++ tuning_fields r
        ++ policy_fields schema r ++ budget_fields r ++ plan_fields r
        ++ mask_fields r ++ ifindex_fields r ++ dns_fields r)%list.

Definition encode_for_schema (full_schema : N) (r : OperationRequest) : Res string :=
  fail_if (negb (supported_schema full_schema)) "unsupported operation request schema" ≫= λ _,
  let retry_schema := (22 <? full_schema)%N in
  fail_if (negb (Bool.eqb retry_schema (is_some r.(server_failure_retries))))
    "request server retry encoding downgrade or mismatch" ≫= λ _,
  let schema := if retry_schema then (full_schema - RETRY_SCHEMA_OFFSET)%N else full_schema in
  check_schema schema r ≫= λ _,
  fields ← request_fields schema r;
  match r.(server_failure_retries) with
  | Some retries =>
      encode_record (retry_request_header full_schema)
        (fields ++ [("server_failure_retries", show retries)])%list
  | None => header ← legacy_request_header schema; encode_record header fields
  end.

Definition request_encode (r : OperationRequest) : Res string :=
  let legacy := encode_legacy_schema r in
  encode_for_schema (if is_some r.(server_failure_retries)
                     then legacy + RETRY_SCHEMA_OFFSET else legacy)%N r.

(** ** Decoding: the reader's state is what is left of the record *)

Definition read_enum {A} `{WireName A} (key error : string) : Reader A :=
  text ← RecordReader.field key; lift (ok_or (wire_parse text) error).
Definition read_optional_enum {A} `{WireName A} (key name : string) : Reader (option A) :=
  text ← RecordReader.field key; lift (parse_optional_enum text wire_parse name).
Definition read_optional {A} (parse : string → option A) (key : string) : Reader (option A) :=
  text ← RecordReader.field key; lift (optional_parsed parse key text).
Definition read_u64 (key : string) : Reader N :=
  text ← RecordReader.field key; lift (parse_u64 key text).
Definition read_number_as (max : N) (key error : string) : Reader N :=
  text ← RecordReader.field key; lift (ok_or (parse_uint max text) error).
Definition read_bool (key : string) : Reader bool :=
  text ← RecordReader.field key; lift (parse_bool text).
Definition read_optional_string (key : string) : Reader (option string) :=
  text ← RecordReader.field key; mret (optional_string text).


Definition read_head : Reader (OperationIdentity * N * N * OperationOrigin * string
    * option SpeedtestDirection * option N * option SpeedtestTopology) :=
  job_id ← RecordReader.field "job_id";
  job_token ← RecordReader.field "job_token";
  created ← read_u64 "created_unix_ms";
  deadline ← read_u64 "deadline_unix_ms";
  instance ← RecordReader.field "instance";
  operation ← read_enum "operation" "unsupported operation";
  origin ← read_enum "origin" "unsupported operation origin";
  backend ← RecordReader.field "backend";
  direction ← read_optional_enum "speedtest_direction" "speed-test direction";
  server_id ← read_optional str_parse_u64 "speedtest_server_id";
  topology ← read_optional_enum "speedtest_topology" "speed-test topology";
  target_interface ← RecordReader.field "target_interface";
  mret ({| job_id := job_id; job_token := job_token; instance := instance;
           operation := operation; target_interface := target_interface;
           route_fingerprint := ""; config_fingerprint := ""; sqm_fingerprint := "" |},
        created, deadline, origin, backend, direction, server_id, topology).

Definition read_target_state (schema : N) : Reader OperationTargetState :=
  if (5 <=? schema)%N then read_enum "target_state" "unsupported operation target state"
  else mret ExistingManaged.

Definition read_capture_policy (schema : N) : Reader (option AutotuneCapturePolicyId) :=
  if bootstrap_schema schema then
    policy ← read_enum "capture_policy" "unsupported Auto-Tune capture policy";
    digest ← RecordReader.field "capture_policy_sha256";
    expected ← lift (canonical_sha256 sha256 policy);
    lift (fail_if (negb (String.eqb digest expected))
      "Auto-Tune capture policy digest mismatch") ≫= λ _,
    mret (Some policy)
  else mret None.

Definition read_route : Reader (option string * OperationRouteMode * option string * string
    * option IpAddr * option N * option N * string * string * string) :=
  section ← read_optional_string "managed_sqm_section";
  mode ← read_enum "route_mode" "unsupported route mode";
  member ← read_optional_string "mwan3_member";
  l3_device ← RecordReader.field "l3_device";
  source_ip ← read_optional parse_ip "source_ip";
  fwmark ← read_optional (parse_uint u32_max) "fwmark";
  routing_table ← read_optional (parse_uint u32_max) "routing_table";
  route_fp ← RecordReader.field "route_fingerprint";
  config_fp ← RecordReader.field "config_fingerprint";
  sqm_fp ← RecordReader.field "sqm_fingerprint";
  mret (section, mode, member, l3_device, source_ip, fwmark, routing_table,
        route_fp, config_fp, sqm_fp).

Definition read_tuning : Reader (option AutotuneProfile * option CalibrationStrategy
    * option AccessMedium * option AccessEvidenceSource * N * option CapacityLearningPolicy
    * option N * option N * bool * bool * bool) :=
  profile ← read_optional_enum "profile" "Auto-Tune profile";
  strategy ← read_optional_enum "strategy" "calibration strategy";
  medium ← read_optional_enum "access_medium" "access medium";
  source ← read_optional_enum "access_source" "access source";
  confidence ← read_number_as 255 "access_confidence_percent" "invalid access confidence";
  policy ← read_optional_enum "capacity_learning_policy" "capacity learning policy";
  dl_cap ← read_optional str_parse_u64 "service_dl_cap_kbps";
  ul_cap ← read_optional str_parse_u64 "service_ul_cap_kbps";
  sqm_disable ← read_bool "allow_sqm_disable";
  active_traffic ← read_bool "allow_active_traffic";
  auto_apply ← read_bool "scheduled_auto_apply_requested";
  mret (profile, strategy, medium, source, confidence, policy, dl_cap, ul_cap,
        sqm_disable, active_traffic, auto_apply).

Definition read_traffic_policy (schema : N) : Reader string :=
  if (7 <=? schema)%N then RecordReader.field "traffic_policy" else mret "capped".

Definition parse_budget (policy budget_value : string) : Res TrafficPolicy :=
  if String.eqb policy "capped" then
    limit ← parse_u64 "traffic_budget_bytes" budget_value; mret (Capped limit)
  else if String.eqb policy "unlimited" && String.eqb budget_value "" then mret Unlimited
  else Err "invalid explicit traffic policy or conflicting byte limit".

Definition read_plan (schema : N) : Reader (option AutotuneTrafficPlan) :=
  if (9 <=? base_schema schema)%N then
    download ← read_u64 "planning_dl_kbps";
    upload ← read_u64 "planning_ul_kbps";
    mret (Some {| download_kbps := download; upload_kbps := upload |})
  else mret None.

Definition read_mask (schema : N) : Reader (option N) :=
  if (11 <=? schema)%N then
    mask ← read_number_as u32_max "fwmark_mask" "invalid route mark mask"; mret (Some mask)
  else mret None.

Definition read_explicit (schema : N) : Reader bool :=
  if (11 <=? schema)%N then read_bool "traffic_policy_explicit" else mret (7 <=? schema)%N.

Definition read_ifindex (schema : N) : Reader (option N) :=
  if (15 <=? schema)%N then
    index ← read_number_as u32_max "device_ifindex" "invalid route link index"; mret (Some index)
  else mret None.

Definition read_dns (schema : N) : Reader (option Ipv4Addr) :=
  if (19 <=? schema)%N then
    text ← RecordReader.field "route_dns_ipv4";
    server ← lift (ok_or (parse_ipv4 text) "invalid route DNS server");
    mret (Some server)
  else mret None.

Definition read_request (schema : N) : Reader OperationRequest :=
  '(id, created, deadline, origin, backend, direction, server_id, topology) ← read_head;
  state ← read_target_state schema;
  policy ← read_capture_policy schema;
  '(section, mode, member, l3_device, source_ip, fwmark, table, route_fp, config_fp, sqm_fp)
    ← read_route;
  '(profile, strategy, medium, source, confidence, learning, dl_cap, ul_cap, sqm_disable,
    active_traffic, auto_apply) ← read_tuning;
  traffic_policy ← read_traffic_policy schema;
  budget_value ← RecordReader.field "traffic_budget_bytes";
  budget ← lift (parse_budget traffic_policy budget_value);
  plan ← read_plan schema;
  mask ← read_mask schema;
  explicit ← read_explicit schema;
  ifindex ← read_ifindex schema;
  dns ← read_dns schema;
  RecordReader.finish ≫= λ _,
  mret {|
    identity := {| job_id := id.(job_id); job_token := id.(job_token);
                   instance := id.(instance); operation := id.(operation);
                   target_interface := id.(target_interface);
                   route_fingerprint := route_fp; config_fingerprint := config_fp;
                   sqm_fingerprint := sqm_fp |};
    created_unix_ms := created; deadline_unix_ms := deadline; origin := origin;
    backend := backend; speedtest_direction := direction; speedtest_server_id := server_id;
    speedtest_topology := topology;
    route := {| dns_server := dns; device_ifindex := ifindex; mode := mode;
                mwan3_member := member; l3_device := l3_device; source_ip := source_ip;
                fwmark := fwmark; routing_table := table; fwmark_mask := mask |};
    target_state := state; capture_policy := policy; managed_sqm_section := section;
    profile := profile; strategy := strategy; access_medium := medium;
    access_source := source; access_confidence_percent := confidence;
    capacity_learning_policy := learning; service_dl_cap_kbps := dl_cap;
    service_ul_cap_kbps := ul_cap; allow_sqm_disable := sqm_disable;
    allow_active_traffic := active_traffic; scheduled_auto_apply_requested := auto_apply;
    traffic_budget := budget; traffic_policy_explicit := explicit; traffic_plan := plan;
    server_failure_retries := None |}.

(** The branch of [decode] for schemas 4 to 22. *)
Definition decode_legacy (input : string) : Res OperationRequest :=
  schema ← header_schema (head (lines input));
  header ← legacy_request_header schema;
  reader ← RecordReader.new input header;
  request ← (read_request schema reader).1;
  request_validate request ≫= λ _,
  encoded ← encode_for_schema schema request;
  fail_if (negb (String.eqb encoded input)) "operation request is not canonically encoded" ≫= λ _,
  mret request.

(** The first schema of 23..=41 whose header is the first line. *)
Definition retry_schema (first_line : option string) : option N :=
  first_line ≫= λ line,
  List.find (λ schema, String.eqb line (retry_request_header schema))
    ((λ k, 4 + RETRY_SCHEMA_OFFSET + N.of_nat k)%N <$> seq 0 19).

(** [rest.iter().rposition(|line| !line.is_empty())] *)
Fixpoint last_nonempty (l : list string) : option nat :=
  match l with
  | [] => None
  | s :: l => match last_nonempty l with
              | Some i => Some (S i)
              | None => if String.eqb s "" then None else Some 0
              end
  end.

Definition with_retries (r : OperationRequest) (retries : option N) : OperationRequest := {|
  identity := r.(identity); created_unix_ms := r.(created_unix_ms);
  deadline_unix_ms := r.(deadline_unix_ms); origin := r.(origin); backend := r.(backend);
  speedtest_direction := r.(speedtest_direction); speedtest_server_id := r.(speedtest_server_id);
  speedtest_topology := r.(speedtest_topology); route := r.(route);
  target_state := r.(target_state); capture_policy := r.(capture_policy);
  managed_sqm_section := r.(managed_sqm_section); profile := r.(profile);
  strategy := r.(strategy); access_medium := r.(access_medium);
  access_source := r.(access_source); access_confidence_percent := r.(access_confidence_percent);
  capacity_learning_policy := r.(capacity_learning_policy);
  service_dl_cap_kbps := r.(service_dl_cap_kbps); service_ul_cap_kbps := r.(service_ul_cap_kbps);
  allow_sqm_disable := r.(allow_sqm_disable); allow_active_traffic := r.(allow_active_traffic);
  scheduled_auto_apply_requested := r.(scheduled_auto_apply_requested);
  traffic_budget := r.(traffic_budget); traffic_policy_explicit := r.(traffic_policy_explicit);
  traffic_plan := r.(traffic_plan); server_failure_retries := retries |}.

(** The record of the schema 19 below, without the retries line. *)
Definition legacy_text (header : string) (lines : list string) (terminated : bool) : string :=
  header +:+ foldr (λ line text, String nl (line +:+ text))
                   (if terminated then str1 nl else "") lines.

(** The branch of [decode] for schemas 23 to 41; [decode] is the recursive call. *)
Definition decode_retry (decode : string → Res OperationRequest) (full_schema : N)
    (input : string) : Res OperationRequest :=
  let legacy := (full_schema - RETRY_SCHEMA_OFFSET)%N in
  let rest := tail (lines input) in
  last ← ok_or (last_nonempty rest) "operation request is empty";
  retries ← ok_or (rest !! last ≫= strip_prefix "server_failure_retries=")
    "operation request server retries field missing";
  fail_if (String.eqb retries "" || (2 <? len retries)%N
           || negb (all_bytes is_ascii_digit retries))
    "invalid server failure retries" ≫= λ _,
  retries ← ok_or (str_parse_u8 retries) "invalid server failure retries";
  header ← legacy_request_header legacy;
  request ← decode (legacy_text header (take last rest ++ drop (S last) rest)%list
                      (ends_with_char nl input));
  let request := with_retries request (Some retries) in
  request_validate request ≫= λ _,
  encoded ← encode_for_schema full_schema request;
  fail_if (negb (String.eqb encoded input)) "operation request is not canonical" ≫= λ _,
  mret request.

Definition decode_step (decode : string → Res OperationRequest) (input : string)
    : Res OperationRequest :=
  match retry_schema (head (lines input)) with
  | Some full_schema => decode_retry decode full_schema input
  | None => decode_legacy input
  end.

(** The recursion is one level deep: the inner text has a legacy header. *)
Fixpoint decode_fuel (fuel : nat) (input : string) : Res OperationRequest :=
  match fuel with
  | O => Err "recursion limit"
  | S fuel => decode_step (decode_fuel fuel) input
  end.

Definition request_decode (input : string) : Res OperationRequest := decode_fuel 2 input.
End codec.
