(* ===== verification/OperationRoundtrip.v ===== *)
(** * The operation record round trips

    Theorems about [OperationCodec.v]: every valid request can be encoded, what
    was encoded is decoded to the same request, and a record that decodes is
    the one text its request has (up to the public schema 4). *)

From S2P Require Import Prelude RustStr SchedRecord PercentRecord Vocabulary RustNet CapturePolicy OperationRequest OperationCodec.
Local Open Scope string_scope.

(** ** Requests whose numbers fit the fields' widths *)

Definition opt_P {A} (P : A → Prop) (o : option A) : Prop := ∀ a, o = Some a → P a.

Record request_typed (r : OperationRequest) : Prop := {
  typed_created : is_u64 r.(created_unix_ms);
  typed_deadline : is_u64 r.(deadline_unix_ms);
  typed_server_id : opt_P is_u64 r.(speedtest_server_id);
  typed_source : opt_P ip_ok r.(route).(source_ip);
  typed_fwmark : opt_P is_u32 r.(route).(fwmark);
  typed_table : opt_P is_u32 r.(route).(routing_table);
  typed_mask : opt_P is_u32 r.(route).(fwmark_mask);
  typed_ifindex : opt_P is_u32 r.(route).(device_ifindex);
  typed_dns : opt_P ipv4_ok r.(route).(dns_server);
  typed_confidence : (r.(access_confidence_percent) ≤ 255)%N;
  typed_dl_cap : opt_P is_u64 r.(service_dl_cap_kbps);
  typed_ul_cap : opt_P is_u64 r.(service_ul_cap_kbps);
  typed_budget : opt_P is_u64 (limit_bytes r.(traffic_budget));
  typed_plan : opt_P (λ p, is_u64 p.(download_kbps) ∧ is_u64 p.(upload_kbps)) r.(traffic_plan);
  typed_retries : opt_P (λ n, (n ≤ 255)%N) r.(server_failure_retries);
}.

(** ** Field values *)

Lemma wire_val_ok {A} `{WireName A} (a : A) : val_ok 20 (wire_str a).
Proof.
  split; [| by apply N.leb_le, wire_short].
  pose proof (wire_plain a) as Hp. by apply andb_true_iff in Hp as [_ Hp].
Qed.

Lemma opt_text_ok {A} `{WireName A} (o : option A) : val_ok 20 (opt_text o).
Proof. destruct o; [apply wire_val_ok | by vm_compute]. Qed.

Lemma opt_show_ok o : opt_P is_u64 o → val_ok 20 (opt_show o).
Proof. intros H. destruct o; [by apply show_val_ok, H | by vm_compute]. Qed.

Lemma opt_show_u32_ok o : opt_P is_u32 o → val_ok 20 (opt_show o).
Proof. intros H. apply opt_show_ok. intros a Ha. by apply is_u32_u64, H. Qed.

Lemma default_ok o : opt_ok o → val_ok 64 (default "" o).
Proof. intros H. destruct o as [s |]; [by destruct (H s) | by vm_compute]. Qed.

Lemma show_ip_ok o :
  opt_P ip_ok o → val_ok 45 (match o with Some a => show_ip a | None => "" end).
Proof.
  intros H. destruct o; [| by vm_compute].
  split; [apply show_ip_printable | by apply show_ip_len, H].
Qed.

Lemma show_ipv4_ok a : ipv4_ok a → val_ok 45 (show_ipv4 a).
Proof. intros H. split; [apply show_ipv4_printable | apply show_ipv4_len in H; lia]. Qed.

Lemma show_small_ok n : (n ≤ 255)%N → val_ok 20 (show n).
Proof. intros H. apply show_val_ok. unfold is_u64, u64_max. lia. Qed.

Create HintDb wire.
#[export] Hint Resolve wire_val_ok opt_text_ok opt_show_ok opt_show_u32_ok default_ok show_ip_ok
  show_ipv4_ok show_val_ok show_small_ok bool_text_ok is_u32_u64 : wire.

(** Proves that a list of fields can be written, value by value. *)
Ltac good_tac ms :=
  apply (good_part ms);
  [ reflexivity | cbn [fmap list_fmap snd]; repeat match goal with |- Forall2 _ _ _ => constructor end; cbn [snd];
    auto with wire | reflexivity ].

Lemma head_good r : request_typed r → request_strings_ok r → good 1600 (head_fields r).
Proof.
  intros [] []. good_tac [64; 64; 20; 20; 64; 20; 20; 64; 20; 20; 20; 64]%N.
Qed.

Lemma route_good r : request_typed r → request_strings_ok r → good 1700 (route_fields r).
Proof.
  intros [] []. good_tac [64; 20; 64; 64; 45; 20; 20; 64; 64; 64]%N.
Qed.

Lemma tuning_good r : request_typed r → good 750 (tuning_fields r).
Proof.
  intros []. good_tac [20; 20; 20; 20; 20; 20; 20; 20; 1; 1; 1]%N.
Qed.

Lemma policy_name_ok p : val_ok 20 (policy_name p).
Proof. by destruct p; vm_compute. Qed.

Lemma optional_good schema r :
  request_typed r →
  good 110 (policy_fields schema r) ∧ good 90 (budget_fields r) ∧ good 160 (plan_fields r)
  ∧ good 110 (mask_fields r) ∧ good 80 (ifindex_fields r) ∧ good 160 (dns_fields r).
Proof.
  intros []. unfold policy_fields, budget_fields, plan_fields, mask_fields, ifindex_fields,
    dns_fields. split_and!.
  - destruct (7 <=? schema)%N; [| apply good_nil]. good_tac [20]%N. apply policy_name_ok.
  - good_tac [20]%N.
  - destruct (traffic_plan r) as [plan |]; [| apply good_nil].
    destruct (typed_plan0 plan eq_refl). good_tac [20; 20]%N.
  - destruct (fwmark_mask (route r)) as [mask |]; [| apply good_nil].
    pose proof (typed_mask0 mask eq_refl). good_tac [20; 1]%N.
  - destruct (device_ifindex (route r)) as [index |]; [| apply good_nil].
    pose proof (typed_ifindex0 index eq_refl). good_tac [20]%N.
  - destruct (dns_server (route r)) as [server |]; [| apply good_nil].
    pose proof (typed_dns0 server eq_refl). good_tac [45]%N.
Qed.

(** ** Reading each kind of field *)

Section reading.
Context {B : Type}.
Implicit Types rest : list string.

Lemma read_enum_step {A} `{WireName A} k e (a : A) rest (f : A → Reader B) :
  key_ok k = true → (read_enum k e ≫= f) (wire_line (k, wire_str a) :: rest) = f a rest.
Proof.
  intros Hk. apply part_step. unfold read_enum.
  rewrite reader_field_step by (done || eapply val_ok_clean, wire_val_ok).
  by rewrite wire_parse_str.
Qed.

Lemma wire_str_nonempty {A} `{WireName A} (a : A) : String.eqb (wire_str a) "" = false.
Proof. pose proof (wire_plain a) as H'. by apply andb_true_iff in H' as [->%negb_true_iff _]. Qed.

Lemma read_optional_enum_step {A} `{WireName A} k n (o : option A) rest (f : option A → Reader B) :
  key_ok k = true → (read_optional_enum k n ≫= f) (wire_line (k, opt_text o) :: rest) = f o rest.
Proof.
  intros Hk. apply part_step. unfold read_optional_enum.
  rewrite reader_field_step by (done || eapply val_ok_clean, opt_text_ok).
  unfold parse_optional_enum. destruct o as [a |]; [| done]. cbn [opt_text].
  by rewrite wire_str_nonempty, wire_parse_str.
Qed.

(** A printed optional value, for any type with a parser. *)
Lemma read_optional_step {A} (parse : string → option A) (print : A → string) k m o rest
    (f : option A → Reader B) :
  key_ok k = true →
  (∀ a, o = Some a → parse (print a) = Some a ∧ String.eqb (print a) "" = false
                     ∧ val_ok m (print a)) →
  (read_optional parse k ≫= f)
    (wire_line (k, match o with Some a => print a | None => "" end) :: rest) = f o rest.
Proof.
  intros Hk Ho. apply part_step. unfold read_optional. destruct o as [a |].
  - destruct (Ho a) as (Hp & He & Hv); [done |].
    rewrite reader_field_step by (done || by eapply val_ok_clean).
    unfold optional_parsed. by rewrite He, Hp.
  - by rewrite reader_field_step.
Qed.

Lemma read_optional_num_step max k o rest (f : option N → Reader B) :
  key_ok k = true → (max ≤ u64_max)%N → opt_P (λ n, n ≤ max)%N o →
  (read_optional (parse_uint max) k ≫= f) (wire_line (k, opt_show o) :: rest) = f o rest.
Proof.
  intros Hk Hm Ho. apply (read_optional_step _ show k 20); [done |].
  intros n ->. split_and!; [by apply parse_uint_show, Ho | apply show_nonempty |].
  apply show_val_ok. unfold is_u64. pose proof (Ho n eq_refl) as Hn. cbv beta in Hn. lia.
Qed.

Lemma read_u64_step k n rest (f : N → Reader B) :
  key_ok k = true → is_u64 n → (read_u64 k ≫= f) (wire_line (k, show n) :: rest) = f n rest.
Proof.
  intros Hk Hn. apply part_step. unfold read_u64.
  rewrite reader_field_step by (done || by eapply val_ok_clean, show_val_ok).
  unfold parse_u64, str_parse_u64. by rewrite parse_uint_show.
Qed.

Lemma read_number_as_step max k e n rest (f : N → Reader B) :
  key_ok k = true → (n ≤ max)%N → (max ≤ u64_max)%N →
  (read_number_as max k e ≫= f) (wire_line (k, show n) :: rest) = f n rest.
Proof.
  intros Hk Hn Hm. apply part_step. unfold read_number_as.
  rewrite reader_field_step by
    (done || (eapply val_ok_clean, show_val_ok; unfold is_u64; lia)).
  by rewrite parse_uint_show.
Qed.

Lemma read_bool_step k b rest (f : bool → Reader B) :
  key_ok k = true → (read_bool k ≫= f) (wire_line (k, bool_text b) :: rest) = f b rest.
Proof.
  intros Hk. apply part_step. unfold read_bool.
  rewrite reader_field_step by (done || eapply val_ok_clean, bool_text_ok).
  by rewrite parse_bool_text.
Qed.

Lemma read_optional_string_step k o rest (f : option string → Reader B) :
  key_ok k = true → opt_ok o →
  (read_optional_string k ≫= f) (wire_line (k, default "" o) :: rest) = f o rest.
Proof.
  intros Hk Ho. apply part_step. unfold read_optional_string.
  rewrite reader_field_step by (done || by eapply val_ok_clean, default_ok).
  destruct o as [s |]; [| done]. destruct (Ho s) as [Hs _]; [done |].
  cbn. unfold optional_string. by destruct (String.eqb_spec s "").
Qed.
End reading.

(** One field: dispatches on the reader at the head of the goal. *)
Ltac step_field :=
  first
  [ rewrite reader_field_step by (done || by eapply val_ok_clean; eauto with wire)
  | rewrite read_enum_step by done
  | rewrite read_optional_enum_step by done
  | rewrite read_u64_step by done
  | rewrite read_bool_step by done
  | rewrite read_optional_string_step by done
  | rewrite read_number_as_step by done
  | rewrite read_optional_num_step by done ].

(** ** Reading each part *)

Section parts.
Context (sha256 : string → string) (r : OperationRequest).
Context (Ht : request_typed r) (Hs : request_strings_ok r).
Implicit Types rest : list string.

Definition head_value :=
  ({| job_id := r.(identity).(job_id); job_token := r.(identity).(job_token);
      instance := r.(identity).(instance); operation := r.(identity).(operation);
      target_interface := r.(identity).(target_interface);
      route_fingerprint := ""; config_fingerprint := ""; sqm_fingerprint := "" |},
   r.(created_unix_ms), r.(deadline_unix_ms), r.(origin), r.(backend),
   r.(speedtest_direction), r.(speedtest_server_id), r.(speedtest_topology)).

Lemma read_head_ok rest :
  read_head ((wire_line <$> head_fields r) ++ rest)%list = (Ok head_value, rest).
Proof.
  destruct Ht, Hs. unfold read_head, head_fields. cbn [fmap list_fmap app].
  unfold str_parse_u64. repeat step_field. done.
Qed.

Definition route_value :=
  (r.(managed_sqm_section), r.(route).(mode), r.(route).(mwan3_member), r.(route).(l3_device),
   r.(route).(source_ip), r.(route).(fwmark), r.(route).(routing_table),
   r.(identity).(route_fingerprint), r.(identity).(config_fingerprint),
   r.(identity).(sqm_fingerprint)).

Lemma read_source_step {B} rest (f : option IpAddr → Reader B) :
  (read_optional parse_ip "source_ip" ≫= f)
    (wire_line ("source_ip", match r.(route).(source_ip) with
                             | Some a => show_ip a | None => "" end) :: rest)
  = f r.(route).(source_ip) rest.
Proof.
  apply (read_optional_step parse_ip show_ip _ 45); [done |].
  intros a Ha. assert (ip_ok a) by (by apply Ht). split_and!.
  - by apply parse_ip_show.
  - by apply show_ip_nonempty.
  - split; [apply show_ip_printable | by apply show_ip_len].
Qed.

Lemma read_route_ok rest :
  read_route ((wire_line <$> route_fields r) ++ rest)%list = (Ok route_value, rest).
Proof.
  unfold read_route, route_fields. cbn [fmap list_fmap app]. pose proof Hs as [].
  step_field. step_field. step_field. step_field. rewrite read_source_step.
  destruct Ht. repeat step_field. done.
Qed.

Definition tuning_value :=
  (r.(profile), r.(strategy), r.(access_medium), r.(access_source),
   r.(access_confidence_percent), r.(capacity_learning_policy), r.(service_dl_cap_kbps),
   r.(service_ul_cap_kbps), r.(allow_sqm_disable), r.(allow_active_traffic),
   r.(scheduled_auto_apply_requested)).

Lemma read_tuning_ok rest :
  read_tuning ((wire_line <$> tuning_fields r) ++ rest)%list = (Ok tuning_value, rest).
Proof.
  destruct Ht. unfold read_tuning, tuning_fields. cbn [fmap list_fmap app].
  unfold str_parse_u64. repeat step_field. done.
Qed.

(** What [check_schema] establishes about the optional parts. *)
Record schema_fits (schema : N) : Prop := {
  fit_low : (4 ≤ schema)%N;
  fit_plan : (9 <=? base_schema schema)%N = is_some r.(traffic_plan);
  fit_mask : (11 <=? schema)%N = is_some r.(route).(fwmark_mask);
  fit_link : (15 <=? schema)%N = is_some r.(route).(device_ifindex);
  fit_dns : (19 <=? schema)%N = is_some r.(route).(dns_server);
  fit_explicit : (schema < 11)%N → (7 <=? schema)%N = r.(traffic_policy_explicit);
  fit_state : r.(target_state) = if bootstrap_schema schema then AbsentBootstrap
                                 else ExistingManaged;
  fit_policy : bootstrap_schema schema = false → r.(capture_policy) = None;
  fit_budget : r.(traffic_budget) = Unlimited → r.(traffic_policy_explicit) = true;
}.

Lemma low_schema_managed schema :
  (4 ≤ schema)%N → (schema < 5)%N → bootstrap_schema schema = false.
Proof. intros. by replace schema with 4%N by lia. Qed.

Lemma read_target_state_ok schema rest :
  schema_fits schema →
  read_target_state schema ((wire_line <$> state_fields schema r) ++ rest)%list
    = (Ok r.(target_state), rest).
Proof.
  intros Hfit. unfold read_target_state, state_fields. destruct (N.leb_spec 5 schema).
  - cbn [fmap list_fmap app]. unfold read_enum.
    by rewrite reader_field_step, wire_parse_str by (done || eapply val_ok_clean, wire_val_ok).
  - rewrite (fit_state _ Hfit), low_schema_managed; [done | apply Hfit | done].
Qed.

Lemma read_capture_policy_ok schema fields rest :
  schema_fits schema → capture_fields sha256 schema r = Ok fields →
  read_capture_policy sha256 schema ((wire_line <$> fields) ++ rest)%list
    = (Ok r.(capture_policy), rest).
Proof.
  intros Hfit Hf. unfold capture_fields, read_capture_policy in *.
  pose proof (fit_policy _ Hfit) as Hp. destruct (bootstrap_schema schema).
  - unbind. subst fields. rewrite Ha. cbn [fmap list_fmap app].
    rewrite read_enum_step by done.
    destruct (canonical_sha256_ok sha256 a) as [d Hd]. rewrite Hd in *. injection Ha0 as <-.
    rewrite reader_field_step by (done || apply clean_printable, hex_text_printable).
    by rewrite lift_step, String.eqb_refl.
  - injection Hf as <-. by rewrite Hp.
Qed.

(** The policy word is absent below schema 7, where the budget is capped. *)
Lemma read_budget_ok {B} schema rest (f : TrafficPolicy → Reader B) :
  schema_fits schema →
  (traffic_policy ← read_traffic_policy schema;
   budget_value ← RecordReader.field "traffic_budget_bytes";
   budget ← lift (parse_budget traffic_policy budget_value); f budget)
    ((wire_line <$> policy_fields schema r) ++ (wire_line <$> budget_fields r) ++ rest)%list
  = f r.(traffic_budget) rest.
Proof.
  intros Hfit. unfold read_traffic_policy, policy_fields, budget_fields.
  assert (Hb : val_ok 20 (opt_show (limit_bytes (traffic_budget r)))) by apply opt_show_ok, Ht.
  assert (Hp : ∀ rest', (budget_value ← RecordReader.field "traffic_budget_bytes";
    budget ← lift (parse_budget (policy_name (traffic_budget r)) budget_value); f budget)
    (wire_line ("traffic_budget_bytes", opt_show (limit_bytes (traffic_budget r))) :: rest')
    = f (traffic_budget r) rest').
  { intros rest'. rewrite reader_field_step by (done || by eapply val_ok_clean).
    pose proof (typed_budget _ Ht) as Hu. destruct (traffic_budget r) as [limit |]; [| done].
    unfold parse_budget, parse_u64, str_parse_u64. cbn [policy_name String.eqb limit_bytes opt_show].
    by rewrite parse_uint_show by (by apply Hu). }
  destruct (N.leb_spec 7 schema); cbn [fmap list_fmap app].
  - rewrite reader_field_step by (done || eapply val_ok_clean, policy_name_ok). apply Hp.
  - rewrite <- Hp. destruct (traffic_budget r) eqn:E; [done |].
    pose proof (fit_budget _ Hfit E). pose proof (fit_explicit _ Hfit ltac:(lia)) as He.
    destruct (N.leb_spec 7 schema); [lia | congruence].
Qed.

Lemma read_plan_ok schema rest :
  schema_fits schema →
  read_plan schema ((wire_line <$> plan_fields r) ++ rest)%list = (Ok r.(traffic_plan), rest).
Proof.
  intros Hfit. unfold read_plan, plan_fields. rewrite (fit_plan _ Hfit).
  pose proof (typed_plan _ Ht) as Hp. destruct (traffic_plan r) as [plan |]; [| done].
  destruct (Hp plan eq_refl). cbn [fmap list_fmap app is_some].
  repeat step_field. by destruct plan.
Qed.

Lemma read_mask_explicit_ok {B} schema rest (f : option N → bool → Reader B) :
  schema_fits schema →
  (mask ← read_mask schema; explicit ← read_explicit schema; f mask explicit)
    ((wire_line <$> mask_fields r) ++ rest)%list
  = f r.(route).(fwmark_mask) r.(traffic_policy_explicit) rest.
Proof.
  intros Hfit. unfold read_mask, read_explicit, mask_fields.
  pose proof (fit_mask _ Hfit) as Hm. pose proof (typed_mask _ Ht) as Hp.
  destruct (fwmark_mask (route r)) as [mask |]; cbn [is_some] in Hm; rewrite Hm.
  - specialize (Hp mask eq_refl). cbn [fmap list_fmap app].
    erewrite part_step; [| by step_field]. by step_field.
  - apply N.leb_gt in Hm. by rewrite (fit_explicit _ Hfit).
Qed.

Lemma read_ifindex_ok schema rest :
  schema_fits schema →
  read_ifindex schema ((wire_line <$> ifindex_fields r) ++ rest)%list
    = (Ok r.(route).(device_ifindex), rest).
Proof.
  intros Hfit. unfold read_ifindex, ifindex_fields. rewrite (fit_link _ Hfit).
  pose proof (typed_ifindex _ Ht) as Hp. destruct (device_ifindex (route r)) as [i |]; [| done].
  specialize (Hp i eq_refl). cbn [fmap list_fmap app is_some]. by step_field.
Qed.

Lemma read_dns_ok schema rest :
  schema_fits schema →
  read_dns schema ((wire_line <$> dns_fields r) ++ rest)%list = (Ok r.(route).(dns_server), rest).
Proof.
  intros Hfit. unfold read_dns, dns_fields. rewrite (fit_dns _ Hfit).
  pose proof (typed_dns _ Ht) as Hp. destruct (dns_server (route r)) as [a |]; [| done].
  specialize (Hp a eq_refl). cbn [fmap list_fmap app is_some].
  rewrite reader_field_step by (done || by eapply val_ok_clean, show_ipv4_ok).
  by rewrite parse_ipv4_show.
Qed.

(** The whole record reads back, without the retries, which are not in it. *)
Lemma read_request_ok schema fields :
  schema_fits schema → request_fields sha256 schema r = Ok fields →
  read_request sha256 schema ((wire_line <$> fields) ++ [""])%list
    = (Ok (with_retries r None), []).
Proof.
  intros Hfit Hf. unfold request_fields in Hf. apply bind_ok_inv in Hf as (capture & Hc & Hf).
  apply ret_ok_inv in Hf as <-. rewrite !fmap_app, <- !app_assoc. unfold read_request.
  erewrite part_step by apply read_head_ok. unfold head_value at 1.
  erewrite part_step by (by apply read_target_state_ok).
  erewrite part_step by (by eapply read_capture_policy_ok).
  erewrite part_step by apply read_route_ok. unfold route_value at 1.
  erewrite part_step by apply read_tuning_ok. unfold tuning_value at 1.
  rewrite read_budget_ok by done.
  erewrite part_step by (by apply read_plan_ok).
  rewrite read_mask_explicit_ok by done.
  erewrite part_step by (by apply read_ifindex_ok).
  erewrite part_step by (by apply read_dns_ok).
  cbn. unfold with_retries. repeat f_equal; by destruct r as [[] ? ? ? ? ? ? ? []].
Qed.
End parts.

(** ** Schemas *)

(** A fact about a legacy schema, checked on all nineteen. *)
Lemma schema_table_all (p : N → bool) schema :
  forallb p ((λ k, N.of_nat k) <$> seq 4 19) = true → (4 ≤ schema)%N → (schema ≤ 22)%N →
  p schema = true.
Proof.
  intros H Hlo Hhi. eapply forallb_forall in H; [exact H |].
  apply list_elem_of_In, list_elem_of_fmap. exists (N.to_nat schema).
  split; [by rewrite N2Nat.id | apply elem_of_seq; lia].
Qed.

Definition one_line (s : string) : bool := negb (contains nl s) && negb (contains cr s).

Definition header_row_ok (schema : N) : bool :=
  match legacy_request_header schema with
  | Ok h => bool_decide (header_schema (Some h) = Ok schema) && one_line h
            && bool_decide (retry_schema (Some h) = None) && (len h <=? 40)%N
  | Err _ => false
  end
  && (let h := retry_request_header (schema + RETRY_SCHEMA_OFFSET) in
      bool_decide (retry_schema (Some h) = Some (schema + RETRY_SCHEMA_OFFSET)%N)
      && one_line h && (len h <=? 40)%N).

Lemma header_row schema : (4 ≤ schema)%N → (schema ≤ 22)%N → header_row_ok schema = true.
Proof. apply schema_table_all. by vm_compute. Qed.

Lemma one_line_inv s : one_line s = true → contains nl s = false ∧ contains cr s = false.
Proof. by intros [?%negb_true_iff ?%negb_true_iff]%andb_true_iff. Qed.

Lemma legacy_header_ok schema :
  (4 ≤ schema)%N → (schema ≤ 22)%N →
  ∃ h, legacy_request_header schema = Ok h ∧ header_schema (Some h) = Ok schema
    ∧ retry_schema (Some h) = None ∧ contains nl h = false ∧ contains cr h = false
    ∧ (len h ≤ 40)%N.
Proof.
  intros Hlo Hhi. pose proof (header_row schema Hlo Hhi) as H. unfold header_row_ok in H.
  apply andb_true_iff in H as [H _]. destruct (legacy_request_header schema) as [h |]; [| done].
  reflect_bools.
  match goal with H : one_line _ = true |- _ => apply one_line_inv in H as [? ?] end. by exists h.
Qed.

Lemma retry_header_ok schema :
  (4 ≤ schema)%N → (schema ≤ 22)%N →
  let h := retry_request_header (schema + RETRY_SCHEMA_OFFSET) in
  retry_schema (Some h) = Some (schema + RETRY_SCHEMA_OFFSET)%N
  ∧ contains nl h = false ∧ contains cr h = false ∧ (len h ≤ 40)%N.
Proof.
  intros Hlo Hhi. pose proof (header_row schema Hlo Hhi) as H. unfold header_row_ok in H.
  apply andb_true_iff in H as [_ H]. cbv zeta in *. reflect_bools.
  match goal with H : one_line _ = true |- _ => apply one_line_inv in H as [? ?] end. by split_and!.
Qed.

Lemma eqb_ok (a b : bool) : negb (Bool.eqb a b) = false → a = b.
Proof. by intros H%negb_false_iff%Bool.eqb_prop. Qed.

Lemma validate_budget r u :
  request_validate r = Ok u → r.(traffic_budget) = Unlimited → r.(traffic_policy_explicit) = true.
Proof.
  unfold request_validate, validate_traffic. intros H Hb. unbind.
  rewrite bool_decide_true in * by done. reflect_bools. cbn in *.
  destruct (traffic_policy_explicit r); [done |]. discriminate.
Qed.

(** The guards of [encode_for_schema] hold. *)
Lemma check_schema_fits r schema u :
  (4 ≤ schema)%N → check_schema schema r = Ok u →
  request_validate r = Ok tt ∧ schema_fits r schema.
Proof.
  intros Hlo H. unfold check_schema in H. unbind.
  repeat match goal with x : unit |- _ => destruct x end.
  repeat match goal with H : negb (Bool.eqb _ _) = false |- _ => apply eqb_ok in H end.
  split; [done |]. constructor; try done.
  - intros Hs%N.ltb_lt. match goal with H : (_ <? 11)%N && _ = false |- _ => rewrite Hs in H end.
    by apply eqb_ok.
  - destruct (bootstrap_schema schema); cbn in *; reflect_bools; done.
  - intros Hb. rewrite Hb in *. cbn in *. by apply is_some_false.
  - by eapply validate_budget.
Qed.

(** The schema of a request is unique, up to the public schema 4. *)
Lemma schema_unique r schema :
  (schema ≤ 22)%N → schema_fits r schema →
  encode_legacy_schema r = schema ∨ schema = 4%N ∧ encode_legacy_schema r = 5%N.
Proof.
  intros Hhi [Hlo Hplan Hmask Hlink Hdns Hexp Hstate _ _].
  unfold encode_legacy_schema. rewrite <- Hplan, <- Hmask, <- Hlink, <- Hdns, Hstate.
  assert (Hx : (schema <? 11)%N = true → traffic_policy_explicit r = (7 <=? schema)%N)
    by (intros ?%N.ltb_lt; symmetry; auto).
  clear -Hlo Hhi Hx.
  assert (∃ k, k ∈ seq 4 19 ∧ schema = N.of_nat k) as (k & Hk & ->).
  { exists (N.to_nat schema). rewrite elem_of_seq. split; lia. }
  clear Hlo Hhi. cbn [seq] in Hk.
  repeat (apply elem_of_cons in Hk as [-> | Hk];
    [solve [vm_compute in Hx |- *; try rewrite Hx by done; auto] |]).
  by inversion Hk.
Qed.

(** ** The fields of a checked request *)

Section fields.
Context (sha256 : string → string).

Lemma request_fields_keys r schema fields :
  request_fields sha256 schema r = Ok fields → keys_ok fields = true.
Proof.
  unfold request_fields, capture_fields. intros H.
  apply bind_ok_inv in H as (capture & Hc & H). apply ret_ok_inv in H as <-.
  assert (keys_ok capture = true).
  { destruct (bootstrap_schema schema); unbind; by subst. }
  unfold keys_ok in *. rewrite !forallb_app. rewrite H.
  unfold state_fields, policy_fields, plan_fields, mask_fields, ifindex_fields, dns_fields.
  by destruct (5 <=? schema)%N, (7 <=? schema)%N, (traffic_plan r), (fwmark_mask (route r)),
    (device_ifindex (route r)), (dns_server (route r)).
Qed.

Lemma capture_fields_total r schema :
  (∀ s, len (sha256 s) = 32%N) →
  (bootstrap_schema schema = true → is_some r.(capture_policy) = true) →
  ∃ fields, capture_fields sha256 schema r = Ok fields ∧ good 400 fields.
Proof.
  intros Hsha Hp. unfold capture_fields. destruct (bootstrap_schema schema).
  - destruct (capture_policy r) as [policy |]; [| by specialize (Hp eq_refl)].
    destruct (canonical_sha256_ok sha256 policy) as [d Hd]. cbn [ok_or mbind result_bind].
    rewrite Hd. eexists. split; [reflexivity |]. good_tac [20; 64]%N.
    split; [apply hex_text_printable | rewrite hex_text_len, Hsha; lia].
  - exists []. split; [done | apply good_nil].
Qed.

Lemma request_fields_total r schema :
  (∀ s, len (sha256 s) = 32%N) → request_typed r → request_strings_ok r →
  (bootstrap_schema schema = true → is_some r.(capture_policy) = true) →
  ∃ fields, request_fields sha256 schema r = Ok fields ∧ good 6000 fields.
Proof.
  intros Hsha Ht Hs Hp. destruct (capture_fields_total r schema Hsha Hp) as (capture & Hc & Gc).
  unfold request_fields. rewrite Hc. eexists. split; [reflexivity |].
  destruct (optional_good schema r Ht) as (? & ? & ? & ? & ? & ?).
  assert (good 100 (state_fields schema r)).
  { unfold state_fields. destruct (5 <=? schema)%N; [good_tac [20]%N | apply good_nil]. }
  eapply good_weaken.
  - apply good_app; [by apply head_good |]. apply good_app; [eassumption |].
    apply good_app; [eassumption |]. apply good_app; [by apply route_good |].
    apply good_app; [by apply tuning_good |].
    do 5 (apply good_app; [eassumption |]). eassumption.
  - lia.
Qed.
End fields.

(** ** Encoding and decoding *)

Lemma encode_record_inv h fields text :
  encode_record h fields = Ok text →
  text = record_text h fields ∧ (len text ≤ MAX_OPERATION_RECORD_BYTES)%N.
Proof.
  unfold encode_record. cbv zeta. intros H. unbind. subst. split; [done |].
  by apply N.ltb_ge in Ha.
Qed.

Lemma lines_record h fields :
  contains nl h = false → contains cr h = false → keys_ok fields = true →
  lines (record_text h fields) = h :: ((wire_line <$> fields) ++ [""])%list.
Proof.
  intros Hnl Hcr Hk. unfold record_text. by rewrite lines_append, lines_wire.
Qed.

Lemma with_retries_same r : r.(server_failure_retries) = None → with_retries r None = r.
Proof. destruct r; cbn. by intros ->. Qed.

Section codec_lemmas.
Context (sha256 : string → string).

Definition legacy_of (full : N) : N :=
  if (22 <? full)%N then (full - RETRY_SCHEMA_OFFSET)%N else full.

Lemma encode_inv full r text :
  encode_for_schema sha256 full r = Ok text →
  (4 ≤ legacy_of full)%N ∧ (legacy_of full ≤ 22)%N
  ∧ (22 <? full)%N = is_some r.(server_failure_retries)
  ∧ check_schema (legacy_of full) r = Ok tt
  ∧ ∃ fields, request_fields sha256 (legacy_of full) r = Ok fields ∧
    match r.(server_failure_retries) with
    | Some retries => encode_record (retry_request_header full)
                        (fields ++ [("server_failure_retries", show retries)])%list = Ok text
    | None => ∃ h, legacy_request_header full = Ok h ∧ encode_record h fields = Ok text
    end.
Proof.
  unfold encode_for_schema. cbv zeta. fold (legacy_of full). intros H.
  apply bind_ok_inv in H as ([] & Hs & H). apply bind_ok_inv in H as ([] & Hr & H).
  apply bind_ok_inv in H as ([] & Hc & H). apply bind_ok_inv in H as (fields & Hf & H).
  apply fail_if_ok_inv, negb_false_iff in Hs. apply fail_if_ok_inv, eqb_ok in Hr.
  assert ((4 ≤ legacy_of full ∧ legacy_of full ≤ 22)%N) as [Hlo Hhi].
  { unfold supported_schema, legacy_of, RETRY_SCHEMA_OFFSET in *.
    rewrite orb_true_iff, !andb_true_iff, !N.leb_le in Hs.
    destruct (N.ltb_spec 22 full); lia. }
  split_and!; try done. exists fields. split; [done |].
  unfold legacy_of in *. destruct (server_failure_retries r); [done |].
  cbn in Hr. rewrite Hr in *. apply bind_ok_inv in H as (h & Hh & H). eauto.
Qed.

(** A record without retries is decoded. *)
Lemma decode_legacy_ok schema r text :
  request_typed r → r.(server_failure_retries) = None →
  encode_for_schema sha256 schema r = Ok text →
  decode_legacy sha256 text = Ok r ∧ retry_schema (head (lines text)) = None.
Proof.
  intros Ht Hn He. pose proof (encode_inv _ _ _ He) as (Hlo & Hhi & Hr & Hc & fields & Hf & H).
  rewrite Hn in *. cbn in Hr. unfold legacy_of in *. rewrite Hr in *.
  destruct H as (h & Hh & H).
  destruct (legacy_header_ok schema Hlo Hhi) as (h' & Hh' & Hs & Hnr & Hnl & Hcr & _).
  rewrite Hh in Hh'. injection Hh' as <-.
  pose proof (request_fields_keys _ _ _ _ Hf) as Hk.
  destruct (check_schema_fits _ _ _ Hlo Hc) as [Hv Hfit].
  pose proof (request_validate_strings _ _ Hv) as Hstr.
  assert (Hhead : head (lines text) = Some h).
  { apply encode_record_inv in H as [-> _]. by rewrite lines_record. }
  rewrite Hhead. split; [| done]. unfold decode_legacy.
  rewrite Hhead, Hs. cbn [mbind result_bind]. rewrite Hh. cbn [mbind result_bind].
  rewrite (reader_new_encode _ _ _ Hnl Hcr Hk H). cbn [mbind result_bind].
  rewrite (read_request_ok sha256 r Ht Hstr schema fields Hfit Hf). cbn [fst].
  rewrite with_retries_same by done. cbn [mbind result_bind]. rewrite Hv.
  cbn [mbind result_bind]. rewrite He. cbn [mbind result_bind]. by rewrite String.eqb_refl.
Qed.

(** *** The retries line is taken out and put back *)

Lemma last_nonempty_app l s : String.eqb s "" = false → last_nonempty (l ++ [s; ""])%list = Some (length l).
Proof. intros Hs. induction l as [|x l IH]; cbn; [by rewrite Hs | by rewrite IH]. Qed.

Lemma strip_prefix_append p s : strip_prefix p (p +:+ s) = Some s.
Proof. induction p as [|c p IH]; [by destruct s | cbn; by rewrite Ascii.eqb_refl]. Qed.

Lemma legacy_text_record h fields :
  legacy_text h ((wire_line <$> fields) ++ [""])%list true = record_text h fields.
Proof.
  unfold legacy_text, record_text. f_equal.
  induction fields as [|f fields IH]; [done |]. cbn [fmap list_fmap app foldr].
  rewrite IH, encode_line_text. done.
Qed.

Lemma record_ends_nl h fields : ends_with_char nl (record_text h fields) = true.
Proof.
  unfold record_text. apply ends_with_char_append_r.
  assert (Hs : ∀ s, ends_with_char nl s = true → ends_with_char nl (String nl s) = true)
    by (by intros [|c s]).
  apply Hs. induction fields as [|f fields IH]; [done |].
  cbn [foldr]. rewrite encode_line_text. by apply ends_with_char_append_r, Hs.
Qed.

Lemma request_validate_drop r :
  request_validate r = Ok tt → request_validate (with_retries r None) = Ok tt.
Proof.
  unfold request_validate. intros H. apply bind_ok_inv in H as ([] & _ & H). exact H.
Qed.

Lemma check_schema_drop schema r :
  check_schema schema r = Ok tt → check_schema schema (with_retries r None) = Ok tt.
Proof.
  unfold check_schema. intros H. unbind.
  repeat match goal with x : unit |- _ => destruct x end.
  rewrite request_validate_drop by done. unfold with_retries.
  cbn [route traffic_plan traffic_policy_explicit target_state capture_policy].
  by rewrite Ha, Ha0, Ha1, Ha3, Ha4, Ha5, Ha6, H.
Qed.

(** The same request without its retries has the record of the legacy schema. *)
Lemma encode_drop full r k text :
  r.(server_failure_retries) = Some k → encode_for_schema sha256 full r = Ok text →
  ∃ h fields,
    legacy_request_header (legacy_of full) = Ok h
    ∧ request_fields sha256 (legacy_of full) r = Ok fields
    ∧ text = record_text (retry_request_header full)
               (fields ++ [("server_failure_retries", show k)])%list
    ∧ encode_for_schema sha256 (legacy_of full) (with_retries r None) = Ok (record_text h fields).
Proof.
  intros Hk He. pose proof (encode_inv _ _ _ He) as (Hlo & Hhi & Hr & Hc & fields & Hf & H).
  rewrite Hk in *. cbn [is_some] in Hr. apply encode_record_inv in H as [Htext Hlen].
  destruct (legacy_header_ok _ Hlo Hhi) as (h & Hh & _ & _ & _ & _ & Hhl).
  exists h, fields. split_and!; [done | done | done |]. unfold encode_for_schema. cbv zeta.
  assert (Hns : (22 <? legacy_of full)%N = false) by (by apply N.ltb_ge).
  replace (supported_schema (legacy_of full)) with true; [| symmetry].
  2:{ unfold supported_schema. rewrite orb_true_iff, !andb_true_iff, !N.leb_le. by left. }
  rewrite Hns. change (is_some (server_failure_retries (with_retries r None))) with false.
  cbn [fail_if mbind result_bind negb Bool.eqb].
  rewrite check_schema_drop by done. cbn [mbind result_bind].
  change (request_fields sha256 (legacy_of full) (with_retries r None)) with
    (request_fields sha256 (legacy_of full) r). rewrite Hf. cbn [mbind result_bind].
  change (server_failure_retries (with_retries r None)) with (@None N). cbn iota. rewrite Hh.
  unfold encode_record. cbv zeta. cbn [mbind result_bind].
  replace (MAX_OPERATION_RECORD_BYTES <? len (record_text h fields))%N with false; [done |].
  symmetry. apply N.ltb_ge. etransitivity; [| exact Hlen]. rewrite Htext, !record_text_len, wire_len_app.
  assert (23 ≤ len (retry_request_header full))%N.
  { unfold retry_request_header, request_header_text. rewrite len_append.
    change (len "cake-autorate-operation") with 23%N. lia. }
  cbn [wire_len fst]. change (len "server_failure_retries") with 22%N. lia.
Qed.

Lemma retries_text r k :
  request_validate r = Ok tt → r.(server_failure_retries) = Some k →
  (String.eqb (show k) "" || (2 <? len (show k))%N || negb (all_bytes is_ascii_digit (show k)))
    = false ∧ str_parse_u8 (show k) = Some k.
Proof.
  unfold request_validate, validate_retries. intros H Hk. rewrite Hk in H.
  apply bind_ok_inv in H as ([] & H & _). apply bind_ok_inv in H as ([] & H & _).
  apply fail_if_ok_inv, N.ltb_ge in H. unfold MAX_SERVER_FAILURE_RETRIES in H.
  split; [| apply parse_uint_show; lia]. rewrite show_nonempty, show_digits. cbn.
  rewrite orb_false_r. apply N.ltb_ge, N.leb_le.
  apply (below_table (λ k, (len (show k) <=? 2)%N) 11); [by vm_compute |].
  change (N.of_nat 11) with 11%N. lia.
Qed.

Lemma drop_S_app {A} (l : list A) x r : drop (S (length l)) (l ++ x :: r)%list = r.
Proof. induction l as [|y l IH]; [by destruct r | exact IH]. Qed.

Lemma typed_drop r : request_typed r → request_typed (with_retries r None).
Proof. intros []. constructor; try done. Qed.

Lemma with_retries_back r k :
  r.(server_failure_retries) = Some k → with_retries (with_retries r None) (Some k) = r.
Proof. destruct r; cbn. by intros ->. Qed.

(** A record with retries: the recursion reaches the legacy record. *)
Lemma decode_retry_ok full r k text decode :
  request_typed r → r.(server_failure_retries) = Some k →
  encode_for_schema sha256 full r = Ok text →
  (∀ s r', request_typed r' → r'.(server_failure_retries) = None →
     encode_for_schema sha256 (legacy_of full) r' = Ok s → decode s = Ok r') →
  retry_schema (head (lines text)) = Some full ∧ decode_retry sha256 decode full text = Ok r.
Proof.
  intros Ht Hk He Hdec. pose proof (encode_inv _ _ _ He) as (Hlo & Hhi & Hr & Hc & _).
  rewrite Hk in Hr. cbn [is_some] in Hr.
  destruct (encode_drop _ _ _ _ Hk He) as (h & fields & Hh & Hf & Htext & He').
  pose proof (request_fields_keys _ _ _ _ Hf) as Hkeys.
  pose proof (retry_header_ok _ Hlo Hhi) as (Hrs & Hnl & Hcr & _).
  assert (Hfull : (legacy_of full + RETRY_SCHEMA_OFFSET = full)%N).
  { unfold legacy_of, RETRY_SCHEMA_OFFSET in *. rewrite Hr. apply N.ltb_lt in Hr. lia. }
  rewrite Hfull in *. destruct (check_schema_fits _ _ _ Hlo Hc) as [Hv _].
  assert (Hlines : lines text = retry_request_header full ::
    ((wire_line <$> fields) ++ [wire_line ("server_failure_retries", show k); ""])%list).
  { rewrite Htext, lines_record; [| done | done |].
    - by rewrite fmap_app, <- app_assoc.
    - unfold keys_ok in *. by rewrite forallb_app, Hkeys. }
  assert (Hwire : wire_line ("server_failure_retries", show k)
                  = "server_failure_retries=" +:+ show k).
  { unfold wire_line. cbn [fst snd]. by rewrite percent_encode_id by apply show_unreserved. }
  rewrite Hlines. split; [done |]. unfold decode_retry.
  replace (full - RETRY_SCHEMA_OFFSET)%N with (legacy_of full)
    by (unfold legacy_of; by rewrite Hr).
  rewrite Hlines. cbn [tail].
  rewrite last_nonempty_app by (by rewrite Hwire). cbn [ok_or mbind result_bind].
  rewrite lookup_app_r, Nat.sub_diag by done. cbn [lookup list_lookup mbind option_bind].
  rewrite Hwire, strip_prefix_append. cbn [ok_or mbind result_bind].
  destruct (retries_text r k Hv Hk) as [-> ->]. cbn [fail_if ok_or mbind result_bind].
  rewrite Hh. cbn [mbind result_bind].
  rewrite (take_app_length (wire_line <$> fields)), drop_S_app, Htext, record_ends_nl.
  rewrite legacy_text_record, <- Htext.
  rewrite (Hdec _ (with_retries r None)); [| by apply typed_drop | done | done].
  cbn [mbind result_bind]. rewrite with_retries_back by done. rewrite Hv. cbn [mbind result_bind].
  rewrite He. cbn [mbind result_bind]. by rewrite String.eqb_refl.
Qed.

Lemma decode_encode_any full r text :
  request_typed r → encode_for_schema sha256 full r = Ok text →
  request_decode sha256 text = Ok r.
Proof.
  intros Ht He. change (decode_step sha256 (decode_fuel sha256 1) text = Ok r).
  assert (Hlegacy : ∀ n schema r text, request_typed r → server_failure_retries r = None →
    encode_for_schema sha256 schema r = Ok text →
    decode_step sha256 (decode_fuel sha256 n) text = Ok r).
  { intros n schema r' text' Ht' Hn He'. unfold decode_step.
    by destruct (decode_legacy_ok _ _ _ Ht' Hn He') as [-> ->]. }
  destruct (server_failure_retries r) as [k |] eqn:Hk; [| by eapply Hlegacy].
  unfold decode_step.
  destruct (decode_retry_ok full r k text (decode_fuel sha256 1) Ht Hk He) as [-> ->]; [| done].
  intros s r' Ht' Hn He'. by eapply (Hlegacy 0).
Qed.
End codec_lemmas.

(** ** A decoded text is the encoding of its request *)

Section canonical.
Context (sha256 : string → string).

Lemma decode_legacy_sound input r :
  decode_legacy sha256 input = Ok r →
  request_validate r = Ok tt ∧ ∃ schema, encode_for_schema sha256 schema r = Ok input.
Proof.
  unfold decode_legacy. intros H. unbind. repeat match goal with x : unit |- _ => destruct x end.
  subst. split; [done |]. reflect_bools.
  match goal with H : (_ =? _)%string = true |- _ => apply String.eqb_eq in H; subst end. eauto.
Qed.

Lemma decode_retry_sound decode full input r :
  decode_retry sha256 decode full input = Ok r →
  request_validate r = Ok tt ∧ encode_for_schema sha256 full r = Ok input.
Proof.
  unfold decode_retry. cbv zeta. intros H. unbind.
  repeat match goal with x : unit |- _ => destruct x end.
  subst. split; [done |]. reflect_bools.
  match goal with H : (_ =? _)%string = true |- _ => apply String.eqb_eq in H; by subst end.
Qed.

Lemma decode_sound input r :
  request_decode sha256 input = Ok r →
  request_validate r = Ok tt ∧ ∃ full, encode_for_schema sha256 full r = Ok input.
Proof.
  unfold request_decode. cbn [decode_fuel]. unfold decode_step at 1.
  destruct (retry_schema _) as [full |].
  - intros [Hv He]%decode_retry_sound. eauto.
  - apply decode_legacy_sound.
Qed.

Lemma legacy_retry_schema full r text :
  encode_for_schema sha256 full r = Ok text →
  full = if is_some r.(server_failure_retries)
         then (legacy_of full + RETRY_SCHEMA_OFFSET)%N else legacy_of full.
Proof.
  intros (_ & _ & Hr & _)%encode_inv. rewrite <- Hr. unfold legacy_of, RETRY_SCHEMA_OFFSET.
  destruct (N.ltb_spec 22 full); lia.
Qed.

(** *** The recursion of [decode] ends after one step *)

Lemma header_not_retry schema h :
  legacy_request_header schema = Ok h →
  one_line h = true ∧ retry_schema (Some h) = None ∧ String.eqb h "" = false.
Proof.
  assert (H : forallb (λ p, one_line p.2 && bool_decide (retry_schema (Some p.2) = None)
                            && negb (String.eqb p.2 "")) schema_table = true) by by vm_compute.
  unfold legacy_request_header. intros Hh.
  destruct (List.find _ _) as [p |] eqn:E; [| done]. injection Hh as <-.
  apply List.find_some in E as [E _]. eapply forallb_forall in H; [| exact E].
  by reflect_bools.
Qed.

Lemma split_newlines_head h rest :
  contains nl h = false → h ≠ "" → (rest = "" ∨ ∃ r, rest = String nl r) →
  head (fst <$> split_newlines (h +:+ rest)) = Some h.
Proof.
  intros Hn Hh [-> | [r ->]].
  - rewrite append_nil_r. clear -Hn Hh. induction h as [|c h IH]; [done |].
    rewrite contains_cons in Hn. apply orb_false_iff in Hn as [Hc Hn].
    cbn [split_newlines]. rewrite Ascii.eqb_sym, Hc. destruct h as [|d h]; [done |].
    specialize (IH Hn ltac:(done)). destruct (split_newlines (String d h)) as [|[l b] ls]; [done |].
    injection IH as ->. done.
  - by rewrite split_newlines_append.
Qed.

Lemma legacy_text_head h ls b :
  one_line h = true → h ≠ "" → head (lines (legacy_text h ls b)) = Some h.
Proof.
  intros [Hnl Hcr]%one_line_inv Hh. unfold legacy_text, lines.
  set (rest := foldr _ _ ls).
  assert (Hr : rest = "" ∨ ∃ r, rest = String nl r).
  { subst rest. destruct ls; [destruct b; cbn; [right; by exists "" | by left] | right; cbn; eauto]. }
  pose proof (split_newlines_head h rest Hnl Hh Hr) as H.
  destruct (split_newlines (h +:+ rest)) as [|[l t] ps]; [done |]. cbn in *. injection H as ->.
  f_equal. destruct t; [by apply trim_one_end_keep | done].
Qed.

Lemma decode_retry_ext d1 d2 full input :
  (∀ h ls b, one_line h = true → retry_schema (Some h) = None → h ≠ "" →
     d1 (legacy_text h ls b) = d2 (legacy_text h ls b)) →
  decode_retry sha256 d1 full input = decode_retry sha256 d2 full input.
Proof.
  intros Hd. unfold decode_retry. cbv zeta.
  destruct (last_nonempty _) as [last |]; [| done]. cbn [ok_or mbind result_bind].
  destruct (ok_or _ _) as [retries |]; [| done]. cbn [mbind result_bind].
  destruct (fail_if _ _); [| done]. cbn [mbind result_bind].
  destruct (ok_or (str_parse_u8 _) _) as [k |]; [| done]. cbn [mbind result_bind].
  destruct (legacy_request_header _) as [h |] eqn:Hh; [| done]. cbn [mbind result_bind].
  apply header_not_retry in Hh as (H1 & H2 & H3). rewrite Hd; [done | done | done |].
  by intros ->.
Qed.

(** [OperationRequest::decode] terminates: the text that its retry branch hands to
    the recursive call has a legacy header, so the recursion is exactly one level
    deep and the fuel of the model never runs out: the decoder satisfies its own
    recursive equation on every input. *)
Theorem request_decode_recursion input :
  request_decode sha256 input = decode_step sha256 (request_decode sha256) input.
Proof.
  unfold request_decode at 1. change (decode_fuel sha256 2 input) with
    (decode_step sha256 (decode_fuel sha256 1) input). unfold decode_step at 1 2.
  destruct (retry_schema (head (lines input))) as [full |]; [| done].
  apply decode_retry_ext. intros h ls b H1 H2 H3. cbn [decode_fuel request_decode].
  unfold request_decode. cbn [decode_fuel]. unfold decode_step at 1 2.
  by rewrite legacy_text_head, H2.
Qed.

(** C39: the wire round trips: a request that was encoded, under any of the 38 record
    schemas the encoder accepts for it, is decoded to exactly the same request,
    retries and every optional route field included. *)
Theorem request_decode_encode full r text :
  request_typed r → encode_for_schema sha256 full r = Ok text →
  request_decode sha256 text = Ok r.
Proof. apply decode_encode_any. Qed.

(** The wire is canonical: a text that decodes belongs to a valid request and is
    byte for byte the text [OperationRequest::encode] writes for it, or the
    record of the public schema 4 (23 with retries) of a request whose own
    schema is 5 (24). No other text decodes to that request, so a record cannot
    be downgraded or relabelled. *)
Theorem request_wire_canonical input r :
  request_decode sha256 input = Ok r →
  request_validate r = Ok tt ∧
  (request_encode sha256 r = Ok input ∨
   encode_legacy_schema r = 5%N ∧
   encode_for_schema sha256 (if is_some r.(server_failure_retries) then 23 else 4) r = Ok input).
Proof.
  intros [Hv [full He]]%decode_sound. split; [done |].
  pose proof (legacy_retry_schema _ _ _ He) as Hfull.
  pose proof (encode_inv _ _ _ _ He) as (Hlo & Hhi & _ & Hc & _).
  destruct (check_schema_fits _ _ _ Hlo Hc) as [_ Hfit].
  unfold request_encode. cbv zeta.
  destruct (schema_unique r _ Hhi Hfit) as [Hs | [Hs Hl]].
  - left. by rewrite Hs, <- Hfull.
  - right. split; [done |]. rewrite Hs in Hfull. change (4 + RETRY_SCHEMA_OFFSET)%N with 23%N in Hfull.
    by rewrite <- Hfull.
Qed.

(** *** Every valid request can be encoded *)

Lemma route_validate_facts r u :
  route_validate r = Ok u →
  (is_some r.(fwmark_mask) = false → r.(device_ifindex) = None)
  ∧ (is_some r.(device_ifindex) = false → r.(dns_server) = None).
Proof.
  unfold route_validate. intros H. unbind. split.
  - intros Hm. destruct (device_ifindex r) as [i |]; [| done]. cbn in Ha1.
    rewrite Hm, orb_true_r in Ha1. done.
  - intros Hi. destruct (dns_server r) as [d |]; [| done]. unbind.
    assert (mode r = Explicit) as Hmode.
    { unfold explicit_dns_server in *. destruct (String.eqb_spec (show_ipv4 d) "") as [E |].
      - exfalso. revert E. unfold show_ipv4. pose proof (show_nonempty (oct_a d)).
        destruct (show (oct_a d)); discriminate.
      - unbind. by destruct (mode r). }
    rewrite Hmode in H. destruct (mwan3_member r); [done |]. unbind.
    reflect_bools. congruence.
Qed.

Lemma request_validate_facts r :
  request_validate r = Ok tt →
  (is_some r.(route).(fwmark_mask) = false → is_some r.(route).(device_ifindex) = false)
  ∧ (is_some r.(route).(device_ifindex) = false → is_some r.(route).(dns_server) = false)
  ∧ (is_some r.(traffic_plan) = true → r.(traffic_policy_explicit) = true)
  ∧ is_some r.(capture_policy) = bool_decide (r.(target_state) = AbsentBootstrap).
Proof.
  unfold request_validate. intros H. unbind. repeat match goal with x : unit |- _ => destruct x end.
  destruct (route_validate_facts _ _ Ha1) as [F1 F2]. split_and!.
  - intros ->%F1. done.
  - intros ->%F2. done.
  - unfold validate_traffic in *. intros Hp. destruct (traffic_plan r); [| done].
    unbind. by reflect_bools.
  - unfold validate_target in *. destruct (bool_decide_reflect (target_state r = AbsentBootstrap)).
    + unbind. by match goal with H : capture_policy r = Some _ |- _ => rewrite H end.
    + unbind. done.
Qed.

(** The schema that [encode] picks passes every guard of [encode_for_schema]. *)
Lemma check_schema_total r :
  request_validate r = Ok tt →
  let schema := encode_legacy_schema r in
  check_schema schema r = Ok tt ∧ ((4 <=? schema)%N && (schema <=? 22)%N) = true
  ∧ (bootstrap_schema schema = true → is_some r.(capture_policy) = true).
Proof.
  intros Hv. pose proof (request_validate_facts r Hv) as (F1 & F2 & F3 & F4).
  cbv zeta. unfold check_schema, encode_legacy_schema. rewrite Hv, F4. clear Hv F4.
  revert F1 F2 F3. generalize (is_some (fwmark_mask (route r))) as mask,
    (is_some (device_ifindex (route r))) as link, (is_some (dns_server (route r))) as dns,
    (is_some (traffic_plan r)) as plan, (traffic_policy_explicit r) as explicit.
  intros [] [] [] [] [] F1 F2 F3;
    try (by discriminate F1); try (by discriminate F2); try (by discriminate F3);
    destruct (target_state r); by vm_compute.
Qed.

(** Every valid request can be written: the schema the encoder picks passes all
    of its own downgrade guards, the capture policy digest is defined, and the
    record stays within the 8 KiB bound whatever the request holds. *)
Theorem request_encode_total r :
  (∀ s, len (sha256 s) = 32%N) → request_typed r → request_validate r = Ok tt →
  ∃ text, request_encode sha256 r = Ok text.
Proof.
  intros Hsha Ht Hv. pose proof (check_schema_total r Hv) as (Hc & Hr & Hp).
  cbv zeta in *. set (schema := encode_legacy_schema r) in *. reflect_bools.
  destruct (request_fields_total sha256 r schema Hsha Ht (request_validate_strings _ _ Hv) Hp)
    as (fields & Hf & Gk & _ & Gl).
  destruct (legacy_header_ok schema) as (h & Hh & _ & _ & _ & _ & Hhl); [done | done |].
  destruct (retry_header_ok schema) as (_ & _ & _ & Hrl); [done | done |].
  assert (Hsmall : ∀ hd fs, (len hd ≤ 40)%N → (wire_len fs ≤ 6090)%N →
    encode_record hd fs = Ok (record_text hd fs)).
  { intros hd fs H1 H2. unfold encode_record. cbv zeta.
    replace (MAX_OPERATION_RECORD_BYTES <? _)%N with false; [done |].
    symmetry. apply N.ltb_ge. rewrite record_text_len.
    change MAX_OPERATION_RECORD_BYTES with 8192%N. lia. }
  unfold request_encode. fold schema. cbv zeta. unfold encode_for_schema. cbv zeta.
  assert (Hns : (22 <? schema)%N = false) by (by apply N.ltb_ge).
  pose proof (typed_retries _ Ht) as Hk.
  destruct (server_failure_retries r) as [k |] eqn:Ek; cbn [is_some].
  - assert ((22 <? schema + RETRY_SCHEMA_OFFSET)%N = true) as ->
      by (apply N.ltb_lt; unfold RETRY_SCHEMA_OFFSET; lia).
    replace (supported_schema (schema + RETRY_SCHEMA_OFFSET)) with true; [| symmetry].
    2:{ unfold supported_schema, RETRY_SCHEMA_OFFSET.
        rewrite orb_true_iff, !andb_true_iff, !N.leb_le. right. lia. }
    replace (schema + RETRY_SCHEMA_OFFSET - RETRY_SCHEMA_OFFSET)%N with schema by lia.
    cbn [negb Bool.eqb fail_if mbind result_bind]. rewrite Hc. cbn [mbind result_bind].
    rewrite Hf. cbn [mbind result_bind]. rewrite Hsmall; [eauto | done |].
    rewrite wire_len_app. pose proof (show_small_ok k (Hk k eq_refl)) as [_ Hl].
    pose proof (percent_encode_len (show k)). cbn [wire_len fst snd].
    change (len "server_failure_retries") with 22%N. lia.
  - rewrite Hns. replace (supported_schema schema) with true; [| symmetry].
    2:{ unfold supported_schema. rewrite orb_true_iff, !andb_true_iff, !N.leb_le. by left. }
    cbn [negb Bool.eqb fail_if mbind result_bind]. rewrite Hc. cbn [mbind result_bind].
    rewrite Hf. cbn [mbind result_bind]. rewrite Hh. cbn [mbind result_bind].
    rewrite Hsmall; [eauto | done | lia].
Qed.
End canonical.

(** ** Witnesses *)

Module RequestSample.
Fixpoint repeat_char (n : nat) (c : ascii) : string :=
  match n with O => "" | S n => String c (repeat_char n c) end.

(** A stand-in for the digest function: 32 bytes that depend on the length. *)
Definition digest (s : string) : string := repeat_char 32 (chr (len s mod 256)).

Definition id : OperationIdentity := {|
  job_id := repeat_char 32 "a"; job_token := repeat_char 64 "b"; instance := "wan";
  operation := FullAutotune; target_interface := "eth0.2"; 
  route_fingerprint := repeat_char 64 "1"; config_fingerprint := repeat_char 64 "2";
  sqm_fingerprint := repeat_char 64 "3" |}.

Definition explicit_route : OperationRouteIdentity := {|
  dns_server := Some (Ipv4 9 9 9 9); device_ifindex := Some 7%N; mode := Explicit;
  mwan3_member := None; l3_device := "pppoe-wan@eth0"; source_ip := Some (V4 (Ipv4 192 0 2 7));
  fwmark := Some 256%N; routing_table := Some 100%N; fwmark_mask := Some 65280%N |}.

Definition request : OperationRequest := {|
  identity := id; created_unix_ms := 1700000000000; deadline_unix_ms := 1700000900000;
  origin := Luci; backend := "speedtest-go"; speedtest_direction := None;
  speedtest_server_id := Some 42%N; speedtest_topology := None; route := explicit_route;
  target_state := AbsentBootstrap; capture_policy := Some StandardV2;
  managed_sqm_section := Some "wan_sqm"; profile := Some Gaming; strategy := Some FullRaw;
  access_medium := Some Cellular; access_source := Some UserSelected;
  access_confidence_percent := 90; capacity_learning_policy := Some PassiveBounded;
  service_dl_cap_kbps := Some 100000%N; service_ul_cap_kbps := Some 20000%N;
  allow_sqm_disable := true; allow_active_traffic := false;
  scheduled_auto_apply_requested := false; traffic_budget := Unlimited;
  traffic_policy_explicit := true;
  traffic_plan := Some {| download_kbps := 90000; upload_kbps := 18000 |};
  server_failure_retries := Some 3%N |}.

Definition text : string :=
  match request_encode digest request with Ok s => s | Err _ => "" end.
End RequestSample.

Lemma sample_request_typed : request_typed RequestSample.request.
Proof.
  constructor; cbn; try (intros ? [= <-]; cbn); try done; try (by repeat split); by intros ? [=].
Qed.

Lemma request_decode_encode_witness :
  request_decode RequestSample.digest RequestSample.text = Ok RequestSample.request.
Proof.
  apply (request_decode_encode _ 41); [apply sample_request_typed | by vm_compute].
Defined.

Lemma request_wire_canonical_witness :
  request_encode RequestSample.digest RequestSample.request = Ok RequestSample.text.
Proof.
  destruct (request_wire_canonical RequestSample.digest RequestSample.text RequestSample.request)
    as [_ [H | [H _]]]; [by vm_compute | exact H | by vm_compute in H].
Defined.

Lemma digest_len s : len (RequestSample.digest s) = 32%N.
Proof. reflexivity. Qed.

Lemma request_encode_total_witness :
  ∃ text, request_encode RequestSample.digest RequestSample.request = Ok text.
Proof.
  apply request_encode_total; [apply digest_len | apply sample_request_typed | by vm_compute].
Defined.
