(* ===== verification/ControlProtocol.v ===== *)
(** * The control socket protocol

    Models [ControlRequest] and [ControlMessage] of [operations/protocol.rs]:
    the command record a client sends to the coordinator, followed, for the
    [start] command only, by the operation record. *)

From S2P Require Import Prelude RustStr SchedRecord PercentRecord Vocabulary RustNet CapturePolicy OperationRequest OperationCodec OperationRoundtrip.
Local Open Scope string_scope.

Definition MAX_CONTROL_MESSAGE_BYTES : N := MAX_OPERATION_RECORD_BYTES * 2.

Definition CONTROL_HEADER : string :=
  "cake-autorate-operation" +:+ String tab ("2" +:+ String tab "control").

(** ** The command record *)

Record ControlRequest := {
  request_id : string;
  command : ControlCommand;
  ctl_job_id : option string;
  ctl_job_token : option string;
}.

Definition control_validate (c : ControlRequest) : Res unit :=
  require_lower_hex "request_id" c.(request_id) 32 ≫= λ _,
  if requires_job c.(command) then
    job_id ← ok_or c.(ctl_job_id) "job command requires job_id";
    require_lower_hex "job_id" job_id 32 ≫= λ _,
    job_token ← ok_or c.(ctl_job_token) "job command requires job_token";
    require_lower_hex "job_token" job_token 64
  else
    fail_if (is_some c.(ctl_job_id) || is_some c.(ctl_job_token))
      "daemon-level command must not carry job identity".

Definition control_fields (c : ControlRequest) : list (string * string) := [
  ("request_id", c.(request_id));
  ("command", wire_str c.(command));
  ("job_id", default "" c.(ctl_job_id));
  ("job_token", default "" c.(ctl_job_token))].

Definition control_encode (c : ControlRequest) : Res string :=
  control_validate c ≫= λ _, encode_record CONTROL_HEADER (control_fields c).

Definition read_control : Reader ControlRequest :=
  request_id ← RecordReader.field "request_id";
  command ← read_enum "command" "unsupported calibration control command";
  job_id ← read_optional_string "job_id";
  job_token ← read_optional_string "job_token";
  RecordReader.finish ≫= λ _,
  mret {| request_id := request_id; command := command; ctl_job_id := job_id;
          ctl_job_token := job_token |}.

Definition control_decode (input : string) : Res ControlRequest :=
  reader ← RecordReader.new input CONTROL_HEADER;
  request ← (read_control reader).1;
  control_validate request ≫= λ _,
  encoded ← control_encode request;
  fail_if (negb (String.eqb encoded input)) "control request is not canonically encoded" ≫= λ _,
  mret request.

(** ** The message *)

Record ControlMessage := { control : ControlRequest; message_operation : option OperationRequest }.

(** The loop of [nth_newline_end]: the end of the newline number [count]. *)
Fixpoint newline_end (index seen count : nat) (s : string) : option nat :=
  match s with
  | "" => None
  | String c s =>
      if Ascii.eqb c nl then
        if Nat.eqb (S seen) count then Some (S index) else newline_end (S index) (S seen) count s
      else newline_end (S index) seen count s
  end.

Definition nth_newline_end (input : string) (count : nat) : option nat :=
  newline_end 0 0 count input.

Definition message_validate (m : ControlMessage) : Res unit :=
  control_validate m.(control) ≫= λ _,
  match m.(control).(command), m.(message_operation) with
  | Start, Some operation =>
      request_validate operation ≫= λ _,
      fail_if (negb (bool_decide (m.(control).(ctl_job_id) = Some operation.(identity).(job_id)))
               || negb (bool_decide (m.(control).(ctl_job_token)
                                     = Some operation.(identity).(job_token))))
        "start control identity does not match its operation request"
  | Start, None => Err "start control requires an operation request"
  | _, Some _ => Err "only start control may carry an operation request"
  | _, None => Ok tt
  end.

(** The schema a message without a route mask must use. *)
Definition message_schema (r : OperationRequest) : N :=
  match r.(traffic_policy_explicit), r.(target_state) with
  | false, ExistingManaged => 4
  | false, AbsentBootstrap => 6
  | true, ExistingManaged => if is_some r.(traffic_plan) then 9 else 7
  | true, AbsentBootstrap => if is_some r.(traffic_plan) then 10 else 8
  end.

Section message.
Context (sha256 : string → string).

Definition message_operation_text (r : OperationRequest) : Res string :=
  if r.(traffic_policy_explicit) || is_some r.(route).(fwmark_mask) then
    request_encode sha256 r
  else
    match r.(target_state) with
    | ExistingManaged =>
        encode_for_schema sha256
          (if is_some r.(server_failure_retries) then 4 + RETRY_SCHEMA_OFFSET else 4)%N r
    | AbsentBootstrap => request_encode sha256 r
    end.

Definition message_encode (m : ControlMessage) : Res string :=
  message_validate m ≫= λ _,
  encoded ← control_encode m.(control);
  encoded ← match m.(message_operation) with
            | Some operation =>
                text ← message_operation_text operation; mret (encoded +:+ text)
            | None => mret encoded
            end;
  fail_if (MAX_CONTROL_MESSAGE_BYTES <? len encoded)%N
    "calibration control message exceeds its bound" ≫= λ _,
  mret encoded.

(** The check that the operation's header is the one its target requires. *)
Definition wire_matches_target (r : OperationRequest) (operation_record : string) : Res bool :=
  let header := default "" (head (lines operation_record)) in
  if is_some r.(route).(fwmark_mask) then
    encoded ← request_encode sha256 r;
    mret (bool_decide (head (lines encoded) = Some header))
  else if is_some r.(server_failure_retries) then
    mret (String.eqb header (retry_request_header (message_schema r + RETRY_SCHEMA_OFFSET)))
  else
    legacy ← legacy_request_header (message_schema r);
    mret (String.eqb header legacy).

Definition message_decode (input : string) : Res ControlMessage :=
  fail_if ((MAX_CONTROL_MESSAGE_BYTES <? len input)%N || negb (ends_with_char nl input))
    "calibration control message is not bounded and terminated" ≫= λ _,
  control_end ← ok_or (nth_newline_end input 6) "calibration control message is truncated";
  let '(control_record, operation_record) := split_at control_end input in
  control ← control_decode control_record;
  operation ← (if String.eqb operation_record "" then mret None
               else r ← request_decode sha256 operation_record; mret (Some r));
  let message := {| control := control; message_operation := operation |} in
  message_validate message ≫= λ _,
  match operation with
  | Some r =>
      matches ← wire_matches_target r operation_record;
      fail_if (negb matches)
        "calibration control operation schema does not match its target lifecycle"
  | None => mret tt
  end ≫= λ _,
  mret message.
End message.

(** ** Lemmas: the command record *)

Lemma control_validate_ok c u :
  control_validate c = Ok u →
  val_ok 64 c.(request_id) ∧ opt_ok c.(ctl_job_id) ∧ opt_ok c.(ctl_job_token).
Proof.
  unfold control_validate. intros H. apply bind_ok_inv in H as ([] & Hr & H).
  split; [by eapply (lower_hex_ok _ _ _ _ 64) |].
  assert (Hhex : ∀ n s k v, (1 ≤ k)%N → (k ≤ 64)%N → require_lower_hex n s k = Ok v → opt_ok (Some s)).
  { intros n s k v H1 H2 Hx. apply opt_ok_Some; [| by eapply lower_hex_ok].
    apply fail_if_ok_inv in Hx. reflect_bools. by subst. }
  destruct (requires_job (command c)).
  - apply bind_ok_inv in H as (j & Hj & H). apply bind_ok_inv in H as ([] & Hj' & H).
    apply bind_ok_inv in H as (t & Ht & H). apply ok_or_ok_inv in Hj, Ht. rewrite Hj, Ht.
    split; [eapply Hhex; [| | exact Hj']; done | eapply Hhex; [| | exact H]; done].
  - apply fail_if_ok_inv in H. reflect_bools.
    rewrite (is_some_false (ctl_job_id c)), (is_some_false (ctl_job_token c)) by done.
    split; apply opt_ok_None.
Qed.

Lemma control_roundtrip c s : control_encode c = Ok s → control_decode s = Ok c.
Proof.
  intros He. assert (He' := He). unfold control_encode in He'.
  apply bind_ok_inv in He' as ([] & Hv & Hr).
  destruct (control_validate_ok _ _ Hv) as (Hid & Hj & Ht).
  unfold control_decode. rewrite (reader_new_encode CONTROL_HEADER (control_fields c) s eq_refl eq_refl eq_refl Hr).
  cbn [mbind result_bind]. unfold read_control, control_fields. cbn [fmap list_fmap app].
  do 4 step_field. replace (Build_ControlRequest _ _ _ _) with c by (by destruct c).
  change (_ [""]) with (@Ok string _ c, @nil string). cbn [fst mbind result_bind]. rewrite Hv. cbn [mbind result_bind]. rewrite He. cbn [mbind result_bind].
  by rewrite String.eqb_refl.
Qed.

Lemma control_decode_sound s c : control_decode s = Ok c → control_encode c = Ok s.
Proof.
  unfold control_decode. intros H. unbind. repeat match goal with x : unit |- _ => destruct x end.
  subst. reflect_bools.
  match goal with H : (_ =? _)%string = true |- _ => apply String.eqb_eq in H; by subst end.
Qed.

(** ** Lemmas: finding the end of the command record *)

Lemma newline_end_line i seen count l rest :
  contains nl l = false → S seen ≠ count →
  newline_end i seen count (l +:+ String nl rest)
    = newline_end (i + S (String.length l)) (S seen) count rest.
Proof.
  intros Hl Hc. revert i. induction l as [|c l IH]; intros i.
  - cbn [String.append newline_end String.length]. rewrite Ascii.eqb_refl.
    destruct (Nat.eqb_spec (S seen) count); [done |]. by rewrite Nat.add_1_r.
  - rewrite contains_cons in Hl. apply orb_false_iff in Hl as [Hn Hl].
    cbn [String.append newline_end String.length]. rewrite Ascii.eqb_sym, Hn, IH by done.
    f_equal. lia.
Qed.

Lemma newline_end_record i seen fields rest :
  keys_ok fields = true →
  newline_end i seen (seen + S (length fields)) (foldr encode_line (str1 nl) fields +:+ rest)
    = Some (i + String.length (foldr encode_line (str1 nl) fields)).
Proof.
  revert i seen. induction fields as [|f fields IH]; intros i seen Hk.
  - cbn [foldr length]. change (str1 nl +:+ rest) with (String nl rest). cbn [newline_end].
    rewrite Ascii.eqb_refl, Nat.add_1_r, Nat.eqb_refl. cbn. f_equal. lia.
  - unfold keys_ok in *. cbn [forallb] in Hk. apply andb_true_iff in Hk as [Hf Hk].
    cbn [foldr length]. rewrite encode_line_text, append_assoc.
    change (String nl ?a +:+ rest) with (String nl (a +:+ rest)).
    rewrite newline_end_line; [| by apply wire_line_contains | lia].
    replace (seen + S (S (length fields))) with (S seen + S (length fields)) by lia.
    rewrite IH by done. f_equal. rewrite length_append. cbn [String.length]. lia.
Qed.

Lemma control_end c s rest :
  control_encode c = Ok s → nth_newline_end (s +:+ rest) 6 = Some (String.length s).
Proof.
  unfold control_encode. intros H. apply bind_ok_inv in H as ([] & _ & H).
  apply encode_record_inv in H as [-> _]. unfold nth_newline_end, record_text.
  rewrite append_assoc. change (String nl ?a +:+ rest) with (String nl (a +:+ rest)).
  rewrite newline_end_line by done.
  rewrite (newline_end_record _ 1 (control_fields c)) by done.
  by rewrite length_append.
Qed.

(** ** Lemmas: the operation record inside a message *)

Section message_lemmas.
Context (sha256 : string → string).

(** The first line of an encoded request names its schema. *)
Lemma encode_head full r text :
  encode_for_schema sha256 full r = Ok text →
  (4 ≤ legacy_of full)%N ∧ (legacy_of full ≤ 22)%N ∧
  if is_some r.(server_failure_retries) then
    head (lines text) = Some (retry_request_header (legacy_of full + RETRY_SCHEMA_OFFSET))
    ∧ full = (legacy_of full + RETRY_SCHEMA_OFFSET)%N
  else ∃ h, legacy_request_header full = Ok h ∧ head (lines text) = Some h ∧ full = legacy_of full.
Proof.
  intros He. pose proof (legacy_retry_schema _ _ _ _ He) as Hfull.
  pose proof (encode_inv _ _ _ _ He) as (Hlo & Hhi & _ & _ & fields & Hf & H).
  pose proof (request_fields_keys _ _ _ _ Hf) as Hk. split_and!; [done | done |].
  destruct (server_failure_retries r) as [k |]; cbn [is_some] in *.
  - split; [| done]. pose proof (retry_header_ok _ Hlo Hhi) as (_ & Hnl & Hcr & _).
    rewrite <- Hfull in *. apply encode_record_inv in H as [-> _].
    rewrite lines_record; [done | done | done |].
    unfold keys_ok in *. by rewrite forallb_app, Hk.
  - destruct H as (h & Hh & H). exists h.
    destruct (legacy_header_ok _ Hlo Hhi) as (h' & Hh' & _ & _ & Hnl & Hcr & _).
    rewrite <- Hfull, Hh in Hh'. injection Hh' as <-. split_and!; [done | | done].
    apply encode_record_inv in H as [-> _]. by rewrite lines_record.
Qed.

Definition message_full_schema (r : OperationRequest) : N :=
  if is_some r.(server_failure_retries) then (message_schema r + RETRY_SCHEMA_OFFSET)%N
  else message_schema r.

(** Without a route mask, a message carries the schema of [message_schema]. *)
Lemma message_text_schema r :
  request_validate r = Ok tt → is_some r.(route).(fwmark_mask) = false →
  message_operation_text sha256 r = encode_for_schema sha256 (message_full_schema r) r.
Proof.
  intros Hv Hm. destruct (request_validate_facts r Hv) as (_ & _ & Hplan & _).
  unfold message_operation_text, message_full_schema, message_schema, request_encode,
    encode_legacy_schema. cbv zeta. rewrite Hm, orb_false_r.
  destruct (traffic_policy_explicit r), (is_some (traffic_plan r));
    try discriminate (Hplan eq_refl); destruct (target_state r); reflexivity.
Qed.

Lemma message_text_masked r :
  is_some r.(route).(fwmark_mask) = true → message_operation_text sha256 r = request_encode sha256 r.
Proof. intros Hm. unfold message_operation_text. by rewrite Hm, orb_true_r. Qed.

Lemma message_schema_range r : (4 ≤ message_schema r)%N ∧ (message_schema r ≤ 22)%N.
Proof. unfold message_schema. repeat case_match; lia. Qed.

Lemma legacy_of_message r :
  legacy_of (message_full_schema r) = message_schema r.
Proof.
  pose proof (message_schema_range r) as [H1 H2]. unfold message_full_schema, legacy_of.
  destruct (is_some (server_failure_retries r)).
  - destruct (N.ltb_spec 22 (message_schema r + RETRY_SCHEMA_OFFSET));
      unfold RETRY_SCHEMA_OFFSET in *; lia.
  - destruct (N.ltb_spec 22 (message_schema r)); lia.
Qed.

(** What a message carries passes the decoder's header check. *)
Lemma wire_matches_encoded r text :
  request_validate r = Ok tt → message_operation_text sha256 r = Ok text →
  wire_matches_target sha256 r text = Ok true.
Proof.
  intros Hv He. unfold wire_matches_target. cbv zeta.
  destruct (is_some (fwmark_mask (route r))) eqn:Hm.
  - rewrite message_text_masked in He by done. rewrite He. cbn [mbind result_bind].
    assert (∃ h, head (lines text) = Some h) as [h Hh].
    { unfold request_encode in He. cbv zeta in He. apply encode_head in He as (_ & _ & He).
      destruct (is_some (server_failure_retries r)); [destruct He | destruct He as (h & _ & He & _)]; eauto. }
    rewrite Hh. cbn. by rewrite bool_decide_true.
  - rewrite message_text_schema in He by done. apply encode_head in He as (_ & _ & He).
    rewrite legacy_of_message in He. unfold message_full_schema in He.
    destruct (is_some (server_failure_retries r)).
    + destruct He as [-> _]. cbn. by rewrite String.eqb_refl.
    + destruct He as (h & Hh & -> & _). rewrite Hh. cbn. by rewrite String.eqb_refl.
Qed.

Lemma header_injective s1 s2 :
  (4 ≤ s1)%N → (s1 ≤ 22)%N → (4 ≤ s2)%N → (s2 ≤ 22)%N →
  legacy_request_header s1 = legacy_request_header s2 → s1 = s2.
Proof.
  intros H1 H2 H3 H4 H.
  destruct (legacy_header_ok s1 H1 H2) as (h1 & E1 & F1 & _).
  destruct (legacy_header_ok s2 H3 H4) as (h2 & E2 & F2 & _). congruence.
Qed.

Lemma retry_header_injective s1 s2 :
  (4 ≤ s1)%N → (s1 ≤ 22)%N → (4 ≤ s2)%N → (s2 ≤ 22)%N →
  retry_request_header (s1 + RETRY_SCHEMA_OFFSET) = retry_request_header (s2 + RETRY_SCHEMA_OFFSET) →
  s1 = s2.
Proof.
  intros H1 H2 H3 H4 H.
  destruct (retry_header_ok s1 H1 H2) as (F1 & _). destruct (retry_header_ok s2 H3 H4) as (F2 & _).
  rewrite H, F2 in F1. injection F1. lia.
Qed.

(** Conversely, the header check leaves only the text a message carries. *)
Lemma wire_matches_canonical r text :
  request_decode sha256 text = Ok r → wire_matches_target sha256 r text = Ok true →
  message_operation_text sha256 r = Ok text.
Proof.
  intros [Hv [full He]]%decode_sound Hw. unfold wire_matches_target in Hw. cbv zeta in Hw.
  pose proof (encode_inv _ _ _ _ He) as (Hlo & Hhi & _ & Hc & _).
  pose proof (encode_head _ _ _ He) as (_ & _ & Hh).
  pose proof (legacy_retry_schema _ _ _ _ He) as Hfull.
  destruct (is_some (fwmark_mask (route r))) eqn:Hm.
  - rewrite message_text_masked by done. destruct (check_schema_fits _ _ _ Hlo Hc) as [_ Hfit].
    unfold request_encode. cbv zeta. destruct (schema_unique r _ Hhi Hfit) as [Hs | [Hs _]].
    + by rewrite Hs, <- Hfull.
    + pose proof (fit_mask _ _ Hfit) as Hx. by rewrite Hs, Hm in Hx.
  - rewrite message_text_schema by done. rewrite <- He. f_equal. rewrite Hfull.
    pose proof (message_schema_range r) as [M1 M2]. unfold message_full_schema.
    destruct (is_some (server_failure_retries r)).
    + destruct Hh as [Hh _]. rewrite Hh in Hw. apply ret_ok_inv, String.eqb_eq in Hw.
      f_equal. symmetry. by apply retry_header_injective.
    + destruct Hh as (h & E1 & E2 & E3). rewrite E2 in Hw. cbn [default] in Hw.
      destruct (legacy_request_header (message_schema r)) as [h' |] eqn:E; [| done].
      apply ret_ok_inv, String.eqb_eq in Hw. subst h'. rewrite E3 in E1.
      symmetry. apply header_injective; [done | done | done | done | by rewrite E1, E].
Qed.
End message_lemmas.

(** ** The message round trips *)

Lemma encode_nonempty sha256 full r text :
  encode_for_schema sha256 full r = Ok text →
  String.eqb text "" = false ∧ ends_with_char nl text = true.
Proof.
  intros (_ & _ & _ & _ & fields & _ & H)%encode_inv.
  assert (Hrec : ∀ h fs, text = record_text h fs →
    String.eqb text "" = false ∧ ends_with_char nl text = true).
  { intros h fs ->. split; [| apply record_ends_nl].
    destruct (String.eqb_spec (record_text h fs) "") as [E |]; [| done].
    pose proof (record_ends_nl h fs) as Hn. by rewrite E in Hn. }
  destruct (server_failure_retries r).
  - apply encode_record_inv in H as [H _]. by eapply Hrec.
  - destruct H as (h & _ & H). apply encode_record_inv in H as [H _]. by eapply Hrec.
Qed.

Lemma message_text_encoded sha256 r text :
  message_operation_text sha256 r = Ok text →
  ∃ full, encode_for_schema sha256 full r = Ok text.
Proof.
  unfold message_operation_text, request_encode. cbv zeta.
  intros H. destruct (_ || _); [eauto |]. destruct (target_state r); eauto.
Qed.

Lemma control_ends c s : control_encode c = Ok s → ends_with_char nl s = true.
Proof.
  unfold control_encode. intros H. apply bind_ok_inv in H as ([] & _ & H).
  apply encode_record_inv in H as [-> _]. apply record_ends_nl.
Qed.

Lemma split_at_join n s : (split_at n s).1 +:+ (split_at n s).2 = s.
Proof.
  revert s. induction n as [|n IH]; intros s; [done |].
  destruct s as [|c s]; [done |]. cbn [split_at]. specialize (IH s).
  destruct (split_at n s) as [a b]. cbn in *. by rewrite IH.
Qed.

Section message_theorems.
Context (sha256 : string → string).

(** Control messages round trip: what a client encodes - any command, and for
    [start] the operation request with it - is what the coordinator decodes, for
    every lifecycle, planning, route and retry form of the request. *)
Theorem message_decode_encode m text :
  (∀ r, m.(message_operation) = Some r → request_typed r) →
  message_encode sha256 m = Ok text → message_decode sha256 text = Ok m.
Proof.
  intros Ht He. unfold message_encode in He.
  apply bind_ok_inv in He as ([] & Hv & He). apply bind_ok_inv in He as (c & Hc & He).
  apply bind_ok_inv in He as (t & Hop & He). apply bind_ok_inv in He as ([] & Hlen & He).
  apply fail_if_ok_inv in Hlen. apply ret_ok_inv in He as <-.
  unfold message_decode. rewrite Hlen. cbn [orb].
  destruct (message_operation m) as [r |] eqn:Er.
  - apply bind_ok_inv in Hop as (o & Ho & Hop). apply ret_ok_inv in Hop as <-.
    destruct (message_text_encoded _ _ _ Ho) as [full Hf].
    destruct (encode_nonempty _ _ _ _ Hf) as [Hne Hnl].
    assert (Hvr : request_validate r = Ok tt).
    { unfold message_validate in Hv. apply bind_ok_inv in Hv as ([] & _ & Hv).
      rewrite Er in Hv. destruct (command (control m)); try discriminate.
      apply bind_ok_inv in Hv as ([] & Hv & _). exact Hv. }
    rewrite (ends_with_char_append_r _ _ _ Hnl). cbn [negb fail_if mbind result_bind].
    rewrite (control_end _ _ _ Hc). cbn [ok_or mbind result_bind].
    rewrite split_at_append, (control_roundtrip _ _ Hc). cbn [mbind result_bind].
    rewrite Hne, (decode_encode_any _ _ _ _ (Ht r eq_refl) Hf). cbn [mbind result_bind mret result_ret].
    replace (Build_ControlMessage _ _) with m by (destruct m; cbn in *; by subst).
    rewrite Hv. cbn [mbind result_bind]. by rewrite wire_matches_encoded.
  - apply ret_ok_inv in Hop as <-. rewrite (control_ends _ _ Hc).
    cbn [negb fail_if mbind result_bind].
    pose proof (control_end _ _ "" Hc) as Hend. rewrite append_nil_r in Hend. rewrite Hend.
    cbn [ok_or mbind result_bind].
    pose proof (split_at_append c "") as Hsplit. rewrite append_nil_r in Hsplit. rewrite Hsplit.
    rewrite (control_roundtrip _ _ Hc). cbn [String.eqb mbind result_bind mret result_ret].
    replace (Build_ControlMessage _ _) with m by (destruct m; cbn in *; by subst).
    by rewrite Hv.
Qed.

(** Control messages are canonical: a text the coordinator accepts is valid, only
    [start] carries an operation, whose job identity is the control record's own,
    and the text is byte for byte the one [ControlMessage::encode] writes for it.
    In particular an operation record of another schema, even one that decodes to
    the same request, is refused. *)
Theorem message_decode_canonical text m :
  message_decode sha256 text = Ok m →
  message_validate m = Ok tt ∧ message_encode sha256 m = Ok text.
Proof.
  unfold message_decode. intros H. apply bind_ok_inv in H as ([] & Hb & H).
  apply fail_if_ok_inv, orb_false_iff in Hb as [Hlen _].
  apply bind_ok_inv in H as (n & _ & H).
  pose proof (split_at_join n text) as Hjoin. destruct (split_at n text) as [a b].
  cbn [fst snd] in Hjoin. apply bind_ok_inv in H as (c & Hc & H).
  apply bind_ok_inv in H as (o & Ho & H). apply bind_ok_inv in H as ([] & Hv & H).
  apply bind_ok_inv in H as ([] & Hw & H). apply ret_ok_inv in H as <-.
  split; [done |]. unfold message_encode. rewrite Hv. cbn [mbind result_bind control].
  rewrite (control_decode_sound _ _ Hc). cbn [mbind result_bind message_operation].
  destruct (String.eqb_spec b "") as [-> | Hb].
  - apply ret_ok_inv in Ho as <-. rewrite append_nil_r in Hjoin. subst a.
    cbn [mbind result_bind mret result_ret]. by rewrite Hlen.
  - apply bind_ok_inv in Ho as (r & Hr & Ho). apply ret_ok_inv in Ho as <-.
    apply bind_ok_inv in Hw as (matches & Hw & Hm). apply fail_if_ok_inv, negb_false_iff in Hm.
    subst matches. rewrite (wire_matches_canonical _ _ _ Hr Hw).
    cbn [mbind result_bind mret result_ret]. rewrite Hjoin. by rewrite Hlen.
Qed.
End message_theorems.

(** ** Witnesses *)

Module MessageSample.
Definition start : ControlRequest := {|
  request_id := RequestSample.repeat_char 32 "c"; command := Start;
  ctl_job_id := Some RequestSample.id.(job_id);
  ctl_job_token := Some RequestSample.id.(job_token) |}.
Definition message : ControlMessage :=
  {| control := start; message_operation := Some RequestSample.request |}.
Definition text : string :=
  match message_encode RequestSample.digest message with Ok s => s | Err _ => "" end.
End MessageSample.

Lemma message_decode_encode_witness :
  message_decode RequestSample.digest MessageSample.text = Ok MessageSample.message.
Proof.
  apply message_decode_encode; [| by vm_compute].
  intros r [= <-]. apply sample_request_typed.
Defined.

Lemma message_decode_canonical_witness :
  message_encode RequestSample.digest MessageSample.message = Ok MessageSample.text.
Proof. apply message_decode_canonical. by vm_compute. Defined.
