(* ===== verification/JobJournal.v ===== *)
(** * The job journal: the durable life cycle of one calibration job

    Models [operations/state.rs] and [JobJournal] of [operations/journal.rs]:
    the journal a coordinator keeps for every job, its validity, and each method
    that changes it. The methods assign fields before their last check, so an
    error can leave a partly updated journal behind; the model keeps that: a
    method is a state computation whose state survives an error. *)

From S2P Require Import Prelude RustStr SchedRecord PercentRecord Vocabulary RustNet CapturePolicy OperationRequest.
Local Open Scope string_scope.

(** ** [operations/state.rs] *)

Definition transition_allowed (from to : OperationState) : bool :=
  match from, to with
  | Queued, (Starting | Cancelling | Failed | Cancelled) => true
  | Starting, (Running | Cancelling | Recovering | Failed | Cancelled) => true
  | Running, (Cancelling | Recovering | ReviewReady | Completed | Failed | Cancelled) => true
  | Cancelling, (Recovering | Failed | Cancelled) => true
  | Recovering, (ReviewReady | Completed | Failed | Cancelled) => true
  | _, _ => false
  end.

(** The [Debug] name of a state, for the error text. *)
Definition state_debug (s : OperationState) : string :=
  match s with
  | Queued => "Queued" | Starting => "Starting" | Running => "Running"
  | Cancelling => "Cancelling" | Recovering => "Recovering" | ReviewReady => "ReviewReady"
  | Completed => "Completed" | Failed => "Failed" | Cancelled => "Cancelled"
  end.

Definition validate_transition (from to : OperationState) : Res unit :=
  if transition_allowed from to then Ok tt
  else Err ("invalid calibration job transition: " +:+ state_debug from +:+ " -> "
            +:+ state_debug to).

Definition terminal (s : OperationState) : bool :=
  match s with ReviewReady | Completed | Failed | Cancelled => true | _ => false end.

(** ** Data *)

Record ProcessIdentity := { pid : N; process_group : N; starttime_ticks : N }.

Record CoordinatorIdentity := {
  coordinator_boot_id : string;
  coordinator_generation : string;
  coordinator_process : ProcessIdentity;
}.

#[export] Instance ProcessIdentity_eq_dec : EqDecision ProcessIdentity.
Proof. solve_decision. Defined.

(** Every number of an identity fits its field. *)
Definition identity_typed (p : ProcessIdentity) : Prop :=
  is_u32 p.(pid) ∧ is_u32 p.(process_group) ∧ is_u64 p.(starttime_ticks).

(** The fields of [JobJournal]; [j_generation] is [coordinator_generation]. *)
Record JobJournal := {
  j_job_id : string;
  j_boot_id : string;
  j_generation : string;
  j_state : OperationState;
  j_sequence : N;
  j_heavy_traffic : bool;
  j_heavy_lease_acquired : bool;
  j_instance : string;
  j_target_interface : string;
  j_sqm_fingerprint : string;
  j_process : option ProcessIdentity;
  j_runtime_owner_process : option ProcessIdentity;
  j_worker_run_id : option string;
  j_terminal_kind : option string;
  j_terminal_state : option string;
  j_publication_boot_id : option string;
  j_publication_generation : option string;
  j_diagnostic_code : option string;
  j_reconcile_attempts : N;
  j_runtime_mutated : bool;
  j_recovery_required : bool;
  j_history_decision_required : bool;
}.

#[export] Instance JobJournal_eq_dec : EqDecision JobJournal.
Proof. solve_decision. Defined.

(** *** Field assignments *)

Definition set_generation (v : string) (j : JobJournal) : JobJournal := {|
  j_job_id := j.(j_job_id); j_boot_id := j.(j_boot_id); j_generation := v;
  j_state := j.(j_state); j_sequence := j.(j_sequence); j_heavy_traffic := j.(j_heavy_traffic);
  j_heavy_lease_acquired := j.(j_heavy_lease_acquired); j_instance := j.(j_instance);
  j_target_interface := j.(j_target_interface); j_sqm_fingerprint := j.(j_sqm_fingerprint);
  j_process := j.(j_process); j_runtime_owner_process := j.(j_runtime_owner_process);
  j_worker_run_id := j.(j_worker_run_id); j_terminal_kind := j.(j_terminal_kind);
  j_terminal_state := j.(j_terminal_state); j_publication_boot_id := j.(j_publication_boot_id);
  j_publication_generation := j.(j_publication_generation);
  j_diagnostic_code := j.(j_diagnostic_code); j_reconcile_attempts := j.(j_reconcile_attempts);
  j_runtime_mutated := j.(j_runtime_mutated); j_recovery_required := j.(j_recovery_required);
  j_history_decision_required := j.(j_history_decision_required) |}.

Definition set_state (v : OperationState) (j : JobJournal) : JobJournal := {|
  j_job_id := j.(j_job_id); j_boot_id := j.(j_boot_id); j_generation := j.(j_generation);
  j_state := v; j_sequence := j.(j_sequence); j_heavy_traffic := j.(j_heavy_traffic);
  j_heavy_lease_acquired := j.(j_heavy_lease_acquired); j_instance := j.(j_instance);
  j_target_interface := j.(j_target_interface); j_sqm_fingerprint := j.(j_sqm_fingerprint);
  j_process := j.(j_process); j_runtime_owner_process := j.(j_runtime_owner_process);
  j_worker_run_id := j.(j_worker_run_id); j_terminal_kind := j.(j_terminal_kind);
  j_terminal_state := j.(j_terminal_state); j_publication_boot_id := j.(j_publication_boot_id);
  j_publication_generation := j.(j_publication_generation);
  j_diagnostic_code := j.(j_diagnostic_code); j_reconcile_attempts := j.(j_reconcile_attempts);
  j_runtime_mutated := j.(j_runtime_mutated); j_recovery_required := j.(j_recovery_required);
  j_history_decision_required := j.(j_history_decision_required) |}.

Definition set_sequence (v : N) (j : JobJournal) : JobJournal := {|
  j_job_id := j.(j_job_id); j_boot_id := j.(j_boot_id); j_generation := j.(j_generation);
  j_state := j.(j_state); j_sequence := v; j_heavy_traffic := j.(j_heavy_traffic);
  j_heavy_lease_acquired := j.(j_heavy_lease_acquired); j_instance := j.(j_instance);
  j_target_interface := j.(j_target_interface); j_sqm_fingerprint := j.(j_sqm_fingerprint);
  j_process := j.(j_process); j_runtime_owner_process := j.(j_runtime_owner_process);
  j_worker_run_id := j.(j_worker_run_id); j_terminal_kind := j.(j_terminal_kind);
  j_terminal_state := j.(j_terminal_state); j_publication_boot_id := j.(j_publication_boot_id);
  j_publication_generation := j.(j_publication_generation);
  j_diagnostic_code := j.(j_diagnostic_code); j_reconcile_attempts := j.(j_reconcile_attempts);
  j_runtime_mutated := j.(j_runtime_mutated); j_recovery_required := j.(j_recovery_required);
  j_history_decision_required := j.(j_history_decision_required) |}.

Definition set_heavy_lease_acquired (v : bool) (j : JobJournal) : JobJournal := {|
  j_job_id := j.(j_job_id); j_boot_id := j.(j_boot_id); j_generation := j.(j_generation);
  j_state := j.(j_state); j_sequence := j.(j_sequence); j_heavy_traffic := j.(j_heavy_traffic);
  j_heavy_lease_acquired := v; j_instance := j.(j_instance);
  j_target_interface := j.(j_target_interface); j_sqm_fingerprint := j.(j_sqm_fingerprint);
  j_process := j.(j_process); j_runtime_owner_process := j.(j_runtime_owner_process);
  j_worker_run_id := j.(j_worker_run_id); j_terminal_kind := j.(j_terminal_kind);
  j_terminal_state := j.(j_terminal_state); j_publication_boot_id := j.(j_publication_boot_id);
  j_publication_generation := j.(j_publication_generation);
  j_diagnostic_code := j.(j_diagnostic_code); j_reconcile_attempts := j.(j_reconcile_attempts);
  j_runtime_mutated := j.(j_runtime_mutated); j_recovery_required := j.(j_recovery_required);
  j_history_decision_required := j.(j_history_decision_required) |}.

Definition set_process (v : option ProcessIdentity) (j : JobJournal) : JobJournal := {|
  j_job_id := j.(j_job_id); j_boot_id := j.(j_boot_id); j_generation := j.(j_generation);
  j_state := j.(j_state); j_sequence := j.(j_sequence); j_heavy_traffic := j.(j_heavy_traffic);
  j_heavy_lease_acquired := j.(j_heavy_lease_acquired); j_instance := j.(j_instance);
  j_target_interface := j.(j_target_interface); j_sqm_fingerprint := j.(j_sqm_fingerprint);
  j_process := v; j_runtime_owner_process := j.(j_runtime_owner_process);
  j_worker_run_id := j.(j_worker_run_id); j_terminal_kind := j.(j_terminal_kind);
  j_terminal_state := j.(j_terminal_state); j_publication_boot_id := j.(j_publication_boot_id);
  j_publication_generation := j.(j_publication_generation);
  j_diagnostic_code := j.(j_diagnostic_code); j_reconcile_attempts := j.(j_reconcile_attempts);
  j_runtime_mutated := j.(j_runtime_mutated); j_recovery_required := j.(j_recovery_required);
  j_history_decision_required := j.(j_history_decision_required) |}.

Definition set_runtime_owner_process (v : option ProcessIdentity) (j : JobJournal) : JobJournal := {|
  j_job_id := j.(j_job_id); j_boot_id := j.(j_boot_id); j_generation := j.(j_generation);
  j_state := j.(j_state); j_sequence := j.(j_sequence); j_heavy_traffic := j.(j_heavy_traffic);
  j_heavy_lease_acquired := j.(j_heavy_lease_acquired); j_instance := j.(j_instance);
  j_target_interface := j.(j_target_interface); j_sqm_fingerprint := j.(j_sqm_fingerprint);
  j_process := j.(j_process); j_runtime_owner_process := v;
  j_worker_run_id := j.(j_worker_run_id); j_terminal_kind := j.(j_terminal_kind);
  j_terminal_state := j.(j_terminal_state); j_publication_boot_id := j.(j_publication_boot_id);
  j_publication_generation := j.(j_publication_generation);
  j_diagnostic_code := j.(j_diagnostic_code); j_reconcile_attempts := j.(j_reconcile_attempts);
  j_runtime_mutated := j.(j_runtime_mutated); j_recovery_required := j.(j_recovery_required);
  j_history_decision_required := j.(j_history_decision_required) |}.

Definition set_worker_run_id (v : option string) (j : JobJournal) : JobJournal := {|
  j_job_id := j.(j_job_id); j_boot_id := j.(j_boot_id); j_generation := j.(j_generation);
  j_state := j.(j_state); j_sequence := j.(j_sequence); j_heavy_traffic := j.(j_heavy_traffic);
  j_heavy_lease_acquired := j.(j_heavy_lease_acquired); j_instance := j.(j_instance);
  j_target_interface := j.(j_target_interface); j_sqm_fingerprint := j.(j_sqm_fingerprint);
  j_process := j.(j_process); j_runtime_owner_process := j.(j_runtime_owner_process);
  j_worker_run_id := v; j_terminal_kind := j.(j_terminal_kind);
  j_terminal_state := j.(j_terminal_state); j_publication_boot_id := j.(j_publication_boot_id);
  j_publication_generation := j.(j_publication_generation);
  j_diagnostic_code := j.(j_diagnostic_code); j_reconcile_attempts := j.(j_reconcile_attempts);
  j_runtime_mutated := j.(j_runtime_mutated); j_recovery_required := j.(j_recovery_required);
  j_history_decision_required := j.(j_history_decision_required) |}.

Definition set_terminal_kind (v : option string) (j : JobJournal) : JobJournal := {|
  j_job_id := j.(j_job_id); j_boot_id := j.(j_boot_id); j_generation := j.(j_generation);
  j_state := j.(j_state); j_sequence := j.(j_sequence); j_heavy_traffic := j.(j_heavy_traffic);
  j_heavy_lease_acquired := j.(j_heavy_lease_acquired); j_instance := j.(j_instance);
  j_target_interface := j.(j_target_interface); j_sqm_fingerprint := j.(j_sqm_fingerprint);
  j_process := j.(j_process); j_runtime_owner_process := j.(j_runtime_owner_process);
  j_worker_run_id := j.(j_worker_run_id); j_terminal_kind := v;
  j_terminal_state := j.(j_terminal_state); j_publication_boot_id := j.(j_publication_boot_id);
  j_publication_generation := j.(j_publication_generation);
  j_diagnostic_code := j.(j_diagnostic_code); j_reconcile_attempts := j.(j_reconcile_attempts);
  j_runtime_mutated := j.(j_runtime_mutated); j_recovery_required := j.(j_recovery_required);
  j_history_decision_required := j.(j_history_decision_required) |}.

Definition set_terminal_state (v : option string) (j : JobJournal) : JobJournal := {|
  j_job_id := j.(j_job_id); j_boot_id := j.(j_boot_id); j_generation := j.(j_generation);
  j_state := j.(j_state); j_sequence := j.(j_sequence); j_heavy_traffic := j.(j_heavy_traffic);
  j_heavy_lease_acquired := j.(j_heavy_lease_acquired); j_instance := j.(j_instance);
  j_target_interface := j.(j_target_interface); j_sqm_fingerprint := j.(j_sqm_fingerprint);
  j_process := j.(j_process); j_runtime_owner_process := j.(j_runtime_owner_process);
  j_worker_run_id := j.(j_worker_run_id); j_terminal_kind := j.(j_terminal_kind);
  j_terminal_state := v; j_publication_boot_id := j.(j_publication_boot_id);
  j_publication_generation := j.(j_publication_generation);
  j_diagnostic_code := j.(j_diagnostic_code); j_reconcile_attempts := j.(j_reconcile_attempts);
  j_runtime_mutated := j.(j_runtime_mutated); j_recovery_required := j.(j_recovery_required);
  j_history_decision_required := j.(j_history_decision_required) |}.

Definition set_publication_boot_id (v : option string) (j : JobJournal) : JobJournal := {|
  j_job_id := j.(j_job_id); j_boot_id := j.(j_boot_id); j_generation := j.(j_generation);
  j_state := j.(j_state); j_sequence := j.(j_sequence); j_heavy_traffic := j.(j_heavy_traffic);
  j_heavy_lease_acquired := j.(j_heavy_lease_acquired); j_instance := j.(j_instance);
  j_target_interface := j.(j_target_interface); j_sqm_fingerprint := j.(j_sqm_fingerprint);
  j_process := j.(j_process); j_runtime_owner_process := j.(j_runtime_owner_process);
  j_worker_run_id := j.(j_worker_run_id); j_terminal_kind := j.(j_terminal_kind);
  j_terminal_state := j.(j_terminal_state); j_publication_boot_id := v;
  j_publication_generation := j.(j_publication_generation);
  j_diagnostic_code := j.(j_diagnostic_code); j_reconcile_attempts := j.(j_reconcile_attempts);
  j_runtime_mutated := j.(j_runtime_mutated); j_recovery_required := j.(j_recovery_required);
  j_history_decision_required := j.(j_history_decision_required) |}.

Definition set_publication_generation (v : option string) (j : JobJournal) : JobJournal := {|
  j_job_id := j.(j_job_id); j_boot_id := j.(j_boot_id); j_generation := j.(j_generation);
  j_state := j.(j_state); j_sequence := j.(j_sequence); j_heavy_traffic := j.(j_heavy_traffic);
  j_heavy_lease_acquired := j.(j_heavy_lease_acquired); j_instance := j.(j_instance);
  j_target_interface := j.(j_target_interface); j_sqm_fingerprint := j.(j_sqm_fingerprint);
  j_process := j.(j_process); j_runtime_owner_process := j.(j_runtime_owner_process);
  j_worker_run_id := j.(j_worker_run_id); j_terminal_kind := j.(j_terminal_kind);
  j_terminal_state := j.(j_terminal_state); j_publication_boot_id := j.(j_publication_boot_id);
  j_publication_generation := v; j_diagnostic_code := j.(j_diagnostic_code);
  j_reconcile_attempts := j.(j_reconcile_attempts); j_runtime_mutated := j.(j_runtime_mutated);
  j_recovery_required := j.(j_recovery_required);
  j_history_decision_required := j.(j_history_decision_required) |}.

Definition set_diagnostic_code (v : option string) (j : JobJournal) : JobJournal := {|
  j_job_id := j.(j_job_id); j_boot_id := j.(j_boot_id); j_generation := j.(j_generation);
  j_state := j.(j_state); j_sequence := j.(j_sequence); j_heavy_traffic := j.(j_heavy_traffic);
  j_heavy_lease_acquired := j.(j_heavy_lease_acquired); j_instance := j.(j_instance);
  j_target_interface := j.(j_target_interface); j_sqm_fingerprint := j.(j_sqm_fingerprint);
  j_process := j.(j_process); j_runtime_owner_process := j.(j_runtime_owner_process);
  j_worker_run_id := j.(j_worker_run_id); j_terminal_kind := j.(j_terminal_kind);
  j_terminal_state := j.(j_terminal_state); j_publication_boot_id := j.(j_publication_boot_id);
  j_publication_generation := j.(j_publication_generation); j_diagnostic_code := v;
  j_reconcile_attempts := j.(j_reconcile_attempts); j_runtime_mutated := j.(j_runtime_mutated);
  j_recovery_required := j.(j_recovery_required);
  j_history_decision_required := j.(j_history_decision_required) |}.

Definition set_runtime_mutated (v : bool) (j : JobJournal) : JobJournal := {|
  j_job_id := j.(j_job_id); j_boot_id := j.(j_boot_id); j_generation := j.(j_generation);
  j_state := j.(j_state); j_sequence := j.(j_sequence); j_heavy_traffic := j.(j_heavy_traffic);
  j_heavy_lease_acquired := j.(j_heavy_lease_acquired); j_instance := j.(j_instance);
  j_target_interface := j.(j_target_interface); j_sqm_fingerprint := j.(j_sqm_fingerprint);
  j_process := j.(j_process); j_runtime_owner_process := j.(j_runtime_owner_process);
  j_worker_run_id := j.(j_worker_run_id); j_terminal_kind := j.(j_terminal_kind);
  j_terminal_state := j.(j_terminal_state); j_publication_boot_id := j.(j_publication_boot_id);
  j_publication_generation := j.(j_publication_generation);
  j_diagnostic_code := j.(j_diagnostic_code); j_reconcile_attempts := j.(j_reconcile_attempts);
  j_runtime_mutated := v; j_recovery_required := j.(j_recovery_required);
  j_history_decision_required := j.(j_history_decision_required) |}.

Definition set_recovery_required (v : bool) (j : JobJournal) : JobJournal := {|
  j_job_id := j.(j_job_id); j_boot_id := j.(j_boot_id); j_generation := j.(j_generation);
  j_state := j.(j_state); j_sequence := j.(j_sequence); j_heavy_traffic := j.(j_heavy_traffic);
  j_heavy_lease_acquired := j.(j_heavy_lease_acquired); j_instance := j.(j_instance);
  j_target_interface := j.(j_target_interface); j_sqm_fingerprint := j.(j_sqm_fingerprint);
  j_process := j.(j_process); j_runtime_owner_process := j.(j_runtime_owner_process);
  j_worker_run_id := j.(j_worker_run_id); j_terminal_kind := j.(j_terminal_kind);
  j_terminal_state := j.(j_terminal_state); j_publication_boot_id := j.(j_publication_boot_id);
  j_publication_generation := j.(j_publication_generation);
  j_diagnostic_code := j.(j_diagnostic_code); j_reconcile_attempts := j.(j_reconcile_attempts);
  j_runtime_mutated := j.(j_runtime_mutated); j_recovery_required := v;
  j_history_decision_required := j.(j_history_decision_required) |}.

Definition set_history_decision_required (v : bool) (j : JobJournal) : JobJournal := {|
  j_job_id := j.(j_job_id); j_boot_id := j.(j_boot_id); j_generation := j.(j_generation);
  j_state := j.(j_state); j_sequence := j.(j_sequence); j_heavy_traffic := j.(j_heavy_traffic);
  j_heavy_lease_acquired := j.(j_heavy_lease_acquired); j_instance := j.(j_instance);
  j_target_interface := j.(j_target_interface); j_sqm_fingerprint := j.(j_sqm_fingerprint);
  j_process := j.(j_process); j_runtime_owner_process := j.(j_runtime_owner_process);
  j_worker_run_id := j.(j_worker_run_id); j_terminal_kind := j.(j_terminal_kind);
  j_terminal_state := j.(j_terminal_state); j_publication_boot_id := j.(j_publication_boot_id);
  j_publication_generation := j.(j_publication_generation);
  j_diagnostic_code := j.(j_diagnostic_code); j_reconcile_attempts := j.(j_reconcile_attempts);
  j_runtime_mutated := j.(j_runtime_mutated); j_recovery_required := j.(j_recovery_required);
  j_history_decision_required := v |}.

(** ** Validity *)

Definition journal_hex (name value : string) (length : N) : Res unit :=
  fail_if (negb (len value =? length)%N || negb (all_bytes is_lower_hex value))
    ("journal " +:+ name +:+ " must be " +:+ show length +:+ " lowercase hex bytes").

Definition journal_identifier (name value extra : string) : Res unit :=
  fail_if (String.eqb value "" || (64 <? len value)%N
           || negb (all_bytes (λ c, is_ascii_alphanumeric c || contains c extra) value))
    ("journal " +:+ name +:+ " is unsafe").

Definition process_zero (p : ProcessIdentity) : bool :=
  (p.(pid) =? 0)%N || (p.(process_group) =? 0)%N || (p.(starttime_ticks) =? 0)%N.

Definition validate_owner (j : JobJournal) (process : ProcessIdentity) : Res unit :=
  fail_if (process_zero process) "runtime owner process identity must be non-zero" ≫= λ _,
  fail_if (negb (is_some j.(j_worker_run_id)) || negb j.(j_heavy_traffic) || terminal j.(j_state))
    "runtime owner requires a live, armed heavy-traffic job" ≫= λ _,
  fail_if (is_some_and (λ worker, bool_decide (worker = process)
                                  || (worker.(process_group) =? process.(process_group))%N)
             j.(j_process))
    "runtime owner must be isolated from the operation worker process group".

Definition validate_publication (j : JobJournal) : Res unit :=
  match j.(j_publication_boot_id), j.(j_publication_generation) with
  | None, None => Ok tt
  | Some boot_id, Some generation =>
      journal_hex "publication_boot_id" boot_id 32 ≫= λ _,
      journal_hex "publication_generation" generation 32 ≫= λ _,
      fail_if (negb (match j.(j_state) with ReviewReady | Completed => true | _ => false end)
               || negb (bool_decide (j.(j_terminal_kind) = Some "result"))
               || negb (bool_decide (j.(j_terminal_state) = Some "complete"))
               || j.(j_runtime_mutated) || j.(j_recovery_required)
               || is_some j.(j_process) || is_some j.(j_runtime_owner_process))
        "native publication identity requires an inert completed Review"
  | _, _ => Err "native publication identity is partial"
  end.

Definition journal_validate (j : JobJournal) : Res unit :=
  journal_hex "job_id" j.(j_job_id) 32 ≫= λ _,
  journal_hex "boot_id" j.(j_boot_id) 32 ≫= λ _,
  journal_hex "coordinator_generation" j.(j_generation) 32 ≫= λ _,
  journal_identifier "instance" j.(j_instance) "_-" ≫= λ _,
  journal_identifier "target_interface" j.(j_target_interface) "._:@-" ≫= λ _,
  journal_hex "sqm_fingerprint" j.(j_sqm_fingerprint) 64 ≫= λ _,
  fail_if (j.(j_sequence) =? 0)%N "journal sequence must be non-zero" ≫= λ _,
  fail_if (j.(j_recovery_required) && negb j.(j_runtime_mutated))
    "recovery cannot be required without a runtime mutation" ≫= λ _,
  fail_if (j.(j_heavy_lease_acquired) && negb j.(j_heavy_traffic))
    "light operation cannot own the heavy-traffic lease" ≫= λ _,
  check_some j.(j_process)
    (λ process, fail_if (process_zero process) "journal process identity must be non-zero") ≫= λ _,
  check_some j.(j_runtime_owner_process) (validate_owner j) ≫= λ _,
  check_some j.(j_worker_run_id) (λ run_id, journal_hex "worker_run_id" run_id 32) ≫= λ _,
  check_some j.(j_terminal_kind)
    (λ kind, fail_if (negb (String.eqb kind "result") && negb (String.eqb kind "error"))
               "journal terminal kind is unsupported") ≫= λ _,
  check_some j.(j_terminal_state) (λ s, journal_identifier "terminal_state" s "_-") ≫= λ _,
  check_some j.(j_diagnostic_code) (λ c, journal_identifier "diagnostic_code" c "_-") ≫= λ _,
  fail_if (1000000 <? j.(j_reconcile_attempts))%N
    "journal reconciliation attempt count is unreasonable" ≫= λ _,
  fail_if (is_some j.(j_process) && negb (is_some j.(j_worker_run_id)))
    "journal process requires an attached worker run identity" ≫= λ _,
  fail_if (negb (Bool.eqb (is_some j.(j_terminal_kind)) (is_some j.(j_terminal_state))))
    "journal terminal evidence is partial" ≫= λ _,
  fail_if (is_some j.(j_terminal_kind) && negb (terminal j.(j_state)))
    "journal terminal evidence requires a terminal state" ≫= λ _,
  validate_publication j.

(** ** Construction *)

Definition queued (request : OperationRequest) (coordinator : CoordinatorIdentity)
    (heavy_traffic : bool) : Res JobJournal :=
  request_validate request ≫= λ _,
  let journal := {|
    j_job_id := request.(identity).(job_id);
    j_boot_id := coordinator.(coordinator_boot_id);
    j_generation := coordinator.(coordinator_generation);
    j_state := Queued; j_sequence := 1; j_heavy_traffic := heavy_traffic;
    j_heavy_lease_acquired := false;
    j_instance := request.(identity).(instance);
    j_target_interface := request.(identity).(target_interface);
    j_sqm_fingerprint := request.(identity).(sqm_fingerprint);
    j_process := None; j_runtime_owner_process := None; j_worker_run_id := None;
    j_terminal_kind := None; j_terminal_state := None; j_publication_boot_id := None;
    j_publication_generation := None; j_diagnostic_code := None; j_reconcile_attempts := 0;
    j_runtime_mutated := false; j_recovery_required := false;
    j_history_decision_required :=
      request.(traffic_policy_explicit)
      && bool_decide (request.(identity).(operation) = FullAutotune)
      && bool_decide (request.(strategy) = Some FullRaw) && request.(allow_sqm_disable) |} in
  journal_validate journal ≫= λ _, mret journal.

(** ** The methods *)

Abbreviation Journal := (M JobJournal string).

(** [self.validate()] as the value of a method *)
Definition validate_self : Journal unit := λ j, (journal_validate j, j).

(** [if cond { return Err(e) }] on the current journal *)
Definition refuse_if (cond : JobJournal → bool) (e : string) : Journal unit :=
  j ← get; lift (fail_if (cond j) e).

(** [self.sequence = self.sequence.checked_add(1).ok_or_else(..)?] *)
Definition bump_journal : Journal unit :=
  j ← get;
  sequence ← lift (ok_or (u64_checked_add j.(j_sequence) 1) "journal sequence overflow");
  modify (set_sequence sequence).

Definition transition (next : OperationState) : Journal unit :=
  j ← get;
  lift (validate_transition j.(j_state) next) ≫= λ _,
  bump_journal ≫= λ _,
  modify (set_state next) ≫= λ _,
  validate_self.

Definition fail_before_runtime_mutation (diagnostic_code : string) : Journal unit :=
  refuse_if (λ j, j.(j_runtime_mutated) || j.(j_recovery_required) || is_some j.(j_process))
    "preflight failure cannot settle a runtime-owning journal" ≫= λ _,
  transition Failed ≫= λ _,
  lift (journal_identifier "diagnostic_code" diagnostic_code "_-") ≫= λ _,
  modify (set_diagnostic_code (Some diagnostic_code)) ≫= λ _,
  modify (set_heavy_lease_acquired false) ≫= λ _,
  validate_self.

Definition mark_heavy_lease_acquired : Journal unit :=
  refuse_if (λ j, negb j.(j_heavy_traffic) || j.(j_heavy_lease_acquired))
    "heavy lease is not required or is already journalled" ≫= λ _,
  refuse_if (λ j, negb (bool_decide (j.(j_state) = Queued)) || j.(j_runtime_mutated)
                  || j.(j_recovery_required) || is_some j.(j_process))
    "heavy lease can be armed only before runtime mutation" ≫= λ _,
  bump_journal ≫= λ _,
  modify (set_heavy_lease_acquired true) ≫= λ _,
  validate_self.

Definition mark_bootstrap_heavy_lease_acquired : Journal unit :=
  refuse_if (λ j, negb j.(j_heavy_traffic) || j.(j_heavy_lease_acquired))
    "bootstrap heavy lease is not required or is already journalled" ≫= λ _,
  refuse_if (λ j, negb (bool_decide (j.(j_state) = Running)) || j.(j_runtime_mutated)
                  || j.(j_recovery_required) || negb (is_some j.(j_process))
                  || negb (is_some j.(j_runtime_owner_process))
                  || negb (is_some j.(j_worker_run_id)))
    "bootstrap heavy lease requires an attached parked worker and runtime owner" ≫= λ _,
  bump_journal ≫= λ _,
  modify (set_heavy_lease_acquired true) ≫= λ _,
  validate_self.

Definition release_heavy_lease_during_recovery : Journal unit :=
  refuse_if (λ j, negb j.(j_heavy_traffic) || negb j.(j_heavy_lease_acquired)
                  || negb (bool_decide (j.(j_state) = Recovering))
                  || negb j.(j_runtime_mutated) || negb j.(j_recovery_required))
    "heavy lease can be detached only from an exact runtime recovery" ≫= λ _,
  bump_journal ≫= λ _,
  modify (set_heavy_lease_acquired false) ≫= λ _,
  validate_self.

Definition arm_native_worker (worker_run_id : string) : Journal unit :=
  refuse_if (λ j, j.(j_runtime_mutated) || j.(j_recovery_required) || is_some j.(j_process))
    "native worker cannot arm a runtime-owning journal" ≫= λ _,
  transition Starting ≫= λ _,
  lift (journal_hex "worker_run_id" worker_run_id 32) ≫= λ _,
  modify (set_worker_run_id (Some worker_run_id)) ≫= λ _,
  validate_self.

Definition attach_native_running (process : ProcessIdentity) (worker_run_id : string)
    : Journal unit :=
  refuse_if (λ j, negb (bool_decide (j.(j_state) = Starting)) || j.(j_runtime_mutated)
                  || j.(j_recovery_required) || is_some j.(j_process))
    "native worker can attach only to an armed non-mutating journal" ≫= λ _,
  refuse_if (λ j, negb (bool_decide (j.(j_worker_run_id) = Some worker_run_id)))
    "native worker identity differs from the armed journal" ≫= λ _,
  transition Running ≫= λ _,
  modify (set_process (Some process)) ≫= λ _,
  validate_self.

Definition arm_attached_runtime_mutation : Journal unit :=
  refuse_if (λ j, negb (bool_decide (j.(j_state) = Running)) || j.(j_runtime_mutated)
                  || j.(j_recovery_required) || negb (is_some j.(j_process))
                  || negb (is_some j.(j_worker_run_id)) || negb j.(j_heavy_traffic)
                  || negb j.(j_heavy_lease_acquired))
    "runtime mutation can arm only for an attached, leased native worker" ≫= λ _,
  bump_journal ≫= λ _,
  modify (set_runtime_mutated true) ≫= λ _,
  modify (set_recovery_required true) ≫= λ _,
  validate_self.

(** [let mut staged = self.clone(); ...; staged.validate()?; *self = staged;] *)
Definition staged_owner (process : option ProcessIdentity) : Journal unit :=
  j ← get;
  staged ← on_clone (bump_journal ≫= λ _,
                     modify (set_runtime_owner_process process) ≫= λ _,
                     validate_self) j;
  put staged.

Definition attach_bootstrap_runtime_owner (process : ProcessIdentity) : Journal unit :=
  refuse_if (λ j, negb (bool_decide (j.(j_state) = Running)) || j.(j_runtime_mutated)
                  || j.(j_recovery_required) || negb (is_some j.(j_process))
                  || negb (is_some j.(j_worker_run_id)) || negb j.(j_heavy_traffic)
                  || is_some j.(j_runtime_owner_process))
    "bootstrap runtime owner can attach only to a parked heavy-traffic worker" ≫= λ _,
  staged_owner (Some process).

Definition arm_attached_bootstrap_runtime_mutation : Journal unit :=
  refuse_if (λ j, negb (is_some j.(j_runtime_owner_process)))
    "bootstrap runtime mutation requires an attached runtime owner" ≫= λ _,
  arm_attached_runtime_mutation.

Definition clear_bootstrap_runtime_owner : Journal unit :=
  refuse_if (λ j, negb (is_some j.(j_runtime_owner_process)) || terminal j.(j_state))
    "bootstrap runtime owner is not attached to a live job" ≫= λ _,
  staged_owner None.

Definition replace_bootstrap_runtime_owner_during_recovery (process : ProcessIdentity)
    : Journal unit :=
  refuse_if (λ j, negb (bool_decide (j.(j_state) = Recovering)) || negb j.(j_runtime_mutated)
                  || negb j.(j_recovery_required) || negb (is_some j.(j_worker_run_id))
                  || negb j.(j_heavy_traffic))
    "bootstrap runtime owner can be replaced only during exact recovery" ≫= λ _,
  staged_owner (Some process).

Definition stop_attached_before_runtime_mutation (diagnostic_code : string) : Journal unit :=
  refuse_if (λ j, negb (bool_decide (j.(j_state) = Running)) || j.(j_runtime_mutated)
                  || j.(j_recovery_required) || negb (is_some j.(j_process))
                  || negb (is_some j.(j_worker_run_id)))
    "only an attached parked worker can stop before mutation" ≫= λ _,
  lift (journal_identifier "diagnostic_code" diagnostic_code "_-") ≫= λ _,
  transition Cancelling ≫= λ _,
  modify (set_diagnostic_code (Some diagnostic_code)) ≫= λ _,
  validate_self.

Definition settle_native_terminal (terminal_state : string) (diagnostic_code : option string)
    : Journal unit :=
  refuse_if (λ j, j.(j_runtime_mutated) || j.(j_recovery_required)
                  || negb (is_some j.(j_worker_run_id)))
    "native terminal cannot settle a runtime-owning or unarmed journal" ≫= λ _,
  '(next, terminal_kind) ← lift (ok_or
    (match_str [("complete", (Completed, "result")); ("cancelled", (Cancelled, "error"));
                ("incomplete", (Failed, "error")); ("failed", (Failed, "error"))] terminal_state)
    "native terminal state is unsupported");
  j ← get;
  lift (validate_transition j.(j_state) next) ≫= λ _,
  bump_journal ≫= λ _,
  modify (set_state next) ≫= λ _,
  modify (set_process None) ≫= λ _,
  modify (set_runtime_owner_process None) ≫= λ _,
  modify (set_terminal_kind (Some terminal_kind)) ≫= λ _,
  modify (set_terminal_state (Some terminal_state)) ≫= λ _,
  modify (set_heavy_lease_acquired false) ≫= λ _,
  modify (set_diagnostic_code diagnostic_code) ≫= λ _,
  validate_self.

(** The common guard of the two settlements that follow a restoration. *)
Definition unrestored (j : JobJournal) : bool :=
  negb (bool_decide (j.(j_state) = Recovering)) || negb j.(j_runtime_mutated)
  || negb j.(j_recovery_required) || negb (is_some j.(j_worker_run_id)) || is_some j.(j_process).

Definition settle_native_runtime_terminal (terminal_state : string)
    (diagnostic_code : option string) : Journal unit :=
  refuse_if unrestored
    "native runtime terminal requires an exactly restored recovering journal" ≫= λ _,
  let complete := String.eqb terminal_state "complete" && negb (is_some diagnostic_code) in
  '(next, terminal_kind) ← lift (ok_or
    (if complete then Some (ReviewReady, "result")
     else match_str [("cancelled", (Cancelled, "error")); ("inconclusive", (Failed, "error"));
                     ("failed", (Failed, "error"))] terminal_state)
    "native runtime terminal state is unsupported");
  transition next ≫= λ _,
  modify (set_terminal_kind (Some terminal_kind)) ≫= λ _,
  modify (set_terminal_state (Some terminal_state)) ≫= λ _,
  modify (λ j, if complete
               then set_publication_generation (Some j.(j_generation))
                      (set_publication_boot_id (Some j.(j_boot_id)) j)
               else set_publication_generation None (set_publication_boot_id None j)) ≫= λ _,
  modify (set_runtime_mutated false) ≫= λ _,
  modify (set_recovery_required false) ≫= λ _,
  modify (set_heavy_lease_acquired false) ≫= λ _,
  modify (set_diagnostic_code diagnostic_code) ≫= λ _,
  validate_self.

Definition settle_native_speedtest_runtime_terminal (terminal_state : string)
    (diagnostic_code : option string) : Journal unit :=
  refuse_if unrestored
    "native Speed Test runtime terminal requires an exactly restored recovering journal" ≫= λ _,
  '(next, terminal_kind) ← lift (ok_or
    (if String.eqb terminal_state "complete" && negb (is_some diagnostic_code)
     then Some (Completed, "result")
     else match_str [("cancelled", (Cancelled, "error")); ("failed", (Failed, "error"))]
            terminal_state)
    "native Speed Test runtime terminal state is unsupported");
  transition next ≫= λ _,
  modify (set_terminal_kind (Some terminal_kind)) ≫= λ _,
  modify (set_terminal_state (Some terminal_state)) ≫= λ _,
  modify (set_runtime_mutated false) ≫= λ _,
  modify (set_recovery_required false) ≫= λ _,
  modify (set_heavy_lease_acquired false) ≫= λ _,
  modify (set_diagnostic_code diagnostic_code) ≫= λ _,
  validate_self.

Definition require_recovery (diagnostic_code : string) : Journal unit :=
  j ← get;
  (if negb (bool_decide (j.(j_state) = Recovering)) then transition Recovering
   else bump_journal) ≫= λ _,
  modify (set_process None) ≫= λ _,
  modify (set_runtime_mutated true) ≫= λ _,
  modify (set_recovery_required true) ≫= λ _,
  modify (set_diagnostic_code (Some diagnostic_code)) ≫= λ _,
  validate_self.

Definition publication_identity (j : JobJournal) : Res (string * string) :=
  match j.(j_publication_boot_id), j.(j_publication_generation) with
  | Some boot_id, Some generation => Ok (boot_id, generation)
  | _, _ => Err "native Review has no immutable publication identity"
  end.

(** [JournalStore::adopt_generation], without the file it writes. *)
Definition adopt_generation (coordinator : CoordinatorIdentity) (j : JobJournal)
    : Res JobJournal :=
  journal_validate j ≫= λ _,
  fail_if (negb (String.eqb j.(j_boot_id) coordinator.(coordinator_boot_id)))
    "journal from another boot cannot be adopted" ≫= λ _,
  sequence ← ok_or (u64_checked_add j.(j_sequence) 1) "journal sequence overflow during adoption";
  let adopted := set_sequence sequence (set_generation coordinator.(coordinator_generation) j) in
  journal_validate adopted ≫= λ _, mret adopted.

(** ** Classification after a restart *)

Inductive JournalDisposition :=
| DQueued | DLaunching | DLiveProcess | DDeadBeforeMutation | DSettled | DRecoveryRequired
| DStaleBoot.

#[export] Instance JournalDisposition_eq_dec : EqDecision JournalDisposition.
Proof. solve_decision. Defined.

(** The disposition of [scan_one]; [still_matches] is what the kernel reports
    about the recorded worker process. *)
Definition disposition (coordinator_boot : string) (still_matches : ProcessIdentity → Res bool)
    (j : JobJournal) : JournalDisposition :=
  if negb (String.eqb j.(j_boot_id) coordinator_boot) then DStaleBoot
  else if terminal j.(j_state) && negb j.(j_runtime_mutated) then DSettled
  else if terminal j.(j_state) then DRecoveryRequired
  else match j.(j_process) with
       | Some process =>
           match still_matches process with
           | Ok true => DLiveProcess
           | Ok false => if j.(j_runtime_mutated) then DRecoveryRequired else DDeadBeforeMutation
           | Err _ => DRecoveryRequired
           end
       | None =>
           if j.(j_runtime_mutated) || j.(j_recovery_required) then DRecoveryRequired
           else if bool_decide (j.(j_state) = Starting) then DDeadBeforeMutation
           else DQueued
       end.

(** The guard of [retire_settled_job]. *)
Definition retirable (d : JournalDisposition) (j : JobJournal) : bool :=
  negb (negb (bool_decide (d = DSettled)) || negb (terminal j.(j_state)) || j.(j_runtime_mutated)
        || j.(j_recovery_required) || j.(j_heavy_lease_acquired) || is_some j.(j_process)
        || is_some j.(j_runtime_owner_process)).
