(* ===== verification/JournalLifecycle.v ===== *)
(** * The life cycle of a job journal

    The coordinator changes a journal only by calling one method on a clone and
    storing the clone when the method succeeds ([operations/coordinator.rs]).
    This file collects those calls in one event type, defines the journals a job
    can reach, and proves what holds of all of them: validity, the frame of
    every call, the ownership invariant, the abstract phases, what a restart
    concludes from a journal, and that no job is ever stuck. *)

From S2P Require Import Prelude RustStr SchedRecord PercentRecord Vocabulary RustNet CapturePolicy OperationRequest JobJournal.
Local Open Scope string_scope.

(** ** Events *)

(** The journal part of [cancel_job]: what happens to the clone [settled]. *)
Definition cancel_settled : Journal unit :=
  j ← get;
  let next := if bool_decide (j.(j_state) = Queued) then Cancelled else Cancelling in
  transition next ≫= λ _,
  if bool_decide (next = Cancelled) then modify (set_heavy_lease_acquired false) else mret tt.

(** [cancel_job] on the journal: an ended, recovering or already cancelled job is
    answered without a change. *)
Definition cancel_job_journal : Journal unit :=
  j ← get;
  if terminal j.(j_state) || bool_decide (j.(j_state) = Recovering)
     || bool_decide (j.(j_state) = Cancelling)
  then mret tt else cancel_settled.

Inductive OwnedStop := BudgetExceeded | AccountingFailed.

Definition owned_stop_code (s : OwnedStop) : string :=
  match s with
  | BudgetExceeded => "owned-traffic-budget-exceeded"
  | AccountingFailed => "owned-traffic-accounting-failed"
  end.

(** The journal part of [poll_owned_traffic_budgets]; it skips a job that has no worker run.
    The coordinator keeps the new journal in memory also when its update fails, so the
    properties of this step hold whether or not it reaches the store. *)
Definition owned_budget_stop (s : OwnedStop) : Journal unit :=
  refuse_if (λ j, negb (is_some j.(j_worker_run_id))) "no owned worker" ≫= λ _,
  transition Cancelling ≫= λ _,
  modify (set_diagnostic_code (Some (owned_stop_code s))).

Inductive JournalOp :=
| OpFailBeforeMutation (diagnostic_code : string)
| OpMarkLease
| OpMarkBootstrapLease
| OpReleaseLease
| OpArmWorker (worker_run_id : string)
| OpAttachRunning (process : ProcessIdentity) (worker_run_id : string)
| OpArmMutation
| OpAttachOwner (process : ProcessIdentity)
| OpArmBootstrapMutation
| OpClearOwner
| OpReplaceOwner (process : ProcessIdentity)
| OpStopAttached (diagnostic_code : string)
| OpSettleTerminal (terminal_state : string) (diagnostic_code : option string)
| OpSettleRuntime (terminal_state : string) (diagnostic_code : option string)
| OpSettleSpeedtest (terminal_state : string) (diagnostic_code : option string)
| OpRequireRecovery (diagnostic_code : string)
| OpCancel
| OpOwnedBudgetStop (stop : OwnedStop).

Definition journal_method (op : JournalOp) : Journal unit :=
  match op with
  | OpFailBeforeMutation c => fail_before_runtime_mutation c
  | OpMarkLease => mark_heavy_lease_acquired
  | OpMarkBootstrapLease => mark_bootstrap_heavy_lease_acquired
  | OpReleaseLease => release_heavy_lease_during_recovery
  | OpArmWorker run => arm_native_worker run
  | OpAttachRunning p run => attach_native_running p run
  | OpArmMutation => arm_attached_runtime_mutation
  | OpAttachOwner p => attach_bootstrap_runtime_owner p
  | OpArmBootstrapMutation => arm_attached_bootstrap_runtime_mutation
  | OpClearOwner => clear_bootstrap_runtime_owner
  | OpReplaceOwner p => replace_bootstrap_runtime_owner_during_recovery p
  | OpStopAttached c => stop_attached_before_runtime_mutation c
  | OpSettleTerminal t d => settle_native_terminal t d
  | OpSettleRuntime t d => settle_native_runtime_terminal t d
  | OpSettleSpeedtest t d => settle_native_speedtest_runtime_terminal t d
  | OpRequireRecovery c => require_recovery c
  | OpCancel => cancel_settled
  | OpOwnedBudgetStop s => owned_budget_stop s
  end.

(** [let mut next = job.journal.clone(); next.method(..)?; .. job.journal = next] *)
Definition committed (op : JournalOp) (j : JobJournal) : Res JobJournal :=
  match journal_method op j with
  | (Ok _, j') => Ok j'
  | (Err e, _) => Err e
  end.

(** The checks of [JournalStore::update], with the stored journal and request
    already decoded. *)
Definition journal_update_check (coordinator : CoordinatorIdentity) (previous : JobJournal)
    (request : OperationRequest) (j : JobJournal) : Res unit :=
  journal_validate j ≫= λ _,
  fail_if (negb (String.eqb j.(j_boot_id) coordinator.(coordinator_boot_id))
           || negb (String.eqb j.(j_generation) coordinator.(coordinator_generation)))
    "journal update belongs to another coordinator generation" ≫= λ _,
  fail_if (negb (Bool.eqb previous.(j_history_decision_required) j.(j_history_decision_required)))
    "journal update cannot change its admitted history policy" ≫= λ _,
  fail_if (negb (String.eqb request.(identity).(job_id) j.(j_job_id))
           || negb (String.eqb request.(identity).(instance) j.(j_instance))
           || negb (String.eqb request.(identity).(target_interface) j.(j_target_interface))
           || negb (String.eqb request.(identity).(sqm_fingerprint) j.(j_sqm_fingerprint)))
    "journal update identity does not match its request".

(** ** Start-up

    [persist] is the atomic replacement of the state file, which can fail. *)

(** [JournalStore::update] *)
Definition store_update (persist : JobJournal → Res unit) (coordinator : CoordinatorIdentity)
    (request : OperationRequest) (previous j : JobJournal) : Res unit :=
  journal_update_check coordinator previous request j ≫= λ _, persist j.

(** [JournalStore::adopt_generation] *)
Definition store_adopt (persist : JobJournal → Res unit) (coordinator : CoordinatorIdentity)
    (j : JobJournal) : Res JobJournal :=
  adopted ← adopt_generation coordinator j;
  persist adopted ≫= λ _, mret adopted.

Record StartupJob := {
  su_journal : JobJournal;
  su_disposition : JournalDisposition;
  su_issues : list string;
}.

(** [method(..).and_then(|_| journal_store.update(..))] on a clone: the journal and
    the disposition change together, or an issue is noted. *)
Definition startup_apply (persist : JobJournal → Res unit) (coordinator : CoordinatorIdentity)
    (request : OperationRequest) (op : JournalOp) (d : JournalDisposition)
    (issue : string → string) (s : StartupJob) : StartupJob :=
  match (next ← committed op s.(su_journal);
         store_update persist coordinator request s.(su_journal) next ≫= λ _, mret next) with
  | Ok next => {| su_journal := next; su_disposition := d; su_issues := s.(su_issues) |}
  | Err error => {| su_journal := s.(su_journal); su_disposition := s.(su_disposition);
                    su_issues := (s.(su_issues) ++ [issue error])%list |}
  end.

(** What start-up does with one scanned job: adopt it, settle it when its worker
    died before it touched the runtime, and normalise it into recovery. *)
Definition startup_adopt (persist : JobJournal → Res unit) (coordinator : CoordinatorIdentity)
    (j : JobJournal) : JobJournal * list string :=
  if String.eqb j.(j_boot_id) coordinator.(coordinator_boot_id)
     && negb (String.eqb j.(j_generation) coordinator.(coordinator_generation))
  then match store_adopt persist coordinator j with
       | Ok adopted => (adopted, [])
       | Err error => (j, ["unable to adopt job " +:+ j.(j_job_id)
                           +:+ " into the current coordinator generation: " +:+ error])
       end
  else (j, []).

Definition startup_job (persist : JobJournal → Res unit) (coordinator : CoordinatorIdentity)
    (still_matches : ProcessIdentity → Res bool) (request : OperationRequest) (j : JobJournal)
    : StartupJob :=
  let '(j1, issues) := startup_adopt persist coordinator j in
  let s1 := {| su_journal := j1;
               su_disposition := disposition coordinator.(coordinator_boot_id) still_matches j;
               su_issues := issues |} in
  let s2 :=
    if bool_decide (s1.(su_disposition) = DDeadBeforeMutation)
       && negb (terminal s1.(su_journal).(j_state)) && negb s1.(su_journal).(j_runtime_mutated)
    then startup_apply persist coordinator request
           (OpSettleTerminal "failed" (Some "native-worker-disappeared")) DSettled
           (λ error, "unable to settle abandoned native job " +:+ j1.(j_job_id) +:+ ": " +:+ error)
           s1
    else s1 in
  if bool_decide (s2.(su_disposition) = DRecoveryRequired)
     && negb (bool_decide (s2.(su_journal).(j_state) = Recovering))
  then startup_apply persist coordinator request
         (OpRequireRecovery "startup-reconciliation-required") s2.(su_disposition)
         (λ error, "unable to normalize job " +:+ s2.(su_journal).(j_job_id)
                   +:+ " into recovery after restart: " +:+ error) s2
  else s2.

(** The journals of a job: the admitted one, and those a committed method or the
    adoption by a restarted coordinator leads to. *)
Inductive reachable : JobJournal → Prop :=
| reach_queued request coordinator heavy j :
    queued request coordinator heavy = Ok j → reachable j
| reach_op op j j' : reachable j → committed op j = Ok j' → reachable j'
| reach_adopt coordinator j j' :
    reachable j → adopt_generation coordinator j = Ok j' → reachable j'.

(** ** What validity gives *)

Record journal_facts (j : JobJournal) : Prop := {
  jf_sequence : j.(j_sequence) ≠ 0%N;
  jf_recovery : j.(j_recovery_required) = true → j.(j_runtime_mutated) = true;
  jf_lease : j.(j_heavy_lease_acquired) = true → j.(j_heavy_traffic) = true;
  jf_owner_run : is_some j.(j_runtime_owner_process) = true →
    is_some j.(j_worker_run_id) = true ∧ j.(j_heavy_traffic) = true
    ∧ terminal j.(j_state) = false;
  jf_process_run : is_some j.(j_process) = true → is_some j.(j_worker_run_id) = true;
}.

Lemma journal_validate_facts j : journal_validate j = Ok tt → journal_facts j.
Proof.
  unfold journal_validate. intros H. unbind. reflect_bools.
  split; [done | | | |].
  - intros Hr. rewrite Hr in *. by destruct (j_runtime_mutated j).
  - intros Hr. rewrite Hr in *. by destruct (j_heavy_traffic j).
  - intros Hr. destruct (j_runtime_owner_process j); [| done].
    repeat match goal with H : check_some (Some _) _ = _ |- _ => simpl in H end.
    unfold validate_owner in *. unbind. reflect_bools.
    repeat split; auto.
  - intros Hr. rewrite Hr in *. simpl in *. by destruct (is_some (j_worker_run_id j)).
Qed.

(** ** Opening a committed method *)

Lemma committed_inv op j j' :
  committed op j = Ok j' → journal_method op j = (Ok tt, j').
Proof. unfold committed. destruct (journal_method op j) as [[[] |] ?]; congruence. Qed.

Lemma refuse_if_inv c e j x j' :
  refuse_if c e j = (Ok x, j') → c j = false ∧ j' = j.
Proof. unfold refuse_if. intros H. unbind. done. Qed.

Lemma bump_journal_inv j x j' :
  bump_journal j = (Ok x, j') →
  is_u64 (j.(j_sequence) + 1) ∧ j' = set_sequence (j.(j_sequence) + 1) j.
Proof.
  unfold bump_journal. intros H. unbind.
  match goal with H : u64_checked_add _ _ = _ |- _ => apply u64_checked_add_Some in H as [-> ?] end.
  done.
Qed.

Lemma validate_self_inv j x j' :
  validate_self j = (Ok x, j') → journal_validate j = Ok tt ∧ j' = j.
Proof. unfold validate_self. destruct x. by intros [= H <-]. Qed.

Lemma validate_transition_inv a b x :
  validate_transition a b = Ok x → transition_allowed a b = true.
Proof. unfold validate_transition. by destruct (transition_allowed a b). Qed.

Lemma transition_inv next j x j' :
  transition next j = (Ok x, j') →
  transition_allowed j.(j_state) next = true ∧ is_u64 (j.(j_sequence) + 1)
  ∧ j' = set_state next (set_sequence (j.(j_sequence) + 1) j) ∧ journal_validate j' = Ok tt.
Proof.
  unfold transition. intros H. unbind.
  repeat match goal with
  | H : bump_journal _ = _ |- _ => apply bump_journal_inv in H as [? ->]
  | H : validate_self _ = _ |- _ => apply validate_self_inv in H as [? ->]
  | H : validate_transition _ _ = _ |- _ => apply validate_transition_inv in H
  end. done.
Qed.

(** The outcomes of the settlements. *)
Lemma outcome_inv {A} (b : bool) (x : A) alts s y :
  (if b then Some x else match_str alts s) = Some y →
  b = true ∧ x = y ∨ b = false ∧ (s, y) ∈ alts.
Proof. destruct b; [intros [= ->]; eauto | eauto using match_str_Some]. Qed.

(** Runs a successful method backwards: the guards it passed stay in the context,
    the journal it left is substituted. *)
Ltac open_method :=
  repeat progress (unbind; repeat match goal with
  | H : refuse_if _ _ _ = (Ok _, _) |- _ => apply refuse_if_inv in H as [H ->]
  | H : bump_journal _ = (Ok _, _) |- _ => apply bump_journal_inv in H as [? ->]
  | H : validate_self _ = (Ok _, _) |- _ => apply validate_self_inv in H as [? ->]
  | H : transition _ _ = (Ok _, _) |- _ => apply transition_inv in H as (? & ? & -> & ?)
  | H : validate_transition _ _ = Ok _ |- _ => apply validate_transition_inv in H
  | H : (let '(_, _) := ?p in _) _ = (Ok _, _) |- _ => destruct p as [next kind]
  | H : (if ?c then _ else _) _ = (Ok _, _) |- _ => destruct c eqn:?
  | H : put _ _ = (Ok _, _) |- _ => unfold put in H
  | H : modify _ _ = (Ok _, _) |- _ => unfold modify in H
  | H : context [if bool_decide (?s = Queued) then _ else _] |- _ =>
      destruct (bool_decide (s = Queued)) eqn:?
  | H : match_str _ _ = Some _ |- _ => apply match_str_Some in H
  | H : (if _ then Some _ else match_str _ _) = Some _ |- _ =>
      apply outcome_inv in H as [[? ?] | [? H]]
  | H : _ ∈ _ :: _ |- _ => apply elem_of_cons in H as [H | H]
  | H : _ ∈ [] |- _ => by apply not_elem_of_nil in H
  | H : ?b = true |- context [if ?b then _ else _] => rewrite H
  | H : ?b = true, H' : context [if ?b then _ else _] |- _ => rewrite H in H'
  end; simplify_eq).

Ltac open_op H :=
  apply committed_inv in H; cbn [journal_method] in H;
  unfold fail_before_runtime_mutation, mark_heavy_lease_acquired,
    mark_bootstrap_heavy_lease_acquired, release_heavy_lease_during_recovery,
    arm_native_worker, attach_native_running, arm_attached_bootstrap_runtime_mutation,
    arm_attached_runtime_mutation, attach_bootstrap_runtime_owner,
    clear_bootstrap_runtime_owner, replace_bootstrap_runtime_owner_during_recovery,
    staged_owner, stop_attached_before_runtime_mutation, settle_native_terminal,
    settle_native_runtime_terminal, settle_native_speedtest_runtime_terminal,
    require_recovery, cancel_settled, owned_budget_stop in H;
  open_method.

(** ** The ownership invariant

    What a job may hold in each state: only an attached job has a worker process,
    only a leased one can have mutated the runtime, a recovering one has lost its
    worker and still owes a restoration, and an ended one holds nothing. *)

Definition holds (process owner run mutated lease : bool) (s : OperationState) : Prop :=
  match s with
  | Queued => process = false ∧ owner = false ∧ run = false ∧ mutated = false
  | Starting => process = false ∧ owner = false ∧ run = true ∧ mutated = false
  | Running => process = true ∧ run = true ∧ (mutated = true → lease = true)
  | Cancelling => run = true ∧ (mutated = true → lease = true ∧ process = true)
  | Recovering => process = false ∧ run = true ∧ mutated = true
  | _ => process = false ∧ owner = false ∧ mutated = false ∧ lease = false
  end.

Definition well_owned (j : JobJournal) : Prop :=
  j.(j_recovery_required) = j.(j_runtime_mutated)
  ∧ holds (is_some j.(j_process)) (is_some j.(j_runtime_owner_process))
      (is_some j.(j_worker_run_id)) j.(j_runtime_mutated) j.(j_heavy_lease_acquired) j.(j_state).

Lemma settled_owner next j :
  terminal next = true →
  journal_validate (set_state next (set_sequence (j.(j_sequence) + 1) j)) = Ok tt →
  is_some j.(j_runtime_owner_process) = false.
Proof.
  intros Ht H. apply journal_validate_facts in H as [_ _ _ H _]. simpl in H.
  destruct (is_some (j_runtime_owner_process j)); [| done].
  destruct (H eq_refl) as (_ & _ & E). congruence.
Qed.

Lemma well_owned_preserved op j j' :
  well_owned j → committed op j = Ok j' → well_owned j'.
Proof.
  intros [Hr Hs] H. destruct op; open_op H.
  all: unfold well_owned, unrestored in *; reflect_bools; simpl in *; simplify_eq.
  all: destruct (j_state j) eqn:?; simplify_eq; simpl in *; try discriminate.
  all: try match goal with
    | H : journal_validate (set_state ?s _) = _ |- _ =>
        apply settled_owner in H; [| reflexivity]
    end.
  all: rewrite ?Hr in *; destruct_and?; split_and?; try done; try congruence; auto.
Qed.

(** ** The frame of a method *)

Definition same_job (j j' : JobJournal) : Prop :=
  j'.(j_job_id) = j.(j_job_id) ∧ j'.(j_boot_id) = j.(j_boot_id)
  ∧ j'.(j_generation) = j.(j_generation) ∧ j'.(j_heavy_traffic) = j.(j_heavy_traffic)
  ∧ j'.(j_instance) = j.(j_instance) ∧ j'.(j_target_interface) = j.(j_target_interface)
  ∧ j'.(j_sqm_fingerprint) = j.(j_sqm_fingerprint)
  ∧ j'.(j_reconcile_attempts) = j.(j_reconcile_attempts)
  ∧ j'.(j_history_decision_required) = j.(j_history_decision_required).

Lemma committed_frame op j j' :
  committed op j = Ok j' →
  same_job j j' ∧ j'.(j_sequence) = (j.(j_sequence) + 1)%N ∧ is_u64 j'.(j_sequence).
Proof.
  intros H. unfold same_job. destruct op; open_op H; simpl in *.
  all: split_and?; done.
Qed.

Lemma committed_edge op j j' :
  committed op j = Ok j' →
  j'.(j_state) = j.(j_state) ∧ terminal j.(j_state) = false
  ∨ transition_allowed j.(j_state) j'.(j_state) = true.
Proof.
  intros H. destruct op; open_op H.
  all: unfold unrestored in *; reflect_bools; simpl in *; try (by right).
  all: left; split; [done |].
  all: try match goal with E : ?s = _ |- terminal ?s = false => by rewrite E end; auto.
Qed.

(** ** Validity is preserved *)

Ltac open_valid H :=
  unfold journal_validate in H; repeat apply then_ok in H as [? H].
Ltac show_valid := unfold journal_validate; repeat (apply then_ok; split).

Lemma validate_no_lease j :
  journal_validate j = Ok tt → journal_validate (set_heavy_lease_acquired false j) = Ok tt.
Proof. intros H. open_valid H. show_valid; done. Qed.

Lemma validate_diagnostic c j :
  journal_identifier "diagnostic_code" c "_-" = Ok tt →
  journal_validate j = Ok tt → journal_validate (set_diagnostic_code (Some c) j) = Ok tt.
Proof. intros Hc H. open_valid H. show_valid; done. Qed.

(** A publication identity requires a complete result. *)
Lemma validate_evidence j :
  journal_validate j = Ok tt →
  match j.(j_publication_boot_id), j.(j_publication_generation) with
  | Some _, Some _ => j.(j_terminal_kind) = Some "result" ∧ j.(j_terminal_state) = Some "complete"
  | Some _, None | None, Some _ => False
  | None, None => True
  end.
Proof.
  intros H. open_valid H. unfold validate_publication in H.
  destruct (j_publication_boot_id j), (j_publication_generation j); try done.
  unbind. by reflect_bools.
Qed.

(** What lets a live journal change state. *)
Lemma validate_step next j :
  journal_validate j = Ok tt → terminal j.(j_state) = false →
  (terminal next = true → j.(j_runtime_owner_process) = None) →
  journal_validate (set_state next (set_sequence (j.(j_sequence) + 1) j)) = Ok tt.
Proof.
  intros H Ht Ho. open_valid H. show_valid; try done; simpl.
  - apply fail_if_ok, N.eqb_neq. lia.
  - destruct (j_runtime_owner_process j) as [p |]; [| done]. simpl in *.
    destruct (terminal next) eqn:Hn; [by specialize (Ho eq_refl) |].
    unfold validate_owner in *. simpl. rewrite Hn.
    by match goal with H : _ ≫= _ = Ok tt |- _ => rewrite Ht in H end.
  - destruct (is_some (j_terminal_kind j)); [| done]. by rewrite Ht in *.
  - unfold validate_publication in *. simpl.
    destruct (j_publication_boot_id j), (j_publication_generation j); try done.
    unbind. reflect_bools. by destruct (j_state j).
Qed.

(** The journals the last assignments of a method leave. *)
Definition into_recovery (code : string) (j : JobJournal) : JobJournal :=
  set_diagnostic_code (Some code) (set_recovery_required true
    (set_runtime_mutated true (set_process None j))).

Definition into_failed (t : string) (d : option string) (j : JobJournal) : JobJournal :=
  set_diagnostic_code d (set_heavy_lease_acquired false (set_terminal_state (Some t)
    (set_terminal_kind (Some "error") (set_runtime_owner_process None (set_process None
      (set_state Failed j)))))).

Definition into_restored (t : string) (d : option string) (j : JobJournal) : JobJournal :=
  set_diagnostic_code d (set_heavy_lease_acquired false (set_recovery_required false
    (set_runtime_mutated false (set_publication_generation None (set_publication_boot_id None
      (set_terminal_state (Some t) (set_terminal_kind (Some "error") j))))))).

Lemma unpublished j :
  validate_publication j = Ok tt → terminal j.(j_state) = false →
  j.(j_publication_boot_id) = None ∧ j.(j_publication_generation) = None.
Proof.
  unfold validate_publication. intros H Ht.
  destruct (j_publication_boot_id j), (j_publication_generation j); try done.
  unbind. reflect_bools. by destruct (j_state j).
Qed.

Lemma validate_into_recovery code j :
  journal_validate j = Ok tt → j.(j_state) = Recovering →
  journal_identifier "diagnostic_code" code "_-" = Ok tt →
  journal_validate (into_recovery code j) = Ok tt.
Proof.
  intros H Hs Hc. open_valid H. show_valid; try done; simpl.
  - destruct (j_runtime_owner_process j); [| done]. simpl in *. unfold validate_owner in *.
    repeat match goal with H : fail_if _ _ ≫= _ = Ok tt |- _ => apply then_ok in H as [? H] end.
    repeat (apply then_ok; split); done.
  - apply unpublished in H as [E E']; [| by rewrite Hs].
    unfold validate_publication. simpl. by rewrite E, E'.
Qed.

Lemma validate_into_failed t d j :
  journal_validate j = Ok tt → terminal j.(j_state) = false →
  journal_identifier "terminal_state" t "_-" = Ok tt →
  check_some d (λ c, journal_identifier "diagnostic_code" c "_-") = Ok tt →
  journal_validate (into_failed t d (set_sequence (j.(j_sequence) + 1) j)) = Ok tt.
Proof.
  intros H Hs Ht Hd. open_valid H. show_valid; try done; simpl.
  - apply fail_if_ok, N.eqb_neq. lia.
  - apply unpublished in H as [E E']; [| done].
    unfold validate_publication. simpl. by rewrite E, E'.
Qed.

Lemma validate_into_restored t d j :
  journal_validate j = Ok tt → terminal j.(j_state) = true →
  journal_identifier "terminal_state" t "_-" = Ok tt →
  check_some d (λ c, journal_identifier "diagnostic_code" c "_-") = Ok tt →
  journal_validate (into_restored t d j) = Ok tt.
Proof.
  intros H Hs Ht Hd. open_valid H. show_valid; try done; simpl.
  by rewrite Hs.
Qed.

Lemma validate_clear_owner n j :
  journal_validate j = Ok tt → terminal j.(j_state) = false → n ≠ 0%N →
  journal_validate (set_runtime_owner_process None (set_sequence n j)) = Ok tt.
Proof.
  intros H Hs Hn. open_valid H. show_valid; try done; simpl.
  - by apply fail_if_ok, N.eqb_neq.
  - apply unpublished in H as [E E']; [| done].
    unfold validate_publication. simpl. by rewrite E, E'.
Qed.

Lemma validate_adopted g n j :
  journal_validate j = Ok tt → journal_hex "coordinator_generation" g 32 = Ok tt → n ≠ 0%N →
  journal_validate (set_sequence n (set_generation g j)) = Ok tt.
Proof.
  intros H Hg Hn. open_valid H. show_valid; try done; simpl. by apply fail_if_ok, N.eqb_neq.
Qed.

#[local] Opaque journal_validate.

Lemma committed_valid op j j' : committed op j = Ok j' → journal_validate j' = Ok tt.
Proof.
  intros H. destruct op; open_op H.
  all: try done.
  - by apply validate_no_lease.
  - apply validate_diagnostic; [by destruct stop | done].
Qed.

Lemma adopt_inv coordinator j j' :
  adopt_generation coordinator j = Ok j' →
  j.(j_boot_id) = coordinator.(coordinator_boot_id) ∧ is_u64 (j.(j_sequence) + 1)
  ∧ j' = set_sequence (j.(j_sequence) + 1) (set_generation coordinator.(coordinator_generation) j)
  ∧ journal_validate j' = Ok tt.
Proof.
  unfold adopt_generation. intros H. unbind. reflect_bools. subst.
  match goal with H : u64_checked_add _ _ = _ |- _ => apply u64_checked_add_Some in H as [-> ?] end.
  match goal with H : String.eqb _ _ = true |- _ => apply String.eqb_eq in H end.
  split_and!; try done. by repeat match goal with u : () |- _ => destruct u end.
Qed.

(** ** Invariants of the reachable journals *)

Lemma queued_inv request coordinator heavy j :
  queued request coordinator heavy = Ok j →
  journal_validate j = Ok tt ∧ j.(j_state) = Queued ∧ j.(j_sequence) = 1%N ∧ well_owned j
  ∧ j.(j_publication_boot_id) = None ∧ j.(j_publication_generation) = None
  ∧ j.(j_boot_id) = coordinator.(coordinator_boot_id)
  ∧ j.(j_generation) = coordinator.(coordinator_generation)
  ∧ j.(j_job_id) = request.(identity).(job_id).
Proof.
  unfold queued. intros H. unbind. subst.
  repeat match goal with u : () |- _ => destruct u end. by split_and!.
Qed.

Lemma reachable_valid j : reachable j → journal_validate j = Ok tt.
Proof.
  induction 1 as [? ? ? ? H | ? ? ? _ _ H | ? ? ? _ _ H].
  - by apply queued_inv in H as [? _].
  - by apply committed_valid in H.
  - by apply adopt_inv in H as (_ & _ & _ & ?).
Qed.

Lemma reachable_owned j : reachable j → well_owned j.
Proof.
  induction 1 as [? ? ? ? H | ? ? ? _ IH H | ? ? ? _ IH H].
  - by apply queued_inv in H as (_ & _ & _ & ? & _).
  - by eapply well_owned_preserved.
  - by apply adopt_inv in H as (_ & _ & -> & _).
Qed.

(** Publication evidence belongs to a finished review of this boot. *)
Definition published (j : JobJournal) : Prop :=
  match j.(j_publication_boot_id), j.(j_publication_generation) with
  | Some boot, Some _ => j.(j_state) = ReviewReady ∧ boot = j.(j_boot_id)
  | None, None => j.(j_state) ≠ ReviewReady
  | _, _ => False
  end.

Lemma published_preserved op j j' : published j → committed op j = Ok j' → published j'.
Proof.
  unfold published. intros Hp H. destruct op; open_op H.
  all: unfold unrestored in *; reflect_bools; simpl in *.
  all: try done.
  all: repeat case_match; destruct_and?; try done.
  all: repeat match goal with E : j_state ?x = _ |- _ => rewrite E in * end; simpl in *.
  all: try done; try congruence.
Qed.

Lemma reachable_published j : reachable j → published j.
Proof.
  induction 1 as [? ? ? ? H | ? ? ? _ IH H | ? ? ? _ IH H].
  - apply queued_inv in H as (_ & Hs & _ & _ & Hb & Hg & _). unfold published.
    by rewrite Hb, Hg, Hs.
  - by eapply published_preserved.
  - by apply adopt_inv in H as (_ & _ & -> & _).
Qed.
