(* ===== verification/JournalContract.v ===== *)
(** * What the life cycle of a job guarantees

    The theorems about reachable journals: the invariant and the frame of every
    committed method, the abstract phases a job moves through, the finality of
    its settlement, the evidence a Review carries, cancellation, the conclusions
    a restarted coordinator draws, and that every job can be settled. *)

From S2P Require Import Prelude RustStr SchedRecord PercentRecord Vocabulary RustNet CapturePolicy OperationRequest OperationRoundtrip JobJournal JournalLifecycle.
Local Open Scope string_scope.
#[local] Opaque journal_validate.

(** ** Abstract phases *)

Inductive Phase :=
| PWaiting      (* admitted, nothing started *)
| PArmed        (* a worker is being started *)
| PParked       (* a worker waits, the runtime is untouched *)
| PMutating     (* the worker may change the runtime *)
| PStopping     (* stopping, the runtime is untouched *)
| PUnwinding    (* stopping a worker that may have changed the runtime *)
| PRecovering   (* the worker is gone and a restoration is owed *)
| PSettled.     (* ended, nothing is held *)

Definition phase_of (j : JobJournal) : Phase :=
  match j.(j_state) with
  | Queued => PWaiting
  | Starting => PArmed
  | Running => if j.(j_runtime_mutated) then PMutating else PParked
  | Cancelling => if j.(j_runtime_mutated) then PUnwinding else PStopping
  | Recovering => PRecovering
  | _ => PSettled
  end.

(** The abstract machine: once the runtime may have been changed, the only way to
    [PSettled] leads through [PRecovering]. *)
Definition phase_step (from to : Phase) : bool :=
  match from, to with
  | PWaiting, (PWaiting | PArmed | PSettled) => true
  | PArmed, (PParked | PStopping | PRecovering | PSettled) => true
  | PParked, (PParked | PMutating | PStopping | PRecovering | PSettled) => true
  | PMutating, (PMutating | PUnwinding | PRecovering) => true
  | PStopping, (PStopping | PRecovering | PSettled) => true
  | PUnwinding, (PUnwinding | PRecovering) => true
  | PRecovering, (PRecovering | PSettled) => true
  | _, _ => false
  end.

Lemma phase_settled j : phase_of j = PSettled ↔ terminal j.(j_state) = true.
Proof. unfold phase_of. destruct (j_state j), (j_runtime_mutated j); simpl; naive_solver. Qed.

Lemma committed_phase op j j' :
  well_owned j → committed op j = Ok j' → phase_step (phase_of j) (phase_of j') = true.
Proof.
  intros [Hr Hs] H. unfold phase_of. destruct op; open_op H.
  all: unfold unrestored in *; reflect_bools; simpl in *; simplify_eq.
  all: destruct (j_state _) eqn:?; simplify_eq; simpl in *; try discriminate; destruct_and?.
  all: try match goal with E : ?b = false |- context [if ?b then _ else _] => rewrite E end.
  all: try done; try congruence.
  all: by destruct (j_runtime_mutated _).
Qed.

Lemma terminal_refuses op j : terminal j.(j_state) = true → is_ok (committed op j) = false.
Proof.
  intros Ht. destruct (committed op j) as [j' |] eqn:H; [| done].
  apply committed_edge in H as [[_ H] | H]; [congruence |].
  by destruct (j_state j), (j_state j').
Qed.

Lemma owned_settled j :
  well_owned j → terminal j.(j_state) = true →
  j.(j_runtime_mutated) = false ∧ j.(j_recovery_required) = false
  ∧ j.(j_heavy_lease_acquired) = false ∧ is_some j.(j_process) = false
  ∧ is_some j.(j_runtime_owner_process) = false.
Proof. intros [Hr Hs] Ht. destruct (j_state j); simpl in *; destruct_and?; try done; by rewrite Hr. Qed.

(** ** The invariant and the frame *)

(** C29: every journal a job can reach is valid and holds exactly what its state
    allows: the runtime is marked as mutated precisely while a recovery is owed,
    only an attached and leased worker can be mutating it, a recovering job has
    no worker, and an ended job has no worker, no owner, no lease, no debt. *)
Theorem reachable_invariant j :
  reachable j → journal_validate j = Ok tt ∧ well_owned j.
Proof. intros H. split; [by apply reachable_valid | by apply reachable_owned]. Qed.

(** A committed method keeps the identity of the job, increases the sequence
    number by exactly one within 64 bits, ends valid, and either keeps a live
    state or takes one edge of the transition table. *)
Theorem committed_contract op j j' :
  committed op j = Ok j' →
  journal_validate j' = Ok tt ∧ same_job j j'
  ∧ j'.(j_sequence) = (j.(j_sequence) + 1)%N ∧ is_u64 j'.(j_sequence)
  ∧ (j'.(j_state) = j.(j_state) ∧ terminal j.(j_state) = false
     ∨ transition_allowed j.(j_state) j'.(j_state) = true).
Proof.
  intros H. destruct (committed_frame _ _ _ H) as (? & ? & ?).
  split_and!; eauto using committed_valid, committed_edge.
Qed.

(** C28: the detailed journal implements the abstract phase machine: every
    committed method of a reachable journal is one of its steps, so a job whose
    runtime may have been changed cannot end without passing through recovery. *)
Theorem phase_refinement op j j' :
  reachable j → committed op j = Ok j' → phase_step (phase_of j) (phase_of j') = true.
Proof. intros Hr. apply committed_phase. by apply reachable_owned. Qed.

(** Only a settlement that follows an exact restoration clears the mark that
    the runtime was changed: any method that takes a journal from mutated to
    untouched is one of the two runtime settlements of a recovering job without
    a worker, and the job has ended. *)
Theorem mutation_cleared_by_restoration op j j' :
  committed op j = Ok j' → j.(j_runtime_mutated) = true → j'.(j_runtime_mutated) = false →
  j.(j_state) = Recovering ∧ j.(j_process) = None ∧ terminal j'.(j_state) = true
  ∧ match op with OpSettleRuntime _ _ | OpSettleSpeedtest _ _ => True | _ => False end.
Proof.
  intros H Hm Hm'. destruct op; open_op H.
  all: unfold unrestored in *; reflect_bools; simpl in *; try congruence.
  all: by destruct (j_process j).
Qed.

(** Settlement is final and complete: no method succeeds on an ended job,
    and the job may be retired at once. *)
Theorem settled_is_final j :
  reachable j → terminal j.(j_state) = true →
  (∀ op, is_ok (committed op j) = false) ∧ retirable DSettled j = true.
Proof.
  intros Hr Ht. split; [intros op; by apply terminal_refuses |].
  destruct (owned_settled j) as (Hm & Hq & Hl & Hp & Ho); [by apply reachable_owned | done |].
  unfold retirable. by rewrite Ht, Hm, Hq, Hl, Hp, Ho.
Qed.

(** A reachable journal has a publication identity exactly when its Review is
    ready, and then it names this boot and carries the complete result. *)
Theorem review_evidence j :
  reachable j →
  (j.(j_state) = ReviewReady ↔ is_ok (publication_identity j) = true)
  ∧ ∀ boot generation, publication_identity j = Ok (boot, generation) →
      boot = j.(j_boot_id) ∧ j.(j_terminal_kind) = Some "result"
      ∧ j.(j_terminal_state) = Some "complete".
Proof.
  intros Hr. pose proof (reachable_published j Hr) as Hp.
  pose proof (reachable_valid j Hr) as Hv.
  apply validate_evidence in Hv.
  unfold published, publication_identity in *.
  destruct (j_publication_boot_id j), (j_publication_generation j); simpl in *; try done.
  destruct Hp as [? ->]. destruct Hv. split; [done |]. by intros ? ? [= <- _].
Qed.

(** ** What a method needs to succeed *)

(** The room the sequence number of a journal still has. *)
Definition headroom (n : N) (j : JobJournal) : Prop := is_u64 (j.(j_sequence) + n).

Lemma bump_ok j :
  headroom 1 j → bump_journal j = (Ok tt, set_sequence (j.(j_sequence) + 1) j).
Proof.
  intros H. unfold bump_journal, mbind, M_bind, get, lift.
  by rewrite (proj2 (u64_checked_add_Some _ _ _) (conj eq_refl H)).
Qed.

Lemma transition_ok next j :
  journal_validate j = Ok tt → headroom 1 j → transition_allowed j.(j_state) next = true →
  terminal j.(j_state) = false → (terminal next = true → j.(j_runtime_owner_process) = None) →
  transition next j = (Ok tt, set_state next (set_sequence (j.(j_sequence) + 1) j)).
Proof.
  intros Hv Hh Ha Ht Ho. unfold transition, mbind, M_bind, get, lift, validate_transition.
  rewrite Ha. simpl. rewrite bump_ok by done. unfold modify, validate_self.
  by rewrite validate_step.
Qed.

Lemma ran j op j' : journal_method op j = (Ok tt, j') → committed op j = Ok j'.
Proof. unfold committed. by intros ->. Qed.

Lemma reach_commit op j j' :
  reachable j → journal_method op j = (Ok tt, j') → committed op j = Ok j' ∧ reachable j'.
Proof. intros Hr H. apply ran in H. eauto using reachable. Qed.

(** The successor each of the settling methods leaves. *)
Definition next_sequence (j : JobJournal) : JobJournal := set_sequence (j.(j_sequence) + 1) j.

Lemma enter_recovery_ok code j :
  reachable j → headroom 1 j → journal_identifier "diagnostic_code" code "_-" = Ok tt →
  match j.(j_state) with Starting | Running | Cancelling => True | _ => False end →
  let j' := into_recovery code (set_state Recovering (next_sequence j)) in
  committed (OpRequireRecovery code) j = Ok j' ∧ reachable j'.
Proof.
  intros Hr Hh Hc Hs j'. pose proof (reachable_valid _ Hr) as Hv.
  apply reach_commit; [done |]. simpl. unfold require_recovery, mbind, M_bind, get, modify.
  rewrite bool_decide_eq_false_2 by (by intros E; rewrite E in Hs). simpl.
  rewrite transition_ok; [| done.. | | |]; [| by destruct (j_state j) | by destruct (j_state j) | done].
  assert (Hx : journal_validate j' = Ok tt).
  { apply validate_into_recovery; [| done..].
    apply validate_step; [done | by destruct (j_state j) | done]. }
  unfold validate_self, j', into_recovery, next_sequence in *. by rewrite Hx.
Qed.

Lemma clear_owner_ok j :
  reachable j → headroom 1 j → j.(j_state) = Recovering →
  is_some j.(j_runtime_owner_process) = true →
  let j' := set_runtime_owner_process None (next_sequence j) in
  committed OpClearOwner j = Ok j' ∧ reachable j'.
Proof.
  intros Hr Hh Hs Ho j'. pose proof (reachable_valid _ Hr) as Hv.
  apply reach_commit; [done |]. simpl.
  unfold clear_bootstrap_runtime_owner, refuse_if, staged_owner, on_clone, mbind, M_bind, get,
    lift, modify, put, validate_self. rewrite Ho, Hs. simpl. rewrite bump_ok by done.
  rewrite validate_clear_owner; [done | done | by rewrite Hs | lia].
Qed.

Lemma settle_restored_ok d j :
  reachable j → headroom 1 j → j.(j_state) = Recovering → j.(j_runtime_owner_process) = None →
  check_some d (λ c, journal_identifier "diagnostic_code" c "_-") = Ok tt →
  let j' := into_restored "failed" d (set_state Failed (next_sequence j)) in
  committed (OpSettleRuntime "failed" d) j = Ok j' ∧ reachable j'.
Proof.
  intros Hr Hh Hs Ho Hd j'. pose proof (reachable_valid _ Hr) as Hv.
  pose proof (reachable_owned _ Hr) as [Hq Hw]. rewrite Hs in Hw. destruct Hw as (Hp & Hu & Hm).
  apply reach_commit; [done |]. simpl.
  unfold settle_native_runtime_terminal, refuse_if, unrestored, mbind, M_bind, get, lift, modify.
  rewrite Hq, Hm, Hu, Hp, Hs. simpl.
  assert (Hx : journal_validate (set_state Failed (next_sequence j)) = Ok tt)
    by (apply validate_step; [done | by rewrite Hs | done]).
  rewrite transition_ok; [| done | done | by rewrite Hs | by rewrite Hs | done].
  assert (Hy : journal_validate j' = Ok tt) by by apply validate_into_restored.
  unfold validate_self, j', into_restored, next_sequence in *. by rewrite Hy.
Qed.

Lemma settle_failed_ok d j :
  reachable j → headroom 1 j → j.(j_runtime_mutated) = false →
  match j.(j_state) with Starting | Running | Cancelling => True | _ => False end →
  check_some d (λ c, journal_identifier "diagnostic_code" c "_-") = Ok tt →
  let j' := into_failed "failed" d (next_sequence j) in
  committed (OpSettleTerminal "failed" d) j = Ok j' ∧ reachable j'.
Proof.
  intros Hr Hh Hm Hs Hd j'. pose proof (reachable_valid _ Hr) as Hv.
  pose proof (reachable_owned _ Hr) as [Hq Hw].
  assert (Hu : is_some j.(j_worker_run_id) = true)
    by (destruct (j_state j); simpl in *; by destruct_and?).
  apply reach_commit; [done |]. simpl.
  unfold settle_native_terminal, refuse_if, mbind, M_bind, get, lift, modify, validate_transition.
  rewrite Hq, Hm, Hu. simpl.
  assert (Ha : transition_allowed (j_state j) Failed = true) by by destruct (j_state j).
  rewrite Ha. simpl. rewrite bump_ok by done.
  assert (Hx : journal_validate j' = Ok tt)
    by (apply validate_into_failed; [done | by destruct (j_state j) | done | done]).
  unfold validate_self, j', into_failed, next_sequence in *. by rewrite Hx.
Qed.

Lemma cancel_waiting_ok j :
  reachable j → headroom 1 j → j.(j_state) = Queued →
  let j' := set_heavy_lease_acquired false (set_state Cancelled (next_sequence j)) in
  committed OpCancel j = Ok j' ∧ reachable j'.
Proof.
  intros Hr Hh Hs j'. pose proof (reachable_valid _ Hr) as Hv.
  pose proof (reachable_owned _ Hr) as [_ Hw]. rewrite Hs in Hw. destruct Hw as (_ & Ho & _).
  apply reach_commit; [done |]. simpl. unfold cancel_settled, mbind, M_bind, get, modify.
  rewrite bool_decide_eq_true_2 by done.
  rewrite transition_ok; [done | done | done | by rewrite Hs | by rewrite Hs |].
  intros _. by destruct (j_runtime_owner_process j).
Qed.

(** ** Cancellation *)

Lemma cancel_started_ok j :
  reachable j → headroom 1 j →
  match j.(j_state) with Starting | Running => True | _ => False end →
  let j' := set_state Cancelling (next_sequence j) in
  committed OpCancel j = Ok j' ∧ reachable j'.
Proof.
  intros Hr Hh Hs j'. pose proof (reachable_valid _ Hr) as Hv.
  apply reach_commit; [done |]. simpl. unfold cancel_settled, mbind, M_bind, get, modify.
  rewrite bool_decide_eq_false_2 by (by intros E; rewrite E in Hs).
  rewrite transition_ok; try done; by destruct (j_state j).
Qed.

(** The states in which a cancellation has nothing left to do. *)
Definition cancelled_or_ending (j : JobJournal) : bool :=
  terminal j.(j_state) || bool_decide (j.(j_state) = Recovering)
  || bool_decide (j.(j_state) = Cancelling).

(** Cancelling always works and is idempotent: a reachable job with room in
    its sequence number accepts the request, is then ended, recovering or
    cancelling, and a second request changes nothing. *)
Theorem cancel_total_idempotent j :
  reachable j → headroom 1 j →
  ∃ j', cancel_job_journal j = (Ok tt, j') ∧ reachable j' ∧ cancelled_or_ending j' = true
        ∧ cancel_job_journal j' = (Ok tt, j').
Proof.
  intros Hr Hh.
  assert (Hidle : ∀ x, cancelled_or_ending x = true → cancel_job_journal x = (Ok tt, x)).
  { intros x Hx. unfold cancel_job_journal, mbind, M_bind, get.
    unfold cancelled_or_ending in Hx. by rewrite Hx. }
  destruct (cancelled_or_ending j) eqn:Hc; [exists j; split_and!; auto |].
  assert (Hrun : cancel_job_journal j = cancel_settled j).
  { unfold cancel_job_journal, mbind at 1, M_bind at 1, get at 1.
    unfold cancelled_or_ending in Hc. by rewrite Hc. }
  rewrite Hrun. destruct (j_state j) eqn:Hs; unfold cancelled_or_ending in Hc; rewrite Hs in Hc;
    try discriminate.
  - destruct (cancel_waiting_ok j Hr Hh Hs) as [H ?]. apply committed_inv in H. eauto 10.
  - destruct (cancel_started_ok j Hr Hh) as [H ?]; [by rewrite Hs |].
    apply committed_inv in H. eauto 10.
  - destruct (cancel_started_ok j Hr Hh) as [H ?]; [by rewrite Hs |].
    apply committed_inv in H. eauto 10.
Qed.

(** ** Every job can be settled *)

Fixpoint run_ops (ops : list JournalOp) (j : JobJournal) : Res JobJournal :=
  match ops with
  | [] => Ok j
  | op :: ops => j' ← committed op j; run_ops ops j'
  end.

Lemma settle_recovering j :
  reachable j → headroom 2 j → j.(j_state) = Recovering →
  ∃ ops j', (length ops ≤ 2)%nat ∧ run_ops ops j = Ok j' ∧ terminal j'.(j_state) = true.
Proof.
  intros Hr Hh Hs. destruct (is_some (j_runtime_owner_process j)) eqn:Ho.
  - destruct (clear_owner_ok j) as [E1 R1]; [done | unfold headroom, is_u64 in *; lia | done..|].
    destruct (settle_restored_ok None _ R1) as [E2 _];
      [unfold headroom, is_u64 in *; simpl; lia | done..|].
    exists [OpClearOwner; OpSettleRuntime "failed" None]. eexists. split; [simpl; lia |].
    cbn [run_ops]. rewrite E1. cbn. rewrite E2. done.
  - destruct (settle_restored_ok None j) as [E _];
      [done | unfold headroom, is_u64 in *; lia | done | by destruct (j_runtime_owner_process j)
      | done |].
    exists [OpSettleRuntime "failed" None]. eexists. split; [simpl; lia |].
    cbn [run_ops]. rewrite E. done.
Qed.

(** No job is ever stuck: from every reachable journal whose sequence number
    has room for three more records, at most three committed methods end it. *)
Theorem every_job_can_settle j :
  reachable j → headroom 3 j →
  ∃ ops j', (length ops ≤ 3)%nat ∧ run_ops ops j = Ok j' ∧ terminal j'.(j_state) = true.
Proof.
  intros Hr Hh. assert (Hh1 : headroom 1 j) by (unfold headroom, is_u64 in *; lia).
  assert (Hdebt : match j_state j with Starting | Running | Cancelling => True | _ => False end →
    j_runtime_mutated j = true → ∃ ops j', (length ops ≤ 3)%nat ∧ run_ops ops j = Ok j'
      ∧ terminal j'.(j_state) = true).
  { intros Hs _. destruct (enter_recovery_ok "restart" j) as [E1 R1]; [done..|].
    destruct (settle_recovering _ R1) as (ops & j' & ? & E2 & ?);
      [unfold headroom, is_u64 in *; simpl; lia | done |].
    exists (OpRequireRecovery "restart" :: ops), j'. cbn [run_ops length]. rewrite E1. simpl.
    split; [lia | done]. }
  assert (Hfree : match j_state j with Starting | Running | Cancelling => True | _ => False end →
    j_runtime_mutated j = false → ∃ ops j', (length ops ≤ 3)%nat ∧ run_ops ops j = Ok j'
      ∧ terminal j'.(j_state) = true).
  { intros Hs Hm. destruct (settle_failed_ok None j) as [E _]; [done..|].
    exists [OpSettleTerminal "failed" None]. eexists. cbn [run_ops]. rewrite E. simpl.
    split; [lia | done]. }
  destruct (j_state j) eqn:Hs.
  1: { destruct (cancel_waiting_ok j Hr Hh1 Hs) as [E _].
       exists [OpCancel]. eexists. cbn [run_ops]. rewrite E. simpl. split; [lia | done]. }
  4: { destruct (settle_recovering j) as (ops & j' & ? & ?);
         [done | unfold headroom, is_u64 in *; lia | done |]. exists ops, j'. split; [lia | done]. }
  4-7: by exists [], j; rewrite Hs; split; [simpl; lia |].
  all: destruct (j_runtime_mutated j); auto.
Qed.

Lemma committed_update coordinator request op j j' :
  committed op j = Ok j' →
  j.(j_boot_id) = coordinator.(coordinator_boot_id) →
  j.(j_generation) = coordinator.(coordinator_generation) →
  request.(identity).(job_id) = j.(j_job_id) → request.(identity).(instance) = j.(j_instance) →
  request.(identity).(target_interface) = j.(j_target_interface) →
  request.(identity).(sqm_fingerprint) = j.(j_sqm_fingerprint) →
  journal_update_check coordinator j request j' = Ok tt.
Proof.
  intros H Hb Hg H1 H2 H3 H4. pose proof (committed_valid _ _ _ H) as Hv.
  apply committed_frame in H as ((? & E1 & E2 & ? & ? & ? & ? & ? & E3) & _).
  unfold journal_update_check. rewrite Hv. simpl. rewrite E1, E2, E3, Hb, Hg.
  rewrite !String.eqb_refl, eqb_reflx. simpl.
  rewrite H1, H2, H3, H4. repeat match goal with E : _ j' = _ |- _ => rewrite E end.
  by rewrite !String.eqb_refl.
Qed.

(** The store never refuses what a method produced: for a journal of this
    coordinator whose request has the same identity, the checks of the update
    pass for the result of every committed method. *)
Theorem update_accepts_committed coordinator request op j j' :
  committed op j = Ok j' →
  j.(j_boot_id) = coordinator.(coordinator_boot_id) →
  j.(j_generation) = coordinator.(coordinator_generation) →
  request.(identity).(job_id) = j.(j_job_id) → request.(identity).(instance) = j.(j_instance) →
  request.(identity).(target_interface) = j.(j_target_interface) →
  request.(identity).(sqm_fingerprint) = j.(j_sqm_fingerprint) →
  journal_update_check coordinator j request j' = Ok tt.
Proof. apply committed_update. Qed.

(** ** A concrete job *)

Lemma run_ops_reachable ops j j' : reachable j → run_ops ops j = Ok j' → reachable j'.
Proof.
  revert j. induction ops as [| op ops IH]; simpl; intros j Hr H; [by injection H as <- |].
  unbind. eauto using reachable.
Qed.

Module JournalSample.
Definition coordinator : CoordinatorIdentity := {|
  coordinator_boot_id := RequestSample.repeat_char 32 "4";
  coordinator_generation := RequestSample.repeat_char 32 "5";
  coordinator_process := {| pid := 10; process_group := 10; starttime_ticks := 10 |} |}.

Definition worker : ProcessIdentity := {| pid := 20; process_group := 20; starttime_ticks := 99 |}.
Definition owner : ProcessIdentity := {| pid := 30; process_group := 30; starttime_ticks := 99 |}.
Definition run_id : string := RequestSample.repeat_char 32 "6".

(** The admitted journal after the given methods. *)
Definition after (ops : list JournalOp) : Res JobJournal :=
  j ← queued RequestSample.request coordinator true; run_ops ops j.

Definition to_running : list JournalOp := [OpMarkLease; OpArmWorker run_id; OpAttachRunning worker run_id].
Definition to_mutating : list JournalOp := (to_running ++ [OpAttachOwner owner; OpArmBootstrapMutation])%list.
Definition to_restored : list JournalOp := (to_mutating ++ [OpRequireRecovery "restore"; OpClearOwner])%list.
Definition to_review : list JournalOp := (to_restored ++ [OpSettleRuntime "complete" None])%list.

(** The journal itself; every use below is checked to be a success. *)
Definition journal (ops : list JournalOp) : JobJournal :=
  match after ops, queued RequestSample.request coordinator true with
  | Ok j, _ => j
  | Err _, Ok j => j
  | Err _, Err _ => set_sequence 0 {|
      j_job_id := ""; j_boot_id := ""; j_generation := ""; j_state := Failed; j_sequence := 0;
      j_heavy_traffic := false; j_heavy_lease_acquired := false; j_instance := "";
      j_target_interface := ""; j_sqm_fingerprint := ""; j_process := None;
      j_runtime_owner_process := None; j_worker_run_id := None; j_terminal_kind := None;
      j_terminal_state := None; j_publication_boot_id := None; j_publication_generation := None;
      j_diagnostic_code := None; j_reconcile_attempts := 0; j_runtime_mutated := false;
      j_recovery_required := false; j_history_decision_required := false |}
  end.
End JournalSample.

Lemma sample_reachable ops :
  is_ok (JournalSample.after ops) = true → reachable (JournalSample.journal ops).
Proof.
  unfold JournalSample.journal. destruct (JournalSample.after ops) as [j |] eqn:E; [| done].
  intros _. unfold JournalSample.after in E. unbind.
  eapply run_ops_reachable; [eapply reach_queued |]; eassumption.
Qed.

Lemma reachable_invariant_witness :
  journal_validate (JournalSample.journal JournalSample.to_mutating) = Ok tt
  ∧ well_owned (JournalSample.journal JournalSample.to_mutating).
Proof. apply reachable_invariant, sample_reachable. by vm_compute. Defined.

Lemma committed_contract_witness :
  is_u64 (JournalSample.journal JournalSample.to_mutating).(j_sequence).
Proof.
  apply (committed_contract OpArmBootstrapMutation
    (JournalSample.journal (JournalSample.to_running ++ [OpAttachOwner JournalSample.owner])%list)).
  by vm_compute.
Defined.

Lemma phase_refinement_witness :
  phase_step (phase_of (JournalSample.journal JournalSample.to_restored))
    (phase_of (JournalSample.journal JournalSample.to_review)) = true.
Proof.
  apply (phase_refinement (OpSettleRuntime "complete" None)).
  - apply sample_reachable. by vm_compute.
  - by vm_compute.
Defined.

Lemma mutation_cleared_by_restoration_witness :
  (JournalSample.journal JournalSample.to_restored).(j_state) = Recovering.
Proof.
  apply (mutation_cleared_by_restoration (OpSettleRuntime "complete" None) _
    (JournalSample.journal JournalSample.to_review)); by vm_compute.
Defined.

Lemma settled_is_final_witness :
  retirable DSettled (JournalSample.journal JournalSample.to_review) = true.
Proof. apply settled_is_final; [apply sample_reachable |]; by vm_compute. Defined.

Lemma review_evidence_witness :
  is_ok (publication_identity (JournalSample.journal JournalSample.to_review)) = true.
Proof. apply review_evidence; [apply sample_reachable |]; by vm_compute. Defined.

Lemma cancel_total_idempotent_witness :
  ∃ j', cancel_job_journal (JournalSample.journal JournalSample.to_mutating) = (Ok tt, j')
    ∧ reachable j' ∧ cancelled_or_ending j' = true ∧ cancel_job_journal j' = (Ok tt, j').
Proof. apply cancel_total_idempotent; [apply sample_reachable |]; by vm_compute. Defined.

Lemma every_job_can_settle_witness :
  ∃ ops j', (length ops ≤ 3)%nat
    ∧ run_ops ops (JournalSample.journal JournalSample.to_mutating) = Ok j'
    ∧ terminal j'.(j_state) = true.
Proof. apply every_job_can_settle; [apply sample_reachable |]; by vm_compute. Defined.

Lemma update_accepts_committed_witness :
  journal_update_check JournalSample.coordinator (JournalSample.journal JournalSample.to_restored)
    RequestSample.request (JournalSample.journal JournalSample.to_review) = Ok tt.
Proof.
  apply (update_accepts_committed _ _ (OpSettleRuntime "complete" None)).
  all: by vm_compute.
Defined.
