(* ===== verification/JournalRestart.v ===== *)
(** * What a restarted coordinator makes of a job

    [scan_one] classifies every stored journal and the start-up loop of
    [operations/coordinator.rs] adopts and normalises it. The theorems: the
    classification of a reachable journal, that a runtime change is never
    forgotten whatever the file system does, and that start-up leaves no job
    half-way when its writes succeed. *)

From S2P Require Import Prelude RustStr SchedRecord PercentRecord Vocabulary RustNet CapturePolicy OperationRequest OperationRoundtrip JobJournal JournalLifecycle JournalContract.
Local Open Scope string_scope.
#[local] Opaque journal_validate.

Lemma disposition_facts coordinator_boot still_matches j :
  reachable j → j.(j_boot_id) = coordinator_boot →
  let d := disposition coordinator_boot still_matches j in
  (d = DSettled ↔ terminal j.(j_state) = true)
  ∧ (j.(j_runtime_mutated) = true → d = DLiveProcess ∨ d = DRecoveryRequired)
  ∧ (d = DDeadBeforeMutation → j.(j_runtime_mutated) = false
       ∧ match j.(j_state) with Starting | Running | Cancelling => True | _ => False end)
  ∧ (d = DQueued → (j.(j_state) = Queued ∨ j.(j_state) = Cancelling) ∧ j.(j_process) = None)
  ∧ (d = DRecoveryRequired →
       match j.(j_state) with Running | Cancelling | Recovering => True | _ => False end).
Proof.
  intros Hr Hb. destruct (reachable_owned _ Hr) as [Hq Hw]. cbv zeta. unfold disposition.
  rewrite Hb, String.eqb_refl, Hq. cbn [negb].
  destruct (j_state j) eqn:Hs; simpl in *; destruct_and?;
    destruct (j_process j) as [p |]; simpl in *; try discriminate;
    try destruct (still_matches p) as [[] |];
    destruct (j_runtime_mutated j); simpl in *; try discriminate;
    repeat split; intros; try discriminate; auto.
Qed.

(** The classification of a reachable journal of this boot is exact: it is
    settled precisely when the job ended, a job that may have changed the runtime
    is never taken for a waiting or a harmlessly dead one, a job counted as dead
    before the mutation really left the runtime alone, and a waiting job has no
    worker process. *)
Theorem disposition_exact coordinator_boot still_matches j :
  reachable j → j.(j_boot_id) = coordinator_boot →
  let d := disposition coordinator_boot still_matches j in
  (d = DSettled ↔ terminal j.(j_state) = true)
  ∧ (j.(j_runtime_mutated) = true → d = DLiveProcess ∨ d = DRecoveryRequired)
  ∧ (d = DDeadBeforeMutation → j.(j_runtime_mutated) = false
       ∧ match j.(j_state) with Starting | Running | Cancelling => True | _ => False end)
  ∧ (d = DQueued → (j.(j_state) = Queued ∨ j.(j_state) = Cancelling) ∧ j.(j_process) = None)
  ∧ (d = DRecoveryRequired →
       match j.(j_state) with Running | Cancelling | Recovering => True | _ => False end).
Proof. apply disposition_facts. Qed.

(** The start-up check of a method: nothing changes, or the method was committed. *)
Lemma startup_apply_cases persist coordinator request op d issue s :
  let s' := startup_apply persist coordinator request op d issue s in
  (s'.(su_journal) = s.(su_journal) ∧ s'.(su_disposition) = s.(su_disposition))
  ∨ (committed op s.(su_journal) = Ok s'.(su_journal) ∧ s'.(su_disposition) = d).
Proof.
  cbv zeta. unfold startup_apply. destruct (committed op (su_journal s)) as [next |]; simpl; [| auto].
  destruct (store_update persist coordinator request (su_journal s) next) as [[] |]; simpl; auto.
Qed.

Lemma startup_adopt_cases persist coordinator j :
  let r := startup_adopt persist coordinator j in
  r.1 = j ∨ adopt_generation coordinator j = Ok r.1.
Proof.
  cbv zeta. unfold startup_adopt. case_match; [| auto].
  unfold store_adopt. destruct (adopt_generation coordinator j) as [a |]; simpl; [| auto].
  destruct (persist a) as [[] |]; simpl; auto.
Qed.

Lemma startup_adopt_reachable persist coordinator j :
  reachable j → reachable (startup_adopt persist coordinator j).1.
Proof.
  intros Hr. destruct (startup_adopt_cases persist coordinator j) as [-> | H]; [done |].
  eauto using reachable.
Qed.

Lemma startup_adopt_same persist coordinator j :
  let j' := (startup_adopt persist coordinator j).1 in
  j'.(j_state) = j.(j_state) ∧ j'.(j_runtime_mutated) = j.(j_runtime_mutated)
  ∧ j'.(j_process) = j.(j_process) ∧ j'.(j_boot_id) = j.(j_boot_id)
  ∧ j'.(j_job_id) = j.(j_job_id).
Proof.
  cbv zeta. destruct (startup_adopt_cases persist coordinator j) as [-> | H]; [done |].
  apply adopt_inv in H as (_ & _ & -> & _). done.
Qed.

Lemma recovery_mutates code j j' :
  committed (OpRequireRecovery code) j = Ok j' →
  j'.(j_runtime_mutated) = true ∧ j'.(j_state) = Recovering.
Proof. intros H. open_op H; reflect_bools; simpl; done. Qed.

(** C30: a restart never forgets a changed runtime, whatever the writes of the
    journal do: the journal stays a reachable one, and if the job may have
    changed the runtime it is still marked so and is either recovering already,
    or handled as a live worker or as owing a recovery. *)
Theorem restart_keeps_debt persist coordinator still_matches request j :
  reachable j → j.(j_boot_id) = coordinator.(coordinator_boot_id) →
  let s := startup_job persist coordinator still_matches request j in
  reachable s.(su_journal)
  ∧ (j.(j_runtime_mutated) = true → s.(su_journal).(j_runtime_mutated) = true
       ∧ (s.(su_disposition) = DLiveProcess ∨ s.(su_disposition) = DRecoveryRequired)).
Proof.
  intros Hr Hb. cbv zeta. unfold startup_job.
  destruct (disposition_facts (coordinator_boot_id coordinator) still_matches j Hr Hb) as (_ & Hm & _).
  pose proof (startup_adopt_reachable persist coordinator j Hr) as Hr1.
  destruct (startup_adopt_same persist coordinator j) as (_ & Em & _).
  destruct (startup_adopt persist coordinator j) as [j1 issues]. simpl in *.
  set (s1 := Build_StartupJob j1 _ issues).
  set (s2 := if _ && _ && _ then _ else s1).
  assert (H2 : reachable s2.(su_journal) ∧ (j.(j_runtime_mutated) = true → s2 = s1)).
  { unfold s2. case_match eqn:E; [| done]. split.
    - match goal with |- context [startup_apply ?p ?c ?r ?o ?d ?i s1] =>
        destruct (startup_apply_cases p c r o d i s1) as [[-> _] | [H _]] end; [done |].
      eauto using reachable.
    - intros Hj. rewrite Em, Hj in E. by rewrite andb_false_r in E. }
  destruct H2 as [Hr2 H2]. case_match; [| split; [done |]; intros Hj; rewrite (H2 Hj); simpl].
  - match goal with |- context [startup_apply ?p ?c ?r ?o ?d ?i s2] =>
      destruct (startup_apply_cases p c r o d i s2) as [[-> ->] | [Hc ->]] end.
    + split; [done |]. intros Hj. rewrite (H2 Hj). simpl. rewrite Em. auto.
    + split; [eauto using reachable |]. intros Hj. apply recovery_mutates in Hc as [-> _].
      rewrite (H2 Hj). auto.
  - rewrite Em. auto.
Qed.

(** ** Start-up when the writes succeed *)

Section restart.
Context (coordinator : CoordinatorIdentity) (still_matches : ProcessIdentity → Res bool).
Context (persist : JobJournal → Res unit) (request : OperationRequest).
Hypothesis persist_ok : ∀ j, persist j = Ok tt.
Hypothesis generation_hex :
  journal_hex "coordinator_generation" coordinator.(coordinator_generation) 32 = Ok tt.

(** The stored request is the one the job was admitted with. *)
Definition request_of (j : JobJournal) : Prop :=
  request.(identity).(job_id) = j.(j_job_id) ∧ request.(identity).(instance) = j.(j_instance)
  ∧ request.(identity).(target_interface) = j.(j_target_interface)
  ∧ request.(identity).(sqm_fingerprint) = j.(j_sqm_fingerprint).

Lemma startup_adopt_ok j :
  reachable j → headroom 1 j → j.(j_boot_id) = coordinator.(coordinator_boot_id) →
  request_of j →
  let r := startup_adopt persist coordinator j in
  r.2 = [] ∧ r.1.(j_generation) = coordinator.(coordinator_generation) ∧ request_of r.1
  ∧ (r.1.(j_sequence) ≤ j.(j_sequence) + 1)%N.
Proof.
  intros Hr Hh Hb Hq. cbv zeta. unfold startup_adopt. rewrite Hb, String.eqb_refl. simpl.
  destruct (String.eqb_spec (j_generation j) (coordinator_generation coordinator)) as [E | E];
    simpl; [split_and!; try done; lia |].
  pose proof (reachable_valid _ Hr) as Hv. unfold store_adopt, adopt_generation.
  rewrite Hv, Hb, String.eqb_refl. simpl.
  rewrite (proj2 (u64_checked_add_Some _ _ _) (conj eq_refl Hh)). simpl.
  rewrite validate_adopted; [| done | done | lia]. simpl. rewrite persist_ok. simpl.
  split_and!; done.
Qed.

Lemma startup_apply_ok op j' d issue s :
  s.(su_journal).(j_boot_id) = coordinator.(coordinator_boot_id) →
  s.(su_journal).(j_generation) = coordinator.(coordinator_generation) →
  request_of s.(su_journal) → committed op s.(su_journal) = Ok j' →
  startup_apply persist coordinator request op d issue s
  = {| su_journal := j'; su_disposition := d; su_issues := s.(su_issues) |}.
Proof.
  intros Hb Hg (Hq1 & Hq2 & Hq3 & Hq4) H. unfold startup_apply, store_update. rewrite H. simpl.
  rewrite (committed_update coordinator request _ _ _ H) by done. simpl. by rewrite persist_ok.
Qed.

(** What start-up may leave behind. *)
Definition reconciled (s : StartupJob) : Prop :=
  match s.(su_disposition) with
  | DSettled => terminal s.(su_journal).(j_state) = true
  | DLiveProcess => ∃ p, s.(su_journal).(j_process) = Some p ∧ still_matches p = Ok true
  | DRecoveryRequired => s.(su_journal).(j_state) = Recovering
  | DQueued => (s.(su_journal).(j_state) = Queued ∨ s.(su_journal).(j_state) = Cancelling)
               ∧ s.(su_journal).(j_process) = None
  | _ => False
  end.

Lemma disposition_live j :
  disposition coordinator.(coordinator_boot_id) still_matches j = DLiveProcess →
  ∃ p, j.(j_process) = Some p ∧ still_matches p = Ok true.
Proof.
  unfold disposition. repeat case_match; try discriminate. eauto.
Qed.

Lemma disposition_launching j :
  j.(j_boot_id) = coordinator.(coordinator_boot_id) →
  disposition coordinator.(coordinator_boot_id) still_matches j ≠ DLaunching
  ∧ disposition coordinator.(coordinator_boot_id) still_matches j ≠ DStaleBoot.
Proof.
  intros Hb. unfold disposition. rewrite Hb, String.eqb_refl. simpl. by repeat case_match.
Qed.

(** C31: when the journal writes succeed, start-up reconciles every job of this
    boot that has room for two more records: no issue is noted, the journal
    belongs to this coordinator, and the job is ended, attached to a live worker,
    recovering, or waits without a worker. *)
Theorem restart_reconciles j :
  reachable j → headroom 2 j → j.(j_boot_id) = coordinator.(coordinator_boot_id) →
  request_of j →
  let s := startup_job persist coordinator still_matches request j in
  s.(su_issues) = [] ∧ s.(su_journal).(j_generation) = coordinator.(coordinator_generation)
  ∧ reconciled s.
Proof.
  intros Hr Hh Hb Hq. cbv zeta. unfold startup_job.
  destruct (disposition_facts (coordinator_boot_id coordinator) still_matches j Hr Hb)
    as (Ds & _ & Dd & Dq & Dr).
  destruct (disposition_launching j Hb) as [Dl Db].
  pose proof (disposition_live j) as Dv.
  pose proof (startup_adopt_reachable persist coordinator j Hr) as Hr1.
  destruct (startup_adopt_same persist coordinator j) as (Es & Em & Ep & Eb & _).
  destruct (startup_adopt_ok j) as (Ei & Eg & Hq1 & Hseq); [done | | done | done |].
  { unfold headroom, is_u64 in *. lia. }
  destruct (startup_adopt persist coordinator j) as [j1 issues]. simpl in *. subst issues.
  assert (Hh1 : headroom 1 j1) by (unfold headroom, is_u64 in *; lia).
  rewrite <- Es, <- ?Em, <- ?Ep in *. rewrite Hb in Eb. clear Hb Hh Hseq Hr Hq.
  destruct (disposition _ _ j); simpl; rewrite ?andb_false_r; try done.
  - (* waiting *) split_and!; try done. unfold reconciled. simpl. by apply Dq.
  - (* live *) split_and!; try done. unfold reconciled. simpl. auto.
  - (* dead before mutation *)
    destruct (Dd eq_refl) as [Hm Hs].
    destruct (settle_failed_ok (Some "native-worker-disappeared") j1) as [E _]; [done..|].
    rewrite Hm. replace (terminal (j_state j1)) with false by (by destruct (j_state j1)). simpl.
    erewrite startup_apply_ok; [| exact Eb | exact Eg | exact Hq1 | exact E]. simpl. done.
  - (* settled *) split_and!; try done. unfold reconciled. simpl. by apply Ds.
  - (* recovery *)
    destruct (decide (j_state j1 = Recovering)) as [E | E].
    + rewrite bool_decide_eq_true_2 by done. simpl. done.
    + rewrite bool_decide_eq_false_2 by done. simpl.
      destruct (enter_recovery_ok "startup-reconciliation-required" j1) as [H _]; [done.. | |].
      { specialize (Dr eq_refl). by destruct (j_state j1). }
      erewrite startup_apply_ok; [| exact Eb | exact Eg | exact Hq1 | exact H]. simpl. done.
Qed.
End restart.

(** ** Concrete restarts *)

Module RestartSample.
(** The coordinator of the next generation on the same boot, with every worker gone. *)
Definition coordinator : CoordinatorIdentity := {|
  coordinator_boot_id := JournalSample.coordinator.(coordinator_boot_id);
  coordinator_generation := RequestSample.repeat_char 32 "7";
  coordinator_process := {| pid := 11; process_group := 11; starttime_ticks := 12 |} |}.
Definition gone (_ : ProcessIdentity) : Res bool := Ok false.
Definition write (_ : JobJournal) : Res unit := Ok tt.
End RestartSample.

Lemma disposition_exact_witness :
  disposition RestartSample.coordinator.(coordinator_boot_id) RestartSample.gone
    (JournalSample.journal JournalSample.to_mutating) = DLiveProcess
  ∨ disposition RestartSample.coordinator.(coordinator_boot_id) RestartSample.gone
    (JournalSample.journal JournalSample.to_mutating) = DRecoveryRequired.
Proof. apply disposition_exact; [apply sample_reachable | |]; by vm_compute. Defined.

Lemma restart_keeps_debt_witness :
  (startup_job RestartSample.write RestartSample.coordinator RestartSample.gone
     RequestSample.request (JournalSample.journal JournalSample.to_mutating))
    .(su_journal).(j_runtime_mutated) = true.
Proof. apply restart_keeps_debt; [apply sample_reachable | |]; by vm_compute. Defined.

Lemma restart_reconciles_witness :
  reconciled RestartSample.gone
    (startup_job RestartSample.write RestartSample.coordinator RestartSample.gone
       RequestSample.request (JournalSample.journal JournalSample.to_mutating)).
Proof.
  refine (proj2 (proj2 (restart_reconciles RestartSample.coordinator RestartSample.gone
    RestartSample.write RequestSample.request _ _
    (JournalSample.journal JournalSample.to_mutating) _ _ _ _))).
  - intros j. reflexivity.
  - by vm_compute.
  - apply sample_reachable. by vm_compute.
  - by vm_compute.
  - by vm_compute.
  - repeat split; by vm_compute.
Defined.
