(* ===== verification/JournalCodec.v ===== *)
(** * The text of a job journal

    Models [JobJournal::encode], [encode_for_schema] and [decode] of
    [operations/journal.rs]: one [key=value] line per field under a header that
    names the schema (2, with a runtime owner 3, with a publication 4), and the
    two-line prefix of a journal that owes a history decision. *)

From S2P Require Import Prelude RustStr SchedRecord PercentRecord LineRecord Vocabulary RustNet CapturePolicy OperationRequest OperationRoundtrip JobJournal JournalLifecycle JournalContract.
Local Open Scope string_scope.

(** ** Headers *)

Definition JOURNAL_HEADER : string :=
  "cake-autorate-calibration" +:+ str1 tab +:+ "2" +:+ str1 tab +:+ "journal".
Definition RUNTIME_OWNER_JOURNAL_HEADER : string :=
  "cake-autorate-calibration" +:+ str1 tab +:+ "3" +:+ str1 tab +:+ "journal".
Definition PUBLICATION_JOURNAL_HEADER : string :=
  "cake-autorate-calibration" +:+ str1 tab +:+ "4" +:+ str1 tab +:+ "journal".
Definition HISTORY_JOURNAL_PREFIX : string :=
  "cake-autorate-calibration" +:+ str1 tab +:+ "5" +:+ str1 tab +:+ "journal" +:+ str1 nl
  +:+ "history_decision_required=1" +:+ str1 nl.

Definition journal_header (schema : N) : string :=
  if (schema =? 2)%N then JOURNAL_HEADER
  else if (schema =? 3)%N then RUNTIME_OWNER_JOURNAL_HEADER else PUBLICATION_JOURNAL_HEADER.

(** ** Encoding *)

Definition process_texts (p : option ProcessIdentity) : string * string * string :=
  match p with
  | Some process => (show process.(pid), show process.(process_group),
                     show process.(starttime_ticks))
  | None => ("", "", "")
  end.

(** The [fields] vector before the schema's own fields. *)
Definition journal_fields (j : JobJournal) : list (string * string) :=
  let '(pid, process_group, starttime) := process_texts j.(j_process) in
  [("job_id", j.(j_job_id)); ("boot_id", j.(j_boot_id));
   ("coordinator_generation", j.(j_generation));
   ("state", OperationState_as_str j.(j_state)); ("sequence", show j.(j_sequence));
   ("heavy_traffic", bool_text j.(j_heavy_traffic));
   ("heavy_lease_acquired", bool_text j.(j_heavy_lease_acquired));
   ("instance", j.(j_instance)); ("target_interface", j.(j_target_interface));
   ("sqm_fingerprint", j.(j_sqm_fingerprint));
   ("process_pid", pid); ("process_group", process_group); ("process_starttime", starttime);
   ("worker_run_id", default "" j.(j_worker_run_id));
   ("terminal_kind", default "" j.(j_terminal_kind));
   ("terminal_state", default "" j.(j_terminal_state));
   ("diagnostic_code", default "" j.(j_diagnostic_code));
   ("reconcile_attempts", show j.(j_reconcile_attempts));
   ("runtime_mutated", bool_text j.(j_runtime_mutated));
   ("recovery_required", bool_text j.(j_recovery_required))].

(** The fields of schema 3 and 4; their presence is checked before. *)
Definition journal_extra_fields (schema : N) (j : JobJournal) : list (string * string) :=
  if (schema =? 3)%N then
    match j.(j_runtime_owner_process) with
    | Some owner => [("runtime_owner_pid", show owner.(pid));
                     ("runtime_owner_group", show owner.(process_group));
                     ("runtime_owner_starttime", show owner.(starttime_ticks))]
    | None => []
    end
  else if (schema =? 4)%N then
    [("publication_boot_id", default "" j.(j_publication_boot_id));
     ("publication_generation", default "" j.(j_publication_generation))]
  else [].

Definition journal_schema_check (schema : N) (j : JobJournal) : Res unit :=
  fail_if (negb ((2 <=? schema)%N && (schema <=? 4)%N)) "unsupported journal encoding schema"
    ≫= λ _,
  fail_if ((schema =? 2)%N && is_some j.(j_runtime_owner_process))
    "journal schema 2 cannot encode a runtime owner" ≫= λ _,
  fail_if ((schema =? 3)%N && negb (is_some j.(j_runtime_owner_process)))
    "journal schema 3 requires a runtime owner" ≫= λ _,
  fail_if ((schema =? 4)%N
           && (is_some j.(j_runtime_owner_process) || negb (is_some j.(j_publication_boot_id))
               || negb (is_some j.(j_publication_generation))))
    "journal schema 4 requires an inert native publication identity" ≫= λ _,
  fail_if (negb (schema =? 4)%N
           && (is_some j.(j_publication_boot_id) || is_some j.(j_publication_generation)))
    "journal schema 2/3 cannot encode native publication identity".

Definition journal_encode_for_schema (schema : N) (j : JobJournal) : Res string :=
  journal_validate j ≫= λ _,
  fail_if j.(j_history_decision_required)
    "history-required journal cannot use a legacy schema" ≫= λ _,
  journal_schema_check schema j ≫= λ _,
  let output := kv_text (journal_header schema)
                  (journal_fields j ++ journal_extra_fields schema j)%list in
  fail_if (MAX_OPERATION_RECORD_BYTES <? len output)%N "journal record exceeds its size bound"
    ≫= λ _, mret output.

Definition journal_schema (j : JobJournal) : N :=
  if is_some j.(j_publication_boot_id) then 4
  else if is_some j.(j_runtime_owner_process) then 3 else 2.

(** The recursive call of [encode] is on a journal whose flag is cleared. *)
Definition journal_encode (j : JobJournal) : Res string :=
  if j.(j_history_decision_required) then
    let inner := set_history_decision_required false j in
    text ← journal_encode_for_schema (journal_schema inner) inner;
    let encoded := HISTORY_JOURNAL_PREFIX +:+ text in
    fail_if (MAX_OPERATION_RECORD_BYTES <? len encoded)%N "journal record exceeds its size bound"
      ≫= λ _, mret encoded
  else journal_encode_for_schema (journal_schema j) j.

(** ** Decoding *)

Abbreviation JournalReader := (M (list string) string).

Definition journal_field (expected : string) : JournalReader string := λ record,
  match record with
  | [] => (Err ("journal is missing field " +:+ expected), [])
  | line :: rest =>
      (match split_once "=" line with
       | None => Err ("journal field " +:+ expected +:+ " is malformed")
       | Some (name, value) =>
           fail_if (negb (String.eqb name expected)
                    || any_byte (λ c, Ascii.eqb c cr || Ascii.eqb c nl || Ascii.eqb c "=") value)
             ("journal expected field " +:+ expected) ≫= λ _, mret value
       end, rest)
  end.

Definition journal_parse_bool (value : string) : Res bool :=
  ok_or (match_str [("0", false); ("1", true)] value) "journal boolean is not canonical".

Definition optional_field (value : string) : option string :=
  if String.eqb value "" then None else Some value.

Definition journal_parse_u64 (name value : string) : Res N :=
  ok_or (str_parse_u64 value) ("journal field " +:+ name +:+ " is not an unsigned integer").
Definition journal_parse_u32 (name value : string) : Res N :=
  ok_or (parse_uint u32_max value) ("journal field " +:+ name +:+ " is not an unsigned integer").

Definition read_identity_fields (name1 name2 name3 : string) (p g s : string)
    : Res ProcessIdentity :=
  pid ← journal_parse_u32 name1 p;
  process_group ← journal_parse_u32 name2 g;
  starttime ← journal_parse_u64 name3 s;
  mret {| pid := pid; process_group := process_group; starttime_ticks := starttime |}.

Definition read_owner (schema : N) : JournalReader (option ProcessIdentity) :=
  if (schema =? 3)%N then
    p ← journal_field "runtime_owner_pid";
    g ← journal_field "runtime_owner_group";
    s ← journal_field "runtime_owner_starttime";
    owner ← lift (read_identity_fields "runtime_owner_pid" "runtime_owner_group"
                    "runtime_owner_starttime" p g s);
    mret (Some owner)
  else mret None.

Definition read_publication (schema : N) : JournalReader (option string * option string) :=
  if (schema =? 4)%N then
    boot_id ← journal_field "publication_boot_id";
    generation ← journal_field "publication_generation";
    mret (Some boot_id, Some generation)
  else mret (None, None).

Definition no_more_lines : JournalReader unit := λ record,
  match record with
  | [] => (Ok tt, [])
  | _ :: rest => (Err "journal record contains unknown fields", rest)
  end.

Definition read_process (p g s : string) : Res (option ProcessIdentity) :=
  match String.eqb p "", String.eqb g "", String.eqb s "" with
  | true, true, true => mret None
  | false, false, false =>
      process ← read_identity_fields "process_pid" "process_group" "process_starttime" p g s;
      mret (Some process)
  | _, _, _ => Err "journal process identity is partial"
  end.

(** The fields after the header, in the order the decoder reads them. *)
Definition read_journal (schema : N) : JournalReader JobJournal :=
  job_id ← journal_field "job_id";
  boot_id ← journal_field "boot_id";
  generation ← journal_field "coordinator_generation";
  state_text ← journal_field "state";
  state ← lift (ok_or (OperationState_parse state_text) "unsupported journal state");
  sequence_text ← journal_field "sequence";
  sequence ← lift (journal_parse_u64 "sequence" sequence_text);
  heavy_text ← journal_field "heavy_traffic";
  heavy ← lift (journal_parse_bool heavy_text);
  lease_text ← journal_field "heavy_lease_acquired";
  lease ← lift (journal_parse_bool lease_text);
  instance ← journal_field "instance";
  target_interface ← journal_field "target_interface";
  sqm_fingerprint ← journal_field "sqm_fingerprint";
  process_pid ← journal_field "process_pid";
  process_group ← journal_field "process_group";
  process_starttime ← journal_field "process_starttime";
  worker_run_id ← journal_field "worker_run_id";
  terminal_kind ← journal_field "terminal_kind";
  terminal_state ← journal_field "terminal_state";
  diagnostic_code ← journal_field "diagnostic_code";
  attempts_text ← journal_field "reconcile_attempts";
  attempts ← lift (journal_parse_u32 "reconcile_attempts" attempts_text);
  mutated_text ← journal_field "runtime_mutated";
  mutated ← lift (journal_parse_bool mutated_text);
  recovery_text ← journal_field "recovery_required";
  recovery ← lift (journal_parse_bool recovery_text);
  owner ← read_owner schema;
  publication ← read_publication schema;
  no_more_lines ≫= λ _,
  process ← lift (read_process process_pid process_group process_starttime);
  mret {|
    j_job_id := job_id; j_boot_id := boot_id; j_generation := generation; j_state := state;
    j_sequence := sequence; j_heavy_traffic := heavy; j_heavy_lease_acquired := lease;
    j_instance := instance; j_target_interface := target_interface;
    j_sqm_fingerprint := sqm_fingerprint; j_process := process;
    j_runtime_owner_process := owner; j_worker_run_id := optional_field worker_run_id;
    j_terminal_kind := optional_field terminal_kind;
    j_terminal_state := optional_field terminal_state;
    j_publication_boot_id := publication.1; j_publication_generation := publication.2;
    j_diagnostic_code := optional_field diagnostic_code; j_reconcile_attempts := attempts;
    j_runtime_mutated := mutated; j_recovery_required := recovery;
    j_history_decision_required := false |}.

Definition schema_of_header (header : string) : Res N :=
  ok_or (match_str [(JOURNAL_HEADER, 2%N); (RUNTIME_OWNER_JOURNAL_HEADER, 3%N);
                    (PUBLICATION_JOURNAL_HEADER, 4%N)] header)
    "unsupported journal record header".

(** [decode] on an input without the history prefix. *)
Definition journal_decode_record (input : string) : Res JobJournal :=
  match lines input with
  | [] => Err "journal record header is missing"
  | header :: rest =>
      schema ← schema_of_header header;
      journal ← (read_journal schema rest).1;
      journal_validate journal ≫= λ _,
      text ← journal_encode_for_schema schema journal;
      fail_if (negb (String.eqb text input)) "journal record is not canonically encoded" ≫= λ _,
      mret journal
  end.

Definition NESTED_HISTORY : string := "cake-autorate-calibration" +:+ str1 tab +:+ "5" +:+ str1 tab.

(** [decode], with the recursive call as an argument. *)
Definition journal_decode_step (decode : string → Res JobJournal) (input : string)
    : Res JobJournal :=
  fail_if ((MAX_OPERATION_RECORD_BYTES <? len input)%N || negb (ends_with_char nl input))
    "journal record is not bounded and newline-terminated" ≫= λ _,
  match strip_prefix HISTORY_JOURNAL_PREFIX input with
  | Some inner =>
      fail_if (starts_with NESTED_HISTORY inner) "nested history journal is invalid" ≫= λ _,
      decoded ← decode inner;
      let journal := set_history_decision_required true decoded in
      text ← journal_encode journal;
      fail_if (negb (String.eqb text input)) "history journal is not canonical" ≫= λ _,
      mret journal
  | None => journal_decode_record input
  end.

Fixpoint journal_decode_fuel (fuel : nat) (input : string) : Res JobJournal :=
  match fuel with
  | O => Err "out of fuel"
  | S fuel => journal_decode_step (journal_decode_fuel fuel) input
  end.

(** The recursion is one level deep: [journal_decode_recursion] below. *)
Definition journal_decode : string → Res JobJournal := journal_decode_fuel 2.

(** *** Trying it *)

Example encode_running :
  is_ok (journal_encode (JournalSample.journal JournalSample.to_running)) = true.
Proof. by vm_compute. Qed.

Example decode_encoded_review :
  (journal_encode (JournalSample.journal JournalSample.to_review) ≫= journal_decode)
  = Ok (JournalSample.journal JournalSample.to_review).
Proof. by vm_compute. Qed.

(** ** Values on a line *)

Lemma kv_value_identifier name s extra :
  journal_identifier name s extra = Ok tt → all_bytes kv_byte extra = true → kv_value s.
Proof.
  intros H He. unfold journal_identifier in H. apply fail_if_ok in H. reflect_bools.
  apply (kv_value_extra extra); [done | done | lia].
Qed.

Lemma kv_value_hex name s n : (n ≤ 96)%N → journal_hex name s n = Ok tt → kv_value s.
Proof.
  intros Hn H. unfold journal_hex in H. apply fail_if_ok in H. reflect_bools.
  apply kv_value_lower_hex; [done | by subst; lia].
Qed.

Lemma kv_value_hex32 name s : journal_hex name s 32 = Ok tt → kv_value s.
Proof. by apply kv_value_hex. Qed.
Lemma kv_value_hex64 name s : journal_hex name s 64 = Ok tt → kv_value s.
Proof. by apply kv_value_hex. Qed.

Lemma kv_value_state s : kv_value (OperationState_as_str s).
Proof. by destruct s. Qed.

(** ** Typed journals: every number fits its field *)

Record journal_typed (j : JobJournal) : Prop := {
  jt_sequence : is_u64 j.(j_sequence);
  jt_process : ∀ p, j.(j_process) = Some p → identity_typed p;
  jt_owner : ∀ p, j.(j_runtime_owner_process) = Some p → identity_typed p;
}.

(** *** Reading a line back *)

Lemma journal_field_step {A} k v rest (f : string → JournalReader A) :
  kv_ok (k, v) → (journal_field k ≫= f) (kv_line (k, v) :: rest) = f v rest.
Proof.
  intros [(Hk & _) Hv]. unfold mbind, M_bind, journal_field, kv_line. cbn [fst snd] in *.
  rewrite split_once_append by done. rewrite String.eqb_refl. cbn [negb orb].
  destruct (any_byte _ v) eqn:E; [exfalso | done].
  unfold any_byte in E. apply negb_true_iff in E. destruct Hv as [Hv _].
  rewrite (all_bytes_impl kv_byte _ v) in E; [done | | done].
  intros c Hc. unfold kv_byte, printable in Hc. apply andb_true_iff in Hc as [Hp He].
  apply negb_true_iff in He. rewrite He, orb_false_r. reflect_bools.
  apply negb_true_iff, orb_false_iff. split; apply Ascii.eqb_neq; intros ->; vm_compute in H; done.
Qed.

(** ** Reading a journal back *)

Lemma parse_u64_back name n : is_u64 n → journal_parse_u64 name (show n) = Ok n.
Proof. intros H. unfold journal_parse_u64, str_parse_u64. by rewrite parse_uint_show. Qed.

Lemma parse_u32_back name n : is_u32 n → journal_parse_u32 name (show n) = Ok n.
Proof. intros H. unfold journal_parse_u32. by rewrite parse_uint_show. Qed.

Lemma parse_bool_back b : journal_parse_bool (bool_text b) = Ok b.
Proof. by destruct b. Qed.

Lemma identity_back n1 n2 n3 p :
  identity_typed p →
  read_identity_fields n1 n2 n3 (show p.(pid)) (show p.(process_group)) (show p.(starttime_ticks))
  = Ok p.
Proof.
  intros (H1 & H2 & H3). unfold read_identity_fields.
  rewrite !parse_u32_back, parse_u64_back by done. by destruct p.
Qed.

Lemma process_back j :
  journal_typed j →
  let '(p, g, s) := process_texts j.(j_process) in read_process p g s = Ok j.(j_process).
Proof.
  intros Ht. destruct (j_process j) as [p |] eqn:E; simpl; [| done].
  unfold read_process. rewrite !show_nonempty. by rewrite identity_back by (by apply Ht).
Qed.

Lemma optional_back (o : option string) (check : string → Res unit) :
  (∀ s, check s = Ok tt → s ≠ "") → check_some o check = Ok tt →
  optional_field (default "" o) = o.
Proof.
  intros H Hc. destruct o as [s |]; [| done]. unfold optional_field. simpl in *.
  by rewrite (proj2 (String.eqb_neq s "") (H s Hc)).
Qed.

Lemma identifier_nonempty name s extra : journal_identifier name s extra = Ok tt → s ≠ "".
Proof. unfold journal_identifier. intros H ->. done. Qed.

Lemma hex_nonempty name s : journal_hex name s 32 = Ok tt → s ≠ "".
Proof. unfold journal_hex. by intros H ->. Qed.

Lemma kind_value s :
  fail_if (negb (String.eqb s "result") && negb (String.eqb s "error"))
    "journal terminal kind is unsupported" = Ok tt → s = "result" ∨ s = "error".
Proof.
  intros H%fail_if_ok. destruct (String.eqb_spec s "result"); [by left |].
  destruct (String.eqb_spec s "error"); [by right | done].
Qed.

(** What the checks of [validate] say about the values of the record. *)
Record journal_values (j : JobJournal) : Prop := {
  jv_ids : kv_value j.(j_job_id) ∧ kv_value j.(j_boot_id) ∧ kv_value j.(j_generation) ∧ kv_value j.(j_instance)
           ∧ kv_value j.(j_target_interface) ∧ kv_value j.(j_sqm_fingerprint);
  jv_options : kv_value (default "" j.(j_worker_run_id)) ∧ kv_value (default "" j.(j_terminal_kind))
           ∧ kv_value (default "" j.(j_terminal_state)) ∧ kv_value (default "" j.(j_diagnostic_code))
           ∧ kv_value (default "" j.(j_publication_boot_id))
           ∧ kv_value (default "" j.(j_publication_generation));
  jv_back : optional_field (default "" j.(j_worker_run_id)) = j.(j_worker_run_id)
           ∧ optional_field (default "" j.(j_terminal_kind)) = j.(j_terminal_kind)
           ∧ optional_field (default "" j.(j_terminal_state)) = j.(j_terminal_state)
           ∧ optional_field (default "" j.(j_diagnostic_code)) = j.(j_diagnostic_code);
  jv_attempts : (j.(j_reconcile_attempts) ≤ 1000000)%N;
  jv_publication : is_some j.(j_publication_boot_id) = is_some j.(j_publication_generation)
           ∧ (is_some j.(j_publication_boot_id) = true → j.(j_runtime_owner_process) = None);
}.

Lemma publication_values j :
  validate_publication j = Ok tt →
  kv_value (default "" j.(j_publication_boot_id)) ∧ kv_value (default "" j.(j_publication_generation))
  ∧ is_some j.(j_publication_boot_id) = is_some j.(j_publication_generation)
  ∧ (is_some j.(j_publication_boot_id) = true → j.(j_runtime_owner_process) = None).
Proof.
  unfold validate_publication.
  destruct (j_publication_boot_id j), (j_publication_generation j); try done.
  intros H. apply then_ok in H as [H1 H]. apply then_ok in H as [H2 H].
  apply fail_if_ok in H. reflect_bools.
  split_and?; [by eapply kv_value_hex32 | by eapply kv_value_hex32 | done |].
  by destruct (j_runtime_owner_process j).
Qed.

Lemma validate_values j : journal_validate j = Ok tt → journal_values j.
Proof.
  intros H. open_valid H. apply publication_values in H as (P1 & P2 & P3 & P4).
  assert (Hk : check_some (j_terminal_kind j) (λ s, fail_if (negb (String.eqb s "result")
    && negb (String.eqb s "error")) "journal terminal kind is unsupported") = Ok tt) by done.
  split.
  - split_and?; first [by eapply kv_value_hex32 | by eapply kv_value_hex64 | by eapply kv_value_identifier].
  - split_and?; try done; (eapply kv_value_some; [| eassumption]); simpl; intros s Hs;
      [by eapply kv_value_hex32 | by destruct (kind_value s Hs) as [-> | ->]
       | by eapply kv_value_identifier | by eapply kv_value_identifier].
  - split_and?; (eapply optional_back; [| eassumption]); simpl; intros s Hs;
      [by eapply hex_nonempty | by destruct (kind_value s Hs) as [-> | ->]
       | by eapply identifier_nonempty | by eapply identifier_nonempty].
  - match goal with H : fail_if (1000000 <? _)%N _ = _ |- _ => apply fail_if_ok in H end.
    by reflect_bools.
  - done.
Qed.

(** Every line of a typed, valid journal can be carried and is read back. *)
Ltac field_value :=
  apply kv_ok_intro; [reflexivity |];
  first [assumption | apply kv_value_bool | apply kv_value_state | done
        | apply kv_value_show; first [assumption | apply is_u32_u64; assumption]].

Lemma attempts_u32 n : (n ≤ 1000000)%N → is_u32 n.
Proof. unfold is_u32, u32_max. lia. Qed.

Lemma journal_fields_ok j :
  journal_typed j → journal_values j → Forall kv_ok (journal_fields j).
Proof.
  intros [Hs Hp _] [(? & ? & ? & ? & ? & ?) (? & ? & ? & ? & _) _ Ha _].
  apply attempts_u32 in Ha. unfold journal_fields, process_texts.
  destruct (j_process j) as [p |].
  - destruct (Hp p eq_refl) as (? & ? & ?). repeat (apply Forall_cons; split); try by constructor.
    all: field_value.
  - repeat (apply Forall_cons; split); try by constructor. all: field_value.
Qed.

Lemma journal_extra_fields_ok schema j :
  journal_typed j → journal_values j → Forall kv_ok (journal_extra_fields schema j).
Proof.
  intros [_ _ Ho] [_ (_ & _ & _ & _ & ? & ?) _ _ _]. unfold journal_extra_fields.
  case_match; [| case_match; [| by constructor]].
  - destruct (j_runtime_owner_process j) as [p |]; [| by constructor].
    destruct (Ho p eq_refl) as (? & ? & ?).
    repeat (apply Forall_cons; split); try by constructor. all: field_value.
  - repeat (apply Forall_cons; split); try by constructor. all: field_value.
Qed.

(** The schema's own fields are read back, up to the end of the record. *)
Lemma read_extra_back schema j :
  journal_typed j → journal_values j → journal_schema_check schema j = Ok tt →
  ∃ rest, read_owner schema (kv_line <$> journal_extra_fields schema j)
          = (Ok j.(j_runtime_owner_process), rest)
        ∧ read_publication schema rest
          = (Ok (j.(j_publication_boot_id), j.(j_publication_generation)), []).
Proof.
  intros Ht Hv Hc. pose proof (journal_extra_fields_ok schema j Ht Hv) as Hf.
  destruct Ht as [_ _ Ho]. unfold journal_schema_check in Hc. repeat apply then_ok in Hc as [? Hc].
  repeat match goal with H : fail_if _ _ = _ |- _ => apply fail_if_ok in H end.
  unfold journal_extra_fields, read_owner, read_publication in *.
  destruct (N.eqb_spec schema 3) as [-> | N3]; [| destruct (N.eqb_spec schema 4) as [-> | N4]].
  - simpl in *. destruct (j_runtime_owner_process j) as [p |]; [| done].
    destruct (j_publication_boot_id j), (j_publication_generation j); try done.
    rewrite !Forall_cons in Hf. destruct Hf as (F1 & F2 & F3 & _).
    exists []. split; [| done]. simpl fmap. rewrite !journal_field_step by done.
    rewrite identity_back by auto. done.
  - simpl in *. destruct (j_runtime_owner_process j) as [p |]; [done |].
    destruct (j_publication_boot_id j), (j_publication_generation j); try done.
    rewrite !Forall_cons in Hf. destruct Hf as (F1 & F2 & _).
    eexists. split; [done |]. simpl fmap. by rewrite !journal_field_step by done.
  - assert (schema = 2)%N as -> by (reflect_bools; lia). simpl in *.
    destruct (j_runtime_owner_process j), (j_publication_boot_id j), (j_publication_generation j);
      try done. by exists [].
Qed.

Lemma state_back s : OperationState_parse (OperationState_as_str s) = Some s.
Proof. by destruct s. Qed.

Lemma read_journal_back schema j :
  journal_typed j → journal_values j → journal_schema_check schema j = Ok tt →
  read_journal schema (kv_line <$> (journal_fields j ++ journal_extra_fields schema j)%list)
  = (Ok (set_history_decision_required false j), []).
Proof.
  intros Ht Hv Hc. destruct (read_extra_back schema j Ht Hv Hc) as (rest & E1 & E2).
  pose proof (journal_fields_ok j Ht Hv) as Hf. pose proof (process_back j Ht) as Hp.
  destruct Hv as [_ _ (B1 & B2 & B3 & B4) Ha _]. apply attempts_u32 in Ha.
  destruct Ht as [Hs _ _]. rewrite fmap_app. unfold journal_fields in *.
  destruct (process_texts (j_process j)) as [[p g] s].
  rewrite !Forall_cons in Hf. destruct_and?. cbn [fmap list_fmap app].
  unfold read_journal.
  repeat (rewrite journal_field_step by done;
          rewrite ?state_back, ?parse_u64_back, ?parse_u32_back, ?parse_bool_back by done;
          cbn [ok_or]; rewrite ?lift_step).
  erewrite (part_step (read_owner _)) by exact E1.
  erewrite (part_step (read_publication _)) by exact E2.
  cbn [no_more_lines]. rewrite Hp. simpl. rewrite B1, B2, B3, B4. by destruct j.
Qed.

(** ** The record as a whole *)

Lemma header_clean schema :
  contains nl (journal_header schema) = false ∧ contains cr (journal_header schema) = false
  ∧ (len (journal_header schema) ≤ 35)%N.
Proof. unfold journal_header. repeat case_match; by vm_compute. Qed.

Lemma schema_back schema :
  (2 <= schema <= 4)%N → schema_of_header (journal_header schema) = Ok schema.
Proof.
  intros H. assert (schema = 2 ∨ schema = 3 ∨ schema = 4)%N as [-> | [-> | ->]] by lia;
    by vm_compute.
Qed.

Lemma schema_check_range schema j :
  journal_schema_check schema j = Ok tt → (2 <= schema <= 4)%N.
Proof.
  unfold journal_schema_check. intros H. apply then_ok in H as [H _]. apply fail_if_ok in H.
  by reflect_bools.
Qed.

Lemma encode_for_schema_inv schema j text :
  journal_encode_for_schema schema j = Ok text →
  journal_validate j = Ok tt ∧ j.(j_history_decision_required) = false
  ∧ journal_schema_check schema j = Ok tt
  ∧ text = kv_text (journal_header schema) (journal_fields j ++ journal_extra_fields schema j)
  ∧ (len text <= MAX_OPERATION_RECORD_BYTES)%N.
Proof.
  unfold journal_encode_for_schema. intros H. apply then_ok in H as [H1 H].
  apply then_ok in H as [H2 H]. apply then_ok in H as [H3 H]. apply then_ok in H as [H4 H].
  apply fail_if_ok in H2, H4. injection H as <-. by apply N.ltb_ge in H4.
Qed.

Lemma record_fields_ok schema j :
  journal_typed j → journal_values j →
  Forall kv_ok (journal_fields j ++ journal_extra_fields schema j)%list.
Proof. intros. apply Forall_app; auto using journal_fields_ok, journal_extra_fields_ok. Qed.

Lemma decode_record_back schema j text :
  journal_typed j → journal_encode_for_schema schema j = Ok text →
  journal_decode_record text = Ok j.
Proof.
  intros Ht He. destruct (encode_for_schema_inv _ _ _ He) as (Hv & Hh & Hc & Htext & _).
  pose proof (validate_values j Hv) as Hw. destruct (header_clean schema) as (N1 & N2 & _).
  unfold journal_decode_record. rewrite Htext at 1.
  rewrite lines_kv by auto using record_fields_ok.
  rewrite schema_back by (by eapply schema_check_range). cbn [mbind result_bind].
  rewrite read_journal_back by done. cbn [fst].
  replace (set_history_decision_required false j) with j by (by destruct j; simpl in *; subst).
  cbn [mbind result_bind]. rewrite Hv, He. simpl. by rewrite String.eqb_refl.
Qed.

(** The decoder never sees the prefix in a record of schema 2 to 4. *)
Lemma text_prefix schema fields :
  strip_prefix HISTORY_JOURNAL_PREFIX (kv_text (journal_header schema) fields) = None
  ∧ starts_with NESTED_HISTORY (kv_text (journal_header schema) fields) = false.
Proof. unfold kv_text, journal_header. repeat case_match; by vm_compute. Qed.

Lemma nested_strip s : starts_with NESTED_HISTORY s = false → strip_prefix HISTORY_JOURNAL_PREFIX s = None.
Proof.
  assert (G : ∀ a b s', starts_with a s' = false → strip_prefix (a +:+ b) s' = None).
  { induction a as [| c a IH]; intros b [| d s']; simpl; try done.
    destruct (Ascii.eqb_spec c d); simpl; auto. }
  change HISTORY_JOURNAL_PREFIX with (NESTED_HISTORY +:+ "journal" +:+ str1 nl
    +:+ "history_decision_required=1" +:+ str1 nl). apply G.
Qed.

Lemma decode_step_plain rec schema j text :
  journal_typed j → journal_encode_for_schema schema j = Ok text →
  journal_decode_step rec text = Ok j.
Proof.
  intros Ht He. destruct (encode_for_schema_inv _ _ _ He) as (_ & _ & _ & Htext & Hlen).
  unfold journal_decode_step. rewrite (proj2 (N.ltb_ge _ _) Hlen).
  assert (ends_with_char nl text = true) as -> by (rewrite Htext; apply kv_text_ends).
  assert (strip_prefix HISTORY_JOURNAL_PREFIX text = None) as ->
    by (rewrite Htext; apply text_prefix).
  by eapply decode_record_back.
Qed.

Lemma typed_history b j : journal_typed (set_history_decision_required b j) ↔ journal_typed j.
Proof. by split; intros [? ? ?]; split. Qed.

Lemma validate_history b j :
  journal_validate (set_history_decision_required b j) = journal_validate j.
Proof. done. Qed.

(** The journal file round trips: what [encode] writes for a journal, under
    whichever schema it selects and with or without the history prefix, decodes
    to exactly that journal. *)
Theorem journal_decode_encode j text :
  journal_typed j → journal_encode j = Ok text → journal_decode text = Ok j.
Proof.
  intros Ht He. pose proof He as He'. unfold journal_encode in He.
  destruct (j_history_decision_required j) eqn:Hh; [| by eapply decode_step_plain].
  apply bind_ok_inv in He as (inner & Hi & He). apply then_ok in He as [Hl He].
  apply ret_ok_inv in He as Ein. apply fail_if_ok, N.ltb_ge in Hl. rewrite Ein in Hl.
  destruct (encode_for_schema_inv _ _ _ Hi) as (_ & _ & _ & Htext & _).
  change (journal_decode ?s) with (journal_decode_step (journal_decode_fuel 1) s).
  unfold journal_decode_step at 1. rewrite (proj2 (N.ltb_ge _ _) Hl).
  assert (ends_with_char nl text = true) as ->.
  { rewrite <- Ein. apply ends_with_char_append_r. rewrite Htext. apply kv_text_ends. }
  assert (strip_prefix HISTORY_JOURNAL_PREFIX text = Some inner) as ->
    by (rewrite <- Ein; apply strip_prefix_app).
  cbn [negb orb fail_if mbind result_bind].
  assert (starts_with NESTED_HISTORY inner = false) as -> by (rewrite Htext; apply text_prefix).
  cbn [fail_if].
  change (journal_decode_fuel 1 inner) with (journal_decode_step (journal_decode_fuel 0) inner).
  erewrite decode_step_plain; [| by apply typed_history | exact Hi]. cbn [mbind result_bind].
  replace (set_history_decision_required true (set_history_decision_required false j)) with j
    by (by destruct j; simpl in *; subst).
  rewrite He'. simpl. by rewrite String.eqb_refl.
Qed.

(** The decoder is the recursive function of the source: the nested call is
    only made on a text that cannot carry the prefix again, so two levels are
    enough on every input. *)
Theorem journal_decode_recursion input :
  journal_decode input = journal_decode_step journal_decode input.
Proof.
  change (journal_decode input) with (journal_decode_step (journal_decode_fuel 1) input).
  unfold journal_decode_step at 1 2.
  destruct (fail_if _ _) as [[] |]; [| done]. cbn [mbind result_bind].
  destruct (strip_prefix HISTORY_JOURNAL_PREFIX input) as [inner |]; [| done].
  destruct (starts_with NESTED_HISTORY inner) eqn:En; [done |].
  cbn [mbind result_bind fail_if]. apply nested_strip in En.
  unfold journal_decode. cbn [journal_decode_fuel]. unfold journal_decode_step at 1 2.
  by rewrite En.
Qed.

(** ** What a decoded journal is *)

Lemma parse_u32_max name s n : journal_parse_u32 name s = Ok n → is_u32 n.
Proof. unfold journal_parse_u32. intros H%ok_or_ok_inv. by eapply parse_uint_max. Qed.

Lemma parse_u64_max name s n : journal_parse_u64 name s = Ok n → is_u64 n.
Proof. unfold journal_parse_u64. intros H%ok_or_ok_inv. by eapply parse_uint_max. Qed.

Lemma read_identity_typed n1 n2 n3 a b c p :
  read_identity_fields n1 n2 n3 a b c = Ok p → identity_typed p.
Proof.
  unfold read_identity_fields. intros H. unbind. subst.
  split_and!; simpl; eauto using parse_u32_max, parse_u64_max.
Qed.

Lemma read_process_typed a b c o p :
  read_process a b c = Ok o → o = Some p → identity_typed p.
Proof.
  unfold read_process. intros H ->. repeat case_match; try done.
  unbind. simplify_eq. by eapply read_identity_typed.
Qed.

Lemma read_owner_typed schema ls o rest p :
  read_owner schema ls = (Ok o, rest) → o = Some p → identity_typed p.
Proof.
  unfold read_owner. intros H ->. case_match; unbind; simplify_eq.
  by eapply read_identity_typed.
Qed.

Lemma read_journal_typed schema ls j rest :
  read_journal schema ls = (Ok j, rest) → journal_typed j.
Proof.
  unfold read_journal. intros H. unbind. subst. split; simpl.
  - by eapply parse_u64_max.
  - intros p. by eapply read_process_typed.
  - intros p. by eapply read_owner_typed.
Qed.

Lemma schema_check_unique schema j :
  journal_schema_check schema j = Ok tt → journal_schema j = schema.
Proof.
  intros H. pose proof (schema_check_range _ _ H) as Hr. unfold journal_schema_check in H.
  repeat apply then_ok in H as [? H].
  repeat match goal with H : fail_if _ _ = _ |- _ => apply fail_if_ok in H end.
  unfold journal_schema. assert (schema = 2 ∨ schema = 3 ∨ schema = 4)%N as [-> | [-> | ->]] by lia;
    simpl in *; destruct (j_publication_boot_id j), (j_runtime_owner_process j); done.
Qed.

Lemma decode_record_inv input j :
  journal_decode_record input = Ok j →
  journal_typed j ∧ journal_validate j = Ok tt ∧ journal_encode j = Ok input
  ∧ j.(j_history_decision_required) = false.
Proof.
  unfold journal_decode_record. destruct (lines input) as [| header rest]; [done |].
  intros H. apply bind_ok_inv in H as (schema & _ & H). apply bind_ok_inv in H as (x & Hr & H).
  apply then_ok in H as [Hv H]. apply bind_ok_inv in H as (text & He & H).
  apply then_ok in H as [E H]. apply ret_ok_inv in H as ->.
  apply fail_if_ok, negb_false_iff, String.eqb_eq in E as ->.
  destruct (encode_for_schema_inv _ _ _ He) as (_ & Hh & Hc & _).
  destruct (read_journal schema rest) as [r ls] eqn:Er. simpl in Hr. subst r.
  split_and!; [by eapply read_journal_typed | done | | done].
  unfold journal_encode. by rewrite Hh, (schema_check_unique _ _ Hc).
Qed.

Lemma decode_step_inv rec input j :
  (∀ s x, rec s = Ok x → journal_typed x ∧ journal_validate x = Ok tt) →
  journal_decode_step rec input = Ok j →
  journal_typed j ∧ journal_validate j = Ok tt ∧ journal_encode j = Ok input.
Proof.
  intros Hrec H. unfold journal_decode_step in H. apply then_ok in H as [_ H].
  destruct (strip_prefix HISTORY_JOURNAL_PREFIX input) as [inner |];
    [| by apply decode_record_inv in H as (? & ? & ? & _)].
  apply then_ok in H as [_ H]. apply bind_ok_inv in H as (x & Hx & H).
  apply bind_ok_inv in H as (text & He & H). apply then_ok in H as [E H].
  apply ret_ok_inv in H as <-. apply fail_if_ok, negb_false_iff, String.eqb_eq in E as ->.
  destruct (Hrec _ _ Hx). by rewrite typed_history, validate_history.
Qed.

Lemma decode_fuel_inv fuel input j :
  journal_decode_fuel fuel input = Ok j →
  journal_typed j ∧ journal_validate j = Ok tt ∧ journal_encode j = Ok input.
Proof.
  revert input j. induction fuel as [| fuel IH]; intros input j H; [done |].
  eapply decode_step_inv; [| exact H]. intros s x Hx. by apply IH in Hx as (? & ? & _).
Qed.

(** C36: the decoder is well typed and canonical: whatever text it accepts, the
    journal it returns has every number inside its machine width, is valid, and
    is encoded as exactly the accepted text, so no two texts decode to the same
    journal and no text downgrades the schema. *)
Theorem journal_decode_canonical input j :
  journal_decode input = Ok j →
  journal_typed j ∧ journal_validate j = Ok tt ∧ journal_encode j = Ok input.
Proof. apply decode_fuel_inv. Qed.

(** ** Every valid journal has a record *)

Lemma extra_fields_count schema j : (length (journal_extra_fields schema j) ≤ 3)%nat.
Proof. unfold journal_extra_fields. repeat case_match; simpl; lia. Qed.

Lemma fields_count j : length (journal_fields j) = 20%nat.
Proof. unfold journal_fields. by destruct (process_texts (j_process j)) as [[? ?] ?]. Qed.

Lemma schema_check_ok j : journal_values j → journal_schema_check (journal_schema j) j = Ok tt.
Proof.
  intros [_ _ _ _ [Hp Ho]]. unfold journal_schema_check, journal_schema.
  destruct (j_publication_boot_id j), (j_publication_generation j); try done; simpl in *.
  - by rewrite (Ho eq_refl).
  - by destruct (j_runtime_owner_process j).
Qed.

Lemma encode_plain_total j :
  journal_typed j → journal_validate j = Ok tt → j.(j_history_decision_required) = false →
  ∃ text, journal_encode_for_schema (journal_schema j) j = Ok text ∧ (len text <= 2819)%N.
Proof.
  intros Ht Hv Hh. pose proof (validate_values j Hv) as Hw.
  pose proof (record_fields_ok (journal_schema j) j Ht Hw) as Hf.
  destruct (header_clean (journal_schema j)) as (_ & _ & Hl).
  pose proof (kv_text_len (journal_header (journal_schema j)) _ Hf) as Hn.
  rewrite length_app, fields_count in Hn.
  pose proof (extra_fields_count (journal_schema j) j) as Hx.
  unfold journal_encode_for_schema. rewrite Hv, Hh, schema_check_ok by done. cbn [mbind result_bind fail_if].
  set (text := kv_text _ _) in *. clearbody text.
  assert (len text <= 2819)%N by lia. exists text.
  rewrite (proj2 (N.ltb_ge _ _)); [done |]. unfold MAX_OPERATION_RECORD_BYTES. lia.
Qed.

(** Every valid journal whose numbers fit their fields has a record within the
    size bound, whatever its schema, and the history prefix never exceeds it. *)
Theorem journal_encode_total j :
  journal_typed j → journal_validate j = Ok tt → ∃ text, journal_encode j = Ok text.
Proof.
  intros Ht Hv. unfold journal_encode. destruct (j_history_decision_required j) eqn:Hh.
  - destruct (encode_plain_total (set_history_decision_required false j)) as (text & -> & Hl);
      [by apply typed_history | done | done |].
    cbn [mbind result_bind]. rewrite (proj2 (N.ltb_ge _ _)); [by eexists |].
    rewrite len_append. change (len HISTORY_JOURNAL_PREFIX) with 64%N.
    unfold MAX_OPERATION_RECORD_BYTES. lia.
  - destruct (encode_plain_total j Ht Hv Hh) as (text & -> & _). eauto.
Qed.

(** ** Witnesses *)

Definition sample_text : string :=
  match journal_encode (JournalSample.journal JournalSample.to_mutating) with
  | Ok text => text | Err _ => ""
  end.

Lemma sample_typed : journal_typed (JournalSample.journal JournalSample.to_mutating).
Proof.
  split; [by vm_compute | |]; intros p E; vm_compute in E; injection E as <-; by vm_compute.
Qed.

Lemma journal_decode_encode_witness :
  journal_decode sample_text = Ok (JournalSample.journal JournalSample.to_mutating).
Proof. apply journal_decode_encode; [apply sample_typed | by vm_compute]. Defined.

Lemma journal_decode_canonical_witness :
  journal_encode (JournalSample.journal JournalSample.to_mutating) = Ok sample_text.
Proof. apply journal_decode_canonical. by vm_compute. Defined.

Lemma journal_encode_total_witness :
  ∃ text, journal_encode (JournalSample.journal JournalSample.to_mutating) = Ok text.
Proof. apply journal_encode_total; [apply sample_typed | by vm_compute]. Defined.
