(* ===== verification/Lease.v ===== *)
(** * Runtime leases: who may touch what

    Models [operations/lease.rs]: the keys a job asks for, the table of owners
    and jobs, and its four operations. A [BTreeMap] is a finite map; the only
    order the code observes is that of the keys of a request, so a key set is a
    finite set whose [iter] visits the keys in the derived order. *)

From S2P Require Import Prelude RustStr SchedRecord PercentRecord Vocabulary RustNet CapturePolicy OperationRequest OperationRoundtrip JobJournal JournalLifecycle JournalContract.
From Stdlib Require Import Sorting.Sorted.
Local Open Scope string_scope.

Definition MAX_LEASE_KEYS_PER_JOB : nat := 5.

(** ** Keys *)

Inductive LeaseKey :=
| HeavyTraffic
| Instance (name : string)
| TargetInterface (name : string)
| SqmFingerprint (digest : string)
| ManagedSqmSection (name : string).

#[export] Instance LeaseKey_eq_dec : EqDecision LeaseKey.
Proof. solve_decision. Defined.

Definition lease_key_tag (k : LeaseKey) : nat * string :=
  match k with
  | HeavyTraffic => (0, "") | Instance s => (1, s) | TargetInterface s => (2, s)
  | SqmFingerprint s => (3, s) | ManagedSqmSection s => (4, s)
  end%nat.

Definition lease_key_untag (t : nat * string) : option LeaseKey :=
  match t with
  | (0, _) => Some HeavyTraffic | (1, s) => Some (Instance s)
  | (2, s) => Some (TargetInterface s) | (3, s) => Some (SqmFingerprint s)
  | (4, s) => Some (ManagedSqmSection s) | _ => None
  end%nat.

#[export] Instance LeaseKey_countable : Countable LeaseKey.
Proof.
  apply (inj_countable lease_key_tag lease_key_untag). by intros [].
Defined.

(** The derived [Ord]: the variant first, then the string. *)
Definition lease_key_ltb (a b : LeaseKey) : bool :=
  let '(i, s) := lease_key_tag a in
  let '(j, t) := lease_key_tag b in
  Nat.ltb i j || (Nat.eqb i j && str_ltb s t).

(** The keys of a set in order, as [BTreeSet::iter] yields them. *)
Fixpoint insert_key (k : LeaseKey) (keys : list LeaseKey) : list LeaseKey :=
  match keys with
  | [] => [k]
  | k' :: rest => if lease_key_ltb k k' then k :: keys else k' :: insert_key k rest
  end.

Definition iter_keys (keys : gset LeaseKey) : list LeaseKey :=
  foldr insert_key [] (elements keys).

(** ** Requests *)

Record LeaseRequest := { lr_job_id : string; lr_keys : gset LeaseKey }.

Inductive LeaseAcquireError :=
| JobAlreadyOwns (job_id : string)
| Conflict (key : LeaseKey) (owner_job_id : string).

#[export] Instance LeaseAcquireError_eq_dec : EqDecision LeaseAcquireError.
Proof. solve_decision. Defined.

#[export] Instance LeaseRequest_eq_dec : EqDecision LeaseRequest.
Proof. solve_decision. Defined.

Definition conflict_kind (e : LeaseAcquireError) : option string :=
  match e with
  | JobAlreadyOwns _ => None
  | Conflict HeavyTraffic _ => Some "heavy-traffic"
  | Conflict (Instance _) _ => Some "instance"
  | Conflict (TargetInterface _) _ => Some "target-interface"
  | Conflict (SqmFingerprint _) _ => Some "managed-sqm"
  | Conflict (ManagedSqmSection _) _ => Some "managed-sqm-section"
  end.

Definition lease_owner_job_id (e : LeaseAcquireError) : option string :=
  match e with Conflict _ owner => Some owner | JobAlreadyOwns _ => None end.

Definition user_message (e : LeaseAcquireError) : string :=
  match e with
  | JobAlreadyOwns _ => "this operation already owns runtime resources"
  | Conflict HeavyTraffic _ => "another traffic-intensive operation is already running"
  | Conflict (Instance _) _ => "another operation is already active for this instance"
  | Conflict (TargetInterface _) _ => "another operation is already using this target interface"
  | Conflict (SqmFingerprint _) _ | Conflict (ManagedSqmSection _) _ =>
      "another operation is already using this managed SQM runtime"
  end.

Definition managed_sqm_section_key (section : string) : Res LeaseKey :=
  validate_uci_section section ≫= λ _, mret (ManagedSqmSection section).

Definition local_from_operation (request : OperationRequest) : Res LeaseRequest :=
  request_validate request ≫= λ _,
  let keys : gset LeaseKey :=
    {[ Instance request.(identity).(instance) ]}
    ∪ {[ TargetInterface request.(identity).(target_interface) ]}
    ∪ {[ SqmFingerprint request.(identity).(sqm_fingerprint) ]} in
  keys ← (if bool_decide (request.(target_state) = AbsentBootstrap) then
            section ← ok_or request.(managed_sqm_section)
                        "absent bootstrap lease requires a planned managed SQM section";
            key ← managed_sqm_section_key section;
            mret ({[ key ]} ∪ keys)
          else mret keys);
  fail_if (MAX_LEASE_KEYS_PER_JOB <? size keys)%nat "operation requests too many runtime leases"
    ≫= λ _, mret {| lr_job_id := request.(identity).(job_id); lr_keys := keys |}.

Definition requires_heavy_traffic (operation : OperationKind) : bool :=
  match operation with FullAutotune | AutomaticRating | GuidedRating | Speedtest => true end.

Definition from_journalled_operation (request : OperationRequest) (heavy_lease_acquired : bool)
    : Res LeaseRequest :=
  lease ← local_from_operation request;
  if heavy_lease_acquired then
    fail_if (negb (requires_heavy_traffic request.(identity).(operation)))
      "journal claims a heavy lease for a light operation" ≫= λ _,
    mret {| lr_job_id := lease.(lr_job_id); lr_keys := {[ HeavyTraffic ]} ∪ lease.(lr_keys) |}
  else mret lease.

Definition heavy_for (job_id : string) : LeaseRequest :=
  {| lr_job_id := job_id; lr_keys := {[ HeavyTraffic ]} |}.

(** ** The table *)

Record LeaseTable := {
  owners : gmap LeaseKey string;
  jobs : gmap string (gset LeaseKey);
}.

#[export] Instance LeaseTable_eq_dec : EqDecision LeaseTable.
Proof. solve_decision. Defined.

Definition lease_default : LeaseTable := {| owners := ∅; jobs := ∅ |}.

Definition set_owners (v : gmap LeaseKey string) (t : LeaseTable) : LeaseTable :=
  {| owners := v; jobs := t.(jobs) |}.
Definition set_jobs (v : gmap string (gset LeaseKey)) (t : LeaseTable) : LeaseTable :=
  {| owners := t.(owners); jobs := v |}.

(** [keys.iter().find_map(|key| self.owners.get(key).map(|owner| (key, owner)))] *)
Fixpoint find_owned (o : gmap LeaseKey string) (keys : list LeaseKey) : option (LeaseKey * string) :=
  match keys with
  | [] => None
  | key :: keys => match o !! key with Some owner => Some (key, owner) | None => find_owned o keys end
  end.

(** [for key in keys { owners.insert(key, job_id) }] *)
Definition insert_owners (job_id : string) (keys : list LeaseKey) (o : gmap LeaseKey string)
    : gmap LeaseKey string :=
  foldl (λ o key, <[ key := job_id ]> o) o keys.

Definition acquire (request : LeaseRequest) : M LeaseTable LeaseAcquireError unit := λ t,
  if bool_decide (is_Some (t.(jobs) !! request.(lr_job_id)))
  then (Err (JobAlreadyOwns request.(lr_job_id)), t)
  else match find_owned t.(owners) (iter_keys request.(lr_keys)) with
       | Some (key, owner) => (Err (Conflict key owner), t)
       | None =>
           (Ok tt, {| owners := insert_owners request.(lr_job_id) (iter_keys request.(lr_keys))
                                  t.(owners);
                      jobs := <[ request.(lr_job_id) := request.(lr_keys) ]> t.(jobs) |})
       end.

(** The [Debug] text of a key, for the error only; the identifiers it holds need no escape. *)
Definition lease_key_debug (k : LeaseKey) : string :=
  let quoted (s : string) := "(" +:+ str1 (chr 34) +:+ s +:+ str1 (chr 34) +:+ ")" in
  match k with
  | HeavyTraffic => "HeavyTraffic" | Instance s => "Instance" +:+ quoted s
  | TargetInterface s => "TargetInterface" +:+ quoted s
  | SqmFingerprint s => "SqmFingerprint" +:+ quoted s
  | ManagedSqmSection s => "ManagedSqmSection" +:+ quoted s
  end.

Definition acquire_additional (request : LeaseRequest) : M LeaseTable string unit := λ t,
  match t.(jobs) !! request.(lr_job_id) with
  | None => (Err ("job " +:+ request.(lr_job_id) +:+ " owns no base leases"), t)
  | Some owned =>
      if bool_decide (request.(lr_keys) = ∅)
         || existsb (λ key, bool_decide (key ∈ owned)) (iter_keys request.(lr_keys))
      then (Err "additional lease request is empty or duplicates an owned key", t)
      else if (MAX_LEASE_KEYS_PER_JOB <? size owned + size request.(lr_keys))%nat
      then (Err "operation requests too many runtime leases", t)
      else match find_owned t.(owners) (iter_keys request.(lr_keys)) with
           | Some (key, owner) =>
               (Err ("runtime lease " +:+ lease_key_debug key +:+ " is already owned by job "
                     +:+ owner), t)
           | None =>
               (Ok tt, {| owners := insert_owners request.(lr_job_id)
                                      (iter_keys request.(lr_keys)) t.(owners);
                          jobs := <[ request.(lr_job_id) := owned ∪ request.(lr_keys) ]> t.(jobs) |})
           end
  end.

(** The loop of [release]: an inconsistent owner stops it after it was put back. *)
Fixpoint release_keys (job_id : string) (keys : list LeaseKey) (o : gmap LeaseKey string)
    : Res unit * gmap LeaseKey string :=
  match keys with
  | [] => (Ok tt, o)
  | key :: keys =>
      match o !! key with
      | Some owner =>
          if String.eqb owner job_id then release_keys job_id keys (delete key o)
          else (Err "runtime lease owner table is inconsistent", <[ key := owner ]> (delete key o))
      | None => (Err "runtime lease disappeared before release", o)
      end
  end.

Definition release (job_id : string) : M LeaseTable string unit := λ t,
  match t.(jobs) !! job_id with
  | None => (Err ("job " +:+ job_id +:+ " owns no runtime leases"), t)
  | Some keys =>
      let '(r, o) := release_keys job_id (iter_keys keys) t.(owners) in
      (r, {| owners := o; jobs := delete job_id t.(jobs) |})
  end.

Definition release_heavy (job_id : string) : M LeaseTable string unit := λ t,
  match t.(jobs) !! job_id with
  | None => (Err ("job " +:+ job_id +:+ " owns no runtime leases"), t)
  | Some keys =>
      if negb (bool_decide (HeavyTraffic ∈ keys))
         || negb (bool_decide (t.(owners) !! HeavyTraffic = Some job_id))
      then (Err ("job " +:+ job_id +:+ " does not own the heavy-traffic lease"), t)
      else if (size keys =? 1)%nat
      then (Err "heavy-traffic lease cannot be detached without local ownership", t)
      else (Ok tt, {| owners := delete HeavyTraffic t.(owners);
                      jobs := <[ job_id := keys ∖ {[ HeavyTraffic ]} ]> t.(jobs) |})
  end.

Definition job_count (t : LeaseTable) : nat := size t.(jobs).
Definition contains_job (job_id : string) (t : LeaseTable) : bool :=
  bool_decide (is_Some (t.(jobs) !! job_id)).

(** ** The order of the keys *)

Definition key_lt (a b : LeaseKey) : Prop := lease_key_ltb a b = true.

Lemma lease_key_ltb_trans a b c :
  lease_key_ltb a b = true → lease_key_ltb b c = true → lease_key_ltb a c = true.
Proof.
  unfold lease_key_ltb. destruct (lease_key_tag a) as [i s], (lease_key_tag b) as [j t],
    (lease_key_tag c) as [k u]. rewrite !orb_true_iff, !andb_true_iff, !Nat.ltb_lt, !Nat.eqb_eq.
  intros [? | [-> ?]] [? | [-> ?]]; try (left; lia). right. eauto using str_ltb_trans.
Qed.

Lemma lease_key_ltb_total a b : lease_key_ltb a b = false → a ≠ b → lease_key_ltb b a = true.
Proof.
  intros H Hn. unfold lease_key_ltb in *.
  assert (Ht : lease_key_tag a ≠ lease_key_tag b).
  { intros E. apply Hn. destruct a, b; simpl in E; congruence. }
  destruct (lease_key_tag a) as [i s], (lease_key_tag b) as [j t].
  rewrite orb_false_iff, andb_false_iff, Nat.ltb_ge, Nat.eqb_neq in H.
  rewrite orb_true_iff, andb_true_iff, Nat.ltb_lt, Nat.eqb_eq.
  destruct (decide (i = j)) as [-> | Hij]; [right | left; lia].
  destruct H as [_ [H | H]]; [done |]. split; [done |].
  apply str_ltb_total; [done |]. congruence.
Qed.

Lemma lease_key_ltb_irrefl a : lease_key_ltb a a = false.
Proof.
  unfold lease_key_ltb. destruct (lease_key_tag a) as [i s].
  by rewrite Nat.ltb_irrefl, str_ltb_irrefl, andb_false_r.
Qed.

Lemma insert_key_perm k keys : insert_key k keys ≡ₚ k :: keys.
Proof.
  induction keys as [| k' keys IH]; [done |]. cbn [insert_key].
  case_match; [done |]. rewrite IH. apply Permutation_swap.
Qed.

Lemma iter_keys_perm keys : iter_keys keys ≡ₚ elements keys.
Proof.
  unfold iter_keys. induction (elements keys) as [| k l IH]; [done |].
  cbn [foldr]. by rewrite insert_key_perm, IH.
Qed.

Lemma iter_keys_elem k keys : k ∈ iter_keys keys ↔ k ∈ keys.
Proof. by rewrite iter_keys_perm, elem_of_elements. Qed.

Lemma iter_keys_nodup keys : NoDup (iter_keys keys).
Proof. rewrite iter_keys_perm. apply NoDup_elements. Qed.

Lemma insert_key_sorted k keys :
  StronglySorted key_lt keys → k ∉ keys → StronglySorted key_lt (insert_key k keys).
Proof.
  induction 1 as [| k' keys Hs IH Hk]; intros Hn; cbn [insert_key]; [by repeat constructor |].
  rewrite not_elem_of_cons in Hn. destruct Hn as [Hn1 Hn2].
  destruct (lease_key_ltb k k') eqn:E.
  - constructor; [by constructor |]. constructor; [done |].
    eapply Forall_impl; [exact Hk |]. intros x Hx. by eapply lease_key_ltb_trans.
  - constructor; [by apply IH |]. rewrite insert_key_perm. constructor; [| done].
    by apply lease_key_ltb_total.
Qed.

Lemma iter_keys_sorted keys : StronglySorted key_lt (iter_keys keys).
Proof.
  unfold iter_keys. pose proof (NoDup_elements keys) as Hn.
  induction Hn as [| k l Hk Hn IH]; [constructor |]. cbn [foldr].
  apply insert_key_sorted; [done |].
  assert (P : foldr insert_key [] l ≡ₚ l).
  { clear. induction l as [| x l IH]; [done |]. cbn [foldr]. by rewrite insert_key_perm, IH. }
  by rewrite P.
Qed.

(** ** The loops *)

Lemma find_owned_None o keys : find_owned o keys = None ↔ ∀ k, k ∈ keys → o !! k = None.
Proof.
  induction keys as [| k keys IH]; simpl; [split; [by intros _ k ?%not_elem_of_nil | done] |].
  destruct (o !! k) as [w |] eqn:E.
  - split; [done |]. intros H. specialize (H k (list_elem_of_here _ _)). congruence.
  - rewrite IH. split.
    + intros H k' [-> | ?]%elem_of_cons; auto.
    + intros H k' ?. apply H. by right.
Qed.

Lemma find_owned_Some o keys k w :
  StronglySorted key_lt keys → find_owned o keys = Some (k, w) →
  k ∈ keys ∧ o !! k = Some w
  ∧ ∀ k', k' ∈ keys → is_Some (o !! k') → k' = k ∨ lease_key_ltb k k' = true.
Proof.
  induction 1 as [| x keys Hs IH Hx]; simpl; [done |].
  destruct (o !! x) as [v |] eqn:E.
  - intros [= -> ->]. split_and!; [by left | done |]. intros k' [-> | Hk]%elem_of_cons _; [by left |].
    right. rewrite Forall_forall in Hx. by apply Hx.
  - intros H. destruct (IH H) as (? & ? & Hl). split_and!; [by right | done |].
    intros k' [-> | Hk]%elem_of_cons [u Hu]; [congruence |]. eauto.
Qed.

Lemma insert_owners_lookup job keys o k :
  insert_owners job keys o !! k = if decide (k ∈ keys) then Some job else o !! k.
Proof.
  unfold insert_owners. revert o. induction keys as [| x keys IH]; intros o; cbn [foldl].
  - by rewrite decide_False by apply not_elem_of_nil.
  - rewrite IH. destruct (decide (k ∈ keys)).
    + by rewrite decide_True by (by right).
    + destruct (decide (x = k)) as [-> | Hn].
      * rewrite lookup_insert_eq, decide_True; [done | by left].
      * rewrite lookup_insert_ne by done. rewrite decide_False; [done |].
        intros [-> | ?]%elem_of_cons; done.
Qed.

Lemma release_keys_ok job keys o :
  NoDup keys → (∀ k, k ∈ keys → o !! k = Some job) →
  ∃ o', release_keys job keys o = (Ok tt, o')
    ∧ ∀ k, o' !! k = if decide (k ∈ keys) then None else o !! k.
Proof.
  intros Hn. revert o. induction Hn as [| x keys Hx Hn IH]; intros o Ho; cbn [release_keys].
  - exists o. split; [done |]. intros k. by rewrite decide_False by apply not_elem_of_nil.
  - rewrite (Ho x) by (by left). rewrite String.eqb_refl.
    destruct (IH (delete x o)) as (o' & E & Hl).
    { intros k Hk. rewrite lookup_delete_ne by (by intros ->). apply Ho. by right. }
    exists o'. split; [done |]. intros k. rewrite Hl. destruct (decide (k ∈ keys)).
    + by rewrite decide_True by (by right).
    + destruct (decide (x = k)) as [-> | Hxk].
      * rewrite lookup_delete_eq, decide_True; [done | by left].
      * rewrite lookup_delete_ne by done. rewrite decide_False; [done |].
        intros [-> | ?]%elem_of_cons; done.
Qed.

(** ** The invariant: the two maps describe one ownership relation *)

Definition consistent (t : LeaseTable) : Prop :=
  ∀ key job, t.(owners) !! key = Some job ↔ ∃ keys, t.(jobs) !! job = Some keys ∧ key ∈ keys.

Lemma consistent_default : consistent lease_default.
Proof.
  intros key job. simpl. rewrite lookup_empty. split; [done |]. intros (keys & H & _).
  by rewrite lookup_empty in H.
Qed.

(** Giving unowned keys to a job that already holds [held]. *)
Lemma consistent_grant t job held (keys : gset LeaseKey) :
  consistent t → default ∅ (t.(jobs) !! job) = held →
  (∀ k, k ∈ keys → t.(owners) !! k = None) →
  consistent {| owners := insert_owners job (iter_keys keys) t.(owners);
                jobs := <[ job := held ∪ keys ]> t.(jobs) |}.
Proof.
  intros Hc Hh Hf key j. simpl. rewrite insert_owners_lookup.
  setoid_rewrite lookup_insert. destruct (decide (job = j)) as [-> | Hj].
  - destruct (decide (key ∈ iter_keys keys)) as [Hk | Hk]; rewrite iter_keys_elem in Hk.
    + split; [| done]. intros _. eexists. split; [done | set_solver].
    + rewrite (Hc key j). split.
      * intros (ks & E & Hin). rewrite E in Hh. simpl in Hh. subst. eexists. split; [done | set_solver].
      * intros (ks & [= <-] & Hin). destruct (jobs t !! j) as [ks |] eqn:E; simpl in Hh; subst; set_solver.
  - destruct (decide (key ∈ iter_keys keys)) as [Hk | Hk]; rewrite iter_keys_elem in Hk; [| apply Hc].
    split; [congruence |]. intros H. apply Hc in H. by rewrite Hf in H.
Qed.

Lemma consistent_owned t job keys :
  consistent t → t.(jobs) !! job = Some keys → ∀ k, k ∈ iter_keys keys → t.(owners) !! k = Some job.
Proof. intros Hc H k Hk. rewrite iter_keys_elem in Hk. apply Hc. eauto. Qed.

Lemma release_consistent_ok t job keys :
  consistent t → t.(jobs) !! job = Some keys →
  ∃ o, release job t = (Ok tt, {| owners := o; jobs := delete job t.(jobs) |})
    ∧ ∀ k, o !! k = if decide (k ∈ keys) then None else t.(owners) !! k.
Proof.
  intros Hc E. unfold release. rewrite E.
  destruct (release_keys_ok job (iter_keys keys) t.(owners)) as (o & -> & Ho).
  - apply iter_keys_nodup.
  - by eapply consistent_owned.
  - exists o. split; [done |]. intros k. rewrite Ho.
    by destruct (decide (k ∈ iter_keys keys)) as [Hk | Hk], (decide (k ∈ keys)) as [Hk' | Hk'];
      rewrite iter_keys_elem in Hk.
Qed.

Lemma consistent_disjoint t j1 j2 k1 k2 :
  consistent t → t.(jobs) !! j1 = Some k1 → t.(jobs) !! j2 = Some k2 → j1 ≠ j2 → k1 ## k2.
Proof.
  intros Hc E1 E2 Hn k H1 H2.
  assert (owners t !! k = Some j1) by (apply Hc; eauto).
  assert (owners t !! k = Some j2) by (apply Hc; eauto). congruence.
Qed.

Lemma consistent_revoke t job keys o :
  consistent t → t.(jobs) !! job = Some keys →
  (∀ k, o !! k = if decide (k ∈ keys) then None else t.(owners) !! k) →
  consistent {| owners := o; jobs := delete job t.(jobs) |}.
Proof.
  intros Hc E Ho key j. simpl. rewrite Ho. destruct (decide (job = j)) as [-> | Hj].
  - rewrite lookup_delete_eq. split; [| by intros (? & ? & _)].
    case_decide as Hk; [done |]. intros (ks & E' & Hin)%Hc. congruence.
  - rewrite lookup_delete_ne by done. case_decide as Hk; [| apply Hc].
    split; [done |]. intros (ks & E' & Hin).
    destruct (consistent_disjoint t job j keys ks Hc E E' Hj key Hk Hin).
Qed.

Inductive LeaseOp :=
| LAcquire (request : LeaseRequest)
| LAcquireAdditional (request : LeaseRequest)
| LRelease (job_id : string)
| LReleaseHeavy (job_id : string).

(** The table after a call, whatever the call answered. *)
Definition lease_after (op : LeaseOp) (t : LeaseTable) : LeaseTable :=
  match op with
  | LAcquire r => (acquire r t).2
  | LAcquireAdditional r => (acquire_additional r t).2
  | LRelease job => (release job t).2
  | LReleaseHeavy job => (release_heavy job t).2
  end.

Definition lease_run (ops : list LeaseOp) : LeaseTable :=
  foldl (λ t op, lease_after op t) lease_default ops.

Lemma acquire_cases r t :
  (∃ e, acquire r t = (Err e, t))
  ∨ t.(jobs) !! r.(lr_job_id) = None ∧ (∀ k, k ∈ r.(lr_keys) → t.(owners) !! k = None)
    ∧ acquire r t = (Ok tt, {| owners := insert_owners r.(lr_job_id) (iter_keys r.(lr_keys)) t.(owners);
                               jobs := <[ r.(lr_job_id) := r.(lr_keys) ]> t.(jobs) |}).
Proof.
  unfold acquire. case_bool_decide as Hj; [eauto |]. apply eq_None_not_Some in Hj.
  destruct (find_owned t.(owners) (iter_keys r.(lr_keys))) as [[k w] |] eqn:E; [eauto |].
  right. split_and!; [done | | done]. rewrite find_owned_None in E.
  intros k Hk. apply E. by rewrite iter_keys_elem.
Qed.

Lemma additional_cases r t :
  (∃ e, acquire_additional r t = (Err e, t))
  ∨ ∃ owned, t.(jobs) !! r.(lr_job_id) = Some owned
    ∧ (∀ k, k ∈ r.(lr_keys) → t.(owners) !! k = None)
    ∧ (size owned + size r.(lr_keys) ≤ MAX_LEASE_KEYS_PER_JOB)%nat
    ∧ acquire_additional r t
      = (Ok tt, {| owners := insert_owners r.(lr_job_id) (iter_keys r.(lr_keys)) t.(owners);
                   jobs := <[ r.(lr_job_id) := owned ∪ r.(lr_keys) ]> t.(jobs) |}).
Proof.
  unfold acquire_additional. destruct (jobs t !! lr_job_id r) as [owned |] eqn:Ej; [| eauto].
  case_match; [eauto |]. case_match eqn:Em; [eauto |].
  destruct (find_owned t.(owners) (iter_keys r.(lr_keys))) as [[k w] |] eqn:E; [eauto |].
  right. exists owned. split_and!; [done | | by apply Nat.ltb_ge | done].
  rewrite find_owned_None in E. intros k Hk. apply E. by rewrite iter_keys_elem.
Qed.

Lemma heavy_cases job t :
  (∃ e, release_heavy job t = (Err e, t))
  ∨ ∃ keys, t.(jobs) !! job = Some keys ∧ HeavyTraffic ∈ keys ∧ size keys ≠ 1%nat
    ∧ release_heavy job t
      = (Ok tt, {| owners := delete HeavyTraffic t.(owners);
                   jobs := <[ job := keys ∖ {[ HeavyTraffic ]} ]> t.(jobs) |}).
Proof.
  unfold release_heavy. destruct (jobs t !! job) as [keys |] eqn:E; [| eauto].
  case_match eqn:E1; [eauto |]. case_match eqn:E2; [eauto |].
  right. exists keys. apply orb_false_iff in E1 as [E1 _].
  apply negb_false_iff, bool_decide_eq_true in E1. apply Nat.eqb_neq in E2. done.
Qed.

Lemma consistent_heavy t job keys :
  consistent t → t.(jobs) !! job = Some keys → HeavyTraffic ∈ keys →
  consistent {| owners := delete HeavyTraffic t.(owners);
                jobs := <[ job := keys ∖ {[ HeavyTraffic ]} ]> t.(jobs) |}.
Proof.
  intros Hc E Hk key j. simpl. destruct (decide (HeavyTraffic = key)) as [<- | Hn].
  - rewrite lookup_delete_eq. split; [done |]. intros (ks & E' & Hin). exfalso.
    rewrite lookup_insert in E'. case_decide as Hj; [simplify_eq; set_solver |].
    by apply (consistent_disjoint t job j keys ks Hc E E' Hj HeavyTraffic).
  - rewrite lookup_delete_ne by done. rewrite (Hc key j). setoid_rewrite lookup_insert.
    case_decide as Hj; [subst |]; [| done]. rewrite E. split; intros (ks & [= <-] & Hin);
      eexists; (split; [done | set_solver]).
Qed.

Lemma consistent_after op t : consistent t → consistent (lease_after op t).
Proof.
  intros Hc. destruct op as [r | r | job | job]; simpl.
  - destruct (acquire_cases r t) as [[e ->] | (E & Hf & ->)]; [done |]. simpl.
    pose proof (consistent_grant t r.(lr_job_id) ∅ r.(lr_keys) Hc) as H.
    rewrite E in H. rewrite (left_id_L ∅ (∪)) in H. by apply H.
  - destruct (additional_cases r t) as [[e ->] | (owned & E & Hf & _ & ->)]; [done |]. simpl.
    apply consistent_grant; [done | by rewrite E | done].
  - destruct (jobs t !! job) as [keys |] eqn:E; [| unfold release; by rewrite E].
    destruct (release_consistent_ok t job keys Hc E) as (o & -> & Ho). simpl.
    by eapply consistent_revoke.
  - destruct (heavy_cases job t) as [[e ->] | (keys & E & Hk & _ & ->)]; [done |]. simpl.
    by apply consistent_heavy.
Qed.

Lemma lease_run_consistent ops : consistent (lease_run ops).
Proof.
  unfold lease_run. assert (H : ∀ t, consistent t → consistent (foldl (λ t op, lease_after op t) t ops)).
  { induction ops as [| op ops IH]; intros t Ht; cbn [foldl]; [done |].
    by apply IH, consistent_after. }
  apply H, consistent_default.
Qed.

(** ** What the table promises *)

(** C35: mutual exclusion: after any sequence of calls, successful or not, no key is
    held by two jobs, and the owner map says exactly which job holds which key. *)
Theorem lease_mutual_exclusion ops j1 j2 k1 k2 :
  let t := lease_run ops in
  t.(jobs) !! j1 = Some k1 → t.(jobs) !! j2 = Some k2 → j1 ≠ j2 →
  k1 ## k2 ∧ ∀ key, key ∈ k1 → t.(owners) !! key = Some j1.
Proof.
  intros t E1 E2 Hn. pose proof (lease_run_consistent ops) as Hc. split.
  - by eapply consistent_disjoint.
  - intros key Hk. apply Hc. eauto.
Qed.

(** What the code's answer to an [acquire] must be. *)
Definition acquire_answer (r : LeaseRequest) (t : LeaseTable) (a : result LeaseAcquireError unit)
    : Prop :=
  match a with
  | Ok _ => t.(jobs) !! r.(lr_job_id) = None ∧ ∀ k, k ∈ r.(lr_keys) → t.(owners) !! k = None
  | Err (JobAlreadyOwns job) => job = r.(lr_job_id) ∧ is_Some (t.(jobs) !! job)
  | Err (Conflict k w) => t.(jobs) !! r.(lr_job_id) = None ∧ w ≠ r.(lr_job_id)
      ∧ k ∈ r.(lr_keys) ∧ t.(owners) !! k = Some w
      ∧ ∀ k', k' ∈ r.(lr_keys) → is_Some (t.(owners) !! k') → k' = k ∨ key_lt k k'
  end.

(** An acquisition is all or nothing and its answer is exact: it succeeds
    precisely when the job holds nothing and every key is free, and then the job
    holds precisely the requested keys and no other owner changed; otherwise the
    table is untouched and the error names the least requested key that is taken,
    with the other job that holds it. *)
Theorem acquire_exact ops r :
  let t := lease_run ops in
  let '(a, t') := acquire r t in
  acquire_answer r t a
  ∧ match a with
    | Err _ => t' = t
    | Ok _ => t'.(jobs) = <[ r.(lr_job_id) := r.(lr_keys) ]> t.(jobs)
        ∧ ∀ k, t'.(owners) !! k
               = if decide (k ∈ r.(lr_keys)) then Some r.(lr_job_id) else t.(owners) !! k
    end.
Proof.
  intros t. pose proof (lease_run_consistent ops) as Hc. unfold acquire.
  case_bool_decide as Hj; [done |]. apply eq_None_not_Some in Hj.
  destruct (find_owned t.(owners) (iter_keys r.(lr_keys))) as [[k w] |] eqn:E.
  - apply find_owned_Some in E as (Hk & Ho & Hl); [| apply iter_keys_sorted].
    rewrite iter_keys_elem in Hk. split; [| done]. simpl. split_and!; try done.
    + intros ->. apply Hc in Ho as (ks & E & _). unfold t in Hj. congruence.
    + intros k' Hk'. apply Hl. by rewrite iter_keys_elem.
  - rewrite find_owned_None in E. simpl. split_and!; [done | | done |].
    + intros k Hk. apply E. by rewrite iter_keys_elem.
    + intros k. rewrite insert_owners_lookup.
      by destruct (decide (k ∈ iter_keys r.(lr_keys))) as [Hk | Hk],
        (decide (k ∈ r.(lr_keys))) as [Hk' | Hk']; rewrite iter_keys_elem in Hk.
Qed.

Lemma LeaseTable_eq t t' : t.(owners) = t'.(owners) → t.(jobs) = t'.(jobs) → t = t'.
Proof. destruct t, t'. simpl. by intros -> ->. Qed.

(** Acquiring and releasing are inverse: a job that acquired its keys can
    release them, the release cannot fail, and it restores the table exactly. *)
Theorem acquire_release ops r t' :
  acquire r (lease_run ops) = (Ok tt, t') → release r.(lr_job_id) t' = (Ok tt, lease_run ops).
Proof.
  intros H. pose proof (lease_run_consistent ops) as Hc.
  pose proof (consistent_after (LAcquire r) _ Hc) as Hc'. simpl in Hc'.
  destruct (acquire_cases r (lease_run ops)) as [[e E] | (Ej & Hf & E)]; [congruence |].
  rewrite E in H. injection H as <-. rewrite E in Hc'. simpl in Hc'.
  destruct (release_consistent_ok _ r.(lr_job_id) r.(lr_keys) Hc') as (o & -> & Ho);
    [apply lookup_insert_eq |].
  f_equal. apply LeaseTable_eq; simpl.
  - apply map_eq. intros k. rewrite Ho. simpl. rewrite insert_owners_lookup.
    destruct (decide (k ∈ r.(lr_keys))) as [Hk | Hk]; [symmetry; auto |].
    rewrite decide_False; [done |]. by rewrite iter_keys_elem.
  - by rewrite delete_insert_id.
Qed.

(** A release never fails for a job the table knows, and frees exactly its keys. *)
Theorem release_total ops job keys :
  let t := lease_run ops in
  t.(jobs) !! job = Some keys →
  ∃ t', release job t = (Ok tt, t') ∧ t'.(jobs) = delete job t.(jobs)
    ∧ ∀ k, t'.(owners) !! k = if decide (k ∈ keys) then None else t.(owners) !! k.
Proof.
  intros t E. destruct (release_consistent_ok t job keys) as (o & -> & Ho); [| done |].
  - apply lease_run_consistent.
  - eexists. split; [done |]. by split.
Qed.

(** The heavy-traffic lease can be handed over while the first job keeps its
    local locks: after a successful [release_heavy], any other job with room for
    one more key obtains the heavy lease at once. *)
Theorem heavy_handover ops j1 j2 k2 t1 :
  let t := lease_run ops in
  release_heavy j1 t = (Ok tt, t1) → j1 ≠ j2 → t.(jobs) !! j2 = Some k2 →
  (size k2 < MAX_LEASE_KEYS_PER_JOB)%nat →
  ∃ t2, acquire_additional (heavy_for j2) t1 = (Ok tt, t2)
    ∧ t2.(owners) !! HeavyTraffic = Some j2
    ∧ ∀ k, k ≠ HeavyTraffic → t2.(owners) !! k = t.(owners) !! k.
Proof.
  intros t H Hn E2 Hs. pose proof (lease_run_consistent ops) as Hc.
  destruct (heavy_cases j1 t) as [[e E] | (k1 & E1 & Hk & _ & E)]; [congruence |].
  rewrite E in H. injection H as <-. unfold acquire_additional, heavy_for.
  cbn [lr_job_id lr_keys owners jobs]. rewrite lookup_insert_ne, E2 by done.
  assert (Hiter : iter_keys {[HeavyTraffic]} = [HeavyTraffic])
    by (unfold iter_keys; by rewrite elements_singleton).
  assert (HeavyTraffic ∉ k2).
  { intros Hin. by apply (consistent_disjoint t j1 j2 k1 k2 Hc E1 E2 Hn HeavyTraffic). }
  rewrite Hiter. cbn [existsb find_owned]. rewrite size_singleton, lookup_delete_eq.
  rewrite bool_decide_eq_false_2 by set_solver. rewrite bool_decide_eq_false_2 by done.
  rewrite (proj2 (Nat.ltb_ge _ _)) by lia.
  eexists. split; [done |]. cbn. split; [apply lookup_insert_eq |].
  intros k Hk'. by rewrite lookup_insert_ne, lookup_delete_ne by done.
Qed.

Lemma local_keys request l :
  local_from_operation request = Ok l →
  l.(lr_job_id) = request.(identity).(job_id)
  ∧ Instance request.(identity).(instance) ∈ l.(lr_keys)
  ∧ TargetInterface request.(identity).(target_interface) ∈ l.(lr_keys)
  ∧ SqmFingerprint request.(identity).(sqm_fingerprint) ∈ l.(lr_keys).
Proof.
  unfold local_from_operation. intros H. unbind. subst. simpl.
  assert (Hk : {[Instance (instance (identity request))]}
    ∪ {[TargetInterface (target_interface (identity request))]}
    ∪ {[SqmFingerprint (sqm_fingerprint (identity request))]} ⊆ a0).
  { case_bool_decide; unbind; subst; set_solver. }
  split_and!; set_solver.
Qed.

Lemma journalled_keys request heavy l :
  from_journalled_operation request heavy = Ok l →
  ∃ b, local_from_operation request = Ok b ∧ l.(lr_job_id) = b.(lr_job_id)
    ∧ b.(lr_keys) ⊆ l.(lr_keys) ∧ (heavy = true → HeavyTraffic ∈ l.(lr_keys)).
Proof.
  unfold from_journalled_operation. intros H. unbind. exists a. split; [done |].
  destruct heavy; unbind; subst; simpl; set_solver.
Qed.

(** Two operations that meet in one resource. *)
Definition same_target (r1 r2 : OperationRequest) : Prop :=
  r1.(identity).(instance) = r2.(identity).(instance)
  ∨ r1.(identity).(target_interface) = r2.(identity).(target_interface)
  ∨ r1.(identity).(sqm_fingerprint) = r2.(identity).(sqm_fingerprint).

(** Two jobs never work on one target: while a job holds the leases its
    request asks for, a second job whose request names the same instance, the same
    target interface or the same managed SQM runtime is refused with a conflict,
    and so is a second heavy one when the first journalled the heavy lease. *)
Theorem same_target_excluded ops r1 r2 h1 h2 l1 l2 keys :
  let t := lease_run ops in
  from_journalled_operation r1 h1 = Ok l1 → from_journalled_operation r2 h2 = Ok l2 →
  same_target r1 r2 ∨ h1 = true ∧ h2 = true →
  l1.(lr_job_id) ≠ l2.(lr_job_id) → t.(jobs) !! l1.(lr_job_id) = Some keys →
  l1.(lr_keys) ⊆ keys → t.(jobs) !! l2.(lr_job_id) = None →
  ∃ key owner, acquire l2 t = (Err (Conflict key owner), t) ∧ key ∈ l2.(lr_keys).
Proof.
  intros t H1 H2 Hs Hn E1 Hk E2. pose proof (lease_run_consistent ops) as Hc.
  apply journalled_keys in H1 as (b1 & L1 & _ & S1 & T1).
  apply journalled_keys in H2 as (b2 & L2 & _ & S2 & T2).
  apply local_keys in L1 as (_ & I1 & F1 & Q1). apply local_keys in L2 as (_ & I2 & F2 & Q2).
  assert (Hx : ∃ key, key ∈ keys ∧ key ∈ l2.(lr_keys)).
  { destruct Hs as [[E | [E | E]] | [E E']].
    - exists (Instance r1.(identity).(instance)). rewrite E in *. set_solver.
    - exists (TargetInterface r1.(identity).(target_interface)). rewrite E in *. set_solver.
    - exists (SqmFingerprint r1.(identity).(sqm_fingerprint)). rewrite E in *. set_solver.
    - exists HeavyTraffic. split; [apply Hk |]; auto. }
  destruct Hx as (key & K1 & K2). assert (Ho : owners t !! key = Some (lr_job_id l1)) by (apply Hc; eauto).
  unfold acquire. rewrite bool_decide_eq_false_2 by (rewrite E2; by intros [? ?]).
  destruct (find_owned t.(owners) (iter_keys l2.(lr_keys))) as [[k w] |] eqn:E.
  - apply find_owned_Some in E as (Hk' & _); [| apply iter_keys_sorted].
    rewrite iter_keys_elem in Hk'. eauto.
  - rewrite find_owned_None in E. specialize (E key). rewrite iter_keys_elem in E.
    rewrite Ho in E. by specialize (E K2).
Qed.

(** ** Concrete tables *)

Module LeaseSample.
Definition second : OperationRequest := {|
  identity := {| job_id := RequestSample.repeat_char 32 "c";
    job_token := RequestSample.repeat_char 64 "b"; instance := "lan"; operation := FullAutotune;
    target_interface := "eth0.2"; route_fingerprint := RequestSample.repeat_char 64 "1";
    config_fingerprint := RequestSample.repeat_char 64 "2";
    sqm_fingerprint := RequestSample.repeat_char 64 "9" |};
  created_unix_ms := 1700000000000; deadline_unix_ms := 1700000900000;
  origin := Luci; backend := "speedtest-go"; speedtest_direction := None;
  speedtest_server_id := Some 42%N; speedtest_topology := None;
  route := RequestSample.explicit_route; target_state := AbsentBootstrap;
  capture_policy := Some StandardV2; managed_sqm_section := Some "lan_sqm";
  profile := Some Gaming; strategy := Some FullRaw; access_medium := Some Cellular;
  access_source := Some UserSelected; access_confidence_percent := 90;
  capacity_learning_policy := Some PassiveBounded; service_dl_cap_kbps := Some 100000%N;
  service_ul_cap_kbps := Some 20000%N; allow_sqm_disable := true; allow_active_traffic := false;
  scheduled_auto_apply_requested := false; traffic_budget := Unlimited;
  traffic_policy_explicit := true;
  traffic_plan := Some {| download_kbps := 90000; upload_kbps := 18000 |};
  server_failure_retries := Some 3%N |}.

Definition lease_of (r : OperationRequest) (heavy : bool) : LeaseRequest :=
  match from_journalled_operation r heavy with Ok l => l | Err _ => heavy_for "" end.
Definition a : LeaseRequest := lease_of RequestSample.request true.
Definition b : LeaseRequest := lease_of second false.
Definition other : LeaseRequest := {| lr_job_id := "other"; lr_keys := {[ Instance "third" ]} |}.
Definition ops : list LeaseOp := [LAcquire a; LAcquire other].
End LeaseSample.

Lemma lease_mutual_exclusion_witness :
  LeaseSample.a.(lr_keys) ## LeaseSample.other.(lr_keys).
Proof.
  refine (proj1 (lease_mutual_exclusion LeaseSample.ops LeaseSample.a.(lr_job_id) "other"
    LeaseSample.a.(lr_keys) LeaseSample.other.(lr_keys) _ _ _)); vm_decide.
Defined.

Lemma acquire_release_witness :
  release LeaseSample.a.(lr_job_id) (lease_run [LAcquire LeaseSample.a]) = (Ok tt, lease_default).
Proof. apply (acquire_release [] LeaseSample.a). vm_decide. Defined.

Lemma release_total_witness :
  ∃ t', release "other" (lease_run LeaseSample.ops) = (Ok tt, t')
    ∧ t'.(jobs) = delete "other" (lease_run LeaseSample.ops).(jobs)
    ∧ ∀ k, t'.(owners) !! k = if decide (k ∈ ({[ Instance "third" ]} : gset LeaseKey)) then None
                              else (lease_run LeaseSample.ops).(owners) !! k.
Proof. apply (release_total LeaseSample.ops "other"). vm_decide. Defined.

Lemma heavy_handover_witness :
  ∃ t2, acquire_additional (heavy_for "other")
          (lease_after (LReleaseHeavy LeaseSample.a.(lr_job_id)) (lease_run LeaseSample.ops))
        = (Ok tt, t2)
    ∧ t2.(owners) !! HeavyTraffic = Some "other"
    ∧ ∀ k, k ≠ HeavyTraffic → t2.(owners) !! k = (lease_run LeaseSample.ops).(owners) !! k.
Proof.
  apply (heavy_handover LeaseSample.ops LeaseSample.a.(lr_job_id) "other" {[ Instance "third" ]});
    [| | | vm_compute; lia]; vm_decide.
Defined.

Lemma same_target_excluded_witness :
  ∃ key owner, acquire LeaseSample.b (lease_run LeaseSample.ops)
    = (Err (Conflict key owner), lease_run LeaseSample.ops) ∧ key ∈ LeaseSample.b.(lr_keys).
Proof.
  pose proof (same_target_excluded LeaseSample.ops RequestSample.request LeaseSample.second
    true false LeaseSample.a LeaseSample.b LeaseSample.a.(lr_keys)) as H.
  apply H; clear H; vm_decide.
Defined.
