(* ===== verification/RuntimeControl.v ===== *)
(** * Controls and acknowledgements of a runtime override

    Models [MeasurementTopology], [AutotuneRuntimeControl], [RuntimeAckState] and
    [AutotuneRuntimeAck] of [operations/full_autotune.rs], with [EvidenceReader]
    and the field helpers both codecs use. The worker of a calibration publishes
    a control; the instance answers with acknowledgements. *)

From S2P Require Import Prelude RateLimits RustStr SchedRecord PercentRecord LineRecord Vocabulary RustNet CapturePolicy OperationRequest JobJournal.
Local Open Scope string_scope.

(** [257 + (6 * 3 - 3) * 3] *)
Definition MAX_AUTOTUNE_EVIDENCE_RECORDS : N := 257 + (6 * 3 - 3) * 3.
Definition MAX_AUTOTUNE_EVIDENCE_BYTES : N := 4 * 1024.

(** ** [MeasurementTopology] *)

Inductive MeasurementTopology :=
  | ShapedBoth | RawBoth | RawDownload | RawUpload | DownloadOnlyShaped | UploadOnlyShaped.

#[export] Instance MeasurementTopology_eq_dec : EqDecision MeasurementTopology.
Proof. solve_decision. Defined.

Definition MeasurementTopology_as_str (value : MeasurementTopology) : string :=
  match value with
  | ShapedBoth => "both_shaped"
  | RawBoth => "no_sqm"
  | RawDownload => "download_unshaped"
  | RawUpload => "upload_unshaped"
  | DownloadOnlyShaped => "download_only_shaped"
  | UploadOnlyShaped => "upload_only_shaped"
  end.

Definition MeasurementTopology_parse : string → option MeasurementTopology := match_str [
  ("both_shaped", ShapedBoth);
  ("no_sqm", RawBoth);
  ("download_unshaped", RawDownload);
  ("upload_unshaped", RawUpload);
  ("download_only_shaped", DownloadOnlyShaped);
  ("upload_only_shaped", UploadOnlyShaped)].

#[export, refine] Instance MeasurementTopology_wire : WireName MeasurementTopology :=
  {| wire_str := MeasurementTopology_as_str; wire_parse := MeasurementTopology_parse |}.
Proof. all: by intros []. Defined.

Definition download_is_shaped (t : MeasurementTopology) : bool :=
  match t with
  | ShapedBoth | RawUpload | DownloadOnlyShaped => true
  | RawBoth | RawDownload | UploadOnlyShaped => false
  end.

Definition upload_is_shaped (t : MeasurementTopology) : bool :=
  match t with
  | ShapedBoth | RawDownload | UploadOnlyShaped => true
  | RawBoth | RawUpload | DownloadOnlyShaped => false
  end.

Definition is_managed_baseline (t : MeasurementTopology) : bool :=
  match t with ShapedBoth | DownloadOnlyShaped | UploadOnlyShaped => true | _ => false end.

(** ** Field validators *)

Definition evidence_hex (name value : string) (length : N) : Res unit :=
  fail_if (negb (len value =? length)%N || negb (all_bytes is_lower_hex value))
    (name +:+ " must be exactly " +:+ show length +:+ " lowercase hexadecimal characters").

Definition control_interface (value : string) : Res unit :=
  fail_if (String.eqb value "" || (64 <? len value)%N
           || negb (all_bytes (λ c, is_ascii_alphanumeric c || contains c "._:@-") value))
    "runtime control target interface is invalid".

Definition require_code (value : string) : Res unit :=
  fail_if (String.eqb value "" || (96 <? len value)%N
           || negb (all_bytes (λ c, is_ascii_alphanumeric c || contains c "_-") value))
    "runtime ack diagnostic code is invalid".

Definition rate_supported (rate : N) : bool := (100 <=? rate)%N && (rate <=? MAX_RATE_KBPS)%N.

Definition validate_optional_rate (name : string) (value : option N) : Res unit :=
  fail_if (is_some_and (λ rate, negb (rate_supported rate)) value)
    ("runtime control " +:+ name +:+ " rate is outside the supported range").

Definition validate_topology_rates (topology : MeasurementTopology)
    (download_kbps upload_kbps : option N) : Res unit :=
  validate_optional_rate "download" download_kbps ≫= λ _,
  validate_optional_rate "upload" upload_kbps ≫= λ _,
  fail_if (negb (Bool.eqb (download_is_shaped topology) (is_some download_kbps))
           || negb (Bool.eqb (upload_is_shaped topology) (is_some upload_kbps)))
    "runtime control rates contradict the requested SQM topology".

(** ** [AutotuneRuntimeControl] *)

Record AutotuneRuntimeControl := {
  rc_permit_id : string;
  rc_job_id : string;
  rc_worker_run_id : string;
  rc_boot_id : string;
  rc_coordinator_generation : string;
  rc_worker : ProcessIdentity;
  rc_sequence : N;
  rc_deadline_boot_ms : N;
  rc_target_interface : string;
  rc_route_fingerprint : string;
  rc_sqm_fingerprint : string;
  rc_topology : MeasurementTopology;
  rc_download_kbps : option N;
  rc_upload_kbps : option N;
}.

#[export] Instance AutotuneRuntimeControl_eq_dec : EqDecision AutotuneRuntimeControl.
Proof. solve_decision. Defined.

Definition runtime_control_validate (c : AutotuneRuntimeControl) : Res unit :=
  evidence_hex "runtime control permit id" c.(rc_permit_id) 32 ≫= λ _,
  evidence_hex "runtime control job id" c.(rc_job_id) 32 ≫= λ _,
  evidence_hex "runtime control worker run id" c.(rc_worker_run_id) 32 ≫= λ _,
  evidence_hex "runtime control boot id" c.(rc_boot_id) 32 ≫= λ _,
  evidence_hex "runtime control coordinator generation" c.(rc_coordinator_generation) 32 ≫= λ _,
  evidence_hex "runtime control route fingerprint" c.(rc_route_fingerprint) 64 ≫= λ _,
  evidence_hex "runtime control SQM fingerprint" c.(rc_sqm_fingerprint) 64 ≫= λ _,
  fail_if (process_zero c.(rc_worker)) "runtime control worker identity is incomplete" ≫= λ _,
  fail_if ((c.(rc_sequence) =? 0)%N || (MAX_AUTOTUNE_EVIDENCE_RECORDS <? c.(rc_sequence))%N)
    "runtime control sequence is outside its bound" ≫= λ _,
  fail_if (c.(rc_deadline_boot_ms) =? 0)%N "runtime control monotonic deadline is missing" ≫= λ _,
  control_interface c.(rc_target_interface) ≫= λ _,
  validate_topology_rates c.(rc_topology) c.(rc_download_kbps) c.(rc_upload_kbps).

Definition optional_number (value : option N) : string :=
  match value with Some value => show value | None => "" end.

Definition RUNTIME_CONTROL_HEADER : string :=
  "cake-autorate-autotune-runtime-control" +:+ str1 tab +:+ "1".
Definition RUNTIME_ACK_HEADER : string :=
  "cake-autorate-autotune-runtime-ack" +:+ str1 tab +:+ "1".

Definition runtime_control_fields (c : AutotuneRuntimeControl) : list (string * string) :=
  [("permit_id", c.(rc_permit_id)); ("job_id", c.(rc_job_id));
   ("worker_run_id", c.(rc_worker_run_id)); ("boot_id", c.(rc_boot_id));
   ("coordinator_generation", c.(rc_coordinator_generation));
   ("worker_pid", show c.(rc_worker).(pid));
   ("worker_process_group", show c.(rc_worker).(process_group));
   ("worker_starttime_ticks", show c.(rc_worker).(starttime_ticks));
   ("sequence", show c.(rc_sequence)); ("deadline_boot_ms", show c.(rc_deadline_boot_ms));
   ("target_interface", c.(rc_target_interface));
   ("route_fingerprint", c.(rc_route_fingerprint));
   ("sqm_fingerprint", c.(rc_sqm_fingerprint));
   ("topology", MeasurementTopology_as_str c.(rc_topology));
   ("download_kbps", optional_number c.(rc_download_kbps));
   ("upload_kbps", optional_number c.(rc_upload_kbps))].

(** ** [EvidenceReader]: the state is what is left of the [lines] iterator *)

Abbreviation EvidenceReader := (M (list string) string).

Definition evidence_new (input header : string) : Res (list string) :=
  match lines input with
  | first :: rest =>
      if String.eqb first header then Ok rest
      else Err "native Auto-Tune evidence header is invalid"
  | [] => Err "native Auto-Tune evidence header is invalid"
  end.

Definition evidence_field (expected : string) : EvidenceReader string := λ record,
  match record with
  | [] => (Err ("native Auto-Tune evidence field " +:+ expected +:+ " is missing"), [])
  | line :: rest =>
      (match split_once "=" line with
       | None => Err ("native Auto-Tune evidence field " +:+ expected +:+ " is malformed")
       | Some (name, value) =>
           fail_if (negb (String.eqb name expected))
             ("native Auto-Tune evidence expected field " +:+ expected +:+ ", found " +:+ name)
             ≫= λ _, mret value
       end, rest)
  end.

Definition evidence_finish : EvidenceReader unit := λ record,
  match record with
  | [] => (Ok tt, [])
  | _ :: rest => (Err "native Auto-Tune evidence has unknown trailing fields", rest)
  end.

Definition evidence_u64 (name value : string) : Res N :=
  fail_if (String.eqb value "" || ((1 <? len value)%N && starts_with "0" value))
    ("native Auto-Tune evidence " +:+ name +:+ " is not canonical") ≫= λ _,
  ok_or (str_parse_u64 value) ("native Auto-Tune evidence " +:+ name +:+ " is invalid").

Definition evidence_optional_u64 (name value : string) : Res (option N) :=
  if String.eqb value "" then mret None else n ← evidence_u64 name value; mret (Some n).

(** [parse_narrow] at [u32] *)
Definition parse_narrow_u32 (name value : string) : Res N :=
  n ← evidence_u64 name value;
  fail_if (u32_max <? n)%N ("native Auto-Tune evidence " +:+ name +:+ " is too large") ≫= λ _,
  mret n.

Definition evidence_optional_parsed {T} (value : string) (parser : string → option T)
    : Res (option T) :=
  if String.eqb value "" then mret None
  else t ← ok_or (parser value) "native Auto-Tune evidence enum value is unsupported";
       mret (Some t).

Definition optional_text (value : string) : option string :=
  if String.eqb value "" then None else Some value.

(** A field under a parser, as the decoders read most fields. *)
Definition field_as {T} (name : string) (parse : string → string → Res T) : EvidenceReader T :=
  value ← evidence_field name; lift (parse name value).

(** [encode] and [decode] of both records; [what] is the record in the error texts. *)
Section codec.
Context {A : Type} (what header : string) (validate : A → Res unit).
Context (fields : A → list (string * string)) (read : EvidenceReader A).

Definition evidence_encode (a : A) : Res string :=
  validate a ≫= λ _,
  let output := kv_text header (fields a) in
  fail_if (MAX_AUTOTUNE_EVIDENCE_BYTES <? len output)%N (what +:+ " record exceeds its bound")
    ≫= λ _, mret output.

Definition evidence_decode (input : string) : Res A :=
  fail_if ((MAX_AUTOTUNE_EVIDENCE_BYTES <? len input)%N || negb (ends_with_char nl input))
    (what +:+ " record is unbounded or unterminated") ≫= λ _,
  record ← evidence_new input header;
  a ← (read record).1;
  validate a ≫= λ _,
  text ← evidence_encode a;
  fail_if (negb (String.eqb text input)) (what +:+ " record is not canonical") ≫= λ _,
  mret a.

(** A text that decodes is the record's only text. *)
Lemma evidence_decode_inv input a :
  evidence_decode input = Ok a →
  validate a = Ok tt ∧ evidence_encode a = Ok input ∧ ∃ record, (read record).1 = Ok a.
Proof.
  intros H. unfold evidence_decode in H. apply then_ok in H as [_ H].
  apply bind_ok_inv in H as (record & _ & H). apply bind_ok_inv in H as (x & Hr & H).
  apply then_ok in H as [Hv H]. apply bind_ok_inv in H as (text & He & H).
  apply then_ok in H as [E H]. apply ret_ok_inv in H as ->.
  apply fail_if_ok, negb_false_iff, String.eqb_eq in E as ->. eauto.
Qed.

(** What the fields of a record must satisfy for its text to be read back. *)
Lemma evidence_encode_inv a text :
  evidence_encode a = Ok text →
  validate a = Ok tt ∧ text = kv_text header (fields a) ∧ (len text ≤ MAX_AUTOTUNE_EVIDENCE_BYTES)%N.
Proof.
  intros H. unfold evidence_encode in H. apply then_ok in H as [Hv H].
  apply then_ok in H as [Hl H]. apply ret_ok_inv in H as <-.
  apply fail_if_ok, N.ltb_ge in Hl. done.
Qed.

Lemma evidence_decode_encode a text :
  contains nl header = false → contains cr header = false → Forall kv_ok (fields a) →
  read (kv_line <$> fields a) = (Ok a, []) →
  evidence_encode a = Ok text → evidence_decode text = Ok a.
Proof.
  intros N1 N2 Hf Hr He. destruct (evidence_encode_inv _ _ He) as (Hv & Ht & Hl).
  unfold evidence_decode. rewrite (proj2 (N.ltb_ge _ _) Hl).
  assert (ends_with_char nl text = true) as -> by (rewrite Ht; apply kv_text_ends).
  unfold evidence_new. replace (lines text) with (header :: (kv_line <$> fields a)) by (by rewrite Ht, lines_kv).
  rewrite String.eqb_refl. cbn [negb orb fail_if mbind result_bind]. rewrite Hr.
  cbn [fst mbind result_bind]. rewrite Hv, He. simpl. by rewrite String.eqb_refl.
Qed.

Lemma evidence_encode_total a :
  (len header + 1 + 121 * N.of_nat (length (fields a)) <= MAX_AUTOTUNE_EVIDENCE_BYTES)%N →
  Forall kv_ok (fields a) → validate a = Ok tt →
  evidence_encode a = Ok (kv_text header (fields a)).
Proof.
  intros Hl Hf Hv. unfold evidence_encode. rewrite Hv. cbn [mbind result_bind].
  pose proof (kv_text_len header _ Hf). rewrite (proj2 (N.ltb_ge _ _)) by lia. done.
Qed.
End codec.

Definition read_runtime_control : EvidenceReader AutotuneRuntimeControl :=
  permit_id ← evidence_field "permit_id";
  job_id ← evidence_field "job_id";
  worker_run_id ← evidence_field "worker_run_id";
  boot_id ← evidence_field "boot_id";
  coordinator_generation ← evidence_field "coordinator_generation";
  worker_pid ← field_as "worker_pid" parse_narrow_u32;
  worker_process_group ← field_as "worker_process_group" parse_narrow_u32;
  worker_starttime_ticks ← field_as "worker_starttime_ticks" evidence_u64;
  sequence ← field_as "sequence" parse_narrow_u32;
  deadline_boot_ms ← field_as "deadline_boot_ms" evidence_u64;
  target_interface ← evidence_field "target_interface";
  route_fingerprint ← evidence_field "route_fingerprint";
  sqm_fingerprint ← evidence_field "sqm_fingerprint";
  topology_text ← evidence_field "topology";
  topology ← lift (ok_or (MeasurementTopology_parse topology_text)
                     "runtime control topology is unsupported");
  download_kbps ← field_as "download_kbps" evidence_optional_u64;
  upload_kbps ← field_as "upload_kbps" evidence_optional_u64;
  evidence_finish ≫= λ _,
  mret {| rc_permit_id := permit_id; rc_job_id := job_id; rc_worker_run_id := worker_run_id;
          rc_boot_id := boot_id; rc_coordinator_generation := coordinator_generation;
          rc_worker := {| pid := worker_pid; process_group := worker_process_group;
                          starttime_ticks := worker_starttime_ticks |};
          rc_sequence := sequence; rc_deadline_boot_ms := deadline_boot_ms;
          rc_target_interface := target_interface; rc_route_fingerprint := route_fingerprint;
          rc_sqm_fingerprint := sqm_fingerprint; rc_topology := topology;
          rc_download_kbps := download_kbps; rc_upload_kbps := upload_kbps |}.

Definition runtime_control_encode : AutotuneRuntimeControl → Res string :=
  evidence_encode "runtime control" RUNTIME_CONTROL_HEADER runtime_control_validate runtime_control_fields.
Definition runtime_control_decode : string → Res AutotuneRuntimeControl :=
  evidence_decode "runtime control" RUNTIME_CONTROL_HEADER runtime_control_validate runtime_control_fields
    read_runtime_control.

(** ** [AutotuneRuntimeAck] *)

Inductive RuntimeAckState := Applied | Restoring | Restored | Rejected.

#[export] Instance RuntimeAckState_eq_dec : EqDecision RuntimeAckState.
Proof. solve_decision. Defined.

Definition RuntimeAckState_as_str (value : RuntimeAckState) : string :=
  match value with
  | Applied => "applied"
  | Restoring => "restoring"
  | Restored => "restored"
  | Rejected => "rejected"
  end.

Definition RuntimeAckState_parse : string → option RuntimeAckState := match_str [
  ("applied", Applied); ("restoring", Restoring); ("restored", Restored); ("rejected", Rejected)].

#[export, refine] Instance RuntimeAckState_wire : WireName RuntimeAckState :=
  {| wire_str := RuntimeAckState_as_str; wire_parse := RuntimeAckState_parse |}.
Proof. all: by intros []. Defined.

Record AutotuneRuntimeAck := {
  ra_permit_id : string;
  ra_job_id : string;
  ra_worker_run_id : string;
  ra_sequence : N;
  ra_updated_boot_ms : N;
  ra_target_interface : string;
  ra_route_fingerprint : string;
  ra_sqm_fingerprint : string;
  ra_state : RuntimeAckState;
  ra_topology : option MeasurementTopology;
  ra_download_kbps : option N;
  ra_upload_kbps : option N;
  ra_diagnostic_code : option string;
}.

#[export] Instance AutotuneRuntimeAck_eq_dec : EqDecision AutotuneRuntimeAck.
Proof. solve_decision. Defined.

(** ["00".repeat(16)] *)
Definition ZERO_ID : string := "00000000000000000000000000000000".

(** The control an applied acknowledgement claims, for the checks of [validate]. *)
Definition shaped_claim (a : AutotuneRuntimeAck) (topology : MeasurementTopology)
    : AutotuneRuntimeControl :=
  {| rc_permit_id := a.(ra_permit_id); rc_job_id := a.(ra_job_id);
     rc_worker_run_id := a.(ra_worker_run_id); rc_boot_id := ZERO_ID;
     rc_coordinator_generation := ZERO_ID;
     rc_worker := {| pid := 1; process_group := 1; starttime_ticks := 1 |};
     rc_sequence := a.(ra_sequence); rc_deadline_boot_ms := a.(ra_updated_boot_ms);
     rc_target_interface := a.(ra_target_interface);
     rc_route_fingerprint := a.(ra_route_fingerprint);
     rc_sqm_fingerprint := a.(ra_sqm_fingerprint); rc_topology := topology;
     rc_download_kbps := a.(ra_download_kbps); rc_upload_kbps := a.(ra_upload_kbps) |}.

Definition ack_claims_override (a : AutotuneRuntimeAck) : bool :=
  is_some a.(ra_topology) || is_some a.(ra_download_kbps) || is_some a.(ra_upload_kbps).

(** The [match self.state] of [validate]. *)
Definition ack_validate_state (a : AutotuneRuntimeAck) : Res unit :=
  match a.(ra_state) with
  | Applied =>
      topology ← ok_or a.(ra_topology) "applied runtime ack has no topology";
      runtime_control_validate (shaped_claim a topology) ≫= λ _,
      fail_if (is_some a.(ra_diagnostic_code)) "applied runtime ack must not carry an error"
  | Restoring | Restored =>
      fail_if (ack_claims_override a || is_some a.(ra_diagnostic_code))
        "restoration ack must not claim an active override"
  | Rejected =>
      fail_if (ack_claims_override a) "rejected runtime ack must not claim an active override"
        ≫= λ _,
      code ← ok_or a.(ra_diagnostic_code) "rejected runtime ack has no diagnostic";
      require_code code
  end.

Definition ack_validate (a : AutotuneRuntimeAck) : Res unit :=
  evidence_hex "runtime ack permit id" a.(ra_permit_id) 32 ≫= λ _,
  evidence_hex "runtime ack job id" a.(ra_job_id) 32 ≫= λ _,
  evidence_hex "runtime ack worker run id" a.(ra_worker_run_id) 32 ≫= λ _,
  evidence_hex "runtime ack route fingerprint" a.(ra_route_fingerprint) 64 ≫= λ _,
  evidence_hex "runtime ack SQM fingerprint" a.(ra_sqm_fingerprint) 64 ≫= λ _,
  control_interface a.(ra_target_interface) ≫= λ _,
  fail_if ((a.(ra_sequence) =? 0)%N || (MAX_AUTOTUNE_EVIDENCE_RECORDS <? a.(ra_sequence))%N
           || (a.(ra_updated_boot_ms) =? 0)%N)
    "runtime ack sequence or timestamp is invalid" ≫= λ _,
  validate_optional_rate "download" a.(ra_download_kbps) ≫= λ _,
  validate_optional_rate "upload" a.(ra_upload_kbps) ≫= λ _,
  ack_validate_state a.

(** *** Attestation: the instance did exactly what the control asked *)

Definition ack_names_control (a : AutotuneRuntimeAck) (c : AutotuneRuntimeControl) : bool :=
  bool_decide (a.(ra_job_id) = c.(rc_job_id)) && bool_decide (a.(ra_permit_id) = c.(rc_permit_id))
  && bool_decide (a.(ra_worker_run_id) = c.(rc_worker_run_id))
  && bool_decide (a.(ra_sequence) = c.(rc_sequence))
  && bool_decide (a.(ra_target_interface) = c.(rc_target_interface))
  && bool_decide (a.(ra_route_fingerprint) = c.(rc_route_fingerprint))
  && bool_decide (a.(ra_sqm_fingerprint) = c.(rc_sqm_fingerprint)).

Definition attests_applied_record (a : AutotuneRuntimeAck) (c : AutotuneRuntimeControl)
    (current_boot_ms : N) : Res unit :=
  ack_validate a ≫= λ _,
  runtime_control_validate c ≫= λ _,
  fail_if (negb (bool_decide (a.(ra_state) = Applied) && ack_names_control a c
                 && bool_decide (a.(ra_topology) = Some c.(rc_topology))
                 && bool_decide (a.(ra_download_kbps) = c.(rc_download_kbps))
                 && bool_decide (a.(ra_upload_kbps) = c.(rc_upload_kbps))))
    "runtime ack does not attest the exact requested override" ≫= λ _,
  fail_if (current_boot_ms <? a.(ra_updated_boot_ms))%N "runtime ack is from the future".

Definition attests_applied (a : AutotuneRuntimeAck) (c : AutotuneRuntimeControl)
    (current_boot_ms : N) : Res unit :=
  attests_applied_record a c current_boot_ms ≫= λ _,
  fail_if (c.(rc_deadline_boot_ms) <? current_boot_ms)%N
    "runtime ack is outside the control lifetime".

Definition attests_restored (a : AutotuneRuntimeAck) (c : AutotuneRuntimeControl)
    (current_boot_ms : N) : Res unit :=
  ack_validate a ≫= λ _,
  runtime_control_validate c ≫= λ _,
  fail_if (negb (bool_decide (a.(ra_state) = Restored) && ack_names_control a c))
    "runtime ack does not attest restoration of the exact override" ≫= λ _,
  fail_if (current_boot_ms <? a.(ra_updated_boot_ms))%N "restored runtime ack is from the future".

(** *** The text of an acknowledgement *)

Definition ack_fields (a : AutotuneRuntimeAck) : list (string * string) :=
  [("permit_id", a.(ra_permit_id)); ("job_id", a.(ra_job_id));
   ("worker_run_id", a.(ra_worker_run_id)); ("sequence", show a.(ra_sequence));
   ("updated_boot_ms", show a.(ra_updated_boot_ms));
   ("target_interface", a.(ra_target_interface));
   ("route_fingerprint", a.(ra_route_fingerprint));
   ("sqm_fingerprint", a.(ra_sqm_fingerprint));
   ("state", RuntimeAckState_as_str a.(ra_state));
   ("topology", default "" (MeasurementTopology_as_str <$> a.(ra_topology)));
   ("download_kbps", optional_number a.(ra_download_kbps));
   ("upload_kbps", optional_number a.(ra_upload_kbps));
   ("diagnostic_code", default "" a.(ra_diagnostic_code))].

Definition read_ack : EvidenceReader AutotuneRuntimeAck :=
  permit_id ← evidence_field "permit_id";
  job_id ← evidence_field "job_id";
  worker_run_id ← evidence_field "worker_run_id";
  sequence ← field_as "sequence" parse_narrow_u32;
  updated_boot_ms ← field_as "updated_boot_ms" evidence_u64;
  target_interface ← evidence_field "target_interface";
  route_fingerprint ← evidence_field "route_fingerprint";
  sqm_fingerprint ← evidence_field "sqm_fingerprint";
  state_text ← evidence_field "state";
  state ← lift (ok_or (RuntimeAckState_parse state_text) "runtime ack state is unsupported");
  topology_text ← evidence_field "topology";
  topology ← lift (evidence_optional_parsed topology_text MeasurementTopology_parse);
  download_kbps ← field_as "download_kbps" evidence_optional_u64;
  upload_kbps ← field_as "upload_kbps" evidence_optional_u64;
  diagnostic_code ← evidence_field "diagnostic_code";
  evidence_finish ≫= λ _,
  mret {| ra_permit_id := permit_id; ra_job_id := job_id; ra_worker_run_id := worker_run_id;
          ra_sequence := sequence; ra_updated_boot_ms := updated_boot_ms;
          ra_target_interface := target_interface; ra_route_fingerprint := route_fingerprint;
          ra_sqm_fingerprint := sqm_fingerprint; ra_state := state; ra_topology := topology;
          ra_download_kbps := download_kbps; ra_upload_kbps := upload_kbps;
          ra_diagnostic_code := optional_text diagnostic_code |}.

Definition ack_encode : AutotuneRuntimeAck → Res string :=
  evidence_encode "runtime ack" RUNTIME_ACK_HEADER ack_validate ack_fields.
Definition ack_decode : string → Res AutotuneRuntimeAck :=
  evidence_decode "runtime ack" RUNTIME_ACK_HEADER ack_validate ack_fields read_ack.

(** *** Trying it *)

Definition sample_control : AutotuneRuntimeControl :=
  {| rc_permit_id := "0123456789abcdef0123456789abcdef";
     rc_job_id := "11111111111111111111111111111111";
     rc_worker_run_id := "22222222222222222222222222222222";
     rc_boot_id := "33333333333333333333333333333333";
     rc_coordinator_generation := "44444444444444444444444444444444";
     rc_worker := {| pid := 41; process_group := 41; starttime_ticks := 900 |};
     rc_sequence := 1; rc_deadline_boot_ms := 60000; rc_target_interface := "wan";
     rc_route_fingerprint := "5555555555555555555555555555555555555555555555555555555555555555";
     rc_sqm_fingerprint := "6666666666666666666666666666666666666666666666666666666666666666";
     rc_topology := RawUpload; rc_download_kbps := Some 50000%N; rc_upload_kbps := None |}.

Example control_round_trip :
  (runtime_control_encode sample_control ≫= runtime_control_decode) = Ok sample_control.
Proof. by vm_compute. Qed.

(** ** What the validators establish *)

Lemma evidence_hex_value name s n :
  evidence_hex name s n = Ok tt → (n ≤ 96)%N → kv_value s.
Proof.
  intros H%fail_if_ok Hn. reflect_bools. apply kv_value_lower_hex; [done | by subst].
Qed.

Lemma control_interface_value s : control_interface s = Ok tt → kv_value s.
Proof.
  intros H%fail_if_ok. reflect_bools. apply (kv_value_extra "._:@-"); [done | done | lia].
Qed.

Lemma require_code_value s : require_code s = Ok tt → kv_value s ∧ s ≠ "".
Proof.
  intros H%fail_if_ok. reflect_bools. split; [by apply (kv_value_extra "_-") |].
  by intros ->.
Qed.

Lemma topology_value t : kv_value (MeasurementTopology_as_str t).
Proof. by destruct t. Qed.
Lemma ack_state_value s : kv_value (RuntimeAckState_as_str s).
Proof. by destruct s. Qed.
Lemma topology_option_value (o : option MeasurementTopology) :
  kv_value (default "" (MeasurementTopology_as_str <$> o)).
Proof. by destruct o as [[] |]. Qed.

Lemma rate_u64 r : rate_supported r = true → is_u64 r.
Proof.
  unfold rate_supported, MAX_RATE_KBPS, is_u64, u64_max. intros H. reflect_bools. lia.
Qed.

Lemma optional_rate_ok name o :
  validate_optional_rate name o = Ok tt ↔ ∀ r, o = Some r → rate_supported r = true.
Proof.
  unfold validate_optional_rate. rewrite fail_if_ok, is_some_and_false.
  by setoid_rewrite negb_false_iff.
Qed.

Lemma optional_rate_value name o :
  validate_optional_rate name o = Ok tt → kv_value (optional_number o).
Proof.
  rewrite optional_rate_ok. intros H. destruct o as [r |]; [| done].
  by apply kv_value_show, rate_u64, H.
Qed.

Lemma topology_rates_ok t d u :
  validate_topology_rates t d u = Ok tt ↔
  (∀ r, d = Some r → rate_supported r = true) ∧ (∀ r, u = Some r → rate_supported r = true)
  ∧ is_some d = download_is_shaped t ∧ is_some u = upload_is_shaped t.
Proof.
  unfold validate_topology_rates. rewrite !then_ok, fail_if_ok, !optional_rate_ok.
  rewrite orb_false_iff, !negb_false_iff, !eqb_true_iff.
  split; [by intros (? & ? & <- & <-) | by intros (? & ? & -> & ->)].
Qed.

Definition sequence_ok (n : N) : Prop := (1 ≤ n)%N ∧ (n ≤ MAX_AUTOTUNE_EVIDENCE_RECORDS)%N.

Lemma sequence_ok_u32 n : sequence_ok n → is_u32 n.
Proof.
  intros [_ H]. change MAX_AUTOTUNE_EVIDENCE_RECORDS with 302%N in H. unfold is_u32, u32_max. lia.
Qed.

(** A control that passes [validate], field by field. *)
Record control_ok (c : AutotuneRuntimeControl) : Prop := {
  co_permit_id : evidence_hex "runtime control permit id" c.(rc_permit_id) 32 = Ok tt;
  co_job_id : evidence_hex "runtime control job id" c.(rc_job_id) 32 = Ok tt;
  co_worker_run_id : evidence_hex "runtime control worker run id" c.(rc_worker_run_id) 32 = Ok tt;
  co_boot_id : evidence_hex "runtime control boot id" c.(rc_boot_id) 32 = Ok tt;
  co_generation : evidence_hex "runtime control coordinator generation"
                    c.(rc_coordinator_generation) 32 = Ok tt;
  co_route : evidence_hex "runtime control route fingerprint" c.(rc_route_fingerprint) 64 = Ok tt;
  co_sqm : evidence_hex "runtime control SQM fingerprint" c.(rc_sqm_fingerprint) 64 = Ok tt;
  co_worker : process_zero c.(rc_worker) = false;
  co_sequence : sequence_ok c.(rc_sequence);
  co_deadline : c.(rc_deadline_boot_ms) ≠ 0%N;
  co_interface : control_interface c.(rc_target_interface) = Ok tt;
  co_rates : validate_topology_rates c.(rc_topology) c.(rc_download_kbps) c.(rc_upload_kbps) = Ok tt;
}.

Lemma sequence_check n :
  ((n =? 0)%N || (MAX_AUTOTUNE_EVIDENCE_RECORDS <? n)%N) = false ↔ sequence_ok n.
Proof. rewrite orb_false_iff, N.eqb_neq, N.ltb_ge. unfold sequence_ok. lia. Qed.

Lemma runtime_control_validate_ok c : runtime_control_validate c = Ok tt ↔ control_ok c.
Proof.
  unfold runtime_control_validate. rewrite !then_ok, !fail_if_ok, sequence_check, N.eqb_neq. split.
  - by intros (? & ? & ? & ? & ? & ? & ? & ? & ? & ? & ? & ?).
  - by intros [].
Qed.

(** ** Reading the lines back *)

Lemma evidence_field_step {A} k v rest (f : string → EvidenceReader A) :
  kv_ok (k, v) → (evidence_field k ≫= f) (kv_line (k, v) :: rest) = f v rest.
Proof.
  intros [(Hk & _) _]. unfold mbind, M_bind, evidence_field, kv_line. cbn [fst snd] in *.
  rewrite split_once_append by done. by rewrite String.eqb_refl.
Qed.

Lemma field_as_step {T A} k v rest (parse : string → string → Res T) t (f : T → EvidenceReader A) :
  parse k v = Ok t → kv_ok (k, v) → (field_as k parse ≫= f) (kv_line (k, v) :: rest) = f t rest.
Proof.
  intros Hp Hk. unfold field_as.
  change ((evidence_field k ≫= λ value, lift (parse k value)) ≫= f)
    with (λ s, match (evidence_field k ≫= λ value, lift (parse k value)) s with
               | (Ok a, s') => f a s' | (Err e, s') => (Err e, s') end).
  cbv beta. rewrite evidence_field_step by done. unfold lift. by rewrite Hp.
Qed.

Lemma evidence_u64_back name n : is_u64 n → evidence_u64 name (show n) = Ok n.
Proof.
  intros Hn. unfold evidence_u64. rewrite show_nonempty, show_no_leading_zero.
  unfold str_parse_u64. by rewrite parse_uint_show.
Qed.

Lemma parse_narrow_back name n : is_u32 n → parse_narrow_u32 name (show n) = Ok n.
Proof.
  intros Hn. unfold parse_narrow_u32. rewrite evidence_u64_back by by apply is_u32_u64.
  simpl. by rewrite (proj2 (N.ltb_ge _ _) Hn).
Qed.

Lemma optional_rate_back name kind o :
  validate_optional_rate kind o = Ok tt →
  evidence_optional_u64 name (optional_number o) = Ok o.
Proof.
  rewrite optional_rate_ok. intros H. destruct o as [r |]; [| done].
  unfold evidence_optional_u64. cbn [optional_number]. rewrite show_nonempty.
  by rewrite evidence_u64_back by by apply rate_u64, H.
Qed.

Lemma topology_back t (e : string) :
  ok_or (MeasurementTopology_parse (MeasurementTopology_as_str t)) e = Ok t.
Proof. by destruct t. Qed.
Lemma ack_state_back s (e : string) :
  ok_or (RuntimeAckState_parse (RuntimeAckState_as_str s)) e = Ok s.
Proof. by destruct s. Qed.
Lemma topology_option_back (o : option MeasurementTopology) :
  evidence_optional_parsed (default "" (MeasurementTopology_as_str <$> o)) MeasurementTopology_parse
  = Ok o.
Proof. by destruct o as [[] |]. Qed.

Create HintDb evidence.
#[export] Hint Resolve kv_value_show evidence_hex_value control_interface_value
  topology_value ack_state_value topology_option_value is_u32_u64 sequence_ok_u32 : evidence.

(** Every number of a control fits its field. *)
Definition control_typed (c : AutotuneRuntimeControl) : Prop :=
  identity_typed c.(rc_worker) ∧ is_u64 c.(rc_deadline_boot_ms).

Ltac hex_value := eapply evidence_hex_value; [eassumption | done].
Ltac evidence_lines :=
  repeat (apply Forall_cons; split); try solve [constructor];
  (apply kv_ok_intro; [reflexivity |]); first [hex_value | by eauto with evidence].

Lemma control_rates c : control_ok c →
  validate_optional_rate "download" c.(rc_download_kbps) = Ok tt
  ∧ validate_optional_rate "upload" c.(rc_upload_kbps) = Ok tt.
Proof.
  intros [_ _ _ _ _ _ _ _ _ _ _ H]. unfold validate_topology_rates in H.
  apply then_ok in H as [? H]. by apply then_ok in H as [? _].
Qed.

Lemma control_fields_ok c : control_typed c → control_ok c → Forall kv_ok (runtime_control_fields c).
Proof.
  intros [(? & ? & ?) ?] Hc. destruct (control_rates c Hc) as [Hd Hu].
  apply optional_rate_value in Hd, Hu. destruct Hc. unfold runtime_control_fields. evidence_lines.
Qed.

Ltac line_step :=
  first [ rewrite evidence_field_step by done
        | erewrite field_as_step;
            [| first [by apply parse_narrow_back; eauto with evidence
                     | by apply evidence_u64_back
                     | by eapply optional_rate_back] | done]
        | rewrite topology_back | rewrite ack_state_back | rewrite topology_option_back
        | rewrite lift_step ].

Lemma read_control_back c :
  control_typed c → control_ok c →
  read_runtime_control (kv_line <$> runtime_control_fields c) = (Ok c, []).
Proof.
  intros Ht Hc. pose proof (control_fields_ok c Ht Hc) as Hf.
  destruct (control_rates c Hc) as [Hd Hu]. destruct Ht as [(? & ? & ?) ?], Hc.
  unfold runtime_control_fields in *. rewrite !Forall_cons in Hf.
  destruct Hf as (? & ? & ? & ? & ? & ? & ? & ? & ? & ? & ? & ? & ? & ? & ? & ? & _).
  cbn [fmap list_fmap]. unfold read_runtime_control.
  repeat line_step. by destruct c as [? ? ? ? ? []].
Qed.

(** Every number of an acknowledgement fits its field. *)
Definition ack_typed (a : AutotuneRuntimeAck) : Prop := is_u64 a.(ra_updated_boot_ms).

(** An acknowledgement that passes [validate], field by field. *)
Record ack_ok (a : AutotuneRuntimeAck) : Prop := {
  ao_permit_id : evidence_hex "runtime ack permit id" a.(ra_permit_id) 32 = Ok tt;
  ao_job_id : evidence_hex "runtime ack job id" a.(ra_job_id) 32 = Ok tt;
  ao_worker_run_id : evidence_hex "runtime ack worker run id" a.(ra_worker_run_id) 32 = Ok tt;
  ao_route : evidence_hex "runtime ack route fingerprint" a.(ra_route_fingerprint) 64 = Ok tt;
  ao_sqm : evidence_hex "runtime ack SQM fingerprint" a.(ra_sqm_fingerprint) 64 = Ok tt;
  ao_interface : control_interface a.(ra_target_interface) = Ok tt;
  ao_sequence : sequence_ok a.(ra_sequence);
  ao_updated : a.(ra_updated_boot_ms) ≠ 0%N;
  ao_download : validate_optional_rate "download" a.(ra_download_kbps) = Ok tt;
  ao_upload : validate_optional_rate "upload" a.(ra_upload_kbps) = Ok tt;
  ao_state : ack_validate_state a = Ok tt;
}.

Lemma ack_validate_ok a : ack_validate a = Ok tt ↔ ack_ok a.
Proof.
  unfold ack_validate. rewrite !then_ok, fail_if_ok, orb_false_iff, sequence_check, N.eqb_neq.
  split; [by intros (? & ? & ? & ? & ? & ? & [? ?] & ? & ? & ?) | by intros []].
Qed.

(** The diagnostic of a valid acknowledgement can be carried, and none is empty. *)
Lemma ack_code_value a : ack_validate_state a = Ok tt →
  kv_value (default "" a.(ra_diagnostic_code))
  ∧ optional_text (default "" a.(ra_diagnostic_code)) = a.(ra_diagnostic_code).
Proof.
  intros H. destruct (ra_diagnostic_code a) as [code |] eqn:E; [| done].
  unfold ack_validate_state in H. rewrite E in H. cbn [is_some] in H. rewrite orb_true_r in H.
  destruct (ra_state a); try done.
  - apply bind_ok_inv in H as (? & _ & H). by apply then_ok in H as [_ H].
  - apply then_ok in H as [_ H]. cbn in H. apply require_code_value in H as [Hv Hn].
    split; [done |]. unfold optional_text. simpl. by rewrite (proj2 (String.eqb_neq _ _) Hn).
Qed.

Lemma ack_fields_ok a : ack_typed a → ack_ok a → Forall kv_ok (ack_fields a).
Proof.
  intros Ht Ha. destruct (ack_code_value a) as [Hc _]; [by destruct Ha |].
  destruct Ha as [? ? ? ? ? ? ? ? Hd Hu _]. apply optional_rate_value in Hd, Hu.
  unfold ack_typed in Ht. unfold ack_fields. evidence_lines.
Qed.

Lemma read_ack_back a :
  ack_typed a → ack_ok a → read_ack (kv_line <$> ack_fields a) = (Ok a, []).
Proof.
  intros Ht Ha. pose proof (ack_fields_ok a Ht Ha) as Hf.
  destruct (ack_code_value a) as [_ Hc]; [by destruct Ha |]. destruct Ha.
  unfold ack_typed in Ht. unfold ack_fields in *. rewrite !Forall_cons in Hf.
  destruct Hf as (? & ? & ? & ? & ? & ? & ? & ? & ? & ? & ? & ? & ? & _).
  cbn [fmap list_fmap]. unfold read_ack. repeat line_step. rewrite Hc. by destruct a.
Qed.

(** ** Round trips *)

(** A runtime control whose numbers fit their fields and that passes [validate]
    is always written, and reading the text gives the control back; whatever text
    [decode] accepts is the one text of a valid control. *)
Theorem control_codec_exact c :
  control_typed c → runtime_control_validate c = Ok tt →
  ∃ text, runtime_control_encode c = Ok text ∧ runtime_control_decode text = Ok c
    ∧ ∀ input, runtime_control_decode input = Ok c → input = text.
Proof.
  intros Ht Hv. pose proof (proj1 (runtime_control_validate_ok c) Hv) as Hc.
  pose proof (control_fields_ok c Ht Hc) as Hf.
  assert (He : runtime_control_encode c = Ok (kv_text RUNTIME_CONTROL_HEADER (runtime_control_fields c)))
    by (apply evidence_encode_total; [by vm_compute | done | done]).
  eexists. split_and?; [exact He | |].
  - apply (evidence_decode_encode _ _ _ runtime_control_fields _ c); [done | done | done | | exact He].
    by apply read_control_back.
  - intros input (_ & Hi & _)%evidence_decode_inv.
    change (runtime_control_encode c = Ok input) in Hi. congruence.
Qed.

(** Every valid acknowledgement is written within the record bound, and is read
    back from its text, which is the only text [decode] reads as it. *)
Theorem ack_codec_exact a :
  ack_typed a → ack_validate a = Ok tt →
  ∃ text, ack_encode a = Ok text ∧ ack_decode text = Ok a
    ∧ ∀ input, ack_decode input = Ok a → input = text.
Proof.
  intros Ht Hv. pose proof (proj1 (ack_validate_ok a) Hv) as Ha.
  pose proof (ack_fields_ok a Ht Ha) as Hf.
  assert (He : ack_encode a = Ok (kv_text RUNTIME_ACK_HEADER (ack_fields a)))
    by (apply evidence_encode_total; [by vm_compute | done | done]).
  eexists. split_and?; [exact He | |].
  - apply (evidence_decode_encode _ _ _ ack_fields _ a); [done | done | done | | exact He].
    by apply read_ack_back.
  - intros input (_ & Hi & _)%evidence_decode_inv.
    change (ack_encode a = Ok input) in Hi. congruence.
Qed.

(** ** Witnesses *)

Lemma control_codec_exact_witness :
  ∃ text, runtime_control_encode sample_control = Ok text ∧ runtime_control_decode text = Ok sample_control.
Proof.
  destruct (control_codec_exact sample_control) as (text & H1 & H2 & _).
  - split; [vm_decide || by vm_compute | by vm_compute].
  - by vm_compute.
  - by exists text.
Defined.

Definition sample_ack : AutotuneRuntimeAck :=
  {| ra_permit_id := sample_control.(rc_permit_id); ra_job_id := sample_control.(rc_job_id);
     ra_worker_run_id := sample_control.(rc_worker_run_id); ra_sequence := 1;
     ra_updated_boot_ms := 1500; ra_target_interface := "wan";
     ra_route_fingerprint := sample_control.(rc_route_fingerprint);
     ra_sqm_fingerprint := sample_control.(rc_sqm_fingerprint); ra_state := Rejected;
     ra_topology := None; ra_download_kbps := None; ra_upload_kbps := None;
     ra_diagnostic_code := Some "rate-not-permitted" |}.

Lemma ack_codec_exact_witness :
  ∃ text, ack_encode sample_ack = Ok text ∧ ack_decode text = Ok sample_ack.
Proof.
  destruct (ack_codec_exact sample_ack) as (text & H1 & H2 & _); [by vm_compute | by vm_compute |].
  by exists text.
Defined.
