(* ===== verification/PrivateNamespace.v ===== *)
(** * Private kernel namespaces

    Models [KernelTopologyError], [PrivateActionIdentity], [PrivateNamespaceRecord]
    and the field validators of [operations/kernel_topology.rs]: the names,
    handles and action identities a calibration reserves for itself. *)

From S2P Require Import Prelude RustStr SchedRecord.
Local Open Scope string_scope.

Inductive TopologyObject := Link | Qdisc | Filter | Action.

Definition TopologyObject_as_str (o : TopologyObject) : string :=
  match o with Link => "link" | Qdisc => "qdisc" | Filter => "filter" | Action => "action" end.

Inductive KernelTopologyError :=
  | Backend (message : string)
  | Invalid (message : string)
  | Limit (message : string)
  | UnknownOwnershipAttribute (object : TopologyObject) (attribute_type : N).

Abbreviation KRes := (result KernelTopologyError).

(** [Display] *)
Definition error_text (e : KernelTopologyError) : string :=
  match e with
  | Backend message | Invalid message | Limit message => message
  | UnknownOwnershipAttribute object attribute_type =>
      "unknown ownership-relevant " +:+ TopologyObject_as_str object
      +:+ " attribute type " +:+ show attribute_type
  end.

(** [result.map_err(|error| error.to_string())] *)
Definition map_error_text {A} (r : KRes A) : Res A :=
  match r with Ok a => Ok a | Err e => Err (error_text e) end.

Definition MAX_NAMESPACE_IDENTITIES : N := 128.
Definition MAX_ACTION_COOKIE_BYTES : N := 16.
Definition MAX_INTERFACE_NAME_BYTES : N := 15.
Definition MAX_ALIAS_BYTES : N := 256.
Definition MAX_KIND_BYTES : N := 32.

(** ** Data *)

Record PrivateActionIdentity := {
  pa_kind : string;
  pa_index : N;
  pa_cookie : option (list N);
}.

Record PrivateNamespaceRecord := {
  link_names : list string;
  link_aliases : list string;
  qdisc_handles : list N;
  filter_handles : list N;
  filter_priorities : list N;
  action_identities : list PrivateActionIdentity;
}.

#[export] Instance PrivateActionIdentity_eq_dec : EqDecision PrivateActionIdentity.
Proof. solve_decision. Defined.
#[export] Instance PrivateNamespaceRecord_eq_dec : EqDecision PrivateNamespaceRecord.
Proof. solve_decision. Defined.

(** ** Field validators *)

Definition topology_identifier (label value : string) (maximum : N) (punctuation : string)
    : KRes unit :=
  fail_if (String.eqb value "" || (maximum <? len value)%N
           || negb (all_bytes (λ c, is_ascii_alphanumeric c || contains c punctuation) value))
    (Invalid (label +:+ " is invalid")).

Definition validate_interface (label value : string) : KRes unit :=
  topology_identifier label value MAX_INTERFACE_NAME_BYTES "._:@-".

Definition validate_kind (label value : string) : KRes unit :=
  topology_identifier label value MAX_KIND_BYTES "_-".

(** [byte.is_ascii_graphic() || byte == b' '] *)
Definition graphic_or_space (c : ascii) : bool := in_range 32 126 c.

Definition validate_alias (label value : string) : KRes unit :=
  fail_if (String.eqb value "" || (MAX_ALIAS_BYTES <? len value)%N
           || negb (all_bytes graphic_or_space value))
    (Invalid (label +:+ " is invalid")).

(** [values.iter().any(|value| !unique.insert(value))] from the set [seen]. *)
Fixpoint repeats {A} `{EqDecision A} (seen values : list A) : bool :=
  match values with
  | [] => false
  | value :: values => bool_decide (value ∈ seen) || repeats (value :: seen) values
  end.

Definition ensure_unique {A} `{EqDecision A} (values : list A) (label : string) : KRes unit :=
  fail_if (repeats [] values) (Invalid (label +:+ " contain duplicate identities")).

Definition action_validate (label : string) (a : PrivateActionIdentity) : KRes unit :=
  validate_kind (label +:+ " kind") a.(pa_kind) ≫= λ _,
  fail_if (a.(pa_index) =? 0)%N (Invalid (label +:+ " index must be non-zero")) ≫= λ _,
  fail_if (is_some_and (λ cookie, match cookie with [] => true | _ => false end
                                  || (MAX_ACTION_COOKIE_BYTES <? N.of_nat (length cookie))%N)
             a.(pa_cookie))
    (Limit (label +:+ " cookie is empty or exceeds its bound")).

(** The loop of [validate_action_identity_set]: [keys] and [cookies] are its sets. *)
Fixpoint action_set_loop (label : string) (require_unique_cookies : bool)
    (keys : list (string * N)) (cookies : list (string * list N))
    (identities : list PrivateActionIdentity) : KRes unit :=
  match identities with
  | [] => Ok tt
  | identity :: identities =>
      let key := (identity.(pa_kind), identity.(pa_index)) in
      fail_if (bool_decide (key ∈ keys))
        (Invalid (label +:+ " contain duplicate kind/index identities")) ≫= λ _,
      match require_unique_cookies, identity.(pa_cookie) with
      | true, Some cookie =>
          let entry := (identity.(pa_kind), cookie) in
          fail_if (bool_decide (entry ∈ cookies))
            (Invalid (label +:+ " contain duplicate kind/cookie identities")) ≫= λ _,
          action_set_loop label require_unique_cookies (key :: keys) (entry :: cookies) identities
      | _, _ => action_set_loop label require_unique_cookies (key :: keys) cookies identities
      end
  end.

Definition validate_action_identity_set (identities : list PrivateActionIdentity)
    (label : string) (require_unique_cookies : bool) : KRes unit :=
  action_set_loop label require_unique_cookies [] [] identities.

(** [for x in values { check(x)?; }] *)
Fixpoint each {A} (check : A → KRes unit) (values : list A) : KRes unit :=
  match values with
  | [] => Ok tt
  | value :: values => check value ≫= λ _, each check values
  end.

Definition identity_counts (n : PrivateNamespaceRecord) : list (string * nat) :=
  [("private link names", length n.(link_names));
   ("private link aliases", length n.(link_aliases));
   ("private qdisc handles", length n.(qdisc_handles));
   ("private filter handles", length n.(filter_handles));
   ("private filter priorities", length n.(filter_priorities));
   ("private action identities", length n.(action_identities))].

Definition namespace_validate (n : PrivateNamespaceRecord) : KRes unit :=
  each (λ '(label, count), fail_if (MAX_NAMESPACE_IDENTITIES <? N.of_nat count)%N
          (Limit (label +:+ " exceed the bounded identity count"))) (identity_counts n) ≫= λ _,
  each (validate_interface "private namespace link name") n.(link_names) ≫= λ _,
  each (validate_alias "private namespace link alias") n.(link_aliases) ≫= λ _,
  fail_if (bool_decide (0%N ∈ n.(qdisc_handles)) || bool_decide (0%N ∈ n.(filter_handles))
           || bool_decide (0%N ∈ n.(filter_priorities)))
    (Invalid "private namespace numeric identities must be non-zero") ≫= λ _,
  each (action_validate "private action identity") n.(action_identities) ≫= λ _,
  ensure_unique n.(link_names) "private link names" ≫= λ _,
  ensure_unique n.(link_aliases) "private link aliases" ≫= λ _,
  ensure_unique n.(qdisc_handles) "private qdisc handles" ≫= λ _,
  ensure_unique n.(filter_handles) "private filter handles" ≫= λ _,
  ensure_unique n.(filter_priorities) "private filter priorities" ≫= λ _,
  validate_action_identity_set n.(action_identities) "private action identities" true ≫= λ _,
  fail_if (repeats [] (n.(link_names) ++ n.(link_aliases))%list)
    (Invalid "private link names and aliases contain an ambiguous identity").

(** ** Lemmas *)

Lemma repeats_false {A} `{EqDecision A} (seen values : list A) :
  repeats seen values = false ↔ NoDup values ∧ ∀ x, x ∈ values → x ∉ seen.
Proof.
  revert seen. induction values as [| v values IH]; intros seen; cbn [repeats].
  { split; [intros _; split; [constructor | set_solver] | done]. }
  rewrite orb_false_iff, bool_decide_eq_false, IH, NoDup_cons. set_solver.
Qed.

Lemma repeats_nil {A} `{EqDecision A} (values : list A) : repeats [] values = false ↔ NoDup values.
Proof. rewrite repeats_false. set_solver. Qed.

Lemma each_ok {A} (check : A → KRes unit) values :
  each check values = Ok tt ↔ Forall (λ v, check v = Ok tt) values.
Proof.
  induction values as [| v values IH]; cbn [each]; [by split; [constructor |] |].
  rewrite then_ok, IH, Forall_cons. done.
Qed.
