(* ===== verification/TemporaryTopology.v ===== *)
(** * The temporary calibration topology

    Models [RuntimeQdiscKind], [TemporaryTopologyStage] and
    [TemporaryTopologyIdentity] of [operations/autotune_runtime.rs]: the exact
    names, handles and action identity a permit derives from its random id, with
    the private ranges they are confined to. *)

From S2P Require Import Prelude RustStr SchedRecord PercentRecord LineRecord Vocabulary RustNet RuntimeControl PrivateNamespace.
Local Open Scope string_scope.

(** ** [RuntimeQdiscKind] *)

Inductive RuntimeQdiscKind := Cake | CakeMq.

#[export] Instance RuntimeQdiscKind_eq_dec : EqDecision RuntimeQdiscKind.
Proof. solve_decision. Defined.

Definition RuntimeQdiscKind_as_str (value : RuntimeQdiscKind) : string :=
  match value with Cake => "cake" | CakeMq => "cake_mq" end.

Definition RuntimeQdiscKind_parse : string → option RuntimeQdiscKind :=
  match_str [("cake", Cake); ("cake_mq", CakeMq)].

#[export, refine] Instance RuntimeQdiscKind_wire : WireName RuntimeQdiscKind :=
  {| wire_str := RuntimeQdiscKind_as_str; wire_parse := RuntimeQdiscKind_parse |}.
Proof. all: by intros []. Defined.

(** ** [TemporaryTopologyStage] *)

Inductive TemporaryTopologyStage :=
  | Planned | ManagedSqmSuspended | AbsenceAttested | LinkOwned | Active
  | TemporaryAbsent | BaselineRestored.

#[export] Instance TemporaryTopologyStage_eq_dec : EqDecision TemporaryTopologyStage.
Proof. solve_decision. Defined.

Definition TemporaryTopologyStage_as_str (value : TemporaryTopologyStage) : string :=
  match value with
  | Planned => "planned"
  | ManagedSqmSuspended => "managed_sqm_suspended"
  | AbsenceAttested => "absence_attested"
  | LinkOwned => "link_owned"
  | Active => "active"
  | TemporaryAbsent => "temporary_absent"
  | BaselineRestored => "baseline_restored"
  end.

Definition TemporaryTopologyStage_parse : string → option TemporaryTopologyStage := match_str [
  ("planned", Planned);
  ("managed_sqm_suspended", ManagedSqmSuspended);
  ("absence_attested", AbsenceAttested);
  ("link_owned", LinkOwned);
  ("active", Active);
  ("temporary_absent", TemporaryAbsent);
  ("baseline_restored", BaselineRestored)].

Lemma TemporaryTopologyStage_back s :
  TemporaryTopologyStage_parse (TemporaryTopologyStage_as_str s) = Some s.
Proof. by destruct s. Qed.

(** ** Field validators of [autotune_runtime.rs] *)

(** The text of [require_lower_hex] is the one of [require_hex] in [full_autotune.rs]. *)
Definition permit_hex (name value : string) (length : N) : Res unit :=
  evidence_hex name value length.

Definition permit_identifier (name value : string) : Res unit :=
  fail_if (String.eqb value "" || (64 <? len value)%N
           || negb (all_bytes (λ c, is_ascii_alphanumeric c || contains c "._-") value))
    (name +:+ " is invalid").

Definition permit_interface (value : string) : Res unit :=
  fail_if (String.eqb value "" || (64 <? len value)%N
           || negb (all_bytes (λ c, is_ascii_alphanumeric c || contains c "._:@-") value))
    "runtime permit target interface is invalid".

(** [value.strip_suffix(c)] *)
Fixpoint strip_suffix_char (c : ascii) (s : string) : option string :=
  match s with
  | "" => None
  | String a "" => if Ascii.eqb a c then Some "" else None
  | String a s => String a <$> strip_suffix_char c s
  end.

(** [value.trim_end_matches(c)] *)
Fixpoint trim_end_matches (c : ascii) (s : string) : string :=
  match s with
  | "" => ""
  | String a s =>
      match trim_end_matches c s with
      | "" => if Ascii.eqb a c then "" else str1 a
      | rest => String a rest
      end
  end.

Definition validate_qdisc_handle (name value : string) : Res unit :=
  hex ← ok_or (strip_suffix_char ":" value) (name +:+ " is invalid");
  fail_if (String.eqb hex "" || (4 <? len hex)%N || negb (all_bytes is_lower_hex hex))
    (name +:+ " is invalid").

(** [uN::from_str_radix(s, 16)], for the width whose largest value is [max]. *)
Fixpoint parse_hex_digits (max acc : N) (s : string) : option N :=
  match s with
  | "" => Some acc
  | String c s =>
      d ← to_digit 16 c;
      let acc := (acc * 16 + d)%N in
      if (acc <=? max)%N then parse_hex_digits max acc s else None
  end.

Definition from_str_radix_16 (max : N) (s : string) : option N :=
  match s with
  | "" => None
  | String c rest =>
      if Ascii.eqb c "+" then
        if String.eqb rest "" then None else parse_hex_digits max 0 rest
      else parse_hex_digits max 0 s
  end.

Definition u8_max : N := 255.
Definition u16_max : N := 65535.

(** [major << 16] on a [u32] *)
Definition parse_qdisc_handle (value : string) : Res N :=
  validate_qdisc_handle "temporary qdisc handle" value ≫= λ _,
  major ← ok_or (from_str_radix_16 u32_max (trim_end_matches ":" value))
            "temporary qdisc handle is invalid";
  mret (N.land (N.shiftl major 16) u32_max).

(** The pairs of [as_chunks::<2>()]. *)
Fixpoint hex_pairs (s : string) : Res (list N) :=
  match s with
  | String a (String b rest) =>
      let pair := String a (str1 b) in
      fail_if (negb (utf8_valid pair)) "lower-hex byte string is not ASCII" ≫= λ _,
      byte ← ok_or (from_str_radix_16 u8_max pair) "lower-hex byte string is invalid";
      bytes ← hex_pairs rest;
      mret (byte :: bytes)
  | _ => Ok []
  end.

Definition decode_lower_hex (value : string) : Res (list N) :=
  fail_if (negb (len value mod 2 =? 0)%N) "lower-hex byte string has an odd length" ≫= λ _,
  hex_pairs value.

(** ** [TemporaryTopologyIdentity] *)

Definition PRIVATE_U32_ROOT_FILTER_HANDLE : N := 0x80000000.

Record TemporaryTopologyIdentity := {
  ifb_name : string;
  ifb_alias : string;
  ifb_ifindex : option N;
  target_qdisc_handle : string;
  ifb_qdisc_handle : string;
  ingress_qdisc_handle : string;
  redirect_preference : N;
  redirect_filter_handle : N;
  redirect_action_index : N;
  redirect_action_cookie : string;
}.

#[export] Instance TemporaryTopologyIdentity_eq_dec : EqDecision TemporaryTopologyIdentity.
Proof. solve_decision. Defined.

Definition identity_validate_topology (i : TemporaryTopologyIdentity) : Res unit :=
  permit_interface i.(ifb_name) ≫= λ _,
  fail_if (15 <? len i.(ifb_name))%N "temporary IFB name exceeds the kernel interface limit" ≫= λ _,
  permit_identifier "temporary IFB alias" i.(ifb_alias) ≫= λ _,
  fail_if (bool_decide (i.(ifb_ifindex) = Some 0%N)) "temporary IFB ifindex is invalid" ≫= λ _,
  validate_qdisc_handle "temporary target qdisc handle" i.(target_qdisc_handle) ≫= λ _,
  validate_qdisc_handle "temporary IFB qdisc handle" i.(ifb_qdisc_handle) ≫= λ _,
  fail_if (String.eqb i.(target_qdisc_handle) i.(ifb_qdisc_handle))
    "temporary CAKE qdisc handles must be distinct" ≫= λ _,
  fail_if (negb (String.eqb i.(ingress_qdisc_handle) "ffff:"))
    "temporary ingress qdisc handle is unsupported" ≫= λ _,
  fail_if (negb ((49152 <=? i.(redirect_preference))%N && (i.(redirect_preference) <=? 50175)%N))
    "temporary redirect preference is outside its private range" ≫= λ _,
  fail_if (negb (N.land i.(redirect_filter_handle) 0xfffff000 =? PRIVATE_U32_ROOT_FILTER_HANDLE)%N
           || (N.land i.(redirect_filter_handle) 0x00000fff =? 0)%N)
    "temporary redirect filter handle is not a terminal node in the private u32 root" ≫= λ _,
  fail_if (negb (N.land i.(redirect_action_index) 0xff000000 =? 0xca000000)%N)
    "temporary redirect action index is outside its private range" ≫= λ _,
  permit_hex "temporary redirect action cookie" i.(redirect_action_cookie) 32.

(** [&s[..n]] of a text of at least [n] ASCII bytes *)
Definition prefix_of (n : nat) (s : string) : string := (split_at n s).1.

Definition planned_for_permit (permit_id : string) : Res TemporaryTopologyIdentity :=
  permit_hex "temporary topology permit id" permit_id 32 ≫= λ _,
  let interface_seed := prefix_of 8 permit_id in
  let handle_seed := prefix_of 3 permit_id in
  preference_seed ← ok_or (from_str_radix_16 u16_max (prefix_of 4 permit_id))
                      "temporary topology preference seed is invalid";
  identity_seed ← ok_or (from_str_radix_16 u32_max (prefix_of 8 permit_id))
                    "temporary topology identity seed is invalid";
  let identity := {|
    ifb_name := "catf" +:+ interface_seed;
    ifb_alias := "cake-autotune-" +:+ permit_id;
    ifb_ifindex := None;
    target_qdisc_handle := "a" +:+ handle_seed +:+ ":";
    ifb_qdisc_handle := "b" +:+ handle_seed +:+ ":";
    ingress_qdisc_handle := "ffff:";
    redirect_preference := 49152 + preference_seed mod 1024;
    redirect_filter_handle :=
      N.lor PRIVATE_U32_ROOT_FILTER_HANDLE (N.max (N.land identity_seed 0x00000fff) 1);
    redirect_action_index := N.lor 0xca000000 (N.land identity_seed 0x00ffffff);
    redirect_action_cookie := permit_id |} in
  identity_validate_topology identity ≫= λ _, mret identity.

(** The identity without the observed ifindex, which no permit determines. *)
Definition without_ifindex (i : TemporaryTopologyIdentity) : TemporaryTopologyIdentity :=
  {| ifb_name := i.(ifb_name); ifb_alias := i.(ifb_alias); ifb_ifindex := None;
     target_qdisc_handle := i.(target_qdisc_handle); ifb_qdisc_handle := i.(ifb_qdisc_handle);
     ingress_qdisc_handle := i.(ingress_qdisc_handle);
     redirect_preference := i.(redirect_preference);
     redirect_filter_handle := i.(redirect_filter_handle);
     redirect_action_index := i.(redirect_action_index);
     redirect_action_cookie := i.(redirect_action_cookie) |}.

Definition identity_validate_for_permit (i : TemporaryTopologyIdentity) (permit_id : string)
    : Res unit :=
  identity_validate_topology i ≫= λ _,
  expected ← planned_for_permit permit_id;
  fail_if (negb (bool_decide (without_ifindex i = without_ifindex expected)))
    "temporary topology identity does not match its permit".

Definition private_namespace (i : TemporaryTopologyIdentity) : Res PrivateNamespaceRecord :=
  identity_validate_topology i ≫= λ _,
  target ← parse_qdisc_handle i.(target_qdisc_handle);
  ifb ← parse_qdisc_handle i.(ifb_qdisc_handle);
  ingress ← parse_qdisc_handle i.(ingress_qdisc_handle);
  cookie ← decode_lower_hex i.(redirect_action_cookie);
  let namespace := {|
    link_names := [i.(ifb_name)];
    link_aliases := [i.(ifb_alias)];
    qdisc_handles := [target; ifb; ingress];
    filter_handles := [PRIVATE_U32_ROOT_FILTER_HANDLE; i.(redirect_filter_handle)];
    filter_priorities := [i.(redirect_preference)];
    action_identities := [{| pa_kind := "mirred"; pa_index := i.(redirect_action_index);
                             pa_cookie := Some cookie |}] |} in
  map_error_text (namespace_validate namespace) ≫= λ _,
  mret namespace.

Definition redirect_filter_tc_handle (i : TemporaryTopologyIdentity) : Res string :=
  identity_validate_topology i ≫= λ _,
  mret ("800::" +:+ show_hex (N.land i.(redirect_filter_handle) 0x00000fff)).

(** *** Trying it *)

Definition sample_id : string := "0123456789abcdef0123456789abcdef".

Example plan_sample :
  (planned_for_permit sample_id ≫= private_namespace)
  = Ok {| link_names := ["catf01234567"];
          link_aliases := ["cake-autotune-0123456789abcdef0123456789abcdef"];
          qdisc_handles := [0xa0120000; 0xb0120000; 0xffff0000]%N;
          filter_handles := [0x80000000; 0x80000567]%N;
          filter_priorities := [49443]%N;
          action_identities := [{| pa_kind := "mirred"; pa_index := 0xca234567;
            pa_cookie := Some [1; 35; 69; 103; 137; 171; 205; 239;
                               1; 35; 69; 103; 137; 171; 205; 239]%N |}] |}.
Proof. by vm_compute. Qed.

Example tc_handle_sample :
  (planned_for_permit sample_id ≫= redirect_filter_tc_handle) = Ok "800::567".
Proof. by vm_compute. Qed.

(** ** Hexadecimal texts *)

Lemma lower_hex_digit c : is_lower_hex c = true →
  ∃ d, to_digit 16 c = Some d ∧ (d < 16)%N ∧ Ascii.eqb c "+" = false ∧ Ascii.eqb c ":" = false.
Proof.
  intros H.
  assert (G : (byte c <? 128)%N = true).
  { apply hex_printable in H. unfold printable in H. reflect_bools. apply N.ltb_lt. lia. }
  assert (T : forallb (λ n, negb (is_lower_hex (chr n)) ||
    match to_digit 16 (chr n) with
    | Some d => (d <? 16)%N && negb (Ascii.eqb (chr n) "+") && negb (Ascii.eqb (chr n) ":")
    | None => false end) (N.of_nat <$> seq 0 128) = true) by by vm_compute.
  apply N.ltb_lt in G.
  pose proof (below_table (λ n, negb (is_lower_hex (chr n)) ||
    match to_digit 16 (chr n) with
    | Some d => (d <? 16)%N && negb (Ascii.eqb (chr n) "+") && negb (Ascii.eqb (chr n) ":")
    | None => false end) 128 (byte c) T G) as P.
  cbv beta in P. rewrite chr_byte, H in P. cbn [negb orb] in P.
  destruct (to_digit 16 c) as [d |]; [| done]. reflect_bools. eauto.
Qed.

Lemma parse_hex_digits_ok max s acc :
  all_bytes is_lower_hex s = true → ((acc + 1) * 16 ^ len s ≤ max + 1)%N →
  ∃ n, parse_hex_digits max acc s = Some n ∧ (acc * 16 ^ len s ≤ n)%N
       ∧ (n < (acc + 1) * 16 ^ len s)%N.
Proof.
  revert acc. induction s as [| c s IH]; intros acc Hs Hm; cbn [parse_hex_digits].
  { exists acc. split; [done |]. change (len "") with 0%N. rewrite !N.pow_0_r. lia. }
  cbn [all_bytes] in Hs. apply andb_true_iff in Hs as [Hc Hs].
  destruct (lower_hex_digit c Hc) as (d & -> & Hd & _). cbn [mbind option_bind].
  rewrite len_cons, N.add_1_l, N.pow_succ_r' in Hm |- *.
  assert (1 ≤ 16 ^ len s)%N by (apply N.lt_pred_le, N.neq_0_lt_0, N.pow_nonzero; lia).
  assert (acc * 16 + d ≤ max)%N by nia.
  rewrite (proj2 (N.leb_le _ _)) by done.
  destruct (IH (acc * 16 + d)%N Hs) as (n & Hn & Hl & Hu); [nia |].
  exists n. split_and?; [done | nia | nia].
Qed.

Lemma from_hex_ok max s :
  s ≠ "" → all_bytes is_lower_hex s = true → (16 ^ len s ≤ max + 1)%N →
  ∃ n, from_str_radix_16 max s = Some n ∧ (n < 16 ^ len s)%N.
Proof.
  intros Hn Hs Hm. destruct s as [| c s]; [done |]. unfold from_str_radix_16.
  pose proof Hs as Hs'. cbn [all_bytes] in Hs'. apply andb_true_iff in Hs' as [Hc _].
  destruct (lower_hex_digit c Hc) as (_ & _ & _ & -> & _).
  destruct (parse_hex_digits_ok max (String c s) 0 Hs) as (n & ? & ? & ?); [lia |].
  exists n. split; [done | lia].
Qed.

(** Every even lower-hex text decodes, two digits to a byte. *)
Lemma hex_pairs_ok n s :
  String.length s = (2 * n)%nat → all_bytes is_lower_hex s = true →
  ∃ bytes, hex_pairs s = Ok bytes ∧ length bytes = n.
Proof.
  revert s. induction n as [| n IH]; intros s Hl Hs.
  - destruct s; [| done]. by exists [].
  - destruct s as [| a [| b s]]; simpl in Hl; try lia.
    cbn [all_bytes] in Hs. apply andb_true_iff in Hs as [Ha Hs]. apply andb_true_iff in Hs as [Hb Hs].
    destruct (IH s) as (bytes & Hbytes & Hlen); [lia | done |].
    assert (Hp : all_bytes is_lower_hex (String a (str1 b)) = true)
      by (cbn [all_bytes str1]; by rewrite Ha, Hb).
    destruct (from_hex_ok u8_max (String a (str1 b))) as (x & Hx & _);
      [done | done | by vm_compute |].
    exists (x :: bytes). cbn [hex_pairs]. rewrite utf8_ascii.
    + rewrite Hx, Hbytes. simpl. by rewrite Hlen.
    + apply (all_bytes_impl is_lower_hex); [| done]. intros c Hc. apply hex_printable in Hc.
      unfold printable in Hc. reflect_bools. apply N.ltb_lt. lia.
Qed.

Lemma strip_colon s : contains ":" s = false → strip_suffix_char ":" (s +:+ ":") = Some s.
Proof.
  induction s as [| c s IH]; [done |]. rewrite contains_cons. intros [_ H]%orb_false_iff.
  cbn [String.append strip_suffix_char].
  destruct (s +:+ ":") eqn:E; [by destruct s |]. by rewrite IH.
Qed.

Lemma trim_colon s : s ≠ "" → contains ":" s = false → trim_end_matches ":" (s +:+ ":") = s.
Proof.
  induction s as [| c s IH]; [done |]. intros _. rewrite contains_cons.
  intros [Hc H]%orb_false_iff. cbn [String.append trim_end_matches].
  destruct s as [| d s]; [by rewrite Ascii.eqb_sym, Hc |].
  rewrite IH; [done | done | done].
Qed.

(** A four-digit handle text is a valid handle with its value in the major half. *)
Lemma qdisc_handle_ok name hex :
  len hex = 4%N → all_bytes is_lower_hex hex = true →
  validate_qdisc_handle name (hex +:+ ":") = Ok tt
  ∧ ∃ n, from_str_radix_16 u32_max hex = Some n ∧ (n < 65536)%N
       ∧ parse_qdisc_handle (hex +:+ ":") = Ok (N.shiftl n 16).
Proof.
  intros Hl Hs.
  assert (Hc : contains ":" hex = false) by (by apply (contains_class is_lower_hex)).
  assert (Hn : hex ≠ "") by (by intros ->).
  assert (Hv : ∀ name, validate_qdisc_handle name (hex +:+ ":") = Ok tt).
  { intros nm. unfold validate_qdisc_handle. rewrite strip_colon by done. cbn [ok_or mbind result_bind].
    by rewrite (proj2 (String.eqb_neq _ _) Hn), Hl, Hs. }
  split; [apply Hv |].
  destruct (from_hex_ok u32_max hex) as (n & Hx & Hb); [done | done | by rewrite Hl; vm_compute |].
  rewrite Hl in Hb. change (16 ^ 4)%N with 65536%N in Hb. exists n. split_and?; [done | done |].
  unfold parse_qdisc_handle. rewrite Hv, trim_colon, Hx by done. cbn [ok_or mbind result_bind].
  do 2 f_equal. change u32_max with (N.ones 32). rewrite N.land_ones, N.mod_small; [done |].
  rewrite N.shiftl_mul_pow2. change (2 ^ 16)%N with 65536%N. change (2 ^ 32)%N with 4294967296%N. lia.
Qed.

(** The handle text [d] plus three digits: its major lies in the block of [d]. *)
Lemma tagged_handle_ok name c d hex :
  is_lower_hex c = true → to_digit 16 c = Some d →
  len hex = 3%N → all_bytes is_lower_hex hex = true →
  validate_qdisc_handle name (str1 c +:+ hex +:+ ":") = Ok tt
  ∧ ∃ n, parse_qdisc_handle (str1 c +:+ hex +:+ ":") = Ok (N.shiftl n 16)
       ∧ (d * 4096 ≤ n)%N ∧ (n < (d + 1) * 4096)%N.
Proof.
  intros Hc Hd Hl Hs.
  assert (Hs' : all_bytes is_lower_hex (String c hex) = true) by (cbn [all_bytes]; by rewrite Hc, Hs).
  destruct (qdisc_handle_ok name (String c hex)) as [Hv (n & Hn & Hb & Hp)];
    [rewrite len_cons; lia | done |].
  split; [exact Hv |]. exists n. split; [exact Hp |].
  unfold from_str_radix_16 in Hn.
  destruct (lower_hex_digit c Hc) as (d' & Hd' & H16 & Hplus & _). rewrite Hplus in Hn.
  cbn [parse_hex_digits] in Hn. rewrite Hd in Hd', Hn. simplify_eq. cbn [mbind option_bind] in Hn.
  rewrite (proj2 (N.leb_le _ _)) in Hn by (unfold u32_max; lia).
  destruct (parse_hex_digits_ok u32_max hex (0 * 16 + d') Hs) as (m & Hm & H1 & H2).
  { rewrite Hl. unfold u32_max. change (16 ^ 3)%N with 4096%N. lia. }
  rewrite Hl in H1, H2. change (16 ^ 3)%N with 4096%N in *. rewrite Hn in Hm. simplify_eq. lia.
Qed.

Lemma prefix_ok (p : ascii → bool) n s :
  all_bytes p s = true → (N.of_nat n ≤ len s)%N →
  all_bytes p (prefix_of n s) = true ∧ len (prefix_of n s) = N.of_nat n.
Proof.
  unfold prefix_of, len. revert s. induction n as [| n IH]; intros s Hs Hn; [by destruct s |].
  destruct s as [| c s]; simpl in Hn; [lia |]. cbn [all_bytes] in Hs.
  apply andb_true_iff in Hs as [Hc Hs]. destruct (IH s Hs) as [H1 H2]; [lia |].
  cbn [split_at]. destruct (split_at n s) as [l r]. cbn [fst all_bytes String.length] in *.
  rewrite Hc, H1. split; [done | lia].
Qed.

(** ** Bits of the private ranges *)

Lemma land_low n k mask : (n < 2 ^ k)%N → N.land (N.ones k) mask = 0%N → N.land n mask = 0%N.
Proof.
  intros Hn Hm. rewrite <- (N.mod_small n (2 ^ k)) by done.
  by rewrite <- N.land_ones, <- N.land_assoc, Hm, N.land_0_r.
Qed.

Lemma land_mask_lt n k : (N.land n (N.ones k) < 2 ^ k)%N.
Proof. rewrite N.land_ones. by apply N.mod_lt, N.pow_nonzero. Qed.

(** A filter node below the private u32 root. *)
Lemma filter_handle_bits n : (n < 4096)%N →
  N.land (N.lor PRIVATE_U32_ROOT_FILTER_HANDLE n) 0xfffff000 = PRIVATE_U32_ROOT_FILTER_HANDLE
  ∧ N.land (N.lor PRIVATE_U32_ROOT_FILTER_HANDLE n) 0xfff = n.
Proof.
  intros Hn. rewrite !N.land_lor_distr_l. split.
  - rewrite (land_low n 12) by done. done.
  - change 0xfff%N with (N.ones 12) at 2. rewrite N.land_ones, N.mod_small by done. done.
Qed.

Lemma action_index_bits n : (n < 2 ^ 24)%N →
  N.land (N.lor 0xca000000 n) 0xff000000 = 0xca000000%N ∧ N.lor 0xca000000 n ≠ 0%N.
Proof.
  intros Hn. rewrite N.land_lor_distr_l, (land_low n 24) by done. split; [done |].
  intros [? _]%N.lor_eq_0_iff. done.
Qed.

(** ** The plan of a permit *)

Lemma permit_hex_ok name s n : permit_hex name s n = Ok tt ↔
  len s = n ∧ all_bytes is_lower_hex s = true.
Proof.
  unfold permit_hex, evidence_hex. rewrite fail_if_ok, orb_false_iff, !negb_false_iff, N.eqb_eq. done.
Qed.

Lemma hex_extra extra c : is_lower_hex c = true →
  (is_ascii_alphanumeric c || contains c extra)%bool = true.
Proof.
  unfold is_lower_hex, is_ascii_alphanumeric, is_ascii_lowercase.
  destruct (is_ascii_digit c); [done |]. cbn [orb]. intros H. reflect_bools.
  rewrite (proj2 (N.leb_le 97 _)), (proj2 (N.leb_le _ 122)) by lia. done.
Qed.

(** What a planned identity is, with the numbers its texts stand for. *)
Record planned (permit_id : string) (i : TemporaryTopologyIdentity) (target ifb : N) : Prop := {
  pl_hex : len permit_id = 32%N ∧ all_bytes is_lower_hex permit_id = true;
  pl_name : len i.(ifb_name) = 12%N
    ∧ all_bytes (λ c, is_ascii_alphanumeric c || contains c "._:@-") i.(ifb_name) = true;
  pl_alias : i.(ifb_alias) = "cake-autotune-" +:+ permit_id;
  pl_ifindex : i.(ifb_ifindex) = None;
  pl_target : (∀ name, validate_qdisc_handle name i.(target_qdisc_handle) = Ok tt)
    ∧ parse_qdisc_handle i.(target_qdisc_handle) = Ok (N.shiftl target 16)
    ∧ (40960 ≤ target)%N ∧ (target < 45056)%N;
  pl_ifb : (∀ name, validate_qdisc_handle name i.(ifb_qdisc_handle) = Ok tt)
    ∧ parse_qdisc_handle i.(ifb_qdisc_handle) = Ok (N.shiftl ifb 16)
    ∧ (45056 ≤ ifb)%N ∧ (ifb < 49152)%N;
  pl_ingress : i.(ingress_qdisc_handle) = "ffff:";
  pl_preference : (49152 ≤ i.(redirect_preference))%N ∧ (i.(redirect_preference) ≤ 50175)%N;
  pl_filter : ∃ node, i.(redirect_filter_handle) = N.lor PRIVATE_U32_ROOT_FILTER_HANDLE node
    ∧ (1 ≤ node)%N ∧ (node < 4096)%N;
  pl_action : ∃ low, i.(redirect_action_index) = N.lor 0xca000000 low ∧ (low < 2 ^ 24)%N;
  pl_cookie : i.(redirect_action_cookie) = permit_id;
}.

Lemma planned_valid p i target ifb : planned p i target ifb → identity_validate_topology i = Ok tt.
Proof.
  intros [[Hl Hh] [Hn Hc] Ha Hx (Ht & Ht' & ? & ?) (Hb & Hb' & ? & ?) Hg [? ?] Hf Ho Hk].
  destruct Hf as (node & Hf & ? & ?), Ho as (low & Ho & ?).
  unfold identity_validate_topology, permit_interface. rewrite Hn, Hc, Hx, Hg, Ht, Hb, Ha, Hk, Hf, Ho.
  assert (String.eqb (ifb_name i) "" = false) as -> by (apply String.eqb_neq; intros E; by rewrite E in Hn).
  assert (permit_identifier "temporary IFB alias" ("cake-autotune-" +:+ p) = Ok tt) as ->.
  { unfold permit_identifier. rewrite len_append, Hl.
    assert (Hp : all_bytes (λ c, is_ascii_alphanumeric c || contains c "._-") p = true).
    { apply (all_bytes_impl is_lower_hex); [apply (hex_extra "._-") | done]. }
    rewrite all_bytes_append, Hp. by vm_compute. }
  assert (String.eqb (target_qdisc_handle i) (ifb_qdisc_handle i) = false) as ->.
  { apply String.eqb_neq. intros E. rewrite E, Hb' in Ht'. injection Ht' as E'.
    rewrite !N.shiftl_mul_pow2 in E'. change (2 ^ 16)%N with 65536%N in E'. lia. }
  rewrite (proj2 (N.leb_le 49152 _)), (proj2 (N.leb_le _ 50175)) by done.
  destruct (filter_handle_bits node) as [-> ->]; [done |].
  destruct (action_index_bits low) as [-> _]; [done |].
  assert (permit_hex "temporary redirect action cookie" p 32 = Ok tt) as -> by by apply permit_hex_ok.
  rewrite (proj2 (N.eqb_neq node 0)) by lia. done.
Qed.

(** Every permit id has a plan, and the plan is private. *)
Lemma planned_for_permit_ok p :
  permit_hex "temporary topology permit id" p 32 = Ok tt →
  ∃ i target ifb, planned_for_permit p = Ok i ∧ planned p i target ifb.
Proof.
  intros Hp. pose proof Hp as [Hl Hh]%permit_hex_ok. unfold planned_for_permit. rewrite Hp.
  destruct (prefix_ok is_lower_hex 8 p Hh) as [H8 L8]; [lia |].
  destruct (prefix_ok is_lower_hex 4 p Hh) as [H4 L4]; [lia |].
  destruct (prefix_ok is_lower_hex 3 p Hh) as [H3 L3]; [lia |].
  assert (∀ s n, len s = N.of_nat (S n) → s ≠ "") as Hne by by intros s n Hs ->.
  destruct (from_hex_ok u16_max (prefix_of 4 p)) as (n4 & -> & _);
    [by eapply Hne | done | by rewrite L4; vm_compute |].
  destruct (from_hex_ok u32_max (prefix_of 8 p)) as (n8 & -> & _);
    [by eapply Hne | done | by rewrite L8; vm_compute |].
  cbn [ok_or mbind result_bind].
  pose proof (tagged_handle_ok "" "a" 10 _ eq_refl eq_refl L3 H3) as [_ (ta & Pa & ? & ?)].
  pose proof (tagged_handle_ok "" "b" 11 _ eq_refl eq_refl L3 H3) as [_ (tb & Pb & ? & ?)].
  set (i := {| ifb_name := _ |}). assert (Hi : planned p i ta tb).
  { subst i. split; cbn [ifb_name ifb_alias ifb_ifindex target_qdisc_handle ifb_qdisc_handle
      ingress_qdisc_handle redirect_preference redirect_filter_handle redirect_action_index
      redirect_action_cookie].
    - done.
    - rewrite len_append, all_bytes_append, L8. split; [done |]. apply andb_true_iff. split; [done |].
      apply (all_bytes_impl is_lower_hex); [apply (hex_extra "._:@-") | done].
    - done.
    - done.
    - split_and?; [intros nm; by apply (tagged_handle_ok nm "a" 10) | done | lia | lia].
    - split_and?; [intros nm; by apply (tagged_handle_ok nm "b" 11) | done | lia | lia].
    - done.
    - pose proof (N.mod_lt n4 1024 ltac:(done)) as Hm. revert Hm.
      generalize (n4 mod 1024)%N. lia.
    - eexists. split; [done |]. pose proof (land_mask_lt n8 12) as Hm.
      change (N.ones 12) with 0xfff%N in Hm. change (2 ^ 12)%N with 4096%N in Hm. lia.
    - eexists. split; [done |]. apply (land_mask_lt n8 24).
    - done. }
  exists i, ta, tb. by rewrite (planned_valid p i ta tb Hi).
Qed.

Lemma short_interface label s : len s = 12%N →
  all_bytes (λ c, is_ascii_alphanumeric c || contains c "._:@-") s = true →
  validate_interface label s = Ok tt.
Proof.
  intros Hl Hs. unfold validate_interface, topology_identifier. rewrite Hl, Hs.
  rewrite (proj2 (String.eqb_neq _ _)); [done |]. by intros ->.
Qed.

Lemma hex_alias label p : len p = 32%N → all_bytes is_lower_hex p = true →
  validate_alias label ("cake-autotune-" +:+ p) = Ok tt.
Proof.
  intros Hl Hh. unfold validate_alias. rewrite len_append, all_bytes_append, Hl.
  rewrite (all_bytes_impl is_lower_hex graphic_or_space p); [done | | done].
  intros c Hx. apply hex_printable in Hx. unfold printable in Hx. unfold graphic_or_space, in_range.
  reflect_bools. apply andb_true_iff. rewrite !N.leb_le. lia.
Qed.

(** The reservation of a plan is one the kernel backend accepts. *)
Lemma planned_namespace p i target ifb :
  planned p i target ifb →
  ∃ ns, private_namespace i = Ok ns
    ∧ ns.(link_names) = [i.(ifb_name)] ∧ ns.(link_aliases) = [i.(ifb_alias)]
    ∧ ns.(qdisc_handles) = [N.shiftl target 16; N.shiftl ifb 16; 0xffff0000%N]
    ∧ ns.(filter_handles) = [PRIVATE_U32_ROOT_FILTER_HANDLE; i.(redirect_filter_handle)]
    ∧ ns.(filter_priorities) = [i.(redirect_preference)].
Proof.
  intros H. pose proof (planned_valid p i target ifb H) as Hv.
  destruct H as [[Hl Hh] [Hn Hc] Ha _ (_ & Ht & ? & ?) (_ & Hb & ? & ?) Hg [? ?] Hf Ho Hk].
  destruct Hf as (node & Hf & ? & ?), Ho as (low & Ho & ?).
  destruct (hex_pairs_ok 16 p) as (bytes & Hbytes & Hlen); [unfold len in Hl; lia | done |].
  assert (Hcookie : decode_lower_hex i.(redirect_action_cookie) = Ok bytes).
  { unfold decode_lower_hex. by rewrite Hk, Hl, Hbytes. }
  unfold private_namespace. rewrite Hv, Ht, Hb, Hg, Hcookie.
  change (parse_qdisc_handle "ffff:") with (Ok (E:=string) 0xffff0000%N).
  cbn [mbind result_bind]. set (ns := {| link_names := _ |}).
  assert (Hns : namespace_validate ns = Ok tt); [| rewrite Hns; by exists ns].
  subst ns. unfold namespace_validate. rewrite !then_ok, !fail_if_ok, !each_ok.
  unfold ensure_unique, identity_counts.
  cbn [link_names link_aliases qdisc_handles filter_handles filter_priorities action_identities].
  rewrite !fail_if_ok, !repeats_nil, !orb_false_iff, !bool_decide_eq_false.
  assert (redirect_filter_handle i ≠ 0%N ∧ redirect_filter_handle i ≠ PRIVATE_U32_ROOT_FILTER_HANDLE)
    as [? ?].
  { destruct (filter_handle_bits node) as [_ E]; [done |]. rewrite <- Hf in E.
    split; intros E'; rewrite E' in E; change (0 = node)%N in E; lia. }
  assert (ifb_name i ≠ ifb_alias i).
  { intros E. rewrite Ha in E. apply (f_equal len) in E. rewrite len_append, Hn, Hl in E. done. }
  rewrite !N.shiftl_mul_pow2. change (2 ^ 16)%N with 65536%N.
  split_and?; repeat (apply Forall_cons; split); repeat apply Forall_nil; try done.
  - by apply short_interface.
  - rewrite Ha. by apply hex_alias.
  - set_unfold. lia.
  - set_unfold. intros [E | [E | []]]; [done | congruence].
  - set_unfold. lia.
  - unfold action_validate. cbn [pa_kind pa_index pa_cookie]. rewrite Ho.
    destruct (action_index_bits low) as [_ E]; [done |]. apply N.eqb_neq in E as ->.
    cbn [is_some_and]. rewrite Hlen. by destruct bytes.
  - apply NoDup_singleton.
  - apply NoDup_singleton.
  - repeat constructor; set_unfold; lia.
  - repeat constructor; set_unfold; [intros [? | []]; congruence | tauto].
  - apply NoDup_singleton.
  - cbn [app]. repeat constructor; set_unfold; [intros [? | []]; congruence | tauto].
Qed.

(** An identity validates for a permit exactly when it is the permit's plan, up to
    the observed ifindex. *)
Lemma identity_for_permit_ok i p :
  identity_validate_for_permit i p = Ok tt ↔
  identity_validate_topology i = Ok tt
  ∧ ∃ e, planned_for_permit p = Ok e ∧ without_ifindex i = without_ifindex e.
Proof.
  unfold identity_validate_for_permit. rewrite then_ok. split; intros [Hv H]; (split; [done |]).
  - apply bind_ok_inv in H as (e & He & H). exists e. split; [done |].
    apply fail_if_ok in H. by reflect_bools.
  - destruct H as (e & -> & E). cbn [mbind result_bind]. by rewrite bool_decide_eq_true_2.
Qed.

Lemma planned_for_permit_inv p i : planned_for_permit p = Ok i →
  ∃ target ifb, planned p i target ifb.
Proof.
  intros H. pose proof H as H'. unfold planned_for_permit in H'. apply then_ok in H' as [Hp _].
  destruct (planned_for_permit_ok p Hp) as (j & t & b & Hj & Hb). rewrite Hj in H. simplify_eq. eauto.
Qed.

(** Observing the link of a plan does not change whose plan it is. *)
Definition observed (i : TemporaryTopologyIdentity) (ifindex : N) : TemporaryTopologyIdentity :=
  {| ifb_name := i.(ifb_name); ifb_alias := i.(ifb_alias); ifb_ifindex := Some ifindex;
     target_qdisc_handle := i.(target_qdisc_handle); ifb_qdisc_handle := i.(ifb_qdisc_handle);
     ingress_qdisc_handle := i.(ingress_qdisc_handle);
     redirect_preference := i.(redirect_preference);
     redirect_filter_handle := i.(redirect_filter_handle);
     redirect_action_index := i.(redirect_action_index);
     redirect_action_cookie := i.(redirect_action_cookie) |}.

Lemma validate_observed i n :
  identity_validate_topology i = Ok tt → n ≠ 0%N →
  identity_validate_topology (observed i n) = Ok tt.
Proof.
  unfold identity_validate_topology. cbn [observed ifb_name ifb_alias ifb_ifindex target_qdisc_handle
    ifb_qdisc_handle ingress_qdisc_handle redirect_preference redirect_filter_handle
    redirect_action_index redirect_action_cookie].
  rewrite !then_ok, !fail_if_ok, !bool_decide_eq_false. intros H Hn. destruct_and?.
  split_and?; try done. congruence.
Qed.

(** ** Properties *)

(** C34: every permit id of 32 lowercase hexadecimal digits has a plan; the plan
    belongs to the permit, before and after its link is observed; the kernel
    namespace it reserves is accepted by the kernel backend, with three distinct
    qdisc majors, a filter node in the private u32 root, a preference and an action
    index inside their private ranges; and the filter has a [tc] handle. *)
Theorem planned_topology_private p :
  permit_hex "temporary topology permit id" p 32 = Ok tt →
  ∃ i ns, planned_for_permit p = Ok i ∧ private_namespace i = Ok ns
    ∧ identity_validate_for_permit i p = Ok tt
    ∧ (∀ n, n ≠ 0%N → identity_validate_for_permit (observed i n) p = Ok tt)
    ∧ NoDup ns.(qdisc_handles) ∧ length ns.(qdisc_handles) = 3%nat
    ∧ Forall (λ h, N.land h 0xffff = 0%N ∧ is_u32 h) ns.(qdisc_handles)
    ∧ Forall (λ h, N.land h 0xfffff000 = PRIVATE_U32_ROOT_FILTER_HANDLE) ns.(filter_handles)
    ∧ (49152 ≤ i.(redirect_preference))%N ∧ (i.(redirect_preference) ≤ 50175)%N
    ∧ N.land i.(redirect_action_index) 0xff000000 = 0xca000000%N
    ∧ is_ok (redirect_filter_tc_handle i) = true.
Proof.
  intros Hp. destruct (planned_for_permit_ok p Hp) as (i & t & b & Hi & Hpl).
  destruct (planned_namespace p i t b Hpl) as (ns & Hns & _ & _ & Hq & Hf & _).
  pose proof (planned_valid p i t b Hpl) as Hv. exists i, ns.
  destruct Hpl as [_ _ _ _ (_ & _ & ? & ?) (_ & _ & ? & ?) _ [? ?] (node & E & ? & ?) (low & E' & ?) _].
  assert (Hshift : ∀ n, (n < 65536)%N → N.land (N.shiftl n 16) 0xffff = 0%N ∧ is_u32 (N.shiftl n 16)).
  { intros n Hn. rewrite N.shiftl_mul_pow2. split; [| unfold is_u32, u32_max; simpl; lia].
    change 0xffff%N with (N.ones 16). by rewrite N.land_ones, N.Div0.mod_mul. }
  split_and?; try done.
  - apply identity_for_permit_ok. eauto.
  - intros n Hn. apply identity_for_permit_ok. split; [by apply validate_observed |]. by exists i.
  - rewrite Hq, !N.shiftl_mul_pow2. change (2 ^ 16)%N with 65536%N.
    repeat constructor; set_unfold; lia.
  - by rewrite Hq.
  - rewrite Hq. repeat constructor; try apply Hshift; try lia; done.
  - rewrite Hf, E. destruct (filter_handle_bits node) as [Eb _]; [done |]. by repeat constructor.
  - rewrite E'. by destruct (action_index_bits low).
  - unfold redirect_filter_tc_handle. by rewrite Hv.
Qed.

(** A temporary topology has at most one owner: an identity, with or without its
    observed link, validates for only one permit id, so no calibration can clean up
    or adopt the link, qdiscs, filter or action of another. *)
Theorem topology_owner_unique i j p q :
  identity_validate_for_permit i p = Ok tt → identity_validate_for_permit j q = Ok tt →
  (i.(ifb_alias) = j.(ifb_alias) ∨ i.(redirect_action_cookie) = j.(redirect_action_cookie)) →
  p = q ∧ without_ifindex i = without_ifindex j.
Proof.
  rewrite !identity_for_permit_ok. intros (_ & e & He & Ei) (_ & f & Hf & Ej) H.
  destruct (planned_for_permit_inv _ _ He) as (? & ? & [_ _ A1 _ _ _ _ _ _ _ C1]).
  destruct (planned_for_permit_inv _ _ Hf) as (? & ? & [_ _ A2 _ _ _ _ _ _ _ C2]).
  assert (p = q) as ->; [| rewrite He in Hf; injection Hf as <-; by rewrite Ei, Ej].
  pose proof (f_equal ifb_alias Ei) as X1. pose proof (f_equal ifb_alias Ej) as X2.
  pose proof (f_equal redirect_action_cookie Ei) as Y1.
  pose proof (f_equal redirect_action_cookie Ej) as Y2. simpl in X1, X2, Y1, Y2.
  destruct H as [H | H]; [| congruence].
  rewrite X1, X2, A1, A2 in H. cbn [String.append] in H. by simplify_eq.
Qed.

(** ** Witnesses *)

Lemma planned_topology_private_witness :
  ∃ i ns, planned_for_permit sample_id = Ok i ∧ private_namespace i = Ok ns.
Proof.
  destruct (planned_topology_private sample_id) as (i & ns & H & H' & _); [by vm_compute |].
  by exists i, ns.
Defined.

Definition sample_plan (p : string) : TemporaryTopologyIdentity :=
  match planned_for_permit p with
  | Ok i => i
  | Err _ => {| ifb_name := ""; ifb_alias := ""; ifb_ifindex := None; target_qdisc_handle := "";
                ifb_qdisc_handle := ""; ingress_qdisc_handle := ""; redirect_preference := 0;
                redirect_filter_handle := 0; redirect_action_index := 0;
                redirect_action_cookie := "" |}
  end.

Lemma topology_owner_unique_witness :
  sample_id = sample_id
  ∧ without_ifindex (sample_plan sample_id) = without_ifindex (observed (sample_plan sample_id) 7).
Proof.
  refine (topology_owner_unique (sample_plan sample_id) (observed (sample_plan sample_id) 7)
            sample_id sample_id _ _ (or_introl _)); by vm_compute.
Defined.
