(* ===== verification/RuntimePermit.v ===== *)
(** * Permits of a runtime override

    Models [RuntimeRateBounds], [RuntimePermitKind], [AbsentRuntimeBaseline],
    [RuntimeBaseline], [AutotuneRuntimePermit] and [RuntimeSnapshot] of
    [operations/autotune_runtime.rs]: what a coordinator allows a worker to do to
    an instance, and what the instance must restore afterwards. *)

From S2P Require Import Prelude RateLimits RustStr SchedRecord PercentRecord LineRecord Vocabulary RustNet CapturePolicy OperationRequest JobJournal RuntimeControl PrivateNamespace TemporaryTopology.
Local Open Scope string_scope.

(** ** [LinkKind] of [autotune.rs] *)

Inductive LinkKind := Ethernet | Pppoe | CellularLink | UnknownLink.

#[export] Instance LinkKind_eq_dec : EqDecision LinkKind.
Proof. solve_decision. Defined.

Definition LinkKind_parse : string → option LinkKind := match_str [
  ("ethernet", Ethernet);
  ("pppoe", Pppoe);
  ("cellular", CellularLink);
  ("wwan", CellularLink);
  ("unknown", UnknownLink)].

Definition LinkKind_as_str (value : LinkKind) : string :=
  match value with
  | Ethernet => "ethernet"
  | Pppoe => "pppoe"
  | CellularLink => "cellular"
  | UnknownLink => "unknown"
  end.

#[export, refine] Instance LinkKind_wire : WireName LinkKind :=
  {| wire_str := LinkKind_as_str; wire_parse := LinkKind_parse |}.
Proof. all: by intros []. Defined.

(** ** Helpers *)

Definition speedtest_unshaped_topology (direction : SpeedtestDirection) : MeasurementTopology :=
  match direction with
  | Download => RawDownload
  | Upload => RawUpload
  | Both => RawBoth
  end.

Definition valid_number (field prefix : string) : bool :=
  is_some_and (λ number, is_some_and (λ parsed, negb (parsed =? 0)%N && String.eqb (show parsed) number)
                           (parse_uint u32_max number))
    (strip_prefix prefix field).

Definition nth_field (fields : list string) (i : nat) : string := nth i fields "".

(** The [valid_shape] of [require_route_identity]. *)
Definition route_shape (fields : list string) : bool :=
  (Nat.eqb (length fields) 8 && String.eqb (nth_field fields 0) "explicit"
   && valid_number (nth_field fields 7) "ifindex=")
  || (Nat.eqb (length fields) 7 && String.eqb (nth_field fields 0) "mwan3").

Definition require_route_identity (value : string) : Res unit :=
  fail_if (String.eqb value "" || (512 <? len value)%N || any_byte is_ascii_control value)
    "runtime permit route identity is invalid" ≫= λ _,
  if contains "=" value then
    let fields := split_on "|" value in
    fail_if (negb (route_shape fields) || existsb (contains "=") (firstn 6 fields)
             || negb (valid_number (nth_field fields 6) "mask="))
      "runtime permit route identity is invalid"
  else Ok tt.

(** ** [RuntimeRateBounds] *)

Record RuntimeRateBounds := { minimum_kbps : N; maximum_kbps : N }.

#[export] Instance RuntimeRateBounds_eq_dec : EqDecision RuntimeRateBounds.
Proof. solve_decision. Defined.

Definition bounds_validate (b : RuntimeRateBounds) (direction : string) : Res unit :=
  fail_if ((b.(minimum_kbps) <? 100)%N || (b.(maximum_kbps) <? b.(minimum_kbps))%N
           || (MAX_RATE_KBPS <? b.(maximum_kbps))%N)
    (direction +:+ " runtime permit rate bounds are invalid").

Definition bounds_contains (b : RuntimeRateBounds) (value : N) : bool :=
  (b.(minimum_kbps) <=? value)%N && (value <=? b.(maximum_kbps))%N.

(** ** [RuntimePermitKind] *)

Inductive RuntimePermitKind := AutotunePermit | SpeedtestUnshaped.

#[export] Instance RuntimePermitKind_eq_dec : EqDecision RuntimePermitKind.
Proof. solve_decision. Defined.

Definition RuntimePermitKind_as_str (value : RuntimePermitKind) : string :=
  match value with AutotunePermit => "autotune" | SpeedtestUnshaped => "speedtest_unshaped" end.

Definition RuntimePermitKind_parse : string → option RuntimePermitKind :=
  match_str [("autotune", AutotunePermit); ("speedtest_unshaped", SpeedtestUnshaped)].

#[export, refine] Instance RuntimePermitKind_wire : WireName RuntimePermitKind :=
  {| wire_str := RuntimePermitKind_as_str; wire_parse := RuntimePermitKind_parse |}.
Proof. all: by intros []. Defined.

(** ** [AbsentRuntimeBaseline] *)

Record AbsentRuntimeBaseline := {
  ab_planned_sqm_section : string;
  ab_target_interface : string;
  ab_target_ifindex : N;
  ab_route_fingerprint : string;
  ab_config_fingerprint : string;
  ab_sqm_fingerprint : string;
  ab_kernel_topology_fingerprint : string;
  ab_kernel_namespace_seed : string;
}.

#[export] Instance AbsentRuntimeBaseline_eq_dec : EqDecision AbsentRuntimeBaseline.
Proof. solve_decision. Defined.

Definition i32_max : N := 2147483647.

Definition absent_validate (b : AbsentRuntimeBaseline) : Res unit :=
  validate_uci_section b.(ab_planned_sqm_section) ≫= λ _,
  permit_interface b.(ab_target_interface) ≫= λ _,
  fail_if ((b.(ab_target_ifindex) =? 0)%N || (i32_max <? b.(ab_target_ifindex))%N)
    "absent runtime baseline target ifindex is invalid" ≫= λ _,
  permit_hex "absent runtime baseline route fingerprint" b.(ab_route_fingerprint) 64 ≫= λ _,
  permit_hex "absent runtime baseline config fingerprint" b.(ab_config_fingerprint) 64 ≫= λ _,
  permit_hex "absent runtime baseline SQM fingerprint" b.(ab_sqm_fingerprint) 64 ≫= λ _,
  permit_hex "absent runtime baseline kernel topology fingerprint"
    b.(ab_kernel_topology_fingerprint) 64 ≫= λ _,
  permit_hex "absent runtime baseline kernel namespace seed" b.(ab_kernel_namespace_seed) 32
    ≫= λ _,
  temporary ← planned_for_permit b.(ab_kernel_namespace_seed);
  fail_if (String.eqb temporary.(ifb_name) b.(ab_target_interface)
           || String.eqb temporary.(ifb_alias) b.(ab_target_interface))
    "absent runtime baseline private namespace collides with its target" ≫= λ _,
  private_namespace temporary ≫= λ _, mret tt.

Inductive RuntimeBaseline (T : Type) :=
  | Managed (managed : T)
  | Absent (absent : AbsentRuntimeBaseline).
Arguments Managed {T} managed.
Arguments Absent {T} absent.

#[export] Instance RuntimeBaseline_eq_dec {T} `{EqDecision T} : EqDecision (RuntimeBaseline T).
Proof. solve_decision. Defined.

Definition RuntimePermitBaseline : Type := RuntimeBaseline MeasurementTopology.

#[export] Instance RuntimePermitBaseline_eq_dec : EqDecision RuntimePermitBaseline.
Proof. unfold RuntimePermitBaseline. apply _. Defined.

(** ** [AutotuneRuntimePermit] *)

Record AutotuneRuntimePermit := {
  rp_dns_server : option Ipv4Addr;
  rp_probe_accounting_required : bool;
  rp_kind : RuntimePermitKind;
  rp_permit_id : string;
  rp_job_id : string;
  rp_worker_run_id : string;
  rp_boot_id : string;
  rp_coordinator_generation : string;
  rp_worker : ProcessIdentity;
  rp_instance_name : string;
  rp_target_interface : string;
  rp_route_identity : string;
  rp_route_fingerprint : string;
  rp_sqm_fingerprint : string;
  rp_deadline_boot_ms : N;
  rp_maximum_sequence : N;
  rp_profile : AutotuneProfile;
  rp_link_kind : LinkKind;
  rp_baseline : RuntimePermitBaseline;
  rp_initial_download_kbps : N;
  rp_initial_upload_kbps : N;
  rp_download_qdisc_kind : RuntimeQdiscKind;
  rp_upload_qdisc_kind : RuntimeQdiscKind;
  rp_allow_bypass_download : bool;
  rp_allow_bypass_upload : bool;
  rp_download_bounds : RuntimeRateBounds;
  rp_upload_bounds : RuntimeRateBounds;
}.

#[export] Instance AutotuneRuntimePermit_eq_dec : EqDecision AutotuneRuntimePermit.
Proof. solve_decision. Defined.

Definition capture_baseline_topology (p : AutotuneRuntimePermit) : MeasurementTopology :=
  match p.(rp_baseline) with Managed topology => topology | Absent _ => RawBoth end.

Definition managed_baseline_topology (p : AutotuneRuntimePermit) : Res MeasurementTopology :=
  match p.(rp_baseline) with
  | Managed topology => Ok topology
  | Absent _ => Err "runtime permit does not have a managed baseline topology"
  end.

Definition permit_unshaped_topology (p : AutotuneRuntimePermit) : option MeasurementTopology :=
  match p.(rp_allow_bypass_download), p.(rp_allow_bypass_upload) with
  | true, false => Some RawDownload
  | false, true => Some RawUpload
  | true, true => Some RawBoth
  | false, false => None
  end.

(** The [match &self.baseline] of [validate]. *)
Definition permit_validate_baseline (p : AutotuneRuntimePermit) : Res unit :=
  match p.(rp_baseline) with
  | Managed topology =>
      fail_if (negb (is_managed_baseline topology))
        "runtime permit baseline must retain at least one managed CAKE direction" ≫= λ _,
      fail_if ((negb (download_is_shaped topology)
                && negb (bool_decide (p.(rp_download_qdisc_kind) = Cake)))
               || (negb (upload_is_shaped topology)
                   && negb (bool_decide (p.(rp_upload_qdisc_kind) = Cake))))
        "a direction missing from the managed baseline must use private CAKE"
  | Absent absent =>
      absent_validate absent ≫= λ _,
      fail_if (negb (bool_decide (p.(rp_kind) = AutotunePermit)))
        "absent runtime baseline is supported only by Auto-Tune permits" ≫= λ _,
      fail_if (negb (String.eqb absent.(ab_route_fingerprint) p.(rp_route_fingerprint)
                     && String.eqb absent.(ab_target_interface) p.(rp_target_interface)
                     && String.eqb absent.(ab_sqm_fingerprint) p.(rp_sqm_fingerprint)
                     && String.eqb absent.(ab_kernel_namespace_seed) p.(rp_permit_id)))
        "absent runtime baseline does not match its permit fingerprints"
  end.

Definition exact_bounds (b : RuntimeRateBounds) (rate : N) : bool :=
  (b.(minimum_kbps) =? rate)%N && (b.(maximum_kbps) =? rate)%N.

(** The canonical policy of an unshaped Speed Test permit. *)
Definition speedtest_policy (p : AutotuneRuntimePermit) : bool :=
  (p.(rp_maximum_sequence) =? 1)%N
  && bool_decide (p.(rp_profile) = BestOverall)
  && bool_decide (p.(rp_link_kind) = UnknownLink)
  && bool_decide (managed_baseline_topology p = Ok ShapedBoth)
  && is_some (permit_unshaped_topology p)
  && exact_bounds p.(rp_download_bounds) p.(rp_initial_download_kbps)
  && exact_bounds p.(rp_upload_bounds) p.(rp_initial_upload_kbps).

(** [route_identity.split('|').next().unwrap_or_default()] *)
Definition route_mode_text (p : AutotuneRuntimePermit) : string :=
  default "" (head (split_on "|" p.(rp_route_identity))).

Definition permit_validate (p : AutotuneRuntimePermit) : Res unit :=
  permit_hex "runtime permit id" p.(rp_permit_id) 32 ≫= λ _,
  fail_if (p.(rp_probe_accounting_required) && negb (bool_decide (p.(rp_kind) = AutotunePermit)))
    "probe accounting requires an Auto-Tune runtime permit" ≫= λ _,
  permit_hex "runtime permit job id" p.(rp_job_id) 32 ≫= λ _,
  permit_hex "runtime permit worker run id" p.(rp_worker_run_id) 32 ≫= λ _,
  permit_hex "runtime permit boot id" p.(rp_boot_id) 32 ≫= λ _,
  permit_hex "runtime permit coordinator generation" p.(rp_coordinator_generation) 32 ≫= λ _,
  permit_hex "runtime permit route fingerprint" p.(rp_route_fingerprint) 64 ≫= λ _,
  permit_hex "runtime permit SQM fingerprint" p.(rp_sqm_fingerprint) 64 ≫= λ _,
  permit_identifier "runtime permit instance" p.(rp_instance_name) ≫= λ _,
  permit_interface p.(rp_target_interface) ≫= λ _,
  require_route_identity p.(rp_route_identity) ≫= λ _,
  check_some p.(rp_dns_server) (λ server,
    explicit_dns_server (route_mode_text p) (show_ipv4 server) ≫= λ _, mret tt) ≫= λ _,
  fail_if (process_zero p.(rp_worker)) "runtime permit worker identity is incomplete" ≫= λ _,
  fail_if ((p.(rp_deadline_boot_ms) =? 0)%N || (p.(rp_maximum_sequence) =? 0)%N
           || (MAX_AUTOTUNE_EVIDENCE_RECORDS <? p.(rp_maximum_sequence))%N)
    "runtime permit lifetime or sequence bound is invalid" ≫= λ _,
  bounds_validate p.(rp_download_bounds) "download" ≫= λ _,
  bounds_validate p.(rp_upload_bounds) "upload" ≫= λ _,
  permit_validate_baseline p ≫= λ _,
  fail_if (negb (bounds_contains p.(rp_download_bounds) p.(rp_initial_download_kbps))
           || negb (bounds_contains p.(rp_upload_bounds) p.(rp_initial_upload_kbps)))
    "runtime permit initial rates are outside their permitted bounds" ≫= λ _,
  fail_if (bool_decide (p.(rp_kind) = SpeedtestUnshaped) && negb (speedtest_policy p))
    "unshaped Speed Test runtime permit has non-canonical policy".

(** [rate.is_some_and(|rate| !bounds.contains(rate))] *)
Definition outside (b : RuntimeRateBounds) (rate : option N) : bool :=
  is_some_and (λ rate, negb (bounds_contains b rate)) rate.

Definition authorizes_idle_baseline (p : AutotuneRuntimePermit) (topology : MeasurementTopology)
    (download_kbps upload_kbps : option N) : Res unit :=
  permit_validate p ≫= λ _,
  fail_if (negb (bool_decide (topology = capture_baseline_topology p)))
    "idle runtime topology does not match its permit baseline" ≫= λ _,
  validate_topology_rates topology download_kbps upload_kbps ≫= λ _,
  fail_if (outside p.(rp_download_bounds) download_kbps)
    "idle download rate is outside its permitted range" ≫= λ _,
  fail_if (outside p.(rp_upload_bounds) upload_kbps)
    "idle upload rate is outside its permitted range".

(** The control names the permit's own job, worker, target and fingerprints. *)
Definition control_matches_permit (p : AutotuneRuntimePermit) (instance_name : string)
    (c : AutotuneRuntimeControl) : bool :=
  String.eqb p.(rp_instance_name) instance_name
  && String.eqb p.(rp_permit_id) c.(rc_permit_id) && String.eqb p.(rp_job_id) c.(rc_job_id)
  && String.eqb p.(rp_worker_run_id) c.(rc_worker_run_id)
  && String.eqb p.(rp_boot_id) c.(rc_boot_id)
  && String.eqb p.(rp_coordinator_generation) c.(rc_coordinator_generation)
  && bool_decide (p.(rp_worker) = c.(rc_worker))
  && String.eqb p.(rp_target_interface) c.(rc_target_interface)
  && String.eqb p.(rp_route_fingerprint) c.(rc_route_fingerprint)
  && String.eqb p.(rp_sqm_fingerprint) c.(rc_sqm_fingerprint).

(** The exact directional control of an unshaped Speed Test. *)
Definition authorizes_speedtest (p : AutotuneRuntimePermit) (c : AutotuneRuntimeControl)
    : Res unit :=
  topology ← ok_or (permit_unshaped_topology p)
    "unshaped Speed Test permit has no authorized bypass direction";
  let expected_download :=
    if download_is_shaped topology then Some p.(rp_initial_download_kbps) else None in
  let expected_upload :=
    if upload_is_shaped topology then Some p.(rp_initial_upload_kbps) else None in
  fail_if (negb ((c.(rc_sequence) =? 1)%N && bool_decide (c.(rc_topology) = topology)
                 && bool_decide (c.(rc_download_kbps) = expected_download)
                 && bool_decide (c.(rc_upload_kbps) = expected_upload)))
    "unshaped Speed Test permit authorizes only its exact directional control".

Definition authorizes_identity (p : AutotuneRuntimePermit) (instance_name : string)
    (c : AutotuneRuntimeControl) : Res unit :=
  permit_validate p ≫= λ _,
  runtime_control_validate c ≫= λ _,
  fail_if (negb (control_matches_permit p instance_name c))
    "runtime control does not match its immutable permit" ≫= λ _,
  fail_if (p.(rp_maximum_sequence) <? c.(rc_sequence))%N
    "runtime control sequence exceeds its permit" ≫= λ _,
  if bool_decide (p.(rp_kind) = SpeedtestUnshaped) then authorizes_speedtest p c
  else
    fail_if (negb (download_is_shaped c.(rc_topology)) && negb p.(rp_allow_bypass_download))
      "runtime permit does not allow download bypass" ≫= λ _,
    fail_if (negb (upload_is_shaped c.(rc_topology)) && negb p.(rp_allow_bypass_upload))
      "runtime permit does not allow upload bypass" ≫= λ _,
    fail_if (outside p.(rp_download_bounds) c.(rc_download_kbps))
      "download override is outside its permitted range" ≫= λ _,
    fail_if (outside p.(rp_upload_bounds) c.(rc_upload_kbps))
      "upload override is outside its permitted range".

Definition authorizes (p : AutotuneRuntimePermit) (instance_name : string)
    (c : AutotuneRuntimeControl) (current_boot_ms : N) : Res unit :=
  authorizes_identity p instance_name c ≫= λ _,
  fail_if ((current_boot_ms =? 0)%N || (c.(rc_deadline_boot_ms) <=? current_boot_ms)%N
           || (p.(rp_deadline_boot_ms) <? c.(rc_deadline_boot_ms))%N)
    "runtime control is outside its permitted lifetime".

(** ** [RuntimeSnapshot] *)

Record RuntimeSnapshot := {
  rs_target_interface : string;
  rs_route_fingerprint : string;
  rs_sqm_fingerprint : string;
  rs_topology : MeasurementTopology;
  rs_download_kbps : option N;
  rs_upload_kbps : option N;
  rs_download_qdisc_kind : option RuntimeQdiscKind;
  rs_upload_qdisc_kind : option RuntimeQdiscKind;
}.

#[export] Instance RuntimeSnapshot_eq_dec : EqDecision RuntimeSnapshot.
Proof. solve_decision. Defined.

Definition snapshot_validate (s : RuntimeSnapshot) : Res unit :=
  permit_interface s.(rs_target_interface) ≫= λ _,
  permit_hex "runtime snapshot route fingerprint" s.(rs_route_fingerprint) 64 ≫= λ _,
  permit_hex "runtime snapshot SQM fingerprint" s.(rs_sqm_fingerprint) 64 ≫= λ _,
  validate_topology_rates s.(rs_topology) s.(rs_download_kbps) s.(rs_upload_kbps) ≫= λ _,
  fail_if (negb (Bool.eqb (is_some s.(rs_download_kbps)) (is_some s.(rs_download_qdisc_kind)))
           || negb (Bool.eqb (is_some s.(rs_upload_kbps)) (is_some s.(rs_upload_qdisc_kind))))
    "runtime snapshot qdisc kind does not match shaped directions".

Definition matches_control (s : RuntimeSnapshot) (c : AutotuneRuntimeControl) : bool :=
  String.eqb s.(rs_target_interface) c.(rc_target_interface)
  && String.eqb s.(rs_route_fingerprint) c.(rc_route_fingerprint)
  && String.eqb s.(rs_sqm_fingerprint) c.(rc_sqm_fingerprint)
  && bool_decide (s.(rs_topology) = c.(rc_topology))
  && bool_decide (s.(rs_download_kbps) = c.(rc_download_kbps))
  && bool_decide (s.(rs_upload_kbps) = c.(rc_upload_kbps))
  && bool_decide (s.(rs_download_qdisc_kind) = (λ _, Cake) <$> c.(rc_download_kbps))
  && bool_decide (s.(rs_upload_qdisc_kind) = (λ _, Cake) <$> c.(rc_upload_kbps)).

(** [runtime_snapshot_for_control] of [operations/autotune_runtime_driver.rs] *)
Definition runtime_snapshot_for_control (c : AutotuneRuntimeControl) : RuntimeSnapshot :=
  {| rs_target_interface := c.(rc_target_interface);
     rs_route_fingerprint := c.(rc_route_fingerprint);
     rs_sqm_fingerprint := c.(rc_sqm_fingerprint);
     rs_topology := c.(rc_topology);
     rs_download_kbps := c.(rc_download_kbps);
     rs_upload_kbps := c.(rc_upload_kbps);
     rs_download_qdisc_kind := (λ _, Cake) <$> c.(rc_download_kbps);
     rs_upload_qdisc_kind := (λ _, Cake) <$> c.(rc_upload_kbps) |}.

Definition RuntimeRestoreBaseline : Type := RuntimeBaseline RuntimeSnapshot.

#[export] Instance RuntimeRestoreBaseline_eq_dec : EqDecision RuntimeRestoreBaseline.
Proof. unfold RuntimeRestoreBaseline. apply _. Defined.

Definition validate_restore_baseline (b : RuntimeRestoreBaseline) : Res unit :=
  match b with
  | Managed snapshot => snapshot_validate snapshot
  | Absent absent => absent_validate absent
  end.

Definition validate_for_permit (b : RuntimeRestoreBaseline) (p : AutotuneRuntimePermit)
    : Res unit :=
  permit_validate p ≫= λ _,
  validate_restore_baseline b ≫= λ _,
  match p.(rp_baseline), b with
  | Managed topology, Managed snapshot =>
      fail_if (negb (String.eqb snapshot.(rs_target_interface) p.(rp_target_interface))
               || negb (String.eqb snapshot.(rs_route_fingerprint) p.(rp_route_fingerprint))
               || negb (String.eqb snapshot.(rs_sqm_fingerprint) p.(rp_sqm_fingerprint))
               || negb (bool_decide (snapshot.(rs_topology) = topology))
               || (download_is_shaped topology
                   && negb (bool_decide (snapshot.(rs_download_qdisc_kind)
                                         = Some p.(rp_download_qdisc_kind))))
               || (upload_is_shaped topology
                   && negb (bool_decide (snapshot.(rs_upload_qdisc_kind)
                                         = Some p.(rp_upload_qdisc_kind)))))
        "managed runtime restore baseline does not match its permit"
  | Absent expected, Absent actual =>
      fail_if (negb (bool_decide (actual = expected)))
        "absent runtime restore baseline does not match its permit"
  | _, _ => Err "runtime permit and restore checkpoint use different baseline variants"
  end.

Definition managed_snapshot (b : RuntimeRestoreBaseline) : Res RuntimeSnapshot :=
  match b with
  | Managed snapshot => Ok snapshot
  | Absent _ => Err "absent runtime baseline has no managed runtime snapshot"
  end.

(** ** Trying it *)

Module PermitSample.
Definition worker : ProcessIdentity := {| pid := 41; process_group := 41; starttime_ticks := 900 |}.

Definition permit : AutotuneRuntimePermit := {|
  rp_dns_server := None; rp_probe_accounting_required := false; rp_kind := AutotunePermit;
  rp_permit_id := sample_control.(rc_permit_id); rp_job_id := sample_control.(rc_job_id);
  rp_worker_run_id := sample_control.(rc_worker_run_id); rp_boot_id := sample_control.(rc_boot_id);
  rp_coordinator_generation := sample_control.(rc_coordinator_generation); rp_worker := worker;
  rp_instance_name := "wan"; rp_target_interface := "wan"; rp_route_identity := "main|wan";
  rp_route_fingerprint := sample_control.(rc_route_fingerprint);
  rp_sqm_fingerprint := sample_control.(rc_sqm_fingerprint);
  rp_deadline_boot_ms := 90000; rp_maximum_sequence := 10; rp_profile := BestOverall;
  rp_link_kind := Ethernet; rp_baseline := Managed ShapedBoth;
  rp_initial_download_kbps := 40000; rp_initial_upload_kbps := 10000;
  rp_download_qdisc_kind := CakeMq; rp_upload_qdisc_kind := Cake;
  rp_allow_bypass_download := true; rp_allow_bypass_upload := true;
  rp_download_bounds := {| minimum_kbps := 1000; maximum_kbps := 80000 |};
  rp_upload_bounds := {| minimum_kbps := 1000; maximum_kbps := 20000 |} |}.

Definition snapshot : RuntimeSnapshot := {|
  rs_target_interface := "wan"; rs_route_fingerprint := sample_control.(rc_route_fingerprint);
  rs_sqm_fingerprint := sample_control.(rc_sqm_fingerprint); rs_topology := ShapedBoth;
  rs_download_kbps := Some 40000%N; rs_upload_kbps := Some 10000%N;
  rs_download_qdisc_kind := Some CakeMq; rs_upload_qdisc_kind := Some Cake |}.

(** The same job on an interface without SQM. *)
Definition absent : AbsentRuntimeBaseline := {|
  ab_planned_sqm_section := "wan"; ab_target_interface := "wan"; ab_target_ifindex := 7;
  ab_route_fingerprint := permit.(rp_route_fingerprint);
  ab_config_fingerprint := permit.(rp_route_fingerprint);
  ab_sqm_fingerprint := permit.(rp_sqm_fingerprint);
  ab_kernel_topology_fingerprint := permit.(rp_route_fingerprint);
  ab_kernel_namespace_seed := permit.(rp_permit_id) |}.

Definition absent_permit : AutotuneRuntimePermit := {|
  rp_dns_server := None; rp_probe_accounting_required := true; rp_kind := AutotunePermit;
  rp_permit_id := permit.(rp_permit_id); rp_job_id := permit.(rp_job_id);
  rp_worker_run_id := permit.(rp_worker_run_id); rp_boot_id := permit.(rp_boot_id);
  rp_coordinator_generation := permit.(rp_coordinator_generation); rp_worker := worker;
  rp_instance_name := "wan"; rp_target_interface := "wan"; rp_route_identity := "main|wan";
  rp_route_fingerprint := permit.(rp_route_fingerprint);
  rp_sqm_fingerprint := permit.(rp_sqm_fingerprint);
  rp_deadline_boot_ms := 90000; rp_maximum_sequence := 10; rp_profile := BestOverall;
  rp_link_kind := Ethernet; rp_baseline := Absent absent;
  rp_initial_download_kbps := 40000; rp_initial_upload_kbps := 10000;
  rp_download_qdisc_kind := Cake; rp_upload_qdisc_kind := Cake;
  rp_allow_bypass_download := true; rp_allow_bypass_upload := true;
  rp_download_bounds := {| minimum_kbps := 1000; maximum_kbps := 80000 |};
  rp_upload_bounds := {| minimum_kbps := 1000; maximum_kbps := 20000 |} |}.

Example both_valid : (permit_validate permit, permit_validate absent_permit) = (Ok tt, Ok tt).
Proof. by vm_compute. Qed.
End PermitSample.
