(* ===== verification/RuntimeRecord.v ===== *)
(** * The text of runtime permits

    Models the record helpers of [operations/autotune_runtime_store.rs]
    ([encode_record], [RecordReader], the field parsers) and the codec of
    [AutotuneRuntimePermit], schemas 3 to 7. *)

From S2P Require Import Prelude RustStr SchedRecord PercentRecord LineRecord Vocabulary RustNet CapturePolicy OperationRequest JobJournal RuntimeControl PrivateNamespace TemporaryTopology RuntimePermit.
Local Open Scope string_scope.

Definition MAX_RUNTIME_RECORD_BYTES : N := 4 * 1024.

(** ** Writing *)

(** The check of the loop of [encode_record]; the loop also writes the lines. *)
Fixpoint check_fields (fields : list (string * string)) : Res unit :=
  match fields with
  | [] => Ok tt
  | (name, value) :: fields =>
      fail_if (String.eqb name "" || any_byte (λ c, Ascii.eqb c nl || Ascii.eqb c cr
                                                 || Ascii.eqb c (chr 0)) value)
        "runtime record contains an invalid field" ≫= λ _,
      check_fields fields
  end.

Definition runtime_record (header : string) (fields : list (string * string)) : Res string :=
  check_fields fields ≫= λ _,
  let output := kv_text header fields in
  fail_if (MAX_RUNTIME_RECORD_BYTES <? len output)%N "runtime record exceeds its bound" ≫= λ _,
  mret output.

(** ** Reading *)

Abbreviation RuntimeReader := (M (list string) string).

Definition runtime_new (input header : string) : Res (list string) :=
  fail_if ((MAX_RUNTIME_RECORD_BYTES <? len input)%N || negb (ends_with_char nl input))
    "runtime record is unbounded or unterminated" ≫= λ _,
  match lines input with
  | first :: rest =>
      if String.eqb first header then Ok rest else Err "runtime record header is invalid"
  | [] => Err "runtime record header is invalid"
  end.

Definition runtime_field (expected : string) : RuntimeReader string := λ record,
  match record with
  | [] => (Err ("runtime record field " +:+ expected +:+ " is missing"), [])
  | line :: rest =>
      (match split_once "=" line with
       | None => Err ("runtime record field " +:+ expected +:+ " is malformed")
       | Some (name, value) =>
           fail_if (negb (String.eqb name expected))
             ("runtime record expected " +:+ expected +:+ ", found " +:+ name) ≫= λ _,
           mret value
       end, rest)
  end.

Definition runtime_finish : RuntimeReader unit := λ record,
  match record with
  | [] => (Ok tt, [])
  | _ :: rest => (Err "runtime record contains extraneous fields", rest)
  end.

Definition runtime_u64 (name value : string) : Res N :=
  fail_if (String.eqb value "" || ((1 <? len value)%N && starts_with "0" value))
    ("runtime record field " +:+ name +:+ " is not canonical") ≫= λ _,
  ok_or (str_parse_u64 value) ("runtime record field " +:+ name +:+ " is invalid").

(** [parse_u32] and [parse_u16], for the width whose largest value is [max]. *)
Definition runtime_narrow (max : N) (name value : string) : Res N :=
  n ← runtime_u64 name value;
  fail_if (max <? n)%N ("runtime record field " +:+ name +:+ " is too large") ≫= λ _, mret n.
Definition runtime_u32 : string → string → Res N := runtime_narrow u32_max.
Definition runtime_u16 : string → string → Res N := runtime_narrow u16_max.

Definition runtime_bool (name value : string) : Res bool :=
  ok_or (match_str [("0", false); ("1", true)] value)
    ("runtime record field " +:+ name +:+ " is not a boolean").

Definition runtime_optional {T} (parse : string → string → Res T) (name value : string)
    : Res (option T) :=
  if String.eqb value "" then mret None else n ← parse name value; mret (Some n).

Definition optional_qdisc_kind (value : option RuntimeQdiscKind) : string :=
  match value with Some kind => RuntimeQdiscKind_as_str kind | None => "" end.

Definition optional_qdisc_kind_value (name value : string) : Res (option RuntimeQdiscKind) :=
  if String.eqb value "" then mret None
  else kind ← ok_or (RuntimeQdiscKind_parse value)
                ("runtime record field " +:+ name +:+ " is invalid");
       mret (Some kind).

(** A field under a parser. *)
Definition field_with {T} (name : string) (parse : string → Res T) : RuntimeReader T :=
  value ← runtime_field name; lift (parse value).
Definition u64_field (name : string) : RuntimeReader N := field_with name (runtime_u64 name).
Definition u32_field (name : string) : RuntimeReader N := field_with name (runtime_u32 name).
Definition bool_field (name : string) : RuntimeReader bool := field_with name (runtime_bool name).
(** [T::parse(&reader.field(name)?).ok_or_else(|| error)?] *)
Definition enum_field {T} (name : string) (parse : string → option T) (error : string)
    : RuntimeReader T :=
  field_with name (λ value, ok_or (parse value) error).

(** ** Permits *)

Definition permit_header (schema : N) : string :=
  "cake-autorate-autotune-runtime-permit" +:+ str1 tab +:+ show schema.

Definition permit_head_fields (p : AutotuneRuntimePermit) : list (string * string) :=
  [("permit_id", p.(rp_permit_id)); ("permit_kind", RuntimePermitKind_as_str p.(rp_kind));
   ("job_id", p.(rp_job_id)); ("worker_run_id", p.(rp_worker_run_id));
   ("boot_id", p.(rp_boot_id)); ("coordinator_generation", p.(rp_coordinator_generation));
   ("worker_pid", show p.(rp_worker).(pid));
   ("worker_process_group", show p.(rp_worker).(process_group));
   ("worker_starttime_ticks", show p.(rp_worker).(starttime_ticks));
   ("instance_name", p.(rp_instance_name)); ("target_interface", p.(rp_target_interface));
   ("route_identity", p.(rp_route_identity)); ("route_fingerprint", p.(rp_route_fingerprint));
   ("sqm_fingerprint", p.(rp_sqm_fingerprint));
   ("deadline_boot_ms", show p.(rp_deadline_boot_ms));
   ("maximum_sequence", show p.(rp_maximum_sequence));
   ("profile", AutotuneProfile_as_str p.(rp_profile));
   ("link_kind", LinkKind_as_str p.(rp_link_kind))].

(** The fields of an absent baseline, up to the namespace seed. *)
Definition absent_texts (b : RuntimePermitBaseline) : list string :=
  match b with
  | Managed _ => [""; ""; ""; ""; ""; ""; ""; ""]
  | Absent a =>
      [a.(ab_planned_sqm_section); a.(ab_target_interface); show a.(ab_target_ifindex);
       a.(ab_route_fingerprint); a.(ab_config_fingerprint); a.(ab_sqm_fingerprint);
       a.(ab_kernel_topology_fingerprint); a.(ab_kernel_namespace_seed)]
  end.

Definition ABSENT_KEYS : list string :=
  ["absent_planned_sqm_section"; "absent_target_interface"; "absent_target_ifindex";
   "absent_route_fingerprint"; "absent_config_fingerprint"; "absent_sqm_fingerprint";
   "absent_kernel_topology_fingerprint"; "absent_kernel_namespace_seed"].

Definition topology_text (b : RuntimePermitBaseline) : string :=
  match b with Managed topology => MeasurementTopology_as_str topology | Absent _ => "" end.

Definition baseline_state (b : RuntimePermitBaseline) : string :=
  match b with Managed _ => "managed" | Absent _ => "absent" end.

(** Schema 3 writes only the managed topology; an absent baseline was refused there. *)
Definition permit_baseline_fields (schema : N) (b : RuntimePermitBaseline)
    : list (string * string) :=
  if (4 <=? schema)%N then
    [("baseline_state", baseline_state b); ("baseline_topology", topology_text b)]
    ++ zip (if (5 <=? schema)%N then ABSENT_KEYS else take 7 ABSENT_KEYS) (absent_texts b)
  else [("baseline_topology", topology_text b)].

Definition permit_policy_fields (p : AutotuneRuntimePermit) : list (string * string) :=
  [("initial_download_kbps", show p.(rp_initial_download_kbps));
   ("initial_upload_kbps", show p.(rp_initial_upload_kbps));
   ("download_qdisc_kind", RuntimeQdiscKind_as_str p.(rp_download_qdisc_kind));
   ("upload_qdisc_kind", RuntimeQdiscKind_as_str p.(rp_upload_qdisc_kind));
   ("allow_bypass_download", bool_text p.(rp_allow_bypass_download));
   ("allow_bypass_upload", bool_text p.(rp_allow_bypass_upload));
   ("download_minimum_kbps", show p.(rp_download_bounds).(minimum_kbps));
   ("download_maximum_kbps", show p.(rp_download_bounds).(maximum_kbps));
   ("upload_minimum_kbps", show p.(rp_upload_bounds).(minimum_kbps));
   ("upload_maximum_kbps", show p.(rp_upload_bounds).(maximum_kbps))].

Definition permit_tail_fields (schema : N) (p : AutotuneRuntimePermit) : list (string * string) :=
  (if (6 <=? schema)%N then
     [("probe_accounting_required", bool_text p.(rp_probe_accounting_required))] else [])
  ++ match p.(rp_dns_server) with
     | Some server => [("route_dns_ipv4", show_ipv4 server)]
     | None => []
     end.

Definition permit_fields (schema : N) (p : AutotuneRuntimePermit) : list (string * string) :=
  permit_head_fields p ++ permit_baseline_fields schema p.(rp_baseline)
  ++ permit_policy_fields p ++ permit_tail_fields schema p.

Definition is_absent {T} (b : RuntimeBaseline T) : bool :=
  match b with Managed _ => false | Absent _ => true end.

Definition permit_encode_for_schema (schema : N) (p : AutotuneRuntimePermit) : Res string :=
  fail_if (negb ((3 <=? schema)%N && (schema <=? 7)%N)) "unsupported runtime permit schema"
    ≫= λ _,
  fail_if ((schema <? 5)%N && is_absent p.(rp_baseline))
    "runtime permit schema predates deterministic absent namespace authority" ≫= λ _,
  permit_validate p ≫= λ _,
  fail_if ((schema <? 7)%N
           && negb (Bool.eqb p.(rp_probe_accounting_required) (schema =? 6)%N))
    "runtime permit accounting capability contradicts schema" ≫= λ _,
  fail_if (negb (Bool.eqb (schema =? 7)%N (is_some p.(rp_dns_server))))
    "runtime permit DNS encoding downgrade or mismatch" ≫= λ _,
  runtime_record (permit_header schema) (permit_fields schema p).

Definition permit_schema (p : AutotuneRuntimePermit) : N :=
  if is_some p.(rp_dns_server) then 7
  else if p.(rp_probe_accounting_required) then 6
  else if is_absent p.(rp_baseline) then 5 else 3.

Definition permit_encode (p : AutotuneRuntimePermit) : Res string :=
  permit_encode_for_schema (permit_schema p) p.

(** *** Decoding *)

Definition read_worker : RuntimeReader ProcessIdentity :=
  worker_pid ← u32_field "worker_pid";
  worker_process_group ← u32_field "worker_process_group";
  worker_starttime_ticks ← u64_field "worker_starttime_ticks";
  mret {| pid := worker_pid; process_group := worker_process_group;
          starttime_ticks := worker_starttime_ticks |}.

(** The [match state.as_str()] of the baseline, on the texts that were read. *)
Definition permit_baseline_value (schema : N) (state topology : string) (texts : list string)
    : Res RuntimePermitBaseline :=
  match texts with
  | [section; interface; ifindex; route; config; sqm; kernel; seed] =>
      if String.eqb state "managed" then
        fail_if (existsb (λ text, negb (String.eqb text "")) texts)
          "managed runtime permit carries absent baseline fields" ≫= λ _,
        topology ← ok_or (MeasurementTopology_parse topology)
          "runtime permit baseline topology is unsupported";
        mret (Managed topology)
      else if String.eqb state "absent" then
        fail_if (schema <? 5)%N
          "runtime permit schema 4 absent baseline lacks deterministic namespace authority"
          ≫= λ _,
        fail_if (negb (String.eqb topology ""))
          "absent runtime permit carries a managed baseline topology" ≫= λ _,
        target_ifindex ← runtime_u32 "absent_target_ifindex" ifindex;
        mret (Absent {| ab_planned_sqm_section := section; ab_target_interface := interface;
                        ab_target_ifindex := target_ifindex; ab_route_fingerprint := route;
                        ab_config_fingerprint := config; ab_sqm_fingerprint := sqm;
                        ab_kernel_topology_fingerprint := kernel;
                        ab_kernel_namespace_seed := seed |})
      else Err "runtime permit baseline state is unsupported"
  | _ => Err "runtime permit baseline state is unsupported"
  end.

Definition read_permit_baseline (schema : N) : RuntimeReader RuntimePermitBaseline :=
  if (4 <=? schema)%N then
    state ← runtime_field "baseline_state";
    topology ← runtime_field "baseline_topology";
    section ← runtime_field "absent_planned_sqm_section";
    interface ← runtime_field "absent_target_interface";
    ifindex ← runtime_field "absent_target_ifindex";
    route ← runtime_field "absent_route_fingerprint";
    config ← runtime_field "absent_config_fingerprint";
    sqm ← runtime_field "absent_sqm_fingerprint";
    kernel ← runtime_field "absent_kernel_topology_fingerprint";
    seed ← (if (5 <=? schema)%N then runtime_field "absent_kernel_namespace_seed" else mret "");
    lift (permit_baseline_value schema state topology
            [section; interface; ifindex; route; config; sqm; kernel; seed])
  else
    topology ← enum_field "baseline_topology" MeasurementTopology_parse
                 "runtime permit baseline topology is unsupported";
    mret (Managed topology).

Definition read_bounds (minimum maximum : string) : RuntimeReader RuntimeRateBounds :=
  minimum_kbps ← u64_field minimum;
  maximum_kbps ← u64_field maximum;
  mret {| minimum_kbps := minimum_kbps; maximum_kbps := maximum_kbps |}.

(** [text.parse::<Ipv4Addr>()] *)
Definition parse_permit_dns (text : string) : Res (option Ipv4Addr) :=
  server ← ok_or (parse_ipv4 text) "runtime permit DNS invalid"; mret (Some server).

Definition read_permit (schema : N) : RuntimeReader AutotuneRuntimePermit :=
  permit_id ← runtime_field "permit_id";
  kind ← enum_field "permit_kind" RuntimePermitKind_parse "runtime permit kind is unsupported";
  job_id ← runtime_field "job_id";
  worker_run_id ← runtime_field "worker_run_id";
  boot_id ← runtime_field "boot_id";
  generation ← runtime_field "coordinator_generation";
  worker ← read_worker;
  instance_name ← runtime_field "instance_name";
  target_interface ← runtime_field "target_interface";
  route_identity ← runtime_field "route_identity";
  route_fingerprint ← runtime_field "route_fingerprint";
  sqm_fingerprint ← runtime_field "sqm_fingerprint";
  deadline ← u64_field "deadline_boot_ms";
  maximum_sequence ← u32_field "maximum_sequence";
  profile ← enum_field "profile" AutotuneProfile_parse "runtime permit profile is unsupported";
  link_kind ← enum_field "link_kind" LinkKind_parse "runtime permit link kind is unsupported";
  baseline ← read_permit_baseline schema;
  initial_download ← u64_field "initial_download_kbps";
  initial_upload ← u64_field "initial_upload_kbps";
  download_kind ← enum_field "download_qdisc_kind" RuntimeQdiscKind_parse
                    "runtime permit download qdisc kind is unsupported";
  upload_kind ← enum_field "upload_qdisc_kind" RuntimeQdiscKind_parse
                  "runtime permit upload qdisc kind is unsupported";
  bypass_download ← bool_field "allow_bypass_download";
  bypass_upload ← bool_field "allow_bypass_upload";
  download_bounds ← read_bounds "download_minimum_kbps" "download_maximum_kbps";
  upload_bounds ← read_bounds "upload_minimum_kbps" "upload_maximum_kbps";
  accounting ← (if (6 <=? schema)%N then bool_field "probe_accounting_required" else mret false);
  dns ← (if (schema =? 7)%N then field_with "route_dns_ipv4" parse_permit_dns else mret None);
  runtime_finish ≫= λ _,
  mret {| rp_dns_server := dns; rp_probe_accounting_required := accounting; rp_kind := kind;
          rp_permit_id := permit_id; rp_job_id := job_id; rp_worker_run_id := worker_run_id;
          rp_boot_id := boot_id; rp_coordinator_generation := generation; rp_worker := worker;
          rp_instance_name := instance_name; rp_target_interface := target_interface;
          rp_route_identity := route_identity; rp_route_fingerprint := route_fingerprint;
          rp_sqm_fingerprint := sqm_fingerprint; rp_deadline_boot_ms := deadline;
          rp_maximum_sequence := maximum_sequence; rp_profile := profile;
          rp_link_kind := link_kind; rp_baseline := baseline;
          rp_initial_download_kbps := initial_download; rp_initial_upload_kbps := initial_upload;
          rp_download_qdisc_kind := download_kind; rp_upload_qdisc_kind := upload_kind;
          rp_allow_bypass_download := bypass_download; rp_allow_bypass_upload := bypass_upload;
          rp_download_bounds := download_bounds; rp_upload_bounds := upload_bounds |}.

Definition permit_schema_of_header (header : string) : Res N :=
  ok_or (match_str [(permit_header 7, 7%N); (permit_header 6, 6%N); (permit_header 5, 5%N);
                    (permit_header 4, 4%N); (permit_header 3, 3%N)] header)
    "runtime permit record header is invalid".

Definition permit_decode (input : string) : Res AutotuneRuntimePermit :=
  schema ← permit_schema_of_header (default "" (head (lines input)));
  record ← runtime_new input (permit_header schema);
  permit ← (read_permit schema record).1;
  permit_validate permit ≫= λ _,
  text ← permit_encode_for_schema schema permit;
  fail_if (negb (String.eqb text input)) "runtime permit record is not canonical" ≫= λ _,
  mret permit.

(** ** Lemmas: a written record is read back *)

(** A key that cannot be confused with its value or break its line. *)
Definition key_clean (k : string) : bool := negb (contains "=" k) && all_bytes kv_byte k.

Lemma check_fields_ok fields :
  check_fields fields = Ok tt → Forall (λ f, contains nl f.2 = false ∧ contains cr f.2 = false) fields.
Proof.
  induction fields as [| [name value] fields IH]; [constructor |].
  cbn [check_fields]. rewrite then_ok, fail_if_ok. intros [H Hf].
  apply orb_false_iff in H as [_ H]. constructor; [| by apply IH]. cbn [snd].
  clear -H. induction value as [| a s IH]; [done |].
  unfold any_byte in *. cbn [all_bytes] in H. apply negb_false_iff, andb_true_iff in H as [H Hs].
  apply negb_true_iff, orb_false_iff in H as [[H1 H2]%orb_false_iff _].
  rewrite !contains_cons, (Ascii.eqb_sym nl), (Ascii.eqb_sym cr), H1, H2.
  by apply IH, negb_false_iff.
Qed.

Lemma kv_line_contains c f :
  key_clean f.1 = true → kv_byte c = false → Ascii.eqb c "=" = false → contains c f.2 = false →
  contains c (kv_line f) = false.
Proof.
  intros [_ Hk]%andb_true_iff Hc He Hv. unfold kv_line.
  by rewrite contains_append, contains_cons, He, Hv, (contains_class kv_byte).
Qed.

(** What the encoder writes is what the reader splits into lines. *)
Lemma runtime_record_back header fields text :
  negb (contains nl header) && negb (contains cr header)
    && forallb (λ f, key_clean f.1) fields = true →
  runtime_record header fields = Ok text →
  runtime_new text header = Ok (kv_line <$> fields)
  ∧ lines text = header :: (kv_line <$> fields).
Proof.
  unfold runtime_record. intros H (Hf & Ht)%then_ok. apply then_ok in Ht as [Hl Ht].
  injection Ht as <-. apply fail_if_ok in Hl. reflect_bools. apply check_fields_ok in Hf.
  assert (E : lines (kv_text header fields) = header :: (kv_line <$> fields)).
  { unfold kv_text. rewrite lines_append by done. f_equal. clear Hl.
    induction Hf as [| f fields [] _ IH]; [done |]. cbn [forallb] in *. reflect_bools.
    cbn [foldr]. rewrite lines_append; [by rewrite IH | by apply kv_line_contains ..]. }
  split; [| done]. unfold runtime_new. rewrite E, String.eqb_refl, kv_text_ends.
  by rewrite (proj2 (N.ltb_ge _ _)) by done.
Qed.

Lemma runtime_field_step {A} k v rest (f : string → RuntimeReader A) :
  key_clean k = true → (runtime_field k ≫= f) (kv_line (k, v) :: rest) = f v rest.
Proof.
  intros [Hk _]%andb_true_iff. apply negb_true_iff in Hk.
  unfold mbind, M_bind, runtime_field, kv_line. cbn [fst snd].
  rewrite split_once_append by done. by rewrite String.eqb_refl.
Qed.

Lemma field_with_step {T A} k v rest (parse : string → Res T) t (f : T → RuntimeReader A) :
  key_clean k = true → parse v = Ok t → (field_with k parse ≫= f) (kv_line (k, v) :: rest) = f t rest.
Proof.
  intros Hk Hp. unfold field_with.
  change ((runtime_field k ≫= λ value, lift (parse value)) ≫= f)
    with (λ s, match (runtime_field k ≫= λ value, lift (parse value)) s with
               | (Ok a, s') => f a s' | (Err e, s') => (Err e, s') end).
  cbv beta. rewrite runtime_field_step by done. unfold lift. by rewrite Hp.
Qed.

Lemma runtime_u64_back name n : is_u64 n → runtime_u64 name (show n) = Ok n.
Proof.
  intros Hn. unfold runtime_u64. rewrite show_nonempty, show_no_leading_zero.
  unfold str_parse_u64. by rewrite parse_uint_show.
Qed.

Lemma runtime_narrow_back max name n : (max ≤ u64_max)%N → (n ≤ max)%N →
  runtime_narrow max name (show n) = Ok n.
Proof.
  intros Hm Hn. unfold runtime_narrow. rewrite runtime_u64_back by (unfold is_u64; lia).
  simpl. by rewrite (proj2 (N.ltb_ge _ _) Hn).
Qed.

Lemma runtime_u32_back name n : is_u32 n → runtime_u32 name (show n) = Ok n.
Proof. by apply runtime_narrow_back. Qed.
Lemma runtime_u16_back name n : (n ≤ u16_max)%N → runtime_u16 name (show n) = Ok n.
Proof. by apply runtime_narrow_back. Qed.
Lemma runtime_bool_back name b : runtime_bool name (bool_text b) = Ok b.
Proof. by destruct b. Qed.

(** ** Permits: round trip *)

Definition bounds_typed (b : RuntimeRateBounds) : Prop :=
  is_u64 b.(minimum_kbps) ∧ is_u64 b.(maximum_kbps).

(** Every number of a permit fits its field. *)
Record permit_typed (p : AutotuneRuntimePermit) : Prop := {
  pt_worker : identity_typed p.(rp_worker);
  pt_deadline : is_u64 p.(rp_deadline_boot_ms);
  pt_sequence : is_u32 p.(rp_maximum_sequence);
  pt_download : is_u64 p.(rp_initial_download_kbps);
  pt_upload : is_u64 p.(rp_initial_upload_kbps);
  pt_download_bounds : bounds_typed p.(rp_download_bounds);
  pt_upload_bounds : bounds_typed p.(rp_upload_bounds);
  pt_dns : ∀ server, p.(rp_dns_server) = Some server → ipv4_ok server;
  pt_ifindex : ∀ a, p.(rp_baseline) = Absent a → is_u32 a.(ab_target_ifindex);
}.

(** A closed enumeration is read back from its name. *)
Ltac enum_back :=
  match goal with |- ok_or (_ (_ ?value)) _ = Ok ?result => unify value result; by destruct value end.

Ltac record_step :=
  first [ rewrite runtime_field_step by done
        | erewrite field_with_step;
            [| done | first [ by apply runtime_u64_back | by apply runtime_u32_back
                            | by apply runtime_u16_back | by apply runtime_bool_back
                            | enum_back ] ]
        | rewrite lift_step ].

Lemma read_worker_back w rest {A} (f : ProcessIdentity → RuntimeReader A) :
  identity_typed w →
  (read_worker ≫= f)
    (kv_line ("worker_pid", show w.(pid)) :: kv_line ("worker_process_group", show w.(process_group))
     :: kv_line ("worker_starttime_ticks", show w.(starttime_ticks)) :: rest) = f w rest.
Proof.
  intros (? & ? & ?). apply part_step. unfold read_worker, u32_field, u64_field.
  repeat record_step. by destruct w.
Qed.

Lemma read_bounds_back k1 k2 b rest {A} (f : RuntimeRateBounds → RuntimeReader A) :
  key_clean k1 = true → key_clean k2 = true → bounds_typed b →
  (read_bounds k1 k2 ≫= f)
    (kv_line (k1, show b.(minimum_kbps)) :: kv_line (k2, show b.(maximum_kbps)) :: rest) = f b rest.
Proof.
  intros ? ? [? ?]. apply part_step. unfold read_bounds, u64_field.
  repeat record_step. by destruct b.
Qed.

Lemma read_baseline_back schema b rest {A} (f : RuntimePermitBaseline → RuntimeReader A) :
  (schema <? 5)%N && is_absent b = false → (∀ a, b = Absent a → is_u32 a.(ab_target_ifindex)) →
  (read_permit_baseline schema ≫= f) ((kv_line <$> permit_baseline_fields schema b) ++ rest)%list
  = f b rest.
Proof.
  intros Hs Hi. apply part_step. unfold read_permit_baseline, permit_baseline_fields.
  destruct (N.leb_spec 4 schema); cbn [fmap list_fmap app].
  - destruct (N.leb_spec 5 schema); destruct b as [t | a];
      cbn [ABSENT_KEYS absent_texts baseline_state topology_text zip zip_with take fmap list_fmap app];
      repeat record_step.
    + by destruct t.
    + unfold permit_baseline_value, lift. cbn [String.eqb Ascii.eqb Bool.eqb mbind result_bind].
      rewrite (proj2 (N.ltb_ge schema 5)) by done. cbn [fail_if].
      rewrite runtime_u32_back by by apply Hi. by destruct a.
    + by destruct t.
    + rewrite (proj2 (N.ltb_lt schema 5)) in Hs by done. done.
  - destruct b as [t | a]; [| by rewrite (proj2 (N.ltb_lt schema 5)) in Hs by lia].
    cbn [topology_text]. unfold enum_field.
    erewrite field_with_step; [done | done | by apply topology_back].
Qed.

Lemma permit_dns_back server : ipv4_ok server →
  parse_permit_dns (show_ipv4 server) = Ok (Some server).
Proof. intros H. unfold parse_permit_dns. by rewrite parse_ipv4_show. Qed.

(** What [encode_for_schema] demands of the schema. *)
Definition schema_fits (schema : N) (p : AutotuneRuntimePermit) : Prop :=
  (3 ≤ schema ≤ 7)%N ∧ (schema <? 5)%N && is_absent p.(rp_baseline) = false
  ∧ (schema < 7 → p.(rp_probe_accounting_required) = (schema =? 6))%N
  ∧ (schema =? 7)%N = is_some p.(rp_dns_server).

Lemma permit_encode_inv schema p text :
  permit_encode_for_schema schema p = Ok text →
  schema_fits schema p ∧ permit_validate p = Ok tt
  ∧ runtime_record (permit_header schema) (permit_fields schema p) = Ok text.
Proof.
  unfold permit_encode_for_schema, schema_fits.
  intros (H1 & (H2 & (H3 & (H4 & (H5 & H6)%then_ok)%then_ok)%then_ok)%then_ok)%then_ok.
  apply fail_if_ok in H1, H2, H4, H5. apply negb_false_iff in H1, H5. apply Bool.eqb_prop in H5.
  reflect_bools. split_and?; try done. intros Hs.
  rewrite (proj2 (N.ltb_lt _ _) Hs) in H4. cbn [andb] in H4.
  by apply negb_false_iff, Bool.eqb_prop in H4.
Qed.

(** The two fields that depend on the schema, and the end of the record. *)
Lemma read_tail_back schema p {A} (f : bool → option Ipv4Addr → A) :
  permit_typed p → schema_fits schema p →
  (accounting ← (if (6 <=? schema)%N then bool_field "probe_accounting_required" else mret false);
   dns ← (if (schema =? 7)%N then field_with "route_dns_ipv4" parse_permit_dns else mret None);
   runtime_finish ≫= λ _, mret (f accounting dns))
    (kv_line <$> permit_tail_fields schema p)
  = (Ok (f p.(rp_probe_accounting_required) p.(rp_dns_server)), []).
Proof.
  intros Ht (Hs & _ & Ha & Hd). unfold permit_tail_fields, bool_field.
  destruct (rp_dns_server p) as [server |] eqn:E; cbn [is_some] in Hd.
  - apply N.eqb_eq in Hd as ->. cbn [N.leb N.compare Pos.compare Pos.compare_cont fmap list_fmap app].
    repeat record_step. cbn [N.eqb Pos.eqb].
    erewrite field_with_step; [done | done |]. by eapply permit_dns_back, pt_dns.
  - rewrite Hd. apply N.eqb_neq in Hd. specialize (Ha ltac:(lia)).
    destruct (N.leb_spec 6 schema) as [H6 | H6]; cbn [fmap list_fmap app].
    + repeat record_step. done.
    + rewrite Ha. by rewrite (proj2 (N.eqb_neq schema 6)) by lia.
Qed.

Lemma read_permit_back schema p :
  permit_typed p → schema_fits schema p →
  read_permit schema (kv_line <$> permit_fields schema p) = (Ok p, []).
Proof.
  intros Ht Hs. pose proof Ht as [Hw ? ? ? ? Hd Hu _ Hi]. pose proof Hs as (_ & Hb & _).
  unfold permit_fields, permit_head_fields, permit_policy_fields. rewrite !fmap_app.
  cbn [fmap list_fmap app]. unfold read_permit, enum_field, u64_field, u32_field, bool_field.
  repeat record_step. rewrite read_worker_back by done. repeat record_step.
  rewrite read_baseline_back by done. cbn [app]. repeat record_step.
  rewrite !read_bounds_back by done. rewrite read_tail_back by done. by destruct p.
Qed.

Lemma permit_header_clean schema :
  (3 ≤ schema ≤ 7)%N →
  negb (contains nl (permit_header schema)) && negb (contains cr (permit_header schema)) = true
  ∧ permit_schema_of_header (permit_header schema) = Ok schema.
Proof.
  intros H. assert (schema = 3 ∨ schema = 4 ∨ schema = 5 ∨ schema = 6 ∨ schema = 7)%N
    as [-> | [-> | [-> | [-> | ->]]]] by lia; by vm_compute.
Qed.

Lemma permit_keys_clean schema p :
  forallb (λ f, key_clean f.1) (permit_fields schema p) = true.
Proof.
  unfold permit_fields, permit_baseline_fields, permit_tail_fields.
  destruct (rp_baseline p), (rp_dns_server p), (4 <=? schema)%N, (5 <=? schema)%N, (6 <=? schema)%N;
    by vm_compute.
Qed.

(** C26: a permit written under any schema it fits is read back exactly; whatever text
    [decode] accepts is the text of a valid permit under one of the schemas 3 to 7,
    and reading it can never give authority to a permit [validate] refuses. *)
Theorem permit_codec_exact p :
  permit_typed p →
  (∀ schema text, permit_encode_for_schema schema p = Ok text → permit_decode text = Ok p)
  ∧ ∀ input, permit_decode input = Ok p →
      permit_validate p = Ok tt
      ∧ ∃ schema, schema_fits schema p ∧ permit_encode_for_schema schema p = Ok input.
Proof.
  intros Ht. split.
  - intros schema text He. pose proof (permit_encode_inv _ _ _ He) as (Hs & Hv & Hr).
    destruct (permit_header_clean schema) as [Hh Hb]; [by destruct Hs |].
    apply runtime_record_back in Hr as [Hn Hl]; [| by rewrite Hh, permit_keys_clean].
    unfold permit_decode. rewrite Hl. cbn [head default from_option id]. rewrite Hb.
    cbn [mbind result_bind]. rewrite Hn. cbn [mbind result_bind].
    rewrite read_permit_back by done. cbn [fst mbind result_bind]. rewrite Hv, He.
    cbn [mbind result_bind]. by rewrite String.eqb_refl.
  - intros input H. unfold permit_decode in H. unbind. subst.
    match goal with Hv : permit_validate p = Ok ?u |- _ => destruct u end.
    split; [done |]. reflect_bools.
    match goal with He : permit_encode_for_schema ?s p = Ok ?t, E : String.eqb ?t input = true |- _ =>
      apply String.eqb_eq in E; subst t; exists s; split; [by apply permit_encode_inv in He as [? _] | done]
    end.
Qed.

Lemma permit_codec_exact_witness :
  is_ok (permit_encode PermitSample.absent_permit ≫= permit_decode) = true
  ∧ ∀ text, permit_encode PermitSample.absent_permit = Ok text →
      permit_decode text = Ok PermitSample.absent_permit.
Proof.
  split; [by vm_compute |].
  refine (λ text H, proj1 (permit_codec_exact PermitSample.absent_permit _) _ text H).
  split; [repeat split; by vm_compute | by vm_compute .. | done |].
  intros a [= <-]. by vm_compute.
Defined.
