(* ===== verification/RuntimeCheckpoint.v ===== *)
(** * The durable checkpoint of a runtime override

    Models [RuntimeOverrideCheckpoint] of [operations/autotune_runtime_store.rs]:
    the record that makes the baseline of an instance durable before anything is
    changed, the stages of the temporary topology it publishes, and its text under
    the schemas 2 (managed baselines) and 5 (absent baselines). *)

From S2P Require Import Prelude RustStr SchedRecord PercentRecord LineRecord Vocabulary RustNet CapturePolicy OperationRequest JobJournal RuntimeControl PrivateNamespace TemporaryTopology RuntimePermit RuntimeRecord.
Local Open Scope string_scope.

(** ** Data *)

Record RuntimeOverrideCheckpoint := {
  ck_permit_id : string;
  ck_job_id : string;
  ck_worker_run_id : string;
  ck_boot_id : string;
  ck_coordinator_generation : string;
  ck_instance_name : string;
  ck_created_boot_ms : N;
  ck_baseline : RuntimeRestoreBaseline;
  ck_profile : AutotuneProfile;
  ck_link_kind : LinkKind;
  ck_managed_sqm_was_active : bool;
  ck_temporary_stage : TemporaryTopologyStage;
  ck_temporary : TemporaryTopologyIdentity;
}.

#[export] Instance RuntimeOverrideCheckpoint_eq_dec : EqDecision RuntimeOverrideCheckpoint.
Proof. solve_decision. Defined.

(** [checkpoint.temporary_stage = ..; checkpoint.temporary = ..] on a clone. *)
Definition at_stage (c : RuntimeOverrideCheckpoint) (stage : TemporaryTopologyStage)
    (temporary : TemporaryTopologyIdentity) : RuntimeOverrideCheckpoint :=
  {| ck_permit_id := c.(ck_permit_id); ck_job_id := c.(ck_job_id);
     ck_worker_run_id := c.(ck_worker_run_id); ck_boot_id := c.(ck_boot_id);
     ck_coordinator_generation := c.(ck_coordinator_generation);
     ck_instance_name := c.(ck_instance_name); ck_created_boot_ms := c.(ck_created_boot_ms);
     ck_baseline := c.(ck_baseline); ck_profile := c.(ck_profile);
     ck_link_kind := c.(ck_link_kind);
     ck_managed_sqm_was_active := c.(ck_managed_sqm_was_active);
     ck_temporary_stage := stage; ck_temporary := temporary |}.

(** [temporary.ifb_ifindex = ..] *)
Definition with_ifindex (ifindex : option N) (i : TemporaryTopologyIdentity)
    : TemporaryTopologyIdentity :=
  {| ifb_name := i.(ifb_name); ifb_alias := i.(ifb_alias); ifb_ifindex := ifindex;
     target_qdisc_handle := i.(target_qdisc_handle); ifb_qdisc_handle := i.(ifb_qdisc_handle);
     ingress_qdisc_handle := i.(ingress_qdisc_handle);
     redirect_preference := i.(redirect_preference);
     redirect_filter_handle := i.(redirect_filter_handle);
     redirect_action_index := i.(redirect_action_index);
     redirect_action_cookie := i.(redirect_action_cookie) |}.

(** ** Validation *)

(** The first [match] of [validate]: the baseline variant, the managed flag and the
    stage agree. *)
Definition checkpoint_variant (c : RuntimeOverrideCheckpoint) : Res unit :=
  match c.(ck_baseline) with
  | Managed _ =>
      fail_if (negb c.(ck_managed_sqm_was_active))
        "managed runtime checkpoint requires an active managed SQM baseline" ≫= λ _,
      fail_if (bool_decide (c.(ck_temporary_stage) = AbsenceAttested))
        "managed runtime checkpoint cannot claim an absence attestation"
  | Absent absent =>
      fail_if c.(ck_managed_sqm_was_active)
        "absent runtime checkpoint cannot claim an active managed SQM baseline" ≫= λ _,
      fail_if (bool_decide (c.(ck_temporary_stage) = ManagedSqmSuspended))
        "absent runtime checkpoint cannot claim managed SQM suspension" ≫= λ _,
      fail_if (negb (String.eqb absent.(ab_kernel_namespace_seed) c.(ck_permit_id)))
        "absent runtime checkpoint namespace does not match its permit ID"
  end.

(** The second [match]: the ifindex is published from link ownership on. *)
Definition checkpoint_ifindex (c : RuntimeOverrideCheckpoint) : Res unit :=
  match c.(ck_temporary_stage) with
  | LinkOwned | Active =>
      fail_if (negb (is_some c.(ck_temporary).(ifb_ifindex)))
        "runtime checkpoint cannot own a temporary topology without an IFB ifindex"
  | Planned | ManagedSqmSuspended | AbsenceAttested =>
      fail_if (is_some c.(ck_temporary).(ifb_ifindex))
        "runtime checkpoint publishes an IFB ifindex before link ownership"
  | TemporaryAbsent | BaselineRestored => Ok tt
  end.

Definition checkpoint_validate (c : RuntimeOverrideCheckpoint) : Res unit :=
  permit_hex "runtime checkpoint permit id" c.(ck_permit_id) 32 ≫= λ _,
  permit_hex "runtime checkpoint job id" c.(ck_job_id) 32 ≫= λ _,
  permit_hex "runtime checkpoint worker run id" c.(ck_worker_run_id) 32 ≫= λ _,
  permit_hex "runtime checkpoint boot id" c.(ck_boot_id) 32 ≫= λ _,
  permit_hex "runtime checkpoint coordinator generation" c.(ck_coordinator_generation) 32 ≫= λ _,
  permit_identifier "runtime checkpoint instance" c.(ck_instance_name) ≫= λ _,
  fail_if (c.(ck_created_boot_ms) =? 0)%N "runtime checkpoint timestamp is missing" ≫= λ _,
  validate_restore_baseline c.(ck_baseline) ≫= λ _,
  identity_validate_topology c.(ck_temporary) ≫= λ _,
  checkpoint_variant c ≫= λ _,
  checkpoint_ifindex c.

(** The identity comparison of [validate_against]. *)
Definition checkpoint_names_permit (c : RuntimeOverrideCheckpoint) (p : AutotuneRuntimePermit)
    : bool :=
  negb (p.(rp_deadline_boot_ms) <=? c.(ck_created_boot_ms))%N
  && String.eqb c.(ck_permit_id) p.(rp_permit_id) && String.eqb c.(ck_job_id) p.(rp_job_id)
  && String.eqb c.(ck_worker_run_id) p.(rp_worker_run_id)
  && String.eqb c.(ck_boot_id) p.(rp_boot_id)
  && String.eqb c.(ck_coordinator_generation) p.(rp_coordinator_generation)
  && String.eqb c.(ck_instance_name) p.(rp_instance_name)
  && bool_decide (c.(ck_profile) = p.(rp_profile))
  && bool_decide (c.(ck_link_kind) = p.(rp_link_kind)).

Definition checkpoint_validate_against (c : RuntimeOverrideCheckpoint) (p : AutotuneRuntimePermit)
    : Res unit :=
  checkpoint_validate c ≫= λ _,
  permit_validate p ≫= λ _,
  fail_if (negb (checkpoint_names_permit c p)) "runtime checkpoint does not match its permit"
    ≫= λ _,
  validate_for_permit c.(ck_baseline) p ≫= λ _,
  identity_validate_for_permit c.(ck_temporary) p.(rp_permit_id).

Definition checkpoint_new (p : AutotuneRuntimePermit) (created_boot_ms : N)
    (baseline : RuntimeRestoreBaseline) : Res RuntimeOverrideCheckpoint :=
  temporary ← planned_for_permit p.(rp_permit_id);
  let checkpoint := {|
    ck_permit_id := p.(rp_permit_id); ck_job_id := p.(rp_job_id);
    ck_worker_run_id := p.(rp_worker_run_id); ck_boot_id := p.(rp_boot_id);
    ck_coordinator_generation := p.(rp_coordinator_generation);
    ck_instance_name := p.(rp_instance_name); ck_created_boot_ms := created_boot_ms;
    ck_baseline := baseline; ck_profile := p.(rp_profile); ck_link_kind := p.(rp_link_kind);
    ck_managed_sqm_was_active := negb (is_absent baseline);
    ck_temporary_stage := Planned; ck_temporary := temporary |} in
  checkpoint_validate_against checkpoint p ≫= λ _, mret checkpoint.

Definition managed_baseline (c : RuntimeOverrideCheckpoint) : Res RuntimeSnapshot :=
  managed_snapshot c.(ck_baseline).

(** ** Stages *)

(** The [matches!] of [advance_temporary_stage]. *)
Definition stage_allowed {T} (b : RuntimeBaseline T) (from to : TemporaryTopologyStage) : bool :=
  match from, to with
  | Planned, ManagedSqmSuspended | ManagedSqmSuspended, LinkOwned
  | ManagedSqmSuspended, TemporaryAbsent => negb (is_absent b)
  | Planned, AbsenceAttested | AbsenceAttested, LinkOwned
  | AbsenceAttested, TemporaryAbsent => is_absent b
  | LinkOwned, Active
  | Planned, TemporaryAbsent | LinkOwned, TemporaryAbsent | Active, TemporaryAbsent
  | TemporaryAbsent, BaselineRestored | BaselineRestored, Planned => true
  | _, _ => false
  end.

(** The [match next]: what becomes of the published ifindex. *)
Definition advanced_temporary (c : RuntimeOverrideCheckpoint) (next : TemporaryTopologyStage)
    (observed_ifindex : option N) : Res TemporaryTopologyIdentity :=
  match next with
  | LinkOwned =>
      ifindex ← ok_or (observed_ifindex ≫= λ n, if (0 <? n)%N then Some n else None)
                  "temporary IFB ownership requires an ifindex";
      fail_if (is_some c.(ck_temporary).(ifb_ifindex))
        "temporary IFB ifindex was already published" ≫= λ _,
      mret (with_ifindex (Some ifindex) c.(ck_temporary))
  | _ =>
      if bool_decide (next = Planned) && bool_decide (c.(ck_temporary_stage) = BaselineRestored)
      then mret (with_ifindex None c.(ck_temporary))
      else
        fail_if (is_some observed_ifindex)
          "temporary IFB ifindex is only accepted at link ownership" ≫= λ _,
        mret c.(ck_temporary)
  end.

Definition advance_temporary_stage (c : RuntimeOverrideCheckpoint) (next : TemporaryTopologyStage)
    (observed_ifindex : option N) : Res RuntimeOverrideCheckpoint :=
  fail_if (negb (stage_allowed c.(ck_baseline) c.(ck_temporary_stage) next))
    ("runtime checkpoint temporary stage cannot advance from "
     +:+ TemporaryTopologyStage_as_str c.(ck_temporary_stage) +:+ " to "
     +:+ TemporaryTopologyStage_as_str next) ≫= λ _,
  temporary ← advanced_temporary c next observed_ifindex;
  let advanced := at_stage c next temporary in
  checkpoint_validate advanced ≫= λ _,
  mret advanced.

(** ** The text of a checkpoint *)

Definition checkpoint_header (schema : N) : string :=
  "cake-autorate-autotune-runtime-checkpoint" +:+ str1 tab +:+ show schema.

Definition checkpoint_head_fields (c : RuntimeOverrideCheckpoint) : list (string * string) :=
  [("permit_id", c.(ck_permit_id)); ("job_id", c.(ck_job_id));
   ("worker_run_id", c.(ck_worker_run_id)); ("boot_id", c.(ck_boot_id));
   ("coordinator_generation", c.(ck_coordinator_generation));
   ("instance_name", c.(ck_instance_name)); ("created_boot_ms", show c.(ck_created_boot_ms))].

Definition snapshot_fields (s : RuntimeSnapshot) : list (string * string) :=
  [("baseline_target_interface", s.(rs_target_interface));
   ("baseline_route_fingerprint", s.(rs_route_fingerprint));
   ("baseline_sqm_fingerprint", s.(rs_sqm_fingerprint));
   ("baseline_topology", MeasurementTopology_as_str s.(rs_topology));
   ("baseline_download_kbps", optional_number s.(rs_download_kbps));
   ("baseline_upload_kbps", optional_number s.(rs_upload_kbps));
   ("baseline_download_qdisc_kind", optional_qdisc_kind s.(rs_download_qdisc_kind));
   ("baseline_upload_qdisc_kind", optional_qdisc_kind s.(rs_upload_qdisc_kind))].

(** The managed fields an absent checkpoint leaves empty. *)
Definition MANAGED_KEYS : list string :=
  ["baseline_target_interface"; "baseline_route_fingerprint"; "baseline_sqm_fingerprint";
   "baseline_topology"; "baseline_download_kbps"; "baseline_upload_kbps";
   "baseline_download_qdisc_kind"; "baseline_upload_qdisc_kind"].

Definition restore_baseline_fields (b : RuntimeRestoreBaseline) : list (string * string) :=
  match b with
  | Managed snapshot => snapshot_fields snapshot
  | Absent absent =>
      ("baseline_state", "absent") :: ((λ key, (key, "")) <$> MANAGED_KEYS)
      ++ zip ABSENT_KEYS (absent_texts (Absent absent))
  end.

Definition temporary_fields (schema : N) (i : TemporaryTopologyIdentity)
    : list (string * string) :=
  [("temporary_ifb_name", i.(ifb_name)); ("temporary_ifb_alias", i.(ifb_alias));
   ("temporary_ifb_ifindex", optional_number i.(ifb_ifindex));
   ("temporary_target_qdisc_handle", i.(target_qdisc_handle));
   ("temporary_ifb_qdisc_handle", i.(ifb_qdisc_handle));
   ("temporary_ingress_qdisc_handle", i.(ingress_qdisc_handle));
   ("temporary_redirect_preference", show i.(redirect_preference))]
  ++ (if (4 <=? schema)%N then
        [("temporary_redirect_filter_handle", show i.(redirect_filter_handle));
         ("temporary_redirect_action_index", show i.(redirect_action_index));
         ("temporary_redirect_action_cookie", i.(redirect_action_cookie))]
      else []).

Definition checkpoint_policy_fields (c : RuntimeOverrideCheckpoint) : list (string * string) :=
  [("profile", AutotuneProfile_as_str c.(ck_profile));
   ("link_kind", LinkKind_as_str c.(ck_link_kind));
   ("managed_sqm_was_active", bool_text c.(ck_managed_sqm_was_active));
   ("temporary_stage", TemporaryTopologyStage_as_str c.(ck_temporary_stage))].

Definition checkpoint_fields (schema : N) (c : RuntimeOverrideCheckpoint)
    : list (string * string) :=
  checkpoint_head_fields c ++ restore_baseline_fields c.(ck_baseline)
  ++ checkpoint_policy_fields c ++ temporary_fields schema c.(ck_temporary).

(** The [match (schema, &self.baseline)] of [encode_for_schema]. *)
Definition checkpoint_schema_header (schema : N) (b : RuntimeRestoreBaseline) : Res string :=
  match schema, b with
  | 2%N, Managed _ | 5%N, Absent _ => Ok (checkpoint_header schema)
  | 2%N, Absent _ => Err "legacy runtime checkpoint schema cannot represent an absent baseline"
  | 3%N, _ => Err "runtime checkpoint schema 3 predates deterministic namespace authority"
  | 4%N, _ => Err "runtime checkpoint schema 4 predates executable absence stages"
  | 5%N, Managed _ => Err "runtime checkpoint schema 5 is reserved for absent baselines"
  | _, _ => Err "unsupported runtime checkpoint schema"
  end.

Definition checkpoint_encode_for_schema (schema : N) (c : RuntimeOverrideCheckpoint)
    : Res string :=
  checkpoint_validate c ≫= λ _,
  header ← checkpoint_schema_header schema c.(ck_baseline);
  runtime_record header (checkpoint_fields schema c).

Definition checkpoint_encode (c : RuntimeOverrideCheckpoint) : Res string :=
  checkpoint_encode_for_schema (if is_absent c.(ck_baseline) then 5 else 2) c.

(** *** Decoding *)

Definition checkpoint_schema_of_header (header : string) : Res N :=
  if String.eqb header (checkpoint_header 2) then Ok 2%N
  else if String.eqb header (checkpoint_header 3) then
    Err "runtime checkpoint schema 3 predates deterministic namespace authority"
  else if String.eqb header (checkpoint_header 4) then
    Err "runtime checkpoint schema 4 predates executable absence stages"
  else if String.eqb header (checkpoint_header 5) then Ok 5%N
  else Err "runtime record header is invalid".

Definition qdisc_field (name : string) : RuntimeReader (option RuntimeQdiscKind) :=
  field_with name (optional_qdisc_kind_value name).

Definition read_snapshot : RuntimeReader RuntimeSnapshot :=
  target_interface ← runtime_field "baseline_target_interface";
  route_fingerprint ← runtime_field "baseline_route_fingerprint";
  sqm_fingerprint ← runtime_field "baseline_sqm_fingerprint";
  topology ← enum_field "baseline_topology" MeasurementTopology_parse
               "runtime checkpoint topology is unsupported";
  download_kbps ← field_with "baseline_download_kbps"
                    (runtime_optional runtime_u64 "baseline_download_kbps");
  upload_kbps ← field_with "baseline_upload_kbps"
                  (runtime_optional runtime_u64 "baseline_upload_kbps");
  download_qdisc_kind ← qdisc_field "baseline_download_qdisc_kind";
  upload_qdisc_kind ← qdisc_field "baseline_upload_qdisc_kind";
  mret {| rs_target_interface := target_interface; rs_route_fingerprint := route_fingerprint;
          rs_sqm_fingerprint := sqm_fingerprint; rs_topology := topology;
          rs_download_kbps := download_kbps; rs_upload_kbps := upload_kbps;
          rs_download_qdisc_kind := download_qdisc_kind;
          rs_upload_qdisc_kind := upload_qdisc_kind |}.

(** The loop over the managed keys. *)
Fixpoint read_empty (keys : list string) : RuntimeReader unit :=
  match keys with
  | [] => mret tt
  | key :: keys =>
      field_with key (λ value, fail_if (negb (String.eqb value ""))
        "absent runtime checkpoint contains managed baseline data") ≫= λ _,
      read_empty keys
  end.

Definition read_absent : RuntimeReader AbsentRuntimeBaseline :=
  field_with "baseline_state" (λ value, fail_if (negb (String.eqb value "absent"))
    "runtime checkpoint schema 3 requires an absent baseline") ≫= λ _,
  read_empty MANAGED_KEYS ≫= λ _,
  section ← runtime_field "absent_planned_sqm_section";
  interface ← runtime_field "absent_target_interface";
  ifindex ← u32_field "absent_target_ifindex";
  route ← runtime_field "absent_route_fingerprint";
  config ← runtime_field "absent_config_fingerprint";
  sqm ← runtime_field "absent_sqm_fingerprint";
  kernel ← runtime_field "absent_kernel_topology_fingerprint";
  seed ← runtime_field "absent_kernel_namespace_seed";
  mret {| ab_planned_sqm_section := section; ab_target_interface := interface;
          ab_target_ifindex := ifindex; ab_route_fingerprint := route;
          ab_config_fingerprint := config; ab_sqm_fingerprint := sqm;
          ab_kernel_topology_fingerprint := kernel; ab_kernel_namespace_seed := seed |}.

Definition read_restore_baseline (schema : N) : RuntimeReader RuntimeRestoreBaseline :=
  if (schema =? 2)%N then snapshot ← read_snapshot; mret (Managed snapshot)
  else absent ← read_absent; mret (Absent absent).

(** What the record says of the temporary identity, over the plan of its permit. *)
Definition read_temporary (schema : N) (permit_id : string)
    : RuntimeReader TemporaryTopologyIdentity :=
  planned ← lift (planned_for_permit permit_id);
  name ← runtime_field "temporary_ifb_name";
  alias ← runtime_field "temporary_ifb_alias";
  ifindex ← field_with "temporary_ifb_ifindex"
              (runtime_optional runtime_u32 "temporary_ifb_ifindex");
  target ← runtime_field "temporary_target_qdisc_handle";
  ifb ← runtime_field "temporary_ifb_qdisc_handle";
  ingress ← runtime_field "temporary_ingress_qdisc_handle";
  preference ← field_with "temporary_redirect_preference"
                 (runtime_u16 "temporary_redirect_preference");
  redirect ← (if (4 <=? schema)%N then
                filter ← u32_field "temporary_redirect_filter_handle";
                action ← u32_field "temporary_redirect_action_index";
                cookie ← runtime_field "temporary_redirect_action_cookie";
                mret (filter, action, cookie)
              else mret (planned.(redirect_filter_handle), planned.(redirect_action_index),
                         planned.(redirect_action_cookie)));
  let '(filter, action, cookie) := redirect in
  mret {| ifb_name := name; ifb_alias := alias; ifb_ifindex := ifindex;
          target_qdisc_handle := target; ifb_qdisc_handle := ifb;
          ingress_qdisc_handle := ingress; redirect_preference := preference;
          redirect_filter_handle := filter; redirect_action_index := action;
          redirect_action_cookie := cookie |}.

Definition read_checkpoint (schema : N) : RuntimeReader RuntimeOverrideCheckpoint :=
  permit_id ← runtime_field "permit_id";
  job_id ← runtime_field "job_id";
  worker_run_id ← runtime_field "worker_run_id";
  boot_id ← runtime_field "boot_id";
  generation ← runtime_field "coordinator_generation";
  instance_name ← runtime_field "instance_name";
  created ← u64_field "created_boot_ms";
  baseline ← read_restore_baseline schema;
  profile ← enum_field "profile" AutotuneProfile_parse
              "runtime checkpoint profile is unsupported";
  link_kind ← enum_field "link_kind" LinkKind_parse
                "runtime checkpoint link kind is unsupported";
  active ← bool_field "managed_sqm_was_active";
  lift (fail_if ((schema =? 2)%N && negb active)
    "legacy runtime checkpoint requires managed_sqm_was_active=1") ≫= λ _,
  stage ← enum_field "temporary_stage" TemporaryTopologyStage_parse
            "runtime checkpoint temporary stage is unsupported";
  temporary ← read_temporary schema permit_id;
  runtime_finish ≫= λ _,
  mret {| ck_permit_id := permit_id; ck_job_id := job_id; ck_worker_run_id := worker_run_id;
          ck_boot_id := boot_id; ck_coordinator_generation := generation;
          ck_instance_name := instance_name; ck_created_boot_ms := created;
          ck_baseline := baseline; ck_profile := profile; ck_link_kind := link_kind;
          ck_managed_sqm_was_active := active; ck_temporary_stage := stage;
          ck_temporary := temporary |}.

Definition checkpoint_decode (input : string) : Res RuntimeOverrideCheckpoint :=
  schema ← checkpoint_schema_of_header (default "" (head (lines input)));
  record ← runtime_new input (checkpoint_header schema);
  checkpoint ← (read_checkpoint schema record).1;
  checkpoint_validate checkpoint ≫= λ _,
  text ← checkpoint_encode_for_schema schema checkpoint;
  fail_if (negb (String.eqb text input)) "runtime checkpoint record is not canonical" ≫= λ _,
  mret checkpoint.

(** ** Lemmas: what fits a record *)

(** A value of at most 64 bytes without separators. *)
Definition record_value (v : string) : Prop := all_bytes kv_byte v = true ∧ (len v ≤ 64)%N.
(** A field of at most 100 bytes with its separators. *)
Definition record_ok (f : string * string) : Prop :=
  key_clean f.1 && negb (String.eqb f.1 "") && (len f.1 <=? 34)%N = true ∧ record_value f.2.

Lemma record_value_intro v : kv_value v → (len v ≤ 64)%N → record_value v.
Proof. by intros [? _] ?. Qed.

Lemma record_value_hex name v n : permit_hex name v n = Ok tt → (n ≤ 64)%N → record_value v.
Proof.
  intros H Hn. apply record_value_intro; [by eapply evidence_hex_value; [eassumption | lia] |].
  apply permit_hex_ok in H as [-> _]. done.
Qed.

Lemma record_value_extra extra (v : string) (b : bool) (e : string) :
  all_bytes kv_byte extra = true →
  fail_if (b || (64 <? len v)%N
           || negb (all_bytes (λ c, is_ascii_alphanumeric c || contains c extra) v)) e = Ok tt →
  record_value v.
Proof.
  intros He H%fail_if_ok. reflect_bools. apply record_value_intro; [| done].
  apply (kv_value_extra extra); [done | done | lia].
Qed.

Lemma record_value_identifier name v : permit_identifier name v = Ok tt → record_value v.
Proof. by apply record_value_extra. Qed.
Lemma record_value_interface v : permit_interface v = Ok tt → record_value v.
Proof. by apply record_value_extra. Qed.

Lemma record_value_show n : is_u64 n → record_value (show n).
Proof.
  intros Hn. apply record_value_intro; [by apply kv_value_show |].
  destruct (show_val_ok n Hn) as [_ ?]. lia.
Qed.

Lemma record_value_number (o : option N) : (∀ n, o = Some n → is_u64 n) → record_value (optional_number o).
Proof. destruct o; intros H; [by apply record_value_show, H | done]. Qed.

Lemma record_value_handle name v : validate_qdisc_handle name v = Ok tt → record_value v.
Proof.
  unfold validate_qdisc_handle. intros (hex & E & H)%bind_ok_inv. apply ok_or_ok_inv in E.
  apply fail_if_ok in H. apply orb_false_iff in H as [H1 H2]. reflect_bools.
  assert (G : all_bytes kv_byte v = true ∧ len v = (len hex + 1)%N).
  { clear -E H2. revert hex E H2. induction v as [| a v IH]; intros hex E H2; [done |].
    destruct v as [| b v].
    - cbn [strip_suffix_char] in E. destruct (Ascii.eqb_spec a ":") as [-> |]; [| done].
      by injection E as <-.
    - change (String a <$> strip_suffix_char ":" (String b v) = Some hex) in E.
      apply fmap_Some in E as (h & E & ->). cbn [all_bytes] in H2. reflect_bools.
      destruct (IH h E) as [Hv Hl]; [done |].
      split; [| rewrite !len_cons in *; lia]. cbn [all_bytes] in *.
      rewrite Hv, andb_true_r. unfold kv_byte. rewrite hex_printable by done.
      by destruct (Ascii.eqb_spec a "=") as [-> |]. }
  destruct G as [Hv Hl]. split; [done | lia].
Qed.

(** Fields that fit lines of 100 bytes, at most 40 of them, fit a record. *)
Lemma record_total header fields :
  Forall record_ok fields → (length fields ≤ 40)%nat → (len header ≤ 90)%N →
  runtime_record header fields = Ok (kv_text header fields).
Proof.
  intros Hf Hn Hh. unfold runtime_record.
  assert (check_fields fields = Ok tt) as ->.
  { clear Hn. induction Hf as [| [k v] fields [Hk [Hv _]] _ IH]; [done |].
    cbn [check_fields fst snd] in *. reflect_bools.
    rewrite (proj2 (String.eqb_neq k "")) by by apply String.eqb_neq.
    assert (any_byte (λ c, (c =? nl)%char || (c =? cr)%char || (c =? chr 0)%char) v = false) as ->;
      [| done].
    unfold any_byte. apply negb_false_iff, (all_bytes_impl kv_byte); [| done].
    intros c Hc. rewrite !(proj2 (Ascii.eqb_neq c _)); [done | by intros ->..]. }
  cbn [mbind result_bind].
  enough (len (kv_text header fields) ≤ len header + 1 + 100 * N.of_nat (length fields))%N as Hl.
  { unfold MAX_RUNTIME_RECORD_BYTES. by rewrite (proj2 (N.ltb_ge _ _)) by lia. }
  clear Hn Hh. unfold kv_text. rewrite len_append, len_cons.
  enough (len (foldr (λ f rest, kv_line f +:+ String nl rest) "" fields)
          ≤ 100 * N.of_nat (length fields))%N by lia.
  induction Hf as [| f fields [Hk [_ Hv]] _ IH]; [done |]. reflect_bools.
  cbn [foldr length]. rewrite len_append, len_cons, kv_line_len. lia.
Qed.

Lemma record_ok_intro k v :
  key_clean k && negb (String.eqb k "") && (len k <=? 34)%N = true → record_value v →
  record_ok (k, v).
Proof. done. Qed.

Lemma record_keys_clean fields : Forall record_ok fields → forallb (λ f, key_clean f.1) fields = true.
Proof.
  induction 1 as [| f fields [Hk _] _ IH]; [done |]. reflect_bools. cbn [forallb]. by rewrite H, IH.
Qed.

(** ** Lemmas: the fields of a valid checkpoint *)

(** The numbers an observer supplied fit their fields. *)
Definition checkpoint_typed (c : RuntimeOverrideCheckpoint) : Prop :=
  is_u64 c.(ck_created_boot_ms) ∧ ∀ n, c.(ck_temporary).(ifb_ifindex) = Some n → is_u32 n.

(** The temporary identity is the plan of the checkpoint's own permit. *)
Definition checkpoint_planned (c : RuntimeOverrideCheckpoint) : Prop :=
  identity_validate_for_permit c.(ck_temporary) c.(ck_permit_id) = Ok tt.

Lemma lor_lt a b k : (a < 2 ^ k)%N → (b < 2 ^ k)%N → (N.lor a b < 2 ^ k)%N.
Proof.
  intros Ha Hb. destruct (N.eq_dec (N.lor a b) 0) as [-> | H]; [lia |].
  apply N.log2_lt_pow2; [lia |]. rewrite N.log2_lor.
  destruct (N.eq_dec a 0) as [-> | Ha'], (N.eq_dec b 0) as [-> | Hb']; try done.
  - change (N.log2 0) with 0%N. rewrite N.max_0_l. apply N.log2_lt_pow2; lia.
  - change (N.log2 0) with 0%N. rewrite N.max_0_r. apply N.log2_lt_pow2; lia.
  - apply N.max_lub_lt; apply N.log2_lt_pow2; lia.
Qed.

Lemma temporary_numbers i p :
  identity_validate_for_permit i p = Ok tt →
  (i.(redirect_preference) ≤ u16_max)%N ∧ is_u32 i.(redirect_filter_handle)
  ∧ is_u32 i.(redirect_action_index) ∧ i.(redirect_action_cookie) = p.
Proof.
  intros (_ & e & He & E)%identity_for_permit_ok.
  destruct (planned_for_permit_inv p e He) as (t & b & [_ _ _ _ _ _ _ [_ Hp] Hf Ho Hk]).
  destruct Hf as (node & Hf & _ & ?), Ho as (low & Ho & ?). injection E as _ _ _ _ _ E1 E2 E3 E4.
  rewrite E1, E2, E3, E4, Hf, Ho, Hk. unfold u16_max, is_u32, u32_max.
  split_and?; [lia | | | done];
    apply N.lt_succ_r; change (N.succ 4294967295) with (2 ^ 32)%N; (apply lor_lt; [done |]).
  - change (2 ^ 32)%N with 4294967296%N. lia.
  - change (2 ^ 24)%N with 16777216%N in *. change (2 ^ 32)%N with 4294967296%N. lia.
Qed.

Lemma snapshot_validate_ok s : snapshot_validate s = Ok tt →
  permit_interface s.(rs_target_interface) = Ok tt
  ∧ permit_hex "runtime snapshot route fingerprint" s.(rs_route_fingerprint) 64 = Ok tt
  ∧ permit_hex "runtime snapshot SQM fingerprint" s.(rs_sqm_fingerprint) 64 = Ok tt
  ∧ (∀ r, s.(rs_download_kbps) = Some r → is_u64 r) ∧ (∀ r, s.(rs_upload_kbps) = Some r → is_u64 r).
Proof.
  unfold snapshot_validate. rewrite !then_ok, topology_rates_ok.
  intros (? & ? & ? & (Hd & Hu & _) & _). split_and?; try done; intros r Hr; by apply rate_u64; auto.
Qed.

Lemma uci_section_value s : validate_uci_section s = Ok tt → record_value s.
Proof.
  intros H%fail_if_ok. reflect_bools. apply record_value_intro; [| done].
  apply (kv_value_extra "_"); [done | | lia].
  unfold any_byte in *. reflect_bools. eapply all_bytes_impl; [| eassumption].
  intros c. cbv beta. rewrite negb_andb, !negb_involutive. intros [-> | Hc]%orb_true_iff;
    [done |]. apply Ascii.eqb_eq in Hc as ->. done.
Qed.

Lemma absent_validate_ok b : absent_validate b = Ok tt →
  validate_uci_section b.(ab_planned_sqm_section) = Ok tt
  ∧ permit_interface b.(ab_target_interface) = Ok tt
  ∧ is_u32 b.(ab_target_ifindex)
  ∧ (∀ v, v ∈ [b.(ab_route_fingerprint); b.(ab_config_fingerprint); b.(ab_sqm_fingerprint);
               b.(ab_kernel_topology_fingerprint); b.(ab_kernel_namespace_seed)] → record_value v).
Proof.
  unfold absent_validate. rewrite !then_ok, fail_if_ok. intros (H1 & H2 & H3 & ? & ? & ? & ? & ? & _).
  reflect_bools. split_and?; try done.
  - unfold is_u32, u32_max, i32_max in *. lia.
  - intros v Hv. repeat (apply elem_of_cons in Hv as [-> | Hv]);
      [by eapply record_value_hex; [eassumption | done] .. | by apply elem_of_nil in Hv].
Qed.

Lemma stage_value s : record_value (TemporaryTopologyStage_as_str s).
Proof. by destruct s. Qed.
Lemma topology_record_value t : record_value (MeasurementTopology_as_str t).
Proof. by destruct t. Qed.
Lemma qdisc_kind_value o : record_value (optional_qdisc_kind o).
Proof. by destruct o as [[] |]. Qed.
Lemma profile_value p : record_value (AutotuneProfile_as_str p).
Proof. by destruct p. Qed.
Lemma link_kind_value k : record_value (LinkKind_as_str k).
Proof. by destruct k. Qed.
Lemma bool_record_value b : record_value (bool_text b).
Proof. by destruct b. Qed.
Lemma u32_record_value n : is_u32 n → record_value (show n).
Proof. intros H. by apply record_value_show, is_u32_u64. Qed.
Lemma u16_record_value n : (n ≤ u16_max)%N → record_value (show n).
Proof. intros H. apply record_value_show. unfold is_u64, u64_max, u16_max in *. lia. Qed.
Lemma u32_number_value (o : option N) : (∀ n, o = Some n → is_u32 n) → record_value (optional_number o).
Proof. intros H. apply record_value_number. intros n ?. by apply is_u32_u64, H. Qed.

Create HintDb record.
#[export] Hint Resolve record_value_identifier record_value_interface
  record_value_show record_value_number record_value_handle uci_section_value stage_value
  topology_record_value qdisc_kind_value profile_value link_kind_value bool_record_value
  u32_record_value u16_record_value u32_number_value : record.

Ltac record_lines :=
  repeat (apply Forall_cons; split); try solve [constructor];
  (apply record_ok_intro; [reflexivity |]);
  first [ by eauto with record | eapply record_value_hex; [eassumption | done] ].

Lemma restore_baseline_fields_ok b :
  validate_restore_baseline b = Ok tt → Forall record_ok (restore_baseline_fields b).
Proof.
  destruct b as [s | a]; cbn [validate_restore_baseline restore_baseline_fields].
  - intros (? & ? & ? & ? & ?)%snapshot_validate_ok. unfold snapshot_fields. record_lines.
  - intros (? & ? & ? & H)%absent_validate_ok.
    cbn [MANAGED_KEYS ABSENT_KEYS absent_texts zip zip_with fmap list_fmap app].
    repeat (apply Forall_cons; split); try solve [constructor];
      (apply record_ok_intro; [reflexivity |]);
      first [ by eauto with record | done | apply H; set_solver ].
Qed.

Lemma temporary_fields_ok schema i p :
  identity_validate_for_permit i p = Ok tt → (∀ n, i.(ifb_ifindex) = Some n → is_u32 n) →
  Forall record_ok (temporary_fields schema i).
Proof.
  intros Hi Hn. destruct (temporary_numbers i p Hi) as (? & ? & ? & Hk).
  apply identity_for_permit_ok in Hi as [Hi _].
  unfold identity_validate_topology in Hi. rewrite !then_ok in Hi.
  destruct Hi as (? & _ & ? & _ & ? & ? & _ & Hg & _ & _ & _ & ?).
  apply fail_if_ok, negb_false_iff, String.eqb_eq in Hg.
  unfold temporary_fields. apply Forall_app. split; [| destruct (4 <=? schema)%N]; try rewrite Hg;
    try record_lines.
Qed.

Lemma checkpoint_fields_ok schema c :
  checkpoint_validate c = Ok tt → checkpoint_typed c → checkpoint_planned c →
  Forall record_ok (checkpoint_fields schema c).
Proof.
  intros Hv [? Ht] Hp. unfold checkpoint_validate in Hv. rewrite !then_ok in Hv.
  destruct Hv as (? & ? & ? & ? & ? & ? & _ & Hb & _).
  unfold checkpoint_fields. rewrite !Forall_app. split_and?.
  - unfold checkpoint_head_fields. record_lines.
  - by apply restore_baseline_fields_ok.
  - unfold checkpoint_policy_fields. record_lines.
  - by eapply temporary_fields_ok.
Qed.

(** ** Lemmas: reading the fields back *)

Lemma optional_u64_back name o : (∀ n, o = Some n → is_u64 n) →
  runtime_optional runtime_u64 name (optional_number o) = Ok o.
Proof.
  intros H. unfold runtime_optional. destruct o as [n |]; [| done]. cbn [optional_number].
  rewrite show_nonempty, runtime_u64_back by by apply H. done.
Qed.

Lemma optional_u32_back name o : (∀ n, o = Some n → is_u32 n) →
  runtime_optional runtime_u32 name (optional_number o) = Ok o.
Proof.
  intros H. unfold runtime_optional. destruct o as [n |]; [| done]. cbn [optional_number].
  rewrite show_nonempty, runtime_u32_back by by apply H. done.
Qed.

Lemma qdisc_kind_back name o : optional_qdisc_kind_value name (optional_qdisc_kind o) = Ok o.
Proof. by destruct o as [[] |]. Qed.

Ltac optional_step :=
  erewrite field_with_step;
    [| done | first [ by apply optional_u64_back | by apply optional_u32_back
                    | by apply qdisc_kind_back | done ] ].

Lemma read_restore_baseline_back schema b rest {A} (f : RuntimeRestoreBaseline → RuntimeReader A) :
  (schema =? 2)%N = negb (is_absent b) → validate_restore_baseline b = Ok tt →
  (read_restore_baseline schema ≫= f) ((kv_line <$> restore_baseline_fields b) ++ rest)%list
  = f b rest.
Proof.
  intros Hs Hv. apply part_step. unfold read_restore_baseline. rewrite Hs.
  destruct b as [s | a]; cbn [is_absent negb restore_baseline_fields].
  - apply snapshot_validate_ok in Hv as (_ & _ & _ & Hd & Hu).
    unfold snapshot_fields. cbn [fmap list_fmap app].
    erewrite part_step; last first; [| done]. unfold read_snapshot, enum_field, qdisc_field.
    repeat record_step. repeat optional_step. by destruct s.
  - apply absent_validate_ok in Hv as (_ & _ & Hi & _).
    cbn [MANAGED_KEYS ABSENT_KEYS absent_texts zip zip_with fmap list_fmap app].
    erewrite part_step; last first; [| done]. unfold read_absent, u32_field. optional_step.
    erewrite part_step; [| cbn [MANAGED_KEYS read_empty]; repeat optional_step; done].
    repeat record_step. by destruct a.
Qed.

Lemma read_temporary_back schema i p {A} (f : TemporaryTopologyIdentity → RuntimeReader A) :
  identity_validate_for_permit i p = Ok tt → (∀ n, i.(ifb_ifindex) = Some n → is_u32 n) →
  (read_temporary schema p ≫= f) (kv_line <$> temporary_fields schema i) = f i [].
Proof.
  intros Hi Hn. destruct (temporary_numbers i p Hi) as (? & ? & ? & Hk).
  apply identity_for_permit_ok in Hi as (_ & e & He & E). apply part_step.
  unfold read_temporary, temporary_fields. rewrite He, lift_step. cbn [fmap list_fmap app].
  repeat record_step. optional_step. repeat record_step.
  injection E as _ _ _ _ _ _ E2 E3 E4.
  destruct (4 <=? schema)%N; cbn [fmap list_fmap app].
  - erewrite part_step; last first; [unfold u32_field; by repeat record_step | by destruct i].
  - rewrite <- E2, <- E3, <- E4. by destruct i.
Qed.

Definition checkpoint_schema (c : RuntimeOverrideCheckpoint) : N :=
  if is_absent c.(ck_baseline) then 5 else 2.

Lemma read_checkpoint_back c :
  checkpoint_validate c = Ok tt → checkpoint_typed c → checkpoint_planned c →
  read_checkpoint (checkpoint_schema c) (kv_line <$> checkpoint_fields (checkpoint_schema c) c)
  = (Ok c, []).
Proof.
  intros Hv [Hc Ht] Hp. unfold checkpoint_validate in Hv. rewrite !then_ok in Hv.
  destruct Hv as (? & ? & ? & ? & ? & ? & _ & Hb & _ & Hx & _).
  assert (Hs : (checkpoint_schema c =? 2)%N = negb (is_absent c.(ck_baseline)))
    by (unfold checkpoint_schema; by destruct (ck_baseline c)).
  unfold checkpoint_fields, checkpoint_head_fields, checkpoint_policy_fields.
  rewrite !fmap_app. cbn [fmap list_fmap app]. unfold read_checkpoint, enum_field, u64_field, bool_field.
  repeat record_step. rewrite read_restore_baseline_back by done. cbn [app]. repeat record_step.
  assert ((checkpoint_schema c =? 2)%N && negb c.(ck_managed_sqm_was_active) = false) as ->.
  { rewrite Hs. unfold checkpoint_variant in Hx. destruct (ck_baseline c); [| done].
    by apply then_ok in Hx as [Hx%fail_if_ok _]. }
  cbn [fail_if]. repeat record_step. rewrite read_temporary_back by done. by destruct c.
Qed.

Lemma checkpoint_headers c :
  checkpoint_schema_header (checkpoint_schema c) c.(ck_baseline)
    = Ok (checkpoint_header (checkpoint_schema c))
  ∧ checkpoint_schema_of_header (checkpoint_header (checkpoint_schema c)) = Ok (checkpoint_schema c)
  ∧ negb (contains nl (checkpoint_header (checkpoint_schema c)))
    && negb (contains cr (checkpoint_header (checkpoint_schema c))) = true
  ∧ (len (checkpoint_header (checkpoint_schema c)) ≤ 90)%N
  ∧ (length (checkpoint_fields (checkpoint_schema c) c) ≤ 40)%nat.
Proof.
  unfold checkpoint_schema, checkpoint_fields. destruct (ck_baseline c); cbn [is_absent];
    (split_and?; [by vm_compute .. |]);
    cbn [length app checkpoint_head_fields restore_baseline_fields snapshot_fields
      checkpoint_policy_fields temporary_fields MANAGED_KEYS ABSENT_KEYS absent_texts
      zip zip_with fmap list_fmap N.leb N.compare Pos.compare Pos.compare_cont]; lia.
Qed.

Lemma checkpoint_encode_decode c :
  checkpoint_validate c = Ok tt → checkpoint_typed c → checkpoint_planned c →
  ∃ text, checkpoint_encode c = Ok text ∧ checkpoint_decode text = Ok c.
Proof.
  intros Hv Ht Hp. destruct (checkpoint_headers c) as (Hh & Hb & Hn & Hl & Hk).
  pose proof (checkpoint_fields_ok (checkpoint_schema c) c Hv Ht Hp) as Hf.
  pose proof (record_total _ _ Hf Hk Hl) as Hr.
  assert (He : checkpoint_encode_for_schema (checkpoint_schema c) c
               = runtime_record (checkpoint_header (checkpoint_schema c))
                   (checkpoint_fields (checkpoint_schema c) c))
    by (unfold checkpoint_encode_for_schema; by rewrite Hv, Hh).
  eexists. change (checkpoint_encode c) with (checkpoint_encode_for_schema (checkpoint_schema c) c).
  split; [by rewrite He, Hr |].
  unfold checkpoint_decode.
  pose proof (runtime_record_back _ _ _ ltac:(by rewrite Hn, (record_keys_clean _ Hf)) Hr) as [Hnew Hlines].
  rewrite Hlines. cbn [head default from_option id]. rewrite Hb. cbn [mbind result_bind].
  rewrite Hnew. cbn [mbind result_bind]. rewrite read_checkpoint_back by done.
  cbn [fst mbind result_bind]. rewrite Hv, He, Hr. cbn [mbind result_bind]. by rewrite String.eqb_refl.
Qed.

Lemma checkpoint_decode_inv input c :
  checkpoint_decode input = Ok c → checkpoint_validate c = Ok tt ∧ checkpoint_encode c = Ok input.
Proof.
  unfold checkpoint_decode. intros H. unbind. subst.
  match goal with Hv : checkpoint_validate c = Ok ?u |- _ => destruct u end. split; [done |].
  reflect_bools. match goal with E : String.eqb _ input = true |- _ => apply String.eqb_eq in E; subst end.
  match goal with He : checkpoint_encode_for_schema ?s c = Ok input |- _ =>
    assert (s = checkpoint_schema c) as ->; [| exact He];
    unfold checkpoint_encode_for_schema in He; apply then_ok in He as [_ He];
    apply bind_ok_inv in He as (? & He & _); unfold checkpoint_schema_header in He;
    unfold checkpoint_schema end.
  destruct (ck_baseline c); cbn [is_absent]; repeat case_match; done.
Qed.

(** ** Lemmas: what was read is typed *)

Lemma runtime_u64_range name s n : runtime_u64 name s = Ok n → is_u64 n.
Proof. unfold runtime_u64. intros [_ H]%then_ok. apply ok_or_ok_inv in H. by eapply parse_uint_max. Qed.

Lemma runtime_u32_range name s n : runtime_u32 name s = Ok n → is_u32 n.
Proof.
  unfold runtime_u32, runtime_narrow. intros (m & _ & H)%bind_ok_inv.
  apply then_ok in H as [H%fail_if_ok E]. injection E as <-. by apply N.ltb_ge in H.
Qed.

Lemma field_with_inv {T} name (parse : string → Res T) record v rest :
  field_with name parse record = (Ok v, rest) → ∃ s, parse s = Ok v.
Proof. unfold field_with. intros H. unbind. eauto. Qed.

Lemma read_temporary_typed schema p record i rest n :
  read_temporary schema p record = (Ok i, rest) → i.(ifb_ifindex) = Some n → is_u32 n.
Proof.
  unfold read_temporary. intros H. unbind.
  repeat match goal with x : _ * _ |- _ => destruct x end. unbind. subst. cbn.
  match goal with H : field_with "temporary_ifb_ifindex" _ _ = _ |- _ => apply field_with_inv in H as (text & H) end.
  intros ->. unfold runtime_optional in *. destruct (String.eqb text ""); [discriminate |].
  unbind. simplify_eq. by eapply runtime_u32_range.
Qed.

Lemma read_checkpoint_typed schema record c rest :
  read_checkpoint schema record = (Ok c, rest) → checkpoint_typed c.
Proof.
  unfold read_checkpoint. intros H. unbind. subst. split; cbn.
  - match goal with H : u64_field _ _ = _ |- _ => apply field_with_inv in H as (text & H) end.
    by eapply runtime_u64_range.
  - intros n. by eapply read_temporary_typed.
Qed.

Lemma checkpoint_decode_typed input c : checkpoint_decode input = Ok c → checkpoint_typed c.
Proof.
  unfold checkpoint_decode. intros H. unbind. subst.
  match goal with H : (read_checkpoint ?s ?r).1 = Ok c |- _ =>
    destruct (read_checkpoint s r) as [x rest] eqn:E; cbn in H; subst x end.
  by eapply read_checkpoint_typed.
Qed.

(** ** Lemmas: stages *)

Lemma without_with_ifindex o i : without_ifindex (with_ifindex o i) = without_ifindex i.
Proof. done. Qed.

Lemma identity_with_ifindex o i :
  identity_validate_topology i = Ok tt → o ≠ Some 0%N →
  identity_validate_topology (with_ifindex o i) = Ok tt.
Proof.
  unfold identity_validate_topology. cbn [with_ifindex ifb_name ifb_alias ifb_ifindex
    target_qdisc_handle ifb_qdisc_handle ingress_qdisc_handle redirect_preference
    redirect_filter_handle redirect_action_index redirect_action_cookie].
  rewrite !then_ok, !fail_if_ok, !bool_decide_eq_false. intros H Ho. destruct_and?.
  split_and?; done.
Qed.

(** The ifindex a checkpoint may publish at a stage. *)
Definition stage_ifindex (stage : TemporaryTopologyStage) (ifindex : option N) : Prop :=
  match stage with
  | LinkOwned | Active => is_Some ifindex
  | Planned | ManagedSqmSuspended | AbsenceAttested => ifindex = None
  | TemporaryAbsent | BaselineRestored => True
  end.

Lemma checkpoint_ifindex_ok c :
  checkpoint_ifindex c = Ok tt ↔ stage_ifindex c.(ck_temporary_stage) c.(ck_temporary).(ifb_ifindex).
Proof.
  unfold checkpoint_ifindex, stage_ifindex.
  destruct (ck_temporary_stage c), (ifb_ifindex (ck_temporary c)); cbn;
    split; done || (intros; exfalso; by eapply is_Some_None) || eauto.
Qed.

Lemma variant_at_stage c next t :
  checkpoint_variant c = Ok tt → stage_allowed c.(ck_baseline) c.(ck_temporary_stage) next = true →
  checkpoint_variant (at_stage c next t) = Ok tt.
Proof.
  unfold checkpoint_variant. cbn [at_stage ck_baseline ck_managed_sqm_was_active
    ck_temporary_stage ck_permit_id].
  destruct (ck_baseline c); intros (-> & H)%then_ok Hs; cbn [mbind result_bind].
  - apply fail_if_ok, bool_decide_eq_false. intros ->. by destruct (ck_temporary_stage c).
  - apply then_ok in H as [_ ->]. apply then_ok. split; [| done].
    apply fail_if_ok, bool_decide_eq_false. intros ->. by destruct (ck_temporary_stage c).
Qed.

(** What an accepted advance did. *)
Definition advance_effect (c : RuntimeOverrideCheckpoint) (next : TemporaryTopologyStage)
    (observed : option N) (c' : RuntimeOverrideCheckpoint) : Prop :=
  ∃ ifindex, c' = at_stage c next (with_ifindex ifindex c.(ck_temporary))
    ∧ stage_allowed c.(ck_baseline) c.(ck_temporary_stage) next = true
    ∧ match next with
      | LinkOwned => ∃ n, observed = Some n ∧ ifindex = Some n ∧ n ≠ 0%N
                          ∧ c.(ck_temporary).(ifb_ifindex) = None
      | Planned => ifindex = None
      | _ => observed = None ∧ ifindex = c.(ck_temporary).(ifb_ifindex)
      end.

Lemma with_own_ifindex i : with_ifindex i.(ifb_ifindex) i = i.
Proof. by destruct i. Qed.

Lemma advanced_temporary_inv c next o t :
  stage_allowed c.(ck_baseline) c.(ck_temporary_stage) next = true →
  advanced_temporary c next o = Ok t →
  advance_effect c next o (at_stage c next t).
Proof.
  intros Hs H. unfold advance_effect, advanced_temporary in *.
  destruct (bool_decide (next = Planned) && bool_decide (ck_temporary_stage c = BaselineRestored)) eqn:E.
  - reflect_bools. subst next. injection H as <-. by exists None.
  - assert (next ≠ Planned) by (intros ->; rewrite bool_decide_eq_true_2 in E by done;
      cbn [andb] in E; reflect_bools; by destruct (ck_temporary_stage c)).
    destruct next; try done;
      try (apply then_ok in H as [H1%fail_if_ok H2]; injection H2 as <-; destruct o; [done |];
           eexists; split; [by rewrite with_own_ifindex | done]).
    apply bind_ok_inv in H as (n & Hn & H). apply ok_or_ok_inv in Hn.
    apply then_ok in H as [H1%fail_if_ok H2]. injection H2 as <-. exists (Some n).
    destruct o as [m |]; [| done]. cbn in Hn. destruct (N.ltb_spec 0 m); [| done].
    injection Hn as ->. split_and?; [done | done |]. exists n. split_and?; [done | done | lia |].
    by destruct (ifb_ifindex (ck_temporary c)).
Qed.

Lemma advance_inv c next o c' :
  advance_temporary_stage c next o = Ok c' →
  advance_effect c next o c' ∧ checkpoint_validate c' = Ok tt.
Proof.
  unfold advance_temporary_stage. intros [Hs H]%then_ok. apply fail_if_ok, negb_false_iff in Hs.
  apply bind_ok_inv in H as (t & Ht & H). apply then_ok in H as [Hv H]. injection H as <-.
  split; [by apply advanced_temporary_inv | done].
Qed.

(** Advancing changes nothing but the stage and the published ifindex, so the
    checkpoint goes on binding its permit. *)
Lemma advance_against c next o c' p :
  checkpoint_validate_against c p = Ok tt → advance_temporary_stage c next o = Ok c' →
  checkpoint_validate_against c' p = Ok tt.
Proof.
  unfold checkpoint_validate_against. rewrite !then_ok, identity_for_permit_ok.
  intros (_ & Hp & Hn & Hb & _ & e & He & E) H. apply advance_inv in H as [(o' & -> & _) Hv].
  split_and?; [done | done | done | done |].
  apply identity_for_permit_ok. split; [| by exists e].
  unfold checkpoint_validate in Hv. rewrite !then_ok in Hv. by destruct_and?.
Qed.

Lemma checkpoint_validate_ok c : checkpoint_validate c = Ok tt →
  identity_validate_topology c.(ck_temporary) = Ok tt ∧ checkpoint_variant c = Ok tt
  ∧ stage_ifindex c.(ck_temporary_stage) c.(ck_temporary).(ifb_ifindex).
Proof.
  unfold checkpoint_validate. rewrite !then_ok, checkpoint_ifindex_ok.
  intros H. destruct_and?. done.
Qed.

Lemma identity_ifindex_nonzero i : identity_validate_topology i = Ok tt → i.(ifb_ifindex) ≠ Some 0%N.
Proof.
  unfold identity_validate_topology. rewrite !then_ok, !fail_if_ok, !bool_decide_eq_false.
  intros H. by destruct_and?.
Qed.

(** The observation an advance needs: the ifindex of the owned link. *)
Definition stage_observation (next : TemporaryTopologyStage) (observed : option N) : Prop :=
  match next with
  | LinkOwned => ∃ n, observed = Some n ∧ n ≠ 0%N
  | Planned => True
  | _ => observed = None
  end.

(** Every allowed advance of a valid checkpoint succeeds. *)
Lemma advance_ok c next o :
  checkpoint_validate c = Ok tt →
  stage_allowed c.(ck_baseline) c.(ck_temporary_stage) next = true →
  stage_observation next o →
  ∃ c', advance_temporary_stage c next o = Ok c'.
Proof.
  intros Hv Hs Ho. pose proof (checkpoint_validate_ok c Hv) as (Hi & Hx & Hf).
  pose proof (identity_ifindex_nonzero _ Hi) as Hz.
  assert (∃ o', advanced_temporary c next o = Ok (with_ifindex o' c.(ck_temporary))
          ∧ stage_ifindex next o' ∧ o' ≠ Some 0%N) as (o' & Ht & Hf' & Hz').
  { unfold advanced_temporary.
    destruct next; cbn [stage_observation] in Ho; try subst o; cbn [is_some fail_if mbind result_bind];
      try (exists c.(ck_temporary).(ifb_ifindex); rewrite with_own_ifindex; split_and?; [done | | done];
           by destruct (ck_temporary_stage c)).
    - exists None. by destruct (ck_temporary_stage c), o.
    - destruct Ho as (n & -> & Hn). exists (Some n). cbn [option_bind mbind ok_or].
      rewrite (proj2 (N.ltb_lt 0 n)) by lia. cbn [ok_or mbind result_bind].
      assert (ifb_ifindex (ck_temporary c) = None) as -> by by destruct (ck_temporary_stage c).
      split_and?; [done | by eexists | congruence]. }
  exists (at_stage c next (with_ifindex o' c.(ck_temporary))).
  unfold advance_temporary_stage. rewrite Hs, Ht. cbn [negb fail_if mbind result_bind].
  assert (checkpoint_validate (at_stage c next (with_ifindex o' c.(ck_temporary))) = Ok tt) as ->;
    [| done].
  unfold checkpoint_validate in *. rewrite !then_ok in *. destruct_and?.
  split_and?; try done; [by apply identity_with_ifindex | by apply variant_at_stage |].
  by apply checkpoint_ifindex_ok.
Qed.

(** ** Properties *)

(** The checkpoints of one session: a new one, then its advances. *)
Inductive checkpoint_reachable (p : AutotuneRuntimePermit) (now : N) (b : RuntimeRestoreBaseline)
    : RuntimeOverrideCheckpoint → Prop :=
  | ckpt_new c : checkpoint_new p now b = Ok c → checkpoint_reachable p now b c
  | ckpt_advance c next o c' :
      checkpoint_reachable p now b c → (∀ n, o = Some n → is_u32 n) →
      advance_temporary_stage c next o = Ok c' → checkpoint_reachable p now b c'.

Lemma checkpoint_new_inv p now b c : checkpoint_new p now b = Ok c →
  checkpoint_validate_against c p = Ok tt ∧ c.(ck_baseline) = b ∧ c.(ck_created_boot_ms) = now
  ∧ c.(ck_temporary_stage) = Planned ∧ c.(ck_temporary).(ifb_ifindex) = None.
Proof.
  unfold checkpoint_new. intros (t & Ht & H)%bind_ok_inv. apply then_ok in H as [Hv H].
  injection H as <-. destruct (planned_for_permit_inv _ _ Ht) as (? & ? & Hp). by destruct Hp.
Qed.

Lemma against_planned c p : checkpoint_validate_against c p = Ok tt →
  checkpoint_validate c = Ok tt ∧ checkpoint_planned c.
Proof.
  unfold checkpoint_validate_against, checkpoint_planned. rewrite !then_ok.
  intros (? & _ & Hn & _ & Hi). split; [done |].
  apply fail_if_ok, negb_false_iff in Hn. unfold checkpoint_names_permit in Hn.
  reflect_bools. match goal with E : String.eqb (ck_permit_id c) _ = true |- _ =>
    apply String.eqb_eq in E as -> end. done.
Qed.

(** What every checkpoint of a session is. *)
Record session_checkpoint (p : AutotuneRuntimePermit) (now : N) (b : RuntimeRestoreBaseline)
    (c : RuntimeOverrideCheckpoint) : Prop := {
  sc_against : checkpoint_validate_against c p = Ok tt;
  sc_baseline : c.(ck_baseline) = b;
  sc_created : c.(ck_created_boot_ms) = now;
  sc_typed : is_u64 now → checkpoint_typed c;
}.

Lemma session_advance p now b c next o c' :
  session_checkpoint p now b c → (∀ n, o = Some n → is_u32 n) →
  advance_temporary_stage c next o = Ok c' → session_checkpoint p now b c'.
Proof.
  intros [Ha Hb Hc Ht] Ho H. pose proof (advance_against _ _ _ _ _ Ha H) as Ha'.
  apply advance_inv in H as [(i & -> & _ & Hi) _]. split; [done | done | done |].
  intros [H1 H2]%Ht. split; [done |]. intros n Hn. cbn in Hn. subst i.
  destruct next; [done | | | | | |]; try (apply H2; destruct Hi; congruence).
  destruct Hi as (m & Hm & [= <-] & _). by apply Ho.
Qed.

Lemma reachable_session p now b c : checkpoint_reachable p now b c → session_checkpoint p now b c.
Proof.
  induction 1 as [c H | c next o c' _ IH Ho H]; [| by eapply session_advance].
  apply checkpoint_new_inv in H as (? & ? & Hn & _ & Hi). split; [done | done | done |].
  intros ?. split; [by rewrite Hn | by rewrite Hi].
Qed.

(** C27: every checkpoint a session publishes - the first one and each stage it
    advances to - still binds the permit it was made for, records the baseline that
    was captured before anything was changed, publishes an ifindex exactly from link
    ownership on, and survives a crash: it can be written, and what was written
    decodes to it. *)
Theorem checkpoint_invariant p now b c :
  is_u64 now → checkpoint_reachable p now b c →
  checkpoint_validate_against c p = Ok tt ∧ c.(ck_baseline) = b ∧ c.(ck_created_boot_ms) = now
  ∧ stage_ifindex c.(ck_temporary_stage) c.(ck_temporary).(ifb_ifindex)
  ∧ ∃ text, checkpoint_encode c = Ok text ∧ checkpoint_decode text = Ok c.
Proof.
  intros Hn [Ha Hb Hc Ht]%reachable_session. pose proof (against_planned _ _ Ha) as [Hv Hp].
  split_and?; [done | done | done | by apply checkpoint_validate_ok |].
  apply checkpoint_encode_decode; [done | by apply Ht | done].
Qed.

Lemma absent_allowed c : checkpoint_validate c = Ok tt →
  c.(ck_temporary_stage) ≠ TemporaryAbsent → c.(ck_temporary_stage) ≠ BaselineRestored →
  stage_allowed c.(ck_baseline) c.(ck_temporary_stage) TemporaryAbsent = true.
Proof.
  intros (_ & Hx & _)%checkpoint_validate_ok. unfold checkpoint_variant in Hx.
  destruct (ck_baseline c), (ck_temporary_stage c); try done;
    rewrite !then_ok, !fail_if_ok in Hx; by destruct_and?.
Qed.

(** The advances that bring a checkpoint to its restored baseline. *)
Definition restore_path (stage : TemporaryTopologyStage) : list TemporaryTopologyStage :=
  match stage with
  | BaselineRestored => []
  | TemporaryAbsent => [BaselineRestored]
  | _ => [TemporaryAbsent; BaselineRestored]
  end.

Definition advance_all (stages : list TemporaryTopologyStage) (c : RuntimeOverrideCheckpoint)
    : Res RuntimeOverrideCheckpoint :=
  foldl (λ r next, c ← r; advance_temporary_stage c next None) (Ok c) stages.

Lemma advance_last c :
  checkpoint_validate c = Ok tt → c.(ck_temporary_stage) = TemporaryAbsent →
  ∃ c', advance_temporary_stage c BaselineRestored None = Ok c'
    ∧ c'.(ck_temporary_stage) = BaselineRestored ∧ c'.(ck_baseline) = c.(ck_baseline).
Proof.
  intros Hv E. destruct (advance_ok c BaselineRestored None) as (d & Hd); [done | by rewrite E | done |].
  exists d. split; [done |]. by apply advance_inv in Hd as [(? & -> & _) _].
Qed.

(** A stage can be entered exactly along the transitions of its baseline
    variant, with the ifindex of the link at link ownership and nowhere else; and
    from every valid checkpoint at most two advances record the restored baseline,
    so a restoration can never be blocked by the stage it starts from. *)
Theorem checkpoint_stages_exact c next observed :
  checkpoint_validate c = Ok tt →
  ((∃ c', advance_temporary_stage c next observed = Ok c')
     ↔ stage_allowed c.(ck_baseline) c.(ck_temporary_stage) next = true
       ∧ stage_observation next observed)
  ∧ ∃ c', advance_all (restore_path c.(ck_temporary_stage)) c = Ok c'
      ∧ c'.(ck_temporary_stage) = BaselineRestored ∧ c'.(ck_baseline) = c.(ck_baseline).
Proof.
  intros Hv. split.
  - split; [| intros []; by apply advance_ok].
    intros (c' & ((i & _ & Hs & Hi) & _)%advance_inv). split; [done |].
    destruct next; cbn [stage_observation]; try done; try by destruct Hi.
    destruct Hi as (n & ? & _ & ? & _). by exists n.
  - unfold advance_all. destruct (decide (c.(ck_temporary_stage) = BaselineRestored)) as [E | E1].
    { rewrite E. by exists c. }
    destruct (decide (c.(ck_temporary_stage) = TemporaryAbsent)) as [E | E2].
    { rewrite E. by apply advance_last. }
    destruct (advance_ok c TemporaryAbsent None) as (d & Hd); [done | by apply absent_allowed | done |].
    pose proof (advance_inv _ _ _ _ Hd) as [(? & E & _) Hvd].
    destruct (advance_last d) as (c' & Hc' & ? & Hb); [done | by rewrite E |].
    exists c'. split_and?; [| done | by rewrite Hb, E].
    destruct (ck_temporary_stage c); try done; cbn [restore_path foldl mbind result_bind];
      by rewrite Hd.
Qed.

(** ** Witnesses *)

Module CheckpointSample.
Definition baseline : RuntimeRestoreBaseline := Managed PermitSample.snapshot.
Definition blank : RuntimeOverrideCheckpoint :=
  {| ck_permit_id := ""; ck_job_id := ""; ck_worker_run_id := ""; ck_boot_id := "";
     ck_coordinator_generation := ""; ck_instance_name := ""; ck_created_boot_ms := 0;
     ck_baseline := baseline; ck_profile := BestOverall; ck_link_kind := Ethernet;
     ck_managed_sqm_was_active := true; ck_temporary_stage := Planned;
     ck_temporary := sample_plan sample_id |}.
Definition get_ok (r : Res RuntimeOverrideCheckpoint) : RuntimeOverrideCheckpoint :=
  match r with Ok c => c | Err _ => blank end.
Definition fresh : RuntimeOverrideCheckpoint := get_ok (checkpoint_new PermitSample.permit 1000 baseline).
Definition suspended : RuntimeOverrideCheckpoint :=
  get_ok (advance_temporary_stage fresh ManagedSqmSuspended None).
Definition owned : RuntimeOverrideCheckpoint :=
  get_ok (advance_temporary_stage suspended LinkOwned (Some 12%N)).

Example absent_checkpoint :
  (c ← checkpoint_new PermitSample.absent_permit 1000 (Absent PermitSample.absent);
   text ← checkpoint_encode c; checkpoint_decode text)
  = checkpoint_new PermitSample.absent_permit 1000 (Absent PermitSample.absent).
Proof. by vm_compute. Qed.
End CheckpointSample.

Lemma owned_reachable :
  checkpoint_reachable PermitSample.permit 1000 CheckpointSample.baseline CheckpointSample.owned.
Proof.
  apply (ckpt_advance _ _ _ CheckpointSample.suspended LinkOwned (Some 12%N));
    [apply (ckpt_advance _ _ _ CheckpointSample.fresh ManagedSqmSuspended None);
       [apply ckpt_new; by vm_compute | done | by vm_compute]
    | intros n [= <-]; by vm_compute | by vm_compute].
Qed.

Lemma checkpoint_invariant_witness :
  ∃ text, checkpoint_encode CheckpointSample.owned = Ok text
    ∧ checkpoint_decode text = Ok CheckpointSample.owned.
Proof.
  destruct (checkpoint_invariant PermitSample.permit 1000 CheckpointSample.baseline
    CheckpointSample.owned) as (_ & _ & _ & _ & H); [by vm_compute | apply owned_reachable | done].
Defined.

Lemma checkpoint_stages_exact_witness :
  ∃ c', advance_all (restore_path CheckpointSample.owned.(ck_temporary_stage)) CheckpointSample.owned
          = Ok c'
    ∧ c'.(ck_temporary_stage) = BaselineRestored.
Proof.
  destruct (checkpoint_stages_exact CheckpointSample.owned Active None) as (_ & c' & H & Hs & _);
    [by vm_compute | exists c'; split; [exact H | exact Hs]].
Defined.
