(* ===== verification/RuntimeOverride.v ===== *)
(** * The runtime override state machine

    Models [RuntimeOverrideTracker] of [operations/autotune_runtime.rs]: the
    instance-side owner of a temporary override, from the control a worker
    submits to the restoration of the durable baseline. A method on [&mut self]
    is a function from a tracker to an action and a tracker. *)

From S2P Require Import Prelude RustStr SchedRecord PercentRecord LineRecord Vocabulary RustNet CapturePolicy OperationRequest JobJournal RuntimeControl PrivateNamespace TemporaryTopology RuntimePermit.
Local Open Scope string_scope.

(** ** Data *)

Inductive RuntimeOverridePhase :=
  | PhaseIdle | PhaseApplying | PhaseApplied | PhaseRestoring | PhaseRestored.

Inductive RuntimeRestoreReason :=
  | ApplyFailed | AppliedAttestationMismatch | ControlMissing | PermitMissing | DeadlineExpired
  | WorkerIdentityMismatch | RouteDrift | BaselineAttestationUnavailable | SqmDrift
  | RuntimeDrift | SequenceConflict | InstanceRestarted.

Inductive RuntimeIdentityHealth := Matches | Drifted | Unavailable.

#[export] Instance RuntimeOverridePhase_eq_dec : EqDecision RuntimeOverridePhase.
Proof. solve_decision. Defined.
#[export] Instance RuntimeRestoreReason_eq_dec : EqDecision RuntimeRestoreReason.
Proof. solve_decision. Defined.
#[export] Instance RuntimeIdentityHealth_eq_dec : EqDecision RuntimeIdentityHealth.
Proof. solve_decision. Defined.

Definition from_attestation (r : Res bool) : RuntimeIdentityHealth :=
  match r with Ok true => Matches | Ok false => Drifted | Err _ => Unavailable end.

Inductive RuntimeOverrideAction :=
  | NoAction
  | MalformedControl
  | Apply (control : AutotuneRuntimeControl)
  | Restore (baseline : RuntimeRestoreBaseline) (reason : RuntimeRestoreReason)
      (ack : AutotuneRuntimeAck)
  | PublishAck (ack : AutotuneRuntimeAck).

Record RuntimeOverrideHealth := {
  oh_current_boot_ms : N;
  oh_permit_present : bool;
  oh_control_present : bool;
  oh_worker_identity_matches : bool;
  oh_route_identity : string;
  oh_baseline_identity : RuntimeIdentityHealth;
  oh_applied_runtime_matches : bool;
}.

Record RuntimeRouteRearmHealth := {
  rh_current_boot_ms : N;
  rh_restore_intent_present : bool;
  rh_worker_identity_matches : bool;
  rh_route_identity : string;
  rh_baseline_identity : RuntimeIdentityHealth;
  rh_baseline_runtime_matches : bool;
}.

Record RuntimeOverrideSession := {
  s_permit : AutotuneRuntimePermit;
  s_baseline : RuntimeRestoreBaseline;
  s_control : AutotuneRuntimeControl;
  s_applied_ack : option AutotuneRuntimeAck;
  s_restore_reason : option RuntimeRestoreReason;
  s_restore_started_boot_ms : option N;
}.

Record RuntimeOverrideTracker := {
  t_instance_name : string;
  t_phase : RuntimeOverridePhase;
  t_session : option RuntimeOverrideSession;
}.

Definition with_phase (phase : RuntimeOverridePhase) (t : RuntimeOverrideTracker) :=
  {| t_instance_name := t.(t_instance_name); t_phase := phase; t_session := t.(t_session) |}.
Definition with_session (session : option RuntimeOverrideSession) (t : RuntimeOverrideTracker) :=
  {| t_instance_name := t.(t_instance_name); t_phase := t.(t_phase); t_session := session |}.

(** ** Acknowledgements *)

Definition ack_of (c : AutotuneRuntimeControl) (sequence current_boot_ms : N)
    (state : RuntimeAckState) (topology : option MeasurementTopology)
    (download_kbps upload_kbps : option N) (diagnostic_code : option string)
    : AutotuneRuntimeAck :=
  {| ra_permit_id := c.(rc_permit_id); ra_job_id := c.(rc_job_id);
     ra_worker_run_id := c.(rc_worker_run_id); ra_sequence := sequence;
     ra_updated_boot_ms := current_boot_ms; ra_target_interface := c.(rc_target_interface);
     ra_route_fingerprint := c.(rc_route_fingerprint);
     ra_sqm_fingerprint := c.(rc_sqm_fingerprint); ra_state := state;
     ra_topology := topology; ra_download_kbps := download_kbps;
     ra_upload_kbps := upload_kbps; ra_diagnostic_code := diagnostic_code |}.

Definition applied_ack (c : AutotuneRuntimeControl) (current_boot_ms : N) : AutotuneRuntimeAck :=
  ack_of c c.(rc_sequence) current_boot_ms Applied (Some c.(rc_topology)) c.(rc_download_kbps)
    c.(rc_upload_kbps) None.

Definition restoration_ack (c : AutotuneRuntimeControl) (current_boot_ms : N)
    (state : RuntimeAckState) : AutotuneRuntimeAck :=
  ack_of c c.(rc_sequence) current_boot_ms state None None None None.

Definition rejected_ack (c : AutotuneRuntimeControl) (current_boot_ms : N)
    (diagnostic_code : string) : AutotuneRuntimeAck :=
  ack_of c (N.max c.(rc_sequence) 1) (N.max current_boot_ms 1) Rejected None None None
    (Some diagnostic_code).

(** [s.contains(pattern)] *)
Fixpoint contains_str (pattern s : string) : bool :=
  starts_with pattern s || match s with "" => false | String _ s => contains_str pattern s end.

Definition rejection_code (error : string) : string :=
  if contains_str "lifetime" error then "permit-lifetime-invalid"
  else if contains_str "bypass" error then "topology-not-permitted"
  else if contains_str "range" error then "rate-not-permitted"
  else "permit-mismatch".

(** ** Methods *)

Definition tracker_new (instance_name : string) : Res RuntimeOverrideTracker :=
  permit_identifier "runtime tracker instance" instance_name ≫= λ _,
  mret {| t_instance_name := instance_name; t_phase := PhaseIdle; t_session := None |}.

Definition owner_permit (t : RuntimeOverrideTracker) : option AutotuneRuntimePermit :=
  s_permit <$> t.(t_session).
Definition requested_control (t : RuntimeOverrideTracker) : option AutotuneRuntimeControl :=
  s_control <$> t.(t_session).
Definition restore_reason (t : RuntimeOverrideTracker) : option RuntimeRestoreReason :=
  t.(t_session) ≫= s_restore_reason.
Definition tracker_baseline (t : RuntimeOverrideTracker) : option RuntimeRestoreBaseline :=
  s_baseline <$> t.(t_session).

Definition reject_before_apply (t : RuntimeOverrideTracker) (c : AutotuneRuntimeControl)
    (current_boot_ms : N) (diagnostic_code : string) : RuntimeOverrideAction :=
  if negb (bool_decide (t.(t_phase) = PhaseIdle)) || negb (is_ok (runtime_control_validate c))
     || negb (is_ok (permit_identifier "runtime rejection diagnostic" diagnostic_code))
  then MalformedControl
  else PublishAck (rejected_ack c current_boot_ms diagnostic_code).

Definition begin_restore (t : RuntimeOverrideTracker) (reason : RuntimeRestoreReason)
    (current_boot_ms : N) : RuntimeOverrideAction * RuntimeOverrideTracker :=
  match t.(t_session) with
  | None => (NoAction, t)
  | Some s =>
      let started := default (N.max current_boot_ms 1) s.(s_restore_started_boot_ms) in
      let s' := {| s_permit := s.(s_permit); s_baseline := s.(s_baseline);
                   s_control := s.(s_control); s_applied_ack := s.(s_applied_ack);
                   s_restore_reason := Some reason;
                   s_restore_started_boot_ms := Some started |} in
      (Restore s.(s_baseline) reason (restoration_ack s.(s_control) started Restoring),
       with_session (Some s') (with_phase PhaseRestoring t))
  end.

(** A new control under the same session. *)
Definition replace_control (c : AutotuneRuntimeControl) (s : RuntimeOverrideSession) :=
  {| s_permit := s.(s_permit); s_baseline := s.(s_baseline); s_control := c;
     s_applied_ack := None; s_restore_reason := s.(s_restore_reason);
     s_restore_started_boot_ms := s.(s_restore_started_boot_ms) |}.

(** [u32::saturating_add(1)] *)
Definition u32_succ (n : N) : N := N.min (n + 1) u32_max.

(** [submit] on an idle tracker. *)
Definition submit_idle (t : RuntimeOverrideTracker) (permit : AutotuneRuntimePermit)
    (control : AutotuneRuntimeControl) (baseline : option RuntimeRestoreBaseline)
    (current_boot_ms : N) : RuntimeOverrideAction * RuntimeOverrideTracker :=
  match baseline with
  | None => (PublishAck (rejected_ack control current_boot_ms "baseline-required"), t)
  | Some baseline =>
      if is_ok (validate_for_permit baseline permit) then
        let session := {| s_permit := permit; s_baseline := baseline; s_control := control;
                          s_applied_ack := None; s_restore_reason := None;
                          s_restore_started_boot_ms := None |} in
        (Apply control, with_session (Some session) (with_phase PhaseApplying t))
      else (PublishAck (rejected_ack control current_boot_ms "baseline-mismatch"), t)
  end.

(** [submit] once the permit and the control belong to the open session. *)
Definition submit_owned (t : RuntimeOverrideTracker) (session : RuntimeOverrideSession)
    (control : AutotuneRuntimeControl) (current_boot_ms : N)
    : RuntimeOverrideAction * RuntimeOverrideTracker :=
  if bool_decide (t.(t_phase) = PhaseRestoring) || bool_decide (t.(t_phase) = PhaseRestored) then
    (PublishAck (rejected_ack control current_boot_ms "runtime-restoration-pending"), t)
  else if (control.(rc_sequence) =? session.(s_control).(rc_sequence))%N then
    if negb (bool_decide (control = session.(s_control))) then
      begin_restore t SequenceConflict current_boot_ms
    else
      (match session.(s_applied_ack) with Some ack => PublishAck ack | None => NoAction end, t)
  else if negb (control.(rc_sequence) =? u32_succ session.(s_control).(rc_sequence))%N then
    begin_restore t SequenceConflict current_boot_ms
  else
    (Apply control,
     with_session (Some (replace_control control session)) (with_phase PhaseApplying t)).

Definition submit (t : RuntimeOverrideTracker) (permit : AutotuneRuntimePermit)
    (control : AutotuneRuntimeControl) (baseline : option RuntimeRestoreBaseline)
    (current_boot_ms : N) : RuntimeOverrideAction * RuntimeOverrideTracker :=
  if negb (is_ok (runtime_control_validate control)) then (MalformedControl, t)
  else
    match authorizes permit t.(t_instance_name) control current_boot_ms with
    | Err error => (PublishAck (rejected_ack control current_boot_ms (rejection_code error)), t)
    | Ok _ =>
        if bool_decide (t.(t_phase) = PhaseIdle) then
          submit_idle t permit control baseline current_boot_ms
        else
          match t.(t_session) with
          | None =>
              (PublishAck (rejected_ack control current_boot_ms "tracker-state-invalid"), t)
          | Some session =>
              if negb (String.eqb session.(s_permit).(rp_permit_id) permit.(rp_permit_id))
                 || negb (String.eqb session.(s_permit).(rp_job_id) permit.(rp_job_id))
                 || negb (String.eqb session.(s_permit).(rp_worker_run_id) permit.(rp_worker_run_id))
              then (PublishAck (rejected_ack control current_boot_ms "runtime-owner-busy"), t)
              else if negb (bool_decide (session.(s_permit) = permit)) then
                begin_restore t SequenceConflict current_boot_ms
              else submit_owned t session control current_boot_ms
          end
    end.

(** [session.control] with another sequence number. *)
Definition with_sequence (sequence : N) (c : AutotuneRuntimeControl) : AutotuneRuntimeControl :=
  {| rc_permit_id := c.(rc_permit_id); rc_job_id := c.(rc_job_id);
     rc_worker_run_id := c.(rc_worker_run_id); rc_boot_id := c.(rc_boot_id);
     rc_coordinator_generation := c.(rc_coordinator_generation); rc_worker := c.(rc_worker);
     rc_sequence := sequence; rc_deadline_boot_ms := c.(rc_deadline_boot_ms);
     rc_target_interface := c.(rc_target_interface);
     rc_route_fingerprint := c.(rc_route_fingerprint);
     rc_sqm_fingerprint := c.(rc_sqm_fingerprint); rc_topology := c.(rc_topology);
     rc_download_kbps := c.(rc_download_kbps); rc_upload_kbps := c.(rc_upload_kbps) |}.

(** The reason [rearm_after_route_recovery] refuses a control, in its order. *)
Definition rearm_refusal (t : RuntimeOverrideTracker) (session : RuntimeOverrideSession)
    (permit : AutotuneRuntimePermit) (control : AutotuneRuntimeControl)
    (health : RuntimeRouteRearmHealth) : option string :=
  if negb (bool_decide (t.(t_phase) = PhaseRestored))
     || negb (bool_decide (session.(s_restore_reason) = Some RouteDrift))
  then Some "runtime-rearm-not-eligible"
  else if health.(rh_restore_intent_present) then Some "runtime-rearm-restore-pending"
  else if negb (bool_decide (session.(s_permit) = permit)) then
    Some "runtime-rearm-owner-mismatch"
  else if (u32_max <? session.(s_control).(rc_sequence) + 1)%N
          || negb (session.(s_control).(rc_sequence) + 1 =? control.(rc_sequence))%N then
    Some "runtime-rearm-sequence-mismatch"
  else if negb (bool_decide (with_sequence control.(rc_sequence) session.(s_control) = control))
  then Some "runtime-rearm-control-mismatch"
  else if negb health.(rh_worker_identity_matches) then Some "runtime-rearm-worker-mismatch"
  else None.

(** The session of a control that is applied again. *)
Definition rearmed (c : AutotuneRuntimeControl) (s : RuntimeOverrideSession) :=
  {| s_permit := s.(s_permit); s_baseline := s.(s_baseline); s_control := c;
     s_applied_ack := None; s_restore_reason := None; s_restore_started_boot_ms := None |}.

Definition rearm_after_route_recovery (t : RuntimeOverrideTracker)
    (permit : AutotuneRuntimePermit) (control : AutotuneRuntimeControl)
    (health : RuntimeRouteRearmHealth) : RuntimeOverrideAction * RuntimeOverrideTracker :=
  let now := health.(rh_current_boot_ms) in
  if negb (is_ok (runtime_control_validate control)) then (MalformedControl, t)
  else
    match authorizes permit t.(t_instance_name) control now with
    | Err error => (PublishAck (rejected_ack control now (rejection_code error)), t)
    | Ok _ =>
        match t.(t_session) with
        | None => (PublishAck (rejected_ack control now "runtime-rearm-owner-missing"), t)
        | Some session =>
            match rearm_refusal t session permit control health with
            | Some code => (PublishAck (rejected_ack control now code), t)
            | None =>
                if negb (String.eqb health.(rh_route_identity)
                           session.(s_permit).(rp_route_identity))
                   || negb (bool_decide (health.(rh_baseline_identity) = Matches))
                   || negb health.(rh_baseline_runtime_matches)
                then (NoAction, t)
                else
                  (Apply control,
                   with_session (Some (rearmed control session)) (with_phase PhaseApplying t))
            end
        end
    end.

Definition set_applied_ack (a : AutotuneRuntimeAck) (s : RuntimeOverrideSession) :=
  {| s_permit := s.(s_permit); s_baseline := s.(s_baseline); s_control := s.(s_control);
     s_applied_ack := Some a; s_restore_reason := s.(s_restore_reason);
     s_restore_started_boot_ms := s.(s_restore_started_boot_ms) |}.

Definition confirm_applied (t : RuntimeOverrideTracker) (attested : RuntimeSnapshot)
    (current_boot_ms : N) : RuntimeOverrideAction * RuntimeOverrideTracker :=
  if negb (bool_decide (t.(t_phase) = PhaseApplying)) then (NoAction, t)
  else
    match t.(t_session) with
    | None => (NoAction, t)
    | Some session =>
        if (current_boot_ms =? 0)%N
           || (session.(s_control).(rc_deadline_boot_ms) <=? current_boot_ms)%N
           || negb (is_ok (snapshot_validate attested))
           || negb (matches_control attested session.(s_control))
        then begin_restore t AppliedAttestationMismatch current_boot_ms
        else
          let ack := applied_ack session.(s_control) current_boot_ms in
          (PublishAck ack,
           with_session (Some (set_applied_ack ack session)) (with_phase PhaseApplied t))
    end.

Definition override_live (t : RuntimeOverrideTracker) : bool :=
  bool_decide (t.(t_phase) = PhaseApplying) || bool_decide (t.(t_phase) = PhaseApplied).

Definition apply_failed (t : RuntimeOverrideTracker) (current_boot_ms : N)
    : RuntimeOverrideAction * RuntimeOverrideTracker :=
  if override_live t then begin_restore t ApplyFailed current_boot_ms else (NoAction, t).

(** The reason [tick] restores, in its order. *)
Definition tick_reason (t : RuntimeOverrideTracker) (session : RuntimeOverrideSession)
    (health : RuntimeOverrideHealth) : option RuntimeRestoreReason :=
  if negb health.(oh_permit_present) then Some PermitMissing
  else if negb health.(oh_control_present) then Some ControlMissing
  else if (health.(oh_current_boot_ms) =? 0)%N
          || (session.(s_control).(rc_deadline_boot_ms) <=? health.(oh_current_boot_ms))%N then
    Some DeadlineExpired
  else if negb health.(oh_worker_identity_matches) then Some WorkerIdentityMismatch
  else if negb (String.eqb health.(oh_route_identity) session.(s_permit).(rp_route_identity)) then
    Some RouteDrift
  else if bool_decide (health.(oh_baseline_identity) = Unavailable) then
    Some BaselineAttestationUnavailable
  else if bool_decide (health.(oh_baseline_identity) = Drifted) then Some SqmDrift
  else if bool_decide (t.(t_phase) = PhaseApplied) && negb health.(oh_applied_runtime_matches) then
    Some RuntimeDrift
  else None.

Definition tick (t : RuntimeOverrideTracker) (health : RuntimeOverrideHealth)
    : RuntimeOverrideAction * RuntimeOverrideTracker :=
  if negb (override_live t) then (NoAction, t)
  else
    match t.(t_session) with
    | None => (NoAction, t)
    | Some session =>
        match tick_reason t session health with
        | Some reason => begin_restore t reason health.(oh_current_boot_ms)
        | None => (NoAction, t)
        end
    end.

Definition confirm_restored (t : RuntimeOverrideTracker) (attested : RuntimeRestoreBaseline)
    (current_boot_ms : N) : RuntimeOverrideAction * RuntimeOverrideTracker :=
  if negb (bool_decide (t.(t_phase) = PhaseRestoring)) then (NoAction, t)
  else
    match t.(t_session) with
    | None => (NoAction, t)
    | Some session =>
        if (current_boot_ms =? 0)%N || negb (bool_decide (attested = session.(s_baseline)))
           || negb (is_ok (validate_restore_baseline attested))
        then (NoAction, t)
        else (PublishAck (restoration_ack session.(s_control) current_boot_ms Restored),
              with_phase PhaseRestored t)
    end.

Definition retry_restore (t : RuntimeOverrideTracker) (current_boot_ms : N)
    : RuntimeOverrideAction :=
  if negb (bool_decide (t.(t_phase) = PhaseRestoring)) then NoAction
  else
    match t.(t_session) with
    | None => NoAction
    | Some session =>
        match session.(s_restore_reason) with
        | None => NoAction
        | Some reason =>
            Restore session.(s_baseline) reason
              (restoration_ack session.(s_control)
                 (default (N.max current_boot_ms 1) session.(s_restore_started_boot_ms)) Restoring)
        end
    end.

Definition restored_ack (t : RuntimeOverrideTracker) (current_boot_ms : N)
    : option AutotuneRuntimeAck :=
  if negb (bool_decide (t.(t_phase) = PhaseRestored)) || (current_boot_ms =? 0)%N then None
  else (λ session, restoration_ack session.(s_control) current_boot_ms Restored) <$> t.(t_session).

(** [release] writes nothing unless it succeeds. *)
Definition override_release (t : RuntimeOverrideTracker) (permit_id job_id worker_run_id : string)
    : Res RuntimeOverrideTracker :=
  fail_if (negb (bool_decide (t.(t_phase) = PhaseRestored)))
    "runtime override cannot be released before restoration" ≫= λ _,
  session ← ok_or t.(t_session) "runtime override session is missing";
  fail_if (negb (String.eqb session.(s_permit).(rp_permit_id) permit_id)
           || negb (String.eqb session.(s_permit).(rp_job_id) job_id)
           || negb (String.eqb session.(s_permit).(rp_worker_run_id) worker_run_id))
    "runtime override release identity does not match" ≫= λ _,
  mret (with_phase PhaseIdle (with_session None t)).

Definition recover_after_restart (instance_name : string) (permit : AutotuneRuntimePermit)
    (control : AutotuneRuntimeControl) (baseline : RuntimeRestoreBaseline) (current_boot_ms : N)
    : Res (RuntimeOverrideTracker * RuntimeOverrideAction) :=
  permit_validate permit ≫= λ _,
  runtime_control_validate control ≫= λ _,
  validate_for_permit baseline permit ≫= λ _,
  authorizes_identity permit instance_name control ≫= λ _,
  let started := N.max current_boot_ms 1 in
  mret ({| t_instance_name := instance_name; t_phase := PhaseRestoring;
           t_session := Some {| s_permit := permit; s_baseline := baseline; s_control := control;
                                s_applied_ack := None;
                                s_restore_reason := Some InstanceRestarted;
                                s_restore_started_boot_ms := Some started |} |},
        Restore baseline InstanceRestarted (restoration_ack control started Restoring)).
