(* ===== verification/OverrideContract.v ===== *)
(** * The contract of the runtime override tracker

    States what [RuntimeOverrideTracker] promises, over every sequence of calls:
    a tracker only asks for overrides its permit allows, keeps one owner and one
    baseline per session, leaves an override only through an exact restoration,
    and publishes only acknowledgements the worker can read. *)

From S2P Require Import Prelude RustStr SchedRecord PercentRecord LineRecord Vocabulary RustNet CapturePolicy OperationRequest JobJournal RuntimeControl PrivateNamespace TemporaryTopology RuntimePermit RuntimeOverride.
Local Open Scope string_scope.

(** ** Permits: what [authorizes_identity] allows, in plain terms *)

(** A rate an override may ask of a direction: none to bypass it, when that is
    allowed, or one within the bounds. *)
Definition direction_allowed (allow_bypass : bool) (b : RuntimeRateBounds) (rate : option N) : Prop :=
  match rate with
  | None => allow_bypass = true
  | Some rate => (b.(minimum_kbps) ≤ rate)%N ∧ (rate ≤ b.(maximum_kbps))%N
  end.

(** The control carries the identity of the permit. *)
Record same_owner (p : AutotuneRuntimePermit) (instance : string) (c : AutotuneRuntimeControl)
    : Prop := {
  so_instance : p.(rp_instance_name) = instance;
  so_permit_id : c.(rc_permit_id) = p.(rp_permit_id);
  so_job_id : c.(rc_job_id) = p.(rp_job_id);
  so_worker_run_id : c.(rc_worker_run_id) = p.(rp_worker_run_id);
  so_boot_id : c.(rc_boot_id) = p.(rp_boot_id);
  so_generation : c.(rc_coordinator_generation) = p.(rp_coordinator_generation);
  so_worker : c.(rc_worker) = p.(rp_worker);
  so_interface : c.(rc_target_interface) = p.(rp_target_interface);
  so_route : c.(rc_route_fingerprint) = p.(rp_route_fingerprint);
  so_sqm : c.(rc_sqm_fingerprint) = p.(rp_sqm_fingerprint);
}.

Record override_allowed (p : AutotuneRuntimePermit) (instance : string)
    (c : AutotuneRuntimeControl) : Prop := {
  oa_owner : same_owner p instance c;
  oa_sequence : (c.(rc_sequence) ≤ p.(rp_maximum_sequence))%N;
  oa_directions : p.(rp_kind) = AutotunePermit →
    direction_allowed p.(rp_allow_bypass_download) p.(rp_download_bounds) c.(rc_download_kbps)
    ∧ direction_allowed p.(rp_allow_bypass_upload) p.(rp_upload_bounds) c.(rc_upload_kbps);
  oa_speedtest : p.(rp_kind) = SpeedtestUnshaped →
    c.(rc_sequence) = 1%N ∧ permit_unshaped_topology p = Some c.(rc_topology)
    ∧ (∀ r, c.(rc_download_kbps) = Some r → r = p.(rp_initial_download_kbps))
    ∧ (∀ r, c.(rc_upload_kbps) = Some r → r = p.(rp_initial_upload_kbps));
}.

Lemma control_matches_ok p instance c :
  control_matches_permit p instance c = true ↔ same_owner p instance c.
Proof.
  unfold control_matches_permit. rewrite !andb_true_iff, bool_decide_eq_true, !String.eqb_eq. split.
  - by intros [[[[[[[[[? ?] ?] ?] ?] ?] ?] ?] ?] ?].
  - intros []. split_and?; done.
Qed.

Lemma outside_ok b rate : outside b rate = false ↔
  ∀ r, rate = Some r → (b.(minimum_kbps) ≤ r)%N ∧ (r ≤ b.(maximum_kbps))%N.
Proof.
  unfold outside. rewrite is_some_and_false. apply forall_proper. intros r.
  unfold bounds_contains. rewrite negb_false_iff, andb_true_iff, !N.leb_le. done.
Qed.

Lemma direction_ok (shaped allow : bool) b rate :
  is_some rate = shaped →
  (negb shaped && negb allow = false ∧ outside b rate = false) ↔ direction_allowed allow b rate.
Proof.
  intros <-. rewrite outside_ok. destruct rate as [r |]; simpl.
  - split; [intros [_ H]; by apply H | intros H; split; [done |]; by intros ? [= <-]].
  - destruct allow; simpl; split; [done | done | by intros [? _] | done].
Qed.

Lemma speedtest_ok p c :
  validate_topology_rates c.(rc_topology) c.(rc_download_kbps) c.(rc_upload_kbps) = Ok tt →
  authorizes_speedtest p c = Ok tt ↔
  c.(rc_sequence) = 1%N ∧ permit_unshaped_topology p = Some c.(rc_topology)
  ∧ (∀ r, c.(rc_download_kbps) = Some r → r = p.(rp_initial_download_kbps))
  ∧ (∀ r, c.(rc_upload_kbps) = Some r → r = p.(rp_initial_upload_kbps)).
Proof.
  intros (_ & _ & Hd & Hu)%topology_rates_ok. unfold authorizes_speedtest.
  destruct (permit_unshaped_topology p) as [t |]; cbn [ok_or mbind result_bind];
    [| split; [done | by intros (_ & ? & _)]].
  rewrite fail_if_ok, negb_false_iff, !andb_true_iff, N.eqb_eq, !bool_decide_eq_true.
  split.
  - intros [[[-> <-] Hd'] Hu']. rewrite <- Hd, <- Hu in *.
    split_and?; try done; intros r E; rewrite E in *; simpl in *; congruence.
  - intros (-> & [= ->] & Hd' & Hu'). rewrite <- Hd, <- Hu. split_and?; try done.
    + destruct (rc_download_kbps c); simpl; [f_equal; by apply Hd' | done].
    + destruct (rc_upload_kbps c); simpl; [f_equal; by apply Hu' | done].
Qed.

(** The permit check is exactly its specification: a control passes
    [authorizes_identity] if and only if permit and control are valid, name the same
    instance, job, worker, boot, target and fingerprints, the sequence is within the
    permit, and every direction is either inside its rate bounds or an allowed
    bypass - or is the one directional control of an unshaped speed test. *)
Theorem authorizes_identity_exact p instance c :
  authorizes_identity p instance c = Ok tt ↔
  permit_validate p = Ok tt ∧ runtime_control_validate c = Ok tt ∧ override_allowed p instance c.
Proof.
  unfold authorizes_identity. rewrite !then_ok.
  split; intros (Hp & Hc & H); (split; [done |]; split; [done |]).
  - pose proof (co_rates c (proj1 (runtime_control_validate_ok c) Hc)) as Hr.
    pose proof Hr as (_ & _ & Hd & Hu)%topology_rates_ok.
    rewrite !fail_if_ok, negb_false_iff, N.ltb_ge, control_matches_ok in H.
    destruct H as (Ho & Hs & H). split; [done | done | |]; intros E; rewrite E in H; simpl in H.
    + rewrite !then_ok, !fail_if_ok in H. destruct H as (? & ? & ? & ?).
      split; eapply direction_ok; eauto.
    + by apply speedtest_ok.
  - destruct H as [Ho Hs Hd Hsp].
    pose proof (co_rates c (proj1 (runtime_control_validate_ok c) Hc)) as Hr.
    pose proof Hr as (_ & _ & Hdl & Hul)%topology_rates_ok.
    rewrite !fail_if_ok, negb_false_iff, N.ltb_ge, control_matches_ok. split_and?; [done | done |].
    destruct (rp_kind p) eqn:E; simpl.
    + destruct (Hd eq_refl) as [H1 H2].
      apply (direction_ok _ _ _ _ Hdl) in H1. apply (direction_ok _ _ _ _ Hul) in H2.
      rewrite !then_ok, !fail_if_ok. tauto.
    + apply speedtest_ok; auto.
Qed.

(** ** Calls *)

Inductive OverrideCall :=
  | CallSubmit (permit : AutotuneRuntimePermit) (control : AutotuneRuntimeControl)
      (baseline : option RuntimeRestoreBaseline) (now : N)
  | CallRearm (permit : AutotuneRuntimePermit) (control : AutotuneRuntimeControl)
      (health : RuntimeRouteRearmHealth)
  | CallConfirmApplied (attested : RuntimeSnapshot) (now : N)
  | CallApplyFailed (now : N)
  | CallTick (health : RuntimeOverrideHealth)
  | CallConfirmRestored (attested : RuntimeRestoreBaseline) (now : N)
  | CallRetryRestore (now : N)
  | CallRelease (permit_id job_id worker_run_id : string).

Definition override_call (k : OverrideCall) (t : RuntimeOverrideTracker)
    : RuntimeOverrideAction * RuntimeOverrideTracker :=
  match k with
  | CallSubmit permit control baseline now => submit t permit control baseline now
  | CallRearm permit control health => rearm_after_route_recovery t permit control health
  | CallConfirmApplied attested now => confirm_applied t attested now
  | CallApplyFailed now => apply_failed t now
  | CallTick health => tick t health
  | CallConfirmRestored attested now => confirm_restored t attested now
  | CallRetryRestore now => (retry_restore t now, t)
  | CallRelease permit_id job_id worker_run_id =>
      match override_release t permit_id job_id worker_run_id with
      | Ok t' => (NoAction, t')
      | Err _ => (NoAction, t)
      end
  end.

(** The trackers an instance can hold: a new one, or one recovered from the durable
    records after a restart, and whatever calls make of it. *)
Inductive override_reachable (instance : string) : RuntimeOverrideTracker → Prop :=
  | reach_new t : tracker_new instance = Ok t → override_reachable instance t
  | reach_recovered permit control baseline now t action :
      recover_after_restart instance permit control baseline now = Ok (t, action) →
      override_reachable instance t
  | reach_call t k : override_reachable instance t → override_reachable instance (override_call k t).2.

(** ** The invariant *)

(** What a session is in each phase. *)
Definition phase_facts (phase : RuntimeOverridePhase) (s : RuntimeOverrideSession) : Prop :=
  match phase with
  | PhaseIdle => False
  | PhaseApplying =>
      s.(s_applied_ack) = None ∧ s.(s_restore_reason) = None ∧ s.(s_restore_started_boot_ms) = None
  | PhaseApplied =>
      (∃ now, s.(s_applied_ack) = Some (applied_ack s.(s_control) now)
              ∧ now ≠ 0%N ∧ (now < s.(s_control).(rc_deadline_boot_ms))%N)
      ∧ s.(s_restore_reason) = None ∧ s.(s_restore_started_boot_ms) = None
  | PhaseRestoring | PhaseRestored =>
      is_Some s.(s_restore_reason) ∧ ∃ n, s.(s_restore_started_boot_ms) = Some n ∧ n ≠ 0%N
  end.

Record session_ok (instance : string) (phase : RuntimeOverridePhase)
    (s : RuntimeOverrideSession) : Prop := {
  ss_authorized : authorizes_identity s.(s_permit) instance s.(s_control) = Ok tt;
  ss_baseline : validate_for_permit s.(s_baseline) s.(s_permit) = Ok tt;
  ss_phase : phase_facts phase s;
}.

Record tracker_ok (instance : string) (t : RuntimeOverrideTracker) : Prop := {
  to_name : t.(t_instance_name) = instance;
  to_session : match t.(t_session) with
               | None => t.(t_phase) = PhaseIdle
               | Some s => session_ok instance t.(t_phase) s
               end;
}.

(** *** What a method did, case by case *)

Lemma max_1_nonzero n : N.max n 1 ≠ 0%N.
Proof. lia. Qed.

(** The session after [begin_restore]. *)
Definition restoring_session (reason : RuntimeRestoreReason) (now : N) (s : RuntimeOverrideSession) :=
  {| s_permit := s.(s_permit); s_baseline := s.(s_baseline); s_control := s.(s_control);
     s_applied_ack := s.(s_applied_ack); s_restore_reason := Some reason;
     s_restore_started_boot_ms :=
       Some (default (N.max now 1) s.(s_restore_started_boot_ms)) |}.

Lemma begin_restore_eq t reason now s : t.(t_session) = Some s →
  begin_restore t reason now =
    (Restore s.(s_baseline) reason
       (restoration_ack s.(s_control) (default (N.max now 1) s.(s_restore_started_boot_ms)) Restoring),
     {| t_instance_name := t.(t_instance_name); t_phase := PhaseRestoring;
        t_session := Some (restoring_session reason now s) |}).
Proof. intros H. unfold begin_restore. by rewrite H. Qed.

(** Every way a call ends, given the open session [s]. *)
Inductive outcome (instance : string) (t : RuntimeOverrideTracker)
    : OverrideCall → RuntimeOverrideAction → RuntimeOverrideTracker → Prop :=
  (** nothing happens *)
  | out_none k : outcome instance t k NoAction t
  | out_malformed k : outcome instance t k MalformedControl t
  | out_rejected k c now code :
      runtime_control_validate c = Ok tt → require_code code = Ok tt →
      outcome instance t k (PublishAck (rejected_ack c now code)) t
  (** the same applied control again *)
  | out_repeated s permit baseline now ack :
      t.(t_session) = Some s → t.(t_phase) = PhaseApplying ∨ t.(t_phase) = PhaseApplied →
      s.(s_applied_ack) = Some ack →
      outcome instance t (CallSubmit permit s.(s_control) baseline now) (PublishAck ack) t
  (** a restoration begins, or is asked for again *)
  | out_restore k s reason now :
      t.(t_session) = Some s → override_live t = true ∨ reason = SequenceConflict →
      outcome instance t k
        (Restore s.(s_baseline) reason
           (restoration_ack s.(s_control) (default (N.max now 1) s.(s_restore_started_boot_ms))
              Restoring))
        {| t_instance_name := t.(t_instance_name); t_phase := PhaseRestoring;
           t_session := Some (restoring_session reason now s) |}
  | out_retry s reason now :
      t.(t_session) = Some s → t.(t_phase) = PhaseRestoring → s.(s_restore_reason) = Some reason →
      outcome instance t (CallRetryRestore now)
        (Restore s.(s_baseline) reason
           (restoration_ack s.(s_control) (default (N.max now 1) s.(s_restore_started_boot_ms))
              Restoring)) t
  (** an override is asked for *)
  | out_open permit control baseline now :
      t.(t_phase) = PhaseIdle → authorizes permit instance control now = Ok tt →
      validate_for_permit baseline permit = Ok tt →
      outcome instance t (CallSubmit permit control (Some baseline) now) (Apply control)
        {| t_instance_name := t.(t_instance_name); t_phase := PhaseApplying;
           t_session := Some {| s_permit := permit; s_baseline := baseline; s_control := control;
                                s_applied_ack := None; s_restore_reason := None;
                                s_restore_started_boot_ms := None |} |}
  | out_advance s permit control baseline now :
      t.(t_session) = Some s → t.(t_phase) = PhaseApplying ∨ t.(t_phase) = PhaseApplied →
      s.(s_permit) = permit → authorizes permit instance control now = Ok tt →
      control.(rc_sequence) = u32_succ s.(s_control).(rc_sequence) →
      outcome instance t (CallSubmit permit control baseline now) (Apply control)
        {| t_instance_name := t.(t_instance_name); t_phase := PhaseApplying;
           t_session := Some (replace_control control s) |}
  | out_rearm s permit control health :
      t.(t_session) = Some s → t.(t_phase) = PhaseRestored →
      s.(s_restore_reason) = Some RouteDrift → s.(s_permit) = permit →
      authorizes permit instance control health.(rh_current_boot_ms) = Ok tt →
      control = with_sequence (s.(s_control).(rc_sequence) + 1) s.(s_control) →
      health.(rh_baseline_identity) = Matches → health.(rh_baseline_runtime_matches) = true →
      health.(rh_worker_identity_matches) = true →
      health.(rh_route_identity) = permit.(rp_route_identity) →
      outcome instance t (CallRearm permit control health) (Apply control)
        {| t_instance_name := t.(t_instance_name); t_phase := PhaseApplying;
           t_session := Some (rearmed control s) |}
  (** attestations *)
  | out_applied s attested now :
      t.(t_session) = Some s → t.(t_phase) = PhaseApplying → now ≠ 0%N →
      (now < s.(s_control).(rc_deadline_boot_ms))%N →
      snapshot_validate attested = Ok tt → matches_control attested s.(s_control) = true →
      outcome instance t (CallConfirmApplied attested now)
        (PublishAck (applied_ack s.(s_control) now))
        {| t_instance_name := t.(t_instance_name); t_phase := PhaseApplied;
           t_session := Some (set_applied_ack (applied_ack s.(s_control) now) s) |}
  | out_restored s now :
      t.(t_session) = Some s → t.(t_phase) = PhaseRestoring → now ≠ 0%N →
      validate_restore_baseline s.(s_baseline) = Ok tt →
      outcome instance t (CallConfirmRestored s.(s_baseline) now)
        (PublishAck (restoration_ack s.(s_control) now Restored))
        {| t_instance_name := t.(t_instance_name); t_phase := PhaseRestored;
           t_session := Some s |}
  | out_released s :
      t.(t_session) = Some s → t.(t_phase) = PhaseRestored →
      outcome instance t
        (CallRelease s.(s_permit).(rp_permit_id) s.(s_permit).(rp_job_id)
           s.(s_permit).(rp_worker_run_id)) NoAction
        {| t_instance_name := t.(t_instance_name); t_phase := PhaseIdle; t_session := None |}.

Lemma rejection_code_ok error : require_code (rejection_code error) = Ok tt.
Proof. unfold rejection_code. by repeat case_match. Qed.

Lemma rearm_refusal_code t s permit c h code :
  rearm_refusal t s permit c h = Some code → require_code code = Ok tt.
Proof. unfold rearm_refusal. repeat case_match; by intros [= <-]. Qed.

(** A restoration begun on an open session. *)
Lemma restore_outcome instance t k s reason now :
  t.(t_session) = Some s → override_live t = true ∨ reason = SequenceConflict →
  outcome instance t k (begin_restore t reason now).1 (begin_restore t reason now).2.
Proof. intros H ?. rewrite (begin_restore_eq t reason now s H). by apply out_restore. Qed.

Lemma live_phase t : override_live t = true ↔ t.(t_phase) = PhaseApplying ∨ t.(t_phase) = PhaseApplied.
Proof. unfold override_live. by rewrite orb_true_iff, !bool_decide_eq_true. Qed.

Lemma submit_outcome instance t permit c baseline now :
  t.(t_instance_name) = instance →
  outcome instance t (CallSubmit permit c baseline now)
    (submit t permit c baseline now).1 (submit t permit c baseline now).2.
Proof.
  intros Hn. unfold submit. destruct (runtime_control_validate c) as [[] |] eqn:Hc; [| apply out_malformed].
  cbn [is_ok negb]. rewrite Hn. destruct (authorizes permit instance c now) as [[] |] eqn:Ha;
    [| apply out_rejected; [done | apply rejection_code_ok]].
  case_bool_decide as Hi.
  { unfold submit_idle. destruct baseline as [b |]; [| by apply out_rejected].
    destruct (validate_for_permit b permit) as [[] |] eqn:Hb; [| by apply out_rejected].
    by apply out_open. }
  destruct (t_session t) as [s |] eqn:Hs; [| by apply out_rejected].
  destruct (_ || _ || _); [by apply out_rejected |].
  case_bool_decide as Hp; cbn [negb]; [| by eapply restore_outcome; eauto].
  unfold submit_owned. destruct (_ || _) eqn:Hph; [by apply out_rejected |].
  assert (Hl : t.(t_phase) = PhaseApplying ∨ t.(t_phase) = PhaseApplied).
  { apply orb_false_iff in Hph as [?%bool_decide_eq_false ?%bool_decide_eq_false].
    destruct (t_phase t); tauto. }
  destruct (N.eqb_spec (rc_sequence c) (rc_sequence (s_control s))) as [_ | _].
  - destruct (bool_decide_reflect (c = s_control s)) as [-> | _]; cbn [negb];
      [| by eapply restore_outcome; eauto].
    destruct (s_applied_ack s) as [ack |] eqn:Hack; cbn; [by eapply out_repeated | apply out_none].
  - destruct (N.eqb_spec (rc_sequence c) (u32_succ (rc_sequence (s_control s)))) as [Hq | _];
      cbn [negb]; [| by eapply restore_outcome; eauto].
    by apply (out_advance instance t s permit c baseline now).
Qed.

Lemma rearm_refusal_none t s permit c h :
  rearm_refusal t s permit c h = None →
  t.(t_phase) = PhaseRestored ∧ s.(s_restore_reason) = Some RouteDrift ∧ s.(s_permit) = permit
  ∧ c = with_sequence (s.(s_control).(rc_sequence) + 1) s.(s_control)
  ∧ h.(rh_worker_identity_matches) = true.
Proof.
  unfold rearm_refusal.
  repeat match goal with |- (if ?b then _ else _) = _ → _ => destruct b eqn:?; [done |] end.
  intros _. reflect_bools.
  match goal with H : with_sequence _ _ = c |- _ => rewrite <- H at 1 end.
  match goal with H : (_ + 1)%N = rc_sequence c |- _ => rewrite H end. done.
Qed.

Lemma rearm_outcome instance t permit c h :
  t.(t_instance_name) = instance →
  outcome instance t (CallRearm permit c h)
    (rearm_after_route_recovery t permit c h).1 (rearm_after_route_recovery t permit c h).2.
Proof.
  intros Hn. unfold rearm_after_route_recovery.
  destruct (runtime_control_validate c) as [[] |] eqn:Hc; [| apply out_malformed].
  cbn [is_ok negb]. rewrite Hn. destruct (authorizes permit instance c _) as [[] |] eqn:Ha;
    [| apply out_rejected; [done | apply rejection_code_ok]].
  destruct (t_session t) as [s |] eqn:Hs; [| by apply out_rejected].
  destruct (rearm_refusal t s permit c h) as [code |] eqn:Hr.
  { apply out_rejected; [done | by eapply rearm_refusal_code]. }
  apply rearm_refusal_none in Hr as (? & ? & <- & ? & ?).
  destruct (_ || _) eqn:E; [apply out_none |]. reflect_bools.
  apply (out_rearm instance t s); try done. by apply String.eqb_eq.
Qed.

(** Every call ends in one of the outcomes. *)
Lemma call_outcome instance t k :
  t.(t_instance_name) = instance →
  outcome instance t k (override_call k t).1 (override_call k t).2.
Proof.
  intros Hn. destruct k as [p c b now | p c h | att now | now | h | att now | now | p j w]; simpl.
  - by apply submit_outcome.
  - by apply rearm_outcome.
  - unfold confirm_applied. case_bool_decide as Hp; [| apply out_none]. cbn [negb].
    destruct (t_session t) as [s |] eqn:Hs; [| apply out_none].
    assert (override_live t = true) by (by apply live_phase; left).
    destruct (_ || _ || _ || _) eqn:E; [eapply restore_outcome; eauto |]. reflect_bools.
    apply out_applied; try done. by destruct (snapshot_validate att) as [[] |].
  - unfold apply_failed. destruct (override_live t) eqn:Hl; [| apply out_none].
    unfold begin_restore. destruct (t_session t) as [s |] eqn:Hs; [| apply out_none].
    apply (out_restore instance t _ s ApplyFailed now); auto.
  - unfold tick. destruct (override_live t) eqn:Hl; [| apply out_none]. cbn [negb].
    destruct (t_session t) as [s |] eqn:Hs; [| apply out_none].
    destruct (tick_reason t s h); [eapply restore_outcome; eauto | apply out_none].
  - unfold confirm_restored. case_bool_decide as Hp; [| apply out_none]. cbn [negb].
    destruct (t_session t) as [s |] eqn:Hs; [| apply out_none].
    destruct (_ || _ || _) eqn:E; [apply out_none |]. reflect_bools. subst att.
    unfold with_phase. rewrite Hs. apply out_restored; try done.
    by destruct (validate_restore_baseline (s_baseline s)) as [[] |].
  - unfold retry_restore. case_bool_decide as Hp; [| apply out_none]. cbn [negb].
    destruct (t_session t) as [s |] eqn:Hs; [| apply out_none].
    destruct (s_restore_reason s) as [reason |] eqn:Hr; [| apply out_none]. by apply out_retry.
  - unfold override_release. case_bool_decide as Hp; [| apply out_none]. cbn [negb fail_if mbind result_bind].
    destruct (t_session t) as [s |] eqn:Hs; [| apply out_none]. cbn [ok_or mbind result_bind].
    destruct (_ || _ || _) eqn:E; [apply out_none |]. reflect_bools.
    repeat match goal with H : String.eqb _ _ = true |- _ => apply String.eqb_eq in H as <- end.
    by apply out_released.
Qed.

(** *** The invariant holds *)

Lemma authorizes_inv p instance c now :
  authorizes p instance c now = Ok tt ↔
  authorizes_identity p instance c = Ok tt ∧ now ≠ 0%N ∧ (now < c.(rc_deadline_boot_ms))%N
  ∧ (c.(rc_deadline_boot_ms) ≤ p.(rp_deadline_boot_ms))%N.
Proof.
  unfold authorizes. rewrite then_ok, fail_if_ok, !orb_false_iff, N.eqb_neq, N.leb_gt, N.ltb_ge. tauto.
Qed.

Lemma started_nonzero phase s now :
  phase_facts phase s → default (N.max now 1) s.(s_restore_started_boot_ms) ≠ 0%N.
Proof.
  destruct phase; simpl; [done | | | |].
  - intros (_ & _ & ->). apply max_1_nonzero.
  - intros (_ & _ & ->). apply max_1_nonzero.
  - by intros [_ (n & -> & ?)].
  - by intros [_ (n & -> & ?)].
Qed.

Lemma open_session instance t s :
  tracker_ok instance t → t.(t_session) = Some s → session_ok instance t.(t_phase) s.
Proof. intros [_ H] E. by rewrite E in H. Qed.

Lemma outcome_ok instance t k a t' :
  tracker_ok instance t → outcome instance t k a t' → tracker_ok instance t'.
Proof.
  intros Ht Ho. pose proof (open_session instance t) as Hs. specialize (λ s, Hs s Ht).
  destruct Ht as [Hn Ht0]. inversion Ho; subst; try done; split; simpl; try done;
    try match goal with H : t_session t = Some ?s |- _ => destruct (Hs s H) as [Ha Hb Hp] end;
    try match goal with H : authorizes _ _ _ _ = _ |- _ => apply authorizes_inv in H as (? & ? & ? & ?) end;
    split; simpl; try done.
  - split; [by eexists |]. eexists. split; [done |]. by eapply started_nonzero.
  - match goal with H : _ ∨ _ |- _ => destruct H as [E | E]; rewrite E in Hp end; simpl in Hp; tauto.
  - match goal with E : t_phase t = _ |- _ => rewrite E in Hp end. simpl in Hp.
    split; [by exists now | tauto].
  - match goal with E : t_phase t = _ |- _ => rewrite E in Hp end. exact Hp.
Qed.

Lemma recovered_inv instance permit control baseline now t action :
  recover_after_restart instance permit control baseline now = Ok (t, action) →
  authorizes_identity permit instance control = Ok tt
  ∧ validate_for_permit baseline permit = Ok tt
  ∧ t = {| t_instance_name := instance; t_phase := PhaseRestoring;
           t_session := Some {| s_permit := permit; s_baseline := baseline; s_control := control;
                                s_applied_ack := None;
                                s_restore_reason := Some InstanceRestarted;
                                s_restore_started_boot_ms := Some (N.max now 1) |} |}
  ∧ action = Restore baseline InstanceRestarted (restoration_ack control (N.max now 1) Restoring).
Proof.
  unfold recover_after_restart. intros H. do 4 apply then_ok in H as [? H].
  apply ret_ok_inv in H. by injection H as <- <-.
Qed.

Lemma reachable_ok instance t : override_reachable instance t → tracker_ok instance t.
Proof.
  induction 1 as [t H | permit control baseline now t action H | t k _ IH].
  - unfold tracker_new in H. apply then_ok in H as [_ H]. apply ret_ok_inv in H as <-. by split.
  - apply recovered_inv in H as (Ha & Hb & -> & _). split; [done |]. split; [done | done |]. simpl.
    split; [by eexists |]. eexists. split; [done | apply max_1_nonzero].
  - eapply outcome_ok; [exact IH | apply call_outcome, IH].
Qed.

Lemma reachable_outcome instance t k :
  override_reachable instance t →
  outcome instance t k (override_call k t).1 (override_call k t).2.
Proof. intros H%reachable_ok. apply call_outcome, H. Qed.

(** ** Acknowledgements *)

Lemma control_of_session instance t s :
  tracker_ok instance t → t.(t_session) = Some s → runtime_control_validate s.(s_control) = Ok tt.
Proof.
  intros Ht E. destruct (open_session _ _ _ Ht E) as [Ha _ _].
  by apply authorizes_identity_exact in Ha as (_ & ? & _).
Qed.

Lemma evidence_hex_name name name' s n :
  evidence_hex name s n = Ok tt → evidence_hex name' s n = Ok tt.
Proof. unfold evidence_hex. by rewrite !fail_if_ok. Qed.

(** The parts an acknowledgement copies from a valid control are valid. *)
Lemma ack_of_ok c q now st top d u code :
  runtime_control_validate c = Ok tt → sequence_ok q → now ≠ 0%N →
  validate_optional_rate "download" d = Ok tt → validate_optional_rate "upload" u = Ok tt →
  ack_validate_state (ack_of c q now st top d u code) = Ok tt →
  ack_validate (ack_of c q now st top d u code) = Ok tt.
Proof.
  intros []%runtime_control_validate_ok ? ? ? ? ?. apply ack_validate_ok.
  split; first [done | by eapply evidence_hex_name].
Qed.

Lemma restoration_ack_ok c now st :
  runtime_control_validate c = Ok tt → now ≠ 0%N → st = Restoring ∨ st = Restored →
  ack_validate (restoration_ack c now st) = Ok tt.
Proof.
  intros Hc Hn Hst. pose proof (co_sequence c (proj1 (runtime_control_validate_ok c) Hc)).
  apply ack_of_ok; try done. by destruct Hst as [-> | ->].
Qed.

Lemma rejected_ack_ok c now code :
  runtime_control_validate c = Ok tt → require_code code = Ok tt →
  ack_validate (rejected_ack c now code) = Ok tt.
Proof.
  intros Hc Hd. pose proof (co_sequence c (proj1 (runtime_control_validate_ok c) Hc)) as [? ?].
  apply ack_of_ok; try done; [unfold sequence_ok; lia | apply max_1_nonzero].
Qed.

Lemma applied_ack_ok c now :
  runtime_control_validate c = Ok tt → now ≠ 0%N → ack_validate (applied_ack c now) = Ok tt.
Proof.
  intros Hc Hn. pose proof (proj1 (runtime_control_validate_ok c) Hc) as Ho.
  destruct (control_rates c Ho) as [Hd Hu].
  apply ack_of_ok; try done; [by apply Ho |].
  assert (runtime_control_validate (shaped_claim (applied_ack c now) c.(rc_topology)) = Ok tt) as Hs.
  { apply runtime_control_validate_ok. destruct Ho. by split. }
  change (ack_validate_state _) with
    (runtime_control_validate (shaped_claim (applied_ack c now) c.(rc_topology)) ≫= λ _,
     fail_if (E:=string) false "applied runtime ack must not carry an error").
  by rewrite Hs.
Qed.

Lemma applied_ack_names c now : ack_names_control (applied_ack c now) c = true.
Proof. unfold ack_names_control. simpl. by rewrite !bool_decide_eq_true_2. Qed.
Lemma restoration_ack_names c now st : ack_names_control (restoration_ack c now st) c = true.
Proof. unfold ack_names_control. simpl. by rewrite !bool_decide_eq_true_2. Qed.

(** The acknowledgement the instance publishes is the one its worker waits for. *)
Lemma applied_ack_attests c now later :
  runtime_control_validate c = Ok tt → now ≠ 0%N → (now ≤ later)%N → (later ≤ c.(rc_deadline_boot_ms))%N →
  attests_applied (applied_ack c now) c later = Ok tt.
Proof.
  intros Hc Hn H1 H2. unfold attests_applied, attests_applied_record.
  rewrite applied_ack_ok, Hc, applied_ack_names by done.
  simpl. rewrite !bool_decide_eq_true_2 by done. simpl. by rewrite !(proj2 (N.ltb_ge _ _)).
Qed.

Lemma restored_ack_attests c now later :
  runtime_control_validate c = Ok tt → now ≠ 0%N → (now ≤ later)%N →
  attests_restored (restoration_ack c now Restored) c later = Ok tt.
Proof.
  intros Hc Hn H1. unfold attests_restored. rewrite restoration_ack_ok, Hc, restoration_ack_names by auto. simpl.
  by rewrite (proj2 (N.ltb_ge _ _)).
Qed.

(** ** Properties *)

(** Every reachable tracker is well formed: it has a session exactly when it is
    not idle; the session's control is authorised by the session's permit and its
    baseline is valid for that permit; while the override is being applied nothing is
    owed and nothing acknowledged; once applied, the acknowledgement is the exact one
    of the current control, timed before its deadline; and a restoration has a reason
    and a start. *)
Theorem tracker_invariant instance t : override_reachable instance t → tracker_ok instance t.
Proof. apply reachable_ok. Qed.

(** C33: a tracker only ever asks for an override its permit allows: whatever call
    makes a reachable tracker return [Apply], the control is valid, allowed by the
    session's permit (identity, sequence, rate bounds, bypass rights) and is the one
    the tracker now holds; within an open session permit and baseline are unchanged
    and the sequence number is the next one. *)
Theorem apply_authorized instance t k c t' :
  override_reachable instance t → override_call k t = (Apply c, t') →
  ∃ s', t'.(t_session) = Some s' ∧ s'.(s_control) = c ∧ t'.(t_phase) = PhaseApplying
    ∧ permit_validate s'.(s_permit) = Ok tt ∧ runtime_control_validate c = Ok tt
    ∧ override_allowed s'.(s_permit) instance c
    ∧ ∀ s, t.(t_session) = Some s →
        s'.(s_permit) = s.(s_permit) ∧ s'.(s_baseline) = s.(s_baseline)
        ∧ c.(rc_sequence) = (s.(s_control).(rc_sequence) + 1)%N.
Proof.
  intros Hr Hk. pose proof (reachable_outcome instance t k Hr) as Ho.
  pose proof (reachable_ok instance t Hr) as Ht. rewrite Hk in Ho. cbn [fst snd] in Ho.
  inversion Ho; subst; simpl; eexists; (split; [done |]);
    match goal with H : authorizes _ _ _ _ = _ |- _ =>
      apply authorizes_inv in H as (H & _); apply authorizes_identity_exact in H as (? & ? & ?) end;
    simpl; split_and?; try done.
  - destruct Ht as [_ Ht]. intros s E. rewrite E in Ht. destruct Ht as [_ _ Hp].
    match goal with H : t_phase t = _ |- _ => by rewrite H in Hp end.
  - intros s0 E. pose proof (control_of_session _ _ _ Ht E) as Hc. simplify_eq.
    split_and?; [done | done |].
    pose proof (co_sequence _ (proj1 (runtime_control_validate_ok _) Hc)) as [_ Hb].
    change MAX_AUTOTUNE_EVIDENCE_RECORDS with 302%N in Hb.
    match goal with H : rc_sequence c = _ |- _ => rewrite H end. unfold u32_succ, u32_max. lia.
  - intros s0 E. by simplify_eq.
Qed.

(** *** The abstract specification: a lease on the instance's runtime *)

(** Nobody owns the runtime; an owner may change it; its baseline is owed; its
    baseline is back. *)
Inductive Lease :=
  | Free
  | Live (owner : AutotuneRuntimePermit) (baseline : RuntimeRestoreBaseline)
  | Owed (owner : AutotuneRuntimePermit) (baseline : RuntimeRestoreBaseline)
  | Settled (owner : AutotuneRuntimePermit) (baseline : RuntimeRestoreBaseline).

Inductive lease_step : Lease → Lease → Prop :=
  | lease_stay l : lease_step l l
  | lease_grant owner baseline :
      validate_for_permit baseline owner = Ok tt → lease_step Free (Live owner baseline)
  | lease_revoke owner baseline : lease_step (Live owner baseline) (Owed owner baseline)
  | lease_settle owner baseline : lease_step (Owed owner baseline) (Settled owner baseline)
  | lease_dispute owner baseline : lease_step (Settled owner baseline) (Owed owner baseline)
  | lease_renew owner baseline : lease_step (Settled owner baseline) (Live owner baseline)
  | lease_return owner baseline : lease_step (Settled owner baseline) Free.

Definition override_lease (t : RuntimeOverrideTracker) : Lease :=
  match t.(t_session) with
  | None => Free
  | Some s =>
      match t.(t_phase) with
      | PhaseRestoring => Owed s.(s_permit) s.(s_baseline)
      | PhaseRestored => Settled s.(s_permit) s.(s_baseline)
      | _ => Live s.(s_permit) s.(s_baseline)
      end
  end.

Lemma outcome_lease instance t k a t' :
  tracker_ok instance t → outcome instance t k a t' → lease_step (override_lease t) (override_lease t').
Proof.
  intros [_ Ht] Ho. inversion Ho; subst; unfold override_lease in *; simpl in *;
    repeat match goal with H : t_session t = _ |- _ => rewrite H in * end;
    repeat match goal with H : t_phase t = _ |- _ => rewrite H in * end;
    try constructor.
  - destruct Ht as [_ _ Hp]. destruct (t_phase t); simpl in Hp; try done; constructor.
  - destruct (t_session t) as [s |]; [by destruct Ht | by constructor].
  - match goal with H : _ ∨ _ |- _ => destruct H as [-> | ->]; constructor end.
Qed.

(** C32: the tracker refines the lease: whatever the worker, the driver and the kernel
    do, every call is one step of a lease with one owner and one baseline. A granted
    runtime is given back only through a settled restoration of that same baseline,
    and an owed restoration is never forgotten. *)
Theorem tracker_refines_lease instance t k :
  override_reachable instance t → lease_step (override_lease t) (override_lease (override_call k t).2).
Proof.
  intros Hr. eapply outcome_lease; [by apply reachable_ok | by apply reachable_outcome].
Qed.

(** Only an exact attestation ends a restoration: if a call takes a reachable
    tracker into the restored phase, the call is a confirmation whose attested
    baseline equals the session's baseline (same rates, topology and qdisc kinds, or
    the same absence identity), and the acknowledgement published attests the
    restoration of the very control that was requested. *)
Theorem restoration_exact instance t k a t' :
  override_reachable instance t → override_call k t = (a, t') →
  t.(t_phase) ≠ PhaseRestored → t'.(t_phase) = PhaseRestored →
  ∃ s now, t.(t_session) = Some s ∧ t.(t_phase) = PhaseRestoring
    ∧ k = CallConfirmRestored s.(s_baseline) now ∧ t'.(t_session) = Some s
    ∧ a = PublishAck (restoration_ack s.(s_control) now Restored)
    ∧ ∀ later, (now ≤ later)%N →
        attests_restored (restoration_ack s.(s_control) now Restored) s.(s_control) later = Ok tt.
Proof.
  intros Hr Hk Hp Hp'. pose proof (reachable_outcome instance t k Hr) as Ho.
  pose proof (reachable_ok instance t Hr) as Ht. rewrite Hk in Ho. cbn [fst snd] in Ho.
  inversion Ho; subst; simpl in *; try done.
  exists s, now. split_and?; try done. intros later Hl.
  apply restored_ack_attests; [by eapply control_of_session | done | done].
Qed.

(** A worker never reads a malformed acknowledgement: every acknowledgement a
    reachable tracker publishes, with a restoration or alone, is valid. *)
Theorem published_acks_valid instance t k a t' ack :
  override_reachable instance t → override_call k t = (a, t') →
  a = PublishAck ack ∨ (∃ b r, a = Restore b r ack) → ack_validate ack = Ok tt.
Proof.
  intros Hr Hk Ha. pose proof (reachable_outcome instance t k Hr) as Ho.
  pose proof (reachable_ok instance t Hr) as Ht. rewrite Hk in Ho. cbn [fst snd] in Ho.
  inversion Ho; subst; destruct Ha as [E | (? & ? & E)]; simplify_eq;
    try match goal with H : t_session ?x = Some _, Hx : tracker_ok _ ?x |- _ =>
      pose proof (control_of_session _ _ _ Hx H); pose proof (open_session _ _ _ Hx H) as [_ _ Hp] end.
  - by apply rejected_ack_ok.
  - match goal with H : _ ∨ _ |- _ => destruct H as [E | E]; rewrite E in Hp; simpl in Hp end.
    + by destruct Hp as (? & _); simplify_eq.
    + destruct Hp as [(n & ? & ? & _) _]. simplify_eq. by apply applied_ack_ok.
  - apply restoration_ack_ok; [done | by eapply started_nonzero | by left].
  - apply restoration_ack_ok; [done | by eapply started_nonzero | by left].
  - by apply applied_ack_ok.
  - apply restoration_ack_ok; [done | done | by right].
Qed.

(** What the instance acknowledges as applied is what the worker asked for: an
    [Applied] acknowledgement leaves the tracker applied, attests the exact control
    of its session, and the worker's check accepts it at any moment from then to the
    control's deadline. *)
Theorem applied_ack_accepted instance t k ack t' :
  override_reachable instance t → override_call k t = (PublishAck ack, t') →
  ack.(ra_state) = Applied →
  ∃ s, t'.(t_session) = Some s ∧ t'.(t_phase) = PhaseApplied
    ∧ (ack.(ra_updated_boot_ms) < s.(s_control).(rc_deadline_boot_ms))%N
    ∧ ∀ later, (ack.(ra_updated_boot_ms) ≤ later)%N →
        (later ≤ s.(s_control).(rc_deadline_boot_ms))%N →
        attests_applied ack s.(s_control) later = Ok tt.
Proof.
  intros Hr Hk Ha. pose proof (reachable_outcome instance t k Hr) as Ho.
  pose proof (reachable_ok instance t Hr) as Ht. rewrite Hk in Ho. cbn [fst snd] in Ho.
  inversion Ho; subst; simpl in Ha; try done;
    match goal with H : t_session ?x = Some _, Hx : tracker_ok _ ?x |- _ =>
      pose proof (control_of_session _ _ _ Hx H); pose proof (open_session _ _ _ Hx H) as [_ _ Hp] end.
  - match goal with H : _ ∨ _ |- _ => destruct H as [E | E]; rewrite E in Hp; simpl in Hp end.
    + by destruct Hp as (? & _); simplify_eq.
    + destruct Hp as [(n & ? & ? & ?) _]. simplify_eq. exists s. split_and?; try done.
      intros later ? ?. by apply applied_ack_attests.
  - eexists. split; [done |]. simpl. split_and?; try done. intros later ? ?. by apply applied_ack_attests.
Qed.

(** *** Sessions *)

(** The trackers a call sequence reaches without giving the session back. *)
Inductive within_session (t : RuntimeOverrideTracker) : RuntimeOverrideTracker → Prop :=
  | within_start : within_session t t
  | within_call t' k :
      within_session t t' → (override_call k t').2.(t_phase) ≠ PhaseIdle →
      within_session t (override_call k t').2.

(** A restoration that no re-arm may interrupt. *)
Definition settled_course (t : RuntimeOverrideTracker) : Prop :=
  (t.(t_phase) = PhaseRestoring ∨ t.(t_phase) = PhaseRestored)
  ∧ ∃ s reason, t.(t_session) = Some s ∧ s.(s_restore_reason) = Some reason ∧ reason ≠ RouteDrift.

Lemma outcome_settled instance t k a t' :
  outcome instance t k a t' → settled_course t → t'.(t_phase) ≠ PhaseIdle → settled_course t'.
Proof.
  intros Ho (Hp & s0 & r & Hs0 & Hr & Hne) Hi. inversion Ho; subst; simpl in *; simplify_eq;
    try (by split; [| by eexists _, _]);
    try match goal with H : t_phase _ = _, H' : _ ∨ _ |- _ => rewrite H in H'; by destruct H' end.
  - split; [by left |]. eexists _, reason. split_and?; [done | done |].
    match goal with H : override_live _ = true ∨ _ |- _ => destruct H as [HL | ->]; [| done] end.
    apply live_phase in HL. destruct Hp as [E | E]; rewrite E in HL; by destruct HL.
  - match goal with H : t_phase t = _ ∨ _ |- _ => destruct Hp as [E | E]; rewrite E in H; by destruct H end.
  - split; [by right |]. by eexists _, _.
Qed.

(** While a session is open its owner and its baseline do not change. *)
Lemma outcome_owner instance t k a t' s :
  outcome instance t k a t' → t.(t_session) = Some s → tracker_ok instance t →
  t'.(t_phase) ≠ PhaseIdle →
  owner_permit t' = Some s.(s_permit) ∧ tracker_baseline t' = Some s.(s_baseline).
Proof.
  intros Ho Hs Ht Hi. unfold owner_permit, tracker_baseline. pose proof (open_session _ _ _ Ht Hs) as [_ _ Hp].
  inversion Ho; subst; simpl in *; simplify_eq; rewrite ?Hs; try done.
  match goal with H : t_phase t = PhaseIdle |- _ => by rewrite H in Hp end.
Qed.

(** Only a lost route may be re-armed: once a session restores for any reason but
    route drift - an instance restart included - no sequence of calls makes its
    override live again; the session can only finish restoring and be released. *)
Theorem only_route_drift_rearms instance t s reason t' :
  override_reachable instance t →
  t.(t_phase) = PhaseRestoring ∨ t.(t_phase) = PhaseRestored →
  t.(t_session) = Some s → s.(s_restore_reason) = Some reason → reason ≠ RouteDrift →
  within_session t t' →
  (t'.(t_phase) = PhaseRestoring ∨ t'.(t_phase) = PhaseRestored)
  ∧ tracker_baseline t' = Some s.(s_baseline) ∧ owner_permit t' = Some s.(s_permit).
Proof.
  intros Hr Hp Hs Hreason Hne Hw.
  assert (H : override_reachable instance t' ∧ settled_course t'
              ∧ tracker_baseline t' = Some s.(s_baseline) ∧ owner_permit t' = Some s.(s_permit)).
  { induction Hw as [| t' k _ (Hr' & Hc & Hb & Ho) Hi].
    - split_and?; [done | | |]; unfold tracker_baseline, owner_permit; rewrite ?Hs; try done.
      split; [done |]. by eexists _, _.
    - pose proof (reachable_outcome instance t' k Hr') as Hout.
      destruct Hc as (Hc & s' & r & Hs' & Hr'' & Hn).
      destruct (outcome_owner _ _ _ _ _ s' Hout Hs' (reachable_ok _ _ Hr') Hi) as [Ho' Hb'].
      unfold tracker_baseline in Hb. unfold owner_permit in Ho. rewrite Hs' in Hb, Ho. simpl in Hb, Ho.
      split_and?; [by constructor | | congruence | congruence].
      eapply outcome_settled; [done | | done]. split; [done |]. by eexists _, _. }
  by destruct H as (_ & [? _] & ? & ?).
Qed.

(** What keeps a live override in place. *)
Record healthy (t : RuntimeOverrideTracker) (s : RuntimeOverrideSession)
    (h : RuntimeOverrideHealth) : Prop := {
  he_permit : h.(oh_permit_present) = true;
  he_control : h.(oh_control_present) = true;
  he_time : h.(oh_current_boot_ms) ≠ 0%N
    ∧ (h.(oh_current_boot_ms) < s.(s_control).(rc_deadline_boot_ms))%N;
  he_worker : h.(oh_worker_identity_matches) = true;
  he_route : h.(oh_route_identity) = s.(s_permit).(rp_route_identity);
  he_baseline : h.(oh_baseline_identity) = Matches;
  he_runtime : t.(t_phase) = PhaseApplied → h.(oh_applied_runtime_matches) = true;
}.

Lemma tick_reason_none t s h : tick_reason t s h = None ↔ healthy t s h.
Proof.
  unfold tick_reason. split.
  - repeat match goal with |- (if ?b then _ else _) = _ → _ => destruct b eqn:?; [done |] end.
    intros _. reflect_bools. split; try done.
    + by apply String.eqb_eq.
    + by destruct (oh_baseline_identity h).
    + intros Hp. match goal with H : bool_decide (t_phase t = PhaseApplied) && _ = false |- _ =>
        rewrite bool_decide_eq_true_2 in H by done; by apply negb_false_iff in H end.
  - intros [-> -> [H0 Hd] -> -> Hb Hr]. rewrite Hb, String.eqb_refl. simpl.
    rewrite (proj2 (N.eqb_neq _ _) H0), (proj2 (N.leb_gt _ _) Hd). simpl.
    destruct (bool_decide_reflect (t_phase t = PhaseApplied)); [by rewrite Hr | done].
Qed.

(** The watchdog is exact: on a live override, [tick] leaves everything alone if
    and only if permit, control, deadline, worker, route, baseline identity and (once
    applied) the runtime itself are all as expected; otherwise it demands the session's
    baseline back at once. *)
Theorem tick_exact instance t s h :
  override_reachable instance t → t.(t_session) = Some s → override_live t = true →
  (healthy t s h ∧ tick t h = (NoAction, t))
  ∨ (¬ healthy t s h ∧ ∃ reason ack,
       (tick t h).1 = Restore s.(s_baseline) reason ack ∧ (tick t h).2.(t_phase) = PhaseRestoring
       ∧ tick_reason t s h = Some reason ∧ ack.(ra_state) = Restoring).
Proof.
  intros _ Hs Hl. unfold tick. rewrite Hl, Hs. cbn [negb]. rewrite <- tick_reason_none.
  destruct (tick_reason t s h) as [reason |]; [right | by left].
  split; [done |]. rewrite (begin_restore_eq t reason _ s Hs). by eexists _, _.
Qed.

Fixpoint run (ks : list OverrideCall) (t : RuntimeOverrideTracker) : RuntimeOverrideTracker :=
  match ks with [] => t | k :: ks => run ks (override_call k t).2 end.

(** The calls that end a session: abandon, attest the restored baseline, release. *)
Definition ending (s : RuntimeOverrideSession) (now : N) : list OverrideCall :=
  [CallApplyFailed now; CallConfirmRestored s.(s_baseline) now;
   CallRelease s.(s_permit).(rp_permit_id) s.(s_permit).(rp_job_id) s.(s_permit).(rp_worker_run_id)].

Lemma baseline_valid b p : validate_for_permit b p = Ok tt → validate_restore_baseline b = Ok tt.
Proof. unfold validate_for_permit. intros [_ H]%then_ok. by apply then_ok in H as [? _]. Qed.

(** No session is ever stuck: from every reachable tracker with a session, at any
    time, giving up the override, attesting the restored baseline and releasing the
    owner leaves the tracker idle, ready for the next owner. *)
Theorem every_session_ends instance t s now :
  override_reachable instance t → t.(t_session) = Some s → now ≠ 0%N →
  run (ending s now) t = {| t_instance_name := instance; t_phase := PhaseIdle; t_session := None |}.
Proof.
  intros Hr Hs Hn. pose proof (reachable_ok instance t Hr) as Ht.
  destruct (open_session _ _ _ Ht Hs) as [_ Hb%baseline_valid Hp].
  destruct Ht as [Hname _]. destruct t as [name phase session]. simpl in *. subst name session.
  apply N.eqb_neq in Hn. unfold ending. cbn [run override_call].
  assert (Hrel : ∀ s', s'.(s_permit) = s.(s_permit) →
    (override_call (CallRelease s.(s_permit).(rp_permit_id) s.(s_permit).(rp_job_id)
      s.(s_permit).(rp_worker_run_id))
      {| t_instance_name := instance; t_phase := PhaseRestored; t_session := Some s' |}).2
    = {| t_instance_name := instance; t_phase := PhaseIdle; t_session := None |}).
  { intros s' E. simpl. unfold override_release. simpl. by rewrite E, !String.eqb_refl. }
  assert (Hres : ∀ s', s'.(s_baseline) = s.(s_baseline) →
    (confirm_restored {| t_instance_name := instance; t_phase := PhaseRestoring; t_session := Some s' |}
       s.(s_baseline) now).2
    = {| t_instance_name := instance; t_phase := PhaseRestored; t_session := Some s' |}).
  { intros s' E. unfold confirm_restored. simpl. by rewrite Hn, E, bool_decide_eq_true_2, Hb. }
  cbn [override_call] in Hrel. destruct phase; [done | | | |].
  - change (apply_failed _ now).2 with {| t_instance_name := instance; t_phase := PhaseRestoring;
      t_session := Some (restoring_session ApplyFailed now s) |}. by rewrite Hres, Hrel.
  - change (apply_failed _ now).2 with {| t_instance_name := instance; t_phase := PhaseRestoring;
      t_session := Some (restoring_session ApplyFailed now s) |}. by rewrite Hres, Hrel.
  - change (apply_failed ?x now).2 with x. by rewrite Hres, Hrel.
  - change (apply_failed ?x now).2 with x. change (confirm_restored ?x _ now).2 with x. by rewrite Hrel.
Qed.

Definition owner_ids (p : AutotuneRuntimePermit) : string * string * string :=
  (p.(rp_permit_id), p.(rp_job_id), p.(rp_worker_run_id)).

(** The three identity tests of [submit] and [release]. *)
Lemma ids_differ p i j w :
  owner_ids p ≠ (i, j, w) →
  negb (String.eqb p.(rp_permit_id) i) || negb (String.eqb p.(rp_job_id) j)
  || negb (String.eqb p.(rp_worker_run_id) w) = true.
Proof.
  intros H. apply not_false_iff_true. intros E. apply H. reflect_bools. unfold owner_ids.
  repeat match goal with H : String.eqb _ _ = true |- _ => apply String.eqb_eq in H as -> end. done.
Qed.

(** An override has one owner: while a session is open, nothing another permit
    (another permit, job or worker run id) submits or tries to re-arm changes the
    tracker; a submission is refused, never answered with an override or an [Applied]
    acknowledgement; and no other identity can release the session. *)
Theorem foreign_permit_ignored instance t s p c b now h :
  override_reachable instance t → t.(t_session) = Some s → owner_ids s.(s_permit) ≠ owner_ids p →
  (submit t p c b now).2 = t
  ∧ ((submit t p c b now).1 = MalformedControl
     ∨ ∃ code, (submit t p c b now).1 = PublishAck (rejected_ack c now code))
  ∧ (rearm_after_route_recovery t p c h).2 = t
  ∧ ∀ i j w, owner_ids s.(s_permit) ≠ (i, j, w) → is_ok (override_release t i j w) = false.
Proof.
  intros Hr Hs Hne. pose proof (reachable_ok instance t Hr) as Ht.
  destruct (open_session _ _ _ Ht Hs) as [_ _ Hp].
  assert (Hid : t_phase t ≠ PhaseIdle) by (intros E; by rewrite E in Hp).
  assert (Hsub : submit t p c b now = (MalformedControl, t)
    ∨ ∃ code, submit t p c b now = (PublishAck (rejected_ack c now code), t)).
  { unfold submit. destruct (is_ok (runtime_control_validate c)); [| by left]. right. cbn [negb].
    destruct (authorizes p (t_instance_name t) c now) as [? |]; [| by eexists].
    rewrite bool_decide_eq_false_2, Hs by done. rewrite ids_differ by done. by eexists. }
  split_and?.
  - destruct Hsub as [-> | [? ->]]; done.
  - destruct Hsub as [-> | [code ->]]; [by left | right]. by exists code.
  - unfold rearm_after_route_recovery. destruct (is_ok _); [| done]. cbn [negb].
    destruct (authorizes _ _ _ _); [| done]. rewrite Hs.
    destruct (rearm_refusal t s p c h) eqn:E; [done |].
    apply rearm_refusal_none in E as (_ & _ & E & _). by rewrite E in Hne.
  - intros i j w Hj. unfold override_release. destruct (fail_if _ _); [| done]. rewrite Hs.
    cbn [mbind result_bind ok_or]. by rewrite ids_differ.
Qed.

(** A restart never adopts an override: recovering from the durable records
    succeeds exactly when permit, control and baseline are valid and belong together;
    it then starts by restoring the recorded baseline under a valid [Restoring]
    acknowledgement, and until the session is released no call makes the override
    live again. *)
Theorem restart_restores instance p c b now :
  is_ok (recover_after_restart instance p c b now) = true ↔
  permit_validate p = Ok tt ∧ runtime_control_validate c = Ok tt ∧ validate_for_permit b p = Ok tt
  ∧ override_allowed p instance c
  ∧ ∃ t ack, recover_after_restart instance p c b now = Ok (t, Restore b InstanceRestarted ack)
    ∧ ack_validate ack = Ok tt ∧ ack.(ra_state) = Restoring
    ∧ ∀ t', within_session t t' →
        (t'.(t_phase) = PhaseRestoring ∨ t'.(t_phase) = PhaseRestored)
        ∧ tracker_baseline t' = Some b.
Proof.
  split; [| by intros (_ & _ & _ & _ & t & ack & -> & _)].
  intros H. destruct (recover_after_restart instance p c b now) as [[t action] |] eqn:E; [| done].
  assert (Hr : override_reachable instance t) by by eapply reach_recovered.
  apply recovered_inv in E as (Ha & Hb & -> & ->).
  apply authorizes_identity_exact in Ha as (? & Hc & ?). split_and?; try done.
  eexists _, _. split; [done |]. split_and?; [| done |].
  - apply restoration_ack_ok; [done | apply max_1_nonzero | by left].
  - intros t' Hw.
    assert (Hset : settled_course t' ∧ tracker_baseline t' = Some b ∧ override_reachable instance t').
    { induction Hw as [| t' k _ (Hset & Hb' & Hr') Hi].
      - split_and?; [| done | done]. split; [by left |]. by eexists _, _.
      - pose proof (reachable_outcome instance t' k Hr') as Ho.
        pose proof Hset as (_ & s' & _ & Hs' & _).
        destruct (outcome_owner _ _ _ _ _ s' Ho Hs' (reachable_ok _ _ Hr') Hi) as [_ Hb''].
        unfold tracker_baseline in Hb'. rewrite Hs' in Hb'. simpl in Hb'.
        split_and?; [by eapply outcome_settled | congruence | by constructor]. }
    by destruct Hset as ([? _] & ? & _).
Qed.

(** [reject_before_apply] accepts diagnostics that [AutotuneRuntimeAck::validate]
    refuses: an identifier may hold a dot, a diagnostic code may not. The
    acknowledgement it then asks to publish can never be encoded. *)
Theorem reject_code_mismatch t c now :
  t.(t_phase) = PhaseIdle → runtime_control_validate c = Ok tt →
  ∃ ack, reject_before_apply t c now "route.drift" = PublishAck ack
    ∧ is_ok (ack_validate ack) = false ∧ is_ok (ack_encode ack) = false.
Proof.
  intros Hp Hc. unfold reject_before_apply. rewrite Hp, Hc. eexists. split; [done |].
  assert (H : is_ok (ack_validate (rejected_ack c now "route.drift")) = false).
  { destruct (ack_validate _) as [[] |] eqn:E; [| done]. apply ack_validate_ok in E as [_ _ _ _ _ _ _ _ _ _ E].
    by vm_compute in E. }
  split; [done |]. unfold ack_encode, evidence_encode. by destruct (ack_validate _).
Qed.

(** ** A sample session *)

Module OverrideSample.
Definition permit : AutotuneRuntimePermit := PermitSample.permit.
Definition snapshot : RuntimeSnapshot := PermitSample.snapshot.
Definition baseline : RuntimeRestoreBaseline := Managed snapshot.

Definition fresh : RuntimeOverrideTracker :=
  {| t_instance_name := "wan"; t_phase := PhaseIdle; t_session := None |}.

Definition open_call : OverrideCall := CallSubmit permit sample_control (Some baseline) 1000.
Definition attest_call : OverrideCall :=
  CallConfirmApplied (runtime_snapshot_for_control sample_control) 1500.
Definition fail_call : OverrideCall := CallApplyFailed 2000.
Definition restored_call : OverrideCall := CallConfirmRestored baseline 2500.

Definition after (ks : list OverrideCall) : RuntimeOverrideTracker := run ks fresh.

Definition session (t : RuntimeOverrideTracker) : RuntimeOverrideSession :=
  default {| s_permit := permit; s_baseline := baseline; s_control := sample_control;
             s_applied_ack := None; s_restore_reason := None;
             s_restore_started_boot_ms := None |} t.(t_session).

Example phases :
  t_phase <$> [after []; after [open_call]; after [open_call; attest_call];
               after [open_call; attest_call; fail_call];
               after [open_call; attest_call; fail_call; restored_call]]
  = [PhaseIdle; PhaseApplying; PhaseApplied; PhaseRestoring; PhaseRestored].
Proof. by vm_compute. Qed.
End OverrideSample.

Lemma sample_reachable_from ks t :
  override_reachable "wan" t → override_reachable "wan" (run ks t).
Proof. revert t. induction ks as [| k ks IH]; intros t H; [done |]. by apply IH, reach_call. Qed.

Lemma override_sample_reachable ks : override_reachable "wan" (OverrideSample.after ks).
Proof. apply sample_reachable_from, reach_new. by vm_compute. Qed.

(** ** Witnesses *)

Lemma tracker_invariant_witness :
  tracker_ok "wan" (OverrideSample.after [OverrideSample.open_call]).
Proof. apply tracker_invariant, override_sample_reachable. Defined.

Lemma apply_authorized_witness :
  ∃ s', (override_call OverrideSample.open_call OverrideSample.fresh).2.(t_session) = Some s'
    ∧ s'.(s_control) = sample_control.
Proof.
  destruct (apply_authorized "wan" OverrideSample.fresh OverrideSample.open_call sample_control
    (override_call OverrideSample.open_call OverrideSample.fresh).2) as (s' & H1 & H2 & _).
  - apply (override_sample_reachable []).
  - by vm_compute.
  - by exists s'.
Defined.

Lemma tracker_refines_lease_witness :
  lease_step (override_lease OverrideSample.fresh)
    (override_lease (override_call OverrideSample.open_call OverrideSample.fresh).2).
Proof. apply (tracker_refines_lease "wan"), (override_sample_reachable []). Defined.

Lemma restoration_exact_witness :
  ∃ s now, OverrideSample.restored_call = CallConfirmRestored s.(s_baseline) now.
Proof.
  set (t := OverrideSample.after [OverrideSample.open_call; OverrideSample.fail_call]).
  destruct (restoration_exact "wan" t OverrideSample.restored_call
    (override_call OverrideSample.restored_call t).1 (override_call OverrideSample.restored_call t).2)
    as (s & now & _ & _ & H & _).
  - apply override_sample_reachable.
  - by destruct (override_call _ _).
  - by vm_compute.
  - by vm_compute.
  - by exists s, now.
Defined.

Lemma published_acks_valid_witness :
  ack_validate (applied_ack sample_control 1500) = Ok tt.
Proof.
  set (t := OverrideSample.after [OverrideSample.open_call]).
  refine (published_acks_valid "wan" t OverrideSample.attest_call
    (PublishAck (applied_ack sample_control 1500)) (override_call OverrideSample.attest_call t).2
    (applied_ack sample_control 1500) _ _ _).
  - apply override_sample_reachable.
  - by vm_compute.
  - by left.
Defined.

Lemma applied_ack_accepted_witness :
  ∃ s, (override_call OverrideSample.attest_call (OverrideSample.after [OverrideSample.open_call])).2.(t_session)
       = Some s.
Proof.
  destruct (applied_ack_accepted "wan" (OverrideSample.after [OverrideSample.open_call])
    OverrideSample.attest_call (applied_ack sample_control 1500)
    (override_call OverrideSample.attest_call (OverrideSample.after [OverrideSample.open_call])).2)
    as (s & H & _).
  - apply override_sample_reachable.
  - by vm_compute.
  - done.
  - by exists s.
Defined.

Lemma only_route_drift_rearms_witness :
  tracker_baseline (OverrideSample.after [OverrideSample.open_call; OverrideSample.fail_call;
                                          OverrideSample.restored_call])
  = Some OverrideSample.baseline.
Proof.
  set (t := OverrideSample.after [OverrideSample.open_call; OverrideSample.fail_call]).
  destruct (only_route_drift_rearms "wan" t (OverrideSample.session t) ApplyFailed
    (override_call OverrideSample.restored_call t).2) as (_ & H & _).
  - apply override_sample_reachable.
  - left. by vm_compute.
  - by vm_compute.
  - by vm_compute.
  - done.
  - apply within_call; [apply within_start |]. by vm_compute.
  - exact H.
Defined.

Lemma tick_exact_witness :
  let t := OverrideSample.after [OverrideSample.open_call] in
  let h := {| oh_current_boot_ms := 2000; oh_permit_present := true; oh_control_present := true;
              oh_worker_identity_matches := true; oh_route_identity := "main|lte";
              oh_baseline_identity := Matches; oh_applied_runtime_matches := true |} in
  (tick t h).2.(t_phase) = PhaseRestoring.
Proof.
  intros t h. destruct (tick_exact "wan" t (OverrideSample.session t) h) as [[_ H] | [_ (r & a & _ & H & _)]].
  - apply override_sample_reachable.
  - by vm_compute.
  - by vm_compute.
  - exfalso. apply (f_equal (λ x, x.1)) in H. by vm_compute in H.
  - exact H.
Defined.

Lemma every_session_ends_witness :
  let t := OverrideSample.after [OverrideSample.open_call; OverrideSample.attest_call] in
  run (ending (OverrideSample.session t) 3000) t = OverrideSample.fresh.
Proof.
  intros t. refine (every_session_ends "wan" t (OverrideSample.session t) 3000 _ _ _).
  - apply override_sample_reachable.
  - by vm_compute.
  - done.
Defined.

Definition foreign_permit : AutotuneRuntimePermit := {|
  rp_dns_server := None; rp_probe_accounting_required := false; rp_kind := AutotunePermit;
  rp_permit_id := "ffffffffffffffffffffffffffffffff";
  rp_job_id := OverrideSample.permit.(rp_job_id);
  rp_worker_run_id := OverrideSample.permit.(rp_worker_run_id);
  rp_boot_id := OverrideSample.permit.(rp_boot_id);
  rp_coordinator_generation := OverrideSample.permit.(rp_coordinator_generation);
  rp_worker := PermitSample.worker; rp_instance_name := "wan"; rp_target_interface := "wan";
  rp_route_identity := "main|wan";
  rp_route_fingerprint := OverrideSample.permit.(rp_route_fingerprint);
  rp_sqm_fingerprint := OverrideSample.permit.(rp_sqm_fingerprint);
  rp_deadline_boot_ms := 90000; rp_maximum_sequence := 10; rp_profile := BestOverall;
  rp_link_kind := Ethernet; rp_baseline := Managed ShapedBoth;
  rp_initial_download_kbps := 40000; rp_initial_upload_kbps := 10000;
  rp_download_qdisc_kind := CakeMq; rp_upload_qdisc_kind := Cake;
  rp_allow_bypass_download := true; rp_allow_bypass_upload := true;
  rp_download_bounds := {| minimum_kbps := 1000; maximum_kbps := 80000 |};
  rp_upload_bounds := {| minimum_kbps := 1000; maximum_kbps := 20000 |} |}.

Lemma foreign_permit_ignored_witness :
  let t := OverrideSample.after [OverrideSample.open_call] in
  (submit t foreign_permit sample_control None 1200).2 = t.
Proof.
  intros t. refine (proj1 (foreign_permit_ignored "wan" t (OverrideSample.session t) foreign_permit
    sample_control None 1200 {| rh_current_boot_ms := 1; rh_restore_intent_present := false;
      rh_worker_identity_matches := true; rh_route_identity := ""; rh_baseline_identity := Matches;
      rh_baseline_runtime_matches := true |} _ _ _)).
  - apply override_sample_reachable.
  - by vm_compute.
  - by vm_compute.
Defined.

