(* ===== verification/Effects.v ===== *)
(** * Programs with effects

    The runtime driver reads and writes files and drives an actuator; whatever it
    does next depends on the answers. A run of such code is a finite tree of calls
    and answers: the free monad over the calls. This file holds that monad, a state
    and error monad over it for methods on [&mut self], the weakest precondition of
    a run against an environment given as a step relation, and the small-step runs
    themselves, which may stop between any two calls. *)

From S2P Require Import Prelude.

(** ** Runs *)

Section prog.
Context {Call : Type} (answer : Call → Type).

Inductive prog (A : Type) : Type :=
  | Ret (a : A)
  | Do (c : Call) (k : answer c → prog A).
Arguments Ret {A} a.
Arguments Do {A} c k.

Fixpoint prog_bind {A B} (m : prog A) (f : A → prog B) : prog B :=
  match m with
  | Ret a => f a
  | Do c k => Do c (λ x, prog_bind (k x) f)
  end.

(** Running with every answer given by a function of the call, under an environment
    state. Used to evaluate concrete runs. *)
Fixpoint run_with {W A} (reply : ∀ c, W → answer c * W) (w : W) (m : prog A) : A * W :=
  match m with
  | Ret a => (a, w)
  | Do c k => let '(x, w') := reply c w in run_with reply w' (k x)
  end.

(** The calls of such a run, in their order. *)
Fixpoint calls_with {W A} (reply : ∀ c, W → answer c * W) (w : W) (m : prog A) : list Call :=
  match m with
  | Ret _ => []
  | Do c k => let '(x, w') := reply c w in c :: calls_with reply w' (k x)
  end.
End prog.
Arguments Ret {Call answer A} a.
Arguments Do {Call answer A} c k.
Arguments prog_bind {Call answer A B} m f : simpl nomatch.

(** ** Methods: state and errors over runs *)

Section method.
Context {Call : Type} (answer : Call → Type) (S : Type).

Definition method (E A : Type) : Type := S → prog answer (result E A * S).

#[global] Instance method_ret E : MRet (method E) := λ A a s, Ret (Ok a, s).
#[global] Instance method_bind E : MBind (method E) := λ A B f m s,
  prog_bind (m s) (λ r,
    match r.1 with
    | Ok a => f a r.2
    | Err e => Ret (Err e, r.2)
    end).

(** The result of a call. *)
Definition call {E} (c : Call) : method E (answer c) := λ s, Do c (λ x, Ret (Ok x, s)).
(** A pure fallible step under [?]. *)
Definition lift_m {E A} (r : result E A) : method E A := λ s, Ret (r, s).
Definition raise {E A} (e : E) : method E A := lift_m (Err e).
Definition gets {E A} (f : S → A) : method E A := λ s, Ret (Ok (f s), s).
Definition update {E} (f : S → S) : method E unit := λ s, Ret (Ok tt, f s).
(** The result of a method, as a value: [match m { Ok .. Err .. }]. *)
Definition attempt {E E' A} (m : method E A) : method E' (result E A) := λ s,
  prog_bind (m s) (λ r, Ret (Ok r.1, r.2)).
(** [m.map_err(f)] *)
Definition map_err {E E' A} (f : E → E') (m : method E A) : method E' A := λ s,
  prog_bind (m s) (λ r, Ret (match r.1 with Ok a => Ok a | Err e => Err (f e) end, r.2)).
End method.
Arguments call {Call answer S E} c.
Arguments lift_m {Call answer S E A} r.
Arguments raise {Call answer S E A} e.
Arguments gets {Call answer S E A} f.
Arguments update {Call answer S E} f.
Arguments attempt {Call answer S E E' A} m.
Arguments map_err {Call answer S E E' A} f m.

(** ** Environments *)

Section environment.
Context {Call : Type} {answer : Call → Type} {W : Type}.
(** What a call may be made in. *)
Context (pre : W → Call → Prop).
(** The answers an environment may give, and the world it leaves. *)
Context (step : W → ∀ c : Call, answer c → W → Prop).

(** Every call of the run is made where it may be, and the run ends in [Q]. *)
Fixpoint safe {A} (w : W) (m : prog answer A) (Q : A → W → Prop) : Prop :=
  match m with
  | Ret a => Q a w
  | Do c k => pre w c ∧ ∀ x w', step w c x w' → safe w' (k x) Q
  end.

Lemma safe_mono {A} w (m : prog answer A) (Q R : A → W → Prop) :
  safe w m Q → (∀ a w', Q a w' → R a w') → safe w m R.
Proof.
  revert w. induction m as [a | c k IH]; intros w; cbn [safe]; [auto |].
  intros [Hp H] HQ. split; [done |]. intros x w' Hs. apply IH; auto.
Qed.

Lemma safe_bind {A B} w (m : prog answer A) (f : A → prog answer B) Q :
  safe w m (λ a w', safe w' (f a) Q) → safe w (prog_bind m f) Q.
Proof.
  revert w. induction m as [a | c k IH]; intros w; cbn [safe prog_bind]; [done |].
  intros [Hp H]. split; [done |]. intros x w' Hs. by apply IH, H.
Qed.

(** *** Runs that may stop anywhere *)

(** [m] makes some calls in [w] and becomes [m'] in [w']. *)
Inductive runs {A} : prog answer A → W → prog answer A → W → Prop :=
  | runs_here m w : runs m w m w
  | runs_call c k w x w' m' w'' :
      step w c x w' → runs (k x) w' m' w'' → runs (Do c k) w m' w''.

Lemma safe_runs {A} w (m : prog answer A) Q m' w' :
  safe w m Q → runs m w m' w' → safe w' m' Q.
Proof. intros H Hr. revert H. induction Hr as [| c k w x w' m' w'' Hs _ IH]; [done |]. intros [_ H]. auto. Qed.

(** A run whose answers the environment may give ends in [Q]. *)
Lemma safe_run_with {A} (reply : ∀ c, W → answer c * W) w (m : prog answer A) (Q : A → W → Prop) :
  (∀ c w, step w c (reply c w).1 (reply c w).2) → safe w m Q →
  Q (run_with answer reply w m).1 (run_with answer reply w m).2.
Proof.
  intros Hr. revert w. induction m as [a | c k IH]; intros w; cbn [safe run_with]; [done |].
  intros [_ H]. specialize (Hr c w) as Hs. destruct (reply c w) as [x w']. apply IH. by apply H.
Qed.
End environment.

(** *** The same for methods *)

Section method_safe.
Context {Call : Type} {answer : Call → Type} {W S : Type}.
Context (pre : W → Call → Prop) (step : W → ∀ c : Call, answer c → W → Prop).

Definition msafe {E A} (w : W) (s : S) (m : method answer S E A)
    (Q : result E A → S → W → Prop) : Prop :=
  safe pre step w (m s) (λ r w', Q r.1 r.2 w').

Context {E : Type}.

Lemma msafe_mono {A} w s (m : method answer S E A) (Q R : result E A → S → W → Prop) :
  msafe w s m Q → (∀ r s' w', Q r s' w' → R r s' w') → msafe w s m R.
Proof. intros H HQ. eapply safe_mono; [exact H |]. intros [r s'] w'. apply HQ. Qed.

Lemma msafe_bind {A B} w s (m : method answer S E A) (f : A → method answer S E B) Q :
  msafe w s m (λ r s' w', match r with Ok a => msafe w' s' (f a) Q | Err e => Q (Err e) s' w' end) →
  msafe w s (m ≫= f) Q.
Proof.
  intros H. unfold msafe, mbind, method_bind. apply safe_bind. eapply safe_mono; [exact H |].
  intros [[a | e] s'] w'; done.
Qed.

Lemma msafe_ret {A} w s (a : A) (Q : result E A → S → W → Prop) :
  Q (Ok a) s w → msafe w s (mret a) Q.
Proof. done. Qed.

Lemma msafe_call w s c (Q : result E (answer c) → S → W → Prop) :
  pre w c → (∀ x w', step w c x w' → Q (Ok x) s w') → msafe w s (call c) Q.
Proof. intros Hp HQ. split; [done |]. intros x w' Hs. by apply HQ. Qed.

Lemma msafe_lift {A} w s (r : result E A) (Q : result E A → S → W → Prop) :
  Q r s w → msafe w s (lift_m r) Q.
Proof. done. Qed.
Lemma msafe_raise {A} w s (e : E) (Q : result E A → S → W → Prop) :
  Q (Err e) s w → msafe w s (raise e) Q.
Proof. done. Qed.
Lemma msafe_gets {A} w s (f : S → A) (Q : result E A → S → W → Prop) :
  Q (Ok (f s)) s w → msafe w s (gets f) Q.
Proof. done. Qed.
Lemma msafe_update w s (f : S → S) (Q : result E unit → S → W → Prop) :
  Q (Ok tt) (f s) w → msafe w s (update f) Q.
Proof. done. Qed.

Lemma msafe_attempt {E' A} w s (m : method answer S E' A) (Q : result E (result E' A) → S → W → Prop) :
  msafe w s m (λ r s' w', Q (Ok r) s' w') → msafe w s (attempt m) Q.
Proof. intros H. apply safe_bind. eapply safe_mono; [exact H |]. by intros [r s'] w'. Qed.

Lemma msafe_map_err {E' A} w s (f : E' → E) (m : method answer S E' A) (Q : result E A → S → W → Prop) :
  msafe w s m (λ r s' w', Q (match r with Ok a => Ok a | Err e => Err (f e) end) s' w') →
  msafe w s (map_err f m) Q.
Proof. intros H. apply safe_bind. eapply safe_mono; [exact H |]. by intros [r s'] w'. Qed.
End method_safe.

(** One call: the head of the goal, or the first step of its method. *)
Ltac make_call :=
  repeat apply msafe_bind;
  lazymatch goal with
  | |- msafe ?p ?s ?w ?d (call ?c) ?Q => refine (msafe_call p s w d c Q _ _)
  end.

(** ** Equal runs *)

(** The same calls, and for every answer the same rest. *)
Inductive prog_eq {Call : Type} {answer : Call → Type} {A : Type} : prog answer A → prog answer A → Prop :=
  | eq_ret a : prog_eq (Ret a) (Ret a)
  | eq_do c k k' : (∀ x, prog_eq (k x) (k' x)) → prog_eq (Do c k) (Do c k').

#[export] Instance prog_eq_refl {Call} {answer : Call → Type} {A} : Reflexive (@prog_eq Call answer A).
Proof. intros m. induction m; by constructor. Qed.

Lemma prog_eq_bind {Call} {answer : Call → Type} {A B} (m m' : prog answer A) (f f' : A → prog answer B) :
  prog_eq m m' → (∀ a, prog_eq (f a) (f' a)) → prog_eq (prog_bind m f) (prog_bind m' f').
Proof. intros Hm Hf. induction Hm as [a | c k k' _ IH]; cbn; [apply Hf | by constructor]. Qed.

(** A method is followed by two that agree after what it may return. *)
Lemma method_bind_eq {Call} {answer : Call → Type} {S E A B} (m : method answer S E A)
    (f f' : A → method answer S E B) s :
  (∀ a s', prog_eq (f a s') (f' a s')) → prog_eq ((m ≫= f) s) ((m ≫= f') s).
Proof. intros H. apply prog_eq_bind; [done |]. intros [[a | e] s']; [apply H | done]. Qed.
