(* ===== verification/RuntimeActuator.v ===== *)
(** * The calls of the runtime driver

    Models the trait [RuntimeOverrideActuator] of
    [operations/autotune_runtime_driver.rs] with its answers, and the file system
    calls of [operations/autotune_runtime_store.rs]: everything the driver can make
    happen outside its own memory. *)

From S2P Require Import Prelude RustStr SchedRecord PercentRecord LineRecord Vocabulary RustNet CapturePolicy OperationRequest JobJournal RuntimeControl PrivateNamespace TemporaryTopology RuntimePermit RuntimeRecord RuntimeCheckpoint Effects.
Local Open Scope string_scope.

(** ** What an actuator reports *)

Inductive RuntimeRestoreBlocker :=
  | TargetUnavailable (target_interface detail : string)
  | SqmRecoveryBusy (target_interface detail : string)
  | TopologySettling (target_interface detail : string)
  | RecoveryInterrupted (target_interface detail : string).

#[export] Instance RuntimeRestoreBlocker_eq_dec : EqDecision RuntimeRestoreBlocker.
Proof. solve_decision. Defined.

Definition detail (b : RuntimeRestoreBlocker) : string :=
  match b with
  | TargetUnavailable _ detail | SqmRecoveryBusy _ detail
  | TopologySettling _ detail | RecoveryInterrupted _ detail => detail
  end.

Inductive RuntimeRestoreObservation :=
  | ObservedBlocked (blocker : RuntimeRestoreBlocker)
  | ObservedReady.

Inductive RuntimeActuatorError :=
  | Blocked (blocker : RuntimeRestoreBlocker)
  | Unsafe (message : string).

#[export] Instance RuntimeActuatorError_eq_dec : EqDecision RuntimeActuatorError.
Proof. solve_decision. Defined.

(** [Display for RuntimeActuatorError] *)
Definition actuator_error_text (e : RuntimeActuatorError) : string :=
  match e with Blocked blocker => detail blocker | Unsafe message => message end.

Definition Act (A : Type) : Type := result RuntimeActuatorError A.

(** ** The records of the store *)

Inductive RuntimeFile := PermitFile | ControlFile | RestoreFile | AckFile | CheckpointFile.

#[export] Instance RuntimeFile_eq_dec : EqDecision RuntimeFile.
Proof. solve_decision. Defined.

Definition file_name (f : RuntimeFile) : string :=
  match f with
  | PermitFile => "permit.record"
  | ControlFile => "control.record"
  | RestoreFile => "restore.record"
  | AckFile => "ack.record"
  | CheckpointFile => "checkpoint.record"
  end.

(** The metadata the store looks at. *)
Record Metadata := { md_is_file : bool; md_is_symlink : bool; md_uid : N; md_mode : N }.

(** [fs::symlink_metadata(path)] *)
Inductive FileInspection :=
  | NoEntry
  | InspectionFailed (error : string)
  | Entry (metadata : Metadata).

(** [fs::remove_file(path)] *)
Inductive FileRemoval := Removed | WasNotThere | RemovalFailed (error : string).

(** ** Calls and answers

    A record is read by inspecting it and reading at most [MAX_RUNTIME_RECORD_BYTES + 1]
    bytes of it, and written by filling a temporary file that is then renamed; a
    failing call answers with the text of its error. *)

Inductive RuntimeCall :=
  | InspectRecord (f : RuntimeFile)
  | ReadRecord (f : RuntimeFile)
  | CreateTemporary
  | FillTemporary (text : string)
  | DiscardTemporary
  | RenameTemporary (f : RuntimeFile)
  | RemoveRecord (f : RuntimeFile)
  | SyncDirectory
  | CurrentBootMs
  | CaptureBaseline (permit : AutotuneRuntimePermit)
  | CurrentRouteIdentity
  | BaselineReadyForApply (permit : AutotuneRuntimePermit)
  | ActiveIdentityMatches (permit : AutotuneRuntimePermit)
  | WorkerIdentityMatches (worker : ProcessIdentity)
  | RuntimeMatches (expected : RuntimeSnapshot) (checkpoint : RuntimeOverrideCheckpoint)
  | PrepareBaseline (checkpoint : RuntimeOverrideCheckpoint)
  | CreateTemporaryIfb (checkpoint : RuntimeOverrideCheckpoint)
  | ApplyOverride (control : AutotuneRuntimeControl) (expected : RuntimeSnapshot)
      (checkpoint : RuntimeOverrideCheckpoint)
  | RemoveTemporaryTopology (checkpoint : RuntimeOverrideCheckpoint)
  | RestoreBaseline (baseline : RuntimeRestoreBaseline)
  | ObserveRestoreBlocker (blocker : RuntimeRestoreBlocker) (baseline : RuntimeRestoreBaseline)
  | AttestRuntime (expected : RuntimeSnapshot) (checkpoint : RuntimeOverrideCheckpoint)
  | AttestRestoredBaseline (baseline : RuntimeRestoreBaseline)
      (checkpoint : RuntimeOverrideCheckpoint)
  | FinishRestored
  | RecoverSafeConfiguration.

Definition answer (c : RuntimeCall) : Type :=
  match c with
  | InspectRecord _ => FileInspection
  | ReadRecord _ => Res string
  | CreateTemporary => Res unit
  | FillTemporary _ => Res unit
  | DiscardTemporary => unit
  | RenameTemporary _ => Res unit
  | RemoveRecord _ => FileRemoval
  | SyncDirectory => Res unit
  | CurrentBootMs => N
  | CaptureBaseline _ => Res RuntimeRestoreBaseline
  | CurrentRouteIdentity => Res string
  | BaselineReadyForApply _ => Res bool
  | ActiveIdentityMatches _ => Res bool
  | WorkerIdentityMatches _ => bool
  | RuntimeMatches _ _ => Res bool
  | PrepareBaseline _ => Act unit
  | CreateTemporaryIfb _ => Act N
  | ApplyOverride _ _ _ => Act unit
  | RemoveTemporaryTopology _ => Act unit
  | RestoreBaseline _ => Act unit
  | ObserveRestoreBlocker _ _ => Res RuntimeRestoreObservation
  | AttestRuntime _ _ => Act RuntimeSnapshot
  | AttestRestoredBaseline _ _ => Act RuntimeRestoreBaseline
  | FinishRestored => unit
  | RecoverSafeConfiguration => Res unit
  end.

(** A method that makes runtime calls, on a state, with an error and a result. *)
Abbreviation RM := (method answer).

(** A call that answers with a [Result], under [?]. *)
Definition try_call {S E A} (m : RM S E (result E A)) : RM S E A := m ≫= lift_m.
