(* ===== verification/RuntimeStore.v ===== *)
(** * The store of a runtime override

    Models [RuntimeOverrideStore] of [operations/autotune_runtime_store.rs]: the five
    records of one instance's override, written atomically and removed one by one,
    and the operations by which coordinator, worker and instance hand an override
    back and forth. *)

From S2P Require Import Prelude RustStr SchedRecord PercentRecord LineRecord Vocabulary RustNet CapturePolicy OperationRequest JobJournal RuntimeControl PrivateNamespace TemporaryTopology RuntimePermit RuntimeRecord RuntimeCheckpoint Effects RuntimeActuator.
Local Open Scope string_scope.

(** The directory of the records, with the effective user of the process. *)
Record RuntimeOverrideStore := { store_root : string; store_uid : N }.

Section store.
Context {S : Type}.
Abbreviation Store := (RM S string).

(** ** Files *)

(** The text of [path.display()] for a record. *)
Definition record_path (store : RuntimeOverrideStore) (f : RuntimeFile) : string :=
  store.(store_root) +:+ "/" +:+ file_name f.

Definition validate_private_file (uid : N) (path : string) (m : Metadata) : Res unit :=
  fail_if (negb m.(md_is_file) || m.(md_is_symlink) || negb (m.(md_uid) =? uid)%N
           || negb (N.land m.(md_mode) 0x1ff =? 0x180)%N)
    (path +:+ " is not a private regular file").

Definition read_optional {T} (store : RuntimeOverrideStore) (f : RuntimeFile)
    (decoder : string → Res T) : Store (option T) :=
  inspection ← call (InspectRecord f);
  match inspection with
  | NoEntry => mret None
  | InspectionFailed error => raise ("unable to inspect " +:+ record_path store f +:+ ": " +:+ error)
  | Entry metadata =>
      lift_m (validate_private_file store.(store_uid) (record_path store f) metadata) ≫= λ _,
      input ← try_call (call (ReadRecord f));
      lift_m (fail_if (MAX_RUNTIME_RECORD_BYTES <? len input)%N
                (record_path store f +:+ " exceeds its size bound")) ≫= λ _,
      value ← lift_m (decoder input);
      mret (Some value)
  end.

(** A failed step on the temporary file: it is discarded and the error reported. *)
Definition abandon_temporary (message : string) : Store unit :=
  call DiscardTemporary ≫= λ _, raise message.

Definition atomic_write (f : RuntimeFile) (contents : string) : Store unit :=
  lift_m (fail_if (MAX_RUNTIME_RECORD_BYTES <? len contents)%N
            "runtime record exceeds its size bound") ≫= λ _,
  try_call (call CreateTemporary) ≫= λ _,
  filled ← call (FillTemporary contents);
  match filled with
  | Err error => abandon_temporary ("unable to publish runtime record: " +:+ error)
  | Ok _ =>
      renamed ← call (RenameTemporary f);
      match renamed with
      | Err error => abandon_temporary ("unable to rename runtime record: " +:+ error)
      | Ok _ => try_call (call SyncDirectory)
      end
  end.

Fixpoint remove_each (names : list RuntimeFile) : Store unit :=
  match names with
  | [] => mret tt
  | f :: names =>
      removal ← call (RemoveRecord f);
      match removal with
      | Removed | WasNotThere => remove_each names
      | RemovalFailed error =>
          raise ("unable to remove runtime " +:+ file_name f +:+ ": " +:+ error)
      end
  end.

Definition remove_records (names : list RuntimeFile) : Store unit :=
  remove_each names ≫= λ _, try_call (call SyncDirectory).

(** [encode()?] and the write. *)
Definition publish (f : RuntimeFile) (encoded : Res string) : Store unit :=
  text ← lift_m encoded; atomic_write f text.

(** ** Records *)

Definition publish_permit (p : AutotuneRuntimePermit) : Store unit :=
  publish PermitFile (permit_encode p).
Definition publish_control (c : AutotuneRuntimeControl) : Store unit :=
  publish ControlFile (runtime_control_encode c).
Definition publish_restore_intent (c : AutotuneRuntimeControl) : Store unit :=
  publish RestoreFile (runtime_control_encode c).
Definition publish_ack (a : AutotuneRuntimeAck) : Store unit := publish AckFile (ack_encode a).
Definition publish_checkpoint (c : RuntimeOverrideCheckpoint) : Store unit :=
  publish CheckpointFile (checkpoint_encode c).

Section records.
Context (store : RuntimeOverrideStore).

Definition read_stored_permit : Store (option AutotuneRuntimePermit) :=
  read_optional store PermitFile permit_decode.
Definition read_control : Store (option AutotuneRuntimeControl) :=
  read_optional store ControlFile runtime_control_decode.
Definition read_runtime_ack : Store (option AutotuneRuntimeAck) :=
  read_optional store AckFile ack_decode.
Definition read_restore_intent : Store (option AutotuneRuntimeControl) :=
  read_optional store RestoreFile runtime_control_decode.
Definition read_stored_checkpoint : Store (option RuntimeOverrideCheckpoint) :=
  read_optional store CheckpointFile checkpoint_decode.

(** The immutable identity [replace_checkpoint] compares. *)
Definition checkpoint_same_identity (a b : RuntimeOverrideCheckpoint) : bool :=
  String.eqb a.(ck_permit_id) b.(ck_permit_id) && String.eqb a.(ck_job_id) b.(ck_job_id)
  && String.eqb a.(ck_worker_run_id) b.(ck_worker_run_id)
  && String.eqb a.(ck_boot_id) b.(ck_boot_id)
  && String.eqb a.(ck_coordinator_generation) b.(ck_coordinator_generation)
  && String.eqb a.(ck_instance_name) b.(ck_instance_name)
  && (a.(ck_created_boot_ms) =? b.(ck_created_boot_ms))%N
  && bool_decide (a.(ck_baseline) = b.(ck_baseline))
  && bool_decide (a.(ck_profile) = b.(ck_profile))
  && bool_decide (a.(ck_link_kind) = b.(ck_link_kind))
  && Bool.eqb a.(ck_managed_sqm_was_active) b.(ck_managed_sqm_was_active)
  && String.eqb a.(ck_temporary).(ifb_name) b.(ck_temporary).(ifb_name)
  && String.eqb a.(ck_temporary).(ifb_alias) b.(ck_temporary).(ifb_alias)
  && String.eqb a.(ck_temporary).(target_qdisc_handle) b.(ck_temporary).(target_qdisc_handle)
  && String.eqb a.(ck_temporary).(ifb_qdisc_handle) b.(ck_temporary).(ifb_qdisc_handle)
  && String.eqb a.(ck_temporary).(ingress_qdisc_handle) b.(ck_temporary).(ingress_qdisc_handle)
  && (a.(ck_temporary).(redirect_preference) =? b.(ck_temporary).(redirect_preference))%N.

Definition replace_checkpoint (current next : RuntimeOverrideCheckpoint) : Store unit :=
  stored ← read_stored_checkpoint;
  lift_m (fail_if (negb (bool_decide (stored = Some current)))
    "runtime checkpoint changed before its stage transition") ≫= λ _,
  lift_m (fail_if (negb (checkpoint_same_identity current next))
    "runtime checkpoint immutable identity changed during transition") ≫= λ _,
  lift_m (checkpoint_validate next) ≫= λ _,
  publish_checkpoint next.

(** ** Handing an override back *)

Definition request_restore (expected : AutotuneRuntimeControl) : Store unit :=
  stored ← read_control;
  current ← lift_m (ok_or stored "runtime control disappeared before restore intent");
  lift_m (fail_if (negb (bool_decide (current = expected)))
    "runtime control changed before restore intent") ≫= λ _,
  intent ← read_restore_intent;
  lift_m (fail_if (is_some intent) "runtime restore intent already exists") ≫= λ _,
  publish_restore_intent expected ≫= λ _,
  remove_records [ControlFile].

Definition attests_recovery_control (p : AutotuneRuntimePermit) (instance_name : string)
    (c : AutotuneRuntimeControl) : Res unit := authorizes_identity p instance_name c.

(** The control identity check of [attest_restored_owner]. *)
Definition restored_control_mismatch (allow_live_control : bool)
    (current_control restore_intent : option AutotuneRuntimeControl)
    (expected : AutotuneRuntimeControl) : bool :=
  let control_matches := bool_decide (current_control = Some expected) in
  let intent_matches := bool_decide (restore_intent = Some expected) in
  is_some_and (λ value, negb (bool_decide (value = expected))) current_control
  || is_some_and (λ value, negb (bool_decide (value = expected))) restore_intent
  || (negb allow_live_control && (is_some current_control || negb intent_matches))
  || (allow_live_control && negb control_matches && negb intent_matches).

Definition attest_restored_owner (expected_permit : AutotuneRuntimePermit)
    (expected_control : AutotuneRuntimeControl) (current_boot_ms : N)
    (allow_live_control : bool) : Store unit :=
  stored_permit ← read_stored_permit;
  current_permit ← lift_m (ok_or stored_permit
    "runtime permit disappeared before restored release");
  lift_m (fail_if (negb (bool_decide (current_permit = expected_permit)))
    "runtime permit changed before restored release") ≫= λ _,
  lift_m (attests_recovery_control expected_permit expected_permit.(rp_instance_name)
            expected_control) ≫= λ _,
  current_control ← read_control;
  restore_intent ← read_restore_intent;
  lift_m (fail_if (restored_control_mismatch allow_live_control current_control restore_intent
                     expected_control)
    "runtime control identity changed before restored release") ≫= λ _,
  stored_checkpoint ← read_stored_checkpoint;
  checkpoint ← lift_m (ok_or stored_checkpoint
    "runtime checkpoint disappeared before restored release");
  lift_m (checkpoint_validate_against checkpoint expected_permit) ≫= λ _,
  stored_ack ← read_runtime_ack;
  ack ← lift_m (ok_or stored_ack "RESTORED runtime ACK disappeared before release");
  lift_m (attests_restored ack expected_control current_boot_ms) ≫= λ _,
  mret tt.

Definition release_restored_request (expected_permit : AutotuneRuntimePermit)
    (expected_control : AutotuneRuntimeControl) (current_boot_ms : N) : Store unit :=
  attest_restored_owner expected_permit expected_control current_boot_ms false ≫= λ _,
  remove_records [PermitFile].

Definition withdraw_restored_request (expected_permit : AutotuneRuntimePermit)
    (expected_control : AutotuneRuntimeControl) (current_boot_ms : N) : Store unit :=
  attest_restored_owner expected_permit expected_control current_boot_ms true ≫= λ _,
  remove_records [ControlFile; PermitFile].

Definition withdraw_request : Store unit := remove_records [ControlFile; PermitFile].

(** The checkpoint goes first: a left-over acknowledgement is harmless. *)
Definition finalize_restored : Store unit :=
  remove_records [CheckpointFile; AckFile; RestoreFile].

Definition store_clear : Store unit :=
  remove_records [ControlFile; PermitFile; CheckpointFile; AckFile; RestoreFile].
End records.
End store.
