(* ===== verification/RuntimeDriver.v ===== *)
(** * The runtime driver

    Models [RuntimeOverrideDriver] of [operations/autotune_runtime_driver.rs], whole:
    the polled method that reads the records of an instance, steps its tracker,
    drives the actuator through the stages of the temporary topology and publishes
    what it attested, and the reconciliation after a restart. *)

From S2P Require Import Prelude RustStr SchedRecord PercentRecord LineRecord Vocabulary RustNet CapturePolicy OperationRequest JobJournal RuntimeControl PrivateNamespace TemporaryTopology RuntimePermit RuntimeRecord RuntimeCheckpoint RuntimeOverride Effects RuntimeActuator RuntimeStore.
Local Open Scope string_scope.

(** ** State *)

Inductive RuntimeDriverOutcome :=
  | OutcomeIdle | OutcomePermitAwaitingControl | OutcomeApplying | OutcomeApplied
  | OutcomeRestoring | OutcomeRestored | OutcomeRejected | OutcomeUnsafeRecoveryRequired.

#[export] Instance RuntimeDriverOutcome_eq_dec : EqDecision RuntimeDriverOutcome.
Proof. solve_decision. Defined.

Record RuntimeOverrideDriver := {
  d_instance_name : string;
  d_store : RuntimeOverrideStore;
  d_tracker : RuntimeOverrideTracker;
  d_startup_reconciled : bool;
  d_unsafe_recovery_reason : option string;
  d_restore_blocker : option RuntimeRestoreBlocker;
}.

Definition set_tracker (t : RuntimeOverrideTracker) (d : RuntimeOverrideDriver) :=
  {| d_instance_name := d.(d_instance_name); d_store := d.(d_store); d_tracker := t;
     d_startup_reconciled := d.(d_startup_reconciled);
     d_unsafe_recovery_reason := d.(d_unsafe_recovery_reason);
     d_restore_blocker := d.(d_restore_blocker) |}.
Definition set_reconciled (d : RuntimeOverrideDriver) :=
  {| d_instance_name := d.(d_instance_name); d_store := d.(d_store); d_tracker := d.(d_tracker);
     d_startup_reconciled := true; d_unsafe_recovery_reason := d.(d_unsafe_recovery_reason);
     d_restore_blocker := d.(d_restore_blocker) |}.
Definition set_unsafe (reason : string) (d : RuntimeOverrideDriver) :=
  {| d_instance_name := d.(d_instance_name); d_store := d.(d_store); d_tracker := d.(d_tracker);
     d_startup_reconciled := d.(d_startup_reconciled); d_unsafe_recovery_reason := Some reason;
     d_restore_blocker := d.(d_restore_blocker) |}.
Definition set_blocker (b : option RuntimeRestoreBlocker) (d : RuntimeOverrideDriver) :=
  {| d_instance_name := d.(d_instance_name); d_store := d.(d_store); d_tracker := d.(d_tracker);
     d_startup_reconciled := d.(d_startup_reconciled);
     d_unsafe_recovery_reason := d.(d_unsafe_recovery_reason); d_restore_blocker := b |}.

Abbreviation Driver := (RM RuntimeOverrideDriver string).
(** The closures of [execute], which fail with an actuator error. *)
Abbreviation Stages := (RM RuntimeOverrideDriver RuntimeActuatorError).

(** [RuntimeOverrideStore::open] has succeeded. *)
Definition driver_open (instance_name : string) (store : RuntimeOverrideStore)
    : Res RuntimeOverrideDriver :=
  tracker ← tracker_new instance_name;
  mret {| d_instance_name := instance_name; d_store := store; d_tracker := tracker;
          d_startup_reconciled := false; d_unsafe_recovery_reason := None;
          d_restore_blocker := None |}.

(** ** Helpers *)

Definition outcome_for_ack (a : AutotuneRuntimeAck) : RuntimeDriverOutcome :=
  match a.(ra_state) with
  | Applied => OutcomeApplied
  | Restoring => OutcomeRestoring
  | Restored => OutcomeRestored
  | Rejected => OutcomeRejected
  end.

Definition outcome_for_phase (p : RuntimeOverridePhase) : RuntimeDriverOutcome :=
  match p with
  | PhaseIdle => OutcomeIdle
  | PhaseApplying => OutcomeApplying
  | PhaseApplied => OutcomeApplied
  | PhaseRestoring => OutcomeRestoring
  | PhaseRestored => OutcomeRestored
  end.

(** [self.tracker.method(..)] *)
Definition on_tracker {A} (f : RuntimeOverrideTracker → A * RuntimeOverrideTracker) : Driver A :=
  λ d, Ret (Ok (f d.(d_tracker)).1, set_tracker (f d.(d_tracker)).2 d).

(** [self.tracker.field().cloned().ok_or_else(|| error)?] *)
Definition tracker_field {A} (f : RuntimeOverrideTracker → option A) (error : string) : Driver A :=
  value ← gets (λ d, f d.(d_tracker)); lift_m (ok_or value error).

Definition phase : Driver RuntimeOverridePhase := gets (λ d, d.(d_tracker).(t_phase)).

Definition current_boot_ms {E} : RM RuntimeOverrideDriver E N := call CurrentBootMs.

Definition recover_safe_configuration : Driver unit := try_call (call RecoverSafeConfiguration).

Definition handle_unreadable_active_state {A} (error : string) : Driver A :=
  phase ← phase;
  if bool_decide (phase = PhaseIdle) then raise error
  else
    recover_safe_configuration ≫= λ _,
    let diagnostic :=
      "active runtime ownership record is unreadable; safe recovery was requested: " +:+ error in
    update (set_unsafe diagnostic) ≫= λ _,
    raise diagnostic.

Definition fail_restore_safely {A} (diagnostic : string) : Driver A :=
  recovery ← call RecoverSafeConfiguration;
  let diagnostic :=
    match recovery with
    | Ok _ => diagnostic +:+ "; safe configuration recovery was requested"
    | Err recovery_error =>
        diagnostic +:+ "; safe configuration recovery also failed: " +:+ recovery_error
    end in
  update (set_unsafe diagnostic) ≫= λ _,
  raise diagnostic.

(** ** Stages *)

(** [checkpoint.advance_temporary_stage(..)?], [self.store.replace_checkpoint(..)?]. *)
Definition publish_stage (checkpoint : RuntimeOverrideCheckpoint) (next : TemporaryTopologyStage)
    (ifindex : option N) : Stages RuntimeOverrideCheckpoint :=
  advanced ← map_err Unsafe (lift_m (advance_temporary_stage checkpoint next ifindex));
  store ← gets d_store;
  map_err Unsafe (replace_checkpoint store checkpoint advanced) ≫= λ _,
  mret advanced.

Definition at_temporary_stage (c : RuntimeOverrideCheckpoint) (stage : TemporaryTopologyStage)
    : bool := bool_decide (c.(ck_temporary_stage) = stage).

Definition prepared_stage (b : RuntimeRestoreBaseline) : TemporaryTopologyStage :=
  match b with Managed _ => ManagedSqmSuspended | Absent _ => AbsenceAttested end.

(** The [apply_result] closure: it returns the checkpoint it has advanced to. *)
Definition apply_stages (control : AutotuneRuntimeControl) (expected : RuntimeSnapshot)
    (checkpoint : RuntimeOverrideCheckpoint) : Stages RuntimeOverrideCheckpoint :=
  checkpoint ←
    (if at_temporary_stage checkpoint BaselineRestored
     then publish_stage checkpoint Planned None else mret checkpoint);
  checkpoint ←
    (if at_temporary_stage checkpoint Planned then
       try_call (call (PrepareBaseline checkpoint)) ≫= λ _,
       publish_stage checkpoint (prepared_stage checkpoint.(ck_baseline)) None
     else mret checkpoint);
  checkpoint ←
    (if at_temporary_stage checkpoint ManagedSqmSuspended
        || at_temporary_stage checkpoint AbsenceAttested then
       ifindex ← try_call (call (CreateTemporaryIfb checkpoint));
       publish_stage checkpoint LinkOwned (Some ifindex)
     else mret checkpoint);
  match checkpoint.(ck_temporary_stage) with
  | LinkOwned =>
      try_call (call (ApplyOverride control expected checkpoint)) ≫= λ _,
      publish_stage checkpoint Active None
  | Active =>
      try_call (call (ApplyOverride control expected checkpoint)) ≫= λ _, mret checkpoint
  | stage =>
      raise (Unsafe ("runtime override cannot apply from temporary stage "
                     +:+ TemporaryTopologyStage_as_str stage))
  end.

(** The [restore_result] closure. *)
Definition restore_stages (baseline : RuntimeRestoreBaseline)
    (checkpoint : RuntimeOverrideCheckpoint) : Stages RuntimeOverrideCheckpoint :=
  checkpoint ←
    (if at_temporary_stage checkpoint TemporaryAbsent
        || at_temporary_stage checkpoint BaselineRestored then mret checkpoint
     else
       try_call (call (RemoveTemporaryTopology checkpoint)) ≫= λ _,
       publish_stage checkpoint TemporaryAbsent None);
  checkpoint ←
    (if at_temporary_stage checkpoint TemporaryAbsent then
       try_call (call (RestoreBaseline baseline)) ≫= λ _,
       publish_stage checkpoint BaselineRestored None
     else mret checkpoint);
  if at_temporary_stage checkpoint BaselineRestored then mret checkpoint
  else raise (Unsafe ("runtime baseline cannot attest from temporary stage "
                      +:+ TemporaryTopologyStage_as_str checkpoint.(ck_temporary_stage))).

(** The checkpoint of the owner, read and validated. *)
Definition owned_checkpoint (owner : AutotuneRuntimePermit) (missing : string)
    : Driver RuntimeOverrideCheckpoint :=
  store ← gets d_store;
  stored ← read_stored_checkpoint store;
  checkpoint ← lift_m (ok_or stored missing);
  lift_m (checkpoint_validate_against checkpoint owner) ≫= λ _,
  mret checkpoint.

(** ** [execute] *)

Section execute.
(** The recursive call. *)
Context (rec : RuntimeOverrideAction → Driver RuntimeDriverOutcome).

(** A failed application: restore, and report the error unless that is under way. *)
Definition after_apply_failure (message : string) : Driver RuntimeDriverOutcome :=
  now ← current_boot_ms;
  restore ← on_tracker (λ t, apply_failed t now);
  outcome ← rec restore;
  if bool_decide (outcome = OutcomeRestoring) then mret outcome else raise message.

Definition execute_apply (control : AutotuneRuntimeControl) : Driver RuntimeDriverOutcome :=
  update (set_blocker None) ≫= λ _,
  owner ← tracker_field owner_permit "applying runtime permit is missing";
  baseline ← tracker_field tracker_baseline "applying runtime baseline is missing";
  let expected := runtime_snapshot_for_control control in
  checkpoint ← owned_checkpoint owner "applying runtime checkpoint is missing";
  if negb (bool_decide (checkpoint.(ck_baseline) = baseline)) then
    fail_restore_safely "applying runtime checkpoint changed from its exact baseline"
  else
    apply_result ← attempt (apply_stages control expected checkpoint);
    match apply_result with
    | Err error =>
        after_apply_failure ("runtime override application failed: " +:+ actuator_error_text error)
    | Ok checkpoint =>
        attested ← call (AttestRuntime expected checkpoint);
        match attested with
        | Err error =>
            after_apply_failure
              ("applied runtime could not be attested: " +:+ actuator_error_text error)
        | Ok attested =>
            now ← current_boot_ms;
            action ← on_tracker (λ t, confirm_applied t attested now);
            rec action
        end
    end.

(** A step of the restoration failed. *)
Definition after_restore_failure (prefix : string) (error : RuntimeActuatorError)
    : Driver RuntimeDriverOutcome :=
  match error with
  | Blocked blocker => update (set_blocker (Some blocker)) ≫= λ _, mret OutcomeRestoring
  | Unsafe message => fail_restore_safely (prefix +:+ message)
  end.

Definition publishes_restored (action : RuntimeOverrideAction) : bool :=
  match action with PublishAck ack => bool_decide (ack.(ra_state) = Restored) | _ => false end.

Definition execute_restore (baseline : RuntimeRestoreBaseline) (ack : AutotuneRuntimeAck)
    : Driver RuntimeDriverOutcome :=
  publish_ack ack ≫= λ _,
  owner ← tracker_field owner_permit "restoring runtime permit is missing";
  checkpoint ← owned_checkpoint owner "restoring runtime checkpoint is missing";
  if negb (bool_decide (checkpoint.(ck_baseline) = baseline)) then
    fail_restore_safely "restoring runtime checkpoint changed from its exact baseline"
  else
    restore_result ← attempt (restore_stages baseline checkpoint);
    match restore_result with
    | Err error => after_restore_failure "runtime baseline restore failed: " error
    | Ok checkpoint =>
        attested ← call (AttestRestoredBaseline baseline checkpoint);
        match attested with
        | Err error => after_restore_failure "restored runtime could not be attested: " error
        | Ok attested =>
            if negb (bool_decide (attested = baseline)) then
              fail_restore_safely "restored runtime does not exactly match its durable baseline"
            else
              update (set_blocker None) ≫= λ _,
              now ← current_boot_ms;
              action ← on_tracker (λ t, confirm_restored t attested now);
              (if publishes_restored action then call FinishRestored else mret tt) ≫= λ _,
              rec action
        end
    end.

Definition execute_step (action : RuntimeOverrideAction) : Driver RuntimeDriverOutcome :=
  match action with
  | NoAction => phase ← phase; mret (outcome_for_phase phase)
  | MalformedControl => mret OutcomeRejected
  | PublishAck ack => publish_ack ack ≫= λ _, mret (outcome_for_ack ack)
  | Apply control => execute_apply control
  | Restore baseline _ ack => execute_restore baseline ack
  end.
End execute.

(** An override that fails is restored, a restoration ends with an acknowledgement:
    the recursion of [execute] is at most three calls deep. *)
Fixpoint execute_fuel (fuel : nat) (action : RuntimeOverrideAction) : Driver RuntimeDriverOutcome :=
  match fuel with
  | O => raise "out of fuel"
  | S fuel => execute_step (execute_fuel fuel) action
  end.

Definition execute : RuntimeOverrideAction → Driver RuntimeDriverOutcome := execute_fuel 3.

(** ** [reconcile_startup] *)

(** The baseline of the checkpoint becomes the baseline to restore. *)
Definition recover_session (permit : AutotuneRuntimePermit) (control : AutotuneRuntimeControl)
    (checkpoint : RuntimeOverrideCheckpoint) : Driver (option RuntimeDriverOutcome) :=
  lift_m (checkpoint_validate_against checkpoint permit) ≫= λ _,
  now ← current_boot_ms;
  recovered ← lift_m (recover_after_restart permit.(rp_instance_name) permit control
                        checkpoint.(ck_baseline) now);
  update (set_tracker recovered.1) ≫= λ _,
  outcome ← execute recovered.2;
  mret (Some outcome).

Definition recover_configuration : Driver (option RuntimeDriverOutcome) :=
  recover_safe_configuration ≫= λ _, mret (Some OutcomeUnsafeRecoveryRequired).

(** A durable checkpoint with a restore intent. *)
Definition reconcile_restore_intent (checkpoint : RuntimeOverrideCheckpoint)
    (permit : option AutotuneRuntimePermit) (control : option AutotuneRuntimeControl)
    (restore_control : AutotuneRuntimeControl) (ack : option AutotuneRuntimeAck)
    : Driver (option RuntimeDriverOutcome) :=
  if is_some_and (λ value, negb (bool_decide (value = restore_control))) control then
    recover_configuration
  else
    match permit with
    | Some permit => recover_session permit restore_control checkpoint
    | None =>
        match control, ack with
        | None, Some ack =>
            now ← current_boot_ms;
            if is_ok (attests_restored ack restore_control now) then
              attested ← call (AttestRestoredBaseline checkpoint.(ck_baseline) checkpoint);
              match attested with
              | Err error =>
                  raise ("restored startup runtime could not be attested: "
                         +:+ actuator_error_text error)
              | Ok attested =>
                  if bool_decide (attested = checkpoint.(ck_baseline)) then
                    call FinishRestored ≫= λ _,
                    finalize_restored ≫= λ _,
                    mret (Some OutcomeIdle)
                  else recover_configuration
              end
            else recover_configuration
        | _, _ => recover_configuration
        end
    end.

Definition reconcile_startup : Driver (option RuntimeDriverOutcome) :=
  store ← gets d_store;
  read ← attempt (E := string) (read_stored_checkpoint store);
  match read with
  | Err error =>
      recover_safe_configuration ≫= λ _,
      raise ("runtime checkpoint is unreadable; safe recovery was requested: " +:+ error)
  | Ok checkpoint =>
      permit ← read_stored_permit store;
      control ← read_control store;
      restore_intent ← read_restore_intent store;
      ack ← read_runtime_ack store;
      match checkpoint, restore_intent with
      | None, Some _ =>
          if negb (is_some permit) && negb (is_some control) && negb (is_some ack) then
            finalize_restored ≫= λ _, mret (Some OutcomeIdle)
          else recover_configuration
      | None, None => mret None
      | Some checkpoint, Some restore_control =>
          reconcile_restore_intent checkpoint permit control restore_control ack
      | Some checkpoint, None =>
          match permit, control with
          | Some permit, Some control => recover_session permit control checkpoint
          | _, _ => recover_configuration
          end
      end
  end.

(** ** [poll] *)

(** [match read { Ok(value) => value, Err(error) => return self.handle_unreadable..() }] *)
Definition read_active {T A} (m : Driver T) (k : T → Driver A) : Driver A :=
  read ← attempt (E := string) m;
  match read with
  | Ok value => k value
  | Err error => handle_unreadable_active_state error
  end.

Definition poll_startup : Driver (option RuntimeDriverOutcome) :=
  reconciled ← gets d_startup_reconciled;
  if (reconciled : bool) then mret None
  else
    update set_reconciled ≫= λ _,
    result ← attempt (E := string) reconcile_startup;
    match result with
    | Ok (Some OutcomeUnsafeRecoveryRequired) =>
        update (set_unsafe "an orphaned runtime checkpoint required safe configuration recovery")
          ≫= λ _,
        mret (Some OutcomeUnsafeRecoveryRequired)
    | Ok outcome => mret outcome
    | Err error => update (set_unsafe error) ≫= λ _, raise error
    end.

(** A new control on a restored session. *)
Definition poll_rearm (permit : AutotuneRuntimePermit) (control : AutotuneRuntimeControl)
    (restore_intent : option AutotuneRuntimeControl) : Driver RuntimeDriverOutcome :=
  owner ← tracker_field owner_permit "restored runtime owner is missing";
  baseline ← tracker_field tracker_baseline "restored runtime baseline is missing";
  checkpoint ← owned_checkpoint owner "route-recovery re-arm has no durable runtime checkpoint";
  if negb (bool_decide (checkpoint.(ck_baseline) = baseline)) then
    handle_unreadable_active_state
      "route-recovery re-arm checkpoint changed from its exact baseline"
  else
    now ← current_boot_ms;
    route ← call CurrentRouteIdentity;
    ready ← call (BaselineReadyForApply owner);
    attested ← call (AttestRestoredBaseline baseline checkpoint);
    worker ← call (WorkerIdentityMatches owner.(rp_worker));
    action ← on_tracker (λ t, rearm_after_route_recovery t permit control {|
      rh_current_boot_ms := now;
      rh_restore_intent_present := is_some restore_intent;
      rh_worker_identity_matches := worker;
      rh_route_identity := match route with Ok route => route | Err _ => "" end;
      rh_baseline_identity := from_attestation ready;
      rh_baseline_runtime_matches :=
        match attested with Ok attested => bool_decide (attested = baseline) | Err _ => false end |});
    execute action.

(** The end of a restored session, or its acknowledgement kept visible. *)
Definition poll_restored_ack (requested : AutotuneRuntimeControl)
    (permit : option AutotuneRuntimePermit) (control : option AutotuneRuntimeControl)
    : Driver RuntimeDriverOutcome :=
  if negb (is_some permit) && negb (is_some control) then
    owner ← tracker_field owner_permit "restored runtime owner is missing";
    tracker ← gets d_tracker;
    released ← lift_m (override_release tracker owner.(rp_permit_id) owner.(rp_job_id)
                         owner.(rp_worker_run_id));
    update (set_tracker released) ≫= λ _,
    finalize_restored ≫= λ _,
    mret OutcomeIdle
  else
    now ← current_boot_ms;
    store ← gets d_store;
    stored ← read_runtime_ack store;
    (if is_some_and (λ ack, bool_decide (ack.(ra_state) = Restored)
                            && is_ok (attests_restored ack requested now)) stored
     then mret tt
     else
       ack ← tracker_field (λ t, restored_ack t now)
               "restored runtime ACK could not be reconstructed";
       publish_ack ack) ≫= λ _,
    mret OutcomeRestored.

Definition poll_restored (permit : option AutotuneRuntimePermit)
    (control restore_intent : option AutotuneRuntimeControl) : Driver RuntimeDriverOutcome :=
  requested ← tracker_field requested_control "restored runtime control is missing";
  reason ← gets (λ d, restore_reason d.(d_tracker));
  if bool_decide (reason = Some ControlMissing)
     && negb (bool_decide (restore_intent = Some requested)) then
    handle_unreadable_active_state "restored runtime intent does not match the exact control"
  else
    match permit, control with
    | Some permit', Some control' =>
        if negb (bool_decide (control' = requested)) then
          outcome ← poll_rearm permit' control' restore_intent;
          if bool_decide (outcome = OutcomeRestored) then
            poll_restored_ack requested permit control
          else mret outcome
        else poll_restored_ack requested permit control
    | _, _ => poll_restored_ack requested permit control
    end.

Definition poll_restoring : Driver RuntimeDriverOutcome :=
  let retry :=
    now ← current_boot_ms;
    tracker ← gets d_tracker;
    execute (retry_restore tracker now) in
  blocker ← gets d_restore_blocker;
  match blocker with
  | None => retry
  | Some blocker =>
      baseline ← tracker_field tracker_baseline "restoring runtime baseline is missing";
      observed ← call (ObserveRestoreBlocker blocker baseline);
      match observed with
      | Ok (ObservedBlocked current) =>
          update (set_blocker (Some current)) ≫= λ _, mret OutcomeRestoring
      | Ok ObservedReady => update (set_blocker None) ≫= λ _, retry
      | Err message =>
          fail_restore_safely ("runtime restore blocker observation failed: " +:+ message)
      end
  end.

(** The preflight of an idle instance: the code of the rejection, if any. *)
Definition preflight_rejection (permit : AutotuneRuntimePermit) : Driver (option string) :=
  worker ← call (WorkerIdentityMatches permit.(rp_worker));
  if negb worker then mret (Some "worker-identity-mismatch")
  else
    route ← call CurrentRouteIdentity;
    if negb (bool_decide (route = Ok permit.(rp_route_identity))) then mret (Some "route-drift")
    else
      ready ← call (BaselineReadyForApply permit);
      mret match ready with
           | Ok true => None
           | Ok false => Some (if is_absent permit.(rp_baseline) then "absence-drift" else "sqm-drift")
           | Err _ => Some (if is_absent permit.(rp_baseline) then "absence-attestation-unavailable"
                            else "sqm-attestation-unavailable")
           end.

Definition poll_idle_request (permit : AutotuneRuntimePermit) (control : AutotuneRuntimeControl)
    : Driver RuntimeDriverOutcome :=
  now ← current_boot_ms;
  instance_name ← gets d_instance_name;
  if negb (is_ok (authorizes permit instance_name control now)) then
    action ← on_tracker (λ t, submit t permit control None now);
    execute action
  else
    rejection ← preflight_rejection permit;
    match rejection with
    | Some code =>
        tracker ← gets d_tracker;
        execute (reject_before_apply tracker control now code)
    | None =>
        baseline ← try_call (call (CaptureBaseline permit));
        checkpoint ← lift_m (checkpoint_new permit now baseline);
        publish_checkpoint checkpoint ≫= λ _,
        action ← on_tracker (λ t, submit t permit control (Some baseline) now);
        execute action
    end.

Definition poll_idle (permit : option AutotuneRuntimePermit)
    (control : option AutotuneRuntimeControl) : Driver RuntimeDriverOutcome :=
  match permit, control with
  | Some permit, Some control => poll_idle_request permit control
  | Some permit, None =>
      now ← current_boot_ms;
      instance_name ← gets d_instance_name;
      if is_ok (permit_validate permit) && String.eqb permit.(rp_instance_name) instance_name
         && (0 <? now)%N && (now <? permit.(rp_deadline_boot_ms))%N then
        worker ← call (WorkerIdentityMatches permit.(rp_worker));
        mret (if (worker : bool) then OutcomePermitAwaitingControl else OutcomeRejected)
      else mret OutcomeRejected
  | None, None => mret OutcomeIdle
  | None, Some _ => mret OutcomeRejected
  end.

(** The watchdog of a live override. *)
Definition poll_tick (permit : option AutotuneRuntimePermit)
    (control : option AutotuneRuntimeControl) : Driver RuntimeDriverOutcome :=
  owner ← tracker_field owner_permit "active runtime owner is missing";
  requested ← tracker_field requested_control "active runtime control is missing";
  route ← call CurrentRouteIdentity;
  baseline ← tracker_field tracker_baseline "active runtime baseline is missing";
  checkpoint ← owned_checkpoint owner "active runtime checkpoint is missing";
  if negb (bool_decide (checkpoint.(ck_baseline) = baseline)) then
    handle_unreadable_active_state "active runtime checkpoint changed from its exact baseline"
  else
    identity ← call (ActiveIdentityMatches owner);
    phase ← phase;
    applied ← (if bool_decide (phase = PhaseApplied) then
                 matches ← call (RuntimeMatches (runtime_snapshot_for_control requested) checkpoint);
                 mret match matches with Ok matches => matches | Err _ => false end
               else mret true);
    now ← current_boot_ms;
    worker ← call (WorkerIdentityMatches owner.(rp_worker));
    action ← on_tracker (λ t, tick t {|
      oh_current_boot_ms := now;
      oh_permit_present := bool_decide (permit = Some owner);
      oh_control_present := bool_decide (control = Some requested);
      oh_worker_identity_matches := worker;
      oh_route_identity := match route with Ok route => route | Err _ => "" end;
      oh_baseline_identity := from_attestation identity;
      oh_applied_runtime_matches := applied |});
    execute action.

(** A tracker that is applying or applied: a new control first, then the watchdog. *)
Definition poll_active (permit : option AutotuneRuntimePermit)
    (control : option AutotuneRuntimeControl) : Driver RuntimeDriverOutcome :=
  let watch :=
    phase ← phase;
    if bool_decide (phase = PhaseApplying) || bool_decide (phase = PhaseApplied) then
      poll_tick permit control
    else mret (outcome_for_phase phase) in
  match permit, control with
  | Some permit, Some control =>
      now ← current_boot_ms;
      action ← on_tracker (λ t, submit t permit control None now);
      outcome ← execute action;
      if bool_decide (outcome = OutcomeIdle) || bool_decide (outcome = OutcomeApplied)
         || bool_decide (outcome = OutcomeRejected)
      then watch else mret outcome
  | _, _ => watch
  end.

Definition poll : Driver RuntimeDriverOutcome :=
  unsafe ← gets d_unsafe_recovery_reason;
  if is_some unsafe then mret OutcomeUnsafeRecoveryRequired
  else
    startup ← poll_startup;
    match startup with
    | Some outcome => mret outcome
    | None =>
        store ← gets d_store;
        read_active (read_stored_permit store) (λ permit,
        read_active (read_control store) (λ control,
        read_active (read_restore_intent store) (λ restore_intent,
          phase ← phase;
          match phase with
          | PhaseRestored => poll_restored permit control restore_intent
          | PhaseRestoring => poll_restoring
          | PhaseIdle => poll_idle permit control
          | PhaseApplying | PhaseApplied => poll_active permit control
          end)))
    end.
