(* ===== verification/DriverContract.v ===== *)
(** * The contract of the runtime driver

    The environment of [RuntimeOverrideDriver]: the two records only the instance
    writes, the temporary file, whether the live runtime differs from its baseline and
    what was last attested. Calls may fail at any point, and the process may be killed
    between any two of them. Every call is shown to be made where it may be, and in
    every world the driver can leave behind a changed runtime has a readable durable
    checkpoint of the baseline it was changed from. *)

From S2P Require Import Prelude RustStr SchedRecord PercentRecord LineRecord Vocabulary RustNet CapturePolicy OperationRequest JobJournal RuntimeControl PrivateNamespace TemporaryTopology RuntimePermit RuntimeRecord RuntimeCheckpoint RuntimeOverride OverrideContract Effects RuntimeActuator RuntimeStore RuntimeDriver.
Local Open Scope string_scope.

(** ** The world *)

Record World := {
  (** the contents of the temporary file, when it is completely written *)
  w_temporary : option string;
  (** [checkpoint.record] and [ack.record] *)
  w_checkpoint : option string;
  w_ack : option string;
  (** the baseline the live runtime was changed from, until it is attested again *)
  w_changed : option RuntimeRestoreBaseline;
  (** the last attestation of a live override *)
  w_attested : option RuntimeSnapshot;
}.

Definition set_temporary (t : option string) (w : World) : World :=
  {| w_temporary := t; w_checkpoint := w.(w_checkpoint); w_ack := w.(w_ack);
     w_changed := w.(w_changed); w_attested := w.(w_attested) |}.
Definition set_file (f : RuntimeFile) (t : option string) (w : World) : World :=
  {| w_temporary := w.(w_temporary);
     w_checkpoint := match f with CheckpointFile => t | _ => w.(w_checkpoint) end;
     w_ack := match f with AckFile => t | _ => w.(w_ack) end;
     w_changed := w.(w_changed); w_attested := w.(w_attested) |}.
Definition set_runtime (changed : option RuntimeRestoreBaseline) (attested : option RuntimeSnapshot)
    (w : World) : World :=
  {| w_temporary := w.(w_temporary); w_checkpoint := w.(w_checkpoint); w_ack := w.(w_ack);
     w_changed := changed; w_attested := attested |}.

(** A file the world knows the contents of. *)
Definition known_file (f : RuntimeFile) (w : World) : option (option string) :=
  match f with
  | CheckpointFile => Some w.(w_checkpoint)
  | AckFile => Some w.(w_ack)
  | _ => None
  end.

(** Answers and next worlds. The records of the coordinator and the worker change at
    will; the other two change by the driver's own calls, and a file call that fails has
    changed nothing. A mutation may have changed the runtime even when it fails. An exact
    attestation of the baseline that was changed ends the change. *)
Definition world_step (w : World) (c : RuntimeCall) : answer c → World → Prop :=
  match c with
  | InspectRecord f => λ (x : FileInspection) w', w' = w ∧ (x = NoEntry → ∀ t, known_file f w = Some t → t = None)
  | ReadRecord f => λ (x : Res string) w', w' = w ∧ ∀ t t', x = Ok t → known_file f w = Some t' → t' = Some t
  | CreateTemporary => λ _ w', w' = set_temporary None w
  | FillTemporary text => λ (x : Res unit) w', w' = set_temporary (if is_ok x then Some text else None) w
  | DiscardTemporary => λ _ w', w' = set_temporary None w
  | RenameTemporary f => λ (x : Res unit) w',
      w' = if is_ok x then set_temporary None (set_file f w.(w_temporary) w) else w
  | RemoveRecord f => λ (x : FileRemoval) w',
      match x with
      | Removed => w' = set_file f None w
      | WasNotThere => w' = w ∧ ∀ t, known_file f w = Some t → t = None
      | RemovalFailed _ => w' = w
      end
  | CurrentBootMs => λ (now : N) w', w' = w ∧ is_u64 now
  | PrepareBaseline c | RemoveTemporaryTopology c => λ _ w', w' = set_runtime (Some c.(ck_baseline)) None w
  | CreateTemporaryIfb c => λ (x : Act N) w',
      w' = set_runtime (Some c.(ck_baseline)) None w ∧ ∀ n, x = Ok n → is_u32 n
  | ApplyOverride _ _ c => λ _ w', w' = set_runtime (Some c.(ck_baseline)) None w
  | RestoreBaseline b => λ _ w', w' = set_runtime (Some b) None w
  | AttestRuntime _ _ => λ (x : Act RuntimeSnapshot) w',
      w' = set_runtime w.(w_changed) (match x with Ok s => Some s | Err _ => None end) w
  | AttestRestoredBaseline b _ => λ (x : Act RuntimeRestoreBaseline) w',
      w' = if bool_decide (x = Ok b) && bool_decide (w.(w_changed) = Some b)
           then set_runtime None None w else w
  | _ => λ _ w', w' = w
  end.

(** ** Where a call may be made *)

(** The checkpoint is on disk, and reading it gives it back. *)
Definition durable (w : World) (c : RuntimeOverrideCheckpoint) : Prop :=
  ∃ text, w.(w_checkpoint) = Some text ∧ checkpoint_decode text = Ok c.

(** A RESTORING acknowledgement is visible to the worker. *)
Definition restoring_visible (w : World) : Prop :=
  ∃ a text, w.(w_ack) = Some text ∧ ack_encode a = Ok text ∧ a.(ra_state) = Restoring.

(** What an acknowledgement claims of the runtime. *)
Definition ack_describes (a : AutotuneRuntimeAck) (s : RuntimeSnapshot) : Prop :=
  a.(ra_topology) = Some s.(rs_topology) ∧ a.(ra_download_kbps) = s.(rs_download_kbps)
  ∧ a.(ra_upload_kbps) = s.(rs_upload_kbps)
  ∧ a.(ra_target_interface) = s.(rs_target_interface)
  ∧ a.(ra_route_fingerprint) = s.(rs_route_fingerprint)
  ∧ a.(ra_sqm_fingerprint) = s.(rs_sqm_fingerprint).

(** APPLIED needs the attestation of exactly that runtime, RESTORED needs an exact
    attestation of the baseline, with nothing changed since. *)
Definition ack_true (w : World) (a : AutotuneRuntimeAck) : Prop :=
  (a.(ra_state) = Applied → ∃ s, w.(w_attested) = Some s ∧ ack_describes a s)
  ∧ (a.(ra_state) = Restored → w.(w_changed) = None).

Definition world_pre (w : World) (c : RuntimeCall) : Prop :=
  match c with
  | RenameTemporary CheckpointFile =>
      ∃ text c, w.(w_temporary) = Some text ∧ checkpoint_decode text = Ok c
        ∧ ∀ b, w.(w_changed) = Some b → c.(ck_baseline) = b
  | RenameTemporary AckFile =>
      ∃ text a, w.(w_temporary) = Some text ∧ ack_encode a = Ok text ∧ ack_true w a
  | RenameTemporary _ => False
  | RemoveRecord CheckpointFile => w.(w_changed) = None
  | RemoveRecord (PermitFile | ControlFile) => False
  | PrepareBaseline c => durable w c ∧ c.(ck_temporary_stage) = Planned
  | CreateTemporaryIfb c => durable w c ∧ c.(ck_temporary_stage) = prepared_stage c.(ck_baseline)
  | ApplyOverride control expected c =>
      durable w c ∧ (c.(ck_temporary_stage) = LinkOwned ∨ c.(ck_temporary_stage) = Active)
      ∧ expected = runtime_snapshot_for_control control
      ∧ ∃ permit instance, checkpoint_validate_against c permit = Ok tt
          ∧ authorizes_identity permit instance control = Ok tt
  | RemoveTemporaryTopology c => durable w c ∧ restoring_visible w
  | RestoreBaseline b =>
      restoring_visible w
      ∧ ∃ c, durable w c ∧ c.(ck_temporary_stage) = TemporaryAbsent ∧ c.(ck_baseline) = b
  | FinishRestored => w.(w_changed) = None
  | _ => True
  end.

(** A changed runtime can always be restored from its durable checkpoint. *)
Definition recoverable (w : World) : Prop :=
  ∀ b, w.(w_changed) = Some b → ∃ c, durable w c ∧ c.(ck_baseline) = b.

(** ** The world's own lemmas *)

Lemma durable_unique w c c' : durable w c → durable w c' → c = c'.
Proof. intros (t & Ht & Hc) (t' & Ht' & Hc'). simplify_eq. congruence. Qed.

Lemma durable_baseline w c b :
  recoverable w → durable w c → w.(w_changed) = Some b → b = c.(ck_baseline).
Proof. intros Hr Hd E. destruct (Hr b E) as (c' & Hd' & <-). by rewrite (durable_unique w c c'). Qed.

(** A call made where it may be leaves a recoverable world. *)
Lemma step_recoverable w c x w' :
  world_pre w c → recoverable w → world_step w c x w' → recoverable w'.
Proof.
  intros Hp Hr Hs.
  assert (Htouch : ∀ c0 a, durable w c0 → recoverable (set_runtime (Some c0.(ck_baseline)) a w)).
  { intros c0 a Hd b [= <-]. by exists c0. }
  destruct c; cbn [world_pre world_step] in *; try (subst w'; exact Hr);
    try (apply proj1 in Hs; subst w'; exact Hr).
  - destruct (is_ok x); [| by subst]. subst w'. destruct f; try done.
    destruct Hp as (text & c & Ht & Hc & Hb). intros b E. exists c.
    split; [by exists text | by apply Hb].
  - destruct x as [| | e]; [| by destruct Hs as [-> _] | by subst]. subst w'.
    destruct f; try done.
    intros b E. cbn in E. congruence.
  - subst w'. apply Htouch. tauto.
  - destruct Hs as [-> _]. apply Htouch. tauto.
  - subst w'. apply Htouch. tauto.
  - subst w'. apply Htouch. tauto.
  - subst w'. destruct Hp as (_ & c & Hd & _ & <-). by apply Htouch.
  - subst w'. case_match; [done | done].
Qed.

(** ** Checkpoints the driver works with *)

(** A checkpoint of the owner [p]: it can be written and read back. *)
Definition good (p : AutotuneRuntimePermit) (c : RuntimeOverrideCheckpoint) : Prop :=
  checkpoint_validate_against c p = Ok tt ∧ checkpoint_typed c.

Lemma good_text p c text : good p c → checkpoint_encode c = Ok text → checkpoint_decode text = Ok c.
Proof.
  intros [Ha Ht] He. destruct (against_planned _ _ Ha) as [Hv Hp].
  destruct (checkpoint_encode_decode c Hv Ht Hp) as (text' & He' & Hd). congruence.
Qed.

Lemma good_advance p c next o c' :
  good p c → (∀ n, o = Some n → is_u32 n) → advance_temporary_stage c next o = Ok c' →
  good p c' ∧ c'.(ck_baseline) = c.(ck_baseline) ∧ c'.(ck_temporary_stage) = next.
Proof.
  intros [Ha Ht] Ho H.
  destruct (session_advance p c.(ck_created_boot_ms) c.(ck_baseline) c next o c') as [Ha' Hb _ Ht'];
    [by split | done | done |].
  split_and?; [split; [done | by apply Ht', Ht] | done |].
  by apply advance_inv in H as [(? & -> & _) _].
Qed.

(** ** Store operations *)

Section safety.
Context {E : Type}.
Abbreviation msafe := (msafe world_pre world_step).

(** Neither the runtime nor its attestation changed. *)
Definition same_runtime (w w' : World) : Prop :=
  w'.(w_changed) = w.(w_changed) ∧ w'.(w_attested) = w.(w_attested).

Lemma same_runtime_true w w' a : same_runtime w w' → ack_true w a → ack_true w' a.
Proof. intros [E1 E2] [H1 H2]. split; rewrite ?E1, ?E2; done. Qed.

Context {S : Type}.
Implicit Types (d : S) (w : World).

Lemma try_call_safe w d c {A} (k : answer c → result E A) (Q : result E A → S → World → Prop) :
  world_pre w c → (∀ x w', world_step w c x w' → Q (k x) d w') →
  msafe w d (call c ≫= λ x, lift_m (k x)) Q.
Proof. intros Hp HQ. make_call; [done |]. intros x w' Hs. by apply msafe_lift, HQ. Qed.

Lemma read_optional_safe {T} w d store f (dec : string → Res T)
    (Q : Res (option T) → S → World → Prop) :
  (∀ r, (∀ v t, r = Ok (Some v) → known_file f w = Some t → ∃ text, t = Some text ∧ dec text = Ok v) →
        (∀ t, r = Ok None → known_file f w = Some t → t = None) → Q r d w) →
  msafe w d (read_optional store f dec) Q.
Proof.
  intros HQ. unfold read_optional. make_call; [done |].
  intros x w' [-> Hn]. destruct x as [| error | metadata].
  - apply msafe_ret, HQ; [done |]. intros t _. by apply Hn.
  - by apply msafe_raise, HQ.
  - apply msafe_bind, msafe_lift. destruct (validate_private_file _ _ _); [| by apply HQ].
    unfold try_call. make_call; [done |]. intros x w' [-> Ht].
    apply msafe_lift. destruct x as [text |]; [| by apply HQ].
    apply msafe_bind, msafe_lift. destruct (fail_if _ _); [| by apply HQ].
    apply msafe_bind, msafe_lift. destruct (dec text) as [v |] eqn:Ev; [| by apply HQ].
    apply msafe_ret, HQ; [| done]. intros v' t [= <-] Hk. exists text. split; [by eapply Ht | done].
Qed.

Lemma read_any_safe {T} w d store f (dec : string → Res T) (Q : Res (option T) → S → World → Prop) :
  (∀ r, Q r d w) → msafe w d (read_optional store f dec) Q.
Proof. intros HQ. apply read_optional_safe. intros r _ _. apply HQ. Qed.

Lemma read_stored_safe w d store (Q : Res (option RuntimeOverrideCheckpoint) → S → World → Prop) :
  (∀ r, (∀ c, r = Ok (Some c) → durable w c ∧ checkpoint_typed c) →
        (r = Ok None → w.(w_checkpoint) = None) → Q r d w) →
  msafe w d (read_stored_checkpoint store) Q.
Proof.
  intros HQ. apply read_optional_safe. intros r Hs Hn. apply HQ.
  - intros c Hr. destruct (Hs c w.(w_checkpoint)) as (text & Ht & Hd); [done | done |].
    split; [by exists text | by eapply checkpoint_decode_typed].
  - intros Hr. by apply (Hn w.(w_checkpoint)).
Qed.

(** What an atomic write of a record leaves: the record as it was, or the new text. *)
Definition written (f : RuntimeFile) (text : string) (w w' : World) : Prop :=
  w'.(w_changed) = w.(w_changed) ∧ w'.(w_attested) = w.(w_attested)
  ∧ ∀ g, known_file g w' = known_file g w
         ∨ g = f ∧ known_file g w' = known_file g (set_file f (Some text) w).

Lemma atomic_write_safe w d f text (Q : Res unit → S → World → Prop) :
  recoverable w → (known_file f w ≠ None) →
  world_pre (set_temporary (Some text) w) (RenameTemporary f) →
  (∀ r w', recoverable w' → written f text w w' →
     (r = Ok tt → known_file f w' = Some (Some text)) → Q r d w') →
  msafe w d (atomic_write f text) Q.
Proof.
  intros Hr Hf Hp HQ. unfold atomic_write, abandon_temporary, try_call.
  assert (Hsame : ∀ t r, r ≠ Ok tt → Q r d (set_temporary t w)).
  { intros t r Hne. apply HQ; [exact Hr | split; [done | split; [done | by left]] | done]. }
  assert (Hnew : ∀ r, Q r d (set_temporary None (set_file f (Some text) w))).
  { intros r. apply HQ.
    - apply (step_recoverable (set_temporary (Some text) w) (RenameTemporary f) (Ok tt)); [done | exact Hr | done].
    - split; [done | split; [done |]]. intros g. destruct (decide (g = f)) as [-> | Hg]; [by right |].
      left. by destruct g, f.
    - intros _. destruct f; done. }
  apply msafe_bind, msafe_lift. destruct (fail_if _ _); [| by destruct w; apply Hsame].
  make_call; [done |]. intros x w' ->. apply msafe_lift. destruct x as [u |]; [| by apply Hsame].
  make_call; [done |]. intros x w' ->. destruct x as [u' | error].
  - make_call; [exact Hp |]. intros x w' ->. destruct x as [u'' | error]; cbn [is_ok].
    + make_call; [done |]. intros x w' ->. apply msafe_lift, Hnew.
    + make_call; [done |]. intros x w' ->. apply msafe_raise. by apply Hsame.
  - make_call; [done |]. intros x w' ->. apply msafe_raise. by apply Hsame.
Qed.

Lemma publish_ack_safe w d a (Q : Res unit → S → World → Prop) :
  recoverable w → ack_true w a →
  (∀ r w', recoverable w' → same_runtime w w' → w'.(w_checkpoint) = w.(w_checkpoint) →
     (r = Ok tt → a.(ra_state) = Restoring → restoring_visible w') → Q r d w') →
  msafe w d (publish_ack a) Q.
Proof.
  intros Hr Ha HQ. unfold publish_ack, publish. apply msafe_bind, msafe_lift.
  destruct (ack_encode a) as [text | e] eqn:He; [| by apply HQ].
  apply atomic_write_safe; [done | done | by exists text, a |].
  intros r w' Hr' (H1 & H2 & H3) Hf. apply HQ; [done | done | |].
  - specialize (H3 CheckpointFile) as [H | [? _]]; [by injection H | done].
  - intros Hok Hs. specialize (Hf Hok). injection Hf as Hf. by exists a, text.
Qed.

Lemma publish_checkpoint_safe w d c (Q : Res unit → S → World → Prop) :
  recoverable w → (∀ b, w.(w_changed) = Some b → c.(ck_baseline) = b) →
  (∀ text, checkpoint_encode c = Ok text → checkpoint_decode text = Ok c) →
  (∀ r w', recoverable w' → same_runtime w w' → w'.(w_ack) = w.(w_ack) →
     (r = Ok tt → durable w' c) → Q r d w') →
  msafe w d (publish_checkpoint c) Q.
Proof.
  intros Hr Hb Ht HQ. unfold publish_checkpoint, publish. apply msafe_bind, msafe_lift.
  destruct (checkpoint_encode c) as [text | e] eqn:He; [| by apply HQ].
  apply atomic_write_safe; [done | done | by exists text, c; auto |].
  intros r w' Hr' (H1 & H2 & H3) Hf. apply HQ; [done | done | |].
  - specialize (H3 AckFile) as [H | [? _]]; [by injection H | done].
  - intros Hok. specialize (Hf Hok). injection Hf as Hf. exists text. auto.
Qed.

(** [finalize_restored] takes the checkpoint of an unchanged runtime. *)
Lemma finalize_safe w d (Q : Res unit → S → World → Prop) :
  recoverable w → w.(w_changed) = None →
  (∀ r w', recoverable w' → w'.(w_changed) = None → Q r d w') →
  msafe w d finalize_restored Q.
Proof.
  intros Hr Hc HQ. unfold finalize_restored, remove_records. apply msafe_bind.
  assert (H : ∀ fs w, (∀ f, f ∈ fs → f ∈ [CheckpointFile; AckFile; RestoreFile]) →
    recoverable w → w.(w_changed) = None →
    msafe w d (remove_each fs) (λ r d' w', recoverable w' ∧ w'.(w_changed) = None ∧ d' = d)).
  { clear -E. intros fs. induction fs as [| f fs IH]; intros w Hin Hr Hc; cbn [remove_each].
    - by apply msafe_ret.
    - assert (Hp : world_pre w (RemoveRecord f)).
      { specialize (Hin f ltac:(left)). repeat (apply elem_of_cons in Hin as [-> | Hin]); try done.
        by apply elem_of_nil in Hin. }
      make_call; [done |]. intros x w' Hs. pose proof (step_recoverable _ _ _ _ Hp Hr Hs) as Hr'.
      assert (Hc' : w'.(w_changed) = None) by (cbn in Hs; destruct x; [by subst | by destruct Hs as [-> _] | by subst]).
      destruct x; [apply IH | apply IH | by apply msafe_raise]; try done; intros g Hg; apply Hin; by right. }
  eapply msafe_mono; [apply (H _ w); [done | done | done] |].
  intros [u | e] d' w' (Hr' & Hc' & ->); [| by apply HQ].
  unfold try_call. make_call; [done |]. intros x w'' ->. by apply msafe_lift, HQ.
Qed.
End safety.

(** ** Stages *)

Abbreviation msafe := (Effects.msafe world_pre world_step).
Implicit Types (w : World) (d : RuntimeOverrideDriver).

Lemma replace_checkpoint_safe w d store p c c' (Q : Res unit → RuntimeOverrideDriver → World → Prop) :
  recoverable w → durable w c → good p c' → c'.(ck_baseline) = c.(ck_baseline) →
  (∀ r w', recoverable w' → same_runtime w w' → w'.(w_ack) = w.(w_ack) →
     (r = Ok tt → durable w' c') → Q r d w') →
  msafe w d (replace_checkpoint store c c') Q.
Proof.
  intros Hr Hd Hg Hb HQ. unfold replace_checkpoint.
  assert (Hfail : ∀ e, Q (Err e) d w) by (intros e; by apply HQ).
  apply msafe_bind, read_stored_safe. intros [stored | e] _ _; [| done].
  apply msafe_bind, msafe_lift. destruct (fail_if _ _) as [[] |]; [| done].
  apply msafe_bind, msafe_lift. destruct (fail_if _ _) as [[] |]; [| done].
  apply msafe_bind, msafe_lift. destruct (checkpoint_validate c'); [| done].
  apply publish_checkpoint_safe; [done | | intros text; by apply (good_text p) | done].
  intros b Hc. rewrite Hb. symmetry. by eapply durable_baseline.
Qed.

Lemma publish_stage_safe w d p c next o
    (Q : Act RuntimeOverrideCheckpoint → RuntimeOverrideDriver → World → Prop) :
  recoverable w → durable w c → good p c → (∀ n, o = Some n → is_u32 n) →
  (∀ r w', recoverable w' → same_runtime w w' → w'.(w_ack) = w.(w_ack) →
     (∀ c', r = Ok c' → durable w' c' ∧ good p c' ∧ c'.(ck_baseline) = c.(ck_baseline)
                        ∧ c'.(ck_temporary_stage) = next) → Q r d w') →
  msafe w d (publish_stage c next o) Q.
Proof.
  intros Hr Hd Hg Ho HQ. unfold publish_stage. apply msafe_bind, msafe_map_err, msafe_lift.
  destruct (advance_temporary_stage c next o) as [c' | e] eqn:Ha; [| by apply HQ].
  destruct (good_advance p c next o c' Hg Ho Ha) as (Hg' & Hb & Hs).
  apply msafe_bind, msafe_gets. apply msafe_bind, msafe_map_err.
  apply (replace_checkpoint_safe w d _ p); [done | done | done | done |].
  intros r w' Hr' Hsame Hack Hd'. destruct r as [[] | e]; [| by apply HQ].
  apply msafe_ret, HQ; [done | done | done |]. intros c'' [= <-]. auto.
Qed.

Lemma touched_recoverable w c : durable w c → recoverable (set_runtime (Some c.(ck_baseline)) None w).
Proof. intros Hd b [= <-]. by exists c. Qed.

Lemma at_stage_true c stage : at_temporary_stage c stage = true → c.(ck_temporary_stage) = stage.
Proof. apply bool_decide_eq_true_1. Qed.

(** What the apply closure keeps: the checkpoint on disk is the one it holds. *)
Definition staged (p : AutotuneRuntimePermit) (w : World) (c : RuntimeOverrideCheckpoint) : Prop :=
  recoverable w ∧ durable w c ∧ good p c.

(** A closure's method ends with a staged checkpoint, or fails in a recoverable world. *)
Definition staged_result (p : AutotuneRuntimePermit) (d : RuntimeOverrideDriver)
    (r : Act RuntimeOverrideCheckpoint) (d' : RuntimeOverrideDriver) (w : World) : Prop :=
  d' = d ∧ recoverable w ∧ ∀ c, r = Ok c → staged p w c.

Lemma staged_publish w d p c next o :
  staged p w c → (∀ n, o = Some n → is_u32 n) →
  msafe w d (publish_stage c next o)
    (λ r d' w', staged_result p d r d' w' ∧ w'.(w_ack) = w.(w_ack)
       ∧ ∀ c', r = Ok c' → c'.(ck_temporary_stage) = next ∧ c'.(ck_baseline) = c.(ck_baseline)).
Proof.
  intros (Hr & Hd & Hg) Ho. apply (publish_stage_safe w d p); [done | done | done | done |].
  intros r w' Hr' _ Hack Hc. split; [| split; [done |]].
  - split; [done | split; [done |]]. intros c' E. by destruct (Hc c' E) as (? & ? & _).
  - intros c' E. by destruct (Hc c' E) as (_ & _ & ? & ?).
Qed.

Lemma staged_touch p w c :
  staged p w c → staged p (set_runtime (Some c.(ck_baseline)) None w) c.
Proof. intros (? & Hd & ?). by split; [apply touched_recoverable |]. Qed.

(** A failed bind step of a closure. *)
Lemma staged_err p d w e : recoverable w → staged_result p d (Err e) d w.
Proof. by intros Hr. Qed.
Lemma staged_ok p d w c : staged p w c → staged_result p d (Ok c) d w.
Proof. intros Hst. split; [done | split; [apply Hst |]]. by intros c' [= <-]. Qed.

Lemma good_prepared p c : good p c → at_temporary_stage c ManagedSqmSuspended
  || at_temporary_stage c AbsenceAttested = true →
  c.(ck_temporary_stage) = prepared_stage c.(ck_baseline).
Proof.
  intros [Ha _] H. destruct (against_planned _ _ Ha) as [(_ & Hx & _)%checkpoint_validate_ok _].
  unfold checkpoint_variant in Hx. unfold prepared_stage.
  apply orb_true_iff in H as [E%at_stage_true | E%at_stage_true]; rewrite E in *;
    destruct (ck_baseline c); try done; rewrite !then_ok, !fail_if_ok in Hx; by destruct_and?.
Qed.

Lemma apply_stages_safe w d p instance c control :
  staged p w c → authorizes_identity p instance control = Ok tt →
  msafe w d (apply_stages control (runtime_snapshot_for_control control) c) (staged_result p d).
Proof.
  intros Hst Hauth. unfold apply_stages, try_call.
  apply msafe_bind. eapply msafe_mono with (Q := staged_result p d).
  { case_match; [| by apply msafe_ret, staged_ok].
    eapply msafe_mono; [by apply staged_publish |]. by intros r d' w' [? _]. }
  clear w c Hst. intros [c | e] d' w (-> & Hr & Hst); [specialize (Hst c eq_refl) | by apply staged_err].
  apply msafe_bind. eapply msafe_mono with (Q := staged_result p d).
  { destruct (at_temporary_stage c Planned) eqn:Es;
      [| by apply msafe_ret, staged_ok].
    make_call; [split; [apply Hst | by apply at_stage_true] |].
    intros x w' ->. apply staged_touch in Hst. apply msafe_lift.
    destruct x as [u |]; [| apply staged_err, Hst].
    eapply msafe_mono; [by apply staged_publish |]. by intros r d' w' [? _]. }
  clear w c Hst Hr. intros [c | e] d' w (-> & Hr & Hst); [specialize (Hst c eq_refl) | by apply staged_err].
  apply msafe_bind. eapply msafe_mono with (Q := staged_result p d).
  { case_match eqn:Es; [| by apply msafe_ret, staged_ok].
    make_call; [split; [apply Hst | by apply (good_prepared p); [apply Hst |]] |].
    intros x w' [-> Hn]. apply staged_touch in Hst. apply msafe_lift.
    destruct x as [n |]; [| apply staged_err, Hst].
    eapply msafe_mono; [apply staged_publish; [done |] |]; [| by intros r d' w' [? _]].
    intros m [= <-]. by apply Hn. }
  clear w c Hst Hr. intros [c | e] d' w (-> & Hr & Hst); [specialize (Hst c eq_refl) | by apply staged_err].
  destruct (ck_temporary_stage c) eqn:Es; try by apply msafe_raise, staged_err.
  - make_call.
    { split; [apply Hst | split; [by left | split; [done |]]]. exists p, instance. split; [apply Hst | done]. }
    intros x w' ->. apply staged_touch in Hst. apply msafe_lift.
    destruct x as [u |]; [| apply staged_err, Hst].
    eapply msafe_mono; [by apply staged_publish |]. by intros r d' w' [? _].
  - make_call.
    { split; [apply Hst | split; [by right | split; [done |]]]. exists p, instance. split; [apply Hst | done]. }
    intros x w' ->. apply staged_touch in Hst. apply msafe_lift.
    destruct x as [u |]; [| apply staged_err, Hst].
    by apply msafe_ret, staged_ok.
Qed.

(** The same while restoring: the acknowledgement stays visible, the baseline stays. *)
Definition restoring_result (p : AutotuneRuntimePermit) (b : RuntimeRestoreBaseline)
    (d : RuntimeOverrideDriver) (r : Act RuntimeOverrideCheckpoint) (d' : RuntimeOverrideDriver)
    (w : World) : Prop :=
  staged_result p d r d' w ∧ restoring_visible w ∧ ∀ c, r = Ok c → c.(ck_baseline) = b.

Lemma restoring_ack w w' : w'.(w_ack) = w.(w_ack) → restoring_visible w → restoring_visible w'.
Proof. unfold restoring_visible. by intros ->. Qed.

Lemma restoring_ok p b d w c :
  staged p w c → restoring_visible w → c.(ck_baseline) = b → restoring_result p b d (Ok c) d w.
Proof. intros Hst Hv Hb. split; [by apply staged_ok | split; [done |]]. by intros c' [= <-]. Qed.

Lemma restoring_err p b d w e :
  recoverable w → restoring_visible w → restoring_result p b d (Err e) d w.
Proof. intros Hr Hv. split; [by apply staged_err | split; [done |]]. by intros c'. Qed.

(** A mutation of the restoration, then the stage it reaches. *)
Lemma restoring_step w d p b c call next :
  staged p w c → restoring_visible w → c.(ck_baseline) = b → world_pre w call →
  (∀ x w', world_step w call x w' → w' = set_runtime (Some b) None w) →
  ∀ k : answer call → Act unit,
  msafe w d ((Effects.call call ≫= λ x, lift_m (k x)) ≫= λ _, publish_stage c next None)
    (restoring_result p b d).
Proof.
  intros Hst Hv Hb Hp Hs k. apply msafe_bind. apply try_call_safe; [done |].
  intros x w' ->%Hs. rewrite <- Hb. apply staged_touch in Hst.
  destruct (k x); [| by apply restoring_err; [apply Hst |]].
  eapply msafe_mono; [by apply staged_publish |].
  intros r d' w' (Hr & Hack & Hc). split; [done | split; [by eapply restoring_ack |]].
  intros c' E. by destruct (Hc c' E).
Qed.

Lemma restore_stages_safe w d p b c :
  staged p w c → restoring_visible w → c.(ck_baseline) = b →
  msafe w d (restore_stages b c) (restoring_result p b d).
Proof.
  intros Hst Hv Hb. unfold restore_stages, try_call.
  apply msafe_bind. eapply msafe_mono with (Q := restoring_result p b d).
  { case_match; [by apply msafe_ret, restoring_ok |].
    apply (restoring_step w d p b c (RemoveTemporaryTopology c)); [done | done | done | |].
    - split; [apply Hst | done].
    - intros x w' ->. by rewrite Hb. }
  clear w c Hst Hv Hb.
  intros [c | e] d' w ((-> & Hr & Hst) & Hv & Hb); [| by apply restoring_err].
  specialize (Hst c eq_refl). specialize (Hb c eq_refl).
  apply msafe_bind. eapply msafe_mono with (Q := restoring_result p b d).
  { destruct (at_temporary_stage c TemporaryAbsent) eqn:Es; [| by apply msafe_ret, restoring_ok].
    apply (restoring_step w d p b c (RestoreBaseline b)); [done | done | done | | done].
    split; [done |]. exists c. split; [apply Hst | split; [by apply at_stage_true | done]]. }
  clear w c Hst Hr Hv Hb.
  intros [c | e] d' w ((-> & Hr & Hst) & Hv & Hb); [| by apply restoring_err].
  case_match; [apply msafe_ret, restoring_ok; auto | by apply msafe_raise, restoring_err].
Qed.

(** ** The tracker in its world *)

(** What each phase says of the world: idle and restored runtimes are unchanged, an
    applied one has been attested to be the requested one. *)
Definition live_ok (w : World) (t : RuntimeOverrideTracker) : Prop :=
  match t.(t_phase) with
  | PhaseIdle | PhaseRestored => w.(w_changed) = None
  | PhaseApplied =>
      ∃ s snapshot, t.(t_session) = Some s ∧ w.(w_attested) = Some snapshot
        ∧ matches_control snapshot s.(s_control) = true
  | PhaseApplying | PhaseRestoring => True
  end.

Definition driver_ok (w : World) (d : RuntimeOverrideDriver) : Prop :=
  recoverable w ∧ (∃ instance, tracker_ok instance d.(d_tracker)) ∧ live_ok w d.(d_tracker).

(** What an action asks for is what the tracker is ready for. *)
Definition action_ready (w : World) (t : RuntimeOverrideTracker) (a : RuntimeOverrideAction) : Prop :=
  match a with
  | NoAction | MalformedControl => True
  | PublishAck ack => ack_true w ack
  | Apply control => t.(t_phase) = PhaseApplying ∧ requested_control t = Some control
  | Restore b _ ack =>
      t.(t_phase) = PhaseRestoring ∧ ack.(ra_state) = Restoring ∧ tracker_baseline t = Some b
  end.

(** The attestation a call brings to the tracker is the world's. *)
Definition call_true (w : World) (k : OverrideCall) : Prop :=
  match k with
  | CallConfirmApplied s _ => w.(w_attested) = Some s
  | CallConfirmRestored _ _ => w.(w_changed) = None
  | _ => True
  end.

Lemma applied_ack_true w c now s :
  w.(w_attested) = Some s → matches_control s c = true → ack_true w (applied_ack c now).
Proof.
  intros Hs Hm. split; [| done]. intros _. exists s. split; [done |].
  unfold matches_control in Hm. rewrite !andb_true_iff, !String.eqb_eq, !bool_decide_eq_true in Hm.
  destruct Hm as [[[[[[[? ?] ?] Ht] ?] ?] _] _].
  unfold ack_describes, applied_ack, ack_of. cbn. rewrite Ht. done.
Qed.

Lemma call_ready instance w t k :
  tracker_ok instance t → live_ok w t → call_true w k →
  tracker_ok instance (override_call k t).2 ∧ live_ok w (override_call k t).2
  ∧ action_ready w (override_call k t).2 (override_call k t).1.
Proof.
  intros Ht Hl Hk. pose proof (call_outcome instance t k (to_name _ _ Ht)) as Ho.
  split; [by eapply outcome_ok |].
  destruct Ho; cbn [action_ready]; unfold live_ok in *; cbn in *;
    try match goal with E : t_phase t = _ |- _ => rewrite E in * end; try done.
  - split; [done |]. destruct H0 as [E | E]; rewrite E in Hl.
    + destruct (open_session _ _ _ Ht H) as [_ _ Hf]. rewrite E in Hf. destruct Hf as (? & _). congruence.
    + destruct Hl as (s' & snap & Es & Hw & Hm).
      destruct (open_session _ _ _ Ht H) as [_ _ Hf]. rewrite E in Hf. simplify_eq.
      destruct Hf as ((now' & Ha & _) & _). simplify_eq. by eapply applied_ack_true.
  - split_and?; try done. unfold tracker_baseline. by rewrite H.
  - split; [| by eapply applied_ack_true]. by eexists _, _.
Qed.

(** ** [execute] *)

Lemma same_runtime_ok w w' t : same_runtime w w' → live_ok w t → live_ok w' t.
Proof. intros [E1 E2]. unfold live_ok. by rewrite E1, E2. Qed.

(** How a method leaves the driver: well, with its start-up flag as it was. *)
Definition driver_post (d : RuntimeOverrideDriver) {A} (_ : Res A) (d' : RuntimeOverrideDriver)
    (w : World) : Prop :=
  driver_ok w d' ∧ d'.(d_startup_reconciled) = d.(d_startup_reconciled).

(** A driver that differs in neither its tracker nor its start-up flag. *)
Definition same_tracker (d d' : RuntimeOverrideDriver) : Prop :=
  d'.(d_tracker) = d.(d_tracker) ∧ d'.(d_startup_reconciled) = d.(d_startup_reconciled).

Lemma driver_ok_same w d d' : same_tracker d d' → driver_ok w d → driver_ok w d'.
Proof. intros [E _]. unfold driver_ok. by rewrite E. Qed.

Lemma driver_post_same {A} w d d' (r : Res A) : same_tracker d d' → driver_ok w d → driver_post d r d' w.
Proof. intros H Hok. split; [by eapply driver_ok_same | apply H]. Qed.

Lemma driver_post_trans {A} w d d' (r : Res A) d'' :
  d'.(d_startup_reconciled) = d.(d_startup_reconciled) → driver_post d' r d'' w → driver_post d r d'' w.
Proof. intros E [Hok E']. split; [done | congruence]. Qed.

Lemma fail_restore_post {A} w d m : driver_ok w d → msafe w d (fail_restore_safely (A := A) m) (driver_post d).
Proof.
  intros Hok. unfold fail_restore_safely. make_call; [done |]. intros x w' ->.
  apply msafe_bind, msafe_update, msafe_raise. by apply driver_post_same.
Qed.

Lemma handle_unreadable_post {A} w d m :
  driver_ok w d → msafe w d (handle_unreadable_active_state (A := A) m) (driver_post d).
Proof.
  intros Hok. unfold handle_unreadable_active_state, phase. apply msafe_bind, msafe_gets.
  case_match; [by apply msafe_raise, driver_post_same |].
  unfold recover_safe_configuration, try_call. make_call; [done |]. intros x w' ->. apply msafe_lift.
  destruct x as [u |]; [| by apply driver_post_same].
  apply msafe_bind, msafe_update, msafe_raise. by apply driver_post_same.
Qed.

Lemma tracker_field_safe {A} w d (f : RuntimeOverrideTracker → option A) m
    (Q : Res A → RuntimeOverrideDriver → World → Prop) :
  (∀ r, (∀ a, r = Ok a → f d.(d_tracker) = Some a) → Q r d w) → msafe w d (tracker_field f m) Q.
Proof.
  intros HQ. unfold tracker_field. apply msafe_bind, msafe_gets, msafe_lift. apply HQ.
  intros a H. by apply ok_or_ok_inv in H.
Qed.

Lemma owned_checkpoint_safe w d p m (Q : Res RuntimeOverrideCheckpoint → RuntimeOverrideDriver → World → Prop) :
  (∀ r, (∀ c, r = Ok c → durable w c ∧ good p c) → Q r d w) → msafe w d (owned_checkpoint p m) Q.
Proof.
  intros HQ. unfold owned_checkpoint. apply msafe_bind, msafe_gets, msafe_bind, read_stored_safe.
  intros [stored | e] Hs _; [| by apply HQ]. apply msafe_bind, msafe_lift.
  destruct stored as [c |]; [| by apply HQ]. apply msafe_bind, msafe_lift.
  destruct (checkpoint_validate_against c p) as [[] | e] eqn:Ha; [| by apply HQ].
  apply msafe_ret, HQ. intros c' [= <-]. destruct (Hs c eq_refl). done.
Qed.

Lemma on_tracker_safe w d k (Q : Res RuntimeOverrideAction → RuntimeOverrideDriver → World → Prop) :
  driver_ok w d → call_true w k →
  (∀ a d', driver_ok w d' → d'.(d_startup_reconciled) = d.(d_startup_reconciled) →
           action_ready w d'.(d_tracker) a → a = (override_call k d.(d_tracker)).1 → Q (Ok a) d' w) →
  msafe w d (on_tracker (override_call k)) Q.
Proof.
  intros (Hr & (instance & Ht) & Hl) Hk HQ.
  destruct (call_ready instance w d.(d_tracker) k Ht Hl Hk) as (Ht' & Hl' & Ha').
  apply (HQ (override_call k d.(d_tracker)).1 (set_tracker (override_call k d.(d_tracker)).2 d));
    [split; [done | split; [by exists instance | done]] | done | done | done].
Qed.

Section execute.
Context (rec : RuntimeOverrideAction → RM RuntimeOverrideDriver string RuntimeDriverOutcome).
Hypothesis rec_safe : ∀ w d a, driver_ok w d → action_ready w d.(d_tracker) a →
  msafe w d (rec a) (driver_post d).

Lemma after_apply_failure_safe w d m :
  driver_ok w d → msafe w d (after_apply_failure rec m) (driver_post d).
Proof.
  intros Hok. unfold after_apply_failure, current_boot_ms. make_call; [done |]. intros now w' [-> _].
  apply msafe_bind, (on_tracker_safe w d (CallApplyFailed now)); [done | done |].
  intros a d' Hok' Ed Ha _. apply msafe_bind. eapply msafe_mono; [by apply rec_safe |].
  intros [o | e] d'' w'' Hpost%(driver_post_trans _ d); try done.
  case_match; [by apply msafe_ret | by apply msafe_raise].
Qed.

Lemma execute_apply_safe w d control :
  driver_ok w d → action_ready w d.(d_tracker) (Apply control) →
  msafe w d (execute_apply rec control) (driver_post d).
Proof.
  intros Hok [Hph Hc]. unfold execute_apply. apply msafe_bind, msafe_update.
  set (d1 := set_blocker None d).
  assert (Hok1 : driver_ok w d1) by by apply (driver_ok_same w d).
  eapply msafe_mono with (Q := driver_post d1);
    [| intros r d' w' H; by apply (driver_post_trans w' d d1)].
  change (d_tracker d) with (d_tracker d1) in Hph, Hc. clearbody d1. clear d Hok. rename d1 into d, Hok1 into Hok.
  apply msafe_bind, tracker_field_safe. intros [p | e] Hp; [| by apply driver_post_same].
  apply msafe_bind, tracker_field_safe. intros [b | e] _; [| by apply driver_post_same].
  apply msafe_bind, owned_checkpoint_safe. intros [c | e] Hck; [| by apply driver_post_same].
  destruct (Hck c eq_refl) as [Hd Hg]. case_match; [by apply fail_restore_post |].
  pose proof Hok as (Hr & (instance & Ht) & _).
  assert (Hauth : authorizes_identity p instance control = Ok tt).
  { specialize (Hp p eq_refl). unfold owner_permit, requested_control in *.
    destruct (t_session (d_tracker d)) as [s |] eqn:Es; [| done]. simpl in *. simplify_eq.
    by destruct (open_session _ _ _ Ht Es). }
  apply msafe_bind, msafe_attempt.
  eapply msafe_mono; [by apply (apply_stages_safe w d p instance) |].
  intros r d' w' (-> & Hr' & Hst).
  assert (Hok' : driver_ok w' d).
  { split; [done | split; [by exists instance |]]. unfold live_ok. by rewrite Hph. }
  destruct r as [c' | e]; [| by apply after_apply_failure_safe].
  make_call; [done |]. intros x w'' ->.
  assert (Hok'' : ∀ a, driver_ok (set_runtime w'.(w_changed) a w') d).
  { intros a. split; [exact Hr' | split; [by exists instance |]]. unfold live_ok. by rewrite Hph. }
  destruct x as [s | e]; [| by apply after_apply_failure_safe].
  unfold current_boot_ms. make_call; [done |]. intros now w'' [-> _].
  apply msafe_bind, (on_tracker_safe _ d (CallConfirmApplied s now)); [done | done |].
  intros a d' Hd' Ed Ha _. eapply msafe_mono; [by apply rec_safe |].
  intros r d'' w''. by apply driver_post_trans.
Qed.

Lemma after_restore_failure_safe w d prefix e :
  driver_ok w d → msafe w d (after_restore_failure prefix e) (driver_post d).
Proof.
  intros Hok. destruct e; [| by apply fail_restore_post].
  apply msafe_bind, msafe_update, msafe_ret. by apply driver_post_same.
Qed.

Lemma attested_unchanged w c b x w' :
  recoverable w → durable w c → c.(ck_baseline) = b → x = Ok b →
  world_step w (AttestRestoredBaseline b c) x w' → w'.(w_changed) = None.
Proof.
  intros Hr Hd Hb -> Hs. cbn in Hs. subst w'. rewrite bool_decide_eq_true_2 by done. cbn [andb].
  case_bool_decide as E; [done |]. destruct (w_changed w) as [b' |] eqn:Ec; [| done].
  exfalso. apply E. f_equal. rewrite <- Hb. by eapply durable_baseline.
Qed.

(** Attesting a baseline leaves a driver that is not applied as it was. *)
Lemma attest_step_ok w d b c x w' :
  driver_ok w d → d.(d_tracker).(t_phase) ≠ PhaseApplied →
  world_step w (AttestRestoredBaseline b c) x w' → driver_ok w' d.
Proof.
  intros (Hr & Ht & Hl) Hp Hs. split; [by eapply (step_recoverable w (AttestRestoredBaseline b c)) |].
  split; [done |]. cbn in Hs. subst w'. case_match eqn:E; [| done].
  unfold live_ok in *. by destruct (t_phase (d_tracker d)).
Qed.

Lemma execute_restore_safe w d b reason ack :
  driver_ok w d → action_ready w d.(d_tracker) (Restore b reason ack) →
  msafe w d (execute_restore rec b ack) (driver_post d).
Proof.
  intros Hok (Hph & Hst & Hb). unfold execute_restore. pose proof Hok as (Hr & (instance & Ht) & _).
  assert (Hlive : ∀ w', recoverable w' → driver_ok w' d).
  { intros w' Hr'. split; [done | split; [by exists instance |]]. unfold live_ok. by rewrite Hph. }
  apply msafe_bind, publish_ack_safe; [done | by split; rewrite Hst |].
  intros r w' Hr' _ _ Hv. pose proof (Hlive w' Hr') as Hok'. clear w Hok Hr. rename w' into w.
  destruct r as [[] | e]; [| by apply driver_post_same]. specialize (Hv eq_refl Hst).
  apply msafe_bind, tracker_field_safe. intros [p | e] _; [| by apply driver_post_same].
  apply msafe_bind, owned_checkpoint_safe. intros [c | e] Hck; [| by apply driver_post_same].
  destruct (Hck c eq_refl) as [Hd Hg].
  destruct (bool_decide (ck_baseline c = b)) eqn:Hcb; cbn [negb]; [| by apply fail_restore_post].
  apply bool_decide_eq_true in Hcb.
  apply msafe_bind, msafe_attempt. eapply msafe_mono; [by apply (restore_stages_safe w d p b c) |].
  clear w Hr' Hok' Hv Hck Hd Hg Hcb c.
  intros r d' w ((-> & Hr & Hst') & Hv & Hcb). pose proof (Hlive w Hr) as Hok.
  destruct r as [c | e]; [| by apply after_restore_failure_safe].
  destruct (Hst' c eq_refl) as (_ & Hd & _). specialize (Hcb c eq_refl).
  make_call; [done |]. intros x w' Hs. pose proof (step_recoverable _ (AttestRestoredBaseline b c) _ _ I Hr Hs) as Hr'.
  pose proof (Hlive w' Hr') as Hok'. destruct x as [b' | e]; [| by apply after_restore_failure_safe].
  case_bool_decide as Eb; cbn [negb]; [subst b' | by apply fail_restore_post].
  pose proof (attested_unchanged w c b _ w' Hr Hd Hcb eq_refl Hs) as Hun.
  apply msafe_bind, msafe_update. unfold current_boot_ms. make_call; [done |]. intros now w'' [-> _].
  apply msafe_bind, (on_tracker_safe w' _ (CallConfirmRestored b now)); [by apply (driver_ok_same w' d) | done |].
  intros a d' Hd' Ed Ha _. apply msafe_bind.
  eapply msafe_mono with (Q := λ r d'' w'', d'' = d' ∧ w'' = w' ∧ is_ok r = true).
  { case_match; [| by apply msafe_ret]. apply msafe_call; [done |]. by intros x w'' ->. }
  intros [u | e] d'' w'' (-> & -> & ?); [| done].
  eapply msafe_mono; [by apply rec_safe |]. intros r d'' w''. by apply driver_post_trans.
Qed.

Lemma execute_step_safe w d a :
  driver_ok w d → action_ready w d.(d_tracker) a → msafe w d (execute_step rec a) (driver_post d).
Proof.
  intros Hok Ha. destruct a as [| | control | b reason ack | ack]; cbn [execute_step].
  - by apply msafe_bind, msafe_gets, msafe_ret, driver_post_same.
  - by apply msafe_ret, driver_post_same.
  - by apply execute_apply_safe.
  - by eapply execute_restore_safe.
  - pose proof Hok as (Hr & Ht & Hl). apply msafe_bind, publish_ack_safe; [done | done |].
    intros r w' Hr' Hs _ _.
    assert (driver_ok w' d) by (split; [done | split; [done | by eapply same_runtime_ok]]).
    destruct r; [apply msafe_ret |]; by apply driver_post_same.
Qed.
End execute.

Lemma execute_fuel_safe n w d a :
  driver_ok w d → action_ready w d.(d_tracker) a → msafe w d (execute_fuel n a) (driver_post d).
Proof.
  revert w d a. induction n as [| n IH]; intros w d a Hok Ha; cbn [execute_fuel].
  - by apply msafe_raise, driver_post_same.
  - apply execute_step_safe; [done | done | done].
Qed.

Lemma execute_safe w d a :
  driver_ok w d → action_ready w d.(d_tracker) a → msafe w d (execute a) (driver_post d).
Proof. apply execute_fuel_safe. Qed.

(** A call of the tracker, and what it asks for. *)
Lemma on_tracker_execute w d k :
  driver_ok w d → call_true w k →
  msafe w d (on_tracker (override_call k) ≫= execute) (driver_post d).
Proof.
  intros Hok Hk. apply msafe_bind, on_tracker_safe; [done | done |].
  intros a d' Hd' Ed Ha _. eapply msafe_mono; [by apply execute_safe |].
  intros r d'' w''. by apply driver_post_trans.
Qed.

(** ** Start-up *)

(** What start-up leaves: the driver is ready unless safe recovery was required. *)
Definition startup_post (r : Res (option RuntimeDriverOutcome)) (d : RuntimeOverrideDriver)
    (w : World) : Prop :=
  recoverable w ∧ d.(d_startup_reconciled) = true
  ∧ ∀ o, r = Ok o → o ≠ Some OutcomeUnsafeRecoveryRequired → driver_ok w d.

(** A tracker that has opened no session. *)
Definition fresh_tracker (t : RuntimeOverrideTracker) : Prop :=
  t.(t_phase) = PhaseIdle ∧ ∃ instance, tracker_ok instance t.

Lemma fresh_ok w d : recoverable w → fresh_tracker d.(d_tracker) → w.(w_changed) = None → driver_ok w d.
Proof. intros Hr [Hp Ht] Hc. split; [done | split; [done |]]. unfold live_ok. by rewrite Hp. Qed.

Lemma startup_err w d e : recoverable w → d.(d_startup_reconciled) = true → startup_post (Err e) d w.
Proof. intros Hr Hs. split; [done | split; [done |]]. by intros o. Qed.

Lemma recover_configuration_safe w d :
  recoverable w → d.(d_startup_reconciled) = true →
  msafe w d recover_configuration startup_post.
Proof.
  intros Hr Hs. unfold recover_configuration, recover_safe_configuration, try_call.
  make_call; [done |]. intros x w' ->. apply msafe_lift. destruct x; [| by apply startup_err].
  apply msafe_ret. split; [done | split; [done |]]. by intros o [= <-].
Qed.

Lemma recover_session_safe w d p control c :
  recoverable w → d.(d_startup_reconciled) = true →
  msafe w d (recover_session p control c) startup_post.
Proof.
  intros Hr Hs. unfold recover_session, current_boot_ms. apply msafe_bind, msafe_lift.
  destruct (checkpoint_validate_against c p) as [u |]; [| by apply startup_err].
  make_call; [done |]. intros now w' [-> _]. apply msafe_bind, msafe_lift.
  destruct (recover_after_restart _ _ _ _ _) as [[t a] |] eqn:E; [| by apply startup_err].
  apply msafe_bind, msafe_update. apply msafe_bind.
  pose proof (reachable_ok _ _ (reach_recovered _ _ _ _ _ _ _ E)) as Ht.
  apply recovered_inv in E as (_ & _ & Et & Ea). cbn [fst snd].
  eapply msafe_mono; [apply execute_safe |].
  - split; [done | split; [by eexists |]]. unfold live_ok. cbn. by rewrite Et.
  - cbn. by rewrite Et, Ea.
  - intros [o | e] d' w' [Hok Es]; [apply msafe_ret | ].
    + split; [apply Hok | split; [by rewrite Es |]]. done.
    + apply startup_err; [apply Hok | by rewrite Es].
Qed.

Lemma no_checkpoint_unchanged w : recoverable w → w.(w_checkpoint) = None → w.(w_changed) = None.
Proof.
  intros Hr Hc. destruct (w_changed w) as [b |] eqn:E; [| done].
  destruct (Hr b E) as (c & (text & Ht & _) & _). congruence.
Qed.

Lemma finalize_startup w d :
  recoverable w → fresh_tracker d.(d_tracker) → d.(d_startup_reconciled) = true →
  w.(w_changed) = None →
  msafe w d (finalize_restored ≫= λ _, mret (Some OutcomeIdle)) startup_post.
Proof.
  intros Hr Hf Hs Hc. apply msafe_bind, finalize_safe; [done | done |].
  intros [u | e] w' Hr' Hc'; [| by apply startup_err].
  apply msafe_ret. split; [done | split; [done |]]. intros o _ _. by apply fresh_ok.
Qed.

Lemma reconcile_restore_intent_safe w d c p control restore_control ack :
  recoverable w → durable w c → fresh_tracker d.(d_tracker) → d.(d_startup_reconciled) = true →
  msafe w d (reconcile_restore_intent c p control restore_control ack) startup_post.
Proof.
  intros Hr Hd Hf Hs. unfold reconcile_restore_intent, current_boot_ms.
  case_match; [by apply recover_configuration_safe |].
  destruct p as [p |]; [by apply recover_session_safe |].
  destruct control as [control |]; [by apply recover_configuration_safe |].
  destruct ack as [ack |]; [| by apply recover_configuration_safe].
  make_call; [done |]. intros now w' [-> _].
  destruct (is_ok (attests_restored ack restore_control now)); [| by apply recover_configuration_safe].
  make_call; [done |]. intros x w' Hstep.
  pose proof (step_recoverable _ (AttestRestoredBaseline _ _) _ _ I Hr Hstep) as Hr'.
  destruct x as [b | e]; [| by apply msafe_raise, startup_err].
  case_bool_decide as Eb; [| by apply recover_configuration_safe]. subst b.
  assert (Hc : w'.(w_changed) = None) by exact (attested_unchanged w c _ _ w' Hr Hd eq_refl eq_refl Hstep).
  make_call; [done |]. intros x w'' ->. by apply finalize_startup.
Qed.

Lemma reconcile_startup_safe w d :
  recoverable w → fresh_tracker d.(d_tracker) → d.(d_startup_reconciled) = true →
  msafe w d reconcile_startup startup_post.
Proof.
  intros Hr Hf Hs. unfold reconcile_startup. apply msafe_bind, msafe_gets.
  apply msafe_bind, msafe_attempt, read_stored_safe. intros [ck | e] Hck Hnone.
  - do 4 (apply msafe_bind, read_any_safe; intros [? | ?]; [| by apply startup_err]).
    destruct ck as [c |].
    + destruct (Hck c eq_refl) as [Hd _]. repeat case_match;
        first [ by apply recover_configuration_safe | by apply recover_session_safe
              | by apply reconcile_restore_intent_safe ].
    + specialize (Hnone eq_refl). pose proof (no_checkpoint_unchanged w Hr Hnone) as Hc.
      case_match.
      * case_match; [by apply finalize_startup | by apply recover_configuration_safe].
      * apply msafe_ret. split; [done | split; [done |]]. intros o _ _. by apply fresh_ok.
  - unfold recover_safe_configuration, try_call. make_call; [done |]. intros x w' ->.
    apply msafe_lift. destruct x; [apply msafe_raise |]; by apply startup_err.
Qed.

(** ** [poll] *)

Lemma driver_post_err w d e : driver_ok w d → driver_post d (Err e : Res RuntimeDriverOutcome) d w.
Proof. intros Hok. by apply driver_post_same. Qed.

Lemma same_runtime_driver w w' d : recoverable w' → same_runtime w w' → driver_ok w d → driver_ok w' d.
Proof. intros Hr Hs (_ & Ht & Hl). split; [done | split; [done |]]. by eapply same_runtime_ok. Qed.

Lemma poll_restored_ack_safe w d c permit control :
  driver_ok w d → msafe w d (poll_restored_ack c permit control) (driver_post d).
Proof.
  intros Hok. pose proof Hok as (Hr & (instance & Ht) & Hl). unfold poll_restored_ack. case_match.
  - apply msafe_bind, tracker_field_safe. intros [owner | e] _; [| by apply driver_post_err].
    apply msafe_bind, msafe_gets, msafe_bind, msafe_lift.
    destruct (override_release _ _ _ _) as [t' | e] eqn:E; [| by apply driver_post_err].
    destruct (call_ready instance w _
      (CallRelease owner.(rp_permit_id) owner.(rp_job_id) owner.(rp_worker_run_id)) Ht Hl I) as (Ht' & Hl' & _).
    cbn [override_call] in Ht', Hl'. rewrite E in Ht', Hl'. cbn [snd] in Ht', Hl'.
    unfold override_release in E. apply then_ok in E as [_ E]. apply bind_ok_inv in E as (s & _ & E).
    apply then_ok in E as [_ E]. injection E as <-.
    apply msafe_bind, msafe_update. apply msafe_bind, finalize_safe; [done | exact Hl' |].
    assert (Hd : ∀ w', recoverable w' → w'.(w_changed) = None →
      driver_ok w' (set_tracker (with_phase PhaseIdle (with_session None d.(d_tracker))) d)).
    { intros w' Hr' Hc'. split; [done | split; [by exists instance | done]]. }
    intros [u | e] w' Hr' Hc'; [apply msafe_ret |]; (split; [by apply Hd | done]).
  - unfold current_boot_ms. make_call; [done |]. intros now w' [-> _].
    apply msafe_bind, msafe_gets, msafe_bind, read_any_safe. intros [stored | e]; [| by apply driver_post_err].
    apply msafe_bind. case_match; [apply msafe_ret, msafe_ret; by apply driver_post_same |].
    apply msafe_bind, tracker_field_safe. intros [a | e] Ha; [| by apply driver_post_err].
    specialize (Ha a eq_refl). unfold restored_ack in Ha. case_match; [done |].
    apply orb_false_iff in H1 as [Hp _]. apply negb_false_iff, bool_decide_eq_true in Hp.
    unfold live_ok in Hl. rewrite Hp in Hl.
    destruct (t_session d.(d_tracker)) as [s |]; [| done]. injection Ha as <-.
    apply publish_ack_safe; [done | by split |]. intros r w' Hr' Hs _ _.
    assert (driver_ok w' d) by by eapply same_runtime_driver.
    destruct r; [apply msafe_ret; by apply driver_post_same | by apply driver_post_err].
Qed.

(** A step that reads nothing new of the world and goes on with the same driver. *)
Ltac ask := make_call; [done |]; let x := fresh "x" in let w' := fresh "w" in intros x w' ->.
Ltac ask_now := unfold current_boot_ms; make_call; [done |];
  let x := fresh "now" in let w' := fresh "w" in intros x w' [-> ?].

Lemma poll_rearm_safe w d permit control intent :
  driver_ok w d → d.(d_tracker).(t_phase) = PhaseRestored →
  msafe w d (poll_rearm permit control intent) (driver_post d).
Proof.
  intros Hok Hp. unfold poll_rearm.
  apply msafe_bind, tracker_field_safe. intros [owner | e] _; [| by apply driver_post_err].
  apply msafe_bind, tracker_field_safe. intros [b | e] _; [| by apply driver_post_err].
  apply msafe_bind, owned_checkpoint_safe. intros [c | e] _; [| by apply driver_post_err].
  case_match; [by apply handle_unreadable_post |].
  ask_now. ask. ask. make_call; [done |]. intros y w' Hs.
  assert (Hok' : driver_ok w' d) by (eapply attest_step_ok; [done | by rewrite Hp | done]).
  ask. eapply (on_tracker_execute w' d (CallRearm permit control _)); done.
Qed.

Lemma poll_restored_safe w d permit control intent :
  driver_ok w d → d.(d_tracker).(t_phase) = PhaseRestored →
  msafe w d (poll_restored permit control intent) (driver_post d).
Proof.
  intros Hok Hp. unfold poll_restored.
  apply msafe_bind, tracker_field_safe. intros [c | e] _; [| by apply driver_post_err].
  apply msafe_bind, msafe_gets. case_match; [by apply handle_unreadable_post |].
  repeat case_match; try by apply poll_restored_ack_safe.
  apply msafe_bind. eapply msafe_mono; [by apply poll_rearm_safe |].
  intros [o | e] d' w' [Hok' Ed]; [| done]. case_match; [| by apply msafe_ret].
  eapply msafe_mono; [by apply poll_restored_ack_safe |]. intros r d'' w''. by apply driver_post_trans.
Qed.

Lemma poll_restoring_safe w d :
  driver_ok w d → msafe w d poll_restoring (driver_post d).
Proof.
  intros Hok. unfold poll_restoring.
  assert (Hretry : ∀ d', same_tracker d d' → msafe w d'
    (now ← current_boot_ms; tracker ← gets d_tracker; execute (retry_restore tracker now)) (driver_post d)).
  { intros d' Hsame. pose proof (driver_ok_same w d d' Hsame Hok) as Hok'.
    pose proof Hok' as (_ & (instance & Ht) & Hl). ask_now. apply msafe_bind, msafe_gets.
    destruct (call_ready instance w _ (CallRetryRestore now) Ht Hl I) as (_ & _ & Ha).
    eapply msafe_mono; [by apply execute_safe |]. intros r d'' w''. apply driver_post_trans, Hsame. }
  apply msafe_bind, msafe_gets. destruct (d_restore_blocker d) as [blocker |]; [| by apply Hretry].
  apply msafe_bind, tracker_field_safe. intros [b | e] _; [| by apply driver_post_err].
  ask. destruct x as [[] | e]; [| | by apply fail_restore_post].
  - apply msafe_bind, msafe_update, msafe_ret. by apply driver_post_same.
  - apply msafe_bind, msafe_update, Hretry. done.
Qed.

Lemma preflight_safe w d p (Q : Res (option string) → RuntimeOverrideDriver → World → Prop) :
  (∀ r, Q (Ok r) d w) → msafe w d (preflight_rejection p) Q.
Proof.
  intros HQ. unfold preflight_rejection. ask. case_match; [by apply msafe_ret |].
  ask. case_match; [by apply msafe_ret |]. ask. by apply msafe_ret.
Qed.

Lemma new_checkpoint_good p now b c : is_u64 now → checkpoint_new p now b = Ok c → good p c.
Proof.
  intros Hn (Ha & _ & Et & _ & Ei)%checkpoint_new_inv. split; [done |].
  split; [by rewrite Et |]. by rewrite Ei.
Qed.

Lemma poll_idle_request_safe w d p c :
  driver_ok w d → d.(d_tracker).(t_phase) = PhaseIdle →
  msafe w d (poll_idle_request p c) (driver_post d).
Proof.
  intros Hok Hp. unfold poll_idle_request. ask_now. apply msafe_bind, msafe_gets.
  case_match; [by eapply (on_tracker_execute _ d (CallSubmit p c None now)) |].
  apply msafe_bind, preflight_safe. intros [code |].
  - apply msafe_bind, msafe_gets. apply execute_safe; [done |]. unfold reject_before_apply.
    case_match; [done |]. by split.
  - unfold try_call. apply msafe_bind. ask. apply msafe_lift. destruct x as [b | e]; [| by apply driver_post_err].
    apply msafe_bind, msafe_lift. destruct (checkpoint_new p now b) as [k | e] eqn:E; [| by apply driver_post_err].
    pose proof Hok as (Hr & _ & Hl). unfold live_ok in Hl. rewrite Hp in Hl.
    apply msafe_bind, publish_checkpoint_safe; [done | by rewrite Hl | |].
    { intros text. eapply good_text. by eapply new_checkpoint_good. }
    intros r w' Hr' Hs _ _. pose proof (same_runtime_driver _ _ _ Hr' Hs Hok) as Hok'.
    destruct r; [| by apply driver_post_err].
    by eapply (on_tracker_execute _ d (CallSubmit p c (Some b) now)).
Qed.

Lemma poll_idle_safe w d permit control :
  driver_ok w d → d.(d_tracker).(t_phase) = PhaseIdle →
  msafe w d (poll_idle permit control) (driver_post d).
Proof.
  intros Hok Hp. unfold poll_idle. repeat case_match; try (apply msafe_ret; by apply driver_post_same).
  - by apply poll_idle_request_safe.
  - ask_now. apply msafe_bind, msafe_gets. case_match; [| apply msafe_ret; by apply driver_post_same].
    ask. apply msafe_ret. by apply driver_post_same.
Qed.

Lemma poll_tick_safe w d permit control :
  driver_ok w d → msafe w d (poll_tick permit control) (driver_post d).
Proof.
  intros Hok. unfold poll_tick, phase.
  apply msafe_bind, tracker_field_safe. intros [owner | e] _; [| by apply driver_post_err].
  apply msafe_bind, tracker_field_safe. intros [c | e] _; [| by apply driver_post_err].
  ask. apply msafe_bind, tracker_field_safe. intros [b | e] _; [| by apply driver_post_err].
  apply msafe_bind, owned_checkpoint_safe. intros [k | e] _; [| by apply driver_post_err].
  case_match; [by apply handle_unreadable_post |].
  ask. apply msafe_bind, msafe_gets, msafe_bind.
  apply (msafe_mono _ _ _ _ _ (λ r d' w', d' = d ∧ w' = w ∧ is_ok r = true)).
  { case_match; [ask |]; by apply msafe_ret. }
  intros [applied | e] d' w' (-> & -> & ?); [| done].
  ask_now. ask. eapply (on_tracker_execute _ d (CallTick _)); done.
Qed.

Lemma poll_active_safe w d permit control :
  driver_ok w d → msafe w d (poll_active permit control) (driver_post d).
Proof.
  intros Hok. unfold poll_active.
  assert (Hwatch : ∀ w d, driver_ok w d → msafe w d
    (phase ← phase;
     if bool_decide (phase = PhaseApplying) || bool_decide (phase = PhaseApplied)
     then poll_tick permit control else mret (outcome_for_phase phase)) (driver_post d)).
  { clear. intros w d Hok. unfold phase. apply msafe_bind, msafe_gets.
    case_match; [by apply poll_tick_safe | apply msafe_ret; by apply driver_post_same]. }
  destruct permit as [p |], control as [c |]; try by apply Hwatch.
  ask_now. apply msafe_bind, (on_tracker_safe _ d (CallSubmit p c None now)); [done | done |].
  intros a d' Hok' Ed Ha _. apply msafe_bind. eapply msafe_mono; [by apply execute_safe |].
  intros [o | e] d'' w'' Hpost%(driver_post_trans _ d); try done.
  case_match; [| by apply msafe_ret]. destruct Hpost as [Hok'' Ed''].
  eapply msafe_mono; [by apply Hwatch |]. intros r d3 w3. by apply driver_post_trans.
Qed.

(** Between two polls: the world can be recovered from, and unless safe recovery was
    required the driver is as its tracker says, or has not started. *)
Definition between_polls (w : World) (d : RuntimeOverrideDriver) : Prop :=
  recoverable w
  ∧ (d.(d_unsafe_recovery_reason) = None →
     if d.(d_startup_reconciled) then driver_ok w d else fresh_tracker d.(d_tracker)).

Definition poll_post {A} (_ : Res A) (d : RuntimeOverrideDriver) (w : World) : Prop := between_polls w d.

Lemma driver_between w d : driver_ok w d → d.(d_startup_reconciled) = true → between_polls w d.
Proof. intros Hok E. split; [apply Hok |]. by rewrite E. Qed.

Lemma driver_post_between {A} w d (r : Res A) d' :
  d.(d_startup_reconciled) = true → driver_post d r d' w → between_polls w d'.
Proof. intros E [Hok E']. apply driver_between; [done | congruence]. Qed.

Lemma poll_startup_safe w d :
  between_polls w d → d.(d_unsafe_recovery_reason) = None →
  msafe w d poll_startup (λ r d' w', between_polls w' d'
    ∧ (r = Ok None → driver_ok w' d' ∧ d'.(d_startup_reconciled) = true)).
Proof.
  intros [Hr Hd] Hu. specialize (Hd Hu). unfold poll_startup. apply msafe_bind, msafe_gets.
  destruct (d_startup_reconciled d) eqn:E.
  - apply msafe_ret. split; [by apply driver_between | done].
  - apply msafe_bind, msafe_update, msafe_bind, msafe_attempt.
    eapply msafe_mono; [by apply reconcile_startup_safe |].
    intros [o | e] d' w' (Hr' & E' & Ho).
    + destruct (decide (o = Some OutcomeUnsafeRecoveryRequired)) as [-> | Hne].
      { apply msafe_bind, msafe_update, msafe_ret. by split. }
      assert (Hok : driver_ok w' d') by by eapply Ho.
      assert (H : msafe w' d' (mret o) (λ (r : Res (option RuntimeDriverOutcome)) d'' w'',
        between_polls w'' d'' ∧ (r = Ok None → driver_ok w'' d'' ∧ d''.(d_startup_reconciled) = true))).
      { apply msafe_ret. split; [by apply driver_between | done]. }
      by destruct o as [[] |].
    + apply msafe_bind, msafe_update, msafe_raise. by split.
Qed.

Lemma read_active_safe {T} w d store f (dec : string → Res T) (k : option T → Driver RuntimeDriverOutcome) :
  driver_ok w d → (∀ v, msafe w d (k v) (driver_post d)) →
  msafe w d (read_active (read_optional store f dec) k) (driver_post d).
Proof.
  intros Hok Hk. unfold read_active. apply msafe_bind, msafe_attempt, read_any_safe.
  intros [v | e]; [apply Hk | by apply handle_unreadable_post].
Qed.

Lemma poll_safe w d : between_polls w d → msafe w d poll poll_post.
Proof.
  intros Hb. unfold poll. apply msafe_bind, msafe_gets.
  destruct (d_unsafe_recovery_reason d) as [reason |] eqn:E; [by apply msafe_ret |].
  apply msafe_bind. eapply msafe_mono; [by apply poll_startup_safe |].
  intros [[o |] | e] d' w' [Hb' Hok]; [by apply msafe_ret | | done].
  destruct (Hok eq_refl) as [Hok' E']. apply msafe_bind, msafe_gets.
  eapply msafe_mono; [| intros r d'' w''; by apply (driver_post_between w'' d' r d'')].
  do 3 (apply read_active_safe; [done | intros ?]).
  unfold phase. apply msafe_bind, msafe_gets.
  destruct (t_phase (d_tracker d')) eqn:Ep; [by apply poll_idle_safe | | | by apply poll_restoring_safe | by apply poll_restored_safe];
    by apply poll_active_safe.
Qed.
