(* ===== verification/DriverSystem.v ===== *)
(** * The runtime driver as a system

    The driver of an instance runs from poll to poll; every call it makes may fail, and
    the process may be killed between any two calls and be started again on whatever
    records it left. This file states that as a step relation over the driver's own
    code and the worlds of [DriverContract], and shows what holds of everything that
    can be reached. *)

From S2P Require Import Prelude RustStr SchedRecord PercentRecord LineRecord Vocabulary RustNet CapturePolicy OperationRequest JobJournal RuntimeControl PrivateNamespace TemporaryTopology RuntimePermit RuntimeRecord RuntimeCheckpoint RuntimeOverride OverrideContract Effects RuntimeActuator RuntimeStore RuntimeDriver DriverContract.
Local Open Scope string_scope.

(** ** Configurations *)

(** The driver between two polls, or what is left of a poll. *)
Inductive DriverConfig :=
  | Resting (d : RuntimeOverrideDriver)
  | Polling (m : prog answer (Res RuntimeDriverOutcome * RuntimeOverrideDriver)).

Inductive driver_step : DriverConfig * World → DriverConfig * World → Prop :=
  | step_poll d w : driver_step (Resting d, w) (Polling (poll d), w)
  | step_call c k x w w' :
      world_step w c x w' → driver_step (Polling (Do c k), w) (Polling (k x), w')
  | step_return r d w : driver_step (Polling (Ret (r, d)), w) (Resting d, w)
  (** the process is killed, at any point, and started again *)
  | step_restart cfg instance store d w :
      driver_open instance store = Ok d → driver_step (cfg, w) (Resting d, w).

(** From a process just started, in a world a driver may have left behind. *)
Inductive driver_reachable : DriverConfig → World → Prop :=
  | reach_start instance store d w :
      driver_open instance store = Ok d → recoverable w → driver_reachable (Resting d) w
  | reach_step cfg w cfg' w' :
      driver_reachable cfg w → driver_step (cfg, w) (cfg', w') → driver_reachable cfg' w'.

(** The call a configuration is about to make. *)
Definition pending (cfg : DriverConfig) : option RuntimeCall :=
  match cfg with Polling (Do c _) => Some c | _ => None end.

(** ** The invariant *)

Definition config_ok (cfg : DriverConfig) (w : World) : Prop :=
  recoverable w
  ∧ match cfg with
    | Resting d => between_polls w d
    | Polling m => safe world_pre world_step w m (λ r w', between_polls w' r.2)
    end.

Lemma open_driver_rests instance store d w :
  driver_open instance store = Ok d → recoverable w → between_polls w d.
Proof.
  unfold driver_open. intros (t & Ht & H)%bind_ok_inv Hr. injection H as <-.
  split; [done |]. intros _. cbn. split; [| by exists instance; apply reachable_ok, reach_new].
  unfold tracker_new in Ht. apply then_ok in Ht as [_ Ht]. by injection Ht as <-.
Qed.

Lemma config_step cfg w cfg' w' :
  config_ok cfg w → driver_step (cfg, w) (cfg', w') → config_ok cfg' w'.
Proof.
  intros [Hr Hc] Hs. inversion Hs; subst; cbn in Hc.
  - split; [done |]. by apply poll_safe.
  - destruct Hc as [Hp Hk]. split; [by eapply step_recoverable | by apply Hk].
  - by split.
  - split; [done | by eapply open_driver_rests].
Qed.

Lemma reachable_config cfg w : driver_reachable cfg w → config_ok cfg w.
Proof.
  induction 1 as [instance store d w Ho Hr | cfg w cfg' w' _ IH Hs]; [| by eapply config_step].
  split; [done | by eapply open_driver_rests].
Qed.

(** ** Claims *)

(** C19: No call of the driver, in whatever order calls fail and the process is killed
    and started again, ever leaves a changed runtime without a way back: as long as the
    live runtime differs from the baseline it was changed from, [checkpoint.record] is
    readable and holds exactly that baseline. *)
Theorem changed_runtime_recoverable cfg w b :
  driver_reachable cfg w → w.(w_changed) = Some b →
  ∃ text c, w.(w_checkpoint) = Some text ∧ checkpoint_decode text = Ok c ∧ c.(ck_baseline) = b.
Proof.
  intros [Hr _]%reachable_config Hc. destruct (Hr b Hc) as (c & (text & Ht & Hd) & Hb). by exists text, c.
Qed.

(** C20: Every call is made where it may be: the runtime is prepared, given its temporary
    topology and overridden only under a durable checkpoint at exactly the stage before,
    and the override only for a control its permit authorizes; nothing is taken down or
    restored before a RESTORING acknowledgement is visible; APPLIED is published only of
    the runtime last attested and RESTORED, the end of the restoration and the removal
    of the checkpoint only happen when the exact baseline has been attested. *)
Theorem driver_calls_allowed cfg w c :
  driver_reachable cfg w → pending cfg = Some c → world_pre w c.
Proof.
  intros [_ Hc]%reachable_config Hp. destruct cfg as [| [|]]; [done | done |].
  injection Hp as ->. apply Hc.
Qed.

(** C21: The tracker of a driver at rest that needs no safe recovery tells the truth: once
    start-up is reconciled, an idle or restored instance runs its baseline, and an
    applied one was attested to run exactly what its control requests. *)
Theorem resting_driver_truthful d w :
  driver_reachable (Resting d) w → d.(d_unsafe_recovery_reason) = None →
  d.(d_startup_reconciled) = true → driver_ok w d.
Proof. intros [_ [_ Hb]]%reachable_config Hu Hs. specialize (Hb Hu). by rewrite Hs in Hb. Qed.

(** ** The recursion of [execute] *)

(** How deep [execute] recurses for an action. *)
Definition action_depth (a : RuntimeOverrideAction) : nat :=
  match a with
  | NoAction | MalformedControl | PublishAck _ => 1
  | Restore _ _ _ => 2
  | Apply _ => 3
  end%nat.

Lemma confirm_restored_depth t b now : action_depth (confirm_restored t b now).1 = 1%nat.
Proof. unfold confirm_restored. by repeat case_match. Qed.
Lemma begin_restore_depth t r now : (action_depth (begin_restore t r now).1 ≤ 2)%nat.
Proof. unfold begin_restore. case_match; cbn; lia. Qed.
Lemma apply_failed_depth t now : (action_depth (apply_failed t now).1 ≤ 2)%nat.
Proof. unfold apply_failed. case_match; [apply begin_restore_depth | cbn; lia]. Qed.
Lemma confirm_applied_depth t s now : (action_depth (confirm_applied t s now).1 ≤ 2)%nat.
Proof. unfold confirm_applied. repeat case_match; try (cbn; lia). apply begin_restore_depth. Qed.

(** Two recursive calls that agree on the actions less deep than [n]. *)
Section agree.
Context (rec rec' : RuntimeOverrideAction → Driver RuntimeDriverOutcome) (n : nat).
Hypothesis agree : ∀ a d, (action_depth a < n)%nat → prog_eq (rec a d) (rec' a d).

Lemma on_tracker_agree (f : RuntimeOverrideTracker → RuntimeOverrideAction * RuntimeOverrideTracker) d
    (g g' : RuntimeOverrideAction → Driver RuntimeDriverOutcome) :
  (∀ d', prog_eq (g (f d.(d_tracker)).1 d') (g' (f d.(d_tracker)).1 d')) →
  prog_eq ((on_tracker f ≫= g) d) ((on_tracker f ≫= g') d).
Proof. intros H. apply H. Qed.

Lemma after_apply_failure_agree m d :
  (2 < n)%nat → prog_eq (after_apply_failure rec m d) (after_apply_failure rec' m d).
Proof.
  intros Hn. apply method_bind_eq. intros now d1. apply on_tracker_agree. intros d2.
  apply prog_eq_bind; [| done]. apply agree. pose proof (apply_failed_depth d1.(d_tracker) now). lia.
Qed.

Lemma execute_step_agree a d : (action_depth a ≤ n)%nat → prog_eq (execute_step rec a d) (execute_step rec' a d).
Proof.
  intros Hn. destruct a as [| | control | b reason ack | ack]; cbn [execute_step action_depth] in *; try done.
  - unfold execute_apply. do 4 (apply method_bind_eq; intros ? ?).
    case_match; [done |]. apply method_bind_eq. intros [c | e] ?; [| by apply after_apply_failure_agree].
    apply method_bind_eq. intros [s | e] ?; [| by apply after_apply_failure_agree].
    apply method_bind_eq. intros now d1. apply on_tracker_agree. intros d2. apply agree.
    pose proof (confirm_applied_depth d1.(d_tracker) s now). lia.
  - unfold execute_restore. do 3 (apply method_bind_eq; intros ? ?).
    case_match; [done |]. apply method_bind_eq. intros [c | e] ?; [| done].
    apply method_bind_eq. intros [b' | e] ?; [| done]. case_match; [done |].
    apply method_bind_eq. intros ? ?. apply method_bind_eq. intros now d1. apply on_tracker_agree. intros d2.
    apply method_bind_eq. intros ? d3. apply agree. rewrite confirm_restored_depth. lia.
Qed.
End agree.

Lemma execute_fuel_agree n m a d :
  (action_depth a ≤ n)%nat → (action_depth a ≤ m)%nat → prog_eq (execute_fuel n a d) (execute_fuel m a d).
Proof.
  revert m a d. induction n as [| n IH]; intros m a d Hn Hm; [destruct a; cbn in Hn; lia |].
  destruct m as [| m]; [destruct a; cbn in Hm; lia |]. cbn [execute_fuel].
  apply (execute_step_agree _ _ (action_depth a)); [| done]. intros a' d' Ha. apply IH; lia.
Qed.

(** [execute] calls itself at most twice more, whatever is answered: with any further
    fuel it makes the same calls and ends the same way, so the bound of three chosen for
    the recursion is never met. *)
Theorem execute_recursion_bounded n a d : prog_eq (execute_fuel (3 + n) a d) (execute a d).
Proof. apply execute_fuel_agree; destruct a; cbn; lia. Qed.

(** ** An obliging environment

    Every call succeeds and answers what the driver hopes for; the coordinator's two
    records hold the sample permit and control as long as [requested] says so. *)

Module DriverSample.
Definition store : RuntimeOverrideStore := {| store_root := "/tmp/wan"; store_uid := 0 |}.
Definition metadata : Metadata :=
  {| md_is_file := true; md_is_symlink := false; md_uid := 0; md_mode := 0x180 |}.
Definition encoded (r : Res string) : string := match r with Ok text => text | Err _ => "" end.

Section replies.
Context (requested : bool).

(** The contents of the records of a world. *)
Definition contents (f : RuntimeFile) (w : World) : option string :=
  match f with
  | CheckpointFile => w.(w_checkpoint)
  | AckFile => w.(w_ack)
  | RestoreFile => None
  | PermitFile => if requested then Some (encoded (permit_encode PermitSample.permit)) else None
  | ControlFile => if requested then Some (encoded (runtime_control_encode sample_control)) else None
  end.

Definition reply (c : RuntimeCall) (w : World) : answer c * World :=
  match c with
  | InspectRecord f => (if is_some (contents f w) then Entry metadata else NoEntry, w)
  | ReadRecord f => (ok_or (contents f w) "missing", w)
  | CreateTemporary => (Ok tt, set_temporary None w)
  | FillTemporary text => (Ok tt, set_temporary (Some text) w)
  | DiscardTemporary => (tt, set_temporary None w)
  | RenameTemporary f => (Ok tt, set_temporary None (set_file f w.(w_temporary) w))
  | RemoveRecord f => (Removed, set_file f None w)
  | SyncDirectory => (Ok tt, w)
  | CurrentBootMs => (1000%N, w)
  | CaptureBaseline _ => (Ok OverrideSample.baseline, w)
  | CurrentRouteIdentity => (Ok "main|wan", w)
  | BaselineReadyForApply _ => (Ok true, w)
  | ActiveIdentityMatches _ => (Ok true, w)
  | WorkerIdentityMatches _ => (true, w)
  | RuntimeMatches _ _ => (Ok true, w)
  | PrepareBaseline c => (Ok tt, set_runtime (Some c.(ck_baseline)) None w)
  | CreateTemporaryIfb c => (Ok 12%N, set_runtime (Some c.(ck_baseline)) None w)
  | ApplyOverride _ _ c => (Ok tt, set_runtime (Some c.(ck_baseline)) None w)
  | RemoveTemporaryTopology c => (Ok tt, set_runtime (Some c.(ck_baseline)) None w)
  | RestoreBaseline b => (Ok tt, set_runtime (Some b) None w)
  | ObserveRestoreBlocker _ _ => (Ok ObservedReady, w)
  | AttestRuntime expected _ => (Ok expected, set_runtime w.(w_changed) (Some expected) w)
  | AttestRestoredBaseline b _ =>
      (Ok b, if bool_decide (w.(w_changed) = Some b) then set_runtime None None w else w)
  | FinishRestored => (tt, w)
  | RecoverSafeConfiguration => (Ok tt, w)
  end.

Lemma reply_step c w : world_step w c (reply c w).1 (reply c w).2.
Proof.
  destruct c; cbn; try done.
  - split; [done |]. intros H t Ht. destruct f; cbn in H, Ht; simplify_eq;
      by destruct w as [? [] [] ? ?].
  - split; [done |]. intros t t' H Ht. destruct f; cbn in H, Ht; simplify_eq;
      by destruct w as [? [] [] ? ?]; cbn in H; simplify_eq.
  - split; [done |]. by intros n [= <-].
  - by rewrite (bool_decide_eq_true_2 (@eq (Act RuntimeRestoreBaseline) (Ok baseline) (Ok baseline))) by done.
Qed.

(** [n] calls of a poll, and a whole poll. *)
Fixpoint call_steps {A} (n : nat) (m : prog answer A) (w : World) : prog answer A * World :=
  match n, m with
  | S n, Do c k => call_steps n (k (reply c w).1) (reply c w).2
  | _, _ => (m, w)
  end.

Definition poll_run (d : RuntimeOverrideDriver) (w : World)
    : (Res RuntimeDriverOutcome * RuntimeOverrideDriver) * World := run_with answer reply w (poll d).

Lemma call_steps_reachable n m w :
  driver_reachable (Polling m) w →
  driver_reachable (Polling (call_steps n m w).1) (call_steps n m w).2.
Proof.
  revert m w. induction n as [| n IH]; intros [a | c k] w H; try done.
  apply IH. eapply reach_step; [done |]. apply step_call, reply_step.
Qed.

Lemma run_reachable m w :
  driver_reachable (Polling m) w →
  driver_reachable (Resting (run_with answer reply w m).1.2) (run_with answer reply w m).2.
Proof.
  revert w. induction m as [[r d] | c k IH]; intros w H; cbn.
  - eapply reach_step; [done | apply step_return].
  - pose proof (reply_step c w) as Hs. destruct (reply c w) as [x w']. apply IH.
    eapply reach_step; [done |]. by apply step_call.
Qed.
End replies.

Definition empty_world : World := {|
  w_temporary := None; w_checkpoint := None; w_ack := None; w_changed := None; w_attested := None |}.
Definition opened : RuntimeOverrideDriver := {|
  d_instance_name := "wan"; d_store := store; d_tracker := OverrideSample.fresh;
  d_startup_reconciled := false; d_unsafe_recovery_reason := None; d_restore_blocker := None |}.

Definition applied := poll_run true opened empty_world.
Definition withdrawn := poll_run false applied.1.2 applied.2.
Definition finished := poll_run false withdrawn.1.2 withdrawn.2.

(** Applied, then restored when the records are gone, then idle with nothing left. *)
Example session_run :
  applied.1.1 = Ok OutcomeApplied
  ∧ withdrawn.1.1 = Ok OutcomeRestored
  ∧ finished.1.1 = Ok OutcomeIdle
  ∧ finished.2 = empty_world.
Proof. by vm_compute. Qed.
End DriverSample.

Lemma empty_recoverable : recoverable DriverSample.empty_world.
Proof. done. Qed.

Lemma sample_polling : driver_reachable (Polling (poll DriverSample.opened)) DriverSample.empty_world.
Proof.
  eapply reach_step; [| apply step_poll].
  by apply (reach_start "wan" DriverSample.store).
Qed.

(** ** Witnesses *)

(** The first poll of a requested instance, [n] calls in. *)
Definition sample_calls (n : nat) := DriverSample.call_steps true n (poll DriverSample.opened) DriverSample.empty_world.

Lemma sample_calls_reachable n : driver_reachable (Polling (sample_calls n).1) (sample_calls n).2.
Proof. apply DriverSample.call_steps_reachable, sample_polling. Qed.

Lemma applied_reachable : driver_reachable (Resting DriverSample.applied.1.2) DriverSample.applied.2.
Proof. apply DriverSample.run_reachable, sample_polling. Qed.

(** Just after the baseline has been prepared. *)
Lemma changed_runtime_recoverable_witness :
  ∃ text c, (sample_calls 24).2.(w_checkpoint) = Some text ∧ checkpoint_decode text = Ok c
    ∧ c.(ck_baseline) = OverrideSample.baseline.
Proof.
  refine (changed_runtime_recoverable _ _ _ (sample_calls_reachable 24) _). by vm_compute.
Defined.

(** Just before the override is applied. *)
Definition is_apply (c : RuntimeCall) : bool := match c with ApplyOverride _ _ _ => true | _ => false end.

Lemma driver_calls_allowed_witness :
  ∃ c, pending (Polling (sample_calls 37).1) = Some c ∧ is_apply c = true
    ∧ world_pre (sample_calls 37).2 c.
Proof.
  assert (E : is_some_and is_apply (pending (Polling (sample_calls 37).1)) = true) by by vm_compute.
  pose proof (λ c, driver_calls_allowed _ _ c (sample_calls_reachable 37)) as H.
  destruct (pending _) as [c |]; [| discriminate E].
  exists c. split; [reflexivity | split; [exact E | exact (H c eq_refl)]].
Defined.

Lemma resting_driver_truthful_witness :
  DriverSample.applied.1.2.(d_tracker).(t_phase) = PhaseApplied
  ∧ driver_ok DriverSample.applied.2 DriverSample.applied.1.2.
Proof.
  split; [by vm_compute |].
  refine (resting_driver_truthful _ _ applied_reachable _ _); by vm_compute.
Defined.
