(* ===== verification/DriverRestart.v ===== *)
(** * A restart restores

    [DriverSystem] shows that a killed driver always leaves the way back. This file
    shows that the way is taken: when the records of permit and control are still there
    and the calls succeed, the first poll after a restart restores and attests the
    baseline of the checkpoint, from whatever stage the process was killed at, and
    publishes the RESTORED acknowledgement its worker waits for. *)

From S2P Require Import Prelude RustStr SchedRecord PercentRecord LineRecord Vocabulary RustNet CapturePolicy OperationRequest JobJournal RuntimeControl PrivateNamespace TemporaryTopology RuntimePermit RuntimeRecord RuntimeCheckpoint RuntimeOverride OverrideContract Effects RuntimeActuator RuntimeStore RuntimeDriver DriverContract DriverSystem.
Local Open Scope string_scope.

(** ** Cooperation *)

Section restart.
Context (instance : string) (store : RuntimeOverrideStore).
Context (permit : AutotuneRuntimePermit) (control : AutotuneRuntimeControl).
Context (permit_text control_text : string).

(** The contents of the records. *)
Definition stored_text (w : World) (f : RuntimeFile) : option string :=
  match f with
  | PermitFile => Some permit_text
  | ControlFile => Some control_text
  | RestoreFile => None
  | AckFile => w.(w_ack)
  | CheckpointFile => w.(w_checkpoint)
  end.

(** Calls that succeed, on the records there are. *)
Definition obliging (w : World) (c : RuntimeCall) : answer c → Prop :=
  match c with
  | InspectRecord f => λ (x : FileInspection),
      match stored_text w f with
      | Some _ => ∃ m, x = Entry m
          ∧ validate_private_file store.(store_uid) (record_path store f) m = Ok tt
      | None => x = NoEntry
      end
  | ReadRecord f => λ (x : Res string), ∀ text, stored_text w f = Some text → x = Ok text
  | CreateTemporary | FillTemporary _ | RenameTemporary _ | SyncDirectory =>
      λ (x : Res unit), x = Ok tt
  | CurrentBootMs => λ (now : N), now ≠ 0%N
  | RemoveTemporaryTopology _ | RestoreBaseline _ => λ (x : Act unit), x = Ok tt
  | AttestRestoredBaseline b _ => λ (x : Act RuntimeRestoreBaseline), x = Ok b
  | _ => λ _, True
  end.

Definition cooperative (w : World) (c : RuntimeCall) (x : answer c) (w' : World) : Prop :=
  world_step w c x w' ∧ obliging w c x.

Abbreviation csafe := (Effects.msafe (λ _ _, True) cooperative).

(** One call, with its answer. *)
Ltac coop_call :=
  repeat apply msafe_bind;
  lazymatch goal with
  | |- Effects.msafe ?p ?s ?w ?d (call ?c) ?Q => refine (msafe_call p s w d c Q I _)
  end.
Ltac coop := coop_call; intros ? ? [-> ->].

Section calls.
Context {S : Type}.
Implicit Types (d : S) (w : World).

Lemma coop_read {T} w d f (dec : string → Res T) text v
    (Q : Res (option T) → S → World → Prop) :
  stored_text w f = Some text → (len text ≤ MAX_RUNTIME_RECORD_BYTES)%N → dec text = Ok v →
  Q (Ok (Some v)) d w → csafe w d (read_optional store f dec) Q.
Proof.
  intros Ht Hl Hd HQ. unfold read_optional, try_call.
  coop_call. intros x w' [[-> _] Hx]. cbn in Hx. rewrite Ht in Hx. destruct Hx as (m & -> & Hm).
  apply msafe_bind, msafe_lift. rewrite Hm. apply msafe_bind. coop_call.
  intros x w' [[-> _] Hx]. rewrite (Hx text Ht). apply msafe_lift.
  apply msafe_bind, msafe_lift. rewrite (proj2 (N.ltb_ge _ _) Hl). cbn [fail_if].
  apply msafe_bind, msafe_lift. rewrite Hd. by apply msafe_ret.
Qed.

Lemma coop_read_none {T} w d f (dec : string → Res T) (Q : Res (option T) → S → World → Prop) :
  stored_text w f = None → Q (Ok None) d w → csafe w d (read_optional store f dec) Q.
Proof.
  intros Ht HQ. unfold read_optional. coop_call. intros x w' [[-> _] Hx]. cbn in Hx.
  rewrite Ht in Hx. rewrite Hx. by apply msafe_ret.
Qed.

Lemma coop_write w d f text (Q : Res unit → S → World → Prop) :
  (len text ≤ MAX_RUNTIME_RECORD_BYTES)%N →
  Q (Ok tt) d (set_temporary None (set_file f (Some text) w)) →
  csafe w d (atomic_write f text) Q.
Proof.
  intros Hl HQ. unfold atomic_write, try_call. apply msafe_bind, msafe_lift.
  rewrite (proj2 (N.ltb_ge _ _) Hl). cbn [fail_if].
  coop_call. intros x w' [-> Hx]. cbn in Hx. rewrite Hx. apply msafe_lift.
  coop_call. intros x' w' [Hw Hx']. cbn in Hw, Hx'. subst x' w'.
  coop_call. intros x' w' [Hw Hx']. cbn in Hw, Hx'. subst x' w'.
  coop_call. intros x' w' [Hw Hx']. cbn in Hw, Hx'. subst x' w'. by apply msafe_lift.
Qed.
End calls.

(** ** Stages *)

Implicit Types (w : World) (d : RuntimeOverrideDriver).

Lemma checkpoint_fits c text : checkpoint_encode c = Ok text → (len text ≤ MAX_RUNTIME_RECORD_BYTES)%N.
Proof.
  unfold checkpoint_encode, checkpoint_encode_for_schema. intros (_ & (h & _ & H)%bind_ok_inv)%then_ok.
  unfold runtime_record in H. apply then_ok in H as [_ H]. apply then_ok in H as [Hl H].
  injection H as <-. by apply fail_if_ok, N.ltb_ge in Hl.
Qed.

Lemma same_identity c next o c' :
  advance_temporary_stage c next o = Ok c' → checkpoint_same_identity c c' = true.
Proof.
  intros [(i & -> & _) _]%advance_inv. unfold checkpoint_same_identity, at_stage, with_ifindex. cbn.
  rewrite !String.eqb_refl, !N.eqb_refl, !bool_decide_eq_true_2 by done. by destruct (ck_managed_sqm_was_active c).
Qed.

(** The checkpoint the driver holds is the one on disk, and is the permit's. *)
Definition held (w : World) (c : RuntimeOverrideCheckpoint) : Prop := durable w c ∧ good permit c.

Lemma coop_read_checkpoint {S} w (d : S) c
    (Q : Res (option RuntimeOverrideCheckpoint) → S → World → Prop) :
  durable w c → Q (Ok (Some c)) d w → csafe w d (read_stored_checkpoint store) Q.
Proof.
  intros (text & Ht & Hd) HQ. apply (coop_read w d _ _ text c); [done | | done | done].
  apply (checkpoint_fits c). by apply checkpoint_decode_inv in Hd as [_ ?].
Qed.

(** Publishing the next stage: nothing else changes. *)
Lemma coop_stage w d c next
    (Q : Act RuntimeOverrideCheckpoint → RuntimeOverrideDriver → World → Prop) :
  held w c → stage_allowed c.(ck_baseline) c.(ck_temporary_stage) next = true →
  stage_observation next None → d.(d_store) = store →
  (∀ c' w', held w' c' → c'.(ck_baseline) = c.(ck_baseline) → c'.(ck_temporary_stage) = next →
     same_runtime w w' → w'.(w_ack) = w.(w_ack) → Q (Ok c') d w') →
  csafe w d (publish_stage c next None) Q.
Proof.
  intros [Hd Hg] Hs Ho Hst HQ. unfold publish_stage.
  destruct (against_planned _ _ (proj1 Hg)) as [Hv _].
  destruct (advance_ok c next None Hv Hs Ho) as [c' Ha]. rewrite Ha.
  destruct (good_advance permit c next None c' Hg) as (Hg' & Hb & Hn); [done | done |].
  apply msafe_bind, msafe_map_err, msafe_lift, msafe_bind, msafe_gets, msafe_bind, msafe_map_err.
  unfold replace_checkpoint. rewrite Hst. apply msafe_bind, (coop_read_checkpoint w d c); [done |].
  apply msafe_bind, msafe_lift. rewrite bool_decide_eq_true_2 by done. cbn [negb fail_if].
  apply msafe_bind, msafe_lift. rewrite (same_identity _ _ _ _ Ha). cbn [negb fail_if].
  destruct (against_planned _ _ (proj1 Hg')) as [Hv' Hp'].
  apply msafe_bind, msafe_lift. rewrite Hv'. unfold publish_checkpoint, publish.
  destruct (checkpoint_encode_decode c' Hv' (proj2 Hg') Hp') as (text & He & Hdec). rewrite He.
  apply msafe_bind, msafe_lift, coop_write; [by eapply checkpoint_fits |].
  apply msafe_ret, HQ; [split; [by exists text | done] | done | done | done | done].
Qed.

Lemma absent_reachable c : good permit c →
  at_temporary_stage c TemporaryAbsent || at_temporary_stage c BaselineRestored = false →
  stage_allowed c.(ck_baseline) c.(ck_temporary_stage) TemporaryAbsent = true.
Proof.
  intros [Ha _]. destruct (against_planned _ _ Ha) as [(_ & Hx & _)%checkpoint_validate_ok _].
  unfold checkpoint_variant in Hx. unfold at_temporary_stage.
  destruct (ck_temporary_stage c), (ck_baseline c); try done;
    rewrite !then_ok, !fail_if_ok in Hx; by destruct_and?.
Qed.

(** The restoration from any stage: it ends at the restored baseline. *)
Lemma coop_restore_stages w d c
    (Q : Act RuntimeOverrideCheckpoint → RuntimeOverrideDriver → World → Prop) :
  held w c → recoverable w → d.(d_store) = store →
  (∀ c' w', held w' c' → c'.(ck_baseline) = c.(ck_baseline) → recoverable w' →
     w'.(w_ack) = w.(w_ack) → Q (Ok c') d w') →
  csafe w d (restore_stages c.(ck_baseline) c) Q.
Proof.
  intros Hh Hr Hst HQ. unfold restore_stages.
  assert (Htouch : ∀ w c', held w c' → held (set_runtime (Some c'.(ck_baseline)) None w) c'
                           ∧ recoverable (set_runtime (Some c'.(ck_baseline)) None w)).
  { clear. intros w c' [Hd Hg]. split; [done | by apply touched_recoverable]. }
  assert (Hlast : ∀ c1 w1, held w1 c1 → recoverable w1 → c1.(ck_baseline) = c.(ck_baseline) →
    w1.(w_ack) = w.(w_ack) →
    (c1.(ck_temporary_stage) = TemporaryAbsent ∨ c1.(ck_temporary_stage) = BaselineRestored) →
    csafe w1 d (checkpoint ← (if at_temporary_stage c1 TemporaryAbsent then
                  try_call (call (RestoreBaseline c.(ck_baseline))) ≫= λ _, publish_stage c1 BaselineRestored None
                else mret c1);
                if at_temporary_stage checkpoint BaselineRestored then mret checkpoint
                else raise (Unsafe ("runtime baseline cannot attest from temporary stage "
                      +:+ TemporaryTopologyStage_as_str checkpoint.(ck_temporary_stage)))) Q).
  { intros c1 w1 Hh1 Hr1 Hb1 Hack1 Hs1. apply msafe_bind. unfold at_temporary_stage at 1.
    case_bool_decide as E.
    - unfold try_call. coop_call. intros x w2 [-> Hx]. cbn in Hx. rewrite Hx. apply msafe_lift.
      rewrite <- Hb1. destruct (Htouch w1 c1 Hh1) as [Hh2 Hr2].
      apply coop_stage; [done | by rewrite E | done | done |].
      intros c3 w3 Hh3 Hb3 Hs3 [Hc3 _] Hack3. unfold at_temporary_stage. rewrite bool_decide_eq_true_2 by done.
      apply msafe_ret, HQ; [done | congruence | | by rewrite Hack3].
      intros b Hb. rewrite Hc3 in Hb. injection Hb as <-. exists c3. split; [apply Hh3 | congruence].
    - destruct Hs1 as [? | Hs1]; [done |]. apply msafe_ret. unfold at_temporary_stage.
      rewrite bool_decide_eq_true_2 by done. apply msafe_ret, HQ; auto. }
  apply msafe_bind. case_match eqn:E.
  - apply msafe_ret. apply Hlast; [done | done | done | done |].
    apply orb_true_iff in E as [E%at_stage_true | E%at_stage_true]; auto.
  - unfold try_call. coop_call. intros x w2 [-> Hx]. cbn in Hx. rewrite Hx. apply msafe_lift.
    destruct (Htouch w c Hh) as [Hh2 Hr2].
    apply coop_stage; [done | by apply absent_reachable; [apply Hh |] | done | done |].
    intros c3 w3 Hh3 Hb3 Hs3 [Hc3 _] Hack3. apply Hlast; [done | | done | by rewrite Hack3 | by left].
    intros b Hb. rewrite Hc3 in Hb. injection Hb as <-. exists c3. split; [apply Hh3 | congruence].
Qed.
(** ** The restoration *)

Lemma coop_publish_ack {S} w (d : S) a text (Q : Res unit → S → World → Prop) :
  ack_encode a = Ok text → Q (Ok tt) d (set_temporary None (set_file AckFile (Some text) w)) →
  csafe w d (publish_ack a) Q.
Proof.
  intros He HQ. unfold publish_ack, publish. apply msafe_bind, msafe_lift. rewrite He.
  apply coop_write; [| done]. by apply evidence_encode_inv in He as (_ & _ & ?).
Qed.

(** The acknowledgement a restoration publishes, and its text. *)
Lemma restoration_text now st :
  runtime_control_validate control = Ok tt → is_u64 now → now ≠ 0%N → st = Restoring ∨ st = Restored →
  ∃ text, ack_encode (restoration_ack control now st) = Ok text
    ∧ ack_decode text = Ok (restoration_ack control now st).
Proof.
  intros Hc Hu Hn Hst. destruct (ack_codec_exact (restoration_ack control now st)) as (text & He & Hd & _).
  - exact Hu.
  - by apply restoration_ack_ok.
  - by exists text.
Qed.

Lemma coop_on_tracker {A} w d (f : RuntimeOverrideTracker → A * RuntimeOverrideTracker)
    (Q : Res A → RuntimeOverrideDriver → World → Prop) :
  Q (Ok (f d.(d_tracker)).1) (set_tracker (f d.(d_tracker)).2 d) w → csafe w d (on_tracker f) Q.
Proof. done. Qed.

(** The runtime is restored, and the worker can see it. *)
Definition restored_world (d : RuntimeOverrideDriver) (w : World) : Prop :=
  w.(w_changed) = None ∧ d.(d_tracker).(t_phase) = PhaseRestored
  ∧ ∃ text ack now, w.(w_ack) = Some text ∧ ack_decode text = Ok ack
      ∧ attests_restored ack control now = Ok tt.

Lemma coop_execute_restore w d c reason started s n :
  held w c → recoverable w → d.(d_store) = store →
  d.(d_tracker).(t_phase) = PhaseRestoring → d.(d_tracker).(t_session) = Some s →
  s.(s_permit) = permit → s.(s_baseline) = c.(ck_baseline) → s.(s_control) = control →
  validate_for_permit c.(ck_baseline) permit = Ok tt → runtime_control_validate control = Ok tt →
  is_u64 started → started ≠ 0%N →
  csafe w d (execute_fuel (2 + n) (Restore c.(ck_baseline) reason (restoration_ack control started Restoring)))
    (λ r d' w', r = Ok OutcomeRestored ∧ restored_world d' w').
Proof.
  intros Hh Hr Hst Hph Hs Hp Hb Hc Hv Hcv Hu Hn. cbn [execute_fuel execute_step Nat.add]. unfold execute_restore.
  destruct (restoration_text started Restoring) as (text & He & _); [done | done | done | by left |].
  apply msafe_bind, (coop_publish_ack w d _ text); [done |].
  unfold tracker_field, owner_permit, owned_checkpoint.
  do 2 apply msafe_bind. apply msafe_gets, msafe_lift. rewrite Hs. cbn [fmap option_fmap option_map ok_or].
  rewrite Hp. do 2 apply msafe_bind. apply msafe_gets, msafe_bind. rewrite Hst.
  apply (coop_read_checkpoint _ d c); [apply Hh |]. apply msafe_bind, msafe_lift. cbn [ok_or].
  apply msafe_bind, msafe_lift. rewrite (proj1 (proj2 Hh)). apply msafe_ret.
  rewrite bool_decide_eq_true_2 by done. cbn [negb].
  apply msafe_bind, msafe_attempt, coop_restore_stages; [done | done | done |].
  intros c' w1 [Hd Hg] Hb' Hr1 _.
  coop_call. intros x w' [Hstep Hx]. cbn [obliging] in Hx. subst x.
  pose proof (attested_unchanged w1 c' _ _ w' Hr1 Hd Hb' eq_refl Hstep) as Hun.
  rewrite bool_decide_eq_true_2 by done. cbn [negb]. apply msafe_bind, msafe_update.
  unfold current_boot_ms. coop_call. intros now w'' [[-> Hnow] Hn']. cbn [obliging] in Hn'.
  apply msafe_bind, coop_on_tracker. unfold confirm_restored. cbn [set_blocker d_tracker].
  rewrite Hph, Hs, Hb, (proj2 (N.eqb_neq _ _) Hn'), !bool_decide_eq_true_2 by done.
  rewrite (baseline_valid _ _ Hv). cbn [negb orb is_ok fst snd].
  apply msafe_bind. unfold publishes_restored. rewrite bool_decide_eq_true_2 by done.
  coop_call. intros u w2 [-> _]. cbn [execute_step].
  destruct (restoration_text now Restored) as (text2 & He2 & Hd2); [done | done | done | by right |].
  rewrite Hc. apply msafe_bind, (coop_publish_ack _ _ _ text2); [done |]. apply msafe_ret.
  split; [done |]. split; [exact Hun | split; [done |]].
  exists text2, (restoration_ack control now Restored), now. by rewrite restored_ack_attests.
Qed.

(** ** The first poll *)

(** The records a restart finds: the permit and the control of the session the
    checkpoint belongs to, no restore intent, and an acknowledgement that can be read. *)
Record restartable (w : World) (c : RuntimeOverrideCheckpoint) : Prop := {
  rs_permit : permit_decode permit_text = Ok permit;
  rs_control : runtime_control_decode control_text = Ok control;
  rs_checkpoint : durable w c;
  rs_against : checkpoint_validate_against c permit = Ok tt;
  rs_authorized : authorizes_identity permit permit.(rp_instance_name) control = Ok tt;
  rs_ack : ∀ text, w.(w_ack) = Some text → is_ok (ack_decode text) = true;
}.

Lemma permit_text_fits : permit_decode permit_text = Ok permit →
  (len permit_text ≤ MAX_RUNTIME_RECORD_BYTES)%N.
Proof.
  unfold permit_decode, runtime_new. intros (s & _ & (r & H & _)%bind_ok_inv)%bind_ok_inv.
  apply then_ok in H as [H _]. apply fail_if_ok, orb_false_iff in H as [H _]. by apply N.ltb_ge in H.
Qed.

Lemma evidence_text_fits {A} what header validate fields read text (a : A) :
  evidence_decode what header validate fields read text = Ok a →
  (len text ≤ MAX_RUNTIME_RECORD_BYTES)%N.
Proof. intros (_ & (_ & _ & H)%evidence_encode_inv & _)%evidence_decode_inv. exact H. Qed.

Lemma coop_read_ack {S} w (d : S) (Q : Res (option AutotuneRuntimeAck) → S → World → Prop) :
  (∀ text, w.(w_ack) = Some text → is_ok (ack_decode text) = true) →
  (∀ a, Q (Ok a) d w) → csafe w d (read_runtime_ack store) Q.
Proof.
  intros Ha HQ. destruct (w_ack w) as [text |] eqn:E; [| by apply coop_read_none].
  specialize (Ha text eq_refl). destruct (ack_decode text) as [a |] eqn:Ed; [| done].
  apply (coop_read w d AckFile _ text a); [done | by eapply evidence_text_fits | done | done].
Qed.

Lemma coop_startup w d c :
  restartable w c → recoverable w → d.(d_store) = store →
  csafe w d reconcile_startup
    (λ r d' w', r = Ok (Some OutcomeRestored) ∧ restored_world d' w').
Proof.
  intros Hrs Hr Hst. destruct Hrs as [Hp Hc Hd Ha Hau Hack].
  assert (Hcv : runtime_control_validate control = Ok tt) by by apply evidence_decode_inv in Hc as (? & _).
  assert (Hpv : permit_validate permit = Ok tt ∧ validate_for_permit c.(ck_baseline) permit = Ok tt).
  { unfold checkpoint_validate_against in Ha. rewrite !then_ok in Ha. by destruct_and?. }
  destruct Hpv as [Hpv Hv]. unfold reconcile_startup. apply msafe_bind, msafe_gets. rewrite Hst.
  apply msafe_bind, msafe_attempt, (coop_read_checkpoint w d c); [done |].
  apply msafe_bind, (coop_read w d PermitFile _ permit_text permit);
    [done | by apply permit_text_fits | done |].
  apply msafe_bind, (coop_read w d ControlFile _ control_text control);
    [done | by eapply evidence_text_fits | done |].
  apply msafe_bind, coop_read_none; [done |].
  apply msafe_bind, coop_read_ack; [done |]. intros a. unfold recover_session.
  apply msafe_bind, msafe_lift. rewrite Ha. unfold current_boot_ms.
  coop_call. intros now w' [[-> Hnow] Hn]. cbn [obliging] in Hn. apply msafe_bind, msafe_lift.
  unfold recover_after_restart. rewrite Hpv, Hcv, Hv, Hau. cbn [mbind result_bind mret result_ret].
  apply msafe_bind, msafe_update, msafe_bind. eapply msafe_mono.
  - eapply (coop_execute_restore w _ c InstanceRestarted (N.max now 1) _ 1); try done.
    + split; [done |]. split; [done |]. destruct Hd as (text & _ & Hd). by eapply checkpoint_decode_typed.
    + unfold is_u64, u64_max in *. lia.
    + apply max_1_nonzero.
  - intros r d' w' [-> H]. by apply msafe_ret.
Qed.
End restart.

(** C22: A restart finishes what was started: whatever stage the killed process had
    reached, when the records of its session are there and the calls succeed, the first
    poll of the new process restores the baseline of the checkpoint, has it attested,
    and leaves a RESTORED acknowledgement that attests the control of the session to its
    worker. *)
Theorem restart_completes instance store permit control permit_text control_text d w c :
  driver_open instance store = Ok d → recoverable w →
  restartable permit control permit_text control_text w c →
  Effects.msafe (λ _ _, True) (cooperative store permit_text control_text) w d poll
    (λ r d' w', r = Ok OutcomeRestored ∧ restored_world control d' w').
Proof.
  intros Ho Hr Hrs. unfold driver_open in Ho. apply bind_ok_inv in Ho as (t & Ht & Ho). injection Ho as <-.
  unfold poll, poll_startup. apply msafe_bind, msafe_gets. cbn [d_unsafe_recovery_reason is_some].
  do 2 apply msafe_bind. apply msafe_gets. cbn [d_startup_reconciled].
  apply msafe_bind, msafe_update, msafe_bind, msafe_attempt. eapply msafe_mono; [by eapply coop_startup |].
  intros r d' w' [-> H]. by apply msafe_ret, msafe_ret.
Qed.

(** *** Witness: killed in the middle of applying an override *)

Definition sample_permit_text : string := DriverSample.encoded (permit_encode PermitSample.permit).
Definition sample_control_text : string := DriverSample.encoded (runtime_control_encode sample_control).

Lemma reply_cooperative c w :
  cooperative DriverSample.store sample_permit_text sample_control_text w c
    (DriverSample.reply true c w).1 (DriverSample.reply true c w).2.
Proof.
  split; [apply DriverSample.reply_step |]. destruct c; try done.
  - destruct f; cbn [obliging stored_text DriverSample.reply DriverSample.contents is_some fst];
      try (by eexists); try done;
      [destruct (w_ack w) | destruct (w_checkpoint w)]; cbn [is_some]; try done; by eexists.
  - intros text H. cbn [DriverSample.reply fst]. destruct f; cbn in H |- *; try (by injection H as <-); try done;
      by rewrite H.
Qed.

(** The world of a process killed just before [ApplyOverride]. *)
Definition killed_world : World := (sample_calls 37).2.

Lemma killed_recoverable : recoverable killed_world.
Proof. exact (proj1 (reachable_config _ _ (sample_calls_reachable 37))). Qed.

Lemma killed_restartable :
  restartable PermitSample.permit sample_control sample_permit_text sample_control_text killed_world
    CheckpointSample.owned.
Proof.
  split; [vm_compute; reflexivity | vm_compute; reflexivity | | vm_compute; reflexivity | vm_compute; reflexivity |].
  - exists (DriverSample.encoded (checkpoint_encode CheckpointSample.owned)).
    split; vm_compute; reflexivity.
  - assert (E : w_ack killed_world = None) by by vm_compute. intros text. by rewrite E.
Qed.

Lemma restart_completes_witness :
  (DriverSample.poll_run true DriverSample.opened killed_world).1.1 = Ok OutcomeRestored
  ∧ restored_world sample_control (DriverSample.poll_run true DriverSample.opened killed_world).1.2
      (DriverSample.poll_run true DriverSample.opened killed_world).2.
Proof.
  refine (safe_run_with _ _ (DriverSample.reply true) killed_world (poll DriverSample.opened)
    (λ r w, r.1 = Ok OutcomeRestored ∧ restored_world sample_control r.2 w) reply_cooperative _).
  refine (restart_completes "wan" DriverSample.store PermitSample.permit sample_control
    sample_permit_text sample_control_text DriverSample.opened killed_world CheckpointSample.owned
    _ killed_recoverable killed_restartable).
  by vm_compute.
Defined.
