(* ===== verification/UciEdits.v ===== *)
(** * Edits of UCI files

    Models [operations/uci_edits.rs]: the parser of UCI statements and [render], which
    applies edits to named sections by replacing and inserting text, so that every other
    statement and comment keeps its bytes. A file is the [string] of its bytes; where the
    code moves a position through the input, the model returns the rest of the input, and
    a position is the length of what comes before it. A [BTreeMap] is a [gmap], iterated
    in the order of its keys. *)

From stdpp Require Import sorting.
From S2P Require Import Prelude RustStr SchedRecord.
Local Open Scope string_scope.

(** ** Data *)

Definition MAX_UCI_BYTES : N := 1024 * 1024.
Definition MAX_STATEMENTS : nat := N.to_nat (32 * 1024).
Definition MAX_EDITS : nat := N.to_nat 4096.

Inductive Edit :=
  | AddSection (section kind : string)
  | DeleteSection (section : string)
  | SetOption (section option value : string)
  | DeleteOption (section option : string).

#[export] Instance Edit_eq_dec : EqDecision Edit.
Proof. solve_decision. Defined.

Record SectionPatch := {
  sp_add : option string;
  sp_delete : bool;
  sp_options : gmap string (option string);
}.

(** [span] is [st_start..st_end]. *)
Record Statement := {
  st_start : nat;
  st_end : nat;
  st_token_end : nat;
  st_words : list string;
  st_section : option string;
}.

(** ** Names and values *)

Definition name_byte (c : ascii) : bool := is_ascii_alphanumeric c || Ascii.eqb c "_".

Definition uci_name (value : string) : Res string :=
  fail_if (String.eqb value "" || (64 <? len value)%N || negb (all_bytes name_byte value))
    "uci-edit-name-invalid" ≫= λ _, mret value.

(** [value.chars().any(char::is_control)]: the C0 controls, DEL, and the C1 controls, which
    UTF-8 writes as [C2 80] to [C2 9F]. *)
Fixpoint any_control (s : string) : bool :=
  match s with
  | "" => false
  | String a r =>
      (byte a <? 32)%N || (byte a =? 127)%N
      || match r with
         | String b _ => (byte a =? 194)%N && in_range 128 159 b
         | "" => false
         end
      || any_control r
  end.

(** [value.replace('\'', "'\\''")] *)
Fixpoint escape_quotes (s : string) : string :=
  match s with
  | "" => ""
  | String c r => if Ascii.eqb c "'" then "'\''" +:+ escape_quotes r else String c (escape_quotes r)
  end.

Definition uci_quote (value : string) : Res string :=
  fail_if ((4096 <? len value)%N || any_control value) "uci-edit-value-invalid" ≫= λ _,
  mret ("'" +:+ escape_quotes value +:+ "'").

(** ** Statements *)

Definition is_ascii_whitespace (c : ascii) : bool :=
  (byte c =? 32)%N || (byte c =? 9)%N || (byte c =? 10)%N || (byte c =? 12)%N || (byte c =? 13)%N.

Inductive Quoted := Unquoted | SingleQuoted | DoubleQuoted.

(** [output.push(byte)] before the rest of the token. *)
Definition push (c : ascii) (r : Res (string * string)) : Res (string * string) :=
  '(word, rest) ← r; mret (String c word, rest).

(** The loop of [token]: the rest of the token and what follows it. *)
Fixpoint token_go (quoted : Quoted) (input : string) : Res (string * string) :=
  match input with
  | "" => match quoted with Unquoted => Ok ("", "") | _ => Err "uci-edit-token-invalid" end
  | String c rest =>
      match quoted with
      | SingleQuoted =>
          if Ascii.eqb c "'" then token_go Unquoted rest else push c (token_go SingleQuoted rest)
      | _ =>
          let escaped :=
            if Ascii.eqb c "\" then
              match rest with
              | "" => Err "uci-edit-dangling-escape"
              | String next rest =>
                  if Ascii.eqb next nl then token_go quoted rest
                  else match rest with
                       | String lf rest' =>
                           if Ascii.eqb next cr && Ascii.eqb lf nl then token_go quoted rest'
                           else push next (token_go quoted rest)
                       | "" => push next (token_go quoted rest)
                       end
              end
            else push c (token_go quoted rest) in
          match quoted with
          | DoubleQuoted => if Ascii.eqb c "034" then token_go Unquoted rest else escaped
          | _ =>
              if is_ascii_whitespace c || Ascii.eqb c ";" || Ascii.eqb c "#" then Ok ("", input)
              else if Ascii.eqb c "'" then token_go SingleQuoted rest
              else if Ascii.eqb c "034" then token_go DoubleQuoted rest
              else escaped
          end
      end
  end.

Definition uci_token (input : string) : Res (string * string) :=
  '(word, rest) ← token_go Unquoted input;
  fail_if (String.length rest =? String.length input)%nat "uci-edit-token-invalid" ≫= λ _,
  mret (word, rest).

(** White space within a line. *)
Fixpoint skip_blanks (s : string) : string :=
  match s with
  | String c r => if is_ascii_whitespace c && negb (Ascii.eqb c nl) then skip_blanks r else s
  | "" => ""
  end.

(** A comment, up to the end of its line. *)
Fixpoint skip_comment (s : string) : string :=
  match s with
  | String c r => if Ascii.eqb c nl then s else skip_comment r
  | "" => ""
  end.

(** [if position < input.len() { position += 1 }] *)
Definition advance (s : string) : string := match s with String _ r => r | "" => "" end.

(** After a word: what follows the statement, if it ends here. *)
Definition statement_end (s : string) : option string :=
  match skip_blanks s with
  | "" => Some ""
  | String c _ as s =>
      if Ascii.eqb c "#" then Some (advance (skip_comment s))
      else if Ascii.eqb c ";" || Ascii.eqb c nl then Some (advance s)
      else None
  end.

(** The words of a statement, what follows the last word, and what follows the statement. *)
Fixpoint statement_words (remaining : nat) (input : string) : Res (list string * string * string) :=
  match remaining with
  | O => Err "uci-edit-too-many-tokens"
  | S remaining =>
      '(word, rest) ← uci_token input;
      match statement_end rest with
      | Some next => mret ([word], rest, next)
      | None =>
          '(words, token_end, next) ← statement_words remaining (skip_blanks rest);
          mret (word :: words, token_end, next)
      end
  end.

(** libuci's one-letter commands. *)
Definition command_word (w : string) : string :=
  if String.eqb w "p" then "package" else if String.eqb w "c" then "config"
  else if String.eqb w "o" then "option" else if String.eqb w "l" then "list" else w.
Definition normalize_words (words : list string) : list string :=
  match words with w :: ws => command_word w :: ws | [] => [] end.

(** The sections seen so far, with their types, and the current one. *)
Definition Scope := (gmap string string * option string)%type.

(** The [match] on the words of a statement. *)
Definition enter (scope : Scope) (words : list string) : Res Scope :=
  let '(sections, current) := scope in
  match words with
  | command :: arguments =>
      if String.eqb command "package" && (length arguments =? 1)%nat then Ok scope
      else if String.eqb command "config" then
        match arguments with
        | [_] => Ok (sections, None)
        | [kind; section] =>
            if String.eqb section "" then Ok (sections, None)
            else
              section ← uci_name section;
              fail_if (negb (utf8_valid kind)) "uci-edit-kind-invalid" ≫= λ _,
              fail_if (is_some_and (λ previous, negb (String.eqb previous kind))
                         (sections !! section)) "uci-edit-section-type-ambiguous" ≫= λ _,
              mret (<[ section := kind ]> sections, Some section)
        | _ => Err "uci-edit-command-invalid"
        end
      else if String.eqb command "option" || String.eqb command "list" then
        match arguments with
        | [option] | [option; _] => uci_name option ≫= λ _, Ok scope
        | _ => Err "uci-edit-command-invalid"
        end
      else Err "uci-edit-command-invalid"
  | [] => Err "uci-edit-command-invalid"
  end.

(** What separates statements: white space, semicolons and comments. *)
Fixpoint skip_gap (comment : bool) (s : string) : string :=
  match s with
  | "" => ""
  | String c r =>
      if comment then skip_gap (negb (Ascii.eqb c nl)) r
      else if is_ascii_whitespace c || Ascii.eqb c ";" then skip_gap false r
      else if Ascii.eqb c "#" then skip_gap true r
      else s
  end.

(** The loop of [statements], [total] the length of the whole input and [count] the
    number of statements read. Every statement takes at least one byte. *)
Fixpoint scan (fuel total count : nat) (scope : Scope) (input : string)
    : Res (list Statement * gmap string string) :=
  match fuel with
  | O => Err "out of fuel"
  | S fuel =>
      match skip_gap false input with
      | "" => mret ([], scope.1)
      | rest =>
          fail_if (count =? MAX_STATEMENTS)%nat "uci-edit-statement-limit" ≫= λ _,
          '(words, token_end, next) ← statement_words 4 rest;
          let words := normalize_words words in
          scope ← enter scope words;
          '(statements, sections) ← scan fuel total (S count) scope next;
          mret ({| st_start := total - String.length rest; st_end := total - String.length next;
                   st_token_end := total - String.length token_end; st_words := words;
                   st_section := scope.2 |} :: statements, sections)
      end
  end.

Definition statements (input : string) : Res (list Statement * gmap string string) :=
  fail_if ((MAX_UCI_BYTES <? len input)%N || contains "000" input) "uci-edit-input-invalid" ≫= λ _,
  scan (S (String.length input)) (String.length input) 0 (∅, None) input.

(** ** Patches *)

Definition empty_patch : SectionPatch := {| sp_add := None; sp_delete := false; sp_options := ∅ |}.

Definition edit_section (e : Edit) : string :=
  match e with
  | AddSection section _ | DeleteSection section | SetOption section _ _ | DeleteOption section _ =>
      section
  end.

Definition edit_fields (e : Edit) : list string :=
  match e with
  | AddSection section kind => [section; kind]
  | DeleteSection section => [section]
  | SetOption section option value => [section; option; value]
  | DeleteOption section option => [section; option]
  end.

(** The sum of the lengths of the fields, bounded at every step. *)
Fixpoint payload (edit_bytes : N) (fields : list string) : Res unit :=
  match fields with
  | [] => mret tt
  | field :: fields =>
      let edit_bytes := (edit_bytes + len field)%N in
      fail_if (MAX_UCI_BYTES <? edit_bytes)%N "uci-edit-payload-limit" ≫= λ _,
      payload edit_bytes fields
  end.

Section patches.
Context (sections : gmap string string).

Definition known (section : string) : bool := is_some (sections !! section).

(** One edit, on the patch of its section. *)
Definition patch_edit (e : Edit) (patch : SectionPatch) : Res SectionPatch :=
  let targets_section :=
    negb patch.(sp_delete) && (known (edit_section e) || is_some patch.(sp_add)) in
  match e with
  | AddSection section kind =>
      uci_name kind ≫= λ _,
      fail_if (known section && negb patch.(sp_delete) || is_some patch.(sp_add))
        "uci-edit-add-section-already-exists" ≫= λ _,
      mret {| sp_add := Some kind; sp_delete := false; sp_options := ∅ |}
  | DeleteSection section =>
      fail_if (negb (known section) && negb (is_some patch.(sp_add)) && negb patch.(sp_delete))
        "uci-edit-target-requires-a-named-section" ≫= λ _,
      mret {| sp_add := None; sp_delete := true; sp_options := ∅ |}
  | SetOption section option value =>
      uci_name option ≫= λ _,
      fail_if (negb targets_section) "uci-edit-target-requires-a-named-section" ≫= λ _,
      uci_quote value ≫= λ _,
      mret {| sp_add := patch.(sp_add); sp_delete := patch.(sp_delete);
              sp_options := <[ option := Some value ]> patch.(sp_options) |}
  | DeleteOption section option =>
      uci_name option ≫= λ _,
      fail_if (negb targets_section) "uci-edit-target-requires-a-named-section" ≫= λ _,
      mret {| sp_add := patch.(sp_add); sp_delete := patch.(sp_delete);
              sp_options := <[ option := None ]> patch.(sp_options) |}
  end.

Fixpoint collect (patches : gmap string SectionPatch) (edits : list Edit)
    : Res (gmap string SectionPatch) :=
  match edits with
  | [] => mret patches
  | e :: edits =>
      section ← uci_name (edit_section e);
      patch ← patch_edit e (default empty_patch (patches !! section));
      collect (<[ section := patch ]> patches) edits
  end.
End patches.

(** ** Replacements *)

(** A range of the input and what replaces it. *)
Definition Replacement := (nat * nat * string)%type.

(** The entries of a [BTreeMap], in the order of their keys. *)
Definition key_le {A} (a b : string * A) : Prop := str_ltb b.1 a.1 = false.
#[export] Instance key_le_dec {A} : RelDecision (@key_le A).
Proof. intros a b. unfold key_le. apply _. Defined.
Definition entries {A} (m : gmap string A) : list (string * A) := merge_sort key_le (map_to_list m).

Definition is_option (words : list string) : bool :=
  match words with command :: _ => String.eqb command "option" || String.eqb command "list" | [] => false end.
Definition is_package (words : list string) : bool :=
  match words with command :: _ => String.eqb command "package" | [] => false end.

(** The text of an option. *)
Definition option_text (key value : string) : Res string :=
  quoted ← uci_quote value; mret ("option " +:+ key +:+ " " +:+ quoted).

Section render.
Context (original : string).

(** [if bytes.is_empty() && at != 0 && original[at - 1] != b'\n' { bytes.push(b'\n') }] *)
Definition fresh_line (at_ : nat) (bytes : string) : string :=
  if String.eqb bytes "" && negb (at_ =? 0)%nat
     && negb (bool_decide (String.get (at_ - 1) original = Some nl))
  then str1 nl else bytes.

(** The statements of a patched section: the replacements, the options seen and the end of
    the last statement. *)
Fixpoint section_pass (section : string) (patch : SectionPatch) (seen : gset string)
    (last : option nat) (statements : list Statement)
    : Res (list Replacement * gset string * option nat) :=
  match statements with
  | [] => mret ([], seen, last)
  | s :: statements =>
      if negb (bool_decide (s.(st_section) = Some section)) || is_package s.(st_words) then
        section_pass section patch seen last statements
      else
        let last := Some s.(st_end) in
        if patch.(sp_delete) || is_some patch.(sp_add) then
          '(replacements, seen, last) ← section_pass section patch seen last statements;
          mret ((s.(st_start), s.(st_end), "") :: replacements, seen, last)
        else if negb (is_option s.(st_words)) then section_pass section patch seen last statements
        else
          key ← uci_name (nth 1 s.(st_words) "");
          match patch.(sp_options) !! key with
          | None => section_pass section patch seen last statements
          | Some value =>
              match value with
              | Some value =>
                  if bool_decide (key ∈ seen) then
                    '(replacements, seen, last) ← section_pass section patch seen last statements;
                    mret ((s.(st_start), s.(st_end), "") :: replacements, seen, last)
                  else
                    text ← option_text key value;
                    '(replacements, seen, last) ←
                      section_pass section patch ({[ key ]} ∪ seen) last statements;
                    mret ((s.(st_start), s.(st_token_end), text) :: replacements, seen, last)
              | None =>
                  '(replacements, seen, last) ← section_pass section patch seen last statements;
                  mret ((s.(st_start), s.(st_end), "") :: replacements, seen, last)
              end
          end
  end.

(** The options no statement of the section has set. *)
Fixpoint insert_missing (seen : gset string) (last : option nat)
    (options : list (string * option string)) (insertions : gmap nat string)
    : Res (gmap nat string) :=
  match options with
  | [] => mret insertions
  | (key, Some value) :: options =>
      if bool_decide (key ∈ seen) then insert_missing seen last options insertions
      else
        at_ ← ok_or last "uci-edit-target-requires-a-named-section";
        text ← option_text key value;
        let bytes := fresh_line at_ (default "" (insertions !! at_)) in
        insert_missing seen last options
          (<[ at_ := bytes +:+ str1 tab +:+ text +:+ str1 nl ]> insertions)
  | (_, None) :: options => insert_missing seen last options insertions
  end.

(** The first loop over the patches. *)
Fixpoint patch_sections (statements : list Statement) (patches : list (string * SectionPatch))
    (insertions : gmap nat string) : Res (list Replacement * gmap nat string) :=
  match patches with
  | [] => mret ([], insertions)
  | (section, patch) :: patches =>
      '(replacements, seen, last) ← section_pass section patch ∅ None statements;
      insertions ←
        (if negb patch.(sp_delete) && negb (is_some patch.(sp_add)) then
           insert_missing seen last (entries patch.(sp_options)) insertions
         else mret insertions);
      '(more, insertions) ← patch_sections statements patches insertions;
      mret (replacements ++ more, insertions)%list
  end.

(** The options of a new section. *)
Fixpoint new_options (options : list (string * option string)) : Res string :=
  match options with
  | [] => mret ""
  | (key, Some value) :: options =>
      text ← option_text key value;
      rest ← new_options options;
      mret (str1 tab +:+ text +:+ str1 nl +:+ rest)
  | (_, None) :: options => new_options options
  end.

(** The second loop: new sections go to the end. *)
Fixpoint add_sections (patches : list (string * SectionPatch)) (insertions : gmap nat string)
    : Res (gmap nat string) :=
  match patches with
  | [] => mret insertions
  | (section, patch) :: patches =>
      match patch.(sp_add) with
      | Some kind =>
          let at_ := String.length original in
          let bytes := fresh_line at_ (default "" (insertions !! at_)) in
          options ← new_options (entries patch.(sp_options));
          add_sections patches
            (<[ at_ := bytes +:+ "config " +:+ kind +:+ " '" +:+ section +:+ "'" +:+ str1 nl
                       +:+ options ]> insertions)
      | None => add_sections patches insertions
      end
  end.

(** [replacements.sort_by_key(|(range, _)| (range.start, range.end))] *)
Definition range_le (a b : Replacement) : Prop :=
  (a.1.1 < b.1.1 ∨ a.1.1 = b.1.1 ∧ a.1.2 ≤ b.1.2)%nat.
#[export] Instance range_le_dec : RelDecision range_le.
Proof. intros a b. unfold range_le. apply _. Defined.

(** The last loop. *)
Fixpoint splice (position : nat) (output : string) (replacements : list Replacement) : Res string :=
  match replacements with
  | [] =>
      let output :=
        output +:+ String.substring position (String.length original - position) original in
      fail_if (MAX_UCI_BYTES <? len output)%N "uci-edit-output-too-large" ≫= λ _, mret output
  | (start, end_, replacement) :: replacements =>
      fail_if (start <? position)%nat "uci-edit-overlapping-ranges" ≫= λ _,
      let output :=
        output +:+ String.substring position (start - position) original +:+ replacement in
      fail_if (MAX_UCI_BYTES <? len output)%N "uci-edit-output-too-large" ≫= λ _,
      splice end_ output replacements
  end.

Definition uci_render (edits : list Edit) : Res string :=
  fail_if (MAX_EDITS <? length edits)%nat "uci-edit-count-limit" ≫= λ _,
  payload 0 (concat (edit_fields <$> edits)) ≫= λ _,
  '(statements, sections) ← statements original;
  patches ← collect sections ∅ edits;
  '(replacements, insertions) ← patch_sections statements (entries patches) ∅;
  insertions ← add_sections (entries patches) insertions;
  splice 0 "" (merge_sort range_le
    (replacements ++ ((λ '(at_, bytes), (at_, at_, bytes)) <$> map_to_list insertions))%list).
End render.

(** ** Trying it *)

Definition text_lines (ls : list string) : string := String.concat (str1 nl) ls.

Example render_sample :
  uci_render (text_lines ["# head"; "config sqm 'a' # keep"; " option x 1; list y 2"; "config sqm 'b'";
                          " option z 3"])
    [SetOption "a" "x" "it's"; DeleteOption "a" "y"; SetOption "a" "n" "5"; DeleteSection "b";
     AddSection "c" "queue"; SetOption "c" "o" "v"]
  = Ok (text_lines ["# head"; "config sqm 'a' # keep"; " option x 'it'\''s'; " +:+ str1 tab +:+ "option n '5'";
                    " "; "config queue 'c'"; str1 tab +:+ "option o 'v'"; ""]).
Proof. by vm_compute. Qed.
