(* ===== verification/UciLexing.v ===== *)
(** * Reading UCI files piece by piece

    What the scanner of [UciEdits] reads off a piece of text, whatever follows it: words,
    the ends of statements and the gaps between them. A file is read exactly as the
    sequence of its pieces, which is what makes it possible to replace one of them. *)

From S2P Require Import Prelude RustStr SchedRecord UciEdits.
Local Open Scope string_scope.

(** ** Words *)

(** A byte that ends an unquoted word. *)
Definition delimiter (c : ascii) : bool :=
  is_ascii_whitespace c || Ascii.eqb c ";" || Ascii.eqb c "#".
(** Nothing follows, or a byte that ends a word. *)
Definition delimited (s : string) : bool := match s with String c _ => delimiter c | "" => true end.

(** A byte that stands for itself. *)
Definition plain_byte (q : Quoted) (c : ascii) : bool :=
  negb (Ascii.eqb c "\") &&
  match q with
  | SingleQuoted => false
  | DoubleQuoted => negb (Ascii.eqb c "034")
  | Unquoted => negb (delimiter c) && negb (Ascii.eqb c "'") && negb (Ascii.eqb c "034")
  end.

Definition head_is (c : ascii) (s : string) : bool :=
  match s with String d _ => Ascii.eqb d c | "" => false end.

(** From state [q], the text [b] is the rest of a word [w]. *)
Inductive word_text : Quoted → string → string → Prop :=
  | wt_end : word_text Unquoted "" ""
  | wt_single b w : word_text SingleQuoted b w → word_text Unquoted (String "'" b) w
  | wt_double b w : word_text DoubleQuoted b w → word_text Unquoted (String "034" b) w
  | wt_single_end b w : word_text Unquoted b w → word_text SingleQuoted (String "'" b) w
  | wt_double_end b w : word_text Unquoted b w → word_text DoubleQuoted (String "034" b) w
  | wt_literal c b w : Ascii.eqb c "'" = false →
      word_text SingleQuoted b w → word_text SingleQuoted (String c b) (String c w)
  | wt_plain q c b w : plain_byte q c = true → word_text q b w → word_text q (String c b) (String c w)
  | wt_joined q b w : q ≠ SingleQuoted → word_text q b w → word_text q (String "\" (String nl b)) w
  | wt_joined_cr q b w : q ≠ SingleQuoted →
      word_text q b w → word_text q (String "\" (String cr (String nl b))) w
  | wt_escaped q c b w : q ≠ SingleQuoted → Ascii.eqb c nl = false →
      Ascii.eqb c cr && head_is nl b = false →
      word_text q b w → word_text q (String "\" (String c b)) (String c w).

(** The text ends in an escaped carriage return: a newline after it would join lines. *)
Fixpoint ends_cr (b : string) : bool :=
  match b with
  | String a (String c "") => Ascii.eqb a "\" && Ascii.eqb c cr
  | String _ r => ends_cr r
  | "" => false
  end.
Definition may_follow (b te : string) : bool := delimited te && negb (ends_cr b && head_is nl te).

Lemma ends_cr_tail c b : ends_cr (String c b) = false → ends_cr b = false.
Proof. destruct b as [| d [| e r]]; done. Qed.

Lemma may_follow_tail c b te : may_follow (String c b) te = true → may_follow b te = true.
Proof.
  unfold may_follow. rewrite !andb_true_iff, !negb_true_iff, !andb_false_iff.
  intros [? [H%ends_cr_tail | ?]]; auto.
Qed.

Lemma quote_not_delimiter : delimiter "'" = false ∧ delimiter "034" = false ∧ delimiter "\" = false.
Proof. done. Qed.

Lemma word_text_read q b w te :
  word_text q b w → may_follow b te = true → token_go q (b +:+ te) = Ok (w, te).
Proof.
  intros H. induction H; intros Hf; cbn [String.append];
    try (pose proof Hf as Hf'; repeat apply may_follow_tail in Hf'; specialize (IHword_text Hf')).
  - unfold may_follow in Hf. apply andb_true_iff in Hf as [Hd _]. destruct te as [| c te]; [done |].
    cbn [token_go]. cbn [delimited] in Hd. unfold delimiter in Hd. by rewrite Hd.
  - exact IHword_text.
  - exact IHword_text.
  - exact IHword_text.
  - exact IHword_text.
  - cbn [token_go]. by rewrite H, IHword_text.
  - unfold plain_byte in H. apply andb_true_iff in H as [He H]. apply negb_true_iff in He.
    cbn [token_go]. rewrite He, IHword_text. destruct q; [| done |].
    + apply andb_true_iff in H as [[Hd Hq]%andb_true_iff Hq']. apply negb_true_iff in Hd, Hq, Hq'.
      unfold delimiter in Hd. by rewrite Hd, Hq, Hq'.
    + apply negb_true_iff in H. by rewrite H.
  - by destruct q.
  - by destruct q.
  - assert (E : match b +:+ te with
                | String lf rest' => if Ascii.eqb c cr && Ascii.eqb lf nl then token_go q rest'
                                     else push c (token_go q (b +:+ te))
                | "" => push c (token_go q (b +:+ te))
                end = Ok (String c w, te)).
    { rewrite IHword_text. destruct b as [| d b].
      - destruct te as [| d te]; [done |]. cbn [String.append].
        apply andb_true_iff in Hf as [_ Hf]. apply negb_true_iff in Hf.
        change (ends_cr _) with (Ascii.eqb c cr) in Hf. change (head_is nl _) with (Ascii.eqb d nl) in Hf.
        by rewrite Hf.
      - change (head_is nl _) with (Ascii.eqb d nl) in H1. cbn [String.append]. by rewrite H1. }
    destruct q; [| done |]; cbn [token_go]; rewrite H0; exact E.
Qed.

(** A word does not end in a bare carriage return. *)
Lemma word_text_not_cr q b w : word_text q b w → b ≠ str1 cr.
Proof.
  intros H E. subst b. inversion H; subst; try done.
  - match goal with H : word_text _ "" _ |- _ => by inversion H end.
  - match goal with H : word_text ?q "" _ |- _ => by inversion H; subst end.
Qed.

Lemma ends_cr_word q c b w : word_text q b w → ends_cr (String c b) = ends_cr b.
Proof.
  intros H%word_text_not_cr. destruct b as [| d [| e b]]; try done.
  change (ends_cr (String c (String d ""))) with (Ascii.eqb c "\" && Ascii.eqb d cr).
  destruct (Ascii.eqb_spec d cr) as [-> |]; [done |]. by rewrite andb_false_r.
Qed.

Lemma may_follow_word q c b w te : word_text q b w → may_follow b te = true → may_follow (String c b) te = true.
Proof. intros H. unfold may_follow. by rewrite (ends_cr_word q c b w H). Qed.

Lemma may_follow_escape q c b w te :
  word_text q b w → Ascii.eqb c cr && head_is nl (b +:+ te) = false → may_follow b te = true →
  may_follow (String "\" (String c b)) te = true.
Proof.
  intros H Hc Hf. unfold may_follow in *. apply andb_true_iff in Hf as [Hd Hf]. rewrite Hd.
  destruct b as [| d b].
  - change (ends_cr (String "\" (String c ""))) with (Ascii.eqb c cr). cbn [String.append] in Hc.
    by rewrite Hc.
  - change (ends_cr (String "\" (String c (String d b)))) with (ends_cr (String c (String d b))).
    by rewrite (ends_cr_word _ _ _ _ H).
Qed.

Lemma push_ok c r w te : push c r = Ok (w, te) → ∃ w', w = String c w' ∧ r = Ok (w', te).
Proof. unfold push. intros ([w' te'] & -> & H)%bind_ok_inv. injection H as <- <-. by exists w'. Qed.

(** Whatever is read as a word is the text of one. *)
Lemma read_word_text n q input w te :
  (String.length input ≤ n)%nat → token_go q input = Ok (w, te) →
  ∃ b, input = b +:+ te ∧ word_text q b w ∧ may_follow b te = true.
Proof.
  revert q input w te. induction n as [| n IH]; intros q [| c input] w te Hn H; cbn in Hn; try lia;
    try (destruct q; [| done | done]; injection H as <- <-; exists ""; split_and?; [done | constructor | done]).
  assert (Hesc : q ≠ SingleQuoted → Ascii.eqb c "\" = true ∨ plain_byte q c = true →
    (if Ascii.eqb c "\" then
       match input with
       | "" => Err "uci-edit-dangling-escape"
       | String next rest =>
           if Ascii.eqb next nl then token_go q rest
           else match rest with
                | String lf rest' =>
                    if Ascii.eqb next cr && Ascii.eqb lf nl then token_go q rest'
                    else push next (token_go q rest)
                | "" => push next (token_go q rest)
                end
       end
     else push c (token_go q input)) = Ok (w, te) →
    ∃ b, String c input = b +:+ te ∧ word_text q b w ∧ may_follow b te = true).
  { intros Hq Hp He. destruct (Ascii.eqb_spec c "\") as [-> | Hc].
    - destruct input as [| d rest]; [done |]. cbn in Hn. destruct (Ascii.eqb d nl) eqn:Ed.
      + apply Ascii.eqb_eq in Ed as ->. apply IH in He as (b & -> & Hb & Hf); [| lia].
        exists (String "\" (String nl b)). split_and?; [done | by constructor |].
        by eapply may_follow_escape.
      + assert (Hpush : push d (token_go q rest) = Ok (w, te) → Ascii.eqb d cr && head_is nl rest = false →
          ∃ b, String "\" (String d rest) = b +:+ te ∧ word_text q b w ∧ may_follow b te = true).
        { intros (w' & -> & Ht)%push_ok Hcr. apply IH in Ht as (b & -> & Hb & Hf); [| lia].
          exists (String "\" (String d b)). split_and?; [done | | by eapply may_follow_escape].
          apply wt_escaped; [done | done | | done]. destruct b; [by rewrite andb_false_r | done]. }
        destruct rest as [| lf rest]; [by apply Hpush; [| rewrite andb_false_r] |].
        destruct (Ascii.eqb d cr && Ascii.eqb lf nl) eqn:Ecr; [| by apply Hpush].
        apply andb_true_iff in Ecr as [->%Ascii.eqb_eq ->%Ascii.eqb_eq]. cbn in Hn.
        apply IH in He as (b & -> & Hb & Hf); [| lia].
        exists (String "\" (String cr (String nl b))). split_and?; [done | by constructor |].
        unfold may_follow in *. change (ends_cr (String "\" (String cr (String nl b)))) with (ends_cr (String cr (String nl b))).
        replace (ends_cr (String cr (String nl b))) with (ends_cr b); [done |].
        rewrite <- (ends_cr_word _ nl b w Hb). by destruct b.
    - destruct Hp as [? | Hp]; [done |]. apply push_ok in He as (w' & -> & He).
      apply IH in He as (b & -> & Hb & Hf); [| lia].
      exists (String c b). split_and?; [done | by constructor | by eapply may_follow_word]. }
  assert (Hquote : ∀ q', (∀ b, word_text q' b w → word_text q (String c b) w) →
    token_go q' input = Ok (w, te) →
    ∃ b, String c input = b +:+ te ∧ word_text q b w ∧ may_follow b te = true).
  { intros q' Hmk (b & -> & Hb & Hf)%IH; [| lia].
    exists (String c b). split_and?; [done | by apply Hmk | by eapply may_follow_word]. }
  destruct q; cbn [token_go] in H.
  - destruct (is_ascii_whitespace c || Ascii.eqb c ";" || Ascii.eqb c "#") eqn:Ed.
    { injection H as <- <-. exists "". split_and?; [done | constructor |].
      unfold may_follow. cbn [delimited ends_cr]. unfold delimiter. by rewrite Ed. }
    destruct (Ascii.eqb c "'") eqn:E1.
    { apply Ascii.eqb_eq in E1 as ->. apply (Hquote SingleQuoted); [intros ?; apply wt_single | done]. }
    destruct (Ascii.eqb c "034") eqn:E2.
    { apply Ascii.eqb_eq in E2 as ->. apply (Hquote DoubleQuoted); [intros ?; apply wt_double | done]. }
    apply Hesc; [done | | exact H]. unfold plain_byte, delimiter. rewrite Ed, E1, E2.
    destruct (Ascii.eqb c "\"); auto.
  - destruct (Ascii.eqb c "'") eqn:E1.
    { apply Ascii.eqb_eq in E1 as ->. apply (Hquote Unquoted); [intros ?; apply wt_single_end | done]. }
    apply push_ok in H as (w' & -> & H). apply IH in H as (b & -> & Hb & Hf); [| lia].
    exists (String c b). split_and?; [done | by constructor | by eapply may_follow_word].
  - destruct (Ascii.eqb c "034") eqn:E2.
    { apply Ascii.eqb_eq in E2 as ->. apply (Hquote Unquoted); [intros ?; apply wt_double_end | done]. }
    apply Hesc; [done | | exact H]. unfold plain_byte. rewrite E2. destruct (Ascii.eqb c "\"); auto.
Qed.

(** ** One word *)

(** A nonempty word starts with no delimiter. *)
Lemma word_starts b w : word_text Unquoted b w → b ≠ "" → ∃ c r, b = String c r ∧ delimiter c = false.
Proof.
  intros H Hb. inversion H; subst; try done; try by eexists _, _.
  eexists _, _. split; [done |]. unfold plain_byte in *.
  match goal with H : _ && _ = true |- _ => apply andb_true_iff in H as [_ H] end.
  apply andb_true_iff in H0 as [[?%negb_true_iff _]%andb_true_iff _]. done.
Qed.

Lemma uci_token_read b w te :
  word_text Unquoted b w → b ≠ "" → may_follow b te = true → uci_token (b +:+ te) = Ok (w, te).
Proof.
  intros Hw Hb Hf. unfold uci_token. rewrite (word_text_read _ _ _ _ Hw Hf). cbn [mbind result_bind].
  rewrite length_append. destruct b; [done |].
  replace (_ =? _)%nat with false by (symmetry; apply Nat.eqb_neq; cbn; lia). done.
Qed.

Lemma uci_token_inv input w te : uci_token input = Ok (w, te) →
  ∃ b, input = b +:+ te ∧ word_text Unquoted b w ∧ b ≠ "" ∧ may_follow b te = true.
Proof.
  unfold uci_token. intros ([w' te'] & H & H')%bind_ok_inv. apply then_ok in H' as [Hl H'].
  injection H' as -> ->. destruct (read_word_text _ _ _ _ _ (le_n _) H) as (b & -> & Hw & Hf).
  exists b. split_and?; [done | done | | done]. intros ->.
  cbn [String.append] in Hl. by rewrite Nat.eqb_refl in Hl.
Qed.

(** ** The end of a statement *)

Definition blank (c : ascii) : bool := is_ascii_whitespace c && negb (Ascii.eqb c nl).

Lemma skip_blanks_append s r : all_bytes blank s = true → skip_blanks (s +:+ r) = skip_blanks r.
Proof.
  induction s as [| c s IH]; [done |]. cbn [all_bytes]. intros [Hc Hs]%andb_true_iff.
  cbn [String.append skip_blanks]. unfold blank in Hc. rewrite Hc. by apply IH.
Qed.

Lemma skip_blanks_split s : ∃ b, s = b +:+ skip_blanks s ∧ all_bytes blank b = true.
Proof.
  induction s as [| c s (b & E & Hb)]; [by exists "" |]. cbn [skip_blanks].
  destruct (_ && _) eqn:Ec; [| by exists ""].
  exists (String c b). cbn [String.append all_bytes]. rewrite <- E, Hb. unfold blank. by rewrite Ec.
Qed.

Lemma skip_comment_split s :
  ∃ b, s = b +:+ skip_comment s ∧ contains nl b = false ∧ (skip_comment s = "" ∨ ∃ r, skip_comment s = String nl r).
Proof.
  induction s as [| c s (b & E & Hb & Hr)]; [exists ""; auto |]. cbn [skip_comment].
  destruct (Ascii.eqb_spec c nl) as [-> | Hc]; [exists ""; eauto |].
  exists (String c b). cbn [String.append]. rewrite <- E, contains_cons, Hb, orb_false_r.
  split; [done | split; [| done]]. destruct (Ascii.eqb_spec nl c); congruence.
Qed.

Lemma skip_comment_append b r : contains nl b = false → skip_comment (b +:+ String nl r) = String nl r.
Proof.
  induction b as [| c b IH]; [done |]. rewrite contains_cons. intros [Hc Hb]%orb_false_iff.
  cbn [String.append skip_comment]. rewrite Ascii.eqb_sym, Hc. by apply IH.
Qed.

(** The text after the words ends the statement, whatever follows ... *)
Definition closes (tail : string) : Prop :=
  tail ≠ "" ∧ ∀ rest, statement_end (tail +:+ rest) = Some rest.
(** ... or the file does, or a newline. *)
Definition ends_line (tail : string) : Prop :=
  statement_end tail = Some "" ∧ (∀ rest, statement_end (tail +:+ String nl rest) = Some rest)
  ∧ contains nl tail = false.

Lemma statement_end_blanks b s : all_bytes blank b = true → statement_end (b +:+ s) = statement_end s.
Proof. intros H. unfold statement_end. by rewrite skip_blanks_append. Qed.

Lemma blanks_one_line b : all_bytes blank b = true → contains nl b = false.
Proof. intros H. by eapply contains_class. Qed.

Lemma append_nonempty a b : b ≠ "" → a +:+ b ≠ "".
Proof. destruct a; [done | by destruct b]. Qed.

Lemma statement_end_comment s : statement_end (String "#" s) = Some (advance (skip_comment (String "#" s))).
Proof. done. Qed.

Lemma statement_end_split te next : statement_end te = Some next →
  ∃ tail, te = tail +:+ next ∧ (closes tail ∨ next = "" ∧ ends_line tail).
Proof.
  intros H. destruct (skip_blanks_split te) as (b & E & Hb).
  assert (Hcl : ∀ tail, tail ≠ "" → (∀ rest, statement_end (tail +:+ rest) = Some rest) → closes (b +:+ tail)).
  { intros tail Hne Ht. split; [by apply append_nonempty |]. intros rest.
    by rewrite append_assoc, statement_end_blanks. }
  rewrite E, statement_end_blanks in H by done.
  assert (Hs : skip_blanks (skip_blanks te) = skip_blanks te).
  { rewrite E at 2. by rewrite skip_blanks_append. }
  rewrite E. clear E. revert H Hs. generalize (skip_blanks te). clear te. intros te H Hs.
  unfold statement_end in H. rewrite Hs in H. destruct te as [| c te].
  - injection H as <-. exists b. rewrite append_nil_r. split; [done |]. right. split; [done |].
    split; [| split]; [rewrite <- (append_nil_r b); by rewrite statement_end_blanks
      | intros rest; by rewrite statement_end_blanks | by apply blanks_one_line].
  - destruct (Ascii.eqb_spec c "#") as [-> | Hc].
    + injection H as <-. destruct (skip_comment_split (String "#" te)) as (k & Ek & Hk & Hr).
      change (skip_comment te) with (skip_comment (String "#" te)).
      destruct Hr as [Hr | [r Hr]]; rewrite Hr in *; cbn [advance].
      * rewrite append_nil_r in Ek. exists (b +:+ String "#" te). rewrite append_nil_r.
        split; [done |]. right. split; [done |]. split; [| split].
        -- rewrite statement_end_blanks by done. by rewrite statement_end_comment, Hr.
        -- intros rest. rewrite append_assoc, statement_end_blanks by done. cbn [String.append].
           rewrite statement_end_comment.
           change (String "#" (te +:+ String nl rest)) with (String "#" te +:+ String nl rest).
           by rewrite Ek, skip_comment_append.
        -- by rewrite Ek, contains_append, blanks_one_line, Hk.
      * exists (b +:+ k +:+ str1 nl). rewrite !append_assoc. cbn [str1 String.append].
        rewrite <- Ek. split; [done |]. left. apply Hcl; [by apply append_nonempty |].
        intros rest. rewrite append_assoc. cbn [str1 String.append].
        destruct k as [| d k]; [done |]. injection Ek as <- ->.
        cbn [String.append]. rewrite statement_end_comment.
        change (String "#" (k +:+ String nl rest)) with (String "#" k +:+ String nl rest).
        by rewrite skip_comment_append.
    + destruct (Ascii.eqb c ";" || Ascii.eqb c nl) eqn:Ee; [| done]. injection H as <-.
      exists (b +:+ str1 c). rewrite append_assoc. split; [done |]. left. apply Hcl; [done |].
      intros rest. unfold statement_end. cbn [str1 String.append] in *.
      assert (Hb' : is_ascii_whitespace c && negb (Ascii.eqb c nl) = false).
      { apply orb_true_iff in Ee as [->%Ascii.eqb_eq | ->%Ascii.eqb_eq]; done. }
      cbn [skip_blanks]. rewrite Hb'. apply Ascii.eqb_neq in Hc. by rewrite Hc, Ee.
Qed.

(** ** The words of a statement *)

(** The text of at most [n] words. *)
Inductive words_text : nat → string → list string → Prop :=
  | wts_last n b w : word_text Unquoted b w → b ≠ "" → words_text (S n) b [w]
  | wts_more n b w blanks body ws :
      word_text Unquoted b w → b ≠ "" → blanks ≠ "" → all_bytes blank blanks = true →
      words_text n body ws → words_text (S n) (b +:+ blanks +:+ body) (w :: ws).

Lemma words_start n b ws : words_text n b ws → ∃ c r, b = String c r ∧ delimiter c = false.
Proof.
  intros H. destruct H as [n b w Hw Hb | n b w blanks body ws Hw Hb _ _ _];
    destruct (word_starts b w Hw Hb) as (c & r & -> & Hc); [by exists c, r |].
  by exists c, (r +:+ blanks +:+ body).
Qed.

Lemma words_nonempty n b ws : words_text n b ws → b ≠ "".
Proof. intros (c & r & -> & _)%words_start. done. Qed.

(** Words do not end a statement, and no blank is skipped before them. *)
Lemma words_no_end n body ws te : words_text n body ws →
  skip_blanks (body +:+ te) = body +:+ te ∧ statement_end (body +:+ te) = None.
Proof.
  intros (c & r & -> & Hc)%words_start. unfold delimiter in Hc.
  apply orb_false_iff in Hc as [[Hw Hs]%orb_false_iff Hh].
  assert (E : skip_blanks (String c r +:+ te) = String c r +:+ te) by (cbn [String.append skip_blanks]; by rewrite Hw).
  split; [exact E |]. unfold statement_end. rewrite E. cbn [String.append]. rewrite Hh, Hs.
  destruct (Ascii.eqb_spec c nl) as [-> | _]; done.
Qed.

Lemma ends_cr_append a b : (2 ≤ String.length b)%nat → ends_cr (a +:+ b) = ends_cr b.
Proof.
  intros H. induction a as [| c a IH]; [done |]. rewrite <- IH. cbn [String.append].
  assert (Hl : (2 ≤ String.length (a +:+ b))%nat) by (rewrite length_append; lia).
  destruct (a +:+ b) as [| d [| e r]]; cbn in Hl; [lia | lia | done].
Qed.

Lemma blank_not_backslash c : blank c = true → Ascii.eqb c "\" = false.
Proof. intros H. destruct (Ascii.eqb_spec c "\") as [-> |]; [done |]. done. Qed.

(** Only the last word counts. *)
Lemma ends_cr_words b blanks body : blanks ≠ "" → all_bytes blank blanks = true → body ≠ "" →
  ends_cr (b +:+ blanks +:+ body) = ends_cr body.
Proof.
  intros Hb Ha Hn.
  assert (Hl : ∃ p c, blanks = p +:+ str1 c ∧ Ascii.eqb c "\" = false).
  { clear b Hn. induction blanks as [| c blanks IH]; [done |]. cbn in Ha. apply andb_true_iff in Ha as [Hc Ha].
    destruct blanks as [| d blanks]; [exists "", c; split; [done | by apply blank_not_backslash] |].
    destruct (IH ltac:(done) Ha) as (p & e & -> & He). by exists (String c p), e. }
  destruct Hl as (p & c & -> & Hc). rewrite !append_assoc, <- append_assoc. cbn [str1 String.append].
  destruct body as [| d body]; [done |].
  rewrite ends_cr_append by (cbn; lia). destruct body; [| done].
  change (Ascii.eqb c "\" && Ascii.eqb d cr = false). by rewrite Hc.
Qed.

Lemma may_follow_words b blanks body te : blanks ≠ "" → all_bytes blank blanks = true → body ≠ "" →
  may_follow (b +:+ blanks +:+ body) te = may_follow body te.
Proof. intros. unfold may_follow. by rewrite ends_cr_words. Qed.

Lemma may_follow_blanks b blanks r : blanks ≠ "" → all_bytes blank blanks = true →
  may_follow b (blanks +:+ r) = true.
Proof.
  intros Hb Ha. destruct blanks as [| c blanks]; [done |]. cbn in Ha. apply andb_true_iff in Ha as [Hc _].
  unfold may_follow, delimiter. cbn [String.append delimited head_is]. unfold blank in Hc.
  apply andb_true_iff in Hc as [Hw Hn]. apply negb_true_iff in Hn. unfold delimiter. rewrite Hw, Hn.
  by rewrite andb_false_r.
Qed.

Lemma statement_words_read n body ws te next :
  words_text n body ws → may_follow body te = true → statement_end te = Some next →
  statement_words n (body +:+ te) = Ok (ws, te, next).
Proof.
  intros H. induction H as [n b w Hw Hb | n b w blanks body ws Hw Hb Hne Ha Hws IH]; intros Hf He; cbn [statement_words].
  - rewrite (uci_token_read b w te) by done. cbn [mbind result_bind]. by rewrite He.
  - rewrite !append_assoc, (uci_token_read b w) by (done || by apply may_follow_blanks).
    cbn [mbind result_bind]. destruct (words_no_end _ _ _ te Hws) as [Hs Hn].
    rewrite statement_end_blanks, Hn, skip_blanks_append, Hs, IH;
      [done | | done | done | done].
    rewrite may_follow_words in Hf; [done | done | done | by eapply words_nonempty].
Qed.

Lemma statement_words_inv n input ws te next : statement_words n input = Ok (ws, te, next) →
  ∃ body, input = body +:+ te ∧ words_text n body ws ∧ may_follow body te = true ∧ statement_end te = Some next.
Proof.
  revert input ws. induction n as [| n IH]; intros input ws H; [done |]. cbn [statement_words] in H.
  apply bind_ok_inv in H as ([w rest] & Ht & H).
  apply uci_token_inv in Ht as (b & -> & Hw & Hb & Hf).
  destruct (statement_end rest) as [next' |] eqn:He.
  - apply ret_ok_inv in H as [= <- <- <-]. exists b. split_and?; [done | by constructor | done | done].
  - apply bind_ok_inv in H as ([[ws' te'] next'] & Hr & H). apply ret_ok_inv in H as [= <- <- <-].
    apply IH in Hr as (body & E & Hws & Hf' & He').
    destruct (skip_blanks_split rest) as (blanks & Er & Ha).
    assert (Hne : blanks ≠ "").
    { intros ->. cbn [String.append] in Er. rewrite E in Er.
      destruct (words_start _ _ _ Hws) as (c & r & -> & Hc). rewrite Er in Hf.
      unfold may_follow in Hf. cbn [String.append delimited] in Hf. by rewrite Hc in Hf. }
    exists (b +:+ blanks +:+ body). rewrite !append_assoc, <- E, <- Er.
    split_and?; [done | by constructor | | done].
    rewrite may_follow_words; [done | done | done | by eapply words_nonempty].
Qed.

(** ** Gaps *)

(** Reading a gap, from inside a comment or not: whether it ends inside one. *)
Fixpoint gap_run (comment : bool) (s : string) : option bool :=
  match s with
  | "" => Some comment
  | String c r =>
      if comment then gap_run (negb (Ascii.eqb c nl)) r
      else if is_ascii_whitespace c || Ascii.eqb c ";" then gap_run false r
      else if Ascii.eqb c "#" then gap_run true r
      else None
  end.

Lemma gap_run_append c a b : gap_run c (a +:+ b) = gap_run c a ≫= λ c', gap_run c' b.
Proof. revert c. induction a as [| d a IH]; intros c; [done |]. cbn. destruct c; repeat case_match; auto. Qed.

Lemma skip_gap_append c g c' s : gap_run c g = Some c' → skip_gap c (g +:+ s) = skip_gap c' s.
Proof.
  revert c. induction g as [| d g IH]; intros c; cbn; [by intros [= ->] |].
  destruct c; repeat case_match; auto; done.
Qed.

Lemma skip_gap_split c s : ∃ g c', s = g +:+ skip_gap c s ∧ gap_run c g = Some c'
  ∧ (skip_gap c s ≠ "" → c' = false).
Proof.
  revert c. induction s as [| d s IH]; intros c; [exists "", c; done |]. cbn [skip_gap].
  assert (Hmore : ∀ c2, (∀ g, gap_run c (String d g) = gap_run c2 g) →
    ∃ g c', String d s = g +:+ skip_gap c2 s ∧ gap_run c g = Some c' ∧ (skip_gap c2 s ≠ "" → c' = false)).
  { intros c2 Hd. destruct (IH c2) as (g & c' & E & Hg & Hc). exists (String d g), c'.
    split_and?; [by cbn; rewrite <- E | by rewrite Hd | done]. }
  destruct c; [by apply Hmore |].
  destruct (is_ascii_whitespace d || Ascii.eqb d ";") eqn:E1; [apply Hmore; intros g; cbn; by rewrite E1 |].
  destruct (Ascii.eqb d "#") eqn:E2; [apply Hmore; intros g; cbn; by rewrite E1, E2 |].
  exists "", false. done.
Qed.

Lemma skip_gap_all c g : is_Some (gap_run c g) → skip_gap c g = "".
Proof. intros [c' H]. rewrite <- (append_nil_r g). by rewrite (skip_gap_append _ _ _ _ H). Qed.

(** No comment goes on after a newline. *)
Lemma gap_run_newline c g : is_Some (gap_run c g) → gap_run c (g +:+ str1 nl) = Some false.
Proof. intros [c' H]. rewrite gap_run_append, H. by destruct c'. Qed.

Lemma words_not_gap n b ws te : words_text n b ws → skip_gap false (b +:+ te) = b +:+ te ∧ b +:+ te ≠ "".
Proof.
  intros (c & r & -> & Hc)%words_start. unfold delimiter in Hc.
  apply orb_false_iff in Hc as [Hws Hh]. cbn [String.append skip_gap]. by rewrite Hws, Hh.
Qed.

(** ** Segments *)

(** A statement with the gap before it; [sg_open] when only the end of the file ends it. *)
Record Segment := {
  sg_gap : string;
  sg_body : string;
  sg_tail : string;
  sg_words : list string;
  sg_open : bool;
}.

Definition segment_text (s : Segment) : string := s.(sg_gap) +:+ s.(sg_body) +:+ s.(sg_tail).
Fixpoint segments_text (ss : list Segment) : string :=
  match ss with [] => "" | s :: ss => segment_text s +:+ segments_text ss end.

Record segment_ok (s : Segment) : Prop := {
  so_gap : gap_run false s.(sg_gap) = Some false;
  so_words : ∃ ws, words_text 4 s.(sg_body) ws ∧ s.(sg_words) = normalize_words ws;
  so_follow : may_follow s.(sg_body) s.(sg_tail) = true;
  so_tail : if s.(sg_open) then ends_line s.(sg_tail) else closes s.(sg_tail);
}.

(** A file: statements, and the gap after the last one. *)
Inductive file_ok : list Segment → string → Prop :=
  | fo_end g : is_Some (gap_run false g) → file_ok [] g
  | fo_open s : segment_ok s → s.(sg_open) = true → file_ok [s] ""
  | fo_cons s ss g : segment_ok s → s.(sg_open) = false → file_ok ss g → file_ok (s :: ss) g.

(** The section every statement is in, as the scanner finds it. *)
Fixpoint scope_run (scope : Scope) (wss : list (list string))
    : Res (list (list string * option string) * Scope) :=
  match wss with
  | [] => Ok ([], scope)
  | ws :: wss =>
      scope ← enter scope ws;
      '(es, last) ← scope_run scope wss;
      mret ((ws, scope.2) :: es, last)
  end.

(** Where the statements are, in a text that starts at [p]. *)
Fixpoint placed (p : nat) (ss : list Segment) (es : list (list string * option string)) : list Statement :=
  match ss, es with
  | s :: ss, (ws, section) :: es =>
      let start := p + String.length s.(sg_gap) in
      let token_end := start + String.length s.(sg_body) in
      let end_ := token_end + String.length s.(sg_tail) in
      {| st_start := start; st_end := end_; st_token_end := token_end; st_words := ws;
         st_section := section |} :: placed end_ ss es
  | _, _ => []
  end%nat.

Lemma may_follow_head b t r : t ≠ "" → may_follow b (t +:+ r) = may_follow b t.
Proof. by destruct t. Qed.

Lemma segment_length s : String.length (segment_text s) =
  (String.length s.(sg_gap) + String.length s.(sg_body) + String.length s.(sg_tail))%nat.
Proof. unfold segment_text. rewrite !length_append. lia. Qed.

(** The scanner reads the statement of a segment, and goes on with what follows. *)
Lemma segment_read s rest :
  segment_ok s → (s.(sg_open) = true → rest = "") →
  skip_gap false (segment_text s +:+ rest) = s.(sg_body) +:+ s.(sg_tail) +:+ rest
  ∧ s.(sg_body) +:+ s.(sg_tail) +:+ rest ≠ ""
  ∧ ∃ ws, statement_words 4 (s.(sg_body) +:+ s.(sg_tail) +:+ rest) = Ok (ws, s.(sg_tail) +:+ rest, rest)
      ∧ s.(sg_words) = normalize_words ws.
Proof.
  intros [Hg (ws & Hw & Ew) Hf Ht] Hr. unfold segment_text. rewrite !append_assoc.
  rewrite (skip_gap_append _ _ _ _ Hg). destruct (words_not_gap _ _ _ (sg_tail s +:+ rest) Hw) as [E Hne].
  rewrite E. split_and?; [done | done |]. exists ws. split; [| done].
  destruct (sg_open s).
  - rewrite (Hr eq_refl), append_nil_r. by apply statement_words_read; [| | apply Ht].
  - apply statement_words_read; [done | | apply Ht]. rewrite may_follow_head; [done | apply Ht].
Qed.

Lemma file_cons_text s ss g : segments_text (s :: ss) +:+ g = segment_text s +:+ (segments_text ss +:+ g).
Proof. apply append_assoc. Qed.

(** A file of segments is scanned as these. *)
Lemma scan_read fuel total count scope ss g es last :
  file_ok ss g → scope_run scope (sg_words <$> ss) = Ok (es, last) →
  (length ss < fuel)%nat → (count + length ss ≤ MAX_STATEMENTS)%nat →
  (String.length (segments_text ss +:+ g) ≤ total)%nat →
  scan fuel total count scope (segments_text ss +:+ g)
  = Ok (placed (total - String.length (segments_text ss +:+ g)) ss es, last.1).
Proof.
  intros Hok. revert fuel count scope es.
  assert (Hstep : ∀ s rest fuel count scope sc stmts secs,
    segment_ok s → (s.(sg_open) = true → rest = "") → enter scope s.(sg_words) = Ok sc →
    (count < MAX_STATEMENTS)%nat →
    scan fuel total (S count) sc rest = Ok (stmts, secs) →
    scan (S fuel) total count scope (segment_text s +:+ rest) =
      Ok ({| st_start := total - String.length (sg_body s +:+ sg_tail s +:+ rest);
             st_end := total - String.length rest;
             st_token_end := total - String.length (sg_tail s +:+ rest);
             st_words := s.(sg_words); st_section := sc.2 |} :: stmts, secs)).
  { intros s rest fuel count scope sc stmts secs Hs Hr He Hc Hrec. cbn [scan].
    destruct (segment_read s rest Hs Hr) as (E & Hne & ws & Hw & Ew). rewrite E.
    destruct (sg_body s +:+ sg_tail s +:+ rest) as [| c t] eqn:Et; [done |]. rewrite <- Et in *.
    rewrite (proj2 (Nat.eqb_neq count MAX_STATEMENTS)) by lia. cbn [fail_if mbind result_bind].
    rewrite Hw. cbn [mbind result_bind]. rewrite <- Ew, He. cbn [mbind result_bind]. by rewrite Hrec. }
  induction Hok as [g Hg | s Hs Ho | s ss g Hs Ho _ IH]; intros [| fuel] count scope es Hrun Hf Hc Hl;
    cbn [length fmap list_fmap] in *; try lia.
  - injection Hrun as <- <-. cbn [segments_text String.append scan placed]. by rewrite skip_gap_all.
  - apply bind_ok_inv in Hrun as (sc & He & Hrun). apply bind_ok_inv in Hrun as ([es' last'] & Hr & H).
    injection H as <- <-. injection Hr as <- <-. rewrite file_cons_text in *.
    destruct fuel as [| fuel]; [lia |].
    erewrite Hstep; [| done | done | exact He | lia | by cbn].
    cbn [placed segments_text String.append] in *. rewrite append_nil_r in *.
    rewrite !length_append, segment_length in *. cbn [String.length]. repeat f_equal; lia.
  - apply bind_ok_inv in Hrun as (sc & He & Hrun). apply bind_ok_inv in Hrun as ([es' last'] & Hr & H).
    injection H as <- <-. rewrite file_cons_text in *.
    assert (Hl' : (String.length (segments_text ss +:+ g) ≤ total)%nat) by (rewrite length_append in Hl; lia).
    erewrite Hstep; [| done | by rewrite Ho | exact He | lia | apply (IH fuel (S count) sc es' Hr); lia].
    cbn [placed]. rewrite !length_append, segment_length in *. 
    repeat f_equal; lia.
Qed.

Lemma statement_end_shorter te next : statement_end te = Some next → (String.length next ≤ String.length te)%nat.
Proof. intros (tail & -> & _)%statement_end_split. rewrite length_append. lia. Qed.

(** What the scanner reads are the segments of a file. *)
Lemma scan_inv fuel total count scope input stmts secs :
  scan fuel total count scope input = Ok (stmts, secs) → (count ≤ MAX_STATEMENTS)%nat →
  (String.length input ≤ total)%nat →
  ∃ ss g es last, input = segments_text ss +:+ g ∧ file_ok ss g
    ∧ scope_run scope (sg_words <$> ss) = Ok (es, last) ∧ last.1 = secs
    ∧ stmts = placed (total - String.length input) ss es ∧ (count + length ss ≤ MAX_STATEMENTS)%nat.
Proof.
  revert count scope input stmts secs. induction fuel as [| fuel IH]; intros count scope input stmts secs H Hc Hl; [done |].
  cbn [scan] in H. destruct (skip_gap_split false input) as (gap & c & E & Hg & Hne).
  destruct (skip_gap false input) as [| d rest] eqn:Er.
  { apply ret_ok_inv in H as [= <- <-]. exists [], input, [], scope. split_and?; try done; [| cbn; lia].
    constructor. rewrite append_nil_r in E. subst gap. by exists c. }
  specialize (Hne ltac:(done)) as ->. rewrite <- Er in E. rewrite <- Er in H.
  apply then_ok in H as [Hcount H]. apply fail_if_ok, Nat.eqb_neq in Hcount.
  apply bind_ok_inv in H as ([[ws te] next] & Hw & H). apply bind_ok_inv in H as (sc & He & H).
  apply bind_ok_inv in H as ([stmts' secs'] & Hrec & H). apply ret_ok_inv in H as [= <- <-].
  destruct (statement_words_inv _ _ _ _ _ Hw) as (body & Eb & Hws & Hf & Hend).
  destruct (statement_end_split _ _ Hend) as (tail & -> & Htail).
  rewrite Eb in E, Hw. rewrite Eb.
  assert (Hlen : (String.length next ≤ total)%nat) by (subst input; rewrite !length_append in Hl; lia).
  destruct (IH _ _ _ _ _ Hrec ltac:(lia) Hlen) as (ss & g & es & last & En & Hok & Hrun & Hlast & Hst & Hcn).
  set (s o := {| sg_gap := gap; sg_body := body; sg_tail := tail; sg_words := normalize_words ws; sg_open := o |}).
  assert (Hpos : ∀ o, {| st_start := total - String.length (body +:+ tail +:+ next);
      st_end := total - String.length next; st_token_end := total - String.length (tail +:+ next);
      st_words := normalize_words ws; st_section := sc.2 |} :: stmts'
      = placed (total - String.length input) (s o :: ss) ((normalize_words ws, sc.2) :: es)).
  { intros o. subst input stmts'. cbn [placed]. rewrite !length_append in *. unfold s. cbn [sg_gap sg_body sg_tail].
    repeat f_equal; lia. }
  assert (Hrun' : ∀ o, scope_run scope (sg_words <$> (s o :: ss)) = Ok ((normalize_words ws, sc.2) :: es, last)).
  { intros o. cbn [fmap list_fmap scope_run sg_words s]. unfold s. cbn [sg_words]. rewrite He. cbn [mbind result_bind].
    change (list_fmap _ _ sg_words ss) with (sg_words <$> ss). by rewrite Hrun. }
  destruct Htail as [Hcl | [-> Hopen]].
  - exists (s false :: ss), g, ((normalize_words ws, sc.2) :: es), last. split_and?.
    + rewrite file_cons_text, <- En. unfold segment_text, s. cbn [sg_gap sg_body sg_tail].
      by rewrite E, !append_assoc.
    + apply fo_cons; [| done | done]. split; [done | by exists ws | | done]. cbn [sg_body sg_tail s].
      rewrite may_follow_head in Hf; [done | apply Hcl].
    + apply Hrun'.
    + done.
    + apply Hpos.
    + cbn [length]. lia.
  - assert (Hss : ss = [] ∧ g = "").
    { symmetry in En. destruct Hok as [g' | s0 Hs0 | s0 ss0 g0 Hs0]; [done | exfalso | exfalso];
        rewrite file_cons_text in En; destruct Hs0 as [_ (ws0 & Hw0 & _) _ _]; apply words_nonempty in Hw0;
        apply Hw0; unfold segment_text in En; rewrite !append_assoc in En;
        destruct (sg_gap _), (sg_body _); done. }
    destruct Hss as [-> ->].
    exists [s true], "", ((normalize_words ws, sc.2) :: es), last. split_and?.
    + rewrite file_cons_text. cbn [segments_text String.append]. unfold segment_text, s. cbn [sg_gap sg_body sg_tail].
      by rewrite E, !append_nil_r.
    + apply fo_open; [| done]. split; [done | by exists ws | | done]. cbn [sg_body sg_tail s].
      by rewrite append_nil_r in Hf.
    + apply Hrun'.
    + done.
    + apply Hpos.
    + cbn [length] in *. lia.
Qed.

Lemma segments_bound ss g : file_ok ss g → (length ss ≤ String.length (segments_text ss))%nat.
Proof.
  assert (Hs : ∀ s, segment_ok s → (1 ≤ String.length (segment_text s))%nat).
  { intros s [_ (ws & Hw & _) _ _]. apply words_nonempty in Hw. rewrite segment_length.
    destruct (sg_body s); [done | cbn; lia]. }
  induction 1 as [| s H%Hs | s ss g H%Hs]; cbn [length segments_text]; rewrite ?length_append; lia.
Qed.

(** ** Whole files *)

Definition file_bounds (input : string) : Prop :=
  (len input ≤ MAX_UCI_BYTES)%N ∧ contains "000" input = false.

Lemma statements_read ss g es last :
  file_ok ss g → scope_run (∅, None) (sg_words <$> ss) = Ok (es, last) →
  (length ss ≤ MAX_STATEMENTS)%nat → file_bounds (segments_text ss +:+ g) →
  statements (segments_text ss +:+ g) = Ok (placed 0 ss es, last.1).
Proof.
  intros Hok Hrun Hn [Hl Hz]. unfold statements. rewrite Hz, (proj2 (N.ltb_ge _ _) Hl). cbn [orb fail_if mbind result_bind].
  rewrite (scan_read _ _ _ _ _ _ _ _ Hok Hrun); [by rewrite Nat.sub_diag | | lia | lia].
  pose proof (segments_bound ss g Hok). rewrite length_append. lia.
Qed.

Lemma statements_inv input stmts secs : statements input = Ok (stmts, secs) →
  file_bounds input ∧ ∃ ss g es last, input = segments_text ss +:+ g ∧ file_ok ss g
    ∧ scope_run (∅, None) (sg_words <$> ss) = Ok (es, last) ∧ last.1 = secs
    ∧ stmts = placed 0 ss es ∧ (length ss ≤ MAX_STATEMENTS)%nat.
Proof.
  unfold statements. intros [Hb H]%then_ok. apply fail_if_ok, orb_false_iff in Hb as [Hl Hz].
  split; [split; [by apply N.ltb_ge in Hl | done] |].
  apply scan_inv in H as (ss & g & es & last & H1 & H2 & H3 & H4 & H5 & H6); [| unfold MAX_STATEMENTS; lia | done].
  exists ss, g, es, last. rewrite Nat.sub_diag in H5. done.
Qed.
