(* ===== verification/UciMarks.v ===== *)
(** * A UCI file with its edits marked

    [uci_render] collects replacements section by section, sorts them and cuts the file
    up. Here the same edits are marks on the statements of the file: the replacements are
    shown to be exactly those of the marked statements, in the order of the file, and the
    output to be its text with the marks carried out. *)

From stdpp Require Import sorting.
From S2P Require Import Prelude RustStr SchedRecord UciEdits UciLexing.
Local Open Scope string_scope.

(** ** Lines and marks *)

(** A line the renderer writes. *)
Inductive Line :=
  | OptionLine (key value : string)
  | SectionLine (kind section : string).

Definition quoted (value : string) : string := "'" +:+ escape_quotes value +:+ "'".
Definition option_line (key value : string) : string := "option " +:+ key +:+ " " +:+ quoted value.
Definition line_text (l : Line) : string :=
  match l with
  | OptionLine key value => str1 tab +:+ option_line key value +:+ str1 nl
  | SectionLine kind section => "config " +:+ kind +:+ " '" +:+ section +:+ "'" +:+ str1 nl
  end.
Fixpoint lines_text (ls : list Line) : string :=
  match ls with [] => "" | l :: ls => line_text l +:+ lines_text ls end.

Inductive MarkEdit := Keep | Change (key value : string) | Drop.
#[export] Instance MarkEdit_eq_dec : EqDecision MarkEdit.
Proof. solve_decision. Defined.

(** A statement of the file, its section, what becomes of it, and what is added after it. *)
Record Mark := {
  mk_segment : Segment;
  mk_section : option string;
  mk_edit : MarkEdit;
  mk_added : list Line;
}.

Definition marked_body (m : Mark) : string :=
  match m.(mk_edit) with
  | Keep => m.(mk_segment).(sg_body) +:+ m.(mk_segment).(sg_tail)
  | Change key value => option_line key value +:+ m.(mk_segment).(sg_tail)
  | Drop => ""
  end.

(** ** Positions *)

Definition mark_start (p : nat) (m : Mark) : nat := (p + String.length m.(mk_segment).(sg_gap))%nat.
Definition mark_token_end (p : nat) (m : Mark) : nat :=
  (mark_start p m + String.length m.(mk_segment).(sg_body))%nat.
Definition mark_end (p : nat) (m : Mark) : nat :=
  (mark_token_end p m + String.length m.(mk_segment).(sg_tail))%nat.

(** The statements the scanner finds. *)
Fixpoint mark_statements (p : nat) (ms : list Mark) : list Statement :=
  match ms with
  | [] => []
  | m :: ms =>
      {| st_start := mark_start p m; st_end := mark_end p m; st_token_end := mark_token_end p m;
         st_words := m.(mk_segment).(sg_words); st_section := m.(mk_section) |}
      :: mark_statements (mark_end p m) ms
  end.

Definition edit_ranges (p : nat) (m : Mark) : list Replacement :=
  match m.(mk_edit) with
  | Keep => []
  | Change key value => [(mark_start p m, mark_token_end p m, option_line key value)]
  | Drop => [(mark_start p m, mark_end p m, "")]
  end.

Section marks.
Context (original : string).

(** What is added after a mark that ends at [at_]. *)
Definition added_text (at_ : nat) (ls : list Line) : string := fresh_line original at_ "" +:+ lines_text ls.

Definition added_ranges (p : nat) (m : Mark) : list (nat * string) :=
  match m.(mk_added) with [] => [] | ls => [(mark_end p m, added_text (mark_end p m) ls)] end.

Definition insertion_range (i : nat * string) : Replacement := (i.1, i.1, i.2).

Fixpoint mark_ranges (p : nat) (ms : list Mark) : list Replacement :=
  match ms with
  | [] => []
  | m :: ms => edit_ranges p m ++ (insertion_range <$> added_ranges p m) ++ mark_ranges (mark_end p m) ms
  end%list.

Fixpoint mark_edits (p : nat) (ms : list Mark) : list Replacement :=
  match ms with [] => [] | m :: ms => edit_ranges p m ++ mark_edits (mark_end p m) ms end%list.
Fixpoint mark_inserts (p : nat) (ms : list Mark) : list (nat * string) :=
  match ms with [] => [] | m :: ms => added_ranges p m ++ mark_inserts (mark_end p m) ms end%list.

(** The text with the marks carried out. *)
Definition added_after (p : nat) (m : Mark) : string :=
  match m.(mk_added) with [] => "" | ls => added_text (mark_end p m) ls end.
Fixpoint marked_text (p : nat) (ms : list Mark) : string :=
  match ms with
  | [] => ""
  | m :: ms =>
      m.(mk_segment).(sg_gap) +:+ marked_body m +:+ added_after p m +:+ marked_text (mark_end p m) ms
  end.

Lemma mark_ranges_split p ms :
  mark_ranges p ms ≡ₚ (mark_edits p ms ++ (insertion_range <$> mark_inserts p ms))%list.
Proof.
  revert p. induction ms as [| m ms IH]; intros p; [done |]. cbn [mark_ranges mark_edits mark_inserts].
  rewrite IH, fmap_app, <- !app_assoc. apply Permutation_app_head, Permutation_app_swap_app.
Qed.

(** ** Cutting the file up *)

(** [splice] without its bounds. *)
Fixpoint splice_text (position : nat) (rs : list Replacement) : string :=
  match rs with
  | [] => String.substring position (String.length original - position) original
  | (start, end_, text) :: rs =>
      String.substring position (start - position) original +:+ text +:+ splice_text end_ rs
  end.

Lemma splice_value position output rs out :
  splice original position output rs = Ok out →
  out = output +:+ splice_text position rs ∧ (len out ≤ MAX_UCI_BYTES)%N.
Proof.
  revert position output. induction rs as [| [[start end_] text] rs IH]; intros position output H; cbn [splice splice_text] in *.
  - apply then_ok in H as [Hl H]. apply fail_if_ok, N.ltb_ge in Hl. apply ret_ok_inv in H as <-. done.
  - apply then_ok in H as [_ H]. apply then_ok in H as [_ H]. apply IH in H as [E Hl].
    split; [| done]. by rewrite E, !append_assoc.
Qed.

Lemma substring_middle a b c : String.substring (String.length a) (String.length b) (a +:+ b +:+ c) = b.
Proof.
  induction a as [| x a IH]; cbn [String.length String.append String.substring]; [| exact IH].
  induction b as [| y b IH]; cbn [String.length String.append String.substring]; [by destruct c | by rewrite IH].
Qed.

Lemma substring_at position n a b c :
  original = a +:+ b +:+ c → position = String.length a → n = String.length b →
  String.substring position n original = b.
Proof. intros -> -> ->. apply substring_middle. Qed.

(** The replacements of the marks carry them out; [middle] is what lies between the last
    replacement and the next statement. *)
Lemma splice_marks ms : ∀ before middle g position p final,
  original = before +:+ middle +:+ segments_text (mk_segment <$> ms) +:+ g →
  position = String.length before → p = (position + String.length middle)%nat →
  splice_text position (mark_ranges p ms ++
    (if String.eqb final "" then [] else [(String.length original, String.length original, final)]))%list
  = middle +:+ marked_text p ms +:+ g +:+ final.
Proof.
  induction ms as [| m ms IH]; intros before middle g position p final Ho Hq Hp.
  - cbn [mark_ranges app marked_text segments_text fmap list_fmap String.append] in *.
    assert (E : ∀ n, n = (String.length original - position)%nat → String.substring position n original = middle +:+ g).
    { intros n ->. apply (substring_at _ _ before (middle +:+ g) ""); [by rewrite append_nil_r | done |].
      rewrite Ho at 1. rewrite Hq, length_append. lia. }
    destruct (String.eqb_spec final "") as [-> | Hf]; cbn [splice_text].
    + rewrite append_nil_r. by apply E.
    + rewrite (E _ eq_refl).
      rewrite (substring_at _ _ original "" ""); [by rewrite append_nil_r, append_assoc | by rewrite !append_nil_r | done |].
      rewrite Nat.sub_diag. done.
  - cbn [fmap list_fmap segments_text] in Ho. unfold segment_text in Ho. rewrite !append_assoc in Ho.
    change (list_fmap _ _ mk_segment ms) with (mk_segment <$> ms) in Ho.
    set (gap := sg_gap (mk_segment m)) in *. set (body := sg_body (mk_segment m)) in *.
    set (tail := sg_tail (mk_segment m)) in *. set (rest := segments_text (mk_segment <$> ms) +:+ g) in *.
    set (R := (if String.eqb final "" then [] else [(String.length original, String.length original, final)])) in *.
    assert (Hafter : ∀ before middle position, original = before +:+ middle +:+ rest →
      position = String.length before → mark_end p m = (position + String.length middle)%nat →
      splice_text position ((insertion_range <$> added_ranges p m) ++ mark_ranges (mark_end p m) ms ++ R)%list
      = middle +:+ added_after p m +:+ marked_text (mark_end p m) ms +:+ g +:+ final).
    { clear before middle position Ho Hq Hp. intros before middle position Ho Hq He.
      unfold added_ranges, added_after. destruct (mk_added m) as [| l ls].
      - cbn [fmap list_fmap app String.append]. by apply (IH before).
      - cbn [fmap list_fmap app splice_text insertion_range fst snd].
        rewrite (substring_at position _ before middle rest); [| done | done | lia].
        unfold R. rewrite (IH (before +:+ middle) "" g); [done | by rewrite append_assoc | |];
          rewrite ?length_append; cbn [String.length]; lia. }
    cbn [mark_ranges marked_text]. rewrite <- !app_assoc, !append_assoc. unfold edit_ranges, marked_body.
    fold gap body tail. unfold R in Hafter.
    assert (Hs : mark_start p m = (p + String.length gap)%nat) by done.
    assert (Ht : mark_token_end p m = (mark_start p m + String.length body)%nat) by done.
    assert (He : mark_end p m = (mark_token_end p m + String.length tail)%nat) by done.
    destruct (mk_edit m) as [| key value |]; cbn [app splice_text].
    + etransitivity; [apply (Hafter before (middle +:+ gap +:+ body +:+ tail) position);
        [by rewrite !append_assoc | done | rewrite !length_append; lia] |].
      by rewrite !append_assoc.
    + rewrite (substring_at position _ before (middle +:+ gap) (body +:+ tail +:+ rest));
        [| by rewrite !append_assoc | done | rewrite length_append; lia].
      rewrite !append_assoc. do 3 f_equal.
      apply (Hafter (before +:+ middle +:+ gap +:+ body) tail); [by rewrite !append_assoc | |];
        rewrite ?length_append; lia.
    + rewrite (substring_at position _ before (middle +:+ gap) (body +:+ tail +:+ rest));
        [| by rewrite !append_assoc | done | rewrite length_append; lia].
      rewrite !append_assoc. do 2 f_equal.
      apply (Hafter (before +:+ middle +:+ gap +:+ body +:+ tail) ""); [by rewrite !append_assoc | |];
        rewrite ?length_append; cbn [String.length]; lia.
Qed.

(** ** The order of the replacements *)

Definition range_lt (a b : Replacement) : Prop := (a.1.1 < b.1.1 ∨ a.1.1 = b.1.1 ∧ a.1.2 < b.1.2)%nat.

Definition has_body (m : Mark) : Prop := m.(mk_segment).(sg_body) ≠ "".

Lemma mark_token_end_after p m : has_body m → (mark_start p m < mark_token_end p m)%nat.
Proof. unfold mark_token_end, has_body. destruct (sg_body _); [done | cbn; lia]. Qed.
Lemma mark_end_after p m : (mark_token_end p m ≤ mark_end p m)%nat.
Proof. unfold mark_end. lia. Qed.
Lemma mark_start_after p m : (p ≤ mark_start p m)%nat.
Proof. unfold mark_start. lia. Qed.

(** The ranges of one mark. *)
Lemma own_ranges p m r : has_body m →
  r ∈ (edit_ranges p m ++ (insertion_range <$> added_ranges p m))%list →
  (mark_start p m ≤ r.1.1 ∧ mark_start p m < r.1.2 ≤ mark_end p m)%nat
  ∧ ((r.1.1 < mark_end p m)%nat ∨ m.(mk_added) ≠ [] ∧ r.1.1 = mark_end p m).
Proof.
  intros Hb. pose proof (mark_token_end_after p m Hb). pose proof (mark_end_after p m).
  rewrite elem_of_app. unfold edit_ranges, added_ranges. intros [Hr | Hr].
  - destruct (mk_edit m); [by apply elem_of_nil in Hr | |]; apply list_elem_of_singleton in Hr as ->; cbn; lia.
  - destruct (mk_added m) eqn:E; [by apply elem_of_nil in Hr |].
    apply list_elem_of_singleton in Hr as ->. cbn. split; [lia |]. by right.
Qed.

Lemma own_sorted p m : has_body m →
  StronglySorted range_lt (edit_ranges p m ++ (insertion_range <$> added_ranges p m))%list.
Proof.
  intros Hb. pose proof (mark_token_end_after p m Hb). pose proof (mark_end_after p m).
  unfold edit_ranges, added_ranges. destruct (mk_edit m), (mk_added m); cbn;
    repeat constructor; unfold range_lt; cbn; lia.
Qed.

Lemma mark_ranges_above p ms r : Forall has_body ms → r ∈ mark_ranges p ms → (p ≤ r.1.1 ∧ p < r.1.2)%nat.
Proof.
  intros H. revert p. induction H as [| m ms Hm _ IH]; intros p Hr; [by apply elem_of_nil in Hr |].
  cbn [mark_ranges] in Hr. rewrite app_assoc, elem_of_app in Hr.
  pose proof (mark_start_after p m). pose proof (mark_token_end_after p m Hm). pose proof (mark_end_after p m).
  destruct Hr as [Hr%own_ranges | Hr%IH]; [| done |]; lia.
Qed.

Lemma sorted_app {A} (R : A → A → Prop) xs ys :
  StronglySorted R xs → StronglySorted R ys → (∀ x y, x ∈ xs → y ∈ ys → R x y) →
  StronglySorted R (xs ++ ys)%list.
Proof.
  intros Hx Hy H. induction Hx as [| x xs Hx IH Hf]; [done |]. cbn. constructor.
  - apply IH. intros x' y Hx'. apply H. by right.
  - apply Forall_app. split; [done |]. apply Forall_forall. intros y. apply H. by left.
Qed.

Lemma mark_ranges_sorted p ms : Forall has_body ms → StronglySorted range_lt (mark_ranges p ms).
Proof.
  intros H. revert p. induction H as [| m ms Hm Hms IH]; intros p; [constructor |].
  cbn [mark_ranges]. rewrite app_assoc. apply sorted_app; [by apply own_sorted | apply IH |].
  intros x y (Hx & Hx')%own_ranges Hy; [| done]. apply mark_ranges_above in Hy; [| done]. unfold range_lt. lia.
Qed.

(** Sorting gives that order. *)
Lemma sorted_unique rs rs' :
  StronglySorted range_lt rs → rs' ≡ₚ rs → merge_sort range_le rs' = rs.
Proof.
  intros Hs Hp. apply (StronglySorted_unique_strong range_le).
  - intros [[s e] t] [[s' e'] t'] Hx Hy H1 H2. rewrite merge_sort_Permutation, Hp in Hx.
    clear Hp. unfold range_le in *. cbn in *. assert (s = s' ∧ e = e') as [-> ->] by lia.
    induction Hs as [| r rs _ IH Hf]; [by apply elem_of_nil in Hx |].
    rewrite Forall_forall in Hf. rewrite elem_of_cons in Hx, Hy.
    destruct Hx as [<- | Hx], Hy as [Hy | Hy]; [by symmetry | | | by apply IH].
    + apply Hf in Hy. unfold range_lt in Hy. cbn in Hy. lia.
    + subst r. apply Hf in Hx. unfold range_lt in Hx. cbn in Hx. lia.
  - apply StronglySorted_merge_sort; unfold range_le; [intros a b c | intros a b]; lia.
  - clear Hp. induction Hs as [| r rs _ IH Hf]; constructor; [done |].
    eapply Forall_impl; [exact Hf |]. unfold range_lt, range_le. intros; lia.
  - by rewrite merge_sort_Permutation.
Qed.
End marks.
