(* ===== verification/UciPasses.v ===== *)
(** * The passes over the sections

    Each patched section takes one pass over the statements; here a pass marks the
    statements of the file, and the replacements and insertions [patch_sections] collects
    are shown to be those of the marked file. *)

From stdpp Require Import sorting.
From S2P Require Import Prelude RustStr SchedRecord UciEdits UciLexing UciMarks.
Local Open Scope string_scope.

(** ** Passes over marks *)

Definition mark_words (m : Mark) : list string := m.(mk_segment).(sg_words).
Definition in_section (k : string) (m : Mark) : bool :=
  bool_decide (m.(mk_section) = Some k) && negb (is_package (mark_words m)).

Definition set_edit (e : MarkEdit) (m : Mark) : Mark :=
  {| mk_segment := m.(mk_segment); mk_section := m.(mk_section); mk_edit := e; mk_added := m.(mk_added) |}.
Definition add_lines (ls : list Line) (m : Mark) : Mark :=
  {| mk_segment := m.(mk_segment); mk_section := m.(mk_section); mk_edit := m.(mk_edit);
     mk_added := m.(mk_added) ++ ls |}%list.

(** The section goes: it is deleted, or replaced by a new one. *)
Definition goes (patch : SectionPatch) : bool := patch.(sp_delete) || is_some patch.(sp_add).

(** What becomes of a statement of the section, and the options set so far. *)
Definition mark_statement (patch : SectionPatch) (seen : gset string) (m : Mark) : Mark * gset string :=
  if goes patch then (set_edit Drop m, seen)
  else if negb (is_option (mark_words m)) then (m, seen)
  else
    let key := nth 1 (mark_words m) "" in
    match patch.(sp_options) !! key with
    | None => (m, seen)
    | Some None => (set_edit Drop m, seen)
    | Some (Some value) =>
        if bool_decide (key ∈ seen) then (set_edit Drop m, seen)
        else (set_edit (Change key value) m, {[ key ]} ∪ seen)
    end.

Fixpoint pass_marks (k : string) (patch : SectionPatch) (seen : gset string) (ms : list Mark)
    : list Mark * gset string :=
  match ms with
  | [] => ([], seen)
  | m :: ms =>
      let '(m', seen) := if in_section k m then mark_statement patch seen m else (m, seen) in
      let '(ms', seen) := pass_marks k patch seen ms in
      (m' :: ms', seen)
  end.

Fixpoint last_end (k : string) (p : nat) (ms : list Mark) (last : option nat) : option nat :=
  match ms with
  | [] => last
  | m :: ms => last_end k (mark_end p m) ms (if in_section k m then Some (mark_end p m) else last)
  end.

(** Lines after the last statement of a section. *)
Fixpoint add_last (k : string) (ls : list Line) (ms : list Mark) : list Mark :=
  match ms with
  | [] => []
  | m :: ms =>
      if in_section k m && negb (existsb (in_section k) ms) then add_lines ls m :: ms
      else m :: add_last k ls ms
  end.

(** The options that no statement has set. *)
Fixpoint missing_lines (seen : gset string) (options : list (string * option string)) : list Line :=
  match options with
  | [] => []
  | (key, Some value) :: options =>
      if bool_decide (key ∈ seen) then missing_lines seen options
      else OptionLine key value :: missing_lines seen options
  | (_, None) :: options => missing_lines seen options
  end.

Definition patch_marks (k : string) (patch : SectionPatch) (ms : list Mark) : list Mark :=
  let '(ms, seen) := pass_marks k patch ∅ ms in
  if goes patch then ms else add_last k (missing_lines seen (entries patch.(sp_options))) ms.

(** A section no pass has touched. *)
Definition untouched (k : string) (m : Mark) : Prop :=
  in_section k m = true → m.(mk_edit) = Keep ∧ m.(mk_added) = [].

(** ** What a pass leaves alone *)

(** The statements, with their sections, and the lines added. *)
Definition same_statement (m m' : Mark) : Prop :=
  m'.(mk_segment) = m.(mk_segment) ∧ m'.(mk_section) = m.(mk_section) ∧ m'.(mk_added) = m.(mk_added).

Lemma mark_statement_same patch seen m : same_statement m (mark_statement patch seen m).1.
Proof. unfold mark_statement. by repeat case_match. Qed.

Lemma pass_marks_cons k patch seen m ms :
  pass_marks k patch seen (m :: ms) =
  let r := if in_section k m then mark_statement patch seen m else (m, seen) in
  (r.1 :: (pass_marks k patch r.2 ms).1, (pass_marks k patch r.2 ms).2).
Proof. cbn [pass_marks]. destruct (if in_section k m then _ else _) as [m' s]. cbn. by destruct (pass_marks k patch s ms). Qed.

Lemma pass_marks_same k patch seen ms : Forall2 same_statement ms (pass_marks k patch seen ms).1.
Proof.
  revert seen. induction ms as [| m ms IH]; intros seen; [constructor |]. rewrite pass_marks_cons. cbn.
  constructor; [| apply IH]. destruct (in_section k m); [apply mark_statement_same | done].
Qed.

Lemma same_mark_end p m m' : same_statement m m' → mark_end p m' = mark_end p m.
Proof. intros (E & _ & _). unfold mark_end, mark_token_end, mark_start. by rewrite E. Qed.

Lemma same_inserts original p ms ms' : Forall2 same_statement ms ms' →
  mark_inserts original p ms' = mark_inserts original p ms
  ∧ mark_statements p ms' = mark_statements p ms ∧ (mk_segment <$> ms') = (mk_segment <$> ms)
  ∧ ∀ k last, last_end k p ms' last = last_end k p ms last.
Proof.
  intros H. revert p. induction H as [| m m' ms ms' Hm _ IH]; intros p; [done |].
  destruct (IH (mark_end p m)) as (E1 & E2 & E3 & E4). pose proof (same_mark_end p m m' Hm) as Ee.
  destruct Hm as (Es & Ek & Ea). cbn [mark_inserts mark_statements fmap list_fmap last_end].
  unfold added_ranges, in_section, mark_words. rewrite Ee, Es, Ek, Ea, E1, E2.
  change (list_fmap _ _ mk_segment) with (fmap (M := list) mk_segment). rewrite E3.
  split_and?; [done | | done | intros; by rewrite E4].
  unfold mark_start, mark_token_end, mark_start. by rewrite Es.
Qed.

(** ** The replacements of a pass *)

Lemma uci_quote_ok value text : uci_quote value = Ok text → text = quoted value.
Proof. unfold uci_quote. by intros [_ [= <-]]%then_ok. Qed.

Lemma option_text_ok key value text : option_text key value = Ok text → text = option_line key value.
Proof. unfold option_text. by intros (q & ->%uci_quote_ok & [= <-])%bind_ok_inv. Qed.

Lemma uci_name_ok s t : uci_name s = Ok t → t = s.
Proof. unfold uci_name. by intros [_ [= <-]]%then_ok. Qed.

Lemma section_pass_marks k patch ms : ∀ p seen last rs seen' last',
  Forall (untouched k) ms →
  section_pass k patch seen last (mark_statements p ms) = Ok (rs, seen', last') →
  (mark_edits p ms ++ rs ≡ₚ mark_edits p (pass_marks k patch seen ms).1)%list
  ∧ seen' = (pass_marks k patch seen ms).2 ∧ last' = last_end k p ms last.
Proof.
  induction ms as [| m ms IH]; intros p seen last rs seen' last' Hun H.
  { injection H as <- <- <-. done. }
  apply Forall_cons in Hun as [Hm Hms]. rewrite pass_marks_cons. cbn [mark_statements section_pass st_section st_words st_end] in H.
  set (words := sg_words (mk_segment m)) in *.
  assert (Ein : negb (bool_decide (mk_section m = Some k)) || is_package words = negb (in_section k m)).
  { unfold in_section, mark_words. by rewrite negb_andb, negb_involutive. }
  rewrite Ein in H. destruct (in_section k m) eqn:Eink; cbn [negb] in H.
  - specialize (Hm Eink) as [Hkeep _].
    assert (Hnil : edit_ranges p m = []) by (unfold edit_ranges; by rewrite Hkeep).
    (* the statement is kept *)
    assert (Hkept : section_pass k patch seen (Some (mark_end p m)) (mark_statements (mark_end p m) ms) = Ok (rs, seen', last') →
      (mark_edits p (m :: ms) ++ rs ≡ₚ mark_edits p (m :: (pass_marks k patch seen ms).1))%list
      ∧ seen' = (pass_marks k patch seen ms).2 ∧ last' = last_end k p (m :: ms) last).
    { intros (E1 & E2 & E3)%IH; [| done]. cbn [mark_edits last_end]. rewrite Hnil, Eink. done. }
    (* it is replaced *)
    assert (Hrep : ∀ e r s2 (more : Res (list Replacement * gset string * option nat)),
      edit_ranges p (set_edit e m) = [r] →
      more = section_pass k patch s2 (Some (mark_end p m)) (mark_statements (mark_end p m) ms) →
      ('(replacements, seen, last) ← more; mret (r :: replacements, seen, last)) = Ok (rs, seen', last') →
      (mark_edits p (m :: ms) ++ rs ≡ₚ mark_edits p (set_edit e m :: (pass_marks k patch s2 ms).1))%list
      ∧ seen' = (pass_marks k patch s2 ms).2 ∧ last' = last_end k p (m :: ms) last).
    { intros e r s2 more Er -> ([[rs2 seen2] last2] & Hr & Hret)%bind_ok_inv. injection Hret as <- <- <-.
      apply IH in Hr as (E1 & E2 & E3); [| done]. cbn [mark_edits last_end]. rewrite Hnil, Er, Eink. cbn [app].
      split; [| done]. change (mark_end p (set_edit e m)) with (mark_end p m).
      rewrite <- E1. by rewrite Permutation_middle. }
    unfold mark_statement. change (mark_words m) with words. unfold goes.
    destruct (sp_delete patch || is_some (sp_add patch)).
    { cbn [fst snd]. by eapply (Hrep Drop). }
    destruct (is_option words); cbn [negb] in H |- *; [| by apply Hkept].
    apply bind_ok_inv in H as (key & ->%uci_name_ok & H).
    destruct (sp_options patch !! nth 1 words "") as [[value |] |]; cbn [fst snd].
    + destruct (bool_decide _); cbn [fst snd]; [by eapply (Hrep Drop) |].
      apply bind_ok_inv in H as (text & ->%option_text_ok & H). by eapply (Hrep (Change _ value)).
    + by eapply (Hrep Drop).
    + by apply Hkept.
  - apply IH in H as (E1 & E2 & E3); [| done]. cbn [fst snd mark_edits last_end]. rewrite Eink.
    split; [| done]. rewrite <- app_assoc. by apply Permutation_app_head.
Qed.

(** ** The lines added to a section *)

Section added.
Context (original : string).

Lemma fresh_line_nonempty at_ a b : b ≠ "" → fresh_line original at_ (a +:+ b) = a +:+ b.
Proof.
  intros H. unfold fresh_line. destruct (String.eqb_spec (a +:+ b) "") as [E |]; [| done].
  destruct a, b; done.
Qed.

Lemma option_line_text key value : line_text (OptionLine key value) = str1 tab +:+ option_line key value +:+ str1 nl.
Proof. done. Qed.

Lemma insert_missing_lines seen last options : ∀ insertions insertions',
  insert_missing original seen last options insertions = Ok insertions' →
  match missing_lines seen options with
  | [] => insertions' = insertions
  | ls => ∃ at_, last = Some at_
      ∧ insertions' = <[at_ := fresh_line original at_ (default "" (insertions !! at_)) +:+ lines_text ls]> insertions
  end.
Proof.
  induction options as [| [key [value |]] options IH]; intros ins ins' H; cbn [insert_missing missing_lines] in *.
  - by injection H as <-.
  - destruct (bool_decide (key ∈ seen)); [by apply IH |].
    apply bind_ok_inv in H as (at_ & Hl & H). apply ok_or_ok_inv in Hl.
    apply bind_ok_inv in H as (text & ->%option_text_ok & H). apply IH in H. exists at_. split; [done |].
    destruct (missing_lines seen options) as [| l ls]; [rewrite H; by cbn [lines_text]; rewrite option_line_text, append_nil_r |].
    destruct H as (at' & Hl' & ->). simplify_eq. rewrite lookup_insert_eq, insert_insert_eq. cbn [default from_option id].
    rewrite fresh_line_nonempty by done. cbn [lines_text]. by rewrite option_line_text, !append_assoc.
  - by apply IH.
Qed.

Lemma last_end_shift k p ms : ∀ last, last_end k p ms last =
  match last_end k p ms None with Some e => Some e | None => last end.
Proof.
  revert p. induction ms as [| m ms IH]; intros p last; [done |]. cbn [last_end].
  rewrite (IH _ (if in_section k m then _ else last)), (IH _ (if in_section k m then _ else None)).
  destruct (last_end k (mark_end p m) ms None); [done |]. by destruct (in_section k m).
Qed.

Lemma last_end_exists k p ms : (∃ e, last_end k p ms None = Some e) ↔ existsb (in_section k) ms = true.
Proof.
  revert p. induction ms as [| m ms IH]; intros p; cbn [last_end existsb].
  - split; [by intros [??] | done].
  - rewrite last_end_shift, orb_true_iff, <- (IH (mark_end p m)). destruct (in_section k m).
    + split; [by left |]. intros _. case_match; by eexists.
    + case_match; split; try (intros [? | [? ?]]; by eauto); intros [? ?]; by eauto.
Qed.

Lemma mark_inserts_after p ms e : Forall has_body ms → e ∈ (mark_inserts original p ms).*1 → (p < e)%nat.
Proof.
  intros H. revert p. induction H as [| m ms Hm _ IH]; intros p He; [by apply elem_of_nil in He |].
  cbn [mark_inserts] in He. rewrite fmap_app, elem_of_app in He.
  pose proof (mark_start_after p m). pose proof (mark_token_end_after p m Hm). pose proof (mark_end_after p m).
  destruct He as [He | He%IH]; [| lia]. unfold added_ranges in He.
  destruct (mk_added m); [by apply elem_of_nil in He |]. apply list_elem_of_singleton in He as ->. cbn. lia.
Qed.

(** No two marks have their lines at the same place. *)
Lemma mark_inserts_nodup p ms : Forall has_body ms → NoDup (mark_inserts original p ms).*1.
Proof.
  intros H. revert p. induction H as [| m ms Hm Hms IH]; intros p; [constructor |].
  cbn [mark_inserts]. rewrite fmap_app. apply NoDup_app. split_and?; [| | apply IH].
  - unfold added_ranges. destruct (mk_added m); [constructor | apply NoDup_singleton].
  - intros e He Hin%mark_inserts_after; [| done]. unfold added_ranges in He.
    destruct (mk_added m); [by apply elem_of_nil in He |]. apply list_elem_of_singleton in He as ->. cbn in Hin. lia.
Qed.

Lemma add_last_none k ms : add_last k [] ms = ms.
Proof.
  induction ms as [| m ms IH]; [done |]. cbn [add_last]. destruct (_ && _); [| by rewrite IH].
  unfold add_lines. rewrite app_nil_r. by destruct m.
Qed.

Lemma add_last_inserts k ls ms : ∀ p e,
  ls ≠ [] → Forall has_body ms → Forall (λ m, in_section k m = true → m.(mk_added) = []) ms →
  last_end k p ms None = Some e →
  mark_inserts original p (add_last k ls ms) ≡ₚ (e, added_text original e ls) :: mark_inserts original p ms
  ∧ e ∉ (mark_inserts original p ms).*1.
Proof.
  induction ms as [| m ms IH]; intros p e Hls Hb Hf He; [done |].
  apply Forall_cons in Hb as [Hbm Hb]. apply Forall_cons in Hf as [Hfm Hf].
  cbn [last_end add_last] in *. rewrite last_end_shift in He.
  destruct (last_end k (mark_end p m) ms None) as [e' |] eqn:El.
  - injection He as <-. assert (Hex : existsb (in_section k) ms = true) by (apply (last_end_exists k (mark_end p m)); eauto).
    rewrite Hex, andb_false_r. cbn [mark_inserts]. destruct (IH (mark_end p m) e') as [E1 E2]; try done.
    split; [rewrite E1; by rewrite Permutation_middle |]. rewrite fmap_app, not_elem_of_app. split; [| done].
    unfold added_ranges. destruct (mk_added m); [apply not_elem_of_nil |]. cbn [fmap list_fmap fst].
    rewrite list_elem_of_singleton. intros ->.
    assert (Hin : mark_end p m ∈ (mark_inserts original (mark_end p m) (add_last k ls ms)).*1).
    { rewrite E1. left. }
    assert (Hb' : Forall has_body (add_last k ls ms)).
    { clear -Hb. induction Hb as [| x xs Hx Hxs IHx]; [constructor |]. cbn [add_last]. destruct (_ && _); by constructor. }
    apply mark_inserts_after in Hin; [lia | done].
  - destruct (in_section k m) eqn:Ein; [| done]. injection He as <-.
    destruct (existsb (in_section k) ms) eqn:Hex.
    { apply (last_end_exists k (mark_end p m)) in Hex as [? ?]. congruence. }
    cbn [andb negb mark_inserts]. specialize (Hfm eq_refl).
    change (mark_end p (add_lines ls m)) with (mark_end p m).
    unfold added_ranges. cbn [add_lines mk_added]. rewrite Hfm. cbn [app].
    change (mark_end p (add_lines ls m)) with (mark_end p m).
    destruct ls as [| l ls]; [done |]. split; [done |].
    intros Hin%mark_inserts_after; [lia | done].
Qed.

Lemma add_last_edits k ls ms p :
  mark_edits p (add_last k ls ms) = mark_edits p ms ∧ mark_statements p (add_last k ls ms) = mark_statements p ms
  ∧ (mk_segment <$> add_last k ls ms) = (mk_segment <$> ms).
Proof.
  revert p. induction ms as [| m ms IH]; intros p; [done |]. cbn [add_last]. destruct (_ && _); [done |].
  destruct (IH (mark_end p m)) as (E1 & E2 & E3). cbn [mark_edits mark_statements fmap list_fmap].
  rewrite E1, E2. change (list_fmap _ _ mk_segment) with (fmap (M := list) mk_segment). by rewrite E3.
Qed.

(** ** All passes *)

(** A pass touches only the statements of its section. *)
Definition touches (k : string) (m m' : Mark) : Prop :=
  m'.(mk_segment) = m.(mk_segment) ∧ m'.(mk_section) = m.(mk_section)
  ∧ (in_section k m = false → m' = m).

Lemma pass_marks_touches k patch seen ms : Forall2 (touches k) ms (pass_marks k patch seen ms).1.
Proof.
  revert seen. induction ms as [| m ms IH]; intros seen; [constructor |]. rewrite pass_marks_cons. cbn.
  constructor; [| apply IH]. unfold touches. destruct (in_section k m); [| done].
  by destruct (mark_statement_same patch seen m) as (? & ? & _).
Qed.

Lemma touches_refl k ms : Forall2 (touches k) ms ms.
Proof. induction ms; by constructor. Qed.

Lemma touches_trans k ms ms' ms'' :
  Forall2 (touches k) ms ms' → Forall2 (touches k) ms' ms'' → Forall2 (touches k) ms ms''.
Proof.
  intros H. revert ms''. induction H as [| m m' ms ms' (E1 & E2 & E3) _ IH]; intros ms'' H; inversion H as [| ? m'' ? ? (F1 & F2 & F3)]; constructor; subst; auto.
  unfold touches. split_and?; [congruence | congruence |]. intros Hm.
  rewrite F3, E3; [done | done |]. rewrite E3 by done. done.
Qed.

Lemma add_last_touches k ls ms : Forall2 (touches k) ms (add_last k ls ms).
Proof.
  induction ms as [| m ms IH]; [constructor |]. cbn [add_last].
  destruct (in_section k m && _) eqn:E; [| by constructor].
  apply andb_true_iff in E as [E _]. constructor; [by unfold touches; rewrite E | apply touches_refl].
Qed.

Lemma patch_marks_touches k patch ms : Forall2 (touches k) ms (patch_marks k patch ms).
Proof.
  unfold patch_marks. pose proof (pass_marks_touches k patch ∅ ms) as H.
  destruct (pass_marks k patch ∅ ms) as [ms' seen]. destruct (goes patch); [done |].
  eapply touches_trans; [exact H | apply add_last_touches].
Qed.

Fixpoint apply_patches (patches : list (string * SectionPatch)) (ms : list Mark) : list Mark :=
  match patches with
  | [] => ms
  | (k, patch) :: patches => apply_patches patches (patch_marks k patch ms)
  end.

(** One section: its replacements are added to those of the marks, and its lines to the
    insertions. *)
Lemma patch_section_marks k patch ms rs seen last ins ins' :
  Forall has_body ms → Forall (untouched k) ms → ins = list_to_map (mark_inserts original 0 ms) →
  section_pass k patch ∅ None (mark_statements 0 ms) = Ok (rs, seen, last) →
  (if negb patch.(sp_delete) && negb (is_some patch.(sp_add)) then
     insert_missing original seen last (entries patch.(sp_options)) ins else mret ins) = Ok ins' →
  (mark_edits 0 ms ++ rs ≡ₚ mark_edits 0 (patch_marks k patch ms))%list
  ∧ ins' = list_to_map (mark_inserts original 0 (patch_marks k patch ms)).
Proof.
  intros Hb Hun -> (E1 & -> & ->)%section_pass_marks H; [| done].
  pose proof (pass_marks_same k patch ∅ ms) as Hs. unfold patch_marks.
  destruct (pass_marks k patch ∅ ms) as [ms' seen]. cbn [fst snd] in *.
  destruct (same_inserts original 0 ms ms' Hs) as (I1 & I2 & I3 & I4). rewrite <- I4 in H.
  rewrite <- negb_orb in H. unfold goes. destruct (_ || _); cbn [negb] in H.
  { injection H as <-. by rewrite I1. }
  rewrite E1. split; [by rewrite (proj1 (add_last_edits _ _ _ _)) |].
  apply insert_missing_lines in H. destruct (missing_lines seen _) as [| l ls]; [by rewrite add_last_none, H, I1 |].
  destruct H as (at_ & Hat & ->).
  assert (Hb' : Forall has_body ms').
  { clear -Hs Hb. induction Hs as [| m m' ms ms' (E & _ & _) _ IH]; [done |]. apply Forall_cons in Hb as [Hm Hb].
    constructor; [| by apply IH]. unfold has_body in *. by rewrite E. }
  assert (Hf : Forall (λ m, in_section k m = true → m.(mk_added) = []) ms').
  { clear -Hs Hun. induction Hs as [| m m' ms ms' (E & Ek & Ea) _ IH]; [done |]. apply Forall_cons in Hun as [Hm Hun].
    constructor; [| by apply IH]. unfold untouched, in_section, mark_words in *. rewrite E, Ek, Ea. intros Hin. by apply Hm. }
  destruct (add_last_inserts k (l :: ls) ms' 0 at_) as [P1 P2]; [done | done | done | done |].
  rewrite <- I1. rewrite (not_elem_of_list_to_map_1 _ _ P2).
  symmetry. etransitivity; [apply list_to_map_proper; [| exact P1] | done].
  rewrite P1. cbn. constructor; [done | by apply mark_inserts_nodup].
Qed.

Lemma touched_marks k ms ms' : Forall2 (touches k) ms ms' →
  (Forall has_body ms → Forall has_body ms') ∧ (mk_segment <$> ms') = (mk_segment <$> ms)
  ∧ (∀ p, mark_statements p ms' = mark_statements p ms)
  ∧ ∀ k', k' ≠ k → Forall (untouched k') ms → Forall (untouched k') ms'.
Proof.
  induction 1 as [| m m' ms ms' (E & Ek & Et) _ (I1 & I2 & I3 & I4)]; [done |]. split_and?.
  - intros [Hm Hb]%Forall_cons. constructor; [| by apply I1]. unfold has_body in *. by rewrite E.
  - rewrite !fmap_cons, I2. by rewrite E.
  - intros p. cbn [mark_statements]. unfold mark_start, mark_token_end, mark_end, mark_token_end, mark_start. by rewrite E, Ek, I3.
  - intros k' Hk [Hm Hun]%Forall_cons. constructor; [| by apply I4]. intros Hin.
    assert (Hin' : in_section k' m = true) by (unfold in_section, mark_words in *; by rewrite <- E, <- Ek).
    rewrite Et; [by apply Hm |]. unfold in_section in *. apply andb_true_iff in Hin' as [Hs%bool_decide_eq_true _].
    rewrite Hs, (bool_decide_eq_false_2 (Some k' = Some k)) by congruence. done.
Qed.

Lemma patch_sections_marks patches : ∀ ms ins rs ins',
  NoDup patches.*1 → Forall has_body ms → (∀ k, k ∈ patches.*1 → Forall (untouched k) ms) →
  ins = list_to_map (mark_inserts original 0 ms) →
  patch_sections original (mark_statements 0 ms) patches ins = Ok (rs, ins') →
  (mark_edits 0 ms ++ rs ≡ₚ mark_edits 0 (apply_patches patches ms))%list
  ∧ ins' = list_to_map (mark_inserts original 0 (apply_patches patches ms))
  ∧ Forall has_body (apply_patches patches ms)
  ∧ (mk_segment <$> apply_patches patches ms) = (mk_segment <$> ms).
Proof.
  induction patches as [| [k patch] patches IH]; intros ms ins rs ins' Hnd Hb Hun Hins H; cbn [patch_sections apply_patches] in *.
  { injection H as <- <-. by rewrite app_nil_r. }
  apply bind_ok_inv in H as ([[rs1 seen] last] & H1 & H). apply bind_ok_inv in H as (ins1 & H2 & H).
  apply bind_ok_inv in H as ([rs2 ins2] & H3 & H). injection H as <- <-. apply NoDup_cons in Hnd as [Hk Hnd].
  destruct (patch_section_marks k patch ms rs1 seen last ins ins1) as [E1 E2]; [done | apply Hun; left | done | done | done |].
  destruct (touched_marks k ms _ (patch_marks_touches k patch ms)) as (T1 & T2 & T3 & T4).
  rewrite <- T3 in H3.
  destruct (IH (patch_marks k patch ms) ins1 rs2 ins2) as (F1 & F2 & F3 & F4); auto.
  { intros k' Hk'. apply T4; [by intros -> | apply Hun; by right]. }
  split_and?; [| done | done | congruence]. by rewrite app_assoc, E1, F1.
Qed.
End added.
