(* ===== verification/UciCarried.v ===== *)
(** * The output of [render] as a marked file

    The replacements and insertions of all patches are those of the marked statements and
    the lines of the new sections, and cutting the file up at these gives its text with the
    marks carried out. *)

From stdpp Require Import sorting.
From S2P Require Import Prelude RustStr SchedRecord UciEdits UciLexing UciMarks UciPasses.
Local Open Scope string_scope.

(** ** New sections *)

Fixpoint new_lines (patches : list (string * SectionPatch)) : list Line :=
  match patches with
  | [] => []
  | (section, patch) :: patches =>
      match patch.(sp_add) with
      | Some kind => SectionLine kind section :: missing_lines ∅ (entries patch.(sp_options))
      | None => []
      end ++ new_lines patches
  end%list.

Lemma lines_text_app a b : lines_text (a ++ b)%list = lines_text a +:+ lines_text b.
Proof. induction a as [| l a IH]; [done |]. cbn [app lines_text]. by rewrite IH, append_assoc. Qed.

Lemma line_nonempty l : line_text l ≠ "".
Proof. by destruct l. Qed.

Lemma lines_nonempty ls : ls ≠ [] → lines_text ls ≠ "".
Proof. destruct ls as [| l ls]; [done |]. intros _. cbn [lines_text]. by destruct l. Qed.

Lemma new_options_lines options text : new_options options = Ok text →
  text = lines_text (missing_lines ∅ options).
Proof.
  revert text. induction options as [| [key [value |]] options IH]; intros text H; cbn [new_options missing_lines] in *.
  - by injection H as <-.
  - apply bind_ok_inv in H as (t & ->%option_text_ok & H). apply bind_ok_inv in H as (rest & ->%IH & H).
    apply ret_ok_inv in H as <-. rewrite (bool_decide_eq_false_2 (key ∈ (∅ : gset string))) by (apply not_elem_of_empty).
    cbn [lines_text]. by rewrite option_line_text, !append_assoc.
  - by apply IH.
Qed.

Section carried.
Context (original : string).

Lemma add_sections_lines patches : ∀ ins ins',
  add_sections original patches ins = Ok ins' →
  match new_lines patches with
  | [] => ins' = ins
  | ls => let at_ := String.length original in
      ins' = <[at_ := fresh_line original at_ (default "" (ins !! at_)) +:+ lines_text ls]> ins
  end.
Proof.
  induction patches as [| [section patch] patches IH]; intros ins ins' H; cbn [add_sections new_lines] in *.
  { by injection H as <-. }
  destruct (sp_add patch) as [kind |]; [| by apply IH].
  apply bind_ok_inv in H as (text & ->%new_options_lines & H). apply IH in H.
  set (options := missing_lines ∅ _) in *. cbn [app].
  destruct (new_lines patches) as [| l ls].
  - rewrite app_nil_r. rewrite H. f_equal. f_equal. cbn [lines_text line_text]. by rewrite !append_assoc.
  - cbn zeta in H |- *. rewrite H, lookup_insert_eq, insert_insert_eq. cbn [default from_option id].
    rewrite fresh_line_nonempty by done. f_equal.
    cbn [lines_text line_text]. rewrite lines_text_app. cbn [lines_text]. by rewrite !append_assoc.
Qed.

(** ** The end of the file *)

Fixpoint marks_end (p : nat) (ms : list Mark) : nat :=
  match ms with [] => p | m :: ms => marks_end (mark_end p m) ms end.

Lemma marks_end_text p ms : marks_end p ms = (p + String.length (segments_text (mk_segment <$> ms)))%nat.
Proof.
  revert p. induction ms as [| m ms IH]; intros p; [cbn; lia |]. rewrite fmap_cons. cbn [marks_end segments_text].
  rewrite IH, length_append, segment_length. unfold mark_end, mark_token_end, mark_start. lia.
Qed.

Lemma mark_inserts_app p a b :
  mark_inserts original p (a ++ b) = (mark_inserts original p a ++ mark_inserts original (marks_end p a) b)%list.
Proof. revert p. induction a as [| m a IH]; intros p; [done |]. cbn [app mark_inserts marks_end]. by rewrite IH, app_assoc. Qed.

Lemma mark_edits_app p a b : mark_edits p (a ++ b) = (mark_edits p a ++ mark_edits (marks_end p a) b)%list.
Proof. revert p. induction a as [| m a IH]; intros p; [done |]. cbn [app mark_edits marks_end]. by rewrite IH, app_assoc. Qed.

Lemma mark_inserts_before p ms e : e ∈ (mark_inserts original p ms).*1 → (e ≤ marks_end p ms)%nat.
Proof.
  revert p. induction ms as [| m ms IH]; intros p He; [by apply elem_of_nil in He |].
  cbn [mark_inserts marks_end] in *. rewrite fmap_app, elem_of_app in He. destruct He as [He | He]; [| by apply IH].
  unfold added_ranges in He. destruct (mk_added m); [by apply elem_of_nil in He |].
  apply list_elem_of_singleton in He as ->. rewrite marks_end_text. cbn. lia.
Qed.

(** Lines after the last statement. *)
Fixpoint add_end (ls : list Line) (ms : list Mark) : list Mark :=
  match ms with
  | [] => []
  | m :: ms => match ms with [] => [add_lines ls m] | _ => m :: add_end ls ms end
  end.

Lemma add_end_app ls ms m : add_end ls (ms ++ [m]) = (ms ++ [add_lines ls m])%list.
Proof.
  induction ms as [| m' ms IH]; [done |]. cbn [app add_end]. rewrite IH.
  destruct (ms ++ [m])%list eqn:E; [by destruct ms |]. done.
Qed.

Lemma snoc_inserts ms m ls :
  Forall has_body (ms ++ [m])%list → ls ≠ [] →
  let at_ := marks_end 0 (ms ++ [m])%list in
  let ins : gmap nat string := list_to_map (mark_inserts original 0 (ms ++ [m])%list) in
  <[at_ := fresh_line original at_ (default "" (ins !! at_)) +:+ lines_text ls]> ins
  = list_to_map (mark_inserts original 0 (ms ++ [add_lines ls m])%list).
Proof.
  intros Hb Hls at_. assert (Hat : at_ = mark_end (marks_end 0 ms) m).
  { unfold at_. generalize 0. induction ms as [| m' ms IH]; intros p; [done |]. apply Forall_cons in Hb as [_ Hb]. by apply IH. }
  rewrite !mark_inserts_app. cbn [mark_inserts]. rewrite !app_nil_r.
  apply Forall_app in Hb as [Hb Hm]. apply Forall_cons in Hm as [Hm _].
  assert (Hno : at_ ∉ (mark_inserts original 0 ms).*1).
  { intros Hin%mark_inserts_before. rewrite Hat in Hin.
    pose proof (mark_start_after (marks_end 0 ms) m). pose proof (mark_token_end_after (marks_end 0 ms) m Hm).
    pose proof (mark_end_after (marks_end 0 ms) m). lia. }
  assert (Hmove : ∀ text, (list_to_map (mark_inserts original 0 ms ++ [(at_, text)])%list : gmap nat string)
    = <[at_ := text]> (list_to_map (mark_inserts original 0 ms))).
  { intros text. etransitivity; [apply (list_to_map_proper _ ((at_, text) :: mark_inserts original 0 ms)) | done].
    - rewrite fmap_app. apply NoDup_app. split_and?; [by apply mark_inserts_nodup | | apply NoDup_singleton].
      intros e He. cbn. rewrite list_elem_of_singleton. by intros ->.
    - by rewrite Permutation_app_comm. }
  unfold added_ranges. change (mark_end (marks_end 0 ms) (add_lines ls m)) with (mark_end (marks_end 0 ms) m).
  rewrite <- Hat. cbn [add_lines mk_added]. destruct (mk_added m) as [| l ls0].
  - cbn [app]. destruct ls as [| l ls]; [done |]. rewrite app_nil_r, Hmove.
    rewrite (not_elem_of_list_to_map_1 _ _ Hno). done.
  - cbn [app]. rewrite !Hmove. cbn zeta. rewrite lookup_insert_eq, insert_insert_eq. cbn [default from_option id].
    unfold added_text. rewrite fresh_line_nonempty by (by apply lines_nonempty).
    change (l :: ls0 ++ ls)%list with ((l :: ls0) ++ ls)%list. by rewrite lines_text_app, append_assoc.
Qed.

(** The new lines follow the last statement, or the gap after it. *)
Definition at_end (g : string) (ms : list Mark) : bool := String.eqb g "" && negb (bool_decide (ms = [])).
Definition end_marks (g : string) (ls : list Line) (ms : list Mark) : list Mark :=
  if at_end g ms then add_end ls ms else ms.
Definition end_text (g : string) (ls : list Line) (ms : list Mark) : string :=
  if at_end g ms then "" else match ls with [] => "" | _ => added_text original (String.length original) ls end.

Lemma add_end_nil ms : add_end [] ms = ms.
Proof.
  induction ms as [| m ms IH]; [done |]. cbn [add_end]. destruct ms; [| by rewrite IH].
  unfold add_lines. rewrite app_nil_r. by destruct m.
Qed.

Lemma added_text_nonempty at_ l ls : added_text original at_ (l :: ls) ≠ "".
Proof. unfold added_text. apply append_nonempty. by apply lines_nonempty. Qed.

Lemma end_inserts g ls ms (ins : gmap nat string) :
  original = segments_text (mk_segment <$> ms) +:+ g → Forall has_body ms →
  ins = list_to_map (mark_inserts original 0 ms) →
  match ls with
  | [] => ins
  | _ => let at_ := String.length original in
      <[at_ := fresh_line original at_ (default "" (ins !! at_)) +:+ lines_text ls]> ins
  end = list_to_map (mark_inserts original 0 (end_marks g ls ms) ++
          (if String.eqb (end_text g ls ms) "" then [] else [(String.length original, end_text g ls ms)]))%list
  ∧ NoDup (mark_inserts original 0 (end_marks g ls ms) ++
      (if String.eqb (end_text g ls ms) "" then [] else [(String.length original, end_text g ls ms)]))%list.*1
  ∧ mark_edits 0 (end_marks g ls ms) = mark_edits 0 ms ∧ Forall has_body (end_marks g ls ms)
  ∧ mk_segment <$> end_marks g ls ms = mk_segment <$> ms.
Proof.
  intros Ho Hb ->. unfold end_marks, end_text.
  pose proof (mark_inserts_nodup original 0 ms Hb) as Hnd.
  destruct ls as [| l ls].
  { rewrite add_end_nil. destruct (at_end g ms); by rewrite app_nil_r. }
  unfold at_end. destruct (String.eqb_spec g "") as [-> | Hg]; [destruct (bool_decide_reflect (ms = [])) as [-> | Hms] |];
    cbn [andb negb].
  - cbn zeta. destruct (String.eqb_spec (added_text original (String.length original) (l :: ls)) "") as [E |];
      [by apply added_text_nonempty in E |].
    cbn [mark_inserts app list_to_map foldr uncurry curry]. rewrite lookup_empty. split; [done |].
    split_and?; [apply NoDup_singleton | done | done | done].
  - destruct (exists_last Hms) as (ms' & m & ->). rewrite !add_end_app, String.eqb_refl, app_nil_r.
    rewrite <- snoc_inserts by done.
    replace (marks_end 0 (ms' ++ [m])) with (String.length original)
      by (rewrite marks_end_text; rewrite Ho at 1; by rewrite append_nil_r).
    split; [done |]. rewrite !mark_edits_app, !fmap_app.
    assert (Hb' : Forall has_body (ms' ++ [add_lines (l :: ls) m])) by (apply Forall_app in Hb as [Hb Hm]; apply Forall_cons in Hm as [Hm _];
          apply Forall_app; split; [exact Hb | constructor; [exact Hm | constructor]]).
    split_and?; [by apply mark_inserts_nodup | done | done | done].
  - cbn zeta. destruct (String.eqb_spec (added_text original (String.length original) (l :: ls)) "") as [E |];
      [by apply added_text_nonempty in E |].
    assert (Hno : String.length original ∉ (mark_inserts original 0 ms).*1).
    { intros Hin%mark_inserts_before. rewrite marks_end_text, Ho, length_append in Hin. destruct g; [done |]. cbn in Hin. lia. }
    rewrite (not_elem_of_list_to_map_1 _ _ Hno).
    assert (Hnd' : NoDup (mark_inserts original 0 ms ++ [(String.length original, added_text original (String.length original) (l :: ls))])%list.*1).
    { rewrite fmap_app. apply NoDup_app. split_and?; [done | | apply NoDup_singleton].
      intros e He. cbn. rewrite list_elem_of_singleton. by intros ->. }
    split_and?; [| done | done | done | done].
    symmetry. etransitivity; [apply list_to_map_proper; [done | apply Permutation_app_comm] | done].
Qed.

(** ** The file before any pass *)

Definition start_mark (s : Segment) (e : list string * option string) : Mark :=
  {| mk_segment := s; mk_section := e.2; mk_edit := Keep; mk_added := [] |}.
Definition start_marks : list Segment → list (list string * option string) → list Mark := zip_with start_mark.

Lemma scope_run_words wss : ∀ scope es last, scope_run scope wss = Ok (es, last) → es.*1 = wss.
Proof.
  induction wss as [| ws wss IH]; intros scope es last H; cbn [scope_run] in H; [by injection H as <- <- |].
  apply bind_ok_inv in H as (scope1 & _ & H). apply bind_ok_inv in H as ([es1 last1] & H1 & H).
  injection H as <- <-. cbn. by rewrite (IH _ _ _ H1).
Qed.

Lemma start_marks_segments ss es : es.*1 = sg_words <$> ss → mk_segment <$> start_marks ss es = ss.
Proof.
  revert es. induction ss as [| s ss IH]; intros [| e es] H; try done. rewrite !fmap_cons in H.
  injection H as _ H. cbn [start_marks zip_with]. rewrite fmap_cons. by rewrite IH.
Qed.

Lemma start_marks_statements ss es p : es.*1 = sg_words <$> ss →
  mark_statements p (start_marks ss es) = placed p ss es.
Proof.
  revert es p. induction ss as [| s ss IH]; intros [| [ws k] es] p H; try done. rewrite !fmap_cons in H.
  injection H as Hw H. cbn [fst] in Hw. subst ws. cbn [start_marks zip_with mark_statements placed].
  unfold mark_end, mark_token_end, mark_start. cbn [start_mark mk_segment mk_section snd].
  change (zip_with start_mark ss es) with (start_marks ss es). by rewrite IH.
Qed.

Lemma start_marks_fresh ss es p :
  mark_edits p (start_marks ss es) = [] ∧ mark_inserts original p (start_marks ss es) = []
  ∧ ∀ k, Forall (untouched k) (start_marks ss es).
Proof.
  revert es p. induction ss as [| s ss IH]; intros [| e es] p; try done.
  destruct (IH es (mark_end p (start_mark s e))) as (E1 & E2 & E3).
  cbn [start_marks zip_with mark_edits mark_inserts]. change (zip_with start_mark ss es) with (start_marks ss es).
  rewrite E1, E2. split_and?; [done | done |]. intros k. by constructor.
Qed.

Lemma segment_has_body s : segment_ok s → s.(sg_body) ≠ "".
Proof. intros [_ (ws & Hw & _) _ _]. by eapply words_nonempty. Qed.

Lemma file_has_body ss g : file_ok ss g → Forall (λ s, s.(sg_body) ≠ "") ss.
Proof. induction 1; repeat constructor; eauto using segment_has_body. Qed.

Lemma start_marks_body ss es : Forall (λ s, s.(sg_body) ≠ "") ss → Forall has_body (start_marks ss es).
Proof. intros H. revert es. induction H; intros [| e es]; by constructor. Qed.

Lemma entries_nodup {A} (m : gmap string A) : NoDup (entries m).*1.
Proof. unfold entries. rewrite merge_sort_Permutation. apply NoDup_fst_map_to_list. Qed.

Lemma mark_ranges_below p ms r : Forall has_body ms → r ∈ mark_ranges original p ms →
  (r.1.1 < marks_end p ms)%nat ∨ r.1.1 ∈ (mark_inserts original p ms).*1.
Proof.
  intros H. revert p. induction H as [| m ms Hm _ IH]; intros p Hr; [by apply elem_of_nil in Hr |].
  cbn [mark_ranges mark_inserts marks_end] in *. rewrite app_assoc, elem_of_app in Hr.
  rewrite fmap_app, elem_of_app. destruct Hr as [Hr | Hr%IH]; [| tauto].
  destruct (own_ranges original p m r Hm Hr) as [_ [Hlt | [Ha E]]].
  - left. rewrite marks_end_text. lia.
  - right. left. unfold added_ranges. destruct (mk_added m); [done |]. rewrite E. left.
Qed.

Lemma all_ranges_sorted ms (final : list (nat * string)) (L : nat) :
  Forall has_body ms → (marks_end 0 ms ≤ L)%nat → NoDup (mark_inserts original 0 ms ++ final)%list.*1 →
  final = [] ∨ (∃ text, final = [(L, text)]) →
  StronglySorted range_lt (mark_ranges original 0 ms ++ (insertion_range <$> final))%list.
Proof.
  intros Hb HL Hnd Hf. apply sorted_app; [by apply mark_ranges_sorted | |].
  - destruct Hf as [-> | [text ->]]; repeat constructor.
  - destruct Hf as [-> | [text ->]]; [intros x y _ Hy; by apply elem_of_nil in Hy |].
    intros x y Hx Hy. cbn in Hy. apply list_elem_of_singleton in Hy as ->.
    rewrite fmap_app in Hnd. apply NoDup_app in Hnd as (_ & Hno & _).
    apply mark_ranges_below in Hx as [Hx | Hx]; [unfold range_lt; cbn; lia | | done].
    pose proof (mark_inserts_before _ _ _ Hx). apply Hno in Hx. cbn in Hx. rewrite list_elem_of_singleton in Hx.
    unfold range_lt. cbn. lia.
Qed.

(** The sorted replacements are those of the marks, and the new lines at the end. *)
Lemma render_ranges ss g es patches rs ins ins' :
  original = segments_text ss +:+ g → file_ok ss g → es.*1 = sg_words <$> ss → NoDup patches.*1 →
  patch_sections original (placed 0 ss es) patches ∅ = Ok (rs, ins) →
  add_sections original patches ins = Ok ins' →
  let ms := apply_patches patches (start_marks ss es) in
  let ls := new_lines patches in
  merge_sort range_le (rs ++ ((λ '(at_, bytes), (at_, at_, bytes)) <$> map_to_list ins'))%list
  = (mark_ranges original 0 (end_marks g ls ms) ++
      if String.eqb (end_text g ls ms) "" then [] else [(String.length original, String.length original, end_text g ls ms)])%list
  ∧ mk_segment <$> ms = ss ∧ mk_segment <$> end_marks g ls ms = ss
  ∧ (marks_end 0 (end_marks g ls ms) ≤ String.length original)%nat.
Proof.
  intros Ho Hok Hes Hnd Hp Ha. cbn zeta.
  destruct (start_marks_fresh ss es 0) as (F1 & F2 & F3).
  rewrite <- (start_marks_statements ss es 0 Hes) in Hp.
  apply patch_sections_marks in Hp as (P1 & P2 & P3 & P4);
    [| done | apply start_marks_body; by eapply file_has_body | intros; apply F3 | by rewrite F2].
  rewrite F1 in P1. cbn [app] in P1. rewrite (start_marks_segments _ _ Hes) in P4.
  apply add_sections_lines in Ha. set (ms := apply_patches _ _) in *. set (ls := new_lines _) in *.
  destruct (end_inserts g ls ms ins) as (I1 & I2 & I3 & I4 & I5); [by rewrite P4 | done | done |].
  rewrite P4 in I5.
  assert (Ea : ins' = match ls with [] => ins | _ => let at_ := String.length original in
      <[at_ := fresh_line original at_ (default "" (ins !! at_)) +:+ lines_text ls]> ins end) by (by destruct ls).
  rewrite I1 in Ea. subst ins'. clear I1 Ha.
  set (final := if String.eqb (end_text g ls ms) "" then [] else [(String.length original, end_text g ls ms)]) in *.
  assert (HL : (marks_end 0 (end_marks g ls ms) ≤ String.length original)%nat).
  { rewrite marks_end_text, I5, Ho, length_append. lia. }
  split_and?; [| done | done | done].
  rewrite (sorted_unique (mark_ranges original 0 (end_marks g ls ms) ++ (insertion_range <$> final))%list).
  - unfold final. by destruct (String.eqb _ _).
  - apply (all_ranges_sorted _ _ (String.length original)); [done | done | done |].
    unfold final. destruct (String.eqb _ _); eauto.
  - rewrite mark_ranges_split, I3, <- P1, <- app_assoc. apply Permutation_app_head.
    rewrite <- fmap_app, map_to_list_to_map by exact I2.
    apply reflexive_eq, list_fmap_ext. by intros _ [at_ bytes] _.
Qed.

(** [render] carries out the marks of all patches. *)
Lemma render_carried edits out : uci_render original edits = Ok out →
  ∃ ss g es last patches,
    original = segments_text ss +:+ g ∧ file_bounds original ∧ file_ok ss g
    ∧ scope_run (∅, None) (sg_words <$> ss) = Ok (es, last) ∧ (length ss ≤ MAX_STATEMENTS)%nat
    ∧ collect last.1 ∅ edits = Ok patches
    ∧ let ms := apply_patches (entries patches) (start_marks ss es) in
      let ls := new_lines (entries patches) in
      out = marked_text original 0 (end_marks g ls ms) +:+ g +:+ end_text g ls ms
      ∧ (len out ≤ MAX_UCI_BYTES)%N ∧ mk_segment <$> ms = ss.
Proof.
  unfold uci_render. intros [_ H]%then_ok. apply then_ok in H as [_ H].
  apply bind_ok_inv in H as ([stmts secs] & Hst & H).
  apply statements_inv in Hst as (Hb & ss & g & es & last & Ho & Hok & Hrun & <- & -> & Hn).
  apply bind_ok_inv in H as (patches & Hc & H). apply bind_ok_inv in H as ([rs ins] & Hp & H).
  apply bind_ok_inv in H as (ins' & Ha & H).
  exists ss, g, es, last, patches. do 6 (split; [done |]). cbn zeta.
  pose proof (scope_run_words _ _ _ _ Hrun) as Hes.
  destruct (render_ranges ss g es (entries patches) rs ins ins') as (R1 & R2 & R3 & _); try done; [apply entries_nodup |].
  rewrite R1 in H. apply splice_value in H as [-> Hl]. split; [| done]. cbn [String.append].
  apply (splice_marks original _ "" "" g 0 0); [by rewrite R3 | done | done].
Qed.
End carried.
