(* ===== verification/UciOutput.v ===== *)
(** * Reading the output of [render]

    The text of a marked file is a file again: the statements that are kept, changed and
    added are the segments of the output, in this order, and what is dropped leaves only its
    gap behind. *)

From stdpp Require Import sorting.
From S2P Require Import Prelude RustStr SchedRecord UciEdits UciLexing UciMarks UciPasses UciCarried.
Local Open Scope string_scope.

(** ** The lines the renderer writes *)

Definition name_ok (s : string) : Prop := uci_name s = Ok s.

Lemma name_ok_bytes s : name_ok s → s ≠ "" ∧ all_bytes name_byte s = true.
Proof.
  unfold name_ok, uci_name. intros [H _]%then_ok. apply fail_if_ok in H.
  apply orb_false_iff in H as [[H1 _]%orb_false_iff H2%negb_false_iff].
  split; [| done]. by apply String.eqb_neq.
Qed.

Definition line_ok (l : Line) : Prop :=
  match l with
  | OptionLine key value => name_ok key ∧ any_control value = false
  | SectionLine kind section => name_ok kind ∧ name_ok section
  end.

Definition line_words (l : Line) : list string :=
  match l with
  | OptionLine key value => ["option"; key; value]
  | SectionLine kind section => ["config"; kind; section]
  end.

Lemma name_byte_plain c : name_byte c = true → plain_byte Unquoted c = true.
Proof. destruct c as [[] [] [] [] [] [] [] []]; by vm_compute. Qed.

Lemma name_text s : all_bytes name_byte s = true → word_text Unquoted s s.
Proof.
  induction s as [| c s IH]; [constructor |]. cbn [all_bytes]. intros [Hc Hs]%andb_true_iff.
  apply wt_plain; [by apply name_byte_plain | by apply IH].
Qed.

Lemma quoted_text_tail v : word_text SingleQuoted (escape_quotes v +:+ "'") v.
Proof.
  induction v as [| c v IH]; [repeat constructor |]. cbn [escape_quotes].
  destruct (Ascii.eqb_spec c "'") as [-> | Hc].
  - cbn [String.append]. apply wt_single_end, wt_escaped; [done | done | done |]. by apply wt_single.
  - apply wt_literal; [by apply Ascii.eqb_neq | done].
Qed.

Lemma quoted_text v : word_text Unquoted (quoted v) v.
Proof. apply wt_single, quoted_text_tail. Qed.

Lemma single_text s : all_bytes name_byte s = true → word_text Unquoted ("'" +:+ s +:+ "'") s.
Proof.
  intros H. apply wt_single. induction s as [| c s IH]; [repeat constructor |]. cbn [all_bytes] in H.
  apply andb_true_iff in H as [Hc Hs]. cbn [String.append]. apply wt_literal; [| by apply IH].
  apply name_byte_plain in Hc. unfold plain_byte in Hc. by destruct (Ascii.eqb c "'"); [rewrite !andb_false_r in Hc |].
Qed.

Lemma two_words_text command a b wa wb :
  all_bytes name_byte command = true → command ≠ "" → word_text Unquoted a wa → a ≠ "" →
  word_text Unquoted b wb → b ≠ "" →
  words_text 4 (command +:+ " " +:+ a +:+ " " +:+ b) [command; wa; wb].
Proof.
  intros. apply (wts_more 3 command command " "); [by apply name_text | done | done | done |].
  apply (wts_more 2 a wa " "); [done | done | done | done |]. by constructor.
Qed.

Lemma option_line_words key value : name_ok key →
  words_text 4 (option_line key value) ["option"; key; value].
Proof.
  intros [Hk Hn]%name_ok_bytes. apply (two_words_text "option"); [done | done | by apply name_text | done | apply quoted_text | done].
Qed.

Lemma section_line_words kind section : name_ok kind → name_ok section →
  words_text 4 ("config " +:+ kind +:+ " '" +:+ section +:+ "'") ["config"; kind; section].
Proof.
  intros [Hk Hn]%name_ok_bytes [Hs Hm]%name_ok_bytes.
  apply (two_words_text "config"); [done | done | by apply name_text | done | by apply single_text | done].
Qed.

Lemma ends_cr_quote a : ends_cr (a +:+ "'") = false.
Proof.
  induction a as [| c a IH]; [done |]. cbn [String.append]. destruct a as [| d a].
  - cbn. by rewrite andb_false_r.
  - destruct (String d a +:+ "'") as [| e [| f r]] eqn:E; [done | by destruct a | exact IH].
Qed.

Lemma quote_follow a te : delimited te = true → may_follow (a +:+ "'") te = true.
Proof. intros H. unfold may_follow. by rewrite ends_cr_quote, H. Qed.

Lemma option_line_follow key value te : delimited te = true → may_follow (option_line key value) te = true.
Proof.
  intros H. unfold option_line, quoted. rewrite <- !append_assoc. by apply quote_follow.
Qed.

(** ** Their segments *)

Definition line_segment (gap : string) (l : Line) : Segment :=
  {| sg_gap := match l with OptionLine _ _ => gap +:+ str1 tab | SectionLine _ _ => gap end;
     sg_body := match l with
                | OptionLine key value => option_line key value
                | SectionLine kind section => "config " +:+ kind +:+ " '" +:+ section +:+ "'"
                end;
     sg_tail := str1 nl; sg_words := line_words l; sg_open := false |}.

Lemma line_segment_text gap l : segment_text (line_segment gap l) = gap +:+ line_text l.
Proof. unfold segment_text. destruct l; cbn [line_segment sg_gap sg_body sg_tail line_text]; by rewrite !append_assoc. Qed.

Lemma nl_closes : closes (str1 nl).
Proof. done. Qed.

Lemma line_segment_ok gap l : line_ok l → gap_run false gap = Some false → segment_ok (line_segment gap l).
Proof.
  intros Hl Hg. destruct l as [key value | kind section]; cbn in Hl; split; cbn [line_segment sg_gap sg_body sg_tail sg_words sg_open].
  - by rewrite gap_run_append, Hg.
  - destruct Hl as [Hk _]. eexists. split; [by apply option_line_words | done].
  - by apply option_line_follow.
  - apply nl_closes.
  - done.
  - destruct Hl as [Hk Hs]. eexists. split; [by apply section_line_words | done].
  - rewrite <- !append_assoc. by apply quote_follow.
  - apply nl_closes.
Qed.

Fixpoint line_segments (gap : string) (ls : list Line) : list Segment :=
  match ls with [] => [] | l :: ls => line_segment gap l :: line_segments "" ls end.

(** Segments something may follow. *)
Definition closed_ok (s : Segment) : Prop := segment_ok s ∧ s.(sg_open) = false.

Lemma line_segments_ok gap ls : Forall line_ok ls → gap_run false gap = Some false →
  Forall closed_ok (line_segments gap ls) ∧ sg_words <$> line_segments gap ls = line_words <$> ls
  ∧ (ls ≠ [] → segments_text (line_segments gap ls) = gap +:+ lines_text ls).
Proof.
  intros H. revert gap. induction H as [| l ls Hl _ IH]; intros gap Hg; [by repeat constructor |].
  destruct (IH "" eq_refl) as (I1 & I2 & I3). cbn [line_segments]. split_and?.
  - constructor; [| done]. split; [by apply line_segment_ok | done].
  - rewrite !fmap_cons. by rewrite I2.
  - intros _. cbn [segments_text lines_text]. rewrite line_segment_text, append_assoc. do 2 f_equal.
    destruct ls; [done |]. by apply I3.
Qed.

Lemma file_app a b g : Forall closed_ok a → file_ok b g → file_ok (a ++ b) g.
Proof. intros H Hb. induction H as [| s a [Hs Ho] _ IH]; [done |]. by apply fo_cons. Qed.

Lemma segments_text_app a b : segments_text (a ++ b) = segments_text a +:+ segments_text b.
Proof. induction a as [| s a IH]; [done |]. cbn [app segments_text]. by rewrite IH, append_assoc. Qed.

(** ** The end of the file *)

(** A line end is escaped at the end of the text: a line added there would go on with it. *)
Fixpoint escaped_end (s : string) : bool :=
  match s with
  | "" => false
  | String a r =>
      String.eqb s (String "\" (str1 nl)) || String.eqb s (String "\" (String cr (str1 nl)))
      || String.eqb s (String "\" (str1 cr)) || escaped_end r
  end.

Fixpoint last_is (c : ascii) (s : string) : bool :=
  match s with "" => false | String a "" => Ascii.eqb a c | String _ r => last_is c r end.

Lemma escaped_end_append a b : escaped_end b = true → escaped_end (a +:+ b) = true.
Proof. intros H. induction a as [| c a IH]; [done |]. cbn [String.append escaped_end]. by rewrite IH, !orb_true_r. Qed.

Lemma last_is_append c a b : b ≠ "" → last_is c (a +:+ b) = last_is c b.
Proof.
  intros H. induction a as [| d a IH]; [done |]. rewrite <- IH. cbn [String.append last_is].
  destruct (a +:+ b) eqn:E; [| done]. destruct a; [by cbn in E |]. done.
Qed.

Lemma last_get c s : String.get (String.length s - 1) s = Some c ↔ last_is c s = true.
Proof.
  induction s as [| a s IH]; [done |]. cbn [last_is]. destruct s as [| b s].
  - cbn. rewrite Ascii.eqb_eq. split; congruence.
  - rewrite <- IH. cbn [String.length]. rewrite !Nat.sub_1_r. done.
Qed.

Lemma last_contains c s : last_is c s = true → contains c s = true.
Proof.
  induction s as [| a s IH]; [done |]. intros H. rewrite contains_cons. destruct s as [| b s].
  - cbn in H. by rewrite Ascii.eqb_sym, H.
  - rewrite IH by done. by rewrite orb_true_r.
Qed.

Lemma fresh_line_text original at_ : fresh_line original at_ "" = "" ∨ fresh_line original at_ "" = str1 nl.
Proof. unfold fresh_line. destruct (_ && _); auto. Qed.

Lemma fresh_line_gap original at_ : gap_run false (fresh_line original at_ "") = Some false.
Proof. destruct (fresh_line_text original at_) as [-> | ->]; done. Qed.

Lemma fresh_line_end original : original ≠ "" → last_is nl original = false →
  fresh_line original (String.length original) "" = str1 nl.
Proof.
  intros Ho Hn. unfold fresh_line. cbn [String.eqb andb].
  destruct original as [| c o]; [done |]. replace (_ =? _)%nat with false by done. cbn [negb andb].
  rewrite bool_decide_eq_false_2; [done |]. rewrite last_get. by rewrite Hn.
Qed.


Lemma empty_word q w : word_text q "" w → q = Unquoted.
Proof. by inversion 1. Qed.

(** A word that ends in a newline ends in an escaped one. *)
Lemma word_end q b w : word_text q b w → last_is nl b = true → escaped_end b = true.
Proof.
  intros H. induction H as [| b w H IH | b w H IH | b w H IH | b w H IH | c b w Hc H IH | q c b w Hc H IH
    | q b w Hq H IH | q b w Hq H IH | q c b w Hq Hc Hcr H IH]; intros Hl; try done;
    try (destruct b as [| d b];
      [ | first [ by apply (escaped_end_append (str1 _)), IH
                | by apply (escaped_end_append (String _ (str1 _))), IH
                | by apply (escaped_end_append (String _ (String _ (str1 _)))), IH ]]); try done;
    try (by apply empty_word in H).
  - apply empty_word in H as ->. cbn in Hl. apply Ascii.eqb_eq in Hl as ->. done.
  - change (Ascii.eqb c nl = true) in Hl. congruence.
Qed.

Lemma words_end n b ws : words_text n b ws → last_is nl b = true → escaped_end b = true.
Proof.
  induction 1 as [n b w Hw Hb | n b w blanks body ws Hw Hb Hne Ha Hws IH]; intros Hl; [by eapply word_end |].
  rewrite <- append_assoc in *. apply escaped_end_append, IH.
  rewrite last_is_append in Hl; [done | by eapply words_nonempty].
Qed.

Lemma ends_cr_escaped b : ends_cr b = true → escaped_end b = true.
Proof.
  induction b as [| a b IH]; [done |]. intros H. destruct b as [| c [| d b]]; [done | |].
  - cbn in H. apply andb_true_iff in H as [->%Ascii.eqb_eq ->%Ascii.eqb_eq]. done.
  - apply (escaped_end_append (str1 a)). by apply IH.
Qed.

(** ** The segments of the output *)

Definition edit_out (m : Mark) : list (list string) :=
  match m.(mk_edit) with
  | Keep => [m.(mk_segment).(sg_words)]
  | Change key value => [["option"; key; value]]
  | Drop => []
  end.
(** The statements a mark leaves in the output. *)
Definition mark_out (m : Mark) : list (list string) := (edit_out m ++ (line_words <$> m.(mk_added)))%list.

Record mark_ok (m : Mark) : Prop := {
  mo_change : ∀ key value, m.(mk_edit) = Change key value → line_ok (OptionLine key value);
  mo_added : Forall line_ok m.(mk_added);
}.

(** The segment of a statement that stays, with what precedes it and a new end. *)
Definition kept_segment (pend : string) (more : string) (open : bool) (m : Mark) : Segment :=
  {| sg_gap := pend +:+ m.(mk_segment).(sg_gap);
     sg_body := match m.(mk_edit) with
                | Change key value => option_line key value
                | _ => m.(mk_segment).(sg_body)
                end;
     sg_tail := m.(mk_segment).(sg_tail) +:+ more;
     sg_words := match m.(mk_edit) with
                 | Change key value => ["option"; key; value]
                 | _ => m.(mk_segment).(sg_words)
                 end;
     sg_open := open |}.

Lemma kept_segment_text pend more open m : m.(mk_edit) ≠ Drop →
  segment_text (kept_segment pend more open m)
  = pend +:+ m.(mk_segment).(sg_gap) +:+ marked_body m +:+ more.
Proof.
  intros Hd. unfold segment_text, marked_body. cbn [kept_segment sg_gap sg_body sg_tail].
  destruct (mk_edit m); [by rewrite !append_assoc | by rewrite !append_assoc | done].
Qed.

Lemma kept_segment_ok pend more (open : bool) m :
  segment_ok m.(mk_segment) → mark_ok m → gap_run false pend = Some false →
  may_follow m.(mk_segment).(sg_body) (m.(mk_segment).(sg_tail) +:+ more) = true →
  (if open then ends_line (m.(mk_segment).(sg_tail) +:+ more) else closes (m.(mk_segment).(sg_tail) +:+ more)) →
  segment_ok (kept_segment pend more open m).
Proof.
  intros [Hg (ws & Hw & Ew) Hf Ht] [Hc _] Hp Hf' Ht'. split; cbn [kept_segment sg_gap sg_body sg_tail sg_words sg_open].
  - by rewrite gap_run_append, Hp.
  - destruct (mk_edit m) as [| key value |]; [by exists ws | | by exists ws].
    destruct (Hc key value eq_refl) as [Hk _]. eexists. split; [by apply option_line_words | done].
  - destruct (mk_edit m); [done | | done]. apply option_line_follow. by apply andb_true_iff in Hf' as [? _].
  - done.
Qed.

(** Output segments that something may follow, with a gap pending after them. *)
Definition reads (text : string) (ss : list Segment) (pend : string) : Prop :=
  text = segments_text ss +:+ pend ∧ Forall closed_ok ss ∧ gap_run false pend = Some false.

Lemma reads_app a ss pend b ss' pend' :
  reads a ss pend → reads (pend +:+ b) ss' pend' → reads (a +:+ b) (ss ++ ss') pend'.
Proof.
  intros (-> & Ha & _) (E & Hb & Hp). unfold reads; split_and?; [| by apply Forall_app | done].
  by rewrite segments_text_app, !append_assoc, E.
Qed.

Lemma reads_gap a b : gap_run false a = Some false → gap_run false b = Some false → reads (a +:+ b) [] (a +:+ b).
Proof. intros Ha Hb. unfold reads; split_and?; [done | constructor |]. by rewrite gap_run_append, Ha. Qed.

Lemma reads_lines original at_ pend ls : gap_run false pend = Some false → Forall line_ok ls → ls ≠ [] →
  ∃ ss : list Segment, reads (pend +:+ added_text original at_ ls) ss "" ∧ sg_words <$> ss = line_words <$> ls.
Proof.
  intros Hp Hl Hn. unfold added_text. exists (line_segments (pend +:+ fresh_line original at_ "") ls).
  destruct (line_segments_ok (pend +:+ fresh_line original at_ "") ls Hl) as (L1 & L2 & L3).
  { rewrite gap_run_append, Hp. apply fresh_line_gap. }
  split; [| done]. unfold reads; split_and?; [by rewrite L3, append_nil_r, append_assoc | done | done].
Qed.

Section rebuild.
Context (original : string).

(** The lines added after a mark. *)
Lemma reads_added p m pend : gap_run false pend = Some false → mark_ok m →
  ∃ (ss : list Segment) (pend' : string), reads (pend +:+ added_after original p m) ss pend' ∧ sg_words <$> ss = line_words <$> m.(mk_added).
Proof.
  intros Hp [_ Ha]. unfold added_after. destruct (mk_added m) as [| l ls].
  - exists [], pend. rewrite append_nil_r. split; [| done]. unfold reads; split_and?; [done | constructor | done].
  - destruct (reads_lines original (mark_end p m) pend (l :: ls)) as (ss & H & E); [done | done | done |]. by exists ss, "".
Qed.

(** A mark in the middle of the file. *)
Lemma reads_mark p m pend :
  segment_ok m.(mk_segment) → m.(mk_edit) = Drop ∨ m.(mk_segment).(sg_open) = false →
  mark_ok m → gap_run false pend = Some false →
  ∃ (ss : list Segment) (pend' : string), reads (pend +:+ m.(mk_segment).(sg_gap) +:+ marked_body m +:+ added_after original p m) ss pend'
    ∧ sg_words <$> ss = mark_out m.
Proof.
  intros Hs Hopen Hm Hp.
  assert (∃ (ss : list Segment) (pend' : string), reads (pend +:+ m.(mk_segment).(sg_gap) +:+ marked_body m) ss pend'
    ∧ sg_words <$> ss = edit_out m) as (ss & pend1 & H1 & E1).
  { unfold edit_out. destruct (decide (mk_edit m = Drop)) as [E | E].
    - exists [], (pend +:+ sg_gap (mk_segment m)). unfold marked_body. rewrite E, append_nil_r.
      split; [| done]. apply reads_gap; [done | apply Hs].
    - exists [kept_segment pend "" false m], "". split; [| revert E; cbn; by destruct (mk_edit m)]. unfold reads; split_and?; [| | done].
      + cbn [segments_text]. rewrite kept_segment_text by done. by rewrite !append_nil_r.
      + constructor; [| constructor]. split; [| done]. pose proof Hs as [_ _ Hf Ht].
        destruct Hopen as [? | Ho]; [congruence |]. rewrite Ho in Ht.
        apply kept_segment_ok; [done | done | done | by rewrite append_nil_r | by rewrite append_nil_r]. }
  destruct (reads_added p m pend1) as (ss2 & pend2 & H2 & E2); [apply H1 | done |].
  exists (ss ++ ss2)%list, pend2. rewrite <- !append_assoc, (append_assoc pend) by done.
  split; [by eapply reads_app |]. unfold mark_out. by rewrite fmap_app, E1, E2.
Qed.

(** The statement the end of the file ends. *)
Lemma reads_open p m pend :
  segment_ok m.(mk_segment) → m.(mk_segment).(sg_open) = true → m.(mk_edit) ≠ Drop → mark_ok m →
  gap_run false pend = Some false → escaped_end original = false →
  (∃ before, original = before +:+ segment_text m.(mk_segment)) → mark_end p m = String.length original →
  ∃ ss g, pend +:+ m.(mk_segment).(sg_gap) +:+ marked_body m +:+ added_after original p m = segments_text ss +:+ g
    ∧ file_ok ss g ∧ sg_words <$> ss = mark_out m.
Proof.
  intros Hs Ho Hd Hm Hp He [before Hb] Hat. pose proof Hs as [_ (ws & Hw & _) Hf Ht]. rewrite Ho in Ht.
  assert (Ew : ∀ more open, sg_words (kept_segment pend more open m) :: [] = edit_out m).
  { intros. unfold edit_out. cbn. by destruct (mk_edit m). }
  unfold added_after, mark_out. destruct (mk_added m) as [| l ls] eqn:Ea.
  - exists [kept_segment pend "" true m], "". rewrite append_nil_r. split_and?.
    + cbn [segments_text]. rewrite kept_segment_text by done. by rewrite !append_nil_r.
    + apply fo_open; [| done]. apply kept_segment_ok; [done | done | done | by rewrite append_nil_r | by rewrite append_nil_r].
    + rewrite app_nil_r, <- (Ew "" true). done.
  - (* the last byte is not a newline, so the lines start a new one *)
    assert (Hbody : ∃ before', original = before' +:+ m.(mk_segment).(sg_body) +:+ m.(mk_segment).(sg_tail)).
    { exists (before +:+ m.(mk_segment).(sg_gap)). rewrite Hb. unfold segment_text. by rewrite !append_assoc. }
    clear Hb. destruct Hbody as [before' Hb]. pose proof (words_nonempty _ _ _ Hw) as Hne.
    assert (Hcl : sg_tail (mk_segment m) = "" → escaped_end (sg_body (mk_segment m)) = false).
    { intros Et. rewrite Et, append_nil_r in Hb. destruct (escaped_end (sg_body _)) eqn:E; [| done].
      apply (escaped_end_append before') in E. congruence. }
    assert (Hlast : last_is nl original = false).
    { rewrite Hb. destruct Ht as (_ & _ & Hnl). destruct (last_is nl _) eqn:E; [| done]. rewrite last_is_append in E.
      - destruct (decide (sg_tail (mk_segment m) = "")) as [Et | Et].
        + rewrite Et, append_nil_r in E. apply (words_end _ _ _ Hw) in E. by rewrite Hcl in E.
        + rewrite last_is_append in E by done. apply last_contains in E. congruence.
      - destruct (sg_body (mk_segment m)); [done | done]. }
    assert (Hfresh : fresh_line original (mark_end p m) "" = str1 nl).
    { rewrite Hat. apply fresh_line_end; [| done]. rewrite Hb. apply append_nonempty.
      by destruct (sg_body (mk_segment m)). }
    exists (kept_segment pend (str1 nl) false m :: line_segments "" (l :: ls)), "".
    pose proof Hm as [_ Hl]. destruct (line_segments_ok "" (l :: ls)) as (L1 & L2 & L3); [by rewrite <- Ea | done |].
    split_and?.
    + cbn [segments_text]. rewrite kept_segment_text by done. rewrite L3, append_nil_r by done.
      unfold added_text. rewrite Hfresh. by rewrite !append_assoc.
    + rewrite <- (app_nil_r (_ :: _)). apply file_app; [| by apply fo_end].
      constructor; [| done]. split; [| done]. apply kept_segment_ok; [done | done | done | |].
      * destruct (decide (sg_tail (mk_segment m) = "")) as [Et | Et]; [| by rewrite may_follow_head].
        rewrite Et. unfold may_follow. destruct (ends_cr (sg_body (mk_segment m))) eqn:E; [| done].
        apply ends_cr_escaped in E. by rewrite Hcl in E.
      * split; [by apply append_nonempty |]. intros rest. rewrite append_assoc. apply Ht.
    + rewrite fmap_cons, L2. by rewrite <- (Ew (str1 nl) false).
Qed.

(** What follows the last gap. *)
Definition tail_text (ls : list Line) : string :=
  match ls with [] => "" | _ => added_text original (String.length original) ls end.

Lemma rebuild ms : ∀ before pend p g ls,
  original = before +:+ segments_text (mk_segment <$> ms) +:+ g → p = String.length before →
  file_ok (mk_segment <$> ms) g → Forall mark_ok ms → Forall line_ok ls →
  gap_run false pend = Some false → escaped_end original = false →
  (ls ≠ [] → Forall (λ m, m.(mk_segment).(sg_open) = false) ms
    ∧ gap_run false (g +:+ fresh_line original (String.length original) "") = Some false) →
  ∃ ss g', pend +:+ marked_text original p ms +:+ g +:+ tail_text ls = segments_text ss +:+ g'
    ∧ file_ok ss g' ∧ sg_words <$> ss = (concat (mark_out <$> ms) ++ (line_words <$> ls))%list.
Proof.
  induction ms as [| m ms IH]; intros before pend p g ls Ho Hp Hok Hm Hl Hg He Hend.
  - cbn [marked_text fmap list_fmap concat app]. cbn [String.append]. inversion Hok as [g' Hrun | |]; subst g'.
    destruct ls as [| l ls].
    + exists [], (pend +:+ g). cbn [tail_text]. rewrite append_nil_r. split_and?; [done | | done].
      apply fo_end. by rewrite gap_run_append, Hg.
    + destruct (Hend ltac:(done)) as [_ Hfresh]. cbn [tail_text]. unfold added_text.
      destruct (line_segments_ok (pend +:+ g +:+ fresh_line original (String.length original) "") (l :: ls)) as (L1 & L2 & L3);
        [done | by rewrite gap_run_append, Hg |].
      exists (line_segments (pend +:+ g +:+ fresh_line original (String.length original) "") (l :: ls)), "".
      split_and?; [by rewrite L3, append_nil_r, !append_assoc | | done].
      rewrite <- (app_nil_r (line_segments _ _)). apply file_app; [done | by apply fo_end].
  - rewrite fmap_cons in Ho, Hok. apply Forall_cons in Hm as [Hm Hms]. cbn [segments_text] in Ho.
    assert (Hseg : segment_ok (mk_segment m)) by (by inversion Hok).
    cbn [marked_text]. rewrite !append_assoc. rewrite fmap_cons. cbn [concat].
    assert (He' : mark_end p m = String.length (before +:+ segment_text (mk_segment m))).
    { rewrite length_append, segment_length. unfold mark_end, mark_token_end, mark_start. lia. }
    destruct (decide (mk_edit m = Drop ∨ sg_open (mk_segment m) = false)) as [Hc | Hc].
    + destruct (reads_mark p m pend Hseg Hc Hm Hg) as (ss1 & pend1 & (E1 & A1 & G1) & W1).
      destruct (IH (before +:+ segment_text (mk_segment m)) pend1 (mark_end p m) g ls) as (ss2 & g2 & E2 & A2 & W2); auto.
      { by rewrite append_assoc, <- append_assoc with (b := segments_text _). }
      { inversion Hok as [| s' Hs' Ho' Ess | s' ss' g' Hs' Ho' Hok']; [| done]. destruct ms; [by apply fo_end | done]. }
      { intros Hne. destruct (Hend Hne) as [[_ ?]%Forall_cons ?]. done. }
      exists (ss1 ++ ss2)%list, g2. split_and?; [| by apply file_app | by rewrite fmap_app, W1, W2, app_assoc].
      rewrite segments_text_app, append_assoc, <- E2, <- (append_assoc (segments_text ss1)), <- E1. by rewrite !append_assoc.
    + assert (mk_edit m ≠ Drop) as Hd by tauto.
      assert (Hopen : sg_open (mk_segment m) = true) by (destruct (sg_open (mk_segment m)); tauto).
      inversion Hok as [| s' Hs' Ho' Ess | s' ss' g' Hs' Ho' Hok']; [| congruence].
      assert (ms = []) as -> by (by destruct ms). subst g. rewrite append_nil_r in Ho. cbn [fmap list_fmap segments_text] in Ho.
      rewrite append_nil_r in Ho.
      assert (ls = []) as ->. { destruct ls; [done |]. destruct (Hend ltac:(done)) as [[? _]%Forall_cons _]. congruence. }
      destruct (reads_open p m pend) as (ss & g' & E & A & W); try done; [by exists before | by rewrite He', Ho |].
      exists ss, g'. cbn [marked_text tail_text fmap list_fmap concat]. rewrite !append_nil_r, !app_nil_r. done.
Qed.
End rebuild.

(** ** The whole output *)

Lemma file_gap ss g : file_ok ss g → is_Some (gap_run false g).
Proof. induction 1; [done | by exists false | done]. Qed.

Lemma file_closed ss g : file_ok ss g → g ≠ "" ∨ ss = [] → Forall (λ s, s.(sg_open) = false) ss.
Proof.
  induction 1 as [g Hg | s Hs Ho | s ss g Hs Ho Hok IH]; intros H; [constructor | by destruct H |].
  constructor; [done |]. destruct ss; [constructor |]. apply IH. left. by destruct H.
Qed.

Lemma last_split c s : last_is c s = true → ∃ s', s = s' +:+ str1 c.
Proof.
  induction s as [| a s IH]; [done |]. destruct s as [| b s].
  - intros ->%Ascii.eqb_eq. by exists "".
  - intros [s' ->]%IH. by exists (String a s').
Qed.

Lemma end_gap original ss g : original = segments_text ss +:+ g → file_ok ss g → g ≠ "" ∨ ss = [] →
  gap_run false (g +:+ fresh_line original (String.length original) "") = Some false.
Proof.
  intros Ho Hok%file_gap Hg. destruct (last_is nl original) eqn:Hl.
  - assert (last_is nl g = true) as [g' ->]%last_split.
    { destruct (decide (g = "")) as [-> | Hne]; [| by rewrite Ho, last_is_append in Hl].
      destruct Hg as [? | ->]; [done |]. by rewrite Ho in Hl. }
    rewrite gap_run_append in Hok |- *. destruct (gap_run false g') as [c |] eqn:E; [| by destruct Hok].
    rewrite gap_run_newline by (by eexists). cbn [mbind option_bind]. apply fresh_line_gap.
  - destruct (decide (original = "")) as [E | E].
    + assert (g = "") as -> by (rewrite E in Ho; by destruct (segments_text ss), g). apply fresh_line_gap.
    + rewrite fresh_line_end by done. by apply gap_run_newline.
Qed.

Lemma add_lines_out ls m : mark_out (add_lines ls m) = (mark_out m ++ (line_words <$> ls))%list.
Proof. unfold mark_out. cbn [add_lines mk_added]. rewrite fmap_app, app_assoc. done. Qed.

(** The marked file is a file with the statements of the marks. *)
Lemma carried_reads original g ls ms :
  original = segments_text (mk_segment <$> ms) +:+ g → file_ok (mk_segment <$> ms) g →
  escaped_end original = false → Forall mark_ok ms → Forall line_ok ls →
  ∃ ss g', marked_text original 0 (end_marks g ls ms) +:+ g +:+ end_text original g ls ms = segments_text ss +:+ g'
    ∧ file_ok ss g' ∧ sg_words <$> ss = (concat (mark_out <$> ms) ++ (line_words <$> ls))%list.
Proof.
  intros Ho Hok He Hm Hl. unfold end_marks, end_text, at_end.
  destruct (String.eqb g "" && negb (bool_decide (ms = []))) eqn:E.
  - apply andb_true_iff in E as [->%String.eqb_eq Hne%negb_true_iff%bool_decide_eq_false].
    destruct (exists_last Hne) as (ms' & m & ->). rewrite add_end_app.
    destruct (rebuild original (ms' ++ [add_lines ls m]) "" "" 0 "" []) as (ss & g' & E & A & W); auto.
    + rewrite Ho at 1. by rewrite !fmap_app.
    + by rewrite !fmap_app in Hok |- *.
    + apply Forall_app in Hm as [Hm [Hm' _]%Forall_cons]. apply Forall_app. split; [done |].
      constructor; [| constructor]. destruct Hm' as [Hc Ha]. split; [done |]. by apply Forall_app.
    + done.
    + exists ss, g'. split_and?; [exact E | done |]. rewrite W, !fmap_app, !concat_app. cbn [fmap list_fmap concat].
      by rewrite add_lines_out, !app_nil_r, !app_assoc.
  - assert (Hg : g ≠ "" ∨ ms = []).
    { apply andb_false_iff in E as [?%String.eqb_neq | ?%negb_false_iff%bool_decide_eq_true]; auto. }
    apply (rebuild original ms "" "" 0 g ls); auto. intros _. split.
    + apply (Forall_fmap mk_segment (λ s, s.(sg_open) = false) ms). eapply file_closed; [done |]. destruct Hg as [? | ->]; auto.
    + eapply end_gap; [done | done |]. destruct Hg as [? | ->]; auto.
Qed.
