(* ===== verification/UciSections.v ===== *)
(** * What the passes make of each section

    A pass changes only the statements of its section, so the outcome of all passes is
    described section by section: a section that goes loses all its statements, an edited
    section keeps its statements but for the edited options, and everything else stays. *)

From stdpp Require Import sorting.
From S2P Require Import Prelude RustStr SchedRecord UciEdits UciLexing UciMarks UciPasses UciCarried UciOutput.
Local Open Scope string_scope.

(** ** Patches *)

Definition options_ok (options : gmap string (option string)) : Prop :=
  map_Forall (λ key value, name_ok key ∧ ∀ v, value = Some v → any_control v = false) options.

(** A patch as [collect] builds it for a section, [known] if the file has it. *)
Record patch_ok (known : bool) (section : string) (patch : SectionPatch) : Prop := {
  po_section : name_ok section;
  po_kind : ∀ kind, patch.(sp_add) = Some kind → name_ok kind;
  po_options : options_ok patch.(sp_options);
  po_delete : patch.(sp_delete) = true → patch.(sp_add) = None ∧ patch.(sp_options) = ∅;
  po_known : goes patch = false → known = true;
}.

Lemma quote_no_control v q : uci_quote v = Ok q → any_control v = false.
Proof. unfold uci_quote. intros [H _]%then_ok. by apply fail_if_ok, orb_false_iff in H as [_ ?]. Qed.

Lemma name_ok_id s t : uci_name s = Ok t → name_ok s.
Proof. intros H. unfold name_ok. rewrite H. by rewrite (uci_name_ok _ _ H). Qed.

Lemma target_kept patch known :
  negb (negb patch.(sp_delete) && (known || is_some patch.(sp_add))) = false →
  patch.(sp_delete) = false ∧ (patch.(sp_add) = None → known = true).
Proof.
  rewrite negb_false_iff, andb_true_iff, negb_true_iff, orb_true_iff. intros [? [? | H]]; split; auto.
  intros E. by rewrite E in H.
Qed.

Lemma options_ok_insert options key value : options_ok options → name_ok key →
  (∀ v, value = Some v → any_control v = false) → options_ok (<[key := value]> options).
Proof. intros H Hk Hv. apply map_Forall_insert_2; [done | exact H]. Qed.

(** [empty_patch] is no patch of [collect], but every edit makes one of it. *)
Lemma patch_edit_ok sections e patch patch' :
  name_ok (edit_section e) →
  (patch = empty_patch ∨ patch_ok (known sections (edit_section e)) (edit_section e) patch) →
  patch_edit sections e patch = Ok patch' →
  patch_ok (known sections (edit_section e)) (edit_section e) patch'.
Proof.
  intros Hs Hp H.
  assert (Hp' : (∀ kind, patch.(sp_add) = Some kind → name_ok kind) ∧ options_ok patch.(sp_options)).
  { destruct Hp as [-> | [_ H1 H2 _ _]]; [| done]. split; [done | apply map_Forall_empty]. }
  destruct Hp' as [Hk Ho]. destruct e as [section kind | section | section key value | section key];
    cbn [edit_section patch_edit] in *.
  - apply bind_ok_inv in H as (t & Hn & H). apply then_ok in H as [_ H]. apply ret_ok_inv in H as <-.
    split; unfold goes; cbn; rewrite ?orb_true_r; try done.
    intros ? [= <-]. by eapply name_ok_id.
  - apply then_ok in H as [_ H]. apply ret_ok_inv in H as <-. split; unfold goes; cbn; rewrite ?orb_true_r; try done.
  - apply bind_ok_inv in H as (t & Hn & H). apply then_ok in H as [Ht H]. apply fail_if_ok, target_kept in Ht as [Hd Hkn].
    apply bind_ok_inv in H as (q & Hq & H). apply ret_ok_inv in H as <-. split; unfold goes; cbn; rewrite ?orb_true_r; try done.
    + apply options_ok_insert; [done | by eapply name_ok_id |]. intros v [= <-]. by eapply quote_no_control.
    + intros E. by rewrite E in Hd.
    + unfold goes. cbn. rewrite Hd. cbn. intros E. apply Hkn. by destruct (sp_add patch).
  - apply bind_ok_inv in H as (t & Hn & H). apply then_ok in H as [Ht H]. apply fail_if_ok, target_kept in Ht as [Hd Hkn].
    apply ret_ok_inv in H as <-. split; unfold goes; cbn; rewrite ?orb_true_r; try done.
    + apply options_ok_insert; [done | by eapply name_ok_id | done].
    + intros E. by rewrite E in Hd.
    + unfold goes. cbn. rewrite Hd. cbn. intros E. apply Hkn. by destruct (sp_add patch).
Qed.

Definition patches_ok (sections : gmap string string) (patches : gmap string SectionPatch) : Prop :=
  map_Forall (λ section patch, patch_ok (known sections section) section patch) patches.

Lemma collect_ok sections edits : ∀ patches patches',
  patches_ok sections patches → collect sections patches edits = Ok patches' → patches_ok sections patches'.
Proof.
  induction edits as [| e edits IH]; intros patches patches' Hp H; cbn [collect] in H; [by apply ret_ok_inv in H as <- |].
  apply bind_ok_inv in H as (section & Hs & H). apply bind_ok_inv in H as (patch & He & H).
  pose proof (uci_name_ok _ _ Hs) as ->. apply IH in H; [done |]. apply map_Forall_insert_2; [| done].
  eapply patch_edit_ok; [by eapply name_ok_id | | done].
  destruct (patches !! edit_section e) as [p |] eqn:E; [right; by apply (Hp _ _ E) | by left].
Qed.

Lemma entries_lookup {A} (m : gmap string A) k v : (k, v) ∈ entries m ↔ m !! k = Some v.
Proof. unfold entries. rewrite merge_sort_Permutation. apply elem_of_map_to_list. Qed.

(** ** The lines of the missing options *)

Lemma missing_lines_in seen options l : l ∈ missing_lines seen options →
  ∃ key value, l = OptionLine key value ∧ (key, Some value) ∈ options ∧ key ∉ seen.
Proof.
  induction options as [| [key [value |]] options IH]; intros H; cbn [missing_lines] in H; [by apply elem_of_nil in H | |].
  - destruct (bool_decide_reflect (key ∈ seen)); [| apply elem_of_cons in H as [-> | H]].
    + destruct (IH H) as (k & v & ? & ? & ?). exists k, v. split_and?; [done | by right | done].
    + exists key, value. split_and?; [done | left | done].
    + destruct (IH H) as (k & v & ? & ? & ?). exists k, v. split_and?; [done | by right | done].
  - destruct (IH H) as (k & v & ? & ? & ?). exists k, v. split_and?; [done | by right | done].
Qed.

Lemma missing_lines_ok seen options : options_ok options → Forall line_ok (missing_lines seen (entries options)).
Proof.
  intros H. apply Forall_forall. intros l (key & value & -> & Hin%entries_lookup & _)%missing_lines_in.
  apply H in Hin as [? Hv]. split; [done | by apply Hv].
Qed.

Definition option_lines (ls : list Line) : Prop := Forall (λ l, ∃ key value, l = OptionLine key value) ls.
Lemma missing_lines_options seen options : option_lines (missing_lines seen options).
Proof. apply Forall_forall. intros l (key & value & -> & _)%missing_lines_in. by eexists _, _. Qed.

(** ** The outcome for every statement *)

(** What a statement of a patched section may become. *)
Definition outcome (patch : SectionPatch) (m : Mark) : Prop :=
  if goes patch then m.(mk_edit) = Drop ∧ m.(mk_added) = []
  else (m.(mk_edit) ≠ Keep → is_option (mark_words m) = true) ∧ option_lines m.(mk_added) ∧ mark_ok m.

Definition fresh_mark (m : Mark) : Prop := m.(mk_edit) = Keep ∧ m.(mk_added) = [].

Lemma fresh_mark_ok m : fresh_mark m → mark_ok m.
Proof. intros [He Ha]. split; [by rewrite He | by rewrite Ha]. Qed.

Lemma mark_statement_outcome patch seen m :
  options_ok patch.(sp_options) → fresh_mark m → outcome patch (mark_statement patch seen m).1.
Proof.
  intros Ho [He Ha]. unfold outcome, mark_statement. destruct (goes patch); [done |].
  assert (Hm : mark_ok m) by (by apply fresh_mark_ok).
  assert (Hl : option_lines m.(mk_added)) by (rewrite Ha; constructor).
  destruct (is_option (mark_words m)) eqn:Ei; cbn [negb fst]; [| done].
  destruct (sp_options patch !! nth 1 (mark_words m) "") as [[value |] |] eqn:Eo; cbn [fst]; [| | done].
  - destruct (bool_decide _); cbn [fst]; split_and?; try done; [by split; [| apply Hm] |].
    split; [| apply Hm]. intros k v [= <- <-]. apply Ho in Eo as [Hk Hv]. split; [done | by apply Hv].
  - split_and?; try done. by split; [| apply Hm].
Qed.

(** After a pass over fresh marks. *)
Lemma patch_marks_outcome k patch ms :
  options_ok patch.(sp_options) → Forall (λ m, in_section k m = true → fresh_mark m) ms →
  Forall (λ m, in_section k m = true → outcome patch m) (patch_marks k patch ms).
Proof.
  intros Ho Hf. unfold patch_marks.
  assert (Hp : ∀ seen, Forall (λ m, in_section k m = true → outcome patch m) (pass_marks k patch seen ms).1).
  { induction Hf as [| m ms Hm _ IH]; intros seen; [constructor |]. rewrite pass_marks_cons. cbn. constructor; [| apply IH].
    destruct (in_section k m) eqn:E; [| cbn; congruence]. intros _. by apply mark_statement_outcome, Hm. }
  specialize (Hp ∅). destruct (pass_marks k patch ∅ ms) as [ms' seen]. cbn [fst] in Hp.
  destruct (goes patch) eqn:Eg; [done |].
  pose proof (missing_lines_ok seen _ Ho) as Hl. pose proof (missing_lines_options seen (entries (sp_options patch))) as Hl'.
  induction Hp as [| m ms1 Hm Hms IH]; [constructor |]. cbn [add_last].
  destruct (in_section k m && _) eqn:E; [| by constructor]. constructor; [| done]. intros Hin.
  specialize (Hm Hin). unfold outcome in *. rewrite Eg in *. destruct Hm as (H1 & H2 & [H3 H4]).
  split_and?; [done | by apply Forall_app | split; [done | by apply Forall_app]].
Qed.

(** ** One section at a time *)

Definition section_marks (k : string) (ms : list Mark) : list Mark := List.filter (in_section k) ms.

Lemma touches_in_section k k' m m' : touches k m m' → in_section k' m' = in_section k' m.
Proof. intros (E1 & E2 & _). unfold in_section, mark_words. by rewrite E1, E2. Qed.

Lemma in_section_unique k k' m : in_section k m = true → in_section k' m = true → k = k'.
Proof.
  unfold in_section. intros [->%bool_decide_eq_true _]%andb_true_iff [E%bool_decide_eq_true _]%andb_true_iff. congruence.
Qed.

Lemma touches_section k k' ms ms' : k' ≠ k → Forall2 (touches k) ms ms' →
  section_marks k' ms' = section_marks k' ms.
Proof.
  intros Hk. unfold section_marks. induction 1 as [| m m' ms ms' Hm _ IH]; [done |]. cbn [List.filter].
  rewrite (touches_in_section k k' m m' Hm), IH. destruct (in_section k' m) eqn:E; [| done].
  destruct Hm as (_ & _ & Hm). rewrite Hm; [done |]. destruct (in_section k m) eqn:E2; [| done].
  by pose proof (in_section_unique _ _ _ E E2).
Qed.

Lemma pass_marks_section k patch seen ms :
  section_marks k (pass_marks k patch seen ms).1 = (pass_marks k patch seen (section_marks k ms)).1
  ∧ (pass_marks k patch seen ms).2 = (pass_marks k patch seen (section_marks k ms)).2.
Proof.
  revert seen. induction ms as [| m ms IH]; intros seen; [done |]. rewrite pass_marks_cons. cbn [fst snd].
  pose proof (mark_statement_same patch seen m) as (E1 & E2 & _). unfold section_marks. cbn [List.filter].
  destruct (in_section k m) eqn:E; cbn [fst snd].
  - assert (Ei : in_section k (mark_statement patch seen m).1 = true).
    { unfold in_section, mark_words in *. by rewrite E1, E2. }
    rewrite pass_marks_cons, Ei, E. cbn [fst snd]. destruct (IH (mark_statement patch seen m).2) as [I1 I2].
    split; [f_equal; exact I1 | exact I2].
  - rewrite E. apply IH.
Qed.

Lemma existsb_section k ms : existsb (in_section k) (section_marks k ms) = existsb (in_section k) ms.
Proof.
  unfold section_marks. induction ms as [| m ms IH]; [done |]. cbn [List.filter existsb].
  destruct (in_section k m) eqn:E; cbn [existsb]; by rewrite ?E, IH.
Qed.

Lemma add_last_section k ls ms : section_marks k (add_last k ls ms) = add_last k ls (section_marks k ms).
Proof.
  induction ms as [| m ms IH]; [done |]. unfold section_marks in *. cbn [add_last List.filter].
  destruct (in_section k m) eqn:E; cbn [andb].
  - cbn [add_last]. rewrite E. cbn [andb]. pose proof (existsb_section k ms) as Ex. unfold section_marks in Ex. rewrite Ex.
    destruct (existsb (in_section k) ms); cbn [negb List.filter]; [by rewrite E, IH |].
    change (in_section k (add_lines ls m)) with (in_section k m). by rewrite E.
  - cbn [List.filter]. by rewrite E.
Qed.

Lemma patch_marks_section k patch ms :
  section_marks k (patch_marks k patch ms) = patch_marks k patch (section_marks k ms).
Proof.
  unfold patch_marks. destruct (pass_marks_section k patch ∅ ms) as [E1 E2].
  destruct (pass_marks k patch ∅ ms) as [ms1 seen1], (pass_marks k patch ∅ (section_marks k ms)) as [ms2 seen2].
  cbn [fst snd] in *. subst. destruct (goes patch); [done | apply add_last_section].
Qed.

Lemma apply_patches_section pl : ∀ ms k, NoDup pl.*1 →
  section_marks k (apply_patches pl ms) =
  match (list_to_map pl : gmap string SectionPatch) !! k with
  | Some patch => patch_marks k patch (section_marks k ms)
  | None => section_marks k ms
  end.
Proof.
  induction pl as [| [k' patch] pl IH]; intros ms k Hnd; cbn [apply_patches list_to_map foldr]; [by rewrite lookup_empty |].
  apply NoDup_cons in Hnd as [Hk Hnd]. cbn [fst] in Hk. rewrite IH by done.
  change (foldr _ _ pl) with (list_to_map pl : gmap string SectionPatch). cbn.
  destruct (decide (k = k')) as [-> | Hne].
  - rewrite lookup_insert_eq, (not_elem_of_list_to_map_1 _ _ Hk). apply patch_marks_section.
  - rewrite lookup_insert_ne by done. by rewrite (touches_section k' k _ _ Hne (patch_marks_touches k' patch ms)).
Qed.

Lemma entries_map {A} (m : gmap string A) : (list_to_map (entries m) : gmap string A) = m.
Proof.
  etransitivity; [| apply list_to_map_to_list]. apply list_to_map_proper; [apply entries_nodup |].
  unfold entries. apply merge_sort_Permutation.
Qed.

(** Statements of no patched section. *)
Lemma apply_patches_outside pl : ∀ ms, Forall2 (λ m m', m'.(mk_segment) = m.(mk_segment) ∧ m'.(mk_section) = m.(mk_section)
    ∧ ((∀ k, k ∈ pl.*1 → in_section k m = false) → m' = m)) ms (apply_patches pl ms).
Proof.
  induction pl as [| [k patch] pl IH]; intros ms; cbn [apply_patches].
  { induction ms; by constructor. }
  specialize (IH (patch_marks k patch ms)). pose proof (patch_marks_touches k patch ms) as H.
  revert IH. generalize (apply_patches pl (patch_marks k patch ms)). induction H as [| m m1 ms ms1 Hm _ IHl]; intros l IH;
    inversion IH as [| ? m' ? ? (F1 & F2 & F3) IH']; subst; constructor; [| by apply IHl].
  destruct Hm as (E1 & E2 & E3). split_and?; [congruence | congruence |]. intros Hout.
  assert (m1 = m) as -> by (apply E3, Hout; left). apply F3. intros k' Hk'. apply Hout. by right.
Qed.

(** What all passes make of a statement. *)
Definition mark_outcome (patches : gmap string SectionPatch) (m : Mark) : Prop :=
  (∀ k patch, patches !! k = Some patch → in_section k m = true → outcome patch m)
  ∧ ((∀ k, is_Some (patches !! k) → in_section k m = false) → fresh_mark m).

Lemma apply_patches_outcome (patches : gmap string SectionPatch) ms :
  (∀ k patch, patches !! k = Some patch → options_ok patch.(sp_options)) → Forall fresh_mark ms →
  Forall (mark_outcome patches) (apply_patches (entries patches) ms).
Proof.
  intros Ho Hf. apply Forall_forall. intros m' Hm'. split.
  - intros k patch Hp Hin.
    assert (Hs : m' ∈ section_marks k (apply_patches (entries patches) ms)).
    { apply list_elem_of_In, filter_In. split; [by apply list_elem_of_In | done]. }
    rewrite apply_patches_section, entries_map, Hp in Hs by apply entries_nodup.
    assert (Hff : Forall (λ m, in_section k m = true → fresh_mark m) (section_marks k ms)).
    { apply Forall_forall. intros m Hm%list_elem_of_In. apply filter_In in Hm as [Hm%list_elem_of_In _]. intros _.
      by eapply Forall_forall. }
    pose proof (patch_marks_outcome k patch _ (Ho k patch Hp) Hff) as H. rewrite Forall_forall in H. by apply H.
  - intros Hout. apply list_elem_of_lookup in Hm' as [i Hi].
    destruct (Forall2_lookup_r _ _ _ _ _ (apply_patches_outside (entries patches) ms) Hi) as (m & Hm & E1 & E2 & E3).
    rewrite E3; [by eapply Forall_lookup |]. intros k Hk. specialize (Hout k).
    unfold in_section, mark_words in *. rewrite E1, E2 in Hout. apply Hout.
    apply list_elem_of_fmap in Hk as ([k' p] & -> & Hk%entries_lookup). by eexists.
Qed.
