(* ===== verification/UciValues.v ===== *)
(** * The values of an edited section

    The option statements the passes leave for every key of a section: the edited keys have
    their new value exactly once or are gone, the others are as they were. *)

From stdpp Require Import sorting.
From S2P Require Import Prelude RustStr SchedRecord UciEdits UciLexing UciMarks UciPasses UciCarried UciOutput UciSections.
Local Open Scope string_scope.

Definition key_statement (key : string) (ws : list string) : bool :=
  is_option ws && String.eqb (nth 1 ws "") key.
(** The option statements of a key. *)
Definition key_words (key : string) (wss : list (list string)) : list (list string) :=
  List.filter (key_statement key) wss.
Definition marks_words (ms : list Mark) : list (list string) := concat (mark_out <$> ms).

Lemma key_words_app key a b : key_words key (a ++ b) = (key_words key a ++ key_words key b)%list.
Proof. apply List.filter_app. Qed.

Lemma key_words_cons key m ms : key_words key (marks_words (m :: ms)) = (key_words key (mark_out m) ++ key_words key (marks_words ms))%list.
Proof. unfold marks_words. rewrite fmap_cons. apply key_words_app. Qed.

(** A value an edit sets, or none. *)
Definition set_words (key : string) (value : string) : list (list string) := [["option"; key; value]].

Lemma fresh_out m : fresh_mark m → mark_out m = [mark_words m].
Proof. intros [He Ha]. unfold mark_out, edit_out. by rewrite He, Ha. Qed.

(** ** One pass *)

(** What is left of the statement of a key. *)
Lemma mark_statement_key patch seen m key :
  goes patch = false → fresh_mark m →
  key_words key (mark_out (mark_statement patch seen m).1) =
    (if key_statement key (mark_words m) then
       match patch.(sp_options) !! key with
       | None => [mark_words m]
       | Some None => []
       | Some (Some value) => if bool_decide (key ∈ seen) then [] else set_words key value
       end else [])
  ∧ (mark_statement patch seen m).2 =
    if is_option (mark_words m) then
      match patch.(sp_options) !! nth 1 (mark_words m) "" with
      | Some (Some _) => {[ nth 1 (mark_words m) "" ]} ∪ seen
      | _ => seen
      end else seen.
Proof.
  intros Hg Hm. pose proof (fresh_out m Hm) as Hf. destruct Hm as [He Ha]. unfold mark_statement, key_statement. rewrite Hg.
  destruct (is_option (mark_words m)) eqn:Ei; cbn [negb andb fst snd];
    [| rewrite Hf; unfold key_words, key_statement; cbn; by rewrite Ei].
  assert (Hdrop : key_words key (mark_out (set_edit Drop m)) = []).
  { unfold mark_out, edit_out. cbn [set_edit mk_edit mk_added]. by rewrite Ha. }
  assert (Hkept : key_words key (mark_out m) = if String.eqb (nth 1 (mark_words m) "") key then [mark_words m] else []).
  { rewrite Hf. unfold key_words, key_statement. cbn. by rewrite Ei. }
  destruct (sp_options patch !! nth 1 (mark_words m) "") as [[value |] |] eqn:Eo; cbn [fst snd].
  - assert (Hs : nth 1 (mark_words m) "" ∈ seen → {[ nth 1 (mark_words m) "" ]} ∪ seen = seen) by set_solver.
    destruct (bool_decide_reflect (nth 1 (mark_words m) "" ∈ seen)) as [Hin | Hin]; cbn [fst snd].
    + split; [| by rewrite Hs]. rewrite Hdrop. destruct (String.eqb_spec (nth 1 (mark_words m) "") key) as [<- |]; [| done].
      by rewrite Eo, bool_decide_eq_true_2.
    + split; [| done]. unfold mark_out, edit_out. cbn [set_edit mk_edit mk_added]. rewrite Ha. cbn.
      unfold key_statement. cbn [is_option nth]. destruct (String.eqb_spec (nth 1 (mark_words m) "") key) as [<- |]; [| done].
      by rewrite Eo, bool_decide_eq_false_2.
  - split; [| done]. rewrite Hdrop. destruct (String.eqb_spec (nth 1 (mark_words m) "") key) as [<- |]; [| done]. by rewrite Eo.
  - split; [| done]. rewrite Hkept. destruct (String.eqb_spec (nth 1 (mark_words m) "") key) as [<- |]; [| done]. by rewrite Eo.
Qed.

(** All statements of the section, [has] if one sets the key. *)
Lemma pass_marks_key k patch key ms : ∀ seen,
  goes patch = false → Forall fresh_mark ms → Forall (λ m, in_section k m = true) ms →
  let has := existsb (λ m, key_statement key (mark_words m)) ms in
  key_words key (marks_words (pass_marks k patch seen ms).1) =
    match patch.(sp_options) !! key with
    | None => key_words key (marks_words ms)
    | Some None => []
    | Some (Some value) => if bool_decide (key ∈ seen) || negb has then [] else set_words key value
    end
  ∧ (key ∈ (pass_marks k patch seen ms).2 ↔
      key ∈ seen ∨ has = true ∧ ∃ value, patch.(sp_options) !! key = Some (Some value)).
Proof.
  induction ms as [| m ms IH]; intros seen Hg Hf Hin has; unfold has; clear has; cbn [existsb].
  { cbn [pass_marks fst snd]. split; [| naive_solver]. destruct (_ !! key) as [[v |] |]; [by rewrite orb_true_r | done | done]. }
  apply Forall_cons in Hf as [Hfm Hf]. apply Forall_cons in Hin as [Hm Hin].
  rewrite pass_marks_cons, Hm. cbn [fst snd]. rewrite !key_words_cons.
  destruct (mark_statement_key patch seen m key Hg Hfm) as [-> ->].
  destruct (IH (if is_option (mark_words m) then
      match patch.(sp_options) !! nth 1 (mark_words m) "" with
      | Some (Some _) => {[ nth 1 (mark_words m) "" ]} ∪ seen | _ => seen end else seen) Hg Hf Hin) as [-> ->]. clear IH.
  rewrite (fresh_out m Hfm).
  change (key_words key [mark_words m]) with (if key_statement key (mark_words m) then [mark_words m] else []).
  destruct (key_statement key (mark_words m)) eqn:Ek; cbn [orb].
  - unfold key_statement in Ek. apply andb_true_iff in Ek as [-> ->%String.eqb_eq].
    destruct (sp_options patch !! key) as [[v |] |] eqn:Eo; [| split; [done | naive_solver] | split; [done | naive_solver]].
    rewrite (bool_decide_eq_true_2 (key ∈ {[key]} ∪ seen)) by set_solver. cbn [orb negb]. rewrite app_nil_r, orb_false_r.
    split; [done |]. rewrite elem_of_union, elem_of_singleton. naive_solver.
  - destruct (is_option (mark_words m)) eqn:Ei; [| done].
    destruct (sp_options patch !! nth 1 (mark_words m) "") as [[v' |] |] eqn:Eo'; cbn [app]; [| done | done].
    unfold key_statement in Ek. rewrite Ei in Ek. cbn [andb] in Ek. apply String.eqb_neq in Ek.
    replace (bool_decide (key ∈ {[nth 1 (mark_words m) ""]} ∪ seen)) with (bool_decide (key ∈ seen))
      by (apply bool_decide_ext; set_solver).
    split; [done |]. rewrite elem_of_union, elem_of_singleton. naive_solver.
Qed.

(** ** The whole section *)

Lemma missing_lines_key seen key options : NoDup options.*1 →
  key_words key (line_words <$> missing_lines seen options) =
  match (list_to_map options : gmap string (option string)) !! key with
  | Some (Some value) => if bool_decide (key ∈ seen) then [] else set_words key value
  | _ => []
  end.
Proof.
  induction options as [| [k v] options IH]; intros Hnd; cbn [missing_lines list_to_map foldr]; [by rewrite lookup_empty |].
  apply NoDup_cons in Hnd as [Hk Hnd]. cbn [fst] in Hk. specialize (IH Hnd).
  change (foldr _ _ options) with (list_to_map options : gmap string (option string)). cbn [fst snd uncurry].
  assert (Hskip : k ≠ key → (<[k:=v]> (list_to_map options) : gmap string (option string)) !! key = (list_to_map options : gmap string (option string)) !! key)
    by apply lookup_insert_ne.
  destruct (decide (k = key)) as [-> | Hne].
  - rewrite (not_elem_of_list_to_map_1 _ _ Hk) in IH. rewrite lookup_insert_eq.
    destruct v as [value |]; [| done]. destruct (bool_decide _); [done |].
    rewrite fmap_cons. change (key_words key (?w :: ?ws)) with (if key_statement key w then w :: key_words key ws else key_words key ws).
    rewrite IH. unfold key_statement. cbn. by rewrite String.eqb_refl.
  - rewrite Hskip, <- IH by done. destruct v as [value |]; [| done]. destruct (bool_decide (k ∈ seen)); [done |].
    rewrite fmap_cons. unfold key_words. cbn [List.filter line_words]. unfold key_statement at 1. cbn [is_option nth].
    by rewrite (proj2 (String.eqb_neq k key)).
Qed.

Lemma add_last_words k ls ms : Forall (λ m, in_section k m = true) ms → ms ≠ [] →
  marks_words (add_last k ls ms) = (marks_words ms ++ (line_words <$> ls))%list.
Proof.
  unfold marks_words. induction 1 as [| m ms Hm Hms IH]; intros Hn; [done |]. cbn [add_last]. rewrite Hm. cbn [andb].
  destruct ms as [| m' ms].
  - cbn [existsb negb fmap list_fmap concat]. by rewrite add_lines_out, !app_nil_r.
  - assert (existsb (in_section k) (m' :: ms) = true) as -> by (cbn; apply Forall_cons in Hms as [-> _]; done).
    cbn [negb]. rewrite !(fmap_cons mark_out m). cbn [concat]. rewrite IH by done. by rewrite app_assoc.
Qed.

Lemma fresh_exists_key key ms : Forall fresh_mark ms →
  existsb (λ m, key_statement key (mark_words m)) ms = false → key_words key (marks_words ms) = [].
Proof.
  unfold marks_words. induction 1 as [| m ms Hm _ IH]; [done |]. cbn [existsb]. intros [E1 E2]%orb_false_iff.
  rewrite fmap_cons. cbn [concat]. rewrite key_words_app, IH, (fresh_out m Hm) by done. unfold key_words. cbn [List.filter].
  by rewrite E1.
Qed.

(** The option statements of a key after the pass over its section. *)
Lemma patch_marks_key k patch key ms :
  goes patch = false → Forall fresh_mark ms → Forall (λ m, in_section k m = true) ms → ms ≠ [] →
  key_words key (marks_words (patch_marks k patch ms)) =
  match patch.(sp_options) !! key with
  | Some (Some value) => set_words key value
  | Some None => []
  | None => key_words key (marks_words ms)
  end.
Proof.
  intros Hg Hf Hin Hne. unfold patch_marks. destruct (pass_marks_key k patch key ms ∅ Hg Hf Hin) as [E1 E2].
  pose proof (pass_marks_same k patch ∅ ms) as Hs.
  destruct (pass_marks k patch ∅ ms) as [ms' seen]. cbn [fst snd] in *. rewrite Hg.
  assert (Hin' : Forall (λ m, in_section k m = true) ms' ∧ ms' ≠ []).
  { clear -Hs Hin Hne. split; [clear Hne | by inversion Hs; subst]. induction Hs as [| m m' ms ms' (Es & Ek & _) _ IH]; [constructor |].
    apply Forall_cons in Hin as [Hm Hin]. constructor.
    - unfold in_section, mark_words in *. by rewrite Es, Ek.
    - by apply IH. }
  destruct Hin' as [Hin' Hne']. rewrite add_last_words, key_words_app, E1 by done.
  rewrite missing_lines_key, entries_map by apply entries_nodup.
  destruct (sp_options patch !! key) as [[v |] |]; [| done | by rewrite app_nil_r].
  rewrite (bool_decide_eq_false_2 (key ∈ (∅ : gset string))) by apply not_elem_of_empty. cbn [orb].
  destruct (existsb _ ms) eqn:Ex; cbn [negb app].
  - rewrite bool_decide_eq_true_2; [by rewrite app_nil_r |]. apply E2. right. eauto.
  - rewrite bool_decide_eq_false_2; [done |]. rewrite E2. set_solver.
Qed.

(** A section that goes leaves nothing. *)
Lemma patch_marks_gone k patch ms :
  goes patch = true → options_ok patch.(sp_options) → Forall fresh_mark ms → Forall (λ m, in_section k m = true) ms →
  marks_words (patch_marks k patch ms) = [].
Proof.
  intros Hg Ho Hf Hin. assert (H : Forall (λ m, mark_out m = []) (patch_marks k patch ms)).
  { unfold patch_marks. rewrite Hg. destruct (pass_marks k patch ∅ ms) as [ms' s] eqn:E.
    replace ms' with (pass_marks k patch ∅ ms).1 by (by rewrite E). clear E s ms'.
    revert Hin. generalize (∅ : gset string). induction Hf as [| m ms [He Ha] _ IH]; intros seen Hin; [constructor |].
    apply Forall_cons in Hin as [Hm Hin]. rewrite pass_marks_cons, Hm. cbn [fst]. constructor; [| by apply IH].
    unfold mark_statement. rewrite Hg. unfold mark_out, edit_out. cbn. by rewrite Ha. }
  unfold marks_words. induction H as [| m ms' Hm _ IH]; [done |]. rewrite fmap_cons. cbn [concat]. by rewrite Hm, IH.
Qed.
