(* ===== verification/UciScopes.v ===== *)
(** * The scopes of the output

    The scanner reads the statements of the output in the scopes of the original: where a
    section is gone, none of its statements are left to be taken for another's. *)

From stdpp Require Import sorting.
From S2P Require Import Prelude RustStr SchedRecord UciEdits UciLexing UciMarks UciPasses UciCarried UciOutput UciSections UciValues.
Local Open Scope string_scope.

(** ** Entering a statement *)

Definition steps_to (scope : Scope) (ws : list string) (scope1 : Scope) : Prop :=
  (is_package ws = true ∧ scope1 = scope ∧ ∀ scope', enter scope' ws = Ok scope')
  ∨ (is_package ws = false ∧ is_option ws = false ∧ scope1 = (scope.1, None)
     ∧ ∀ scope', enter scope' ws = Ok (scope'.1, None))
  ∨ (is_package ws = false ∧ is_option ws = false ∧ ∃ kind section,
       scope1 = (<[section := kind]> scope.1, Some section)
       ∧ ∀ scope', scope'.1 !! section = scope.1 !! section →
         enter scope' ws = Ok (<[section := kind]> scope'.1, Some section))
  ∨ (is_package ws = false ∧ is_option ws = true ∧ scope1 = scope ∧ ∀ scope', enter scope' ws = Ok scope').

Lemma enter_steps scope ws scope1 : enter scope ws = Ok scope1 → steps_to scope ws scope1.
Proof.
  destruct scope as [secs cur]. destruct ws as [| command args]; [done |]. unfold enter.
  destruct (String.eqb_spec command "package") as [-> | Hp]; cbn [andb].
  { destruct (length args =? 1)%nat eqn:El; cbn [andb]; [| done]. intros [= <-]. left.
    split_and?; [done | done |]. intros [secs' cur']. unfold enter. by rewrite El. }
  destruct (String.eqb_spec command "config") as [-> | Hc].
  { assert (Hanon : (∀ scope', enter scope' ("config" :: args) = Ok (scope'.1, None)) → scope1 = (secs, None) →
      steps_to (secs, cur) ("config" :: args) scope1).
    { intros He ->. right. left. done. }
    destruct args as [| kind [| section [| ? ?]]]; try done.
    - intros [= <-]. apply Hanon; [by intros [] | done].
    - destruct (String.eqb_spec section "") as [-> | Hs]; [intros [= <-]; apply Hanon; [by intros [] | done] |].
      intros (s & Hn & H)%bind_ok_inv. pose proof (uci_name_ok _ _ Hn) as ->.
      apply then_ok in H as [Hu H]. apply fail_if_ok in Hu. apply then_ok in H as [Ht H]. apply fail_if_ok in Ht.
      apply ret_ok_inv in H as <-. right. right. left. split_and?; [done | done |]. exists kind, section. split; [done |].
      intros [secs' cur']. cbn [fst]. intros E. unfold enter. cbn [String.eqb andb].
      rewrite (proj2 (String.eqb_neq section "")) by done. cbn. rewrite Hn. cbn. rewrite Hu. cbn. rewrite E, Ht. done. }
  destruct (String.eqb command "option" || String.eqb command "list") eqn:Eo; [| done].
  intros H. right. right. right.
  assert (Hn : ∃ option t, uci_name option = Ok t ∧ scope1 = (secs, cur) ∧ (args = [option] ∨ ∃ v, args = [option; v])).
  { destruct args as [| option [| v [| ? ?]]]; try done; apply bind_ok_inv in H as (t & Hn & H); injection H as <-; eauto 8. }
  destruct Hn as (option & t & Hn & -> & Hargs).
  assert (is_package (command :: args) = false) by (by apply String.eqb_neq).
  split_and?; [done | done | done |]. intros [secs' cur']. unfold enter.
  rewrite (proj2 (String.eqb_neq command "package")), (proj2 (String.eqb_neq command "config")) by done. cbn [andb].
  rewrite Eo. destruct Hargs as [-> | [v ->]]; by rewrite Hn.
Qed.

Lemma scope_run_app a b scope ea s1 eb s2 :
  scope_run scope a = Ok (ea, s1) → scope_run s1 b = Ok (eb, s2) → scope_run scope (a ++ b) = Ok ((ea ++ eb)%list, s2).
Proof.
  revert scope ea. induction a as [| ws a IH]; intros scope ea Ha Hb; cbn [scope_run app] in *; [by injection Ha as <- <- |].
  apply bind_ok_inv in Ha as (scope1 & He & Ha). apply bind_ok_inv in Ha as ([es last] & Hr & Ha). injection Ha as <- <-.
  rewrite He. cbn. by rewrite (IH scope1 es Hr Hb).
Qed.

Lemma scope_run_one scope ws scope1 : enter scope ws = Ok scope1 → scope_run scope [ws] = Ok ([(ws, scope1.2)], scope1).
Proof. intros H. cbn [scope_run]. by rewrite H. Qed.

(** Words read in a scope they do not change. *)
Lemma scope_run_stays wss scope : Forall (λ ws, enter scope ws = Ok scope) wss →
  scope_run scope wss = Ok ((λ ws, (ws, scope.2)) <$> wss, scope).
Proof. induction 1 as [| ws wss Hw _ IH]; [done |]. cbn [scope_run]. rewrite Hw. cbn. by rewrite IH. Qed.

Lemma enter_option scope key value : name_ok key → enter scope ["option"; key; value] = Ok scope.
Proof. intros H. destruct scope as [secs cur]. unfold enter. cbn. unfold name_ok in H. by rewrite H. Qed.

Lemma name_utf8 s : name_ok s → utf8_valid s = true.
Proof.
  intros [_ H]%name_ok_bytes. apply utf8_ascii. eapply all_bytes_impl; [| exact H].
  intros c. destruct c as [[] [] [] [] [] [] [] []]; by vm_compute.
Qed.

Lemma enter_section scope kind section : name_ok kind → name_ok section → scope.1 !! section = None →
  enter scope ["config"; kind; section] = Ok (<[section := kind]> scope.1, Some section).
Proof.
  intros Hk Hs Hn. destruct scope as [secs cur]. pose proof (name_ok_bytes _ Hs) as [Hne _]. unfold enter. cbn.
  rewrite (proj2 (String.eqb_neq section "")) by done. unfold name_ok in Hs. rewrite Hs. cbn.
  rewrite name_utf8 by done. cbn in *. by rewrite Hn.
Qed.

Lemma option_lines_enter ls scope : option_lines ls → Forall line_ok ls →
  Forall (λ ws, enter scope ws = Ok scope) (line_words <$> ls).
Proof.
  intros Ho Hl. apply Forall_fmap. induction Ho as [| l ls (key & value & ->) _ IH]; [constructor |].
  apply Forall_cons in Hl as [[Hk _] Hl]. constructor; [by apply enter_option | by apply IH].
Qed.

(** ** The statements that stay *)

Definition Entry := (list string * option string)%type.

(** The section of a package statement does not matter. *)
Definition in_sections (es : list Entry) : list Entry := List.filter (λ e, negb (is_package e.1)) es.

Lemma in_sections_app a b : in_sections (a ++ b) = (in_sections a ++ in_sections b)%list.
Proof. apply List.filter_app. Qed.

Definition tagged (m : Mark) : list Entry := (λ ws, (ws, m.(mk_section))) <$> mark_out m.
Definition tagged_marks (ms : list Mark) : list Entry := concat (tagged <$> ms).

Section scopes.
Context (patches : gmap string SectionPatch).

Definition gone (k : string) : bool := match patches !! k with Some patch => goes patch | None => false end.

(** The scopes of the original and of the output. *)
Definition scopes (scope scope' : Scope) : Prop :=
  (∀ k, scope'.1 !! k = if gone k then None else scope.1 !! k)
  ∧ (scope'.2 = scope.2 ∨ ∃ k, scope.2 = Some k ∧ gone k = true).

(** What a statement of a section that stays can be. *)
Lemma kept_statement m : mark_outcome patches m → is_package (mark_words m) = false →
  match m.(mk_section) with Some k => gone k = false | None => True end →
  (m.(mk_edit) ≠ Keep → is_option (mark_words m) = true) ∧ option_lines m.(mk_added) ∧ mark_ok m.
Proof.
  intros [Hin Hout] Hp Hk.
  assert (Hfresh : fresh_mark m → (m.(mk_edit) ≠ Keep → is_option (mark_words m) = true) ∧ option_lines m.(mk_added) ∧ mark_ok m).
  { intros Hf. pose proof Hf as [He Ha]. split_and?; [done | by rewrite Ha; constructor | by apply fresh_mark_ok]. }
  unfold in_section in *. rewrite Hp in *. cbn [negb] in *.
  destruct (mk_section m) as [k |]; [| apply Hfresh, Hout; intros; by rewrite bool_decide_eq_false_2].
  unfold gone in Hk. destruct (patches !! k) as [patch |] eqn:E.
  - assert (H : outcome patch m) by (apply (Hin k); [done | by rewrite bool_decide_eq_true_2]).
    unfold outcome in H. by rewrite Hk in H.
  - apply Hfresh, Hout. intros k' [p' Hk']. rewrite bool_decide_eq_false_2; [done |]. intros [= ->]. congruence.
Qed.

Lemma gone_statement m k : mark_outcome patches m → is_package (mark_words m) = false →
  m.(mk_section) = Some k → gone k = true → mark_out m = [].
Proof.
  intros [Hin _] Hp Hk Hg. unfold gone in Hg. destruct (patches !! k) as [patch |] eqn:E; [| done].
  assert (H : outcome patch m).
  { apply (Hin k); [done |]. unfold in_section. by rewrite Hk, Hp, bool_decide_eq_true_2. }
  unfold outcome in H. rewrite Hg in H. destruct H as [He Ha]. unfold mark_out, edit_out. by rewrite He, Ha.
Qed.

Lemma package_statement m : mark_outcome patches m → is_package (mark_words m) = true → mark_out m = [mark_words m].
Proof.
  intros [_ Hout] Hp. apply fresh_out, Hout. intros k _. unfold in_section. rewrite Hp. cbn. by rewrite andb_false_r.
Qed.

(** Every statement a mark leaves is read in the scope of the mark. *)
Lemma mark_out_run m scope scope1 scope' :
  mark_outcome patches m → enter scope (mark_words m) = Ok scope1 → m.(mk_section) = scope1.2 → scopes scope scope' →
  ∃ es scope1', scope_run scope' (mark_out m) = Ok (es, scope1') ∧ scopes scope1 scope1'
    ∧ in_sections es = in_sections (tagged m).
Proof.
  intros Hm He Hs [HR Hcur]. unfold tagged.
  assert (Hgone : ∀ k, mk_section m = Some k → gone k = true → is_package (mark_words m) = false →
    (∀ j, (if gone j then None else scope1.1 !! j) = if gone j then None else scope.1 !! j) →
    ∃ es scope1', scope_run scope' (mark_out m) = Ok (es, scope1') ∧ scopes scope1 scope1'
      ∧ in_sections es = in_sections ((λ ws, (ws, m.(mk_section))) <$> mark_out m)).
  { intros k Hk Hg Hp Heq. rewrite (gone_statement m k) by done. exists [], scope'. split_and?; [done | | done].
    split; [intros j; rewrite HR; symmetry; apply Heq |]. right. exists k. split; [congruence | done]. }
  destruct (enter_steps _ _ _ He) as [(Hp & -> & Hstep) | [(Hp & Hno & -> & Hstep) | [(Hp & Hno & kind & section & -> & Hstep)
    | (Hp & Ho & -> & Hstep)]]].
  - rewrite (package_statement m Hm Hp). eexists _, scope'. split; [by apply scope_run_one, Hstep |].
    split; [done |]. cbn. by rewrite Hp.
  - destruct (kept_statement m Hm Hp) as (Hkeep & Hl & Hok); [by rewrite Hs |].
    assert (Hedit : mk_edit m = Keep) by (destruct (mk_edit m); [done | |]; rewrite Hkeep in Hno; done).
    unfold mark_out, edit_out. rewrite Hedit.
    eexists _, _. split; [eapply scope_run_app; [by apply scope_run_one, Hstep |]; apply scope_run_stays, option_lines_enter; [done | apply Hok] |].
    cbn [fst snd]. split; [by split; [| left] |]. rewrite Hs. by rewrite fmap_app.
  - cbn [snd] in Hs. destruct (gone section) eqn:Eg.
    { apply (Hgone section); [done | done | done |]. intros j. destruct (gone j) eqn:Ej; [done |].
      cbn [fst]. rewrite lookup_insert_ne; [done |]. congruence. }
    destruct (kept_statement m Hm Hp) as (Hkeep & Hl & Hok); [by rewrite Hs |].
    assert (Hedit : mk_edit m = Keep) by (destruct (mk_edit m); [done | |]; rewrite Hkeep in Hno; done).
    unfold mark_out, edit_out. rewrite Hedit. assert (E : scope'.1 !! section = scope.1 !! section) by (by rewrite HR, Eg).
    eexists _, _. split; [eapply scope_run_app; [by apply scope_run_one, Hstep |]; apply scope_run_stays, option_lines_enter; [done | apply Hok] |].
    cbn [fst snd]. split; [| rewrite Hs; by rewrite fmap_app]. split; [| by left]. intros j. cbn [fst].
    destruct (decide (j = section)) as [-> | Hj]; [by rewrite !lookup_insert_eq, Eg |]. by rewrite !lookup_insert_ne, HR.
  - destruct (match mk_section m with Some k => gone k | None => false end) eqn:Eg.
    { destruct (mk_section m) as [k |] eqn:Ek; [| done]. by apply (Hgone k). }
    destruct (kept_statement m Hm Hp) as (Hkeep & Hl & Hok); [by destruct (mk_section m) |].
    assert (Ecur : scope'.2 = mk_section m).
    { destruct Hcur as [-> | (k & Hk & Hg)]; [done |]. rewrite Hs, Hk, Hg in Eg. done. }
    assert (Hrun : Forall (λ ws, enter scope' ws = Ok scope') (mark_out m)).
    { apply Forall_app. split; [| apply option_lines_enter; [done | apply Hok]]. unfold edit_out.
      destruct (mk_edit m) as [| key value |] eqn:E; [by constructor | | constructor].
      constructor; [| constructor]. apply enter_option. by destruct (mo_change m Hok key value E) as [? _]. }
    eexists _, _. split; [by apply scope_run_stays |]. rewrite Ecur. split; [by split | done].
Qed.

Lemma marks_run ms : ∀ scope scope' es last,
  Forall (mark_outcome patches) ms → scope_run scope (mark_words <$> ms) = Ok (es, last) → mk_section <$> ms = es.*2 →
  scopes scope scope' →
  ∃ es' last', scope_run scope' (marks_words ms) = Ok (es', last') ∧ scopes last last'
    ∧ in_sections es' = in_sections (tagged_marks ms).
Proof.
  induction ms as [| m ms IH]; intros scope scope' es last Hm Hrun Hs HR.
  { injection Hrun as <- <-. exists [], scope'. done. }
  apply Forall_cons in Hm as [Hm Hms]. rewrite fmap_cons in Hrun. cbn [scope_run] in Hrun.
  apply bind_ok_inv in Hrun as (scope1 & He & Hrun). apply bind_ok_inv in Hrun as ([es1 last1] & Hrun & H).
  injection H as <- <-. injection Hs as Hs1 Hs.
  destruct (mark_out_run m scope scope1 scope' Hm He Hs1 HR) as (ea & scope1' & Ha & HR1 & Ea).
  destruct (IH scope1 scope1' es1 last1 Hms Hrun Hs HR1) as (eb & last' & Hb & HR2 & Eb).
  exists (ea ++ eb)%list, last'. unfold marks_words, tagged_marks in *. rewrite !fmap_cons. cbn [concat].
  split; [by eapply scope_run_app |]. split; [done |]. by rewrite !in_sections_app, Ea, Eb.
Qed.
End scopes.
