(* ===== verification/UciBounds.v ===== *)
(** * Bounds of the output

    [render] adds at most one statement per edit and no zero byte. *)

From stdpp Require Import sorting.
From S2P Require Import Prelude RustStr SchedRecord UciEdits UciLexing UciMarks UciPasses UciCarried UciOutput UciSections UciValues.
Local Open Scope string_scope.

(** ** The number of statements *)

(** The statements a patch can add. *)
Definition weight (patch : SectionPatch) : nat :=
  (size patch.(sp_options) + if is_some patch.(sp_add) then 1 else 0)%nat.
Definition weights (pl : list (string * SectionPatch)) : nat := sum_list ((λ p, weight p.2) <$> pl).

Lemma weights_cons k p pl : weights ((k, p) :: pl) = (weight p + weights pl)%nat.
Proof. done. Qed.

Lemma weights_perm pl pl' : pl ≡ₚ pl' → weights pl = weights pl'.
Proof. unfold weights. induction 1; cbn in *; lia. Qed.

Lemma patch_edit_weight sections e patch patch' : patch_edit sections e patch = Ok patch' →
  (weight patch' ≤ S (weight patch))%nat.
Proof.
  assert (Hs : ∀ key value, (size (<[key:=value]> patch.(sp_options)) ≤ S (size patch.(sp_options)))%nat).
  { intros key value. destruct (patch.(sp_options) !! key) as [v |] eqn:E.
    - rewrite map_size_insert_Some by eauto. lia.
    - by rewrite map_size_insert_None. }
  unfold weight. destruct e as [section kind | section | section key value | section key]; cbn [patch_edit]; intros H.
  - apply bind_ok_inv in H as (t & _ & H). apply then_ok in H as [_ H]. apply ret_ok_inv in H as <-. cbn. rewrite map_size_empty. lia.
  - apply then_ok in H as [_ H]. apply ret_ok_inv in H as <-. cbn. rewrite map_size_empty. lia.
  - apply bind_ok_inv in H as (t & _ & H). apply then_ok in H as [_ H]. apply bind_ok_inv in H as (q & _ & H).
    apply ret_ok_inv in H as <-. cbn. specialize (Hs key (Some value)). lia.
  - apply bind_ok_inv in H as (t & _ & H). apply then_ok in H as [_ H].
    apply ret_ok_inv in H as <-. cbn. specialize (Hs key None). lia.
Qed.

Lemma collect_weight sections edits : ∀ patches patches',
  collect sections patches edits = Ok patches' →
  (weights (map_to_list patches') ≤ weights (map_to_list patches) + length edits)%nat.
Proof.
  induction edits as [| e edits IH]; intros patches patches' H; cbn [collect length] in *; [apply ret_ok_inv in H as <-; lia |].
  apply bind_ok_inv in H as (section & Hs & H). apply bind_ok_inv in H as (patch & He & H).
  apply IH in H. apply patch_edit_weight in He. apply uci_name_ok in Hs as ->.
  destruct (patches !! edit_section e) as [p |] eqn:E; cbn [default from_option id] in He.
  - rewrite <- (insert_delete_id patches (edit_section e) p E) in H |- *. rewrite insert_insert_eq in H.
    rewrite (weights_perm _ _ (map_to_list_insert _ _ patch (lookup_delete_eq patches (edit_section e)))) in H.
    rewrite (weights_perm _ _ (map_to_list_insert _ _ p (lookup_delete_eq patches (edit_section e)))).
    unfold weights in *. cbn in *. lia.
  - rewrite (weights_perm _ _ (map_to_list_insert _ _ patch E)) in H. unfold weights in *. cbn in *.
    assert (weight empty_patch = 0%nat) by done. unfold id in *. lia.
Qed.

Lemma entries_length {A} (m : gmap string A) : length (entries m) = size m.
Proof. unfold entries. by rewrite merge_sort_Permutation, length_map_to_list. Qed.

Lemma missing_lines_length seen options : (length (missing_lines seen options) ≤ length options)%nat.
Proof. induction options as [| [key [v |]] options IH]; cbn; [lia | |]; repeat case_match; cbn; lia. Qed.

Definition added_count (ms : list Mark) : nat := sum_list ((λ m, length m.(mk_added)) <$> ms).

Lemma add_last_count k ls ms : (added_count (add_last k ls ms) ≤ added_count ms + length ls)%nat.
Proof.
  unfold added_count. induction ms as [| m ms IH]; cbn [add_last]; [cbn; lia |]. destruct (_ && _).
  - cbn. rewrite length_app. lia.
  - cbn in *. lia.
Qed.

Lemma same_added ms ms' : Forall2 same_statement ms ms' → added_count ms' = added_count ms.
Proof. unfold added_count. induction 1 as [| m m' ms ms' (_ & _ & E) _ IH]; [done |]. cbn in *. rewrite E. lia. Qed.

Lemma apply_patches_count pl : ∀ ms,
  (added_count (apply_patches pl ms) + length (new_lines pl) ≤ added_count ms + weights pl)%nat.
Proof.
  induction pl as [| [k patch] pl IH]; intros ms; cbn [apply_patches new_lines]; [cbn; lia |].
  specialize (IH (patch_marks k patch ms)). rewrite weights_cons.
  rewrite length_app. assert (added_count (patch_marks k patch ms) + length (match patch.(sp_add) with
    | Some kind => SectionLine kind k :: missing_lines ∅ (entries patch.(sp_options)) | None => [] end)
    ≤ added_count ms + weight patch)%nat; [| lia].
  unfold patch_marks. pose proof (same_added _ _ (pass_marks_same k patch ∅ ms)) as Hs.
  destruct (pass_marks k patch ∅ ms) as [ms' seen]. cbn [fst] in Hs. unfold goes, weight.
  pose proof (missing_lines_length ∅ (entries (sp_options patch))) as Hl. rewrite entries_length in Hl.
  pose proof (missing_lines_length seen (entries (sp_options patch))) as Hl'. rewrite entries_length in Hl'.
  pose proof (add_last_count k (missing_lines seen (entries (sp_options patch))) ms') as Hc.
  destruct (sp_add patch); cbn [is_some length]; [rewrite orb_true_r; lia |].
  destruct (sp_delete patch); cbn [orb]; lia.
Qed.

Lemma marks_words_count ms : (length (marks_words ms) ≤ length ms + added_count ms)%nat.
Proof.
  unfold marks_words, added_count. induction ms as [| m ms IH]; [done |]. rewrite fmap_cons. cbn [concat]. rewrite length_app.
  unfold mark_out at 1. rewrite length_app, length_fmap. cbn in *.
  assert (length (edit_out m) ≤ 1)%nat by (unfold edit_out; destruct (mk_edit m); cbn; lia). lia.
Qed.

(** ** Zero bytes *)

Lemma name_no_zero s : name_ok s → contains "000" s = false.
Proof. intros [_ H]%name_ok_bytes. by eapply contains_class. Qed.

Lemma escape_no_zero v : any_control v = false → contains "000" (escape_quotes v) = false.
Proof.
  induction v as [| c v IH]; [done |]. cbn [any_control escape_quotes]. intros [[[Hc _]%orb_false_iff _]%orb_false_iff Hv]%orb_false_iff.
  destruct (Ascii.eqb c "'"); [by rewrite contains_append, IH |]. rewrite contains_cons, IH by done.
  destruct (Ascii.eqb_spec "000" c) as [<- |]; done.
Qed.

Lemma line_no_zero l : line_ok l → contains "000" (line_text l) = false.
Proof.
  destruct l as [key value | kind section]; intros [H1 H2]; cbn [line_text]; unfold option_line, quoted.
  - rewrite !contains_append, (name_no_zero key), escape_no_zero by done. done.
  - rewrite !contains_append, (name_no_zero kind), (name_no_zero section) by done. done.
Qed.

Lemma lines_no_zero ls : Forall line_ok ls → contains "000" (lines_text ls) = false.
Proof. induction 1 as [| l ls Hl _ IH]; [done |]. cbn [lines_text]. by rewrite contains_append, line_no_zero. Qed.

Lemma added_no_zero original at_ ls : Forall line_ok ls → contains "000" (added_text original at_ ls) = false.
Proof.
  intros H. unfold added_text. rewrite contains_append, lines_no_zero by done.
  by destruct (fresh_line_text original at_) as [-> | ->].
Qed.

Lemma marked_no_zero original p ms : Forall mark_ok ms → contains "000" (segments_text (mk_segment <$> ms)) = false →
  contains "000" (marked_text original p ms) = false.
Proof.
  intros H. revert p. induction H as [| m ms [Hc Ha] _ IH]; intros p Hz; [done |]. rewrite fmap_cons in Hz.
  cbn [segments_text marked_text] in *. unfold segment_text in Hz. rewrite !contains_append in Hz |- *.
  apply orb_false_iff in Hz as [[Hg [Hb Ht]%orb_false_iff]%orb_false_iff Hz]. rewrite Hg, IH by done. cbn [orb].
  rewrite orb_false_r. apply orb_false_iff. split.
  - unfold marked_body. destruct (mk_edit m) as [| key value |]; [by rewrite contains_append, Hb | | done].
    destruct (Hc key value eq_refl) as [Hk Hv]. rewrite contains_append, Ht. unfold option_line, quoted.
    rewrite !contains_append, (name_no_zero key), escape_no_zero by done. done.
  - unfold added_after. destruct (mk_added m) eqn:E; [done |]. rewrite <- E. by apply added_no_zero; rewrite E.
Qed.

Lemma start_marks_count ss es : added_count (start_marks ss es) = 0%nat.
Proof. unfold added_count. revert es. induction ss as [| s ss IH]; intros [| e es]; [done.. |]. apply IH. Qed.

Lemma placed_length ss es p : es.*1 = sg_words <$> ss → length (placed p ss es) = length ss.
Proof.
  revert es p. induction ss as [| s ss IH]; intros [| [ws k] es] p H; try done. rewrite !fmap_cons in H. injection H as _ H.
  cbn [placed length]. by rewrite IH.
Qed.

Lemma end_text_no_zero original g ls ms : Forall line_ok ls → contains "000" (end_text original g ls ms) = false.
Proof. intros H. unfold end_text. destruct (at_end g ms); [done |]. destruct ls; [done |]. by apply added_no_zero. Qed.

Lemma end_marks_segments g ls ms : mk_segment <$> end_marks g ls ms = mk_segment <$> ms.
Proof.
  unfold end_marks. destruct (at_end g ms); [| done]. induction ms as [| m ms IH]; [done |]. cbn [add_end].
  destruct ms; [done |]. rewrite !(fmap_cons _ m). by rewrite IH.
Qed.

Lemma end_marks_ok g ls ms : Forall line_ok ls → Forall mark_ok ms → Forall mark_ok (end_marks g ls ms).
Proof.
  intros Hl Hm. unfold end_marks. destruct (at_end g ms); [| done]. induction Hm as [| m ms [Hc Ha] Hms IH]; [constructor |].
  cbn [add_end]. destruct ms; [| by constructor; [split |]].
  constructor; [| constructor]. split; [done |]. by apply Forall_app.
Qed.
