(* ===== verification/UciView.v ===== *)
(** * What a UCI file says

    A file is read as the kinds of its named sections and the statements of their options.
    [render] writes a file that says exactly what the edits, carried out one after the
    other, make of the original. *)

From stdpp Require Import sorting.
From S2P Require Import Prelude RustStr SchedRecord UciEdits UciLexing UciMarks UciPasses UciCarried UciOutput UciSections UciValues UciScopes UciBounds.
Local Open Scope string_scope.

(** ** Specification *)

(** The statements that set or list an option of a section. *)
Definition option_values (statements : list Statement) (section key : string) : list (list string) :=
  st_words <$> List.filter (λ s, bool_decide (s.(st_section) = Some section) && key_statement key s.(st_words)) statements.

Definition edit_kind (kinds : gmap string string) (e : Edit) : gmap string string :=
  match e with
  | AddSection section kind => <[ section := kind ]> kinds
  | DeleteSection section => delete section kinds
  | _ => kinds
  end.

Definition edit_values (section key : string) (values : list (list string)) (e : Edit) : list (list string) :=
  match e with
  | AddSection s _ | DeleteSection s => if String.eqb s section then [] else values
  | SetOption s option value => if String.eqb s section && String.eqb option key then set_words key value else values
  | DeleteOption s option => if String.eqb s section && String.eqb option key then [] else values
  end.

(** ** Patches as a view *)

Section patched.
Context (sections : gmap string string) (values : string → string → list (list string)).

Definition patched_kind (patches : gmap string SectionPatch) (k : string) : option string :=
  match patches !! k with
  | Some patch =>
      match patch.(sp_add) with
      | Some kind => Some kind
      | None => if patch.(sp_delete) then None else sections !! k
      end
  | None => sections !! k
  end.

Definition patched_values (patches : gmap string SectionPatch) (k key : string) : list (list string) :=
  match patches !! k with
  | Some patch =>
      match patch.(sp_options) !! key with
      | Some (Some value) => set_words key value
      | Some None => []
      | None => if goes patch then [] else values k key
      end
  | None => values k key
  end.

(** One edit. *)
Lemma patch_edit_kind patches e patch (kinds : gmap string string) k :
  patch_edit sections e (default empty_patch (patches !! edit_section e)) = Ok patch →
  kinds !! k = patched_kind patches k →
  edit_kind kinds e !! k = patched_kind (<[ edit_section e := patch ]> patches) k.
Proof.
  intros H Hk. unfold patched_kind. destruct (decide (k = edit_section e)) as [-> | Hne].
  - rewrite lookup_insert_eq. unfold patched_kind in Hk.
    destruct e as [section kind | section | section key value | section key]; cbn [edit_section patch_edit edit_kind] in *.
    + apply bind_ok_inv in H as (t & _ & H). apply then_ok in H as [_ H]. apply ret_ok_inv in H as <-. apply lookup_insert_eq.
    + apply then_ok in H as [_ H]. apply ret_ok_inv in H as <-. apply lookup_delete_eq.
    + apply bind_ok_inv in H as (t & _ & H). apply then_ok in H as [_ H]. apply bind_ok_inv in H as (q & _ & H).
      apply ret_ok_inv in H as <-. rewrite Hk. by destruct (patches !! section).
    + apply bind_ok_inv in H as (t & _ & H). apply then_ok in H as [_ H].
      apply ret_ok_inv in H as <-. rewrite Hk. by destruct (patches !! section).
  - rewrite lookup_insert_ne by done. fold (patched_kind patches k). rewrite <- Hk.
    destruct e; cbn [edit_kind edit_section] in *; [by apply lookup_insert_ne | by apply lookup_delete_ne | done | done].
Qed.

Lemma patch_edit_values patches e patch k key :
  patch_edit sections e (default empty_patch (patches !! edit_section e)) = Ok patch →
  edit_values k key (patched_values patches k key) e = patched_values (<[ edit_section e := patch ]> patches) k key.
Proof.
  intros H. unfold patched_values at 2. destruct (decide (k = edit_section e)) as [-> | Hne].
  - rewrite lookup_insert_eq. unfold patched_values.
    destruct e as [section kind | section | section option value | section option]; cbn [edit_section patch_edit edit_values] in *;
      rewrite String.eqb_refl.
    + apply bind_ok_inv in H as (t & _ & H). apply then_ok in H as [_ H]. by apply ret_ok_inv in H as <-.
    + apply then_ok in H as [_ H]. by apply ret_ok_inv in H as <-.
    + apply bind_ok_inv in H as (t & _ & H). apply then_ok in H as [_ H]. apply bind_ok_inv in H as (q & _ & H).
      apply ret_ok_inv in H as <-. cbn [sp_options andb]. unfold goes. cbn [sp_delete sp_add].
      destruct (String.eqb_spec option key) as [-> |]; [by rewrite lookup_insert_eq |]. rewrite lookup_insert_ne by done.
      by destruct (patches !! section).
    + apply bind_ok_inv in H as (t & _ & H). apply then_ok in H as [_ H].
      apply ret_ok_inv in H as <-. cbn [sp_options andb]. unfold goes. cbn [sp_delete sp_add].
      destruct (String.eqb_spec option key) as [-> |]; [by rewrite lookup_insert_eq |]. rewrite lookup_insert_ne by done.
      by destruct (patches !! section).
  - rewrite lookup_insert_ne by done. fold (patched_values patches k key).
    destruct e; cbn [edit_values edit_section] in *; by rewrite (proj2 (String.eqb_neq _ k)).
Qed.

(** All edits. *)
Lemma collect_view edits : ∀ patches patches' (kinds : gmap string string),
  collect sections patches edits = Ok patches' → (∀ k, kinds !! k = patched_kind patches k) →
  (∀ k, foldl edit_kind kinds edits !! k = patched_kind patches' k)
  ∧ ∀ k key, foldl (edit_values k key) (patched_values patches k key) edits = patched_values patches' k key.
Proof.
  induction edits as [| e edits IH]; intros patches patches' kinds H Hk; cbn [collect foldl] in *; [by apply ret_ok_inv in H as <- |].
  apply bind_ok_inv in H as (section & Hs & H). apply bind_ok_inv in H as (patch & He & H).
  pose proof (uci_name_ok _ _ Hs) as ->.
  destruct (IH _ _ (edit_kind kinds e) H) as [I1 I2]; [intros k; by apply patch_edit_kind |].
  split; [done |]. intros k key. by rewrite (patch_edit_values patches e patch) by done.
Qed.
End patched.

(** ** New sections *)

Definition patch_lines (section : string) (patch : SectionPatch) : list Line :=
  match patch.(sp_add) with
  | Some kind => SectionLine kind section :: missing_lines ∅ (entries patch.(sp_options))
  | None => []
  end.

Lemma new_lines_cons k patch pl : new_lines ((k, patch) :: pl) = (patch_lines k patch ++ new_lines pl)%list.
Proof. done. Qed.

Definition new_entries (pl : list (string * SectionPatch)) : list Entry :=
  concat ((λ p, (λ l, (line_words l, Some p.1)) <$> patch_lines p.1 p.2) <$> pl).

Section new.
Context (sections : gmap string string).

Lemma patch_lines_ok k patch : patch_ok (known sections k) k patch → Forall line_ok (patch_lines k patch).
Proof.
  intros H. unfold patch_lines. destruct (sp_add patch) eqn:E; [| constructor].
  constructor; [split; [by apply (po_kind _ _ _ H) | apply H] |]. by apply missing_lines_ok, H.
Qed.

Lemma new_lines_ok pl : Forall (λ p, patch_ok (known sections p.1) p.1 p.2) pl → Forall line_ok (new_lines pl).
Proof.
  induction 1 as [| [k patch] pl H _ IH]; [constructor |]. rewrite new_lines_cons. apply Forall_app.
  split; [by apply patch_lines_ok | done].
Qed.

Lemma patch_lines_run k patch scope kind :
  patch_ok (known sections k) k patch → patch.(sp_add) = Some kind → scope.1 !! k = None →
  scope_run scope (line_words <$> patch_lines k patch)
  = Ok ((λ l, (line_words l, Some k)) <$> patch_lines k patch, (<[k := kind]> scope.1, Some k)).
Proof.
  intros H E Hn. pose proof (patch_lines_ok k patch H) as Hl. unfold patch_lines in *. rewrite E in *.
  apply Forall_cons in Hl as [[Hk Hs] Hl]. rewrite !fmap_cons. cbn [scope_run line_words].
  rewrite (enter_section scope kind k Hk Hs Hn). cbn [mbind result_bind].
  rewrite (scope_run_stays _ _ (option_lines_enter _ (<[k := kind]> scope.1, Some k) (missing_lines_options _ _) Hl)).
  cbn. by rewrite <- list_fmap_compose.
Qed.

Lemma new_lines_run pl : ∀ scope,
  NoDup pl.*1 → Forall (λ p, patch_ok (known sections p.1) p.1 p.2) pl →
  Forall (λ p, is_Some p.2.(sp_add) → scope.1 !! p.1 = None) pl →
  ∃ last, scope_run scope (line_words <$> new_lines pl) = Ok (new_entries pl, last)
    ∧ ∀ k, last.1 !! k = match (list_to_map pl : gmap string SectionPatch) !! k with
        | Some patch => match patch.(sp_add) with Some kind => Some kind | None => scope.1 !! k end
        | None => scope.1 !! k
        end.
Proof.
  induction pl as [| [k patch] pl IH]; intros scope Hnd Hok Hnew.
  { exists scope. split; [done |]. intros k. cbn. by rewrite lookup_empty. }
  apply NoDup_cons in Hnd as [Hk Hnd]. apply Forall_cons in Hok as [Hp Hok]. apply Forall_cons in Hnew as [Hn Hnew].
  cbn [fst snd] in *. rewrite new_lines_cons, fmap_app. cbn [list_to_map foldr uncurry fst snd].
  change (foldr _ _ pl) with (list_to_map pl : gmap string SectionPatch).
  unfold new_entries. rewrite fmap_cons. cbn [concat fst snd]. fold (new_entries pl).
  destruct (sp_add patch) as [kind |] eqn:E.
  - pose proof (patch_lines_run k patch scope kind Hp E (Hn ltac:(by eexists))) as Hrun.
    destruct (IH (<[k := kind]> scope.1, Some k) Hnd Hok) as (last & H1 & H2).
    { rewrite Forall_forall in Hnew |- *. intros [k' p'] Hin Ha. cbn [fst snd].
      rewrite lookup_insert_ne; [by apply (Hnew (k', p')) |]. intros ->. apply Hk, list_elem_of_fmap. by exists (k', p'). }
    exists last. split; [by eapply scope_run_app |]. intros j. rewrite H2. cbn [fst].
    destruct (decide (j = k)) as [-> | Hj].
    + rewrite (not_elem_of_list_to_map_1 _ _ Hk). cbn. rewrite !lookup_insert_eq. by rewrite E.
    + cbn. by rewrite !lookup_insert_ne.
  - destruct (IH scope Hnd Hok Hnew) as (last & H1 & H2). exists last.
    assert (El : patch_lines k patch = []) by (unfold patch_lines; by rewrite E). rewrite El.
    split; [done |]. intros j. rewrite H2. destruct (decide (j = k)) as [-> | Hj].
    + rewrite (not_elem_of_list_to_map_1 _ _ Hk). cbn. by rewrite lookup_insert_eq, E.
    + cbn. by rewrite lookup_insert_ne.
Qed.
End new.

(** ** Values of entries *)

Definition entry_values (es : list Entry) (section key : string) : list (list string) :=
  fst <$> List.filter (λ e, bool_decide (e.2 = Some section) && key_statement key e.1) es.

Lemma entry_values_app a b section key :
  entry_values (a ++ b) section key = (entry_values a section key ++ entry_values b section key)%list.
Proof. unfold entry_values. by rewrite List.filter_app, fmap_app. Qed.

Lemma key_statement_package key ws : key_statement key ws = true → is_package ws = false.
Proof.
  unfold key_statement. destruct ws as [| w ws]; [done |]. cbn. intros [[->%String.eqb_eq | ->%String.eqb_eq]%orb_true_iff _]%andb_true_iff; done.
Qed.

Lemma entry_values_in_sections es section key : entry_values (in_sections es) section key = entry_values es section key.
Proof.
  unfold entry_values, in_sections. induction es as [| e es IH]; [done |]. cbn [List.filter].
  destruct (is_package e.1) eqn:Ep; cbn [negb].
  - destruct (key_statement key e.1) eqn:Ek; [apply key_statement_package in Ek; congruence |]. by rewrite andb_false_r.
  - cbn [List.filter]. destruct (bool_decide _ && _); [by rewrite !fmap_cons, IH | done].
Qed.

(** Entries that are all of one section. *)
Lemma entry_values_const wss s section key :
  entry_values ((λ ws, (ws, s)) <$> wss) section key = if bool_decide (s = Some section) then key_words key wss else [].
Proof.
  unfold entry_values, key_words. induction wss as [| ws wss IH]; [by destruct (bool_decide _) |].
  rewrite fmap_cons. cbn [List.filter fst snd]. destruct (bool_decide (s = Some section)); cbn [andb] in *; [| done].
  destruct (key_statement key ws); [by rewrite fmap_cons, IH | done].
Qed.

Lemma tagged_values patches ms section key : Forall (mark_outcome patches) ms →
  entry_values (tagged_marks ms) section key = key_words key (marks_words (section_marks section ms)).
Proof.
  unfold tagged_marks, marks_words, section_marks. induction 1 as [| m ms Hm _ IH]; [done |].
  rewrite fmap_cons. cbn [concat List.filter]. rewrite entry_values_app, IH. unfold tagged. rewrite entry_values_const.
  assert (Hp : is_package (mark_words m) = true → key_words key (mark_out m) = []).
  { intros Hp. rewrite (package_statement patches m Hm Hp). unfold key_words. cbn.
    destruct (key_statement key (mark_words m)) eqn:Ek; [apply key_statement_package in Ek; congruence | done]. }
  unfold in_section. destruct (bool_decide (mk_section m = Some section)); cbn [andb]; [| done].
  destruct (is_package (mark_words m)); cbn [negb]; [by rewrite Hp | rewrite fmap_cons; cbn [concat]; by rewrite key_words_app].
Qed.

Lemma new_entries_values pl section key : NoDup pl.*1 →
  entry_values (new_entries pl) section key =
  match (list_to_map pl : gmap string SectionPatch) !! section with
  | Some patch => key_words key (line_words <$> patch_lines section patch)
  | None => []
  end.
Proof.
  induction pl as [| [k patch] pl IH]; intros Hnd; [cbn; by rewrite lookup_empty |]. apply NoDup_cons in Hnd as [Hk Hnd].
  cbn [list_to_map foldr uncurry fst snd]. change (foldr _ _ pl) with (list_to_map pl : gmap string SectionPatch).
  unfold new_entries. rewrite fmap_cons. cbn [concat fst snd]. fold (new_entries pl). rewrite entry_values_app, IH by done.
  rewrite (list_fmap_compose line_words (λ ws, (ws, Some k))), entry_values_const.
  destruct (decide (k = section)) as [-> | Hne].
  - rewrite bool_decide_eq_true_2 by done. cbn. by rewrite lookup_insert_eq, (not_elem_of_list_to_map_1 _ _ Hk), app_nil_r.
  - rewrite bool_decide_eq_false_2 by congruence. cbn. by rewrite lookup_insert_ne.
Qed.

(** ** Reading the output *)

Lemma placed_entries ss es p : es.*1 = sg_words <$> ss →
  (λ s, (s.(st_words), s.(st_section))) <$> placed p ss es = es.
Proof.
  revert es p. induction ss as [| s ss IH]; intros [| [ws k] es] p H; try done. rewrite !fmap_cons in H.
  injection H as _ H. cbn [placed]. rewrite fmap_cons. cbn [st_words st_section]. by rewrite IH.
Qed.

Lemma option_values_entries stmts section key :
  option_values stmts section key = entry_values ((λ s, (s.(st_words), s.(st_section))) <$> stmts) section key.
Proof.
  unfold option_values, entry_values. induction stmts as [| s stmts IH]; [done |]. rewrite fmap_cons. cbn [List.filter fst snd].
  destruct (_ && _); [by rewrite !fmap_cons, IH | done].
Qed.

Lemma start_marks_words ss es : es.*1 = sg_words <$> ss →
  mark_words <$> start_marks ss es = sg_words <$> ss ∧ mk_section <$> start_marks ss es = es.*2
  ∧ tagged_marks (start_marks ss es) = es.
Proof.
  revert es. induction ss as [| s ss IH]; intros [| [ws k] es] H; try done. rewrite !fmap_cons in H.
  injection H as Hw H. destruct (IH es H) as (E1 & E2 & E3). cbn [start_marks zip_with].
  change (zip_with start_mark ss es) with (start_marks ss es). unfold tagged_marks in *. rewrite !fmap_cons. cbn [concat].
  rewrite E1, E2, E3. split_and?; [done | done |]. unfold tagged. cbn. cbn [fst] in Hw. by rewrite Hw.
Qed.

Lemma known_statement wss : ∀ scope es last k, scope_run scope wss = Ok (es, last) → scope.1 !! k = None →
  is_Some (last.1 !! k) → ∃ ws, (ws, Some k) ∈ es ∧ is_package ws = false.
Proof.
  induction wss as [| ws wss IH]; intros scope es last k H Hn Hk; cbn [scope_run] in H.
  { injection H as <- <-. rewrite Hn in Hk. by destruct Hk. }
  apply bind_ok_inv in H as (scope1 & He & H). apply bind_ok_inv in H as ([es1 last1] & Hr & H). injection H as <- <-.
  assert (Hlater : scope1.1 !! k = None → ∃ ws', (ws', Some k) ∈ (ws, scope1.2) :: es1 ∧ is_package ws' = false).
  { intros Hn1. destruct (IH _ _ _ _ Hr Hn1 Hk) as (ws' & Hin & Hp). exists ws'. split; [by right | done]. }
  destruct (enter_steps _ _ _ He) as [(_ & -> & _) | [(_ & _ & -> & _) | [(Hp & _ & kind & section & -> & _) | (_ & _ & -> & _)]]];
    [by apply Hlater | by apply Hlater | | by apply Hlater].
  destruct (decide (k = section)) as [-> | Hne]; [exists ws; split; [left | done] |].
  apply Hlater. cbn. by rewrite lookup_insert_ne.
Qed.

Section output.
Context (original : string) (edits : list Edit) (out : string) (stmts : list Statement) (sections : gmap string string).

(** The patches, the marked statements and the entries of the output. *)
Record rendered (patches : gmap string SectionPatch) (ms : list Mark) (es es' : list Entry)
    (stmts' : list Statement) (sections' : gmap string string) : Prop := {
  rd_patches : collect sections ∅ edits = Ok patches;
  rd_ok : patches_ok sections patches;
  rd_reads : statements out = Ok (stmts', sections');
  rd_before : (λ s, (s.(st_words), s.(st_section))) <$> stmts = es;
  rd_after : (λ s, (s.(st_words), s.(st_section))) <$> stmts' = es';
  rd_fresh : Forall fresh_mark ms;
  rd_tagged : tagged_marks ms = es;
  rd_known : ∀ k, is_Some (sections !! k) → ∃ ws, (ws, Some k) ∈ es ∧ is_package ws = false;
  rd_outcome : Forall (mark_outcome patches) (apply_patches (entries patches) ms);
  rd_kinds : ∀ k, sections' !! k = patched_kind sections patches k;
  rd_entries : in_sections es' =
    (in_sections (tagged_marks (apply_patches (entries patches) ms)) ++ in_sections (new_entries (entries patches)))%list;
}.

Lemma start_marks_all_fresh ss es : Forall fresh_mark (start_marks ss es).
Proof. revert es. induction ss as [| s ss IH]; intros [| e es]; constructor; [done | apply IH]. Qed.

Lemma outcome_mark_ok patches m : mark_outcome patches m → mark_ok m.
Proof.
  intros [Hin Hout].
  destruct (match mk_section m with
    | Some k => if is_package (mark_words m) then None else patches !! k | None => None end) as [patch |] eqn:E.
  - destruct (mk_section m) as [k |] eqn:Ek; [| done]. destruct (is_package (mark_words m)) eqn:Ep; [done |].
    assert (H : outcome patch m) by (apply (Hin k); [done | unfold in_section; by rewrite Ek, Ep, bool_decide_eq_true_2]).
    unfold outcome in H. destruct (goes patch); [| tauto]. destruct H as [He Ha].
    split; [by rewrite He | by rewrite Ha].
  - apply fresh_mark_ok, Hout. intros k' [p' Hk']. unfold in_section.
    destruct (is_package (mark_words m)); [by rewrite andb_false_r |]. rewrite bool_decide_eq_false_2; [done |].
    intros Ek. rewrite Ek in E. congruence.
Qed.

Lemma apply_patches_sections pl ms : mk_section <$> apply_patches pl ms = mk_section <$> ms.
Proof. induction (apply_patches_outside pl ms) as [| m m' ms1 ms2 (_ & E & _) _ IH]; [done |]. by rewrite !fmap_cons, E, IH. Qed.

Lemma patched_kind_scopes patches (last last' : Scope) k :
  scopes patches last last' →
  match patches !! k with
  | Some patch => match patch.(sp_add) with Some kind => Some kind | None => last'.1 !! k end
  | None => last'.1 !! k
  end = patched_kind last.1 patches k.
Proof.
  intros [HR _]. unfold patched_kind. rewrite HR. unfold gone, goes. destruct (patches !! k) as [patch |]; [| done].
  destruct (sp_add patch); [done |]. by rewrite orb_false_r.
Qed.

(** The words of the marked file are read in the sections of the original. *)
Lemma output_run patches ms es last :
  patches_ok last.1 patches → Forall (mark_outcome patches) ms →
  scope_run (∅, None) (mark_words <$> ms) = Ok (es, last) → mk_section <$> ms = es.*2 →
  ∃ es' last', scope_run (∅, None) (marks_words ms ++ (line_words <$> new_lines (entries patches))) = Ok (es', last')
    ∧ in_sections es' = (in_sections (tagged_marks ms) ++ in_sections (new_entries (entries patches)))%list
    ∧ ∀ k, last'.1 !! k = patched_kind last.1 patches k.
Proof.
  intros Hpok Hoc Hrun Hsec.
  destruct (marks_run patches ms (∅, None) (∅, None) es last Hoc Hrun Hsec) as (es1 & last1 & R1 & HR & I1).
  { split; [intros k; cbn; rewrite lookup_empty; by destruct (gone patches k) | by left]. }
  destruct (new_lines_run last.1 (entries patches) last1) as (last2 & R2 & K2).
  - apply entries_nodup.
  - apply Forall_forall. intros [k p] Hin%entries_lookup. by apply Hpok.
  - apply Forall_forall. intros [k p] Hin%entries_lookup [kind Ha]. cbn in *. destruct HR as [HR _]. rewrite HR.
    unfold gone, goes. by rewrite Hin, Ha, orb_true_r.
  - exists (es1 ++ new_entries (entries patches))%list, last2. split; [by eapply scope_run_app |].
    split; [by rewrite in_sections_app, I1 |]. intros k. rewrite K2, entries_map. by apply patched_kind_scopes.
Qed.

Lemma render_rendered :
  uci_render original edits = Ok out → statements original = Ok (stmts, sections) →
  escaped_end original = false → (length stmts + length edits ≤ MAX_STATEMENTS)%nat →
  ∃ patches ms es es' stmts' sections', rendered patches ms es es' stmts' sections'.
Proof.
  intros Hr Hst He Hcount. destruct (render_carried _ _ _ Hr) as (ss & g & es & last & patches & Ho & Hb & Hok & Hrun & Hn & Hc & Hout & Hlen & Hseg).
  pose proof (scope_run_words _ _ _ _ Hrun) as Hes.
  assert (Hst' : statements original = Ok (placed 0 ss es, last.1)) by (rewrite Ho in Hb |- *; by apply statements_read).
  rewrite Hst in Hst'. injection Hst' as Est Esec.
  pose proof (collect_ok _ _ _ _ (map_Forall_empty _) Hc) as Hpok.
  set (ms := apply_patches _ _) in *. set (ls := new_lines _) in *.
  assert (Hoc : Forall (mark_outcome patches) ms).
  { apply apply_patches_outcome; [intros k patch Hp; by apply (Hpok k patch) | apply start_marks_all_fresh]. }
  assert (Hentries : Forall (λ p, patch_ok (known last.1 p.1) p.1 p.2) (entries patches)).
  { apply Forall_forall. intros [k p] Hin%entries_lookup. by apply Hpok. }
  assert (Hls : Forall line_ok ls) by (by eapply new_lines_ok).
  assert (Hmok : Forall mark_ok ms) by (eapply Forall_impl; [exact Hoc | intros m; apply outcome_mark_ok]).
  destruct (carried_reads original g ls ms) as (ss' & g' & E' & Hok' & W'); [by rewrite Hseg | by rewrite Hseg | done | done | done |].
  rewrite E' in Hout. destruct (start_marks_words ss es Hes) as (S1 & S2 & S3).
  destruct (output_run patches ms es last Hpok Hoc) as (es' & last' & R & I & K).
  { change (mark_words <$> ms) with (sg_words ∘ mk_segment <$> ms). rewrite list_fmap_compose. by rewrite Hseg. }
  { unfold ms. by rewrite apply_patches_sections, S2. }
  assert (Hrun' : scope_run (∅, None) (sg_words <$> ss') = Ok (es', last')) by (rewrite W'; exact R).
  assert (Hcnt : (length ss' ≤ MAX_STATEMENTS)%nat).
  { rewrite <- (length_fmap sg_words), W', length_app, length_fmap. fold (marks_words ms).
    pose proof (marks_words_count ms). pose proof (apply_patches_count (entries patches) (start_marks ss es)) as Hac.
    fold ms ls in Hac. apply collect_weight in Hc.
    rewrite (weights_perm (entries patches) (map_to_list patches)) in Hac by apply merge_sort_Permutation.
    assert (E0 : added_count (start_marks ss es) = 0%nat) by apply start_marks_count.
    assert (E1 : length ms = length ss) by (by rewrite <- Hseg, length_fmap).
    rewrite Est, (placed_length ss es 0 Hes) in Hcount. change (weights (map_to_list ∅)) with 0%nat in Hc. lia. }
  assert (Hbounds : file_bounds out).
  { split; [done |]. rewrite Hout, <- E'. destruct Hb as [_ Hz]. rewrite Ho, contains_append in Hz.
    apply orb_false_iff in Hz as [Hz1 Hz2]. rewrite !contains_append, Hz2. cbn [orb].
    rewrite end_text_no_zero by done. rewrite orb_false_r. apply marked_no_zero; [by apply end_marks_ok |].
    rewrite end_marks_segments. by rewrite Hseg. }
  exists patches, (start_marks ss es), es, es', (placed 0 ss' es'), last'.1.
  split; rewrite ?Est, ?Esec; try done.
  - rewrite Hout in Hbounds |- *. by apply statements_read.
  - by apply placed_entries.
  - apply placed_entries. by eapply scope_run_words.
  - apply start_marks_all_fresh.
  - intros k Hk. eapply known_statement; [exact Hrun | apply lookup_empty | done].
Qed.
End output.

(** ** What the output says *)

Lemma fresh_outcome m : fresh_mark m → mark_outcome ∅ m.
Proof. intros H. split; [by intros k patch; rewrite lookup_empty | done]. Qed.

Lemma tagged_fresh_values ms section key : Forall fresh_mark ms →
  entry_values (tagged_marks ms) section key = key_words key (marks_words (section_marks section ms)).
Proof. intros H. apply (tagged_values ∅). eapply Forall_impl; [exact H | apply fresh_outcome]. Qed.

Lemma section_marks_in k ms ws : Forall fresh_mark ms → (ws, Some k) ∈ tagged_marks ms → is_package ws = false →
  section_marks k ms ≠ [].
Proof.
  unfold tagged_marks. intros H Hin Hp. induction H as [| m ms Hm _ IH]; [by apply elem_of_nil in Hin |].
  rewrite fmap_cons in Hin. cbn [concat] in Hin. apply elem_of_app in Hin as [Hin | Hin].
  - unfold tagged in Hin. rewrite (fresh_out m Hm) in Hin. cbn in Hin. apply list_elem_of_singleton in Hin as [= -> Hk].
    unfold section_marks. cbn [List.filter]. unfold in_section. by rewrite <- Hk, Hp, bool_decide_eq_true_2.
  - unfold section_marks in *. cbn [List.filter]. destruct (in_section k m); [done |]. by apply IH.
Qed.

Lemma section_marks_all k ms : Forall (λ m, in_section k m = true) (section_marks k ms).
Proof. apply Forall_forall. intros m Hm%list_elem_of_In. unfold section_marks in Hm. by apply filter_In in Hm as [_ ?]. Qed.

Lemma section_marks_fresh k ms : Forall fresh_mark ms → Forall fresh_mark (section_marks k ms).
Proof.
  rewrite !Forall_forall. intros H m Hm%list_elem_of_In. unfold section_marks in Hm.
  apply filter_In in Hm as [Hm%list_elem_of_In _]. by apply H.
Qed.

Lemma patch_lines_key k patch key : patch_ok true k patch → goes patch = true →
  key_words key (line_words <$> patch_lines k patch) =
  match patch.(sp_options) !! key with Some (Some value) => set_words key value | _ => [] end.
Proof.
  intros Hok Hg. unfold patch_lines. destruct (sp_add patch) as [kind |] eqn:E.
  - rewrite fmap_cons. change (key_words key (?w :: ?ws)) with (key_words key ws).
    rewrite missing_lines_key, entries_map by apply entries_nodup.
    destruct (sp_options patch !! key) as [[v |] |]; [| done | done]. rewrite bool_decide_eq_false_2; [done |]. apply not_elem_of_empty.
  - unfold goes in Hg. rewrite E, orb_false_r in Hg. destruct (po_delete _ _ _ Hok Hg) as [_ ->]. by rewrite lookup_empty.
Qed.

Lemma rendered_values edits out stmts sections patches ms es es' stmts' sections' section key :
  rendered edits out stmts sections patches ms es es' stmts' sections' →
  option_values stmts' section key = patched_values (option_values stmts) patches section key.
Proof.
  intros [Hc Hok _ Hb Ha Hf Ht Hkn Hoc _ He].
  rewrite option_values_entries, Ha, <- entry_values_in_sections, He, entry_values_app, !entry_values_in_sections.
  rewrite (tagged_values patches), apply_patches_section, new_entries_values, entries_map by (done || apply entries_nodup).
  assert (Eo : option_values stmts section key = key_words key (marks_words (section_marks section ms))).
  { by rewrite option_values_entries, Hb, <- Ht, tagged_fresh_values. }
  unfold patched_values. destruct (patches !! section) as [patch |] eqn:Ep; [| by rewrite app_nil_r, Eo].
  pose proof (section_marks_fresh section ms Hf) as Hfs. pose proof (section_marks_all section ms) as Has.
  pose proof (Hok _ _ Ep) as Hpk.
  assert (Hpk' : patch_ok true section patch) by (destruct Hpk; by split).
  destruct (goes patch) eqn:Eg.
  - rewrite (patch_marks_gone section patch), (patch_lines_key section patch) by (done || apply Hpk). cbn.
    by destruct (sp_options patch !! key) as [[v |] |].
  - assert (Hne : section_marks section ms ≠ []).
    { pose proof (po_known _ _ _ Hpk Eg) as Hk. unfold known in Hk. destruct (sections !! section) eqn:Es; [| done].
      destruct (Hkn section) as (ws & Hin & Hp); [by eexists |]. rewrite <- Ht in Hin. by eapply section_marks_in. }
    rewrite patch_marks_key by done.
    assert (El : patch_lines section patch = []).
    { unfold patch_lines. unfold goes in Eg. by destruct (sp_add patch); [rewrite orb_true_r in Eg |]. }
    rewrite El, app_nil_r, Eo. done.
Qed.

(** The statements of a section, or of none, other than package statements. *)
Definition section_words (statements : list Statement) (section : option string) : list (list string) :=
  st_words <$> List.filter (λ s, bool_decide (s.(st_section) = section) && negb (is_package s.(st_words))) statements.

Definition entry_words (es : list Entry) (section : option string) : list (list string) :=
  fst <$> List.filter (λ e, bool_decide (e.2 = section)) (in_sections es).

Lemma section_words_entries stmts section :
  section_words stmts section = entry_words ((λ s, (s.(st_words), s.(st_section))) <$> stmts) section.
Proof.
  unfold section_words, entry_words, in_sections. induction stmts as [| s stmts IH]; [done |]. rewrite fmap_cons. cbn [List.filter fst snd].
  destruct (is_package (st_words s)); cbn [negb]; [by rewrite andb_false_r |]. rewrite andb_true_r. cbn [List.filter snd].
  destruct (bool_decide _); [by rewrite !fmap_cons, IH | done].
Qed.

Lemma entry_words_app a b section : entry_words (a ++ b) section = (entry_words a section ++ entry_words b section)%list.
Proof. unfold entry_words. by rewrite in_sections_app, List.filter_app, fmap_app. Qed.

Lemma entry_words_other es section : (∀ e, e ∈ es → e.2 ≠ section) → entry_words es section = [].
Proof.
  unfold entry_words, in_sections. induction es as [| e es IH]; intros H; [done |]. cbn [List.filter].
  destruct (negb _); [| apply IH; intros; apply H; by right]. cbn [List.filter].
  rewrite bool_decide_eq_false_2 by (apply H; left). apply IH. intros; apply H. by right.
Qed.

Lemma untouched_words pl ms section : (∀ k, k ∈ pl.*1 → Some k ≠ section) →
  entry_words (tagged_marks (apply_patches pl ms)) section = entry_words (tagged_marks ms) section.
Proof.
  intros Hk. unfold tagged_marks. induction (apply_patches_outside pl ms) as [| m m' ms1 ms2 (E1 & E2 & E3) _ IH]; [done |].
  rewrite !fmap_cons. cbn [concat]. rewrite !entry_words_app, IH. f_equal.
  destruct (decide (mk_section m = section)) as [E | E].
  - rewrite E3; [done |]. intros k Hin. apply Hk in Hin. unfold in_section. rewrite bool_decide_eq_false_2; [done | congruence].
  - rewrite !entry_words_other; [done | |]; intros e (ws & -> & _)%list_elem_of_fmap; cbn; congruence.
Qed.

Lemma collect_keys sections edits : ∀ patches patches' k, collect sections patches edits = Ok patches' →
  is_Some (patches' !! k) → is_Some (patches !! k) ∨ ∃ e, e ∈ edits ∧ edit_section e = k.
Proof.
  induction edits as [| e edits IH]; intros patches patches' k H Hk; cbn [collect] in H; [apply ret_ok_inv in H as <-; by left |].
  apply bind_ok_inv in H as (section & Hs & H). apply bind_ok_inv in H as (patch & He & H).
  apply uci_name_ok in Hs as ->. destruct (IH _ _ k H Hk) as [Hin | (e' & Hin & E)].
  - destruct (decide (k = edit_section e)) as [-> | Hne]; [right; exists e; split; [left | done] |].
    rewrite lookup_insert_ne in Hin by done. by left.
  - right. exists e'. split; [by right | done].
Qed.

Lemma patches_edited sections edits patches k : collect sections ∅ edits = Ok patches → k ∈ (entries patches).*1 →
  ∃ e, e ∈ edits ∧ edit_section e = k.
Proof.
  intros Hc ([k' p] & -> & Hin%entries_lookup)%list_elem_of_fmap.
  destruct (collect_keys _ _ _ _ _ Hc ltac:(by eexists)) as [[? H] | H]; [by rewrite lookup_empty in H | done].
Qed.

Lemma rendered_foreign edits out stmts sections patches ms es es' stmts' sections' section :
  rendered edits out stmts sections patches ms es es' stmts' sections' →
  (∀ e, e ∈ edits → Some (edit_section e) ≠ section) →
  section_words stmts' section = section_words stmts section.
Proof.
  intros H Hout. assert (Hk : ∀ k, k ∈ (entries patches).*1 → Some k ≠ section).
  { intros k (e & He & <-)%(patches_edited _ _ _ _ (rd_patches _ _ _ _ _ _ _ _ _ _ H)). by apply Hout. }
  rewrite !section_words_entries, (rd_before _ _ _ _ _ _ _ _ _ _ H), (rd_after _ _ _ _ _ _ _ _ _ _ H).
  assert (E : entry_words es' section = (entry_words (tagged_marks (apply_patches (entries patches) ms)) section
    ++ entry_words (new_entries (entries patches)) section)%list).
  { unfold entry_words. by rewrite (rd_entries _ _ _ _ _ _ _ _ _ _ H), List.filter_app, fmap_app. }
  rewrite E. clear E.
  rewrite untouched_words, (rd_tagged _ _ _ _ _ _ _ _ _ _ H) by done. rewrite (entry_words_other (new_entries _)); [by rewrite app_nil_r |].
  intros e He. unfold new_entries in He. apply list_elem_of_In, in_concat in He as (l & Hl%list_elem_of_In & He%list_elem_of_In).
  apply list_elem_of_fmap in Hl as ([k p] & -> & Hin).
  apply list_elem_of_fmap in He as (l' & -> & _). cbn. apply Hk, list_elem_of_fmap. by exists (k, p).
Qed.

(** C23: What [render] writes says what the edits make of the original, one after the other:
    the output is read without an error, its named sections have the kinds, and every option
    of every named section the values, that carrying out the edits in order gives, and every
    section no edit names, like the anonymous ones, has its statements in their order. The
    original must not end in an escaped line end, and the statements and edits together
    must not exceed the limit on statements. *)
Theorem render_view original edits out stmts sections :
  uci_render original edits = Ok out → statements original = Ok (stmts, sections) →
  escaped_end original = false → (length stmts + length edits ≤ MAX_STATEMENTS)%nat →
  ∃ stmts' sections', statements out = Ok (stmts', sections')
    ∧ sections' = foldl edit_kind sections edits
    ∧ (∀ section key, option_values stmts' section key
        = foldl (edit_values section key) (option_values stmts section key) edits)
    ∧ ∀ section, (∀ e, e ∈ edits → Some (edit_section e) ≠ section) →
        section_words stmts' section = section_words stmts section.
Proof.
  intros Hr Hst He Hn.
  destruct (render_rendered _ _ _ _ _ Hr Hst He Hn) as (patches & ms & es & es' & stmts' & sections' & H).
  exists stmts', sections'. split; [apply H |].
  destruct (collect_view sections (option_values stmts) edits ∅ patches sections (rd_patches _ _ _ _ _ _ _ _ _ _ H)) as [K V].
  { intros k. unfold patched_kind. by rewrite lookup_empty. }
  split_and?.
  - apply map_eq. intros k. by rewrite K, (rd_kinds _ _ _ _ _ _ _ _ _ _ H).
  - intros section key. rewrite (rendered_values _ _ _ _ _ _ _ _ _ _ section key H), <- V.
    unfold patched_values. by rewrite lookup_empty.
  - intros section. by apply (rendered_foreign _ _ _ _ _ _ _ _ _ _ section H).
Qed.

(** ** Trying it *)

Definition sample_file : string :=
  text_lines ["# head"; "config sqm 'a' # keep"; " option x 1; list y 2"; "config anon"; "option o p";
              "config sqm 'b'"; " option z 3"].
Definition sample_edits : list Edit :=
  [SetOption "a" "x" "it's"; DeleteOption "a" "y"; SetOption "a" "n" "5"; DeleteSection "b";
   AddSection "c" "queue"; SetOption "c" "o" "v"].
Definition sample_output : string :=
  text_lines ["# head"; "config sqm 'a' # keep"; " option x 'it'\''s'; " +:+ str1 tab +:+ "option n '5'";
              "config anon"; "option o p"; " "; "config queue 'c'"; str1 tab +:+ "option o 'v'"; ""].
Definition sample_statements : list Statement :=
  match statements sample_file with Ok (statements, _) => statements | Err _ => [] end.
Definition sample_sections : gmap string string := {[ "a" := "sqm"; "b" := "sqm" ]}.

Lemma sample_rendered : uci_render sample_file sample_edits = Ok sample_output.
Proof. by vm_compute. Qed.
Lemma sample_read : statements sample_file = Ok (sample_statements, sample_sections).
Proof. by vm_compute. Qed.

Lemma render_view_witness :
  ∃ stmts' sections', statements sample_output = Ok (stmts', sections')
    ∧ sections' = foldl edit_kind sample_sections sample_edits
    ∧ (∀ section key, option_values stmts' section key
        = foldl (edit_values section key) (option_values sample_statements section key) sample_edits)
    ∧ ∀ section, (∀ e, e ∈ sample_edits → Some (edit_section e) ≠ section) →
        section_words stmts' section = section_words sample_statements section.
Proof.
  refine (render_view sample_file sample_edits sample_output sample_statements sample_sections
    sample_rendered sample_read _ _); [vm_compute; reflexivity |].
  refine (proj1 (Nat.leb_le _ _) _). vm_compute. reflexivity.
Defined.

(** A file that ends in an escaped newline: the new option goes on with the last word, and
    the output is no UCI file. *)
Example escaped_end_joined :
  uci_render (text_lines ["config x 'a'"; "option k foo\"; ""]) [SetOption "a" "n" "1"] ≫= statements
  = Err "uci-edit-too-many-tokens".
Proof. by vm_compute. Qed.
