(* ===== verification/UciKept.v ===== *)
(** * What [render] keeps of a UCI file

    Every byte of the output is a byte of the original or is there because of an edit: a
    statement goes only when an edit deletes its section or names its option, it is rewritten
    only to the value an edit sets, and every line that is added is one an edit asks for. *)

From stdpp Require Import sorting.
From S2P Require Import Prelude RustStr SchedRecord UciEdits UciLexing UciMarks UciPasses UciCarried UciOutput UciSections UciValues UciScopes UciBounds UciView.
Local Open Scope string_scope.

(** ** Specification *)

(** The edit is about this statement: it deletes its section, or names its option there. *)
Definition addresses (e : Edit) (m : Mark) : Prop :=
  in_section (edit_section e) m = true ∧
  match e with
  | AddSection _ _ => False
  | DeleteSection _ => True
  | SetOption _ key _ | DeleteOption _ key => is_option (mark_words m) = true ∧ nth 1 (mark_words m) "" = key
  end.

(** What becomes of a statement is what an edit about it says. *)
Definition changed_by (edits : list Edit) (m : Mark) : Prop :=
  match m.(mk_edit) with
  | Keep => True
  | Change key value => ∃ section, SetOption section key value ∈ edits ∧ addresses (SetOption section key value) m
  | Drop => ∃ e, e ∈ edits ∧ addresses e m
  end.

(** What is added after a statement is an option that an edit sets in its section. *)
Definition added_by (edits : list Edit) (m : Mark) : Prop :=
  ∀ l, l ∈ m.(mk_added) → ∃ section key value,
    l = OptionLine key value ∧ m.(mk_section) = Some section ∧ SetOption section key value ∈ edits.

(** What is added at the end is a section that an edit adds, or an option set in one. *)
Definition new_by (edits : list Edit) (l : Line) : Prop :=
  match l with
  | SectionLine kind section => AddSection section kind ∈ edits
  | OptionLine key value => ∃ section kind, AddSection section kind ∈ edits ∧ SetOption section key value ∈ edits
  end.

(** ** Where patches come from *)

Section provenance.
Context (sections : gmap string string) (edits : list Edit).

(** Every part of the patch of section [k] comes from an edit. *)
Record from_edits (k : string) (patch : SectionPatch) : Prop := {
  fe_delete : patch.(sp_delete) = true → DeleteSection k ∈ edits;
  fe_add : ∀ kind, patch.(sp_add) = Some kind →
    AddSection k kind ∈ edits ∧ (known sections k = true → DeleteSection k ∈ edits);
  fe_set : ∀ key value, patch.(sp_options) !! key = Some (Some value) → SetOption k key value ∈ edits;
  fe_unset : ∀ key, patch.(sp_options) !! key = Some None → DeleteOption k key ∈ edits;
}.

Lemma empty_from_edits k : from_edits k empty_patch.
Proof. split; cbn; intros *; by rewrite ?lookup_empty. Qed.

Lemma patch_from_edits e patch patch' :
  e ∈ edits → from_edits (edit_section e) patch → patch_edit sections e patch = Ok patch' →
  from_edits (edit_section e) patch'.
Proof.
  intros He [Hd Ha Hs Hu] H.
  destruct e as [section kind | section | section key value | section key]; cbn [edit_section patch_edit] in *.
  - apply bind_ok_inv in H as (t & _ & H). apply then_ok in H as [Hf H]. apply ret_ok_inv in H as <-.
    apply fail_if_ok, orb_false_iff in Hf as [Hf _]. split; cbn; intros *; rewrite ?lookup_empty; try done.
    intros [= <-]. split; [done |]. intros Hk. rewrite Hk in Hf. apply Hd. by destruct (sp_delete patch).
  - apply then_ok in H as [_ H]. apply ret_ok_inv in H as <-. split; cbn; intros *; by rewrite ?lookup_empty.
  - apply bind_ok_inv in H as (t & _ & H). apply then_ok in H as [_ H]. apply bind_ok_inv in H as (q & _ & H).
    apply ret_ok_inv in H as <-. split; cbn; [done | done | |]; intros key' *.
    + rewrite lookup_insert_Some. intros [[-> [= <-]] | [_ H]]; [done | by apply Hs].
    + rewrite lookup_insert_Some. intros [[_ H] | [_ H]]; [done | by apply Hu].
  - apply bind_ok_inv in H as (t & _ & H). apply then_ok in H as [_ H].
    apply ret_ok_inv in H as <-. split; cbn; [done | done | |]; intros key' *.
    + rewrite lookup_insert_Some. intros [[_ H] | [_ H]]; [done | by apply Hs].
    + rewrite lookup_insert_Some. intros [[-> _] | [_ H]]; [done | by apply Hu].
Qed.

Lemma collect_from_edits es : ∀ patches patches',
  (∀ e, e ∈ es → e ∈ edits) → map_Forall from_edits patches → collect sections patches es = Ok patches' →
  map_Forall from_edits patches'.
Proof.
  induction es as [| e es IH]; intros patches patches' Hin Hp H; cbn [collect] in H; [by apply ret_ok_inv in H as <- |].
  apply bind_ok_inv in H as (section & Hs & H). apply bind_ok_inv in H as (patch & He & H).
  pose proof (uci_name_ok _ _ Hs) as ->. apply IH in H; [done | intros; apply Hin; by right |].
  apply map_Forall_insert_2; [| done]. eapply patch_from_edits; [apply Hin; left | | exact He].
  destruct (patches !! edit_section e) as [p |] eqn:E; [by apply (Hp _ _ E) | apply empty_from_edits].
Qed.

(** A section of the file goes only when an edit deletes it. *)
Lemma goes_deleted k patch : from_edits k patch → goes patch = true → known sections k = true → DeleteSection k ∈ edits.
Proof.
  intros [Hd Ha _ _]. unfold goes. destruct (sp_delete patch); [by auto |]. cbn.
  destruct (sp_add patch) as [kind |]; [| done]. intros _. by apply (Ha kind).
Qed.

(** ** What the passes make of a statement *)

Record justified (m : Mark) : Prop := {
  j_known : ∀ k, in_section k m = true → known sections k = true;
  j_changed : changed_by edits m;
  j_added : added_by edits m;
}.

Lemma mark_statement_justified k patch seen m :
  from_edits k patch → in_section k m = true → justified m → justified (mark_statement patch seen m).1.
Proof.
  intros Hp Hin Hm. assert (Hdrop : (∃ e, e ∈ edits ∧ addresses e m) → justified (set_edit Drop m)).
  { intros He. destruct Hm as [Hk _ Ha]. by split. }
  unfold mark_statement. destruct (goes patch) eqn:Eg.
  { apply Hdrop. exists (DeleteSection k). split; [| done]. apply (goes_deleted k patch); auto. by apply Hm. }
  destruct (is_option (mark_words m)) eqn:Eo; cbn [negb]; [| done].
  destruct (sp_options patch !! nth 1 (mark_words m) "") as [[value |] |] eqn:Ek; [| | done].
  - apply (fe_set _ _ Hp) in Ek. assert (Had : addresses (SetOption k (nth 1 (mark_words m) "") value) m) by done.
    destruct (bool_decide _); cbn [fst]; [apply Hdrop; by eexists |].
    destruct Hm as [Hk _ Ha]. split; [done | by exists k | done].
  - apply (fe_unset _ _ Hp) in Ek. apply Hdrop. by eexists.
Qed.

Lemma pass_marks_justified k patch seen ms :
  from_edits k patch → Forall justified ms → Forall justified (pass_marks k patch seen ms).1.
Proof.
  intros Hp H. revert seen. induction H as [| m ms Hm _ IH]; intros seen; [constructor |]. rewrite pass_marks_cons. cbn.
  constructor; [| apply IH]. destruct (in_section k m) eqn:E; [by apply mark_statement_justified with k | done].
Qed.

Lemma add_last_justified k ls ms :
  (∀ l, l ∈ ls → ∃ key value, l = OptionLine key value ∧ SetOption k key value ∈ edits) →
  Forall justified ms → Forall justified (add_last k ls ms).
Proof.
  intros Hl. induction 1 as [| m ms Hm Hms IH]; [constructor |]. cbn [add_last].
  destruct (in_section k m && _) eqn:E; [| by constructor]. constructor; [| done].
  apply andb_true_iff in E as [E _]. unfold in_section in E. apply andb_true_iff in E as [E%bool_decide_eq_true _].
  destruct Hm as [Hk Hc Ha]. split; [done | done |]. intros l. cbn [add_lines mk_added mk_section].
  intros [Hin | (key & value & -> & Hin)%Hl]%elem_of_app; [by apply Ha | by exists k, key, value].
Qed.

Lemma missing_from_edits k patch seen l :
  from_edits k patch → l ∈ missing_lines seen (entries patch.(sp_options)) →
  ∃ key value, l = OptionLine key value ∧ SetOption k key value ∈ edits.
Proof.
  intros Hp (key & value & -> & Hin%entries_lookup & _)%missing_lines_in.
  exists key, value. split; [done | by apply (fe_set _ _ Hp)].
Qed.

Lemma patch_marks_justified k patch ms :
  from_edits k patch → Forall justified ms → Forall justified (patch_marks k patch ms).
Proof.
  intros Hp H. unfold patch_marks. pose proof (pass_marks_justified k patch ∅ ms Hp H) as H'.
  destruct (pass_marks k patch ∅ ms) as [ms' seen]. destruct (goes patch); [done |].
  apply add_last_justified; [| done]. intros l. by apply missing_from_edits.
Qed.

Lemma apply_patches_justified pl : ∀ ms,
  Forall (λ p, from_edits p.1 p.2) pl → Forall justified ms → Forall justified (apply_patches pl ms).
Proof.
  induction pl as [| [k patch] pl IH]; intros ms Hp H; [done |]. apply Forall_cons in Hp as [Hk Hp].
  cbn [apply_patches]. by apply IH, patch_marks_justified.
Qed.

Lemma new_lines_by pl : Forall (λ p, from_edits p.1 p.2) pl → Forall (new_by edits) (new_lines pl).
Proof.
  induction 1 as [| [k patch] pl Hp _ IH]; [constructor |]. rewrite new_lines_cons. apply Forall_app. split; [| done].
  unfold patch_lines. destruct (sp_add patch) as [kind |] eqn:E; [| constructor].
  pose proof (fe_add _ _ Hp kind E) as [Ha _]. constructor; [done |]. apply Forall_forall.
  intros l (key & value & -> & Hs)%(missing_from_edits k); [by exists k, kind | done].
Qed.
End provenance.

(** ** The statements of the file *)

Lemma statement_known wss : ∀ scope es last, scope_run scope wss = Ok (es, last) →
  (∀ k, scope.2 = Some k → is_Some (scope.1 !! k)) →
  (∀ k, is_Some (scope.1 !! k) → is_Some (last.1 !! k))
  ∧ ∀ ws k, (ws, Some k) ∈ es → is_Some (last.1 !! k).
Proof.
  induction wss as [| ws wss IH]; intros scope es last H Hc; cbn [scope_run] in H.
  { injection H as <- <-. split; [done |]. by intros ws k ?%elem_of_nil. }
  apply bind_ok_inv in H as (scope1 & He & H). apply bind_ok_inv in H as ([es1 last1] & Hr & H). injection H as <- <-.
  assert (Hs : (∀ k, is_Some (scope.1 !! k) → is_Some (scope1.1 !! k)) ∧ ∀ k, scope1.2 = Some k → is_Some (scope1.1 !! k)).
  { destruct (enter_steps _ _ _ He) as [(_ & -> & _) | [(_ & _ & -> & _) | [(_ & _ & kind & section & -> & _) | (_ & _ & -> & _)]]];
      [done | done | | done].
    cbn [fst snd]. split; [| intros k [= <-]; rewrite lookup_insert_eq; by eexists].
    intros k Hk. destruct (decide (k = section)) as [-> | Hne]; [rewrite lookup_insert_eq; by eexists | by rewrite lookup_insert_ne]. }
  destruct Hs as [Hg Hc1]. destruct (IH _ _ _ Hr Hc1) as [I1 I2].
  split; [auto |]. intros ws' k [[= -> Hk] | Hin]%elem_of_cons; [apply I1, Hc1; by symmetry | by eapply I2].
Qed.

Lemma start_marks_justified sections edits ss es :
  (∀ ws k, (ws, Some k) ∈ es → is_Some (sections !! k)) → Forall (justified sections edits) (start_marks ss es).
Proof.
  revert es. induction ss as [| s ss IH]; intros [| [ws section] es] H; try constructor.
  - split; [| done | by intros l ?%elem_of_nil]. intros k. unfold in_section. cbn. intros [->%bool_decide_eq_true _]%andb_true_iff.
    destruct (H ws k) as [kind Hk]; [left |]. unfold known. by rewrite Hk.
  - apply IH. intros ws' k Hin. apply (H ws'). by right.
Qed.

Lemma outside_statements pl ms p : mark_statements p (apply_patches pl ms) = mark_statements p ms.
Proof.
  revert p. induction (apply_patches_outside pl ms) as [| m m' ms1 ms2 (E1 & E2 & _) _ IH]; intros p; [done |].
  cbn [mark_statements]. unfold mark_end, mark_token_end, mark_start. by rewrite E1, E2, IH.
Qed.

(** C24: [render] rewrites nothing but what the edits address: the output is the original text,
    statement by statement with all its gaps and comments, where a statement is left out only
    when an edit deletes its section or sets or deletes its option there, is replaced only
    by the value an edit sets for its option, with the comment after it kept, and where the
    only lines added are options that an edit sets in the section of the statement they follow
    and, at the end of the file, the sections that an edit adds with options that an edit sets
    in them. Statements of sections and options no edit names are so kept byte for byte. *)
Theorem render_keeps_bytes original edits out stmts sections :
  uci_render original edits = Ok out → statements original = Ok (stmts, sections) →
  ∃ ms g ls, original = segments_text (mk_segment <$> ms) +:+ g ∧ stmts = mark_statements 0 ms
    ∧ out = marked_text original 0 (end_marks g ls ms) +:+ g +:+ end_text original g ls ms
    ∧ (∀ m, m ∈ ms → changed_by edits m ∧ added_by edits m) ∧ ∀ l, l ∈ ls → new_by edits l.
Proof.
  intros Hr Hst.
  destruct (render_carried _ _ _ Hr) as (ss & g & es & last & patches & Ho & Hb & Hok & Hrun & Hn & Hc & Hout & Hlen & Hseg).
  pose proof (scope_run_words _ _ _ _ Hrun) as Hes.
  assert (Hst' : statements original = Ok (placed 0 ss es, last.1)) by (rewrite Ho in Hb |- *; by apply statements_read).
  rewrite Hst in Hst'. injection Hst' as -> ->.
  exists (apply_patches (entries patches) (start_marks ss es)), g, (new_lines (entries patches)).
  rewrite Hseg. split; [done |]. split; [by rewrite outside_statements, start_marks_statements |]. split; [done |].
  assert (Hp : Forall (λ p, from_edits last.1 edits p.1 p.2) (entries patches)).
  { apply Forall_forall. intros [k p] Hin%entries_lookup.
    by apply (collect_from_edits last.1 edits edits ∅ patches (λ _ H, H) (map_Forall_empty _) Hc k p). }
  split; [| apply Forall_forall; by eapply new_lines_by].
  pose proof (apply_patches_justified last.1 edits _ (start_marks ss es) Hp) as Hj. rewrite !Forall_forall in Hj.
  intros m Hm. destruct (Hj (proj1 (Forall_forall _ _) (start_marks_justified _ _ _ _
    (proj2 (statement_known _ _ _ _ Hrun ltac:(done))))) m Hm). done.
Qed.

Lemma render_keeps_bytes_witness :
  ∃ ms g ls, sample_file = segments_text (mk_segment <$> ms) +:+ g ∧ sample_statements = mark_statements 0 ms
    ∧ sample_output = marked_text sample_file 0 (end_marks g ls ms) +:+ g +:+ end_text sample_file g ls ms
    ∧ (∀ m, m ∈ ms → changed_by sample_edits m ∧ added_by sample_edits m) ∧ ∀ l, l ∈ ls → new_by sample_edits l.
Proof. exact (render_keeps_bytes _ _ _ _ _ sample_rendered sample_read). Defined.
