(* ===== verification/UciTotal.v ===== *)
(** * [render] does what it is asked to

    Once the edits are accepted and the file is read, [render] can only fail for the size of
    its output: the ranges it replaces never overlap, every target is found, and the scanner
    always ends. *)

From stdpp Require Import sorting.
From S2P Require Import Prelude RustStr SchedRecord UciEdits UciLexing UciMarks UciPasses UciCarried UciOutput UciSections UciValues UciScopes UciView.
Local Open Scope string_scope.

(** ** The scanner ends *)

Definition out_of_fuel {A} (r : Res A) : Prop := r = Err "out of fuel".

Lemma bind_not_fuel {A B} (r : Res A) (k : A → Res B) :
  ¬ out_of_fuel r → (∀ a, r = Ok a → ¬ out_of_fuel (k a)) → ¬ out_of_fuel (r ≫= k).
Proof. unfold out_of_fuel. destruct r as [a | e]; cbn; [intros _ H; by apply H | intros H _ [= ->]; by apply H]. Qed.

Lemma fail_not_fuel b e : e ≠ "out of fuel" → ¬ out_of_fuel (fail_if b e : Res unit).
Proof. unfold out_of_fuel. destruct b; cbn; congruence. Qed.

Lemma token_not_fuel n q input : (String.length input ≤ n)%nat → ¬ out_of_fuel (token_go q input).
Proof.
  revert q input. induction n as [| n IH]; intros q [| c input] Hl; cbn in Hl; try lia; try (by destruct q).
  assert (Hpush : ∀ d q' s, (String.length s ≤ n)%nat → ¬ out_of_fuel (push d (token_go q' s))).
  { intros d q' s Hs. unfold push. apply bind_not_fuel; [by apply IH | by intros [w r] _]. }
  assert (Hesc : ∀ q', ¬ out_of_fuel (if Ascii.eqb c "\" then match input with
      | "" => Err "uci-edit-dangling-escape"
      | String next rest =>
          if Ascii.eqb next nl then token_go q' rest
          else match rest with
               | String lf rest' =>
                   if Ascii.eqb next cr && Ascii.eqb lf nl then token_go q' rest' else push next (token_go q' rest)
               | "" => push next (token_go q' rest)
               end
      end else push c (token_go q' input))).
  { intros q'. destruct (Ascii.eqb c "\"); [| apply Hpush; lia]. destruct input as [| next rest]; [done |]. cbn in Hl.
    destruct (Ascii.eqb next nl); [apply IH; lia |]. destruct rest as [| lf rest']; [by apply Hpush; cbn; lia |]. cbn in Hl.
    destruct (_ && _); [apply IH; lia | apply Hpush; cbn; lia]. }
  destruct q; cbn [token_go].
  - destruct (_ || _); [done |]. destruct (Ascii.eqb c "'"); [apply IH; lia |].
    destruct (Ascii.eqb c "034"); [apply IH; lia | apply Hesc].
  - destruct (Ascii.eqb c "'"); [apply IH; lia | apply Hpush; lia].
  - destruct (Ascii.eqb c "034"); [apply IH; lia | apply Hesc].
Qed.

Lemma words_not_fuel n input : ¬ out_of_fuel (statement_words n input).
Proof.
  revert input. induction n as [| n IH]; intros input; [done |]. cbn [statement_words]. apply bind_not_fuel.
  - unfold uci_token. apply bind_not_fuel; [by eapply token_not_fuel |]. intros [w r] _.
    apply bind_not_fuel; [by apply fail_not_fuel | done].
  - intros [w rest] _. destruct (statement_end rest); [done |]. apply bind_not_fuel; [apply IH | by intros [[ws te] next] _].
Qed.

Lemma name_not_fuel s : ¬ out_of_fuel (uci_name s).
Proof. unfold uci_name. apply bind_not_fuel; [by apply fail_not_fuel | done]. Qed.

Lemma enter_not_fuel scope ws : ¬ out_of_fuel (enter scope ws).
Proof.
  destruct scope as [secs cur]. destruct ws as [| command args]; [done |]. unfold enter.
  destruct (String.eqb command "package" && _); [done |]. destruct (String.eqb command "config").
  - destruct args as [| kind [| section [| ? ?]]]; try done. destruct (String.eqb section ""); [done |].
    apply bind_not_fuel; [apply name_not_fuel |]. intros s _. apply bind_not_fuel; [by apply fail_not_fuel |]. intros _ _.
    apply bind_not_fuel; [by apply fail_not_fuel | done].
  - destruct (_ || _); [| done]. destruct args as [| option [| v [| ? ?]]]; try done;
      (apply bind_not_fuel; [apply name_not_fuel | done]).
Qed.

Lemma skip_gap_shorter c s : (String.length (skip_gap c s) ≤ String.length s)%nat.
Proof. destruct (skip_gap_split c s) as (g & c' & E & _). rewrite E at 2. rewrite length_append. lia. Qed.

Lemma scan_not_fuel fuel : ∀ total count scope input, (String.length input < fuel)%nat →
  ¬ out_of_fuel (scan fuel total count scope input).
Proof.
  induction fuel as [| fuel IH]; intros total count scope input Hl; [lia |]. cbn [scan].
  pose proof (skip_gap_shorter false input). destruct (skip_gap false input) as [| c rest] eqn:Eg; [done |].
  apply bind_not_fuel; [by apply fail_not_fuel |]. intros _ _. apply bind_not_fuel; [apply words_not_fuel |].
  intros [[words token_end] next] Hw. apply bind_not_fuel; [apply enter_not_fuel |]. intros scope1 _.
  apply bind_not_fuel; [| by intros [? ?] _]. apply IH.
  apply statement_words_inv in Hw as (body & E & Hw & _ & He). apply statement_end_shorter in He.
  apply words_nonempty in Hw. rewrite E, length_append in H. destruct body; [done |]. cbn in H. lia.
Qed.

Lemma statements_not_fuel input : ¬ out_of_fuel (statements input).
Proof. unfold statements. apply bind_not_fuel; [by apply fail_not_fuel |]. intros _ _. apply scan_not_fuel. lia. Qed.

(** ** Accepted edits can be carried out *)

Definition value_ok (v : string) : Prop := uci_quote v = Ok (quoted v).
Definition values_ok (options : gmap string (option string)) : Prop :=
  map_Forall (λ _ value, ∀ v, value = Some v → value_ok v) options.

Lemma option_text_total key v : value_ok v → option_text key v = Ok (option_line key v).
Proof. intros H. unfold option_text. by rewrite H. Qed.

Lemma quote_value_ok v q : uci_quote v = Ok q → value_ok v.
Proof. intros H. unfold value_ok. rewrite H. by rewrite (uci_quote_ok _ _ H). Qed.

Lemma patch_edit_values_ok sections e patch patch' : values_ok patch.(sp_options) →
  patch_edit sections e patch = Ok patch' → values_ok patch'.(sp_options).
Proof.
  intros Hv H. destruct e as [section kind | section | section key value | section key]; cbn [patch_edit] in H.
  - apply bind_ok_inv in H as (t & _ & H). apply then_ok in H as [_ H]. apply ret_ok_inv in H as <-. apply map_Forall_empty.
  - apply then_ok in H as [_ H]. apply ret_ok_inv in H as <-. apply map_Forall_empty.
  - apply bind_ok_inv in H as (t & _ & H). apply then_ok in H as [_ H]. apply bind_ok_inv in H as (q & Hq & H).
    apply ret_ok_inv in H as <-. apply map_Forall_insert_2; [| done]. intros v [= <-]. by eapply quote_value_ok.
  - apply bind_ok_inv in H as (t & _ & H). apply then_ok in H as [_ H]. apply ret_ok_inv in H as <-.
    by apply map_Forall_insert_2.
Qed.

Lemma collect_values_ok sections edits : ∀ patches patches',
  map_Forall (λ _ p, values_ok p.(sp_options)) patches → collect sections patches edits = Ok patches' →
  map_Forall (λ _ p, values_ok p.(sp_options)) patches'.
Proof.
  induction edits as [| e edits IH]; intros patches patches' Hp H; cbn [collect] in H; [by apply ret_ok_inv in H as <- |].
  apply bind_ok_inv in H as (section & Hs & H). apply bind_ok_inv in H as (patch & He & H). apply IH in H; [done |].
  apply map_Forall_insert_2; [| done]. apply uci_name_ok in Hs as ->. eapply patch_edit_values_ok; [| done].
  destruct (patches !! edit_section e) eqn:E; [by apply (Hp _ _ E) | apply map_Forall_empty].
Qed.

(** The keys the scanner has accepted. *)
Definition keys_ok (stmts : list Statement) : Prop :=
  Forall (λ s, is_option s.(st_words) = true → name_ok (nth 1 s.(st_words) "")) stmts.

Lemma enter_key scope ws scope1 : enter scope ws = Ok scope1 → is_option ws = true → name_ok (nth 1 ws "").
Proof.
  destruct scope as [secs cur]. destruct ws as [| command args]; [done |]. cbn [is_option]. unfold enter. intros H Ho.
  destruct (String.eqb_spec command "package") as [-> | _]; [done |]. cbn [andb] in H.
  destruct (String.eqb_spec command "config") as [-> | _]; [done |]. rewrite Ho in H.
  destruct args as [| option [| v [| ? ?]]]; try done; apply bind_ok_inv in H as (t & Hn & _); by eapply name_ok_id.
Qed.

Lemma scope_run_keys wss : ∀ scope es last, scope_run scope wss = Ok (es, last) →
  Forall (λ e, is_option e.1 = true → name_ok (nth 1 e.1 "")) es.
Proof.
  induction wss as [| ws wss IH]; intros scope es last H; cbn [scope_run] in H; [by injection H as <- <- |].
  apply bind_ok_inv in H as (scope1 & He & H). apply bind_ok_inv in H as ([es1 last1] & Hr & H). injection H as <- <-.
  constructor; [by eapply enter_key | by eapply IH].
Qed.

Lemma placed_keys ss es p : Forall (λ e : Entry, is_option e.1 = true → name_ok (nth 1 e.1 "")) es → keys_ok (placed p ss es).
Proof.
  intros H. revert ss p. induction H as [| [ws k] es He _ IH]; intros [| s ss] p; try constructor; [exact He | apply IH].
Qed.

Definition succeeds {A} (r : Res A) : Prop := ∃ a, r = Ok a.

Lemma bind_succeeds {A B} (r : Res A) (k : A → Res B) : succeeds r → (∀ a, succeeds (k a)) → succeeds (r ≫= k).
Proof. intros [a ->] H. apply H. Qed.

Lemma section_pass_total k patch stmts : ∀ seen last, values_ok patch.(sp_options) → keys_ok stmts →
  succeeds (section_pass k patch seen last stmts).
Proof.
  induction stmts as [| s stmts IH]; intros seen last Hv Hk; [by eexists |]. apply Forall_cons in Hk as [Hs Hk].
  cbn [section_pass]. destruct (_ || _); [by apply IH |].
  assert (Hmore : ∀ r seen last, succeeds ('(replacements, seen, last) ← section_pass k patch seen last stmts;
    mret (r :: replacements, seen, last))).
  { intros r seen' last'. apply bind_succeeds; [by apply IH |]. intros [[? ?] ?]. by eexists. }
  destruct (_ || _); [apply Hmore |]. destruct (is_option (st_words s)) eqn:Ei; cbn [negb]; [| by apply IH].
  specialize (Hs eq_refl). unfold name_ok in Hs. rewrite Hs. cbn [mbind result_bind].
  destruct (sp_options patch !! nth 1 (st_words s) "") as [[v |] |] eqn:Eo; [| apply Hmore | by apply IH].
  destruct (bool_decide _); [apply Hmore |]. rewrite option_text_total by (by eapply Hv). cbn [mbind result_bind]. apply Hmore.
Qed.

Section total.
Context (original : string).

Lemma insert_missing_total seen at_ options : ∀ ins,
  (∀ key v, (key, Some v) ∈ options → value_ok v) → succeeds (insert_missing original seen (Some at_) options ins).
Proof.
  induction options as [| [key [v |]] options IH]; intros ins Hv; cbn [insert_missing]; [by eexists | |].
  - destruct (bool_decide _); [apply IH; intros; eapply Hv; right; done |]. cbn [ok_or mbind result_bind].
    rewrite option_text_total by (eapply Hv; left). apply IH. intros; eapply Hv; right; done.
  - apply IH. intros; eapply Hv; right; done.
Qed.

Lemma new_options_total options : (∀ key v, (key, Some v) ∈ options → value_ok v) → succeeds (new_options options).
Proof.
  induction options as [| [key [v |]] options IH]; intros Hv; cbn [new_options]; [by eexists | |].
  - rewrite option_text_total by (eapply Hv; left). cbn [mbind result_bind].
    apply bind_succeeds; [apply IH; intros; eapply Hv; right; done |]. by eexists.
  - apply IH. intros; eapply Hv; right; done.
Qed.

Lemma entries_values options : values_ok options → ∀ key v, (key, Some v) ∈ entries options → value_ok v.
Proof. intros H key v Hin%entries_lookup. by eapply H. Qed.

Lemma add_sections_total pl : ∀ ins, Forall (λ p, values_ok p.2.(sp_options)) pl → succeeds (add_sections original pl ins).
Proof.
  induction pl as [| [k patch] pl IH]; intros ins H; cbn [add_sections]; [by eexists |]. apply Forall_cons in H as [Hp H].
  destruct (sp_add patch); [| by apply IH]. apply bind_succeeds; [| intros; by apply IH].
  by apply new_options_total, entries_values.
Qed.

(** The last statement of a section that stays is found. *)
Lemma patch_sections_total ms pl : ∀ ins,
  Forall fresh_mark ms → keys_ok (mark_statements 0 ms) → Forall (λ p, values_ok p.2.(sp_options)) pl →
  Forall (λ p, goes p.2 = false → existsb (in_section p.1) ms = true) pl →
  succeeds (patch_sections original (mark_statements 0 ms) pl ins).
Proof.
  induction pl as [| [k patch] pl IH]; intros ins Hf Hk Hv Hs; cbn [patch_sections]; [by eexists |].
  apply Forall_cons in Hv as [Hp Hv]. apply Forall_cons in Hs as [Hin Hs]. cbn [fst snd] in *.
  destruct (section_pass_total k patch _ ∅ None Hp Hk) as [[[rs seen] last] E]. rewrite E. cbn [mbind result_bind].
  apply section_pass_marks in E as (_ & _ & ->).
  2: { eapply Forall_impl; [exact Hf |]. by intros m Hm _. }
  apply bind_succeeds.
  - rewrite <- negb_orb. fold (goes patch). destruct (goes patch) eqn:Eg; cbn [negb]; [by eexists |].
    destruct (proj2 (last_end_exists k 0 ms) (Hin eq_refl)) as [e ->].
    apply insert_missing_total. by apply entries_values.
  - intros ins1. apply bind_succeeds; [by apply IH |]. intros [? ?]. by eexists.
Qed.

(** ** The ranges do not overlap *)

Definition too_large {A} (r : Res A) : Prop := r = Err "uci-edit-output-too-large".

(** How a cut of the file may end. *)
Definition cut (position : nat) (output : string) (rs : list Replacement) : Prop :=
  succeeds (splice original position output rs) ∨ too_large (splice original position output rs).

Lemma splice_cons start end_ new rest position output : (position ≤ start)%nat →
  (∀ output, cut end_ output rest) → cut position output ((start, end_, new) :: rest).
Proof.
  intros Hs Hrest. unfold cut in *. cbn [splice].
  replace (start <? position)%nat with false by (symmetry; by apply Nat.ltb_ge). cbn [fail_if mbind result_bind].
  set (o := output +:+ _). specialize (Hrest o). clearbody o. destruct (MAX_UCI_BYTES <? len o)%N; [by right | done].
Qed.

Lemma splice_end position output L text : (position ≤ L)%nat →
  cut position output (if String.eqb text "" then [] else [(L, L, text)]).
Proof.
  intros Hl. assert (Hlast : ∀ p o, cut p o []).
  { intros p o. unfold cut. cbn [splice]. destruct (_ <? _)%N; [by right | left; by eexists]. }
  destruct (String.eqb text ""); [apply Hlast | by apply splice_cons].
Qed.

Lemma splice_total ms : ∀ position output p L text,
  (position ≤ p)%nat → (marks_end p ms ≤ L)%nat →
  cut position output (mark_ranges original p ms ++ if String.eqb text "" then [] else [(L, L, text)])%list.
Proof.
  induction ms as [| m ms IH]; intros position output p L text Hp Hend; cbn [mark_ranges marks_end app] in *;
    [by apply splice_end; lia |].
  assert (Hadd : ∀ position output, (position ≤ mark_end p m)%nat →
    cut position output ((insertion_range <$> added_ranges original p m) ++ mark_ranges original (mark_end p m) ms
      ++ if String.eqb text "" then [] else [(L, L, text)])%list).
  { clear position output Hp. intros position output Hp. unfold added_ranges.
    destruct (mk_added m); cbn [fmap list_fmap app]; [by apply IH |].
    apply splice_cons; [done |]. intros output'. by apply IH. }
  pose proof (mark_start_after p m). pose proof (mark_end_after p m).
  assert (mark_start p m ≤ mark_token_end p m)%nat by (unfold mark_token_end; lia).
  rewrite <- !app_assoc. unfold edit_ranges. destruct (mk_edit m); cbn [app]; [apply Hadd; lia | |];
    (apply splice_cons; [lia |]; intros output'; apply Hadd; lia).
Qed.
End total.

(** ** [render] *)

(** C25: Accepted edits are always carried out: when the edits pass their checks and the file
    is read, [render] returns a file unless this is too large. The ranges never overlap,
    every section is found, and reading any input ends. *)
Theorem render_total original edits :
  ¬ out_of_fuel (statements original)
  ∧ ∀ stmts sections patches,
      (length edits ≤ MAX_EDITS)%nat → payload 0 (concat (edit_fields <$> edits)) = Ok tt →
      statements original = Ok (stmts, sections) → collect sections ∅ edits = Ok patches →
      succeeds (uci_render original edits) ∨ too_large (uci_render original edits).
Proof.
  split; [apply statements_not_fuel |]. intros stmts sections patches Hn Hp Hst Hc.
  unfold uci_render. rewrite (proj2 (Nat.ltb_ge _ _) Hn), Hp, Hst. cbn [fail_if mbind result_bind]. rewrite Hc. cbn [mbind result_bind].
  apply statements_inv in Hst as (Hb & ss & g & es & last & Ho & Hok & Hrun & <- & -> & _).
  pose proof (scope_run_words _ _ _ _ Hrun) as Hes.
  pose proof (collect_ok _ _ _ _ (map_Forall_empty _) Hc) as Hpok.
  pose proof (collect_values_ok _ _ _ _ (map_Forall_empty _) Hc) as Hvok.
  destruct (start_marks_words ss es Hes) as (S1 & S2 & S3).
  assert (Hv : Forall (λ p, values_ok p.2.(sp_options)) (entries patches)).
  { apply Forall_forall. intros [k p] Hin%entries_lookup. by apply (Hvok k p). }
  destruct (patch_sections_total original (start_marks ss es) (entries patches) ∅) as [[rs ins] E1].
  - apply start_marks_all_fresh.
  - rewrite start_marks_statements by done. by eapply placed_keys, scope_run_keys.
  - done.
  - apply Forall_forall. intros [k p] Hin%entries_lookup Hg. cbn [fst snd] in *.
    pose proof (po_known _ _ _ (Hpok k p Hin) Hg) as Hk. unfold known in Hk.
    destruct (last.1 !! k) as [kind |] eqn:Ek; [| done].
    destruct (known_statement _ _ _ _ k Hrun) as (ws & Hw & Hpk); [apply lookup_empty | by rewrite Ek |].
    rewrite <- S3 in Hw. apply (section_marks_in k _ ws (start_marks_all_fresh ss es)) in Hw; [| done].
    rewrite <- existsb_section. pose proof (section_marks_all k (start_marks ss es)) as Ha.
    destruct (section_marks k (start_marks ss es)); [done |]. apply Forall_cons in Ha as [Ha _]. cbn. by rewrite Ha.
  - rewrite start_marks_statements in E1 by done. rewrite E1. cbn [mbind result_bind].
    destruct (add_sections_total original (entries patches) ins Hv) as [ins' E2]. rewrite E2. cbn [mbind result_bind].
    destruct (render_ranges original ss g es (entries patches) rs ins ins') as (R1 & _ & _ & R4); try done; [apply entries_nodup |].
    rewrite R1. by apply splice_total.
Qed.

Definition sample_patches : gmap string SectionPatch :=
  match collect sample_sections ∅ sample_edits with Ok patches => patches | Err _ => ∅ end.

Lemma render_total_witness :
  succeeds (uci_render sample_file sample_edits) ∨ too_large (uci_render sample_file sample_edits).
Proof.
  refine (proj2 (render_total sample_file sample_edits) sample_statements sample_sections sample_patches _ _ sample_read _).
  - refine (proj1 (Nat.leb_le _ _) _). vm_compute. reflexivity.
  - vm_compute. reflexivity.
  - vm_compute. reflexivity.
Defined.
