(* ===== verification/Binary64.v ===== *)
(** * Floating point

    The [f64] of the source as the standard library's specification of IEEE 754: binary64
    numbers with rounding to the nearest even. *)

From Stdlib Require Import SpecFloat.
From S2P Require Import Prelude.

Definition f64 : Type := spec_float.

Definition f64_prec : Z := 53.
Definition f64_emax : Z := 1024.

Definition f64_add (x y : f64) : f64 := SFadd f64_prec f64_emax x y.
Definition f64_sub (x y : f64) : f64 := SFsub f64_prec f64_emax x y.
Definition f64_mul (x y : f64) : f64 := SFmul f64_prec f64_emax x y.
Definition f64_div (x y : f64) : f64 := SFdiv f64_prec f64_emax x y.
(** [x.sqrt()]. *)
Definition f64_sqrt (x : f64) : f64 := SFsqrt f64_prec f64_emax x.
(** [x.abs()]. *)
Definition f64_abs (x : f64) : f64 := SFabs x.

(** Comparisons: false when an operand is NaN. *)
Definition f64_leb (x y : f64) : bool := SFleb x y.
Definition f64_ltb (x y : f64) : bool := SFltb x y.
Definition f64_eqb (x y : f64) : bool := SFeqb x y.
(** [x as f64] of an integer. *)
Definition f64_of_N (n : N) : f64 := binary_normalize f64_prec f64_emax (Z.of_N n) 0 false.
Definition f64_is_finite (x : f64) : bool :=
  match x with S754_zero _ | S754_finite _ _ _ => true | _ => false end.
Definition f64_is_nan (x : f64) : bool := match x with S754_nan => true | _ => false end.

Definition f64_zero : f64 := S754_zero false.
Definition f64_one : f64 := f64_of_N 1.
(** [f64::EPSILON], [2 ^ -52]. *)
Definition f64_epsilon : f64 := S754_finite false 4503599627370496 (-104).
(** The literal [a / b] for a decimal fraction: both are exact, so the quotient is the number
    nearest to the fraction, which is what the literal stands for. *)
Definition f64_lit (a b : N) : f64 := f64_div (f64_of_N a) (f64_of_N b).

(** [x.max(y)] and [x.min(y)]: an operand that is NaN is ignored. Which zero the maximum of
    zeros of both signs is, Rust leaves open; here it is the first. *)
Definition f64_max (x y : f64) : f64 :=
  if f64_is_nan x then y else if f64_is_nan y then x else if f64_ltb x y then y else x.
Definition f64_min (x y : f64) : f64 :=
  if f64_is_nan x then y else if f64_is_nan y then x else if f64_ltb y x then y else x.

(** [x.clamp(low, high)] for [low <= high]: NaN stays NaN. *)
Definition f64_clamp (x low high : f64) : f64 :=
  let x := if f64_ltb x low then low else x in
  if f64_ltb high x then high else x.

(** [x.round()]: to the nearest integer, halves away from zero. *)
Definition f64_round (x : f64) : f64 :=
  match x with
  | S754_finite s m e =>
      if (0 <=? e)%Z then x
      else binary_normalize f64_prec f64_emax
             (cond_Zopp s ((Z.pos m + 2 ^ (- e - 1)) / 2 ^ (- e))) 0 s
  | _ => x
  end.

(** [x.floor()] and [x.ceil()]. *)
Definition f64_floor (x : f64) : f64 :=
  match x with
  | S754_finite s m e =>
      if (0 <=? e)%Z then x
      else binary_normalize f64_prec f64_emax (cond_Zopp s (Z.pos m) / 2 ^ (- e)) 0 s
  | _ => x
  end.
Definition f64_ceil (x : f64) : f64 := SFopp (f64_floor (SFopp x)).

(** [x.total_cmp(y)] is not [Greater]: the order of all data, the negative zero below the
    positive one. There is one NaN here, above everything. *)
Definition f64_total_leb (x y : f64) : bool :=
  match x, y with
  | _, S754_nan => true
  | S754_nan, _ => false
  | S754_zero s, S754_zero s' => s || negb s'
  | _, _ => SFleb x y
  end.

(** [x as u64]: towards zero, saturating; NaN becomes zero. *)
Definition f64_to_u64 (x : f64) : N :=
  match x with
  | S754_zero _ | S754_nan => 0
  | S754_infinity negative => if negative then 0 else u64_max
  | S754_finite negative m e =>
      if negative then 0
      else N.min u64_max
             (if (0 <=? e)%Z then N.pos m * 2 ^ Z.to_N e else N.pos m / 2 ^ Z.to_N (- e))
  end%N.

(** [x.ceil() as u64]: a cast saturates, and takes NaN to zero. *)
Definition f64_ceil_u64 (x : f64) : N :=
  match x with
  | S754_zero _ | S754_nan => 0
  | S754_infinity negative => if negative then 0 else u64_max
  | S754_finite negative m e =>
      if negative then 0
      else N.min u64_max
             (if (0 <=? e)%Z then N.pos m * 2 ^ Z.to_N e
              else (N.pos m + (2 ^ Z.to_N (- e) - 1)) / 2 ^ Z.to_N (- e))
  end%N.

Example f64_rounds : f64_add (f64_of_N 3) (f64_of_N 9007199254740993) = f64_of_N 9007199254740996.
Proof. by vm_compute. Qed.
Example f64_ceil_sample : f64_ceil_u64 (S754_finite false 5 (-1)) = 3%N ∧ f64_ceil_u64 (f64_of_N 42) = 42%N.
Proof. by vm_compute. Qed.
Example f64_literal : f64_lit 98 100 = S754_finite false 8827055269646172 (-53).
Proof. by vm_compute. Qed.
Example f64_round_half : f64_round (f64_lit 25 10) = f64_of_N 3 ∧ f64_to_u64 (f64_lit 399 100) = 3%N.
Proof. by vm_compute. Qed.
Example f64_max_nan : f64_max S754_nan f64_one = f64_one ∧ f64_min f64_zero S754_nan = f64_zero.
Proof. by vm_compute. Qed.
Example f64_floor_ceil : f64_floor (f64_lit 25 10) = f64_of_N 2 ∧ f64_ceil (f64_lit 25 10) = f64_of_N 3
  ∧ f64_floor (SFopp (f64_lit 25 10)) = SFopp (f64_of_N 3).
Proof. by vm_compute. Qed.
