(* ===== verification/FloatRounding.v ===== *)
(** * Rounding

    What the operations of [Binary64] compute, in real numbers: every sum, difference,
    product, quotient and square root of two numbers is a rounding of the exact result, so
    that no number lies strictly between them, and comparisons of numbers are comparisons of
    their values. *)

From Stdlib Require Import Reals Lra SpecFloat.
From S2P Require Import Prelude Binary64.

(** ** Powers of two *)

Definition pow2 (e : Z) : R := powerRZ 2 e.

Lemma pow2_pos e : (0 < pow2 e)%R.
Proof. apply powerRZ_lt; lra. Qed.

Lemma pow2_add a b : pow2 (a + b) = (pow2 a * pow2 b)%R.
Proof. apply powerRZ_add; lra. Qed.

Lemma pow2_IZR n : (0 <= n)%Z → pow2 n = IZR (2 ^ n).
Proof.
  intros Hn. unfold pow2. rewrite <- (Z2Nat.id n) at 1 by done.
  rewrite <- pow_powerRZ, pow_IZR, Z2Nat.id; done.
Qed.

Lemma pow2_mult n e : (0 <= n)%Z → pow2 (n + e) = (IZR (2 ^ n) * pow2 e)%R.
Proof. intros Hn. by rewrite pow2_add, (pow2_IZR n). Qed.

Lemma pow2_le a b : (a <= b)%Z → (pow2 a <= pow2 b)%R.
Proof.
  intros Hab. replace b with ((b - a) + a)%Z by lia. rewrite pow2_mult by lia.
  pose proof (pow2_pos a). assert (1 <= IZR (2 ^ (b - a)))%R as Hone.
  { apply IZR_le. assert (0 < 2 ^ (b - a))%Z by (apply Z.pow_pos_nonneg; lia). lia. }
  nra.
Qed.

Lemma pow2_opp e : pow2 (- e) = (/ pow2 e)%R.
Proof.
  pose proof (pow2_pos e). apply (Rmult_eq_reg_r (pow2 e)); [| lra].
  rewrite <- pow2_add, Z.add_opp_diag_l, Rinv_l by lra. reflexivity.
Qed.

Lemma pow2_0 : pow2 0 = 1%R.
Proof. reflexivity. Qed.

(** Comparing two multiples of one power. *)
Lemma scaled_le a b e : (IZR a * pow2 e <= IZR b * pow2 e)%R ↔ (a <= b)%Z.
Proof.
  pose proof (pow2_pos e). split; intros Hab.
  - apply le_IZR. nra.
  - apply IZR_le in Hab. nra.
Qed.

Lemma scaled_lt a b e : (IZR a * pow2 e < IZR b * pow2 e)%R ↔ (a < b)%Z.
Proof.
  pose proof (pow2_pos e). split; intros Hab.
  - apply lt_IZR. nra.
  - apply IZR_lt in Hab. nra.
Qed.

(** ** The value of a number

    The infinities get the value [2 ^ 1024], above every finite number. *)

Definition f64_R (x : f64) : R :=
  match x with
  | S754_zero _ | S754_nan => 0
  | S754_infinity s => if s then - pow2 1024 else pow2 1024
  | S754_finite s m e => IZR (cond_Zopp s (Z.pos m)) * pow2 e
  end%R.

(** A number: a valid datum that is not NaN. *)
Definition f64_num (x : f64) : Prop := valid_binary f64_prec f64_emax x = true ∧ x ≠ S754_nan.

Definition f64_fin (x : f64) : Prop := f64_num x ∧ f64_is_finite x = true.

Lemma fin_num x : f64_fin x → f64_num x.
Proof. by intros []. Qed.

Lemma digits2_bounds p :
  (2 ^ (Z.pos (digits2_pos p) - 1) <= Z.pos p < 2 ^ Z.pos (digits2_pos p))%Z.
Proof.
  induction p as [p IH | p IH |]; cbn [digits2_pos]; [| | done].
  all: rewrite Pos2Z.inj_succ, Z.pow_succ_r by lia;
    replace (Z.succ (Z.pos (digits2_pos p)) - 1)%Z with (Z.succ (Z.pos (digits2_pos p) - 1)) by lia;
    rewrite Z.pow_succ_r by lia; lia.
Qed.

Lemma digits2_le p n : (0 <= n)%Z → (Z.pos p < 2 ^ n)%Z → (Z.pos (digits2_pos p) <= n)%Z.
Proof.
  intros Hn Hp. pose proof (digits2_bounds p) as [Hlow _].
  assert (Z.pos (digits2_pos p) - 1 < n)%Z; [| lia].
  apply (Z.pow_lt_mono_r_iff 2); lia.
Qed.

Lemma digits2_ge p n : (2 ^ n <= Z.pos p)%Z → (n < Z.pos (digits2_pos p))%Z.
Proof.
  intros Hp. pose proof (digits2_bounds p) as [_ Hhigh].
  destruct (Z.lt_ge_cases n 0); [lia |]. apply (Z.pow_lt_mono_r_iff 2); lia.
Qed.

Lemma fexp_eq e : fexp f64_prec f64_emax e = Z.max (e - 53) (-1074).
Proof. reflexivity. Qed.

Lemma bounded_iff m e :
  bounded f64_prec f64_emax m e = true ↔
  (Z.pos m < 2 ^ 53 ∧ -1074 <= e <= 971 ∧ (2 ^ 52 <= Z.pos m ∨ e = -1074))%Z.
Proof.
  unfold bounded, canonical_mantissa. rewrite andb_true_iff, Z.eqb_eq, Z.leb_le, fexp_eq.
  change (f64_emax - f64_prec)%Z with 971%Z. pose proof (digits2_bounds m) as [Hlow Hhigh].
  split.
  - intros [He Hle]. split; [| split; [lia |]].
    + eapply Z.lt_le_trans; [exact Hhigh |]. apply Z.pow_le_mono_r; lia.
    + destruct (decide (e = -1074)%Z) as [-> |]; [by right | left].
      replace 52%Z with (Z.pos (digits2_pos m) - 1)%Z by lia. done.
  - intros (Hm & He & Hcase). pose proof (digits2_le m 53 ltac:(lia) Hm).
    destruct Hcase as [Hn | ->]; [| lia]. pose proof (digits2_ge m 52 Hn). lia.
Qed.

(** ** Comparisons *)

Lemma magnitude_bounds m e :
  bounded f64_prec f64_emax m e = true → (0 < IZR (Z.pos m) * pow2 e < pow2 1024)%R.
Proof.
  rewrite bounded_iff. intros (Hm & He & _). pose proof (pow2_pos e). split.
  - apply Rmult_lt_0_compat; [by apply IZR_lt | done].
  - apply Rlt_le_trans with (IZR (2 ^ 53) * pow2 e)%R; [by apply scaled_lt |].
    rewrite <- pow2_mult by lia. apply pow2_le. lia.
Qed.

(** Canonical numbers compare by exponent first. *)
Lemma magnitude_lt m e m' e' :
  bounded f64_prec f64_emax m e = true → bounded f64_prec f64_emax m' e' = true →
  (e < e')%Z → (IZR (Z.pos m) * pow2 e < IZR (Z.pos m') * pow2 e')%R.
Proof.
  rewrite !bounded_iff. intros (Hm & He & _) (_ & He' & Hn) Hlt.
  apply Rlt_le_trans with (IZR (2 ^ 53) * pow2 e)%R; [by apply scaled_lt |].
  apply Rle_trans with (IZR (2 ^ 52) * pow2 e')%R; [| apply scaled_le; lia].
  rewrite <- !pow2_mult by lia. apply pow2_le. lia.
Qed.

(** The comparison of two reals that [c] reports. *)
Definition reports (c : comparison) (x y : R) : Prop :=
  match c with Lt => x < y | Eq => x = y | Gt => x > y end%R.

Lemma magnitude_compare m e m' e' :
  bounded f64_prec f64_emax m e = true → bounded f64_prec f64_emax m' e' = true →
  reports (match (e ?= e')%Z with Lt => Lt | Gt => Gt | Eq => Pos.compare_cont Eq m m' end)
    (IZR (Z.pos m) * pow2 e) (IZR (Z.pos m') * pow2 e').
Proof.
  intros Hb Hb'. destruct (Z.compare_spec e e') as [-> | |].
  - change (Pos.compare_cont Eq m m') with (Z.pos m ?= Z.pos m')%Z.
    destruct (Z.compare_spec (Z.pos m) (Z.pos m')) as [-> | |]; simpl; [done | |];
      [| apply Rlt_gt]; by apply scaled_lt.
  - by apply magnitude_lt.
  - apply Rlt_gt. by apply magnitude_lt.
Qed.

Lemma reports_opp c x y : reports c x y → reports (CompOpp c) (- x) (- y).
Proof. destruct c; simpl; lra. Qed.

Lemma finite_neg m e : f64_R (S754_finite true m e) = (- (IZR (Z.pos m) * pow2 e))%R.
Proof. cbn [f64_R cond_Zopp]. rewrite opp_IZR. ring. Qed.

Lemma compare_spec x y :
  f64_num x → f64_num y → ∃ c, SFcompare x y = Some c ∧ reports c (f64_R x) (f64_R y).
Proof.
  intros [Hx Hxn] [Hy Hyn]. pose proof (pow2_pos 1024).
  destruct x as [s | s | | s m e], y as [s' | s' | | s' m' e']; try done; cbn [valid_binary] in *.
  all: try (pose proof (magnitude_bounds m e Hx)); try (pose proof (magnitude_bounds m' e' Hy)).
  all: eexists; split; [reflexivity |]; destruct s; try destruct s'; rewrite ?finite_neg;
    cbn [f64_R cond_Zopp reports]; try lra.
  - pose proof (reports_opp _ _ _ (magnitude_compare m e m' e' Hx Hy)) as Hr.
    by destruct (e ?= e')%Z.
  - by apply magnitude_compare.
Qed.

Lemma leb_R x y : f64_num x → f64_num y → SFleb x y = true ↔ (f64_R x <= f64_R y)%R.
Proof.
  intros Hx Hy. destruct (compare_spec x y Hx Hy) as (c & Hc & Hr). unfold SFleb. rewrite Hc.
  destruct c; simpl in Hr; split; try done; lra.
Qed.

Lemma ltb_R x y : f64_num x → f64_num y → SFltb x y = true ↔ (f64_R x < f64_R y)%R.
Proof.
  intros Hx Hy. destruct (compare_spec x y Hx Hy) as (c & Hc & Hr). unfold SFltb. rewrite Hc.
  destruct c; simpl in Hr; split; try done; lra.
Qed.

Lemma eqb_R x y : f64_num x → f64_num y → SFeqb x y = true ↔ f64_R x = f64_R y.
Proof.
  intros Hx Hy. destruct (compare_spec x y Hx Hy) as (c & Hc & Hr). unfold SFeqb. rewrite Hc.
  destruct c; simpl in Hr; split; try done; lra.
Qed.

Lemma num_bound x : f64_num x → (- pow2 1024 <= f64_R x <= pow2 1024)%R.
Proof.
  intros [Hx Hn]. pose proof (pow2_pos 1024). destruct x as [[] | [] | | [] m e]; try done;
    try (simpl; lra); pose proof (magnitude_bounds m e Hx); rewrite ?finite_neg;
    cbn [f64_R cond_Zopp]; lra.
Qed.

Lemma fin_bound x : f64_fin x → (- pow2 1024 < f64_R x < pow2 1024)%R.
Proof.
  intros [[Hx Hn] Hf]. pose proof (pow2_pos 1024). destruct x as [[] | [] | | [] m e]; try done;
    try (simpl; lra); pose proof (magnitude_bounds m e Hx); rewrite ?finite_neg;
    cbn [f64_R cond_Zopp]; lra.
Qed.

Lemma bound_fin x : f64_num x → (- pow2 1024 < f64_R x < pow2 1024)%R → f64_fin x.
Proof.
  intros Hx Hb. split; [done |]. destruct Hx as [_ Hn].
  destruct x as [| [] | | ]; try done; cbn [f64_R] in Hb; lra.
Qed.

(** ** Rounding *)

(** [v] lies at the place [l] between [m] and [m + 1]. *)
Definition located (m : Z) (l : location) (v : R) : Prop :=
  match l with
  | loc_Exact => v = IZR m
  | loc_Inexact Lt => IZR m < v < IZR m + / 2
  | loc_Inexact Eq => v = IZR m + / 2
  | loc_Inexact Gt => IZR m + / 2 < v < IZR m + 1
  end%R.

Definition located_record (r : shr_record) (v : R) : Prop :=
  (0 <= shr_m r)%Z ∧ located (shr_m r) (loc_of_shr_record r) v.

Lemma located_of_loc m l v :
  (0 <= m)%Z → located m l v → located_record (shr_record_of_loc m l) v.
Proof. intros Hm Hl. destruct l as [| []]; by split. Qed.

Lemma located_floor m l v : located m l v → (IZR m <= v < IZR m + 1)%R.
Proof. destruct l as [| []]; simpl; lra. Qed.

Lemma shr_1_located r v : located_record r v → located_record (shr_1 r) (v / 2).
Proof.
  destruct r as [m rr ss]. intros [Hm Hl]. cbn [shr_m] in *.
  destruct m as [| [p | p |] |]; [| | | | lia]; cbn [shr_1]; (split; [simpl; lia |]).
  all: cbn [shr_m loc_of_shr_record located] in *.
  - destruct rr, ss; simpl in *; lra.
  - assert (IZR (Z.pos p~1) = 2 * IZR (Z.pos p) + 1)%R as Hp
      by (rewrite (Pos2Z.inj_xI p), plus_IZR, mult_IZR; done).
    destruct rr, ss; cbn [orb located] in *; lra.
  - assert (IZR (Z.pos p~0) = 2 * IZR (Z.pos p))%R as Hp by (rewrite (Pos2Z.inj_xO p), mult_IZR; done).
    destruct rr, ss; cbn [orb located] in *; lra.
  - destruct rr, ss; simpl in *; lra.
Qed.

Lemma iter_located p r v :
  located_record r v → located_record (SpecFloat.iter_pos shr_1 p r) (v / pow2 (Z.pos p)).
Proof.
  revert r v. induction p as [p IH | p IH |]; intros r v Hr; cbn [SpecFloat.iter_pos].
  - replace (v / pow2 (Z.pos p~1))%R with (v / 2 / pow2 (Z.pos p) / pow2 (Z.pos p))%R.
    + by apply IH, IH, shr_1_located.
    + rewrite Pos2Z.inj_xI. replace (2 * Z.pos p + 1)%Z with (1 + (Z.pos p + Z.pos p))%Z by lia.
      rewrite !pow2_add. change (pow2 1) with (2 * 1)%R. pose proof (pow2_pos (Z.pos p)). field. lra.
  - replace (v / pow2 (Z.pos p~0))%R with (v / pow2 (Z.pos p) / pow2 (Z.pos p))%R.
    + by apply IH, IH.
    + rewrite Pos2Z.inj_xO. replace (2 * Z.pos p)%Z with (Z.pos p + Z.pos p)%Z by lia.
      rewrite !pow2_add. pose proof (pow2_pos (Z.pos p)). field. lra.
  - replace (v / pow2 1)%R with (v / 2)%R by (change (pow2 1) with (2 * 1)%R; field).
    by apply shr_1_located.
Qed.

(** A shift to a larger exponent keeps the value. *)
Lemma shr_located r e n v :
  located_record r v →
  let '(r', e') := shr r e n in
  e' = Z.max e (e + n) ∧ located_record r' (v * pow2 (e - e')).
Proof.
  intros Hr. destruct n as [| p | p]; cbn [shr].
  1, 3: split; [lia |]; rewrite Z.sub_diag; change (pow2 0) with 1%R; by rewrite Rmult_1_r.
  split; [lia |]. replace (e - (e + Z.pos p))%Z with (- Z.pos p)%Z by lia.
  replace (v * pow2 (- Z.pos p))%R with (v / pow2 (Z.pos p))%R; [by apply iter_located |].
  unfold Rdiv. by rewrite pow2_opp.
Qed.

Lemma shr_fexp_located m e l v :
  (0 <= m)%Z → located m l v →
  let '(r', e') := shr_fexp f64_prec f64_emax m e l in
  e' = Z.max e (fexp f64_prec f64_emax (Zdigits2 m + e)) ∧ located_record r' (v * pow2 (e - e')).
Proof.
  intros Hm Hl. unfold shr_fexp.
  pose proof (shr_located _ e (fexp f64_prec f64_emax (Zdigits2 m + e) - e) v
    (located_of_loc m l v Hm Hl)) as Hs.
  destruct (shr _ _ _) as [r' e']. destruct Hs as [He Hr]. split; [| done]. lia.
Qed.

(** Rounding to the nearest integer never crosses an integer. *)
Lemma round_nearest_integer m l v :
  located m l v →
  (∀ j, (IZR j <= v)%R → (j <= round_nearest_even m l)%Z) ∧
  (∀ j, (v <= IZR j)%R → (round_nearest_even m l <= j)%Z) ∧
  (Rabs (IZR (round_nearest_even m l) - v) <= / 2)%R.
Proof.
  intros Hl. pose proof (located_floor m l v Hl) as Hfloor.
  assert (∀ j, (IZR j <= v)%R → (j <= m)%Z) as Hlow.
  { intros j Hj. assert (j < m + 1)%Z; [| lia]. apply lt_IZR. rewrite plus_IZR. lra. }
  assert (∀ j, (IZR m < v)%R → (v <= IZR j)%R → (m + 1 <= j)%Z) as Hup.
  { intros j Hm Hj. assert (m < j)%Z; [| lia]. apply lt_IZR. lra. }
  assert (∀ j, (v <= IZR j)%R → (m <= j)%Z) as Hup'.
  { intros j Hj. apply le_IZR. lra. }
  assert (∀ j, (IZR j <= v)%R → (j <= m + 1)%Z) as Hlow' by (intros j Hj; specialize (Hlow j Hj); lia).
  destruct l as [| []]; cbn [round_nearest_even located] in *; [| destruct (Z.even m) | |];
    (split; [auto | split]);
    try (intros j Hj; first [apply Hup'; exact Hj | apply Hup; [lra | exact Hj]]);
    apply Rabs_le; rewrite ?plus_IZR; lra.
Qed.

(** The datum of the magnitude [k * 2 ^ e] with at most 53 bits or one more. *)
Definition assemble (s : bool) (k e : Z) : f64 :=
  match k with
  | Z.pos p =>
      if (k =? 2 ^ 53)%Z then
        if (e + 1 <=? 971)%Z then S754_finite s (2 ^ 52) (e + 1) else S754_infinity s
      else if (e <=? 971)%Z then S754_finite s p e else S754_infinity s
  | _ => S754_zero s
  end.

(** The second half of [binary_round_aux]: a rounded mantissa is put in place. *)
Lemma assemble_eq s k e :
  (0 <= k <= 2 ^ 53)%Z → (-1074 <= e)%Z →
  (let '(r, e') := shr_fexp f64_prec f64_emax k e loc_Exact in
   match shr_m r with
   | Z0 => S754_zero s
   | Z.pos m =>
       if (e' <=? f64_emax - f64_prec)%Z then S754_finite s m e' else S754_infinity s
   | Z.neg _ => S754_nan
   end) = assemble s k e.
Proof.
  intros Hk He. unfold shr_fexp. rewrite fexp_eq. destruct k as [| p |]; [| | lia].
  - cbn [Zdigits2]. destruct (Z.max _ _ - e)%Z eqn:Hs; [done | lia | done].
  - cbn [assemble]. destruct (Z.eqb_spec (Z.pos p) (2 ^ 53)) as [Heq | Hne].
    + rewrite Heq. change (Zdigits2 (2 ^ 53)) with 54%Z.
      by replace (Z.max (54 + e - 53) (-1074) - e)%Z with 1%Z by lia.
    + cbn [Zdigits2]. assert (Z.pos (digits2_pos p) <= 53)%Z by (apply digits2_le; lia).
      destruct (Z.max _ _ - e)%Z eqn:Hs; [done | lia | done].
Qed.

(** The exponent of a rounding puts the value in the right binade. *)
Lemma rounding_exponent m e l v :
  (0 <= m)%Z → located m l v → (e <= fexp f64_prec f64_emax (Zdigits2 m + e))%Z →
  let e' := fexp f64_prec f64_emax (Zdigits2 m + e) in
  (-1074 <= e')%Z ∧ (0 <= v * pow2 (e - e') < IZR (2 ^ 53))%R ∧
  ((IZR (2 ^ 52) <= v * pow2 (e - e'))%R ∨ e' = (-1074)%Z).
Proof.
  intros Hm Hl He e'. subst e'. rewrite fexp_eq in *. pose proof (located_floor m l v Hl) as Hv.
  assert (0 <= IZR m)%R by (by apply IZR_le).
  set (e' := Z.max _ _) in *. split; [lia |].
  pose proof (pow2_pos (e - e')). split; [split; [nra |] |].
  - apply Rlt_le_trans with (IZR (m + 1) * pow2 (e - e'))%R; [rewrite plus_IZR; nra |].
    apply Rle_trans with (IZR (2 ^ Zdigits2 m) * pow2 (e - e'))%R.
    + apply scaled_le. destruct m as [| p |]; [done | | lia]. cbn [Zdigits2].
      pose proof (digits2_bounds p). lia.
    + assert (0 <= Zdigits2 m)%Z by (destruct m; simpl; lia).
      rewrite <- pow2_mult, <- (pow2_IZR 53) by lia. apply pow2_le. lia.
  - destruct (Z.max_spec (Zdigits2 m + e - 53) (-1074)) as [[? Hmax] | [? Hmax]];
      fold e' in Hmax; [by right | left].
    destruct m as [| p |]; [cbn [Zdigits2] in *; lia | | lia]. cbn [Zdigits2] in *.
    pose proof (digits2_bounds p) as [Hlow _].
    apply Rle_trans with (IZR (2 ^ (Z.pos (digits2_pos p) - 1)) * pow2 (e - e'))%R.
    + rewrite <- pow2_mult, <- (pow2_IZR 52) by lia. apply pow2_le. lia.
    + apply IZR_le in Hlow. nra.
Qed.

(** [x] is a rounding of [v]: no number lies strictly between them. *)
Record rounds (v : R) (x : f64) : Prop := {
  rounds_num : f64_num x;
  rounds_ge : ∀ y, f64_num y → (f64_R y <= v)%R → (f64_R y <= f64_R x)%R;
  rounds_le : ∀ y, f64_num y → (v <= f64_R y)%R → (f64_R x <= f64_R y)%R;
}.

Lemma opp_R x : f64_R (SFopp x) = (- f64_R x)%R.
Proof.
  destruct x as [s | [] | | [] m e]; cbn [SFopp negb]; rewrite ?finite_neg; cbn [f64_R cond_Zopp]; lra.
Qed.

Lemma opp_num x : f64_num x → f64_num (SFopp x).
Proof. intros [Hx Hn]. by destruct x. Qed.

Lemma opp_involutive x : SFopp (SFopp x) = x.
Proof. destruct x; simpl; by rewrite ?negb_involutive. Qed.

Lemma rounds_opp v x : rounds v x → rounds (- v) (SFopp x).
Proof.
  intros [Hn Hge Hle]. split; [by apply opp_num | |]; intros y Hy Hv; rewrite opp_R.
  - specialize (Hle _ (opp_num y Hy)). rewrite opp_R in Hle. lra.
  - specialize (Hge _ (opp_num y Hy)). rewrite opp_R in Hge. lra.
Qed.

Lemma assemble_opp k e : assemble true k e = SFopp (assemble false k e).
Proof.
  destruct k; cbn [assemble]; [done | | done].
  by destruct (_ =? _)%Z, (_ <=? _)%Z.
Qed.

Section assembled.
Context (k e : Z) (u : R).
Context (Hk : (0 <= k <= 2 ^ 53)%Z) (He : (-1074 <= e)%Z).
Context (Hdown : ∀ j, (IZR j <= u)%R → (j <= k)%Z) (Hup : ∀ j, (u <= IZR j)%R → (k <= j)%Z).
Context (Hu : (0 <= u < IZR (2 ^ 53))%R) (Hbinade : (IZR (2 ^ 52) <= u)%R ∨ e = (-1074)%Z).

Lemma assembled_normal : (2 ^ 52 <= k)%Z ∨ e = (-1074)%Z.
Proof using All. destruct Hbinade as [Hb | Hb]; [left; by apply Hdown | by right]. Qed.

(** The assembled number is a number; it has the wanted value unless it is infinite. *)
Lemma assembled_value :
  f64_num (assemble false k e) ∧
  (f64_R (assemble false k e) = IZR k * pow2 e ∨
   f64_R (assemble false k e) = pow2 1024 ∧ pow2 1024 <= IZR k * pow2 e)%R.
Proof using All.
  pose proof assembled_normal as Hn. destruct k as [| p |] eqn:Hkp; [| | lia]; cbn [assemble].
  { split; [done |]. left. simpl. ring. }
  assert (∀ n, (0 <= n)%Z → (1024 <= n + e)%Z → (2 ^ n <= Z.pos p)%Z →
    (pow2 1024 <= IZR (Z.pos p) * pow2 e)%R) as Hbig.
  { intros n Hn0 Hle Hp. apply Rle_trans with (IZR (2 ^ n) * pow2 e)%R; [| by apply scaled_le].
    rewrite <- pow2_mult by done. by apply pow2_le. }
  destruct (Z.eqb_spec (Z.pos p) (2 ^ 53)) as [Heq | Hne], (Z.leb_spec (e + 1) 971) as [Hle | Hgt].
  - split; [split; [| done]; cbn [valid_binary]; apply bounded_iff; simpl; lia |]. left.
    cbn [f64_R cond_Zopp]. rewrite Heq. change (Z.pos (2 ^ 52)) with (2 ^ 52)%Z.
    rewrite <- !pow2_mult by lia. f_equal. lia.
  - split; [done |]. right. split; [done |]. apply (Hbig 53%Z); lia.
  - rewrite (proj2 (Z.leb_le e 971)) by lia.
    split; [split; [| done]; cbn [valid_binary]; apply bounded_iff; lia | by left].
  - destruct (Z.leb_spec e 971).
    + split; [split; [| done]; cbn [valid_binary]; apply bounded_iff; lia | by left].
    + split; [done |]. right. split; [done |]. apply (Hbig 52%Z); lia.
Qed.

Lemma finite_multiple m ey :
  (e <= ey)%Z → (IZR (Z.pos m) * pow2 ey)%R = (IZR (Z.pos m * 2 ^ (ey - e)) * pow2 e)%R.
Proof using.
  intros Hle. rewrite mult_IZR, <- pow2_IZR by lia. rewrite Rmult_assoc, <- pow2_add.
  by replace (ey - e + e)%Z with ey by lia.
Qed.

Lemma finite_below m ey :
  bounded f64_prec f64_emax m ey = true → (ey < e)%Z →
  (IZR (Z.pos m) * pow2 ey < IZR (2 ^ 52) * pow2 e)%R.
Proof using.
  rewrite bounded_iff. intros (Hm & ? & _) Hlt.
  apply Rlt_le_trans with (IZR (2 ^ 53) * pow2 ey)%R; [by apply scaled_lt |].
  rewrite <- !pow2_mult by lia. apply pow2_le. lia.
Qed.

(** A positive finite number is a multiple of the unit [2 ^ e], or lies below the binade. *)
Lemma finite_cases m ey :
  bounded f64_prec f64_emax m ey = true →
  (∃ j, IZR (Z.pos m) * pow2 ey = IZR j * pow2 e)%R ∨
  (IZR (Z.pos m) * pow2 ey < IZR (2 ^ 52) * pow2 e)%R ∧ e ≠ (-1074)%Z.
Proof using.
  intros Hb. destruct (Z.le_gt_cases e ey) as [Hle | Hgt].
  - left. eexists. by apply finite_multiple.
  - right. split; [by apply finite_below |]. apply bounded_iff in Hb. lia.
Qed.

Lemma assembled_ge y :
  f64_num y → (0 < f64_R y)%R → (f64_R y <= u * pow2 e)%R → (f64_R y <= IZR k * pow2 e)%R.
Proof using All.
  intros [Hy Hyn] Hpos Hyv. pose proof assembled_normal as Hnormal. pose proof (pow2_pos e).
  pose proof (pow2_pos 1024).
  destruct y as [s | [] | | [] m ey]; try done; rewrite ?finite_neg in *;
    cbn [f64_R cond_Zopp valid_binary] in *; try lra.
  - assert (971 < e)%Z as Hlarge.
    { destruct (Z.le_gt_cases e 971) as [Hle |]; [| done].
      assert (pow2 1024 < IZR (2 ^ 53) * pow2 971)%R; [| rewrite <- pow2_mult in * by lia; simpl in *; lra].
      apply pow2_le in Hle. nra. }
    apply Rle_trans with (IZR (2 ^ 52) * pow2 e)%R; [| apply scaled_le; lia].
    rewrite <- pow2_mult by lia. apply pow2_le. lia.
  - pose proof (magnitude_bounds m ey Hy). lra.
  - destruct (finite_cases m ey Hy) as [(j & Hj) | [Hlt Hne]].
    + rewrite Hj in *. apply scaled_le, Hdown. nra.
    + apply Rlt_le, Rlt_le_trans with (IZR (2 ^ 52) * pow2 e)%R; [done |]. apply scaled_le. lia.
Qed.

Lemma assembled_le y :
  f64_fin y → (u * pow2 e <= f64_R y)%R → (IZR k * pow2 e <= f64_R y)%R.
Proof using All.
  intros [[Hy Hyn] Hf] Hyv. pose proof (pow2_pos e).
  destruct y as [s | s | | [] m ey]; try done; rewrite ?finite_neg in *;
    cbn [f64_R cond_Zopp valid_binary] in *.
  - assert (k <= 0)%Z as Hk0 by (apply Hup; nra). apply IZR_le in Hk0. nra.
  - pose proof (magnitude_bounds m ey Hy). nra.
  - destruct (finite_cases m ey Hy) as [(j & Hj) | [Hlt Hne]].
    + rewrite Hj in *. apply scaled_le, Hup. nra.
    + destruct Hbinade as [Hb | Hb]; [nra | done].
Qed.

Lemma assembled_rounds : rounds (u * pow2 e) (assemble false k e).
Proof using All.
  destruct assembled_value as [Hn Hv]. pose proof (pow2_pos e). pose proof (pow2_pos 1024).
  assert (0 <= IZR k)%R by (apply IZR_le; lia).
  split; [done | |]; intros y Hy Hyv; pose proof (num_bound y Hy) as Hyb;
    pose proof (num_bound _ Hn) as Hxb.
  - destruct (Rle_or_lt (f64_R y) 0); [destruct Hv as [-> | [-> ?]]; nra |].
    pose proof (assembled_ge y Hy ltac:(done) Hyv). destruct Hv as [-> | [-> ?]]; lra.
  - destruct (Rle_or_lt (pow2 1024) (f64_R y)) as [| Hlt]; [lra |].
    assert (0 <= f64_R y)%R by nra.
    pose proof (assembled_le y (bound_fin y Hy ltac:(lra)) Hyv).
    destruct Hv as [-> | [-> ?]]; lra.
Qed.
End assembled.

(** [binary_round_aux] rounds the value of its arguments. *)
Lemma round_aux_rounds (s : bool) m e l v :
  (0 <= m)%Z → located m l v → (e <= fexp f64_prec f64_emax (Zdigits2 m + e))%Z →
  rounds ((if s then - v else v) * pow2 e)%R (binary_round_aux f64_prec f64_emax s m e l).
Proof.
  intros Hm Hl He. pose proof (rounding_exponent m e l v Hm Hl He) as Hexp. cbv zeta in Hexp.
  pose proof (shr_fexp_located m e l v Hm Hl) as Hshr. unfold binary_round_aux.
  destruct (shr_fexp _ _ m e l) as [r e'] eqn:Hr. destruct Hshr as [He' [Hrm Hloc]].
  rewrite Z.max_r in He' by done. rewrite <- He' in Hexp. destruct Hexp as (Hmin & Hu & Hb).
  destruct (round_nearest_integer _ _ _ Hloc) as (Hdown & Hup & _).
  set (k := round_nearest_even (shr_m r) (loc_of_shr_record r)) in *.
  assert (0 <= k <= 2 ^ 53)%Z as Hk by (split; [apply Hdown | apply Hup]; lra).
  pose proof (assemble_eq s k e' Hk Hmin) as Heq. destruct (shr_fexp _ _ k e' loc_Exact) as [r2 e2].
  rewrite Heq. pose proof (assembled_rounds k e' _ Hk Hmin Hdown Hup Hu Hb) as Hrounds.
  rewrite Rmult_assoc, <- pow2_add, Z.sub_add in Hrounds. destruct s; [| done].
  rewrite assemble_opp. replace (- v * pow2 e)%R with (- (v * pow2 e))%R by ring.
  by apply rounds_opp.
Qed.

(** ** The operations *)

Lemma rounds_self x : f64_num x → rounds (f64_R x) x.
Proof. by intros Hx; split. Qed.

Lemma rounds_zero s : rounds 0 (S754_zero s).
Proof. by apply (rounds_self (S754_zero s)). Qed.

Lemma digits2_shift p d : Z.pos (digits2_pos (Pos.iter xO p d)) = (Z.pos (digits2_pos p) + Z.pos d)%Z.
Proof.
  induction d as [| d IH] using Pos.peano_ind; [cbn [Pos.iter digits2_pos]; lia |].
  rewrite Pos.iter_succ. cbn [digits2_pos]. lia.
Qed.

Lemma shift_value p d : Z.pos (Pos.iter xO p d) = (Z.pos p * 2 ^ Z.pos d)%Z.
Proof.
  induction d as [| d IH] using Pos.peano_ind; [cbn [Pos.iter]; lia |].
  rewrite Pos.iter_succ, Pos2Z.inj_xO, IH, Pos2Z.inj_succ, Z.pow_succ_r by lia. lia.
Qed.

(** Aligning to a smaller exponent keeps the value. *)
Lemma shl_align_value m e e' :
  let '(m', e1) := shl_align m e e' in
  e1 = Z.min e e' ∧ (IZR (Z.pos m') * pow2 e1 = IZR (Z.pos m) * pow2 e)%R ∧
  (Z.pos (digits2_pos m') + e1 = Z.pos (digits2_pos m) + e)%Z.
Proof.
  unfold shl_align. destruct (e' - e)%Z as [| d | d] eqn:Hd;
    [split; [lia | done] | split; [lia | done] |].
  split; [lia |]. rewrite digits2_shift, shift_value, mult_IZR. split; [| lia].
  rewrite Rmult_assoc, <- pow2_mult by lia. by replace (Z.pos d + e')%Z with e by lia.
Qed.

Lemma normalize_rounds m e s :
  rounds (IZR m * pow2 e) (binary_normalize f64_prec f64_emax m e s).
Proof.
  assert (∀ (neg : bool) p,
    rounds ((if neg then - IZR (Z.pos p) else IZR (Z.pos p)) * pow2 e)%R
      (binary_round f64_prec f64_emax neg p e)) as Hround.
  { intros neg p. unfold binary_round.
    pose proof (shl_align_value p e (fexp f64_prec f64_emax (Z.pos (digits2_pos p) + e))) as Hs.
    destruct (shl_align _ _ _) as [m' e']. destruct Hs as (He' & Hv & Hd).
    replace ((if neg then - _ else _) * pow2 e)%R
      with ((if neg then - IZR (Z.pos m') else IZR (Z.pos m')) * pow2 e')%R by (destruct neg; lra).
    apply round_aux_rounds; [done | done |]. cbn [Zdigits2]. rewrite Hd. lia. }
  destruct m as [| p | p]; cbn [binary_normalize].
  - rewrite Rmult_0_l. apply rounds_zero.
  - apply (Hround false).
  - rewrite <- Pos2Z.opp_pos, opp_IZR. apply (Hround true).
Qed.

Lemma cond_Zopp_IZR s m : IZR (cond_Zopp s m) = (if s then - IZR m else IZR m)%R.
Proof. destruct s; [apply opp_IZR | done]. Qed.

Lemma add_rounds x y :
  f64_fin x → f64_fin y → rounds (f64_R x + f64_R y) (SFadd f64_prec f64_emax x y).
Proof.
  intros [Hx Hfx] [Hy Hfy].
  destruct x as [s | | | s m e], y as [s' | | | s' m' e']; try done; cbn [SFadd].
  - replace (_ + _)%R with 0%R by (simpl; lra). destruct s, s'; apply rounds_zero.
  - cbn [f64_R]. rewrite Rplus_0_l. by apply (rounds_self (S754_finite s' m' e')).
  - cbn [f64_R]. rewrite Rplus_0_r. by apply (rounds_self (S754_finite s m e)).
  - pose proof (shl_align_value m e (Z.min e e')) as Ha. pose proof (shl_align_value m' e' (Z.min e e')) as Ha'.
    destruct (shl_align m _ _) as [a ea], (shl_align m' _ _) as [a' ea']. cbn [fst].
    destruct Ha as (Hea & Hva & _), Ha' as (Hea' & Hva' & _).
    assert (ea = Z.min e e' ∧ ea' = Z.min e e') as [-> ->] by lia.
    replace (f64_R _ + f64_R _)%R
      with (IZR (cond_Zopp s (Z.pos a) + cond_Zopp s' (Z.pos a')) * pow2 (Z.min e e'))%R;
      [apply normalize_rounds |].
    cbn [f64_R]. rewrite plus_IZR, !cond_Zopp_IZR. destruct s, s'; lra.
Qed.

Lemma sub_add x y : f64_is_finite x = true → f64_is_finite y = true →
  SFsub f64_prec f64_emax x y = SFadd f64_prec f64_emax x (SFopp y).
Proof.
  intros Hx Hy. destruct x as [s | | | s m e], y as [s' | | | s' m' e']; try done; cbn [SFadd SFsub SFopp].
  - by destruct s, s'.
  - f_equal. by destruct s'.
Qed.

Lemma opp_fin x : f64_fin x → f64_fin (SFopp x).
Proof. intros [Hx Hf]. split; [by apply opp_num | by destruct x]. Qed.

Lemma sub_rounds x y :
  f64_fin x → f64_fin y → rounds (f64_R x - f64_R y) (SFsub f64_prec f64_emax x y).
Proof.
  intros Hx Hy. rewrite sub_add by (apply Hx || apply Hy).
  unfold Rminus. rewrite <- opp_R. by apply add_rounds, opp_fin.
Qed.

Lemma mul_rounds x y :
  f64_fin x → f64_fin y → rounds (f64_R x * f64_R y) (SFmul f64_prec f64_emax x y).
Proof.
  intros [[Hx _] Hfx] [[Hy _] Hfy].
  destruct x as [s | | | s m e], y as [s' | | | s' m' e']; try done; cbn [SFmul].
  1: replace (_ * _)%R with 0%R by (simpl; lra); apply rounds_zero.
  1: cbn [f64_R]; rewrite Rmult_0_l; apply rounds_zero.
  1: cbn [f64_R]; rewrite Rmult_0_r; apply rounds_zero.
  replace (f64_R _ * f64_R _)%R
    with ((if xorb s s' then - IZR (Z.pos (m * m')) else IZR (Z.pos (m * m'))) * pow2 (e + e'))%R.
  - apply round_aux_rounds; [done | done |]. rewrite fexp_eq. cbn [Zdigits2].
    cbn [valid_binary] in *. apply bounded_iff in Hx as (_ & Hx & Hnx), Hy as (_ & Hy & Hny).
    destruct Hnx as [Hnx | ->]; [| destruct Hny as [Hny | ->]; [| lia]].
    all: assert (2 ^ 52 <= Z.pos (m * m'))%Z as Hbig by (rewrite Pos2Z.inj_mul; nia);
      apply digits2_ge in Hbig; lia.
  - rewrite Pos2Z.inj_mul, mult_IZR, pow2_add. cbn [f64_R]. rewrite !cond_Zopp_IZR.
    destruct s, s'; simpl xorb; cbv iota; ring.
Qed.

Lemma new_location_located n d :
  (0 < d)%Z → located (n / d) (new_location d (n mod d)) (IZR n / IZR d).
Proof.
  intros Hd. pose proof (Z.div_mod n d ltac:(lia)) as Hn. pose proof (Z.mod_pos_bound n d Hd) as Hr.
  set (q := (n / d)%Z) in *. set (r := (n mod d)%Z) in *.
  assert (0 < IZR d)%R by (by apply IZR_lt).
  assert (IZR n / IZR d = IZR q + IZR r / IZR d)%R as ->.
  { rewrite Hn, plus_IZR, mult_IZR. field. lra. }
  assert (IZR r = IZR r / IZR d * IZR d)%R as Ht by (field; lra). set (t := (IZR r / IZR d)%R) in *.
  assert (0 <= t < 1)%R as Ht1.
  { destruct Hr as [Hr0 Hrd]. apply IZR_le in Hr0. apply IZR_lt in Hrd. split; nra. }
  unfold new_location, new_location_even, new_location_odd.
  assert (r ≠ 0%Z → 0 < t)%R as Hpos.
  { intros Hne. assert (0 < r)%Z as Hr0 by lia. apply IZR_lt in Hr0. nra. }
  assert ((2 * r < d)%Z → (t < / 2)%R) as Hlt.
  { intros Hlt. apply IZR_lt in Hlt. rewrite mult_IZR in Hlt. nra. }
  assert ((d < 2 * r)%Z → (/ 2 < t)%R) as Hgt.
  { intros Hgt. apply IZR_lt in Hgt. rewrite mult_IZR in Hgt. nra. }
  destruct (Z.even d) eqn:Heven, (Z.eqb_spec r 0) as [Hr0 | Hr0];
    try (cbn [located]; rewrite Hr0 in Ht; nra); specialize (Hpos Hr0).
  - destruct (Z.compare_spec (2 * r) d) as [Heq | |]; cbn [located].
    + apply (f_equal IZR) in Heq. rewrite mult_IZR in Heq. nra.
    + specialize (Hlt ltac:(done)). lra.
    + specialize (Hgt ltac:(done)). lra.
  - assert (2 * r ≠ d)%Z as Hodd.
    { intros Heq. by rewrite <- Heq, Z.even_mul in Heven. }
    destruct (Z.compare_spec (2 * r + 1) d); cbn [located];
      first [specialize (Hlt ltac:(lia)); lra | specialize (Hgt ltac:(lia)); lra].
Qed.

Lemma Zdigits2_ge q n : (0 <= q)%Z → (n < 0 ∨ 2 ^ n <= q)%Z → (n < Zdigits2 q)%Z ∨ (n < 0)%Z.
Proof.
  intros Hq [Hn | Hn]; [by right |]. destruct (Z.lt_ge_cases n 0); [by right | left].
  destruct q as [| p |]; [| by apply digits2_ge | lia].
  assert (0 < 2 ^ n)%Z by (apply Z.pow_pos_nonneg; lia). lia.
Qed.

(** The digits of a quotient. *)
Lemma quotient_digits m m' sh :
  (0 <= sh)%Z →
  (Z.pos (digits2_pos m) + sh <= Zdigits2 (Z.pos m * 2 ^ sh / Z.pos m') + Z.pos (digits2_pos m'))%Z.
Proof.
  intros Hsh. set (d := Z.pos (digits2_pos m)). set (d' := Z.pos (digits2_pos m')).
  pose proof (digits2_bounds m) as [Hm _]. pose proof (digits2_bounds m') as [_ Hm'].
  fold d in Hm. fold d' in Hm'. assert (0 < 2 ^ sh)%Z by (apply Z.pow_pos_nonneg; lia).
  assert (0 <= Z.pos m * 2 ^ sh / Z.pos m')%Z as Hq by (apply Z.div_pos; lia).
  assert (0 <= Zdigits2 (Z.pos m * 2 ^ sh / Z.pos m'))%Z by (by destruct (_ / _)%Z).
  destruct (Z.le_gt_cases (d + sh) d') as [| Hgt]; [lia |].
  destruct (Zdigits2_ge _ (d + sh - d' - 1) Hq); [right | lia | lia].
  apply Z.div_le_lower_bound; [done |].
  apply Z.le_trans with (2 ^ d' * 2 ^ (d + sh - d' - 1))%Z.
  - apply Z.mul_le_mono_nonneg_r; [| lia]. apply Z.pow_nonneg. lia.
  - rewrite <- Z.pow_add_r by lia. replace (d' + (d + sh - d' - 1))%Z with ((d - 1) + sh)%Z by lia.
    rewrite Z.pow_add_r by lia. nia.
Qed.

Lemma div_rounds x y :
  f64_fin x → f64_fin y → f64_R y ≠ 0%R → rounds (f64_R x / f64_R y) (SFdiv f64_prec f64_emax x y).
Proof.
  intros [[Hx _] Hfx] [[Hy _] Hfy] Hne.
  destruct x as [s | | | s m e], y as [s' | | | s' m' e']; try done; cbn [SFdiv].
  { cbn [f64_R]. rewrite Rdiv_0_l. apply rounds_zero. }
  unfold SFdiv_core_binary. cbn [Zdigits2].
  set (d := Z.pos (digits2_pos m)). set (d' := Z.pos (digits2_pos m')).
  set (ez := Z.min _ _). set (sh := (e - e' - ez)%Z).
  assert (0 <= sh)%Z as Hsh by lia.
  assert (∀ z, match sh with 0 => Z.pos m | Z.pos _ => Z.shiftl (Z.pos m) sh | Z.neg _ => z end
    = Z.pos m * 2 ^ sh)%Z as Hshift.
  { intros z. rewrite <- Z.shiftl_mul_pow2 by done. by destruct sh. }
  rewrite Hshift. set (n := (Z.pos m * 2 ^ sh)%Z).
  assert (0 < 2 ^ sh)%Z as Hpow by (apply Z.pow_pos_nonneg; lia).
  rewrite (surjective_pairing (Z.div_eucl n (Z.pos m'))).
  change (fst (Z.div_eucl n (Z.pos m'))) with (n / Z.pos m')%Z.
  change (snd (Z.div_eucl n (Z.pos m'))) with (n mod Z.pos m')%Z.
  replace (f64_R _ / f64_R _)%R with
    ((if xorb s s' then - (IZR n / IZR (Z.pos m')) else IZR n / IZR (Z.pos m')) * pow2 ez)%R.
  - apply round_aux_rounds; [apply Z.div_pos; lia | by apply new_location_located |].
    rewrite fexp_eq. pose proof (quotient_digits m m' sh Hsh) as Hq. fold n d d' in Hq.
    assert (ez <= Z.max (d + e - (d' + e') - 53) (-1074))%Z by apply Z.le_min_l.
    assert (sh + ez = e - e')%Z by lia. lia.
  - assert (0 < IZR (Z.pos m'))%R by (by apply IZR_lt).
    assert (IZR n * pow2 ez = IZR (Z.pos m) * (pow2 e / pow2 e'))%R as Hn.
    { unfold n. rewrite mult_IZR, Rmult_assoc, <- pow2_mult by done.
      replace (sh + ez)%Z with (e + - e')%Z by lia. rewrite pow2_add, pow2_opp. done. }
    pose proof (pow2_pos e').
    assert (IZR n / IZR (Z.pos m') * pow2 ez
      = IZR (Z.pos m) * pow2 e / (IZR (Z.pos m') * pow2 e'))%R as Hquot.
    { replace (IZR n / IZR (Z.pos m') * pow2 ez)%R with (IZR n * pow2 ez / IZR (Z.pos m'))%R by (field; lra).
      rewrite Hn. field. lra. }
    cbn [f64_R]. rewrite !cond_Zopp_IZR. destruct s, s'; cbn [xorb];
      rewrite ?Ropp_mult_distr_l_reverse, Hquot; field; lra.
Qed.

Ltac div_lia := Z.to_euclidean_division_equations; lia.

(** The digits of a square root. *)
Lemma root_digits n q r d :
  (0 <= q)%Z → (n = q * q + r)%Z → (0 <= r <= 2 * q)%Z → (2 ^ (d - 1) <= n)%Z → (1 <= d)%Z →
  (Z.div2 (d + 1) <= Zdigits2 q)%Z.
Proof.
  intros Hq Hn Hr Hd H1. assert (q < 2 ^ Zdigits2 q)%Z as Hlt.
  { destruct q as [| p |]; [done | apply digits2_bounds | lia]. }
  assert (0 <= Zdigits2 q)%Z by (by destruct q).
  assert (n < 2 ^ (Zdigits2 q + Zdigits2 q))%Z as Hsq by (rewrite Z.pow_add_r by done; nia).
  assert (d - 1 < Zdigits2 q + Zdigits2 q)%Z by (apply (Z.pow_lt_mono_r_iff 2); lia).
  rewrite Z.div2_div. div_lia.
Qed.

Lemma sqrt_located n q r :
  (0 <= q)%Z → (n = q * q + r)%Z → (0 <= r <= 2 * q)%Z →
  located q (if (r =? 0)%Z then loc_Exact else loc_Inexact (if (r <=? q)%Z then Lt else Gt))
    (R_sqrt.sqrt (IZR n)).
Proof.
  intros Hq Hn Hr. assert (0 <= IZR q)%R by (by apply IZR_le).
  assert (IZR n = IZR q * IZR q + IZR r)%R as Hnr by (by rewrite Hn, plus_IZR, mult_IZR).
  set (v := R_sqrt.sqrt (IZR n)). destruct Hr as [Hr0 Hr1].
  assert (0 <= IZR r)%R as Hr0' by (by apply IZR_le).
  assert (v * v = IZR n)%R as Hv by (apply R_sqrt.sqrt_sqrt; nra).
  assert (0 <= v)%R as Hv0 by apply R_sqrt.sqrt_pos.
  apply IZR_le in Hr1. rewrite mult_IZR in Hr1.
  destruct (Z.eqb_spec r 0) as [-> | Hne]; [cbn [located]; nra |].
  assert (1 <= IZR r)%R by (apply IZR_le; lia).
  destruct (Z.leb_spec r q) as [Hle | Hlt]; cbn [located].
  - apply IZR_le in Hle. split; nra.
  - assert (IZR q + 1 <= IZR r)%R by (rewrite <- plus_IZR; apply IZR_le; lia). split; nra.
Qed.

Lemma sqrt_rounds x :
  f64_fin x → (0 <= f64_R x)%R → rounds (R_sqrt.sqrt (f64_R x)) (SFsqrt f64_prec f64_emax x).
Proof.
  intros [[Hx _] Hfx] Hpos. destruct x as [s | | | [] m e]; try done; cbn [SFsqrt].
  { cbn [f64_R]. rewrite R_sqrt.sqrt_0. apply rounds_zero. }
  { rewrite finite_neg in Hpos. cbn [valid_binary] in Hx. pose proof (magnitude_bounds m e Hx). lra. }
  unfold SFsqrt_core_binary. cbn [Zdigits2]. set (d := Z.pos (digits2_pos m)).
  set (e' := Z.min _ _). set (sh := (e - 2 * e')%Z).
  assert (e' <= Z.div2 e)%Z as He' by apply Z.le_min_r. rewrite Z.div2_div in He'.
  assert (0 <= sh)%Z as Hsh by (clear Hx; div_lia).
  assert (match sh with 0 => Z.pos m | Z.pos _ => Z.shiftl (Z.pos m) sh | Z.neg _ => 0 end
    = Z.pos m * 2 ^ sh)%Z as -> by (rewrite <- Z.shiftl_mul_pow2 by done; by destruct sh).
  set (n := (Z.pos m * 2 ^ sh)%Z). assert (0 < 2 ^ sh)%Z by (apply Z.pow_pos_nonneg; lia).
  pose proof (Z.sqrtrem_spec n ltac:(lia)) as Hspec. destruct (Z.sqrtrem n) as [q r].
  destruct Hspec as [Hn Hr]. assert (0 <= q)%Z by lia.
  replace (R_sqrt.sqrt _) with (R_sqrt.sqrt (IZR n) * pow2 e')%R.
  - apply (round_aux_rounds false); [done | by apply sqrt_located |].
    assert (Z.div2 (d + sh + 1) <= Zdigits2 q)%Z as Hq.
    { eapply root_digits; [done | exact Hn | done | | lia].
      pose proof (digits2_bounds m) as [Hm _]. fold d in Hm.
      replace (d + sh - 1)%Z with ((d - 1) + sh)%Z by lia. rewrite Z.pow_add_r by lia. unfold n. nia. }
    assert (e' <= fexp f64_prec f64_emax (Z.div2 (d + e + 1)))%Z as Hmin by apply Z.le_min_l.
    rewrite fexp_eq in *. rewrite Z.div2_div in *. clear Hx. div_lia.
  - cbn [f64_R cond_Zopp]. symmetry. pose proof (pow2_pos e). pose proof (pow2_pos e').
    assert (0 < IZR (Z.pos m))%R by (by apply IZR_lt). apply R_sqrt.sqrt_lem_1; [nra | |].
    + pose proof (R_sqrt.sqrt_pos (IZR n)). nra.
    + replace (_ * _)%R with ((R_sqrt.sqrt (IZR n) * R_sqrt.sqrt (IZR n)) * (pow2 e' * pow2 e'))%R by ring.
      rewrite R_sqrt.sqrt_sqrt by (apply IZR_le; lia). unfold n.
      rewrite mult_IZR, <- pow2_IZR, <- pow2_add, Rmult_assoc, <- pow2_add by lia.
      do 2 f_equal. lia.
Qed.
