(* ===== verification/FloatOps.v ===== *)
(** * The operations of Rust on floating point numbers

    Every operation of [Binary64] takes valid data to valid data, whatever its operands are;
    on finite operands its result is bounded by every number that bounds the exact result. *)

From Stdlib Require Import Reals Lra SpecFloat.
From S2P Require Import Prelude Binary64 FloatRounding.

Definition f64_valid (x : f64) : Prop := valid_binary f64_prec f64_emax x = true.

Lemma num_valid x : f64_num x → f64_valid x.
Proof. by intros []. Qed.

Lemma fin_valid x : f64_fin x → f64_valid x.
Proof. by intros [[]]. Qed.

Lemma valid_cases x : f64_valid x → x = S754_nan ∨ f64_num x.
Proof. intros Hx. destruct x; [right | right | left | right]; done. Qed.

Lemma is_nan_num x : f64_valid x → f64_is_nan x = false ↔ f64_num x.
Proof. intros Hx. destruct x; split; try done; by intros []. Qed.

Lemma num_is_nan x : f64_num x → f64_is_nan x = false.
Proof. intros [Hx Hn]. by destruct x. Qed.

Lemma rounds_valid v x : rounds v x → f64_valid x.
Proof. intros [Hn _ _]. by apply num_valid. Qed.

Section closure.
Context (x y : f64) (Hx : f64_valid x) (Hy : f64_valid y).

Local Ltac by_rounding lem :=
  eapply rounds_valid, lem; repeat split; try done; destruct x, y; done.

Lemma valid_add : f64_valid (f64_add x y).
Proof using Hx Hy.
  destruct x as [s | s | | s m e], y as [s' | s' | | s' m' e']; try done;
    try (by destruct s, s'); eapply rounds_valid, add_rounds; done.
Qed.

Lemma valid_sub : f64_valid (f64_sub x y).
Proof using Hx Hy.
  destruct x as [s | s | | s m e], y as [s' | s' | | s' m' e']; try done;
    try (by destruct s, s'); eapply rounds_valid, sub_rounds; done.
Qed.

Lemma valid_mul : f64_valid (f64_mul x y).
Proof using Hx Hy.
  destruct x as [s | s | | s m e], y as [s' | s' | | s' m' e']; try done.
  eapply rounds_valid, mul_rounds; done.
Qed.

Lemma valid_div : f64_valid (f64_div x y).
Proof using Hx Hy.
  destruct x as [s | s | | s m e], y as [s' | s' | | s' m' e']; try done.
  eapply rounds_valid, div_rounds; [done | done |].
  cbn [f64_R]. pose proof (pow2_pos e'). rewrite cond_Zopp_IZR.
  assert (0 < IZR (Z.pos m'))%R by (by apply IZR_lt). destruct s'; nra.
Qed.

Lemma valid_max : f64_valid (f64_max x y).
Proof using Hx Hy. unfold f64_max. by repeat case_match. Qed.

Lemma valid_min : f64_valid (f64_min x y).
Proof using Hx Hy. unfold f64_min. by repeat case_match. Qed.
End closure.

Lemma valid_sqrt x : f64_valid x → f64_valid (f64_sqrt x).
Proof.
  intros Hx. destruct x as [s | [] | | [] m e]; try done.
  eapply rounds_valid, sqrt_rounds; [done |]. pose proof (magnitude_bounds m e Hx). cbn [f64_R cond_Zopp]. lra.
Qed.

Lemma valid_clamp x a b : f64_valid x → f64_valid a → f64_valid b → f64_valid (f64_clamp x a b).
Proof. intros. unfold f64_clamp. by repeat case_match. Qed.

Lemma valid_round x : f64_valid x → f64_valid (f64_round x).
Proof.
  intros Hx. destruct x as [s | s | | s m e]; try done. unfold f64_round.
  destruct (0 <=? e)%Z; [done |]. eapply rounds_valid, normalize_rounds.
Qed.

Lemma valid_of_N n : f64_valid (f64_of_N n).
Proof. eapply rounds_valid, normalize_rounds. Qed.

Create HintDb f64.
#[export] Hint Resolve num_valid fin_num fin_valid valid_add valid_sub valid_mul valid_div valid_max
  valid_min valid_sqrt valid_clamp valid_round valid_of_N : f64.

(** ** Exact results *)

(** Every multiple of a small enough power of two with few enough bits is a number. *)
Lemma representable m e :
  (Z.abs m < 2 ^ 53)%Z → (-1074 <= e <= 971)%Z → ∃ x, f64_fin x ∧ f64_R x = (IZR m * pow2 e)%R.
Proof.
  intros Hm He.
  assert (∀ p, (Z.pos p < 2 ^ 53)%Z → ∃ x, f64_fin x ∧ f64_R x = (IZR (Z.pos p) * pow2 e)%R) as Hpos.
  { intros p Hp. pose proof (digits2_le p 53 ltac:(lia) Hp) as Hd.
    set (d := Z.pos (digits2_pos p)) in *. set (sh := Z.min (53 - d) (e + 1074)).
    assert (0 < 2 ^ sh)%Z by (apply Z.pow_pos_nonneg; lia).
    destruct (Z.pos p * 2 ^ sh)%Z as [| q |] eqn:Hq; [lia | | lia].
    pose proof (digits2_bounds p) as [Hlow Hhigh]. fold d in Hlow, Hhigh.
    assert (2 ^ (d - 1) * 2 ^ sh <= Z.pos q < 2 ^ d * 2 ^ sh)%Z as [Hql Hqh] by nia.
    rewrite <- Z.pow_add_r in Hql, Hqh by lia.
    assert (2 ^ (d + sh) <= 2 ^ 53)%Z by (apply Z.pow_le_mono_r; lia).
    exists (S754_finite false q (e - sh)). split; [split; [split; [| done] | done] |].
    - cbn [valid_binary]. apply bounded_iff. split; [lia |]. split; [lia |].
      destruct (Z.min_spec (53 - d) (e + 1074)) as [[? Hs] | [? Hs]]; fold sh in Hs; [left | right; lia].
      by replace 52%Z with (d - 1 + sh)%Z by lia.
    - cbn [f64_R cond_Zopp]. rewrite <- Hq, mult_IZR, Rmult_assoc, <- pow2_mult by lia.
      do 2 f_equal. lia. }
  destruct m as [| p | p].
  - exists (S754_zero false). split; [done |]. simpl. ring.
  - apply Hpos. lia.
  - destruct (Hpos p) as (x & Hx & HR); [lia |]. exists (SFopp x). split; [by apply opp_fin |].
    rewrite opp_R, HR, <- Pos2Z.opp_pos, opp_IZR. ring.
Qed.

Lemma rounds_exact v x y : rounds v x → f64_num y → f64_R y = v → f64_R x = v.
Proof.
  intros [Hx Hge Hle] Hy <-. apply Rle_antisym; [by apply Hle; [| lra] | by apply Hge; [| lra]].
Qed.

Lemma rounds_fin v x : rounds v x → (- IZR (2 ^ 52) <= v <= IZR (2 ^ 52))%R → f64_fin x.
Proof.
  intros [Hx Hge Hle] Hv. destruct (representable (2 ^ 52) 0) as (y & Hy & HR); [lia | lia |].
  rewrite Rmult_1_r in HR. assert (IZR (2 ^ 52) < pow2 1024)%R as Hlt.
  { rewrite pow2_IZR by lia. apply IZR_lt. vm_compute. done. }
  apply bound_fin; [done |]. split.
  - specialize (Hge (SFopp y) (opp_num y (fin_num y Hy))). rewrite opp_R in Hge. lra.
  - specialize (Hle y (fin_num y Hy)). lra.
Qed.

Lemma integer_number j : (Z.abs j <= 2 ^ 53)%Z → ∃ y, f64_num y ∧ f64_R y = IZR j.
Proof.
  intros Hj. destruct (decide (Z.abs j = 2 ^ 53)%Z) as [Heq | Hne].
  - destruct (representable (j / 2 ^ 53 * 2 ^ 52) 1) as (y & Hy & HR); [| lia |].
    { assert (j = 2 ^ 53 ∨ j = - 2 ^ 53)%Z as [-> | ->] by lia; vm_compute; done. }
    exists y. split; [by apply fin_num |]. rewrite HR, (pow2_IZR 1), <- mult_IZR by lia. f_equal.
    assert (j = 2 ^ 53 ∨ j = - 2 ^ 53)%Z as [-> | ->] by lia; vm_compute; done.
  - destruct (representable j 0) as (y & Hy & HR); [lia | lia |].
    exists y. split; [by apply fin_num |]. by rewrite HR, Rmult_1_r.
Qed.

(** An integer of 53 bits that bounds the exact result bounds the rounded one. *)
Lemma rounds_le_int v x j :
  rounds v x → (Z.abs j <= 2 ^ 53)%Z → (v <= IZR j)%R → (f64_R x <= IZR j)%R.
Proof.
  intros Hr Hj Hv. destruct (integer_number j Hj) as (y & Hy & HR). rewrite <- HR in *.
  by apply (rounds_le v x Hr).
Qed.

Lemma rounds_ge_int v x j :
  rounds v x → (Z.abs j <= 2 ^ 53)%Z → (IZR j <= v)%R → (IZR j <= f64_R x)%R.
Proof.
  intros Hr Hj Hv. destruct (integer_number j Hj) as (y & Hy & HR). rewrite <- HR in *.
  by apply (rounds_ge v x Hr).
Qed.

Lemma of_N_rounds n : rounds (IZR (Z.of_N n)) (f64_of_N n).
Proof. rewrite <- (Rmult_1_r (IZR _)). apply (normalize_rounds (Z.of_N n) 0 false). Qed.

Lemma of_N_R n : (n <= 2 ^ 53)%N → f64_R (f64_of_N n) = IZR (Z.of_N n).
Proof.
  intros Hn. destruct (integer_number (Z.of_N n)) as (y & Hy & HR); [lia |].
  by apply (rounds_exact _ _ y (of_N_rounds n)).
Qed.

Lemma of_N_num n : f64_num (f64_of_N n).
Proof. eapply rounds_num, of_N_rounds. Qed.

Lemma of_N_fin n : (n <= 2 ^ 52)%N → f64_fin (f64_of_N n).
Proof.
  intros Hn. eapply rounds_fin; [apply of_N_rounds |].
  split; apply IZR_le || (rewrite <- opp_IZR; apply IZR_le); lia.
Qed.

(** ** Comparisons, maxima and minima *)

Lemma ltb_false_R x y : f64_num x → f64_num y → f64_ltb x y = false ↔ (f64_R y <= f64_R x)%R.
Proof.
  intros Hx Hy. unfold f64_ltb. rewrite <- not_true_iff_false, ltb_R by done. lra.
Qed.

Lemma leb_false_R x y : f64_num x → f64_num y → f64_leb x y = false ↔ (f64_R y < f64_R x)%R.
Proof.
  intros Hx Hy. unfold f64_leb. rewrite <- not_true_iff_false, leb_R by done. lra.
Qed.

Lemma max_num x y : f64_valid x → f64_num y → f64_num (f64_max x y).
Proof.
  intros Hx Hy. unfold f64_max. destruct (valid_cases x Hx) as [-> | Hn]; [done |].
  rewrite !num_is_nan by done. by destruct (f64_ltb x y).
Qed.

Lemma min_num x y : f64_valid x → f64_num y → f64_num (f64_min x y).
Proof.
  intros Hx Hy. unfold f64_min. destruct (valid_cases x Hx) as [-> | Hn]; [done |].
  rewrite !num_is_nan by done. by destruct (f64_ltb y x).
Qed.

Lemma max_R x y : f64_num x → f64_num y → f64_R (f64_max x y) = Rmax (f64_R x) (f64_R y).
Proof.
  intros Hx Hy. unfold f64_max. rewrite !num_is_nan by done. destruct (f64_ltb x y) eqn:Hlt.
  - apply ltb_R in Hlt; [| done..]. by rewrite Rmax_right by lra.
  - apply ltb_false_R in Hlt; [| done..]. by rewrite Rmax_left by lra.
Qed.

Lemma min_R x y : f64_num x → f64_num y → f64_R (f64_min x y) = Rmin (f64_R x) (f64_R y).
Proof.
  intros Hx Hy. unfold f64_min. rewrite !num_is_nan by done. destruct (f64_ltb y x) eqn:Hlt.
  - apply ltb_R in Hlt; [| done..]. by rewrite Rmin_right by lra.
  - apply ltb_false_R in Hlt; [| done..]. by rewrite Rmin_left by lra.
Qed.

(** Bounds that hold whatever the first operand is. *)
Lemma max_ge x y : f64_valid x → f64_num y → (f64_R y <= f64_R (f64_max x y))%R.
Proof.
  intros Hx Hy. destruct (valid_cases x Hx) as [-> | Hn]; [apply Rle_refl |].
  rewrite max_R by done. apply Rmax_r.
Qed.

Lemma min_le x y : f64_valid x → f64_num y → (f64_R (f64_min x y) <= f64_R y)%R.
Proof.
  intros Hx Hy. destruct (valid_cases x Hx) as [-> | Hn]; [apply Rle_refl |].
  rewrite min_R by done. apply Rmin_r.
Qed.

Lemma min_ge x y c :
  f64_num x → f64_num y → (c <= f64_R x → c <= f64_R y → c <= f64_R (f64_min x y))%R.
Proof. intros Hx Hy ? ?. rewrite min_R by done. by apply Rmin_glb. Qed.

Lemma max_le x y c :
  f64_num x → f64_num y → (f64_R x <= c → f64_R y <= c → f64_R (f64_max x y) <= c)%R.
Proof. intros Hx Hy ? ?. rewrite max_R by done. by apply Rmax_lub. Qed.

Lemma clamp_bounds x a b :
  f64_num x → f64_num a → f64_num b → (f64_R a <= f64_R b)%R →
  f64_num (f64_clamp x a b) ∧ (f64_R a <= f64_R (f64_clamp x a b) <= f64_R b)%R.
Proof.
  intros Hx Ha Hb Hab. unfold f64_clamp.
  destruct (f64_ltb x a) eqn:Hxa; [apply ltb_R in Hxa | apply ltb_false_R in Hxa]; try done.
  all: destruct (f64_ltb b _) eqn:Hbx; [apply ltb_R in Hbx | apply ltb_false_R in Hbx]; try done;
    split; try done; lra.
Qed.

Lemma between_fin x a b :
  f64_num x → f64_fin a → f64_fin b → (f64_R a <= f64_R x <= f64_R b)%R → f64_fin x.
Proof.
  intros Hx Ha Hb Hab. pose proof (fin_bound a Ha). pose proof (fin_bound b Hb).
  apply bound_fin; [done |]. lra.
Qed.

(** ** Rounding to integers *)

Lemma half_up_bounds m n :
  (0 < n)%Z → let q := ((Z.pos m + 2 ^ (n - 1)) / 2 ^ n)%Z in
  (0 <= q)%Z ∧ (2 * q * 2 ^ n <= 2 * Z.pos m + 2 ^ n < 2 * q * 2 ^ n + 2 * 2 ^ n)%Z.
Proof.
  intros Hn q. assert (0 < 2 ^ (n - 1))%Z by (apply Z.pow_pos_nonneg; lia).
  assert (2 ^ n = 2 * 2 ^ (n - 1))%Z as Hp by (rewrite <- Z.pow_succ_r by lia; f_equal; lia).
  assert (0 <= q)%Z by (apply Z.div_pos; lia). split; [done |].
  pose proof (Z.div_mod (Z.pos m + 2 ^ (n - 1)) (2 ^ n) ltac:(lia)) as Hd.
  pose proof (Z.mod_pos_bound (Z.pos m + 2 ^ (n - 1)) (2 ^ n) ltac:(lia)). fold q in Hd. nia.
Qed.

(** The rounded number is the integer nearest to the argument, on its side of every integer. *)
Lemma round_integer x :
  f64_fin x → ∃ k, f64_fin (f64_round x) ∧ f64_R (f64_round x) = IZR k ∧
    (Rabs (IZR k - f64_R x) <= / 2)%R.
Proof.
  intros [[Hx Hn] Hf]. destruct x as [s | | | s m e]; try done.
  { exists 0%Z. split; [done |]. split; [done |]. simpl. rewrite Rminus_0_r, Rabs_R0. lra. }
  unfold f64_round. destruct (Z.leb_spec 0 e) as [He | He].
  { exists (cond_Zopp s (Z.pos m) * 2 ^ e)%Z. split; [done |].
    cbn [f64_R]. rewrite pow2_IZR, <- mult_IZR by done. split; [done |].
    rewrite Rminus_diag, Rabs_R0. lra. }
  cbn [valid_binary] in Hx. apply bounded_iff in Hx as (Hm & He' & _).
  pose proof (half_up_bounds m (- e) ltac:(lia)) as [Hq Hb].
  set (q := ((Z.pos m + 2 ^ (- e - 1)) / 2 ^ - e)%Z) in *.
  assert (2 ^ 1 <= 2 ^ (- e))%Z by (apply Z.pow_le_mono_r; lia). assert (q <= 2 ^ 52)%Z by nia.
  assert (rounds (IZR (cond_Zopp s q)) (binary_normalize f64_prec f64_emax (cond_Zopp s q) 0 s)) as Hr
    by (rewrite <- (Rmult_1_r (IZR _)); apply (normalize_rounds _ 0)).
  destruct (integer_number (cond_Zopp s q)) as (y & Hy & HR); [destruct s; simpl; lia |].
  exists (cond_Zopp s q). split; [| split].
  - eapply rounds_fin; [exact Hr |]. rewrite <- opp_IZR.
    split; apply IZR_le; destruct s; cbn [cond_Zopp]; lia.
  - by apply (rounds_exact _ _ y Hr).
  - cbn [f64_R]. rewrite !cond_Zopp_IZR.
    assert (Rabs (IZR q - IZR (Z.pos m) * pow2 e) <= / 2)%R as Habs.
    { pose proof (pow2_pos e).
      assert (IZR (2 ^ - e) * pow2 e = 1)%R as Hinv.
      { rewrite <- pow2_mult by lia. by replace (- e + e)%Z with 0%Z by lia. }
      destruct Hb as [Hlow Hhigh]. apply IZR_le in Hlow. apply IZR_lt in Hhigh.
      rewrite !plus_IZR, !mult_IZR in *.
      apply (Rmult_le_compat_r (pow2 e)) in Hlow; [| lra]. apply (Rmult_lt_compat_r (pow2 e)) in Hhigh; [| lra].
      rewrite !Rmult_plus_distr_r, !Rmult_assoc, Hinv in Hlow.
      rewrite !Rmult_plus_distr_r, !Rmult_assoc, Hinv in Hhigh. apply Rabs_le. split; lra. }
    destruct s; [| done]. replace (- IZR q - - IZR (Z.pos m) * pow2 e)%R
      with (- (IZR q - IZR (Z.pos m) * pow2 e))%R by ring. by rewrite Rabs_Ropp.
Qed.

Lemma Rabs_between a b : (Rabs a <= b → - b <= a <= b)%R.
Proof. unfold Rabs. destruct (Rcase_abs a); lra. Qed.

(** An integer on one side of the argument is on that side of the rounded number. *)
Lemma round_ge_int x j : f64_fin x → (IZR j <= f64_R x)%R → (IZR j <= f64_R (f64_round x))%R.
Proof.
  intros Hx Hj. destruct (round_integer x Hx) as (k & _ & -> & Hk). apply Rabs_between in Hk.
  apply IZR_le. assert (j - 1 < k)%Z; [| lia]. apply lt_IZR. rewrite minus_IZR. lra.
Qed.

Lemma round_le_int x j : f64_fin x → (f64_R x <= IZR j)%R → (f64_R (f64_round x) <= IZR j)%R.
Proof.
  intros Hx Hj. destruct (round_integer x Hx) as (k & _ & -> & Hk). apply Rabs_between in Hk.
  apply IZR_le. assert (k < j + 1)%Z; [| lia]. apply lt_IZR. rewrite plus_IZR. lra.
Qed.

Lemma round_fin x : f64_fin x → f64_fin (f64_round x).
Proof. intros Hx. by destruct (round_integer x Hx) as (k & ? & _). Qed.

Lemma round_near x : f64_fin x → (Rabs (f64_R (f64_round x) - f64_R x) <= / 2)%R.
Proof. intros Hx. by destruct (round_integer x Hx) as (k & _ & -> & ?). Qed.

(** Below a non-negative number the nearest integer is less than a half away. *)
Lemma round_nonneg x :
  f64_fin x → (0 <= f64_R x)%R →
  (f64_R (f64_round x) - / 2 <= f64_R x < f64_R (f64_round x) + / 2)%R.
Proof.
  intros Hx Hpos. pose proof (round_near x Hx) as Hnear. apply Rabs_between in Hnear.
  split; [lra |]. destruct Hx as [[Hx Hn] Hf].
  destruct x as [s | | | [] m e]; try done; [simpl; lra | |].
  { rewrite finite_neg in *. cbn [valid_binary] in Hx. pose proof (magnitude_bounds m e Hx). lra. }
  destruct (Z.leb_spec 0 e) as [He | He].
  { unfold f64_round. rewrite (proj2 (Z.leb_le 0 e)) by done. lra. }
  destruct (Rle_lt_or_eq_dec _ _ (proj1 Hnear)) as [Hlt | Heq]; [lra | exfalso].
  destruct (round_integer (S754_finite false m e)) as (k & _ & Hk & _); [by split |].
  rewrite Hk in *. revert Heq Hk. cbn [valid_binary] in Hx.
  apply bounded_iff in Hx as (Hm & He' & _). unfold f64_round. rewrite (proj2 (Z.leb_gt 0 e)) by done.
  cbn [f64_R cond_Zopp]. pose proof (half_up_bounds m (- e) ltac:(lia)) as [Hq Hb].
  set (q := ((Z.pos m + 2 ^ (- e - 1)) / 2 ^ (- e))%Z) in *. intros Heq Hk.
  assert (2 ^ 1 <= 2 ^ (- e))%Z by (apply Z.pow_le_mono_r; lia). assert (q <= 2 ^ 52)%Z by nia.
  destruct (integer_number q) as (y & Hy & HR); [lia |].
  assert (IZR k = IZR q) as Hkq.
  { rewrite <- Hk. apply (rounds_exact _ _ y); [| done | done].
    rewrite <- (Rmult_1_r (IZR q)). apply (normalize_rounds _ 0). }
  pose proof (pow2_pos e). assert (IZR (2 ^ - e) * pow2 e = 1)%R as Hinv.
  { rewrite <- pow2_mult by lia. by replace (- e + e)%Z with 0%Z by lia. }
  destruct Hb as [_ Hb]. apply IZR_lt in Hb. rewrite !plus_IZR, !mult_IZR in Hb.
  apply (Rmult_lt_compat_r (pow2 e)) in Hb; [| lra].
  rewrite !Rmult_plus_distr_r, !Rmult_assoc, Hinv in Hb. lra.
Qed.

Lemma round_mono x y :
  f64_fin x → f64_fin y → (0 <= f64_R x <= f64_R y → f64_R (f64_round x) <= f64_R (f64_round y))%R.
Proof.
  intros Hx Hy [Hpos Hxy]. pose proof (round_nonneg x Hx Hpos). pose proof (round_nonneg y Hy ltac:(lra)).
  destruct (round_integer x Hx) as (k & _ & Hk & _), (round_integer y Hy) as (j & _ & Hj & _).
  rewrite Hk, Hj in *. apply IZR_le. assert (k < j + 1)%Z; [| lia].
  apply lt_IZR. rewrite plus_IZR. lra.
Qed.

(** Every real number has an integer part. *)
Lemma integer_part v : ∃ s, (IZR s <= v < IZR s + 1)%R.
Proof. exists (up v - 1)%Z. rewrite minus_IZR. pose proof (archimed v). lra. Qed.

(** [x as u64] of a non-negative number is its integer part. *)
Lemma to_u64_floor x :
  f64_fin x → (0 <= f64_R x < IZR (Z.of_N (2 ^ 53)))%R →
  (IZR (Z.of_N (f64_to_u64 x)) <= f64_R x < IZR (Z.of_N (f64_to_u64 x)) + 1)%R.
Proof.
  intros [[Hx Hn] Hf] [Hpos Hlt]. destruct x as [s | | | [] m e]; try done; [simpl; lra | |].
  { rewrite finite_neg in *. cbn [valid_binary] in Hx. pose proof (magnitude_bounds m e Hx). lra. }
  cbn [valid_binary] in Hx. apply bounded_iff in Hx as (Hm & He & _).
  cbn [f64_R cond_Zopp f64_to_u64] in *.
  assert (∀ q, (IZR (Z.of_N q) <= IZR (Z.pos m) * pow2 e)%R → N.min u64_max q = q) as Hmin.
  { intros q Hq. assert (q < 2 ^ 53)%N; [| unfold u64_max; lia].
    assert (Z.of_N q < Z.of_N (2 ^ 53))%Z; [| lia]. apply lt_IZR. lra. }
  destruct (Z.leb_spec 0 e) as [He0 | He0].
  - assert (IZR (Z.of_N (N.pos m * 2 ^ Z.to_N e)) = IZR (Z.pos m) * pow2 e)%R as Heq.
    { rewrite N2Z.inj_mul, N2Z.inj_pow, Z2N.id, mult_IZR, pow2_IZR by done. done. }
    rewrite Hmin, Heq by lra. lra.
  - pose proof (pow2_pos e).
    assert (IZR (2 ^ - e) * pow2 e = 1)%R as Hinv.
    { rewrite <- pow2_mult by lia. by replace (- e + e)%Z with 0%Z by lia. }
    set (q := (N.pos m / 2 ^ Z.to_N (- e))%N).
    assert (Z.of_N q = Z.pos m / 2 ^ - e)%Z as Hq.
    { unfold q. rewrite N2Z.inj_div, N2Z.inj_pow, Z2N.id by lia. done. }
    assert (0 < 2 ^ (- e))%Z by (apply Z.pow_pos_nonneg; lia).
    pose proof (Z.div_mod (Z.pos m) (2 ^ - e) ltac:(lia)) as Hd.
    pose proof (Z.mod_pos_bound (Z.pos m) (2 ^ - e) ltac:(lia)) as Hb. rewrite <- Hq in Hd.
    assert (Z.of_N q * 2 ^ (- e) <= Z.pos m < Z.of_N q * 2 ^ (- e) + 2 ^ (- e))%Z as [Hlow Hhigh] by lia.
    apply IZR_le in Hlow. apply IZR_lt in Hhigh. rewrite plus_IZR in Hhigh. rewrite mult_IZR in *.
    assert (IZR (Z.of_N q) <= IZR (Z.pos m) * pow2 e)%R by nra. rewrite Hmin by done. split; [done |]. nra.
Qed.
