(* ===== verification/StdTime.v ===== *)
(** * Instants and durations

    [std::time]: an [Instant] is its nanoseconds since an arbitrary origin, a [Duration] its
    nanoseconds. [now.duration_since(then)] saturates at zero as subtraction on [N] does. An
    [Instant] has no upper bound here: the panic of adding a [Duration] to one near the end of
    the monotonic clock, centuries after boot, is not modelled. *)

From Stdlib Require Import SpecFloat.
From S2P Require Import Prelude Binary64.

Local Open Scope N_scope.

Definition nanos_per_sec : N := 1000000000.
(** [Duration::MAX]: [u64::MAX] seconds and all nanoseconds. *)
Definition duration_max : N := 2 ^ 64 * nanos_per_sec - 1.
Definition duration_from_secs (s : N) : N := s * nanos_per_sec.
Definition duration_from_millis (ms : N) : N := ms * 1000000.
(** [duration.saturating_mul(n)]. *)
Definition duration_saturating_mul (d n : N) : N := N.min duration_max (d * n).

(** [duration.as_secs_f64()]. *)
Definition duration_as_secs_f64 (d : N) : f64 :=
  f64_add (f64_of_N (d / nanos_per_sec)) (f64_div (f64_of_N (d mod nanos_per_sec)) (f64_of_N nanos_per_sec)).

(** [a / b] rounded to the nearest integer, halves to the even one. *)
Definition nearest_even (a b : N) : N :=
  let q := a / b in
  match (2 * (a mod b)) ?= b with
  | Lt => q
  | Gt => q + 1
  | Eq => if N.even q then q else q + 1
  end.

(** [Duration::try_from_secs_f64(x)]: the nearest nanosecond; [None] for a negative number, NaN
    and seconds that do not fit 64 bits. [Duration::from_secs_f64] panics there. *)
Definition duration_try_from_secs_f64 (x : f64) : option N :=
  match x with
  | S754_zero _ => Some 0
  | S754_finite false m e =>
      let ns := if (0 <=? e)%Z then N.pos m * 2 ^ Z.to_N e * nanos_per_sec
                else nearest_even (N.pos m * nanos_per_sec) (2 ^ Z.to_N (- e)) in
      if ns <=? duration_max then Some ns else None
  | _ => None
  end.

Example duration_half : duration_try_from_secs_f64 (f64_lit 15 10) = Some 1500000000 ∧
  duration_as_secs_f64 1500000000 = f64_lit 15 10.
Proof. by vm_compute. Qed.
