(* ===== verification/AdaptiveCeiling.v ===== *)
(** * The adaptive ceiling

    [adaptive_ceiling.rs]: one direction of the search for the highest rate a link carries
    without bufferbloat. The verified ceiling is probed a step higher when the link is loaded
    and clean; a probe that adds throughput is kept, a probe that bloats is remembered as a
    failed bound and undone. *)

From S2P Require Import Prelude Binary64 StdTime.

Local Open Scope N_scope.

Inductive AdaptiveCeilingPhase := Cruise | Qualify | ProbeRamp | ProbeObserve | Backoff.

#[export] Instance phase_eq_dec : EqDecision AdaptiveCeilingPhase.
Proof. solve_decision. Defined.

Definition phase_as_str (p : AdaptiveCeilingPhase) : string :=
  match p with
  | Cruise => "cruise" | Qualify => "qualify" | ProbeRamp => "probe_ramp"
  | ProbeObserve => "probe_observe" | Backoff => "backoff"
  end.

Inductive AdaptiveCeilingChange :=
| Raised (from_kbps to_kbps : f64)
| Lowered (from_kbps to_kbps : f64).

Record AdaptiveCeilingTransition := {
  tr_from : AdaptiveCeilingPhase;
  tr_to : AdaptiveCeilingPhase;
  tr_reason : string;
}.

Record AdaptiveCeilingUpdate := {
  up_change : option AdaptiveCeilingChange;
  up_transition : option AdaptiveCeilingTransition;
}.

Definition update_default : AdaptiveCeilingUpdate := {| up_change := None; up_transition := None |}.

Record AdaptiveCeilingPolicy := {
  hold_time : N;
  probe_step_percent : f64;
  probe_duration : N;
  cooldown : N;
  failed_bound_ttl : N;
  eligibility_grace : N;
  minimum_throughput_gain_percent : f64;
}.

Record AdaptiveCeilingObservation := {
  ob_eligible : bool;
  ob_bufferbloat : bool;
  ob_shaper_rate_kbps : f64;
  ob_achieved_rate_kbps : f64;
}.

Record AdaptiveCeilingDirection := {
  configured_max_kbps : f64;
  effective_max_kbps : f64;
  absolute_cap_kbps : f64;
  initial_safe_ceiling_kbps : f64;
  safe_ceiling_kbps : f64;
  failed_ceiling_kbps : option f64;
  failed_at : option N;
  probe_target_kbps : option f64;
  probe_baseline_achieved_kbps : option f64;
  probe_peak_achieved_kbps : f64;
  phase : AdaptiveCeilingPhase;
  phase_since : N;
  last_eligible_at : option N;
  last_transition_reason : string;
}.

Definition new_at_with_verified_safe (configured cap verified : f64) (now : N) :
    AdaptiveCeilingDirection :=
  let cap := f64_max cap configured in
  let verified := f64_min (f64_min (f64_max verified f64_one) (f64_max configured f64_one)) cap in
  {| configured_max_kbps := configured; effective_max_kbps := verified; absolute_cap_kbps := cap;
     initial_safe_ceiling_kbps := verified; safe_ceiling_kbps := verified;
     failed_ceiling_kbps := None; failed_at := None; probe_target_kbps := None;
     probe_baseline_achieved_kbps := None; probe_peak_achieved_kbps := f64_zero;
     phase := Cruise; phase_since := now; last_eligible_at := None;
     last_transition_reason := "initialized" |}.

(** ** Assignments to fields *)

Section setters.
Context (d : AdaptiveCeilingDirection).

(** [self.phase], [self.phase_since] and [self.last_transition_reason]. *)
Definition with_phase (p : AdaptiveCeilingPhase) (since : N) (reason : string) :
    AdaptiveCeilingDirection :=
  {| configured_max_kbps := d.(configured_max_kbps); effective_max_kbps := d.(effective_max_kbps);
     absolute_cap_kbps := d.(absolute_cap_kbps);
     initial_safe_ceiling_kbps := d.(initial_safe_ceiling_kbps);
     safe_ceiling_kbps := d.(safe_ceiling_kbps); failed_ceiling_kbps := d.(failed_ceiling_kbps);
     failed_at := d.(failed_at); probe_target_kbps := d.(probe_target_kbps);
     probe_baseline_achieved_kbps := d.(probe_baseline_achieved_kbps);
     probe_peak_achieved_kbps := d.(probe_peak_achieved_kbps);
     phase := p; phase_since := since; last_eligible_at := d.(last_eligible_at);
     last_transition_reason := reason |}.

(** [self.effective_max_kbps], [self.safe_ceiling_kbps] and [self.probe_target_kbps]. *)
Definition with_ceilings (effective safe : f64) (target : option f64) : AdaptiveCeilingDirection :=
  {| configured_max_kbps := d.(configured_max_kbps); effective_max_kbps := effective;
     absolute_cap_kbps := d.(absolute_cap_kbps);
     initial_safe_ceiling_kbps := d.(initial_safe_ceiling_kbps);
     safe_ceiling_kbps := safe; failed_ceiling_kbps := d.(failed_ceiling_kbps);
     failed_at := d.(failed_at); probe_target_kbps := target;
     probe_baseline_achieved_kbps := d.(probe_baseline_achieved_kbps);
     probe_peak_achieved_kbps := d.(probe_peak_achieved_kbps);
     phase := d.(phase); phase_since := d.(phase_since); last_eligible_at := d.(last_eligible_at);
     last_transition_reason := d.(last_transition_reason) |}.

(** [self.failed_ceiling_kbps], [self.failed_at]. *)
Definition with_failed (failed : option f64) (at_ : option N) : AdaptiveCeilingDirection :=
  {| configured_max_kbps := d.(configured_max_kbps); effective_max_kbps := d.(effective_max_kbps);
     absolute_cap_kbps := d.(absolute_cap_kbps);
     initial_safe_ceiling_kbps := d.(initial_safe_ceiling_kbps);
     safe_ceiling_kbps := d.(safe_ceiling_kbps); failed_ceiling_kbps := failed;
     failed_at := at_; probe_target_kbps := d.(probe_target_kbps);
     probe_baseline_achieved_kbps := d.(probe_baseline_achieved_kbps);
     probe_peak_achieved_kbps := d.(probe_peak_achieved_kbps);
     phase := d.(phase); phase_since := d.(phase_since); last_eligible_at := d.(last_eligible_at);
     last_transition_reason := d.(last_transition_reason) |}.

(** [self.probe_baseline_achieved_kbps], [self.probe_peak_achieved_kbps]. *)
Definition with_achieved (baseline : option f64) (peak : f64) : AdaptiveCeilingDirection :=
  {| configured_max_kbps := d.(configured_max_kbps); effective_max_kbps := d.(effective_max_kbps);
     absolute_cap_kbps := d.(absolute_cap_kbps);
     initial_safe_ceiling_kbps := d.(initial_safe_ceiling_kbps);
     safe_ceiling_kbps := d.(safe_ceiling_kbps); failed_ceiling_kbps := d.(failed_ceiling_kbps);
     failed_at := d.(failed_at); probe_target_kbps := d.(probe_target_kbps);
     probe_baseline_achieved_kbps := baseline; probe_peak_achieved_kbps := peak;
     phase := d.(phase); phase_since := d.(phase_since); last_eligible_at := d.(last_eligible_at);
     last_transition_reason := d.(last_transition_reason) |}.

(** [self.last_eligible_at]. *)
Definition with_eligible (at_ : option N) : AdaptiveCeilingDirection :=
  {| configured_max_kbps := d.(configured_max_kbps); effective_max_kbps := d.(effective_max_kbps);
     absolute_cap_kbps := d.(absolute_cap_kbps);
     initial_safe_ceiling_kbps := d.(initial_safe_ceiling_kbps);
     safe_ceiling_kbps := d.(safe_ceiling_kbps); failed_ceiling_kbps := d.(failed_ceiling_kbps);
     failed_at := d.(failed_at); probe_target_kbps := d.(probe_target_kbps);
     probe_baseline_achieved_kbps := d.(probe_baseline_achieved_kbps);
     probe_peak_achieved_kbps := d.(probe_peak_achieved_kbps);
     phase := d.(phase); phase_since := d.(phase_since); last_eligible_at := at_;
     last_transition_reason := d.(last_transition_reason) |}.
End setters.

(** ** Operations *)

(** [update.transition = Some(transition)]. *)
Definition set_transition (u : AdaptiveCeilingUpdate) (t : AdaptiveCeilingTransition) :
    AdaptiveCeilingUpdate := {| up_change := u.(up_change); up_transition := Some t |}.

Definition enter_phase (d : AdaptiveCeilingDirection) (now : N) (p : AdaptiveCeilingPhase)
    (reason : string) : AdaptiveCeilingTransition * AdaptiveCeilingDirection :=
  ({| tr_from := d.(phase); tr_to := p; tr_reason := reason |}, with_phase d p now reason).

Definition rate_change (from to : f64) : option AdaptiveCeilingChange :=
  if f64_ltb (f64_add from f64_epsilon) to then Some (Raised from to)
  else if f64_ltb (f64_add to f64_epsilon) from then Some (Lowered from to)
  else None.

Definition ramp_timeout (p : AdaptiveCeilingPolicy) : N :=
  N.max (N.max p.(hold_time) (duration_saturating_mul p.(probe_duration) 3)) (duration_from_secs 15).

Definition shaper_at_ceiling (d : AdaptiveCeilingDirection) (shaper : f64) : bool :=
  f64_leb (f64_mul d.(effective_max_kbps) (f64_lit 98 100)) shaper.

Definition eligibility_expired (d : AdaptiveCeilingDirection) (now grace : N) : bool :=
  match d.(last_eligible_at) with Some last => grace <? now - last | None => true end.

(** The gap to a failed bound that a probe needs at least. *)
Definition minimum_gap (d : AdaptiveCeilingDirection) : f64 :=
  f64_max (f64_mul d.(safe_ceiling_kbps) (f64_lit 5 1000)) (f64_of_N 1000).

Definition open_target (d : AdaptiveCeilingDirection) (step : f64) : f64 :=
  f64_mul d.(safe_ceiling_kbps) (f64_add f64_one (f64_div step (f64_of_N 100))).

(** [bounded_target.max(safe + 1.0).min(cap).round()], if that is above the safe ceiling. *)
Definition probe_target (d : AdaptiveCeilingDirection) (bounded_target : f64) : option f64 :=
  let target := f64_round (f64_min (f64_max bounded_target
    (f64_add d.(safe_ceiling_kbps) f64_one)) d.(absolute_cap_kbps)) in
  if f64_ltb (f64_add d.(safe_ceiling_kbps) f64_epsilon) target then Some target else None.

Definition next_probe_target (d : AdaptiveCeilingDirection) (step : f64) : option f64 :=
  let safe := d.(safe_ceiling_kbps) in
  if f64_leb d.(absolute_cap_kbps) safe then None
  else
    match d.(failed_ceiling_kbps) with
    | Some failed =>
        if f64_leb failed (f64_add safe (minimum_gap d)) then None
        else if f64_ltb safe failed then
          probe_target d (f64_min (open_target d step)
            (f64_add safe (f64_div (f64_sub failed safe) (f64_of_N 2))))
        else None
    | None => probe_target d (open_target d step)
    end.

Definition record_failed_bound (d : AdaptiveCeilingDirection) (failed : f64) (now : N) :
    AdaptiveCeilingDirection :=
  with_failed d
    (Some (match d.(failed_ceiling_kbps) with Some current => f64_min current failed | None => failed end))
    (Some now).

Definition expire_failed_bound (d : AdaptiveCeilingDirection) (now ttl : N) :
    AdaptiveCeilingUpdate * AdaptiveCeilingDirection :=
  match d.(failed_at) with
  | None => (update_default, d)
  | Some at_ =>
      if now - at_ <? ttl then (update_default, d)
      else
        ({| up_change := None;
            up_transition := Some {| tr_from := d.(phase); tr_to := d.(phase);
                                     tr_reason := "failed bound expired" |} |},
         with_phase (with_failed d None None) d.(phase) d.(phase_since) "failed bound expired")
  end.

(** The end of a probe: everything of it is cleared and the effective maximum is the safe
    ceiling. *)
Definition end_probe (d : AdaptiveCeilingDirection) : AdaptiveCeilingDirection :=
  with_eligible (with_achieved
    (with_ceilings d d.(safe_ceiling_kbps) d.(safe_ceiling_kbps) None) None f64_zero) None.

(** [change: rate_change(previous, self.effective_max_kbps), transition: enter_phase(..)]. *)
Definition changed_to (d : AdaptiveCeilingDirection) (previous : f64) (now : N)
    (p : AdaptiveCeilingPhase) (reason : string) :
    AdaptiveCeilingUpdate * AdaptiveCeilingDirection :=
  let '(t, d') := enter_phase d now p reason in
  ({| up_change := rate_change previous d.(effective_max_kbps); up_transition := Some t |}, d').

Definition abort_probe (d : AdaptiveCeilingDirection) (now : N) (reason : string) :
    AdaptiveCeilingUpdate * AdaptiveCeilingDirection :=
  changed_to (end_probe d) d.(effective_max_kbps) now Backoff reason.

Definition pause (d : AdaptiveCeilingDirection) (now : N) (reason : string) :
    AdaptiveCeilingUpdate * AdaptiveCeilingDirection :=
  changed_to (end_probe d) d.(effective_max_kbps) now Cruise reason.

Definition abort_probe_gap (d : AdaptiveCeilingDirection) (now : N) :
    AdaptiveCeilingUpdate * AdaptiveCeilingDirection :=
  match d.(phase) with
  | Qualify | ProbeRamp | ProbeObserve => abort_probe d now "probe response gap"
  | Cruise | Backoff => (update_default, d)
  end.

Definition reset_to_configured (d : AdaptiveCeilingDirection) (now : N) :
    AdaptiveCeilingUpdate * AdaptiveCeilingDirection :=
  let initial := d.(initial_safe_ceiling_kbps) in
  changed_to (end_probe (with_failed (with_ceilings d initial initial None) None None))
    d.(effective_max_kbps) now Cruise "stall reset".

(** What a confirmed bufferbloat says of the ceilings. *)
Definition bloated_bound (d : AdaptiveCeilingDirection) (now : N) (shaper : f64) :
    AdaptiveCeilingDirection :=
  let failed := f64_max
    (match d.(probe_target_kbps) with Some t => t | None => d.(effective_max_kbps) end)
    d.(initial_safe_ceiling_kbps) in
  if f64_ltb d.(safe_ceiling_kbps) failed then record_failed_bound d failed now
  else if f64_ltb d.(initial_safe_ceiling_kbps) d.(safe_ceiling_kbps)
          && f64_ltb shaper d.(safe_ceiling_kbps) then
    let d' := record_failed_bound d d.(safe_ceiling_kbps) now in
    with_ceilings d' d'.(effective_max_kbps) (f64_max shaper d.(initial_safe_ceiling_kbps))
      d'.(probe_target_kbps)
  else d.

Definition handle_bufferbloat (d : AdaptiveCeilingDirection) (now : N) (shaper : f64) :
    AdaptiveCeilingUpdate * AdaptiveCeilingDirection :=
  match d.(phase) with
  | Backoff => (update_default, d)
  | _ => changed_to (end_probe (bloated_bound d now shaper)) d.(effective_max_kbps) now Backoff
           "confirmed bufferbloat"
  end.

(** *** One observation *)

Section observe.
Context (now : N) (ob : AdaptiveCeilingObservation) (policy : AdaptiveCeilingPolicy).
Implicit Types d : AdaptiveCeilingDirection.

Definition achieved : f64 := f64_max ob.(ob_achieved_rate_kbps) f64_zero.

Definition in_cruise (u : AdaptiveCeilingUpdate) d : AdaptiveCeilingUpdate * AdaptiveCeilingDirection :=
  if ob.(ob_eligible) && shaper_at_ceiling d ob.(ob_shaper_rate_kbps)
     && is_some (next_probe_target d policy.(probe_step_percent)) then
    let '(t, d') := enter_phase (with_achieved d (Some achieved) f64_zero) now Qualify
                      "clean high load qualification started" in
    (set_transition u t, d')
  else (u, d).

(** Qualification ends without a probe. *)
Definition qualification_over (u : AdaptiveCeilingUpdate) d (reason : string) :
    AdaptiveCeilingUpdate * AdaptiveCeilingDirection :=
  let '(t, d') := enter_phase (with_achieved d None f64_zero) now Cruise reason in
  (set_transition u t, d').

Definition in_qualify (u : AdaptiveCeilingUpdate) d : AdaptiveCeilingUpdate * AdaptiveCeilingDirection :=
  let d := if ob.(ob_eligible) then
      with_achieved d (Some (match d.(probe_baseline_achieved_kbps) with
        | Some current => f64_max current achieved | None => achieved end)) d.(probe_peak_achieved_kbps)
    else d in
  if eligibility_expired d now policy.(eligibility_grace) then
    qualification_over u d "qualification grace expired"
  else if (policy.(hold_time) <=? now - d.(phase_since)) && ob.(ob_eligible)
          && shaper_at_ceiling d ob.(ob_shaper_rate_kbps) then
    match next_probe_target d policy.(probe_step_percent) with
    | Some target =>
        let '(t, d') := enter_phase (with_ceilings d target d.(safe_ceiling_kbps) (Some target)) now
                          ProbeRamp "bounded probe opened" in
        ({| up_change := rate_change d.(effective_max_kbps) target; up_transition := Some t |}, d')
    | None => qualification_over u d "no probe space remains"
    end
  else (u, d).

(** The peak of the probe follows the achieved rate of eligible observations. *)
Definition note_peak d : AdaptiveCeilingDirection :=
  if ob.(ob_eligible) then
    with_achieved d d.(probe_baseline_achieved_kbps) (f64_max d.(probe_peak_achieved_kbps) achieved)
  else d.

Definition current_target d : f64 :=
  match d.(probe_target_kbps) with Some t => t | None => d.(safe_ceiling_kbps) end.

Definition in_probe_ramp (u : AdaptiveCeilingUpdate) d :
    AdaptiveCeilingUpdate * AdaptiveCeilingDirection :=
  if eligibility_expired d now policy.(eligibility_grace) then
    abort_probe d now "probe ramp grace expired"
  else
    let d := note_peak d in
    if ob.(ob_eligible) && f64_leb (f64_mul (current_target d) (f64_lit 98 100)) ob.(ob_shaper_rate_kbps)
    then
      let '(t, d') := enter_phase d now ProbeObserve "probe target reached" in
      (set_transition u t, d')
    else if ramp_timeout policy <=? now - d.(phase_since) then abort_probe d now "probe ramp timed out"
    else (u, d).

(** The gain in throughput that a probe must show. *)
Definition required_gain d : f64 :=
  let headroom := f64_max (f64_sub (current_target d) d.(safe_ceiling_kbps)) f64_zero in
  let baseline := match d.(probe_baseline_achieved_kbps) with Some b => b | None => f64_zero end in
  f64_min
    (f64_max (f64_div (f64_mul baseline
       (f64_max policy.(minimum_throughput_gain_percent) f64_zero)) (f64_of_N 100)) (f64_of_N 50))
    (f64_max (f64_mul headroom (f64_lit 5 10)) f64_one).

(** [baseline > 0.0 && peak + EPSILON < baseline + required_gain]. *)
Definition gain_missing d : bool :=
  let baseline := match d.(probe_baseline_achieved_kbps) with Some b => b | None => f64_zero end in
  f64_ltb f64_zero baseline
  && f64_ltb (f64_add d.(probe_peak_achieved_kbps) f64_epsilon) (f64_add baseline (required_gain d)).

Definition in_probe_observe (u : AdaptiveCeilingUpdate) d :
    AdaptiveCeilingUpdate * AdaptiveCeilingDirection :=
  if eligibility_expired d now policy.(eligibility_grace) then
    abort_probe d now "probe observation grace expired"
  else
    let d := note_peak d in
    if ob.(ob_eligible) && (policy.(probe_duration) <=? now - d.(phase_since)) then
      if gain_missing d then abort_probe d now "probe added no measurable throughput"
      else
        let target := current_target d in
        let '(t, d') := enter_phase (with_achieved (with_ceilings d target target None) None f64_zero)
                          now Backoff "probe confirmed safe" in
        (set_transition u t, d')
    else (u, d).

Definition in_backoff (u : AdaptiveCeilingUpdate) d :
    AdaptiveCeilingUpdate * AdaptiveCeilingDirection :=
  if policy.(cooldown) <=? now - d.(phase_since) then
    let '(t, d') := enter_phase d now Cruise "probe cooldown complete" in
    (set_transition u t, d')
  else (u, d).

Definition observe (d : AdaptiveCeilingDirection) : AdaptiveCeilingUpdate * AdaptiveCeilingDirection :=
  let '(u, d) := expire_failed_bound d now policy.(failed_bound_ttl) in
  let d := if ob.(ob_eligible) then with_eligible d (Some now) else d in
  if ob.(ob_bufferbloat) then handle_bufferbloat d now ob.(ob_shaper_rate_kbps)
  else
    match d.(phase) with
    | Cruise => in_cruise u d
    | Qualify => in_qualify u d
    | ProbeRamp => in_probe_ramp u d
    | ProbeObserve => in_probe_observe u d
    | Backoff => in_backoff u d
    end.
End observe.
