(* ===== verification/CeilingContract.v ===== *)
(** * What the adaptive ceiling promises

    Under every sequence of observations, pauses, response gaps and resets, and whatever
    numbers they carry, the ceilings stay between the verified starting point and the cap, a
    probe stays below the bound that failed, the verified ceiling rises only by a confirmed
    probe, and without load the probe is undone. *)

From Stdlib Require Import Reals Lra.
From S2P Require Import Prelude RateLimits Binary64 StdTime FloatRounding FloatOps AdaptiveCeiling.

Local Open Scope N_scope.

(** The largest configured rate. *)
Definition max_rate : Z := Z.of_N MAX_RATE_KBPS.

(** A rate the configuration accepts: [bounded(name, value, 0.0, max_rate)]. *)
Definition rate_ok (x : f64) : Prop := f64_fin x ∧ (0 <= f64_R x <= IZR max_rate)%R.

Definition probing (p : AdaptiveCeilingPhase) : bool :=
  match p with ProbeRamp | ProbeObserve => true | _ => false end.

Record ceiling_ok (d : AdaptiveCeilingDirection) : Prop := {
  ok_cap : rate_ok d.(absolute_cap_kbps);
  ok_initial : rate_ok d.(initial_safe_ceiling_kbps) ∧
    (f64_R d.(initial_safe_ceiling_kbps) <= f64_R d.(absolute_cap_kbps))%R;
  ok_safe : rate_ok d.(safe_ceiling_kbps) ∧
    (f64_R d.(initial_safe_ceiling_kbps) <= f64_R d.(safe_ceiling_kbps))%R ∧
    (f64_R d.(safe_ceiling_kbps)
     <= Rmax (f64_R d.(absolute_cap_kbps)) (f64_R (f64_round d.(absolute_cap_kbps))))%R;
  ok_resting : probing d.(phase) = false →
    d.(effective_max_kbps) = d.(safe_ceiling_kbps) ∧ d.(probe_target_kbps) = None;
  ok_probing : probing d.(phase) = true → ∃ t,
    d.(probe_target_kbps) = Some t ∧ d.(effective_max_kbps) = t ∧ rate_ok t ∧
    (f64_R d.(safe_ceiling_kbps) < f64_R t <= f64_R (f64_round d.(absolute_cap_kbps)))%R ∧
    ∀ f, d.(failed_ceiling_kbps) = Some f → (f64_R t < f64_R f)%R;
  ok_failed : ∀ f, d.(failed_ceiling_kbps) = Some f →
    rate_ok f ∧ (f64_R d.(safe_ceiling_kbps) < f64_R f)%R;
}.

Lemma max_rate_small : (0 <= max_rate <= 2 ^ 27)%Z.
Proof. vm_compute. by split. Qed.

Lemma max_rate_R : (IZR max_rate < IZR (2 ^ 52))%R.
Proof. apply IZR_lt. vm_compute. done. Qed.

Lemma rate_fin x : rate_ok x → f64_fin x.
Proof. by intros []. Qed.

Lemma rate_num x : rate_ok x → f64_num x.
Proof. intros []. by apply fin_num. Qed.

Lemma rate_valid x : rate_ok x → f64_valid x.
Proof. intros []. by apply fin_valid. Qed.

#[export] Hint Resolve rate_fin rate_num rate_valid : f64.

Lemma one_R : f64_R f64_one = 1%R.
Proof. apply (of_N_R 1). lia. Qed.

Lemma zero_rate : rate_ok f64_zero.
Proof. split; [done |]. pose proof max_rate_small. simpl. split; [lra |]. apply IZR_le. lia. Qed.

Lemma one_fin : f64_fin f64_one.
Proof. by apply of_N_fin. Qed.

Lemma epsilon_fin : f64_fin f64_epsilon.
Proof. by repeat split. Qed.

Lemma epsilon_pos : (0 <= f64_R f64_epsilon)%R.
Proof.
  change (f64_R f64_epsilon) with (IZR 4503599627370496 * pow2 (-104))%R.
  pose proof (pow2_pos (-104)). lra.
Qed.

#[export] Hint Resolve one_fin epsilon_fin zero_rate of_N_num : f64.

(** Between two rates is a rate. *)
Lemma between_rate x a b :
  f64_num x → rate_ok a → rate_ok b → (f64_R a <= f64_R x <= f64_R b)%R → rate_ok x.
Proof.
  intros Hx [Ha ?] [Hb ?] Hab. split; [by apply (between_fin x a b) | lra].
Qed.

Lemma round_rate x : rate_ok x → rate_ok (f64_round x).
Proof.
  intros [Hx [H0 H1]]. split; [by apply round_fin |]. split.
  - by apply (round_ge_int x 0).
  - by apply (round_le_int x max_rate).
Qed.

(** ** The target of a probe *)

Section target.
Context (d : AdaptiveCeilingDirection) (Hok : ceiling_ok d).
Context (Hbelow : (f64_R d.(safe_ceiling_kbps) < f64_R d.(absolute_cap_kbps))%R).

Let safe := d.(safe_ceiling_kbps).
Let cap := d.(absolute_cap_kbps).

Lemma safe_rate : rate_ok safe.
Proof using Hok. apply Hok. Qed.

Lemma cap_rate : rate_ok cap.
Proof using Hok. apply Hok. Qed.

Lemma safe_plus_one : rounds (f64_R safe + 1) (f64_add safe f64_one).
Proof using Hok. rewrite <- one_R. apply add_rounds; eauto using safe_rate with f64. Qed.

Lemma safe_le_plus_one : (f64_R safe <= f64_R (f64_add safe f64_one))%R.
Proof using Hok.
  apply (rounds_ge _ _ safe_plus_one); [eauto using safe_rate with f64 |]. lra.
Qed.

(** The clamped target before it is rounded. *)
Definition clamped (bounded_target : f64) : f64 :=
  f64_min (f64_max bounded_target (f64_add safe f64_one)) cap.

Lemma clamped_rate b :
  f64_valid b → rate_ok (clamped b) ∧ (f64_R safe <= f64_R (clamped b) <= f64_R cap)%R.
Proof using Hbelow Hok.
  intros Hb. pose proof (rounds_num _ _ safe_plus_one) as Hn1. pose proof safe_le_plus_one.
  pose proof (max_num b _ Hb Hn1) as Hmax. pose proof (max_ge b _ Hb Hn1).
  pose proof (rate_num _ cap_rate) as Hcap.
  assert (f64_R safe <= f64_R (clamped b) <= f64_R cap)%R as Hbounds.
  { split; [apply min_ge; [done | done | lra |] | by apply min_le; [apply num_valid |]].
    unfold safe, cap. lra. }
  split; [| done]. apply (between_rate _ safe cap); auto using safe_rate, cap_rate.
  apply min_num; [by apply num_valid | done].
Qed.

Lemma probe_target_spec b t :
  f64_valid b → probe_target d b = Some t →
  t = f64_round (clamped b) ∧ rate_ok t ∧ (f64_R safe < f64_R t <= f64_R (f64_round cap))%R.
Proof using Hbelow Hok.
  intros Hb. unfold probe_target. fold safe cap. fold (clamped b).
  destruct (clamped_rate b Hb) as [Hrate Hbounds]. pose proof (round_rate _ Hrate) as Hround.
  destruct (f64_ltb _ _) eqn:Hlt; [| done]. intros [= <-]. split; [done |]. split; [done |].
  assert (rounds (f64_R safe + f64_R f64_epsilon) (f64_add safe f64_epsilon)) as Hr
    by (apply add_rounds; eauto using safe_rate with f64).
  apply ltb_R in Hlt; [| apply Hr | eauto with f64].
  pose proof (rounds_ge _ _ Hr safe ltac:(eauto using safe_rate with f64)) as Hge.
  pose proof epsilon_pos. split; [lra |].
  destruct safe_rate as [_ [? _]]. apply round_mono; [eauto with f64 | eauto using cap_rate with f64 | lra].
Qed.

(** *** Below a failed bound *)

Lemma minimum_gap_ge : (1000 <= f64_R (minimum_gap d))%R ∧ f64_fin (minimum_gap d).
Proof using Hok.
  unfold minimum_gap. fold safe. destruct safe_rate as [Hfin [H0 H1]].
  assert (f64_fin (f64_lit 5 1000)) as Hlit by (by repeat split).
  assert (0 <= f64_R (f64_lit 5 1000) <= 1)%R as Hlit1.
  { rewrite <- one_R. split; [apply (leb_R f64_zero) | apply leb_R]; try done; by apply fin_num. }
  assert (rounds (f64_R safe * f64_R (f64_lit 5 1000)) (f64_mul safe (f64_lit 5 1000))) as Hr
    by (by apply mul_rounds).
  pose proof max_rate_small.
  assert (f64_R (f64_of_N 1000) = 1000%R) as H1000 by (by apply (of_N_R 1000)).
  split; [rewrite <- H1000; apply max_ge; [by eapply rounds_valid | apply of_N_num] |].
  assert (f64_R (f64_mul safe (f64_lit 5 1000)) <= IZR max_rate)%R
    by (apply (rounds_le_int _ _ _ Hr); [lia | nra]).
  assert (0 <= f64_R (f64_mul safe (f64_lit 5 1000)))%R
    by (apply (rounds_ge_int _ _ 0 Hr); [lia | nra]).
  pose proof max_rate_R. assert (1000 < IZR max_rate)%R by (by apply IZR_lt).
  destruct (integer_number max_rate) as (y & Hy & HR); [lia |].
  assert (rate_ok y) as Hyr by (split; [| lra]; apply (between_fin _ f64_zero (f64_of_N (2 ^ 52)));
    [done | apply zero_rate | by apply of_N_fin | rewrite HR, of_N_R by done; simpl; split;
      [lra | apply IZR_le; lia]]).
  apply rate_fin, (between_rate _ f64_zero y); [| apply zero_rate | done |].
  - apply max_num; [by eapply rounds_valid | apply of_N_num].
  - rewrite max_R, H1000 by (apply Hr || apply of_N_num). rewrite HR. simpl.
    pose proof (Rmax_r (f64_R (f64_mul safe (f64_lit 5 1000))) 1000).
    split; [lra |]. apply Rmax_lub; lra.
Qed.

Definition midpoint (f : f64) : f64 := f64_add safe (f64_div (f64_sub f safe) (f64_of_N 2)).

(** The middle between the safe ceiling and a failed bound, up to the rounding. *)
Lemma midpoint_le f s j :
  rate_ok f → (f64_R safe < f64_R f)%R → (IZR s <= f64_R safe < IZR s + 1)%R →
  (f64_R f < IZR j + 1)%R → (0 <= s)%Z → (j <= max_rate)%Z →
  f64_num (midpoint f) ∧ (f64_R (midpoint f) <= IZR (s + 1 + (j + 1 - s + 1) / 2))%R.
Proof using Hok.
  intros [Hf [? ?]] Hlt [Hs Hs1] Hj Hs0 Hjm. destruct safe_rate as [Hsafe [? ?]].
  pose proof max_rate_small.
  assert (s <= j)%Z as Hsj by (assert (s < j + 1)%Z; [apply lt_IZR; rewrite plus_IZR; lra | lia]).
  assert (rounds (f64_R f - f64_R safe) (f64_sub f safe)) as Hsub by (by apply sub_rounds).
  assert (f64_R (f64_sub f safe) <= IZR (j + 1 - s))%R as Hsub1.
  { apply (rounds_le_int _ _ _ Hsub); [lia |]. rewrite minus_IZR, plus_IZR. lra. }
  assert (0 <= f64_R (f64_sub f safe))%R as Hsub0 by (apply (rounds_ge_int _ _ 0 Hsub); [lia | lra]).
  assert (f64_fin (f64_sub f safe)) as Hsubf.
  { apply (rounds_fin _ _ Hsub). pose proof max_rate_R. lra. }
  assert (f64_R (f64_of_N 2) = 2%R) as Htwo by (by apply (of_N_R 2)).
  assert (rounds (f64_R (f64_sub f safe) / 2) (f64_div (f64_sub f safe) (f64_of_N 2))) as Hdiv.
  { rewrite <- Htwo. apply div_rounds; [done | by apply of_N_fin | lra]. }
  set (h := ((j + 1 - s + 1) / 2)%Z).
  assert (j + 1 - s <= 2 * h <= j + 2 - s)%Z as [Hh Hh2] by (unfold h; div_lia).
  assert (f64_R (f64_div (f64_sub f safe) (f64_of_N 2)) <= IZR h)%R as Hdiv1.
  { apply (rounds_le_int _ _ _ Hdiv); [lia |]. apply IZR_le in Hh. rewrite mult_IZR in Hh. lra. }
  assert (f64_fin (f64_div (f64_sub f safe) (f64_of_N 2))) as Hdivf.
  { apply (rounds_fin _ _ Hdiv). pose proof max_rate_R.
    assert (IZR (j + 1 - s) <= IZR (2 ^ 52))%R by (apply IZR_le; lia). lra. }
  assert (rounds (f64_R safe + f64_R (f64_div (f64_sub f safe) (f64_of_N 2))) (midpoint f)) as Hadd
    by (by apply add_rounds).
  split; [apply Hadd |]. apply (rounds_le_int _ _ _ Hadd); [lia |]. rewrite !plus_IZR. lra.
Qed.

(** A failed bound that leaves room for a probe leaves room for the gap. *)
Lemma failed_far f s :
  rate_ok f → (IZR s <= f64_R safe < IZR s + 1)%R → (0 <= s)%Z →
  f64_leb f (f64_add safe (minimum_gap d)) = false → (IZR (s + 1000) < f64_R f)%R.
Proof using Hok.
  intros Hf [Hs Hs1] Hs0 Hleb. destruct minimum_gap_ge as [Hgap Hgapf]. destruct safe_rate as [Hsafe [? ?]].
  assert (rounds (f64_R safe + f64_R (minimum_gap d)) (f64_add safe (minimum_gap d))) as Hadd
    by (by apply add_rounds).
  apply leb_false_R in Hleb; [| by apply rate_num | apply Hadd].
  eapply Rle_lt_trans; [| exact Hleb]. apply (rounds_ge_int _ _ _ Hadd).
  - pose proof max_rate_small. assert (s <= max_rate)%Z by (apply le_IZR; lra). lia.
  - rewrite plus_IZR. lra.
Qed.

(** The rounded target stays below the failed bound. *)
Lemma target_below_failed f b :
  rate_ok f → f64_valid b → (f64_R safe < f64_R f)%R →
  f64_leb f (f64_add safe (minimum_gap d)) = false →
  (f64_R (f64_round (clamped (f64_min b (midpoint f)))) < f64_R f)%R.
Proof using Hok Hbelow.
  intros Hf Hb Hlt Hleb. destruct (integer_part (f64_R safe)) as (s & Hs).
  destruct (integer_part (f64_R f)) as (j & Hj). destruct safe_rate as [Hsafe [Hsafe0 ?]].
  assert (0 <= s)%Z as Hs0 by (assert (-1 < s)%Z; [apply lt_IZR; lra | lia]).
  assert (j <= max_rate)%Z as Hjm by (destruct Hf as [_ [_ ?]]; apply le_IZR; lra).
  pose proof (failed_far f s Hf Hs Hs0 Hleb) as Hfar.
  assert (s + 1000 <= j)%Z as Hsj.
  { assert (s + 1000 < j + 1)%Z; [| lia]. apply lt_IZR. rewrite (plus_IZR j). lra. }
  destruct (midpoint_le f s j Hf Hlt Hs (proj2 Hj) Hs0 Hjm) as [Hmn Hmid].
  set (h := (s + 1 + (j + 1 - s + 1) / 2)%Z) in *. assert (s + 2 <= h < j)%Z as [Hh Hhj] by (unfold h; div_lia).
  pose proof max_rate_small.
  assert (f64_R (clamped (f64_min b (midpoint f))) <= IZR h)%R as Hw.
  { unfold clamped. destruct (valid_cases _ (rounds_valid _ _ safe_plus_one)) as [Hnan | Hn1].
    { destruct safe_plus_one as [[]]. done. }
    assert (f64_num (f64_min b (midpoint f))) by (by apply min_num).
    eapply Rle_trans; [eapply Rle_trans; [| apply (max_le (f64_min b (midpoint f)) (f64_add safe f64_one))] |];
      [rewrite min_R by eauto using max_num, num_valid, rate_num, cap_rate; apply Rmin_l | done | done | | |
       apply Rle_refl].
    - eapply Rle_trans; [by apply min_le | done].
    - apply (rounds_le_int _ _ _ safe_plus_one); [lia |]. apply IZR_le in Hh. rewrite plus_IZR in Hh. lra. }
  destruct (clamped_rate (f64_min b (midpoint f))) as [Hrate _]; [by apply valid_min; [| apply num_valid] |].
  eapply Rle_lt_trans; [apply (round_le_int _ h); [by apply rate_fin | done] |].
  apply Rlt_le_trans with (IZR j); [by apply IZR_lt | lra].
Qed.
End target.

(** What a probe target is, whatever the step: a rate above the safe ceiling, not above the
    rounded cap, and below the bound that failed. *)
Lemma next_probe_target_spec d step t :
  ceiling_ok d → f64_valid step → next_probe_target d step = Some t →
  rate_ok t ∧ (f64_R d.(safe_ceiling_kbps) < f64_R t <= f64_R (f64_round d.(absolute_cap_kbps)))%R ∧
  ∀ f, d.(failed_ceiling_kbps) = Some f → (f64_R t < f64_R f)%R.
Proof.
  intros Hok Hstep. unfold next_probe_target.
  destruct (f64_leb (absolute_cap_kbps d) _) eqn:Hcap; [done |].
  pose proof (rate_valid _ (safe_rate d Hok)) as Hsv.
  assert (f64_valid (open_target d step)) as Hopen by (unfold open_target; eauto 8 with f64).
  apply leb_false_R in Hcap; [| apply rate_num; apply Hok..].
  destruct (failed_ceiling_kbps d) as [f |] eqn:Hf.
  - destruct (ok_failed d Hok f Hf) as [Hfr Hlt]. destruct (f64_leb f _) eqn:Hgap; [done |].
    destruct (f64_ltb _ f); [| done]. fold (midpoint d f). intros Ht.
    assert (f64_valid (f64_min (open_target d step) (midpoint d f))) as Hv.
    { apply valid_min; [done |]. unfold midpoint. eauto 8 with f64. }
    destruct (probe_target_spec d Hok Hcap _ t Hv Ht) as (-> & Hrate & Hbounds).
    split; [done |]. split; [done |]. intros f' [= <-]. by apply target_below_failed.
  - intros Ht. by destruct (probe_target_spec d Hok Hcap _ t Hopen Ht) as (_ & Hrate & Hbounds).
Qed.

(** ** Every operation keeps the invariant *)

(** The part of the invariant that does not depend on the phase. *)
Record core_ok (cap initial safe : f64) (failed : option f64) : Prop := {
  core_cap : rate_ok cap;
  core_initial : rate_ok initial ∧ (f64_R initial <= f64_R cap)%R;
  core_safe : rate_ok safe ∧ (f64_R initial <= f64_R safe <= Rmax (f64_R cap) (f64_R (f64_round cap)))%R;
  core_failed : ∀ f, failed = Some f → rate_ok f ∧ (f64_R safe < f64_R f)%R;
}.

Definition core (d : AdaptiveCeilingDirection) : Prop :=
  core_ok d.(absolute_cap_kbps) d.(initial_safe_ceiling_kbps) d.(safe_ceiling_kbps)
    d.(failed_ceiling_kbps).

Lemma ok_core d : ceiling_ok d → core d.
Proof. intros []. by split. Qed.

Lemma rest_ok d :
  core d → probing d.(phase) = false → d.(effective_max_kbps) = d.(safe_ceiling_kbps) →
  d.(probe_target_kbps) = None → ceiling_ok d.
Proof. intros [] Hp He Ht. split; try done. by rewrite Hp. Qed.

Lemma probe_ok d t :
  core d → probing d.(phase) = true → d.(probe_target_kbps) = Some t → d.(effective_max_kbps) = t →
  rate_ok t → (f64_R d.(safe_ceiling_kbps) < f64_R t <= f64_R (f64_round d.(absolute_cap_kbps)))%R →
  (∀ f, d.(failed_ceiling_kbps) = Some f → (f64_R t < f64_R f)%R) → ceiling_ok d.
Proof. intros [] Hp Ht He Hr Hb Hf. split; try done; [by rewrite Hp | eauto 10]. Qed.

(** Fields that the invariant does not mention. *)
Lemma achieved_ok d b p : ceiling_ok d → ceiling_ok (with_achieved d b p).
Proof. intros []. by split. Qed.

Lemma eligible_ok d at_ : ceiling_ok d → ceiling_ok (with_eligible d at_).
Proof. intros []. by split. Qed.

Lemma same_probing_ok d p since reason :
  ceiling_ok d → probing p = probing d.(phase) → ceiling_ok (with_phase d p since reason).
Proof. intros [] Hp. split; try done; simpl; by rewrite Hp. Qed.

Lemma unfailed_ok d : ceiling_ok d → ceiling_ok (with_failed d None None).
Proof.
  intros Hok. destruct (probing d.(phase)) eqn:Hp.
  - destruct (ok_probing d Hok Hp) as (t & ? & ? & ? & ? & _). destruct (ok_core d Hok).
    apply (probe_ok _ t); done.
  - destruct (ok_resting d Hok Hp), (ok_core d Hok). apply rest_ok; done.
Qed.


Lemma expire_ok d now ttl : ceiling_ok d → ceiling_ok (expire_failed_bound d now ttl).2.
Proof.
  intros Hok. unfold expire_failed_bound. destruct (failed_at d) as [at_ |]; [| done].
  destruct (now - at_ <? ttl); [done |]. apply same_probing_ok; [by apply unfailed_ok | done].
Qed.

Lemma end_probe_ok d previous now p reason :
  core d → probing p = false → ceiling_ok (changed_to (end_probe d) previous now p reason).2.
Proof. intros [] Hp. by apply rest_ok. Qed.

Lemma abort_ok d now reason : ceiling_ok d → ceiling_ok (abort_probe d now reason).2.
Proof. intros Hok. apply end_probe_ok; [by apply ok_core | done]. Qed.

Lemma pause_ok d now reason : ceiling_ok d → ceiling_ok (pause d now reason).2.
Proof. intros Hok. apply end_probe_ok; [by apply ok_core | done]. Qed.

Lemma gap_ok d now : ceiling_ok d → ceiling_ok (abort_probe_gap d now).2.
Proof. intros Hok. unfold abort_probe_gap. destruct (phase d); auto using abort_ok. Qed.

Lemma reset_ok d now : ceiling_ok d → ceiling_ok (reset_to_configured d now).2.
Proof.
  intros Hok. apply end_probe_ok; [| done]. destruct (ok_core d Hok) as [? [? ?] ? ?].
  split; try done. simpl. split; [done |]. pose proof (Rmax_l (f64_R d.(absolute_cap_kbps))
    (f64_R (f64_round d.(absolute_cap_kbps)))). lra.
Qed.

Lemma effective_rate d :
  ceiling_ok d →
  rate_ok d.(effective_max_kbps) ∧
  match d.(probe_target_kbps) with Some t => t | None => d.(effective_max_kbps) end
    = d.(effective_max_kbps).
Proof.
  intros Hok. destruct (probing d.(phase)) eqn:Hp.
  - destruct (ok_probing d Hok Hp) as (t & -> & -> & ? & _). done.
  - destruct (ok_resting d Hok Hp) as [-> ->]. split; [apply Hok | done].
Qed.

Lemma max_rate_ok x y : rate_ok x → rate_ok y → rate_ok (f64_max x y).
Proof. intros ? ?. unfold f64_max. by repeat case_match. Qed.

(** A new failed bound above a ceiling keeps it below all failed bounds. *)
Lemma record_failed_core d f now safe :
  core d → rate_ok f → (f64_R safe < f64_R f)%R → (f64_R safe <= f64_R d.(safe_ceiling_kbps))%R →
  ∀ f', (record_failed_bound d f now).(failed_ceiling_kbps) = Some f' →
    rate_ok f' ∧ (f64_R safe < f64_R f')%R.
Proof.
  intros [_ _ _ Hfailed] Hf Hlt Hle f' [= <-].
  destruct (failed_ceiling_kbps d) as [c |]; [| done]. destruct (Hfailed c eq_refl) as [Hc Hclt].
  split.
  - unfold f64_min. by repeat case_match.
  - rewrite min_R by eauto with f64. apply Rmin_glb_lt; lra.
Qed.

Lemma ltb_left_num x y : f64_valid x → f64_ltb x y = true → f64_num x.
Proof. intros Hx. by destruct (valid_cases x Hx) as [-> |]. Qed.

Lemma bloated_bound_core d now shaper :
  ceiling_ok d → f64_valid shaper →
  core (bloated_bound d now shaper) ∧
  (f64_R (bloated_bound d now shaper).(safe_ceiling_kbps) <= f64_R d.(safe_ceiling_kbps))%R.
Proof.
  intros Hok Hv. destruct (effective_rate d Hok) as [Heff Htarget]. unfold bloated_bound.
  rewrite Htarget. pose proof (ok_core d Hok) as Hcore. pose proof Hcore as [Hcap [Hi Hic] [Hs Hsb] Hfl].
  pose proof (max_rate_ok _ _ Heff Hi) as Hfailed.
  destruct (f64_ltb (safe_ceiling_kbps d) _) eqn:Hlt.
  { apply ltb_R in Hlt; [| by apply rate_num..]. split; [| simpl; lra]. split; try done.
    apply record_failed_core; done || (simpl; lra). }
  destruct (f64_ltb (initial_safe_ceiling_kbps d) _) eqn:Hraised, (f64_ltb shaper _) eqn:Hbelow;
    simpl andb; cbv iota; try (split; [done | lra]).
  apply ltb_R in Hraised; [| by apply rate_num..]. pose proof (ltb_left_num _ _ Hv Hbelow) as Hn.
  apply ltb_R in Hbelow; [| done | by apply rate_num].
  pose proof (max_num shaper _ Hv (rate_num _ Hi)) as Hmn. pose proof (max_ge shaper _ Hv (rate_num _ Hi)).
  assert (f64_R (f64_max shaper (initial_safe_ceiling_kbps d)) < f64_R (safe_ceiling_kbps d))%R as Hlow.
  { rewrite max_R by eauto with f64. by apply Rmax_lub_lt. }
  split; [| simpl; lra]. split; try done.
  - simpl. split; [apply (between_rate _ (initial_safe_ceiling_kbps d) (safe_ceiling_kbps d)); try done; lra | lra].
  - apply (record_failed_core d (safe_ceiling_kbps d) now); try done; simpl; lra.
Qed.

Lemma handle_ok d now shaper :
  ceiling_ok d → f64_valid shaper → ceiling_ok (handle_bufferbloat d now shaper).2.
Proof.
  intros Hok Hv. pose proof (bloated_bound_core d now shaper Hok Hv) as [Hcore _].
  unfold handle_bufferbloat. destruct (phase d); try done; by apply end_probe_ok.
Qed.

(** The numbers an observation and a policy carry are data of their type. *)
Definition observation_valid (ob : AdaptiveCeilingObservation) : Prop :=
  f64_valid ob.(ob_shaper_rate_kbps) ∧ f64_valid ob.(ob_achieved_rate_kbps).
Definition policy_valid (p : AdaptiveCeilingPolicy) : Prop :=
  f64_valid p.(probe_step_percent) ∧ f64_valid p.(minimum_throughput_gain_percent).

Section observe.
Context (now : N) (ob : AdaptiveCeilingObservation) (policy : AdaptiveCeilingPolicy).
Context (Hob : observation_valid ob) (Hpolicy : policy_valid policy).
Implicit Types d : AdaptiveCeilingDirection.

Lemma in_cruise_ok u d :
  ceiling_ok d → phase d = Cruise → ceiling_ok (in_cruise now ob policy u d).2.
Proof using.
  intros Hok Hp. unfold in_cruise. destruct (_ && _); [| done].
  apply same_probing_ok; [by apply achieved_ok |]. simpl. by rewrite Hp.
Qed.

Lemma in_qualify_ok u d :
  ceiling_ok d → phase d = Qualify → ceiling_ok (in_qualify now ob policy u d).2.
Proof using Hpolicy.
  intros Hok Hp. unfold in_qualify.
  set (d1 := if ob_eligible ob then _ else d).
  assert (ceiling_ok d1 ∧ phase d1 = Qualify) as [Hok1 Hp1]
    by (unfold d1; destruct (ob_eligible ob); auto using achieved_ok).
  assert (∀ reason, ceiling_ok (qualification_over now u d1 reason).2) as Hover.
  { intros reason. apply same_probing_ok; [by apply achieved_ok |]. simpl. by rewrite Hp1. }
  destruct (eligibility_expired _ _ _); [by auto |]. destruct (_ && _); [| done].
  destruct (next_probe_target _ _) as [t |] eqn:Ht; [| by auto].
  destruct (next_probe_target_spec d1 _ t Hok1 (proj1 Hpolicy) Ht) as (Hr & Hb & Hf).
  apply (probe_ok _ t); try done. by apply ok_core in Hok1.
Qed.

Lemma note_peak_ok d : ceiling_ok d → ceiling_ok (note_peak ob d).
Proof using. intros Hok. unfold note_peak. destruct (ob_eligible ob); auto using achieved_ok. Qed.

Lemma note_peak_phase d : phase (note_peak ob d) = phase d.
Proof using. unfold note_peak. by destruct (ob_eligible ob). Qed.

Lemma in_probe_ramp_ok u d :
  ceiling_ok d → phase d = ProbeRamp → ceiling_ok (in_probe_ramp now ob policy u d).2.
Proof using.
  intros Hok Hp. unfold in_probe_ramp. destruct (eligibility_expired _ _ _); [by apply abort_ok |].
  pose proof (note_peak_ok d Hok) as Hok1. destruct (_ && _).
  - apply same_probing_ok; [done |]. by rewrite note_peak_phase, Hp.
  - destruct (_ <=? _); [by apply abort_ok | done].
Qed.

(** A confirmed probe makes its target the safe ceiling. *)
Lemma confirmed_core d :
  ceiling_ok d → probing (phase d) = true →
  core (with_ceilings d (current_target d) (current_target d) None) ∧
  (f64_R d.(safe_ceiling_kbps) < f64_R (current_target d))%R ∧
  current_target d = d.(effective_max_kbps).
Proof using.
  intros Hok Hp. destruct (ok_probing d Hok Hp) as (t & Ht & He & Hr & Hb & Hf).
  unfold current_target. rewrite Ht. destruct (ok_core d Hok) as [Hcap Hi [_ Hsb] _].
  split; [| split; [apply Hb | done]]. split; try done; simpl.
  - pose proof (Rmax_r (f64_R d.(absolute_cap_kbps)) (f64_R (f64_round d.(absolute_cap_kbps)))).
    split; [done | lra].
  - intros f Hff. split; [by apply (ok_failed d Hok) | by apply Hf].
Qed.

Lemma in_probe_observe_ok u d :
  ceiling_ok d → phase d = ProbeObserve → ceiling_ok (in_probe_observe now ob policy u d).2.
Proof using.
  intros Hok Hp. unfold in_probe_observe. destruct (eligibility_expired _ _ _); [by apply abort_ok |].
  pose proof (note_peak_ok d Hok) as Hok1. destruct (_ && _); [| done].
  destruct (gain_missing _ _); [by apply abort_ok |].
  destruct (confirmed_core _ Hok1) as [Hcore _]; [by rewrite note_peak_phase, Hp |].
  by apply rest_ok.
Qed.

Lemma in_backoff_ok u d :
  ceiling_ok d → phase d = Backoff → ceiling_ok (in_backoff now policy u d).2.
Proof using.
  intros Hok Hp. unfold in_backoff. destruct (_ <=? _); [| done].
  apply same_probing_ok; [done |]. by rewrite Hp.
Qed.

Lemma observe_ok d : ceiling_ok d → ceiling_ok (observe now ob policy d).2.
Proof using Hob Hpolicy.
  intros Hok. unfold observe. pose proof (expire_ok d now policy.(failed_bound_ttl) Hok) as Hexp.
  destruct (expire_failed_bound d now _) as [u d1]. cbn [snd] in Hexp.
  set (d2 := if ob_eligible ob then _ else d1).
  assert (ceiling_ok d2) as Hok2 by (unfold d2; destruct (ob_eligible ob); auto using eligible_ok).
  destruct (ob_bufferbloat ob); [apply handle_ok; [done | apply Hob] |].
  destruct (phase d2) eqn:Hp; auto using in_cruise_ok, in_qualify_ok, in_probe_ramp_ok,
    in_probe_observe_ok, in_backoff_ok.
Qed.
End observe.

(** ** Runs *)

Inductive CeilingEvent :=
| Observed (now : N) (ob : AdaptiveCeilingObservation) (policy : AdaptiveCeilingPolicy)
| Paused (now : N) (reason : string)
| ProbeGap (now : N)
| StallReset (now : N).

Definition event_valid (e : CeilingEvent) : Prop :=
  match e with Observed _ ob policy => observation_valid ob ∧ policy_valid policy | _ => True end.

Definition ceiling_step (d : AdaptiveCeilingDirection) (e : CeilingEvent) : AdaptiveCeilingDirection :=
  match e with
  | Observed now ob policy => (observe now ob policy d).2
  | Paused now reason => (pause d now reason).2
  | ProbeGap now => (abort_probe_gap d now).2
  | StallReset now => (reset_to_configured d now).2
  end.

Definition ceiling_run (d : AdaptiveCeilingDirection) (es : list CeilingEvent) :
    AdaptiveCeilingDirection := foldl ceiling_step d es.

Lemma ceiling_step_ok d e : ceiling_ok d → event_valid e → ceiling_ok (ceiling_step d e).
Proof.
  intros Hok He. destruct e; simpl.
  - apply observe_ok; [apply He | apply He | done].
  - by apply pause_ok.
  - by apply gap_ok.
  - by apply reset_ok.
Qed.

Lemma run_ok es d : ceiling_ok d → Forall event_valid es → ceiling_ok (ceiling_run d es).
Proof.
  revert d. induction es as [| e es IH]; intros d Hok Hes; [done |].
  inversion Hes; subst. apply IH; [| done]. by apply ceiling_step_ok.
Qed.

Lemma new_ok configured cap verified now :
  rate_ok configured → rate_ok cap → rate_ok verified →
  ceiling_ok (new_at_with_verified_safe configured cap verified now).
Proof.
  intros Hc Hcap Hv. pose proof (max_rate_ok _ _ Hcap Hc) as Hcap'.
  assert (rate_ok f64_one) as H1.
  { split; [apply one_fin |]. rewrite one_R. split; [lra |]. by apply IZR_le. }
  set (safe := f64_min (f64_min (f64_max verified f64_one) (f64_max configured f64_one))
    (f64_max cap configured)).
  assert (rate_ok safe) as Hs.
  { unfold safe, f64_min. pose proof (max_rate_ok _ _ Hv H1). pose proof (max_rate_ok _ _ Hc H1).
    by repeat case_match. }
  apply rest_ok; try done. fold safe. split; cbn [absolute_cap_kbps initial_safe_ceiling_kbps
    safe_ceiling_kbps failed_ceiling_kbps new_at_with_verified_safe]; try done; fold safe.
  all: pose proof (min_le (f64_min (f64_max verified f64_one) (f64_max configured f64_one))
      (f64_max cap configured) ltac:(eauto 8 with f64) ltac:(by apply rate_num)) as Hle; fold safe in Hle.
  - by split.
  - split; [done |]. split; [lra |]. eapply Rle_trans; [exact Hle | apply Rmax_l].
Qed.

(** The cap and the starting point never change. *)
Definition kept (d d' : AdaptiveCeilingDirection) : Prop :=
  absolute_cap_kbps d' = absolute_cap_kbps d ∧
  initial_safe_ceiling_kbps d' = initial_safe_ceiling_kbps d.

Lemma observe_kept now ob policy d : kept d (observe now ob policy d).2.
Proof.
  assert (∀ d d' d'', kept d d' → kept d' d'' → kept d d'') as Htrans.
  { intros ? ? ? [? ?] [? ?]. split; congruence. }
  unfold observe.
  assert (kept d (expire_failed_bound d now (failed_bound_ttl policy)).2) as Hexp.
  { unfold expire_failed_bound. by repeat case_match. }
  destruct (expire_failed_bound d now _) as [u d1]. cbn [snd] in Hexp.
  set (d2 := if ob_eligible ob then _ else d1).
  assert (kept d d2) as H2 by (unfold d2; by destruct (ob_eligible ob)).
  apply (Htrans d d2); [done |]. generalize d2. clear. intros d.
  destruct (ob_bufferbloat ob).
  { unfold handle_bufferbloat, bloated_bound. destruct (phase d); [.. | done];
      destruct (f64_ltb (safe_ceiling_kbps d) _); try done; by destruct (_ && _). }
  destruct (phase d).
  - unfold in_cruise. by destruct (_ && _).
  - unfold in_qualify. destruct (ob_eligible ob), (eligibility_expired _ _ _); try done;
      destruct (_ && _); try done; by destruct (next_probe_target _ _).
  - unfold in_probe_ramp, note_peak. destruct (eligibility_expired _ _ _), (ob_eligible ob); try done;
      destruct (_ && _); try done; by destruct (_ <=? _).
  - unfold in_probe_observe, note_peak. destruct (eligibility_expired _ _ _), (ob_eligible ob); try done;
      destruct (_ && _); try done; by destruct (gain_missing _ _).
  - unfold in_backoff. by destruct (_ <=? _).
Qed.

Lemma run_kept es d : kept d (ceiling_run d es).
Proof.
  revert d. induction es as [| e es IH]; intros d; [done |]. simpl.
  assert (kept d (ceiling_step d e)) as [H1 H2].
  { destruct e; [apply observe_kept | done | | done].
    simpl. unfold abort_probe_gap. by destruct (phase d). }
  destruct (IH (ceiling_step d e)) as [H3 H4].
  split; etransitivity; [exact H3 | exact H1 | exact H4 | exact H2].
Qed.

(** The state in which an observation is judged: an old failed bound has expired and the
    eligibility is noted. *)
Definition judged (now : N) (ob : AdaptiveCeilingObservation) (policy : AdaptiveCeilingPolicy)
    (d : AdaptiveCeilingDirection) : AdaptiveCeilingDirection :=
  let d := (expire_failed_bound d now policy.(failed_bound_ttl)).2 in
  if ob.(ob_eligible) then with_eligible d (Some now) else d.

Lemma observe_judged now ob policy d :
  let d' := judged now ob policy d in
  (observe now ob policy d).2 =
  if ob.(ob_bufferbloat) then (handle_bufferbloat d' now ob.(ob_shaper_rate_kbps)).2
  else
    let u := (expire_failed_bound d now policy.(failed_bound_ttl)).1 in
    (match d'.(phase) with
     | Cruise => in_cruise now ob policy u d'
     | Qualify => in_qualify now ob policy u d'
     | ProbeRamp => in_probe_ramp now ob policy u d'
     | ProbeObserve => in_probe_observe now ob policy u d'
     | Backoff => in_backoff now policy u d'
     end).2.
Proof.
  cbv zeta. unfold observe, judged. destruct (expire_failed_bound d now _) as [u d1].
  cbn [fst snd]. by destruct (ob_bufferbloat ob).
Qed.

Lemma judged_ok now ob policy d : ceiling_ok d → ceiling_ok (judged now ob policy d).
Proof.
  intros Hok. pose proof (expire_ok d now policy.(failed_bound_ttl) Hok). unfold judged.
  destruct (ob_eligible ob); auto using eligible_ok.
Qed.

Lemma judged_same now ob policy d :
  let d' := judged now ob policy d in
  safe_ceiling_kbps d' = safe_ceiling_kbps d ∧ phase d' = phase d ∧ phase_since d' = phase_since d ∧
  current_target d' = current_target d ∧ effective_max_kbps d' = effective_max_kbps d ∧
  gain_missing policy (note_peak ob d') = gain_missing policy (note_peak ob d) ∧
  last_eligible_at d' = (if ob.(ob_eligible) then Some now else last_eligible_at d).
Proof.
  cbv zeta. unfold judged, expire_failed_bound, note_peak.
  destruct (failed_at d); [destruct (_ <? _) |]; by destruct (ob_eligible ob).
Qed.

(** *** The safe ceiling rises nowhere else *)

Section safe_ceiling.
Context (now : N) (ob : AdaptiveCeilingObservation) (policy : AdaptiveCeilingPolicy).
Implicit Types d : AdaptiveCeilingDirection.

Lemma cruise_safe u d : safe_ceiling_kbps (in_cruise now ob policy u d).2 = safe_ceiling_kbps d.
Proof using. unfold in_cruise. by destruct (_ && _). Qed.

Lemma qualify_safe u d : safe_ceiling_kbps (in_qualify now ob policy u d).2 = safe_ceiling_kbps d.
Proof using.
  unfold in_qualify. destruct (ob_eligible ob), (eligibility_expired _ _ _); try done;
    destruct (_ && _); try done; by destruct (next_probe_target _ _).
Qed.

Lemma ramp_safe u d : safe_ceiling_kbps (in_probe_ramp now ob policy u d).2 = safe_ceiling_kbps d.
Proof using.
  unfold in_probe_ramp, note_peak. destruct (eligibility_expired _ _ _), (ob_eligible ob); try done;
    destruct (_ && _); try done; by destruct (_ <=? _).
Qed.

Lemma backoff_safe u d : safe_ceiling_kbps (in_backoff now policy u d).2 = safe_ceiling_kbps d.
Proof using. unfold in_backoff. by destruct (_ <=? _). Qed.

(** In the observation of a probe it changes only when the probe is confirmed. *)
Lemma probe_safe u d :
  safe_ceiling_kbps (in_probe_observe now ob policy u d).2 = safe_ceiling_kbps d ∨
  ob_eligible ob = true ∧ policy.(probe_duration) <= now - d.(phase_since) ∧
  gain_missing policy (note_peak ob d) = false ∧
  safe_ceiling_kbps (in_probe_observe now ob policy u d).2 = current_target d.
Proof using.
  unfold in_probe_observe. destruct (eligibility_expired _ _ _); [by left |].
  destruct (ob_eligible ob) eqn:He; [| left; unfold note_peak; by rewrite He].
  replace (phase_since (note_peak ob d)) with (phase_since d) by (unfold note_peak; by rewrite He).
  destruct (N.leb_spec (probe_duration policy) (now - phase_since d)) as [Hle | Hlt]; simpl andb; cbv iota;
    [| left; unfold note_peak; by rewrite He].
  destruct (gain_missing _ _) eqn:Hg; [left; unfold note_peak; by rewrite He |].
  right. split; [done |]. split; [done |]. split; [done |]. simpl.
  unfold note_peak. by rewrite He.
Qed.
End safe_ceiling.

(** *** Failed bounds *)

Lemma unbloated_failed now ob policy d :
  ob.(ob_bufferbloat) = false →
  failed_ceiling_kbps (observe now ob policy d).2 = failed_ceiling_kbps (judged now ob policy d).
Proof.
  intros Hb. rewrite observe_judged, Hb. cbv zeta.
  generalize (expire_failed_bound d now (failed_bound_ttl policy)).1. intros u.
  generalize (judged now ob policy d). clear d. intros d. destruct (phase d).
  - unfold in_cruise. by destruct (_ && _).
  - unfold in_qualify. destruct (ob_eligible ob), (eligibility_expired _ _ _); try done;
      destruct (_ && _); try done; by destruct (next_probe_target _ _).
  - unfold in_probe_ramp, note_peak. destruct (eligibility_expired _ _ _), (ob_eligible ob); try done;
      destruct (_ && _); try done; by destruct (_ <=? _).
  - unfold in_probe_observe, note_peak. destruct (eligibility_expired _ _ _), (ob_eligible ob); try done;
      destruct (_ && _); try done; by destruct (gain_missing _ _).
  - unfold in_backoff. by destruct (_ <=? _).
Qed.

Lemma judged_failed now ob policy d f :
  failed_ceiling_kbps (judged now ob policy d) = Some f → failed_ceiling_kbps d = Some f.
Proof.
  unfold judged, expire_failed_bound.
  destruct (failed_at d); [destruct (_ <? _) |]; destruct (ob_eligible ob); done.
Qed.

(** The bound a bufferbloat leaves is not above the maximum that was in force. *)
Lemma bloated_failed d now shaper f :
  ceiling_ok d → f64_valid shaper →
  failed_ceiling_kbps (bloated_bound d now shaper) = Some f →
  failed_ceiling_kbps d = Some f ∨
  failed_at (bloated_bound d now shaper) = Some now ∧ (f64_R f <= f64_R d.(effective_max_kbps))%R.
Proof.
  intros Hok Hv. destruct (effective_rate d Hok) as [Heff Htarget].
  destruct (ok_core d Hok) as [_ [Hi _] [Hs Hsb] Hfl].
  assert (f64_R (safe_ceiling_kbps d) <= f64_R (effective_max_kbps d))%R as Hse.
  { destruct (probing (phase d)) eqn:Hp; [| destruct (ok_resting d Hok Hp) as [-> _]; lra].
    destruct (ok_probing d Hok Hp) as (t & _ & -> & _ & Hb & _). lra. }
  assert (∀ g, rate_ok g → (f64_R g <= f64_R (effective_max_kbps d))%R →
    failed_ceiling_kbps (record_failed_bound d g now) = Some f →
    (f64_R f <= f64_R (effective_max_kbps d))%R) as Hrecord.
  { intros g Hg Hle [= <-]. destruct (failed_ceiling_kbps d) as [c |]; [| done].
    destruct (Hfl c eq_refl) as [Hc _]. pose proof (min_le c g ltac:(eauto with f64) (rate_num _ Hg)). lra. }
  unfold bloated_bound. rewrite Htarget. destruct (f64_ltb (safe_ceiling_kbps d) _).
  { intros Hf. right. split; [done |]. apply (Hrecord (f64_max (effective_max_kbps d) (initial_safe_ceiling_kbps d)));
      [by apply max_rate_ok | | done].
    apply max_le; [by apply rate_num.. | lra | lra]. }
  destruct (_ && _); [| by left]. intros Hf. right. split; [done |].
  by apply (Hrecord (safe_ceiling_kbps d)).
Qed.

(** *** Without load *)

(** Once the grace is over an unloaded observation ends qualifications and probes. *)
Lemma unloaded_step d now ob policy :
  ceiling_ok d → (∀ t, d.(last_eligible_at) = Some t → policy.(eligibility_grace) < now - t) →
  d.(phase_since) <= now → ob.(ob_eligible) = false → ob.(ob_bufferbloat) = false →
  let d' := (observe now ob policy d).2 in
  ceiling_ok d' ∧ safe_ceiling_kbps d' = safe_ceiling_kbps d ∧
  (phase d' = Cruise ∨ phase d' = Backoff ∧ phase_since d' <= now).
Proof.
  intros Hok Hlast Hsince He Hb. cbv zeta. rewrite observe_judged, Hb. cbv zeta.
  pose proof (judged_ok now ob policy d Hok) as Hok2.
  destruct (judged_same now ob policy d) as (Hs & Hp & Ht & _ & _ & _ & Hl). rewrite He in Hl.
  set (d2 := judged now ob policy d) in *. rewrite <- Hs.
  set (u := (expire_failed_bound d now (failed_bound_ttl policy)).1).
  assert (eligibility_expired d2 now (eligibility_grace policy) = true) as Hexp.
  { unfold eligibility_expired. rewrite Hl. destruct (last_eligible_at d) as [t |]; [| done].
    apply N.ltb_lt. by apply Hlast. }
  destruct (phase d2) eqn:Hp2.
  - unfold in_cruise. rewrite He. simpl. auto.
  - unfold in_qualify. rewrite He, Hexp. split; [| by auto].
    apply (same_probing_ok (with_achieved d2 None f64_zero)); [by apply achieved_ok |].
    simpl. by rewrite Hp2.
  - unfold in_probe_ramp. rewrite Hexp. split; [by apply abort_ok |]. split; [done |]. right. split; [done | apply N.le_refl].
  - unfold in_probe_observe. rewrite Hexp. split; [by apply abort_ok |]. split; [done |]. right. split; [done | apply N.le_refl].
  - unfold in_backoff. destruct (_ <=? _).
    + split; [| by auto]. apply same_probing_ok; [done | by rewrite Hp2].
    + split; [done |]. split; [done |]. right. split; [done |]. cbn [snd]. by rewrite Ht.
Qed.

(** A resting direction that is not loaded ends in [Cruise] after the cooldown. *)
Lemma unloaded_rest d now now' ob policy :
  ceiling_ok d → phase d = Cruise ∨ phase d = Backoff ∧ phase_since d <= now →
  policy.(cooldown) <= now' - now → ob.(ob_eligible) = false → ob.(ob_bufferbloat) = false →
  let d' := (observe now' ob policy d).2 in
  ceiling_ok d' ∧ safe_ceiling_kbps d' = safe_ceiling_kbps d ∧ phase d' = Cruise.
Proof.
  intros Hok Hphase Hcool He Hb. cbv zeta. rewrite observe_judged, Hb. cbv zeta.
  pose proof (judged_ok now' ob policy d Hok) as Hok2.
  destruct (judged_same now' ob policy d) as (Hs & Hp & Ht & _).
  set (d2 := judged now' ob policy d) in *. rewrite <- Hs. rewrite <- Hp, <- Ht in Hphase.
  destruct Hphase as [Hp2 | [Hp2 Hsince]]; rewrite Hp2.
  - unfold in_cruise. by rewrite He.
  - unfold in_backoff. rewrite (proj2 (N.leb_le _ _)) by lia. split; [| done].
    apply same_probing_ok; [done | by rewrite Hp2].
Qed.

(** ** The properties *)

Section properties.
Context (configured cap verified : f64) (t0 : N) (es : list CeilingEvent).
Context (Hconfigured : rate_ok configured) (Hcap : rate_ok cap) (Hverified : rate_ok verified).
Context (Hes : Forall event_valid es).

Lemma reached_ok : ceiling_ok (ceiling_run (new_at_with_verified_safe configured cap verified t0) es).
Proof using All. apply run_ok; [by apply new_ok | done]. Qed.
End properties.

(** C7: Whatever the observations say, in any order and with any numbers in them, the
    effective maximum is at least the verified safe ceiling and at most the cap, or the
    configured maximum where that is larger, or this limit rounded to a whole kbit/s: a
    probe's target is rounded after it is limited, so a fractional cap can be exceeded by the
    rounding ([fractional_cap_exceeded]) and by nothing else. The safe ceiling never falls
    below the verified starting point, outside a probe both are the same, and everything in
    force is below the bound that failed. *)
Theorem ceiling_bounded configured cap verified t0 es :
  rate_ok configured → rate_ok cap → rate_ok verified → Forall event_valid es →
  let start := new_at_with_verified_safe configured cap verified t0 in
  let d := ceiling_run start es in
  let limit := f64_max cap configured in
  f64_leb start.(initial_safe_ceiling_kbps) d.(safe_ceiling_kbps) = true ∧
  f64_leb d.(safe_ceiling_kbps) d.(effective_max_kbps) = true ∧
  (f64_leb d.(effective_max_kbps) limit || f64_leb d.(effective_max_kbps) (f64_round limit) = true) ∧
  (probing d.(phase) = false → d.(effective_max_kbps) = d.(safe_ceiling_kbps)) ∧
  (∀ f, d.(failed_ceiling_kbps) = Some f → f64_ltb d.(effective_max_kbps) f = true).
Proof.
  intros Hc Hcap Hv Hes start d limit. pose proof (reached_ok configured cap verified t0 es Hc Hcap Hv Hes) as Hok.
  fold start d in Hok. destruct (run_kept es start) as [Hkc Hki]. fold d in Hkc, Hki.
  change (absolute_cap_kbps start) with limit in Hkc.
  destruct (effective_rate d Hok) as [He _]. destruct (ok_core d Hok) as [Hlim [Hi _] [Hs Hb] Hf].
  rewrite Hkc in *. rewrite Hki in *. pose proof (round_rate _ Hlim) as Hr.
  unfold f64_leb, f64_ltb. rewrite orb_true_iff.
  rewrite !leb_R by (by apply rate_num). split; [apply Hb |].
  destruct (probing (phase d)) eqn:Hp.
  - destruct (ok_probing d Hok Hp) as (t & _ & <- & _ & Hbt & Hft). rewrite Hkc in Hbt.
    split; [lra |]. split; [right; lra |]. split; [done |].
    intros f Hff. destruct (Hf f Hff) as [Hfr _]. apply ltb_R; [by apply rate_num.. | by apply Hft].
  - destruct (ok_resting d Hok Hp) as [-> _]. split; [lra |]. split; [| split; [done |]].
    + destruct Hb as [_ Hb]. destruct (Rmax_Rle (f64_R limit) (f64_R (f64_round limit))
        (f64_R (safe_ceiling_kbps d))) as [Hmax _]. by apply Hmax.
    + intros f Hff. destruct (Hf f Hff) as [Hfr ?]. by apply ltb_R; [apply rate_num.. |].
Qed.

(** C8: The verified ceiling is learned, never guessed: an observation raises it only at the
    end of a probe that was observed for its whole duration under eligible load, without
    confirmed bufferbloat and with the required gain in throughput, and then exactly to the
    rate that was probed. *)
Theorem ceiling_raised_by_probe configured cap verified t0 es now ob policy :
  rate_ok configured → rate_ok cap → rate_ok verified → Forall event_valid es →
  observation_valid ob →
  let d := ceiling_run (new_at_with_verified_safe configured cap verified t0) es in
  let d' := (observe now ob policy d).2 in
  f64_ltb d.(safe_ceiling_kbps) d'.(safe_ceiling_kbps) = true →
  d.(phase) = ProbeObserve ∧ ob.(ob_eligible) = true ∧ ob.(ob_bufferbloat) = false ∧
  policy.(probe_duration) <= now - d.(phase_since) ∧
  gain_missing policy (note_peak ob d) = false ∧
  d'.(safe_ceiling_kbps) = d.(effective_max_kbps).
Proof.
  intros Hc Hcap Hv Hes Hob d. pose proof (reached_ok configured cap verified t0 es Hc Hcap Hv Hes) as Hok.
  fold d in Hok. generalize dependent d. intros d Hok. cbv zeta. rewrite observe_judged.
  pose proof (judged_ok now ob policy d Hok) as Hok2.
  destruct (judged_same now ob policy d) as (Hs & Hp & Ht & Hc2 & He & Hg & _).
  set (d2 := judged now ob policy d) in *. rewrite <- Hs, <- Hp, <- Ht, <- He, <- Hg.
  pose proof (rate_num _ (proj1 (ok_safe d2 Hok2))) as Hn. unfold f64_ltb.
  assert (∀ x, x = safe_ceiling_kbps d2 → SpecFloat.SFltb (safe_ceiling_kbps d2) x = true → False) as Hirr.
  { intros x ->. rewrite ltb_R by done. lra. }
  destruct (ob_bufferbloat ob).
  { intros Hlt. exfalso. pose proof (handle_ok d2 now (ob_shaper_rate_kbps ob) Hok2 (proj1 Hob)) as Hok3.
    pose proof (proj2 (bloated_bound_core d2 now (ob_shaper_rate_kbps ob) Hok2 (proj1 Hob))) as Hle.
    apply ltb_R in Hlt; [| done | apply rate_num, Hok3].
    unfold handle_bufferbloat in Hlt. destruct (phase d2); simpl in Hlt; lra. }
  destruct (phase d2) eqn:Hp2; cbv zeta; intros Hlt;
    try solve [exfalso; revert Hlt; apply Hirr;
      auto using cruise_safe, qualify_safe, ramp_safe, backoff_safe].
  destruct (probe_safe now ob policy (expire_failed_bound d now (failed_bound_ttl policy)).1 d2)
    as [Hsame | (? & ? & ? & ->)]; [by destruct (Hirr _ Hsame Hlt) |].
  destruct (confirmed_core d2 Hok2) as (_ & _ & ->); [by rewrite Hp2 | done].
Qed.

(** C9: A probe never outlives the load that justified it: once no observation has been
    eligible for longer than the grace, two more observations without load or bufferbloat, a
    cooldown apart, bring every direction to rest in [Cruise] with the verified ceiling in
    force. *)
Theorem unloaded_direction_rests configured cap verified t0 es ob1 ob2 policy now1 now2 :
  rate_ok configured → rate_ok cap → rate_ok verified → Forall event_valid es →
  let d := ceiling_run (new_at_with_verified_safe configured cap verified t0) es in
  (∀ t, d.(last_eligible_at) = Some t → policy.(eligibility_grace) < now1 - t) →
  d.(phase_since) <= now1 → policy.(cooldown) <= now2 - now1 →
  ob1.(ob_eligible) = false → ob1.(ob_bufferbloat) = false →
  ob2.(ob_eligible) = false → ob2.(ob_bufferbloat) = false →
  let d' := (observe now2 ob2 policy (observe now1 ob1 policy d).2).2 in
  d'.(phase) = Cruise ∧ d'.(effective_max_kbps) = d.(safe_ceiling_kbps) ∧
  d'.(safe_ceiling_kbps) = d.(safe_ceiling_kbps) ∧ d'.(probe_target_kbps) = None.
Proof.
  intros Hc Hcap Hv Hes d. pose proof (reached_ok configured cap verified t0 es Hc Hcap Hv Hes) as Hok.
  fold d in Hok. generalize dependent d. intros d Hok Hlast Hsince Hcool He1 Hb1 He2 Hb2.
  set (d1 := (observe now1 ob1 policy d).2).
  assert (ceiling_ok d1 ∧ safe_ceiling_kbps d1 = safe_ceiling_kbps d ∧
    (phase d1 = Cruise ∨ phase d1 = Backoff ∧ phase_since d1 <= now1)) as (Hok1 & Hs1 & Hp1).
  { by apply unloaded_step. }
  cbv zeta. destruct (unloaded_rest d1 now1 now2 ob2 policy) as (Hok2 & Hs2 & Hp2); try done.
  destruct (ok_resting _ Hok2) as [Heff Ht]; [by rewrite Hp2 |].
  rewrite Heff, Hs2, Hs1. done.
Qed.

(** C10: Only confirmed bufferbloat makes a failed bound: whatever happens to a direction, a
    new bound is recorded by an observation of bufferbloat outside the backoff, is not above
    the maximum then in force, and the same observation returns to the verified ceiling and
    backs off. *)
Theorem failed_bound_from_bufferbloat configured cap verified t0 es e f :
  rate_ok configured → rate_ok cap → rate_ok verified → Forall event_valid es → event_valid e →
  let d := ceiling_run (new_at_with_verified_safe configured cap verified t0) es in
  let d' := ceiling_step d e in
  d'.(failed_ceiling_kbps) = Some f →
  d.(failed_ceiling_kbps) = Some f ∨
  ∃ now ob policy,
    e = Observed now ob policy ∧ ob.(ob_bufferbloat) = true ∧ d.(phase) ≠ Backoff ∧
    f64_leb f d.(effective_max_kbps) = true ∧ d'.(failed_at) = Some now ∧
    d'.(phase) = Backoff ∧ d'.(effective_max_kbps) = d'.(safe_ceiling_kbps).
Proof.
  intros Hc Hcap Hv Hes He d. pose proof (reached_ok configured cap verified t0 es Hc Hcap Hv Hes) as Hok.
  fold d in Hok. generalize dependent d. intros d Hok. cbv zeta. intros Hf.
  destruct e as [now ob policy | | |]; [| by left | | done]; cbn [ceiling_step] in *.
  2: left; revert Hf; unfold abort_probe_gap; by destruct (phase d).
  destruct (ob_bufferbloat ob) eqn:Hb.
  2: left; rewrite unbloated_failed in Hf by done; by apply judged_failed in Hf.
  pose proof (judged_ok now ob policy d Hok) as Hok2.
  destruct (judged_same now ob policy d) as (_ & Hp & _ & _ & He2 & _).
  rewrite observe_judged, Hb in *. cbv zeta in *.
  pose proof (handle_ok _ now _ Hok2 (proj1 (proj1 He))) as Hok3.
  pose proof (judged_failed now ob policy d f) as Hjf. set (d2 := judged now ob policy d) in *.
  destruct (decide (phase d = Backoff)) as [Hback | Hback].
  { left. unfold handle_bufferbloat in Hf. rewrite Hp, Hback in Hf. by apply Hjf. }
  assert (handle_bufferbloat d2 now (ob_shaper_rate_kbps ob) =
    changed_to (end_probe (bloated_bound d2 now (ob_shaper_rate_kbps ob))) (effective_max_kbps d2) now
      Backoff "confirmed bufferbloat") as Heq.
  { unfold handle_bufferbloat. rewrite Hp. by destruct (phase d). }
  rewrite Heq in *. destruct (bloated_failed d2 now (ob_shaper_rate_kbps ob) f Hok2 (proj1 (proj1 He)) Hf)
    as [Hold | [Hat Hle]]; [left; by apply Hjf |].
  right. exists now, ob, policy. rewrite <- He2. split; [done |]. split; [done |]. split; [done |].
  split; [| done]. apply leb_R; [| apply rate_num, effective_rate | exact Hle]; [| done].
  destruct (ok_failed _ Hok3 f Hf) as [Hfr _]. by apply rate_num.
Qed.

(** ** A run *)

Definition sample_policy : AdaptiveCeilingPolicy :=
  {| hold_time := duration_from_secs 10; probe_step_percent := f64_of_N 3;
     probe_duration := duration_from_secs 20; cooldown := duration_from_secs 30;
     failed_bound_ttl := duration_from_secs 3600; eligibility_grace := duration_from_secs 1;
     minimum_throughput_gain_percent := f64_lit 15 10 |}.

Definition sample_loaded (shaper achieved : N) : AdaptiveCeilingObservation :=
  {| ob_eligible := true; ob_bufferbloat := false; ob_shaper_rate_kbps := f64_of_N shaper;
     ob_achieved_rate_kbps := f64_of_N achieved |}.

Definition sample_idle : AdaptiveCeilingObservation :=
  {| ob_eligible := false; ob_bufferbloat := false; ob_shaper_rate_kbps := f64_of_N 80000;
     ob_achieved_rate_kbps := f64_of_N 10 |}.

Definition sample_probe : list CeilingEvent :=
  [Observed (duration_from_secs 1) (sample_loaded 80000 79000) sample_policy;
   Observed (duration_from_secs 12) (sample_loaded 80000 79500) sample_policy;
   Observed (duration_from_secs 13) (sample_loaded 82400 82000) sample_policy].

Local Notation sample_start :=
  (new_at_with_verified_safe (f64_of_N 80000) (f64_of_N 100000) (f64_of_N 80000) 0).

Example sample_probed :
  let d := ceiling_run sample_start sample_probe in
  phase d = ProbeObserve ∧ effective_max_kbps d = f64_of_N 82400 ∧
  safe_ceiling_kbps (observe (duration_from_secs 34) (sample_loaded 82400 82300) sample_policy d).2
    = f64_of_N 82400.
Proof. by vm_compute. Qed.

Lemma rate_of_N n : n <= MAX_RATE_KBPS → rate_ok (f64_of_N n).
Proof.
  intros Hn. unfold MAX_RATE_KBPS in Hn. split; [apply of_N_fin; lia |].
  rewrite of_N_R by lia. split; apply IZR_le; [lia |]. unfold max_rate, MAX_RATE_KBPS. lia.
Qed.

Lemma sample_valid : Forall event_valid sample_probe.
Proof. repeat constructor; apply valid_of_N || by vm_compute. Qed.

Lemma ceiling_bounded_witness :
  f64_leb (ceiling_run sample_start sample_probe).(safe_ceiling_kbps)
    (ceiling_run sample_start sample_probe).(effective_max_kbps) = true.
Proof.
  refine (proj1 (proj2 (ceiling_bounded (f64_of_N 80000) (f64_of_N 100000) (f64_of_N 80000) 0 sample_probe
    _ _ _ sample_valid))); by apply rate_of_N.
Defined.

Lemma ceiling_raised_by_probe_witness :
  (ceiling_run sample_start sample_probe).(phase) = ProbeObserve.
Proof.
  refine (proj1 (ceiling_raised_by_probe (f64_of_N 80000) (f64_of_N 100000) (f64_of_N 80000) 0 sample_probe
    (duration_from_secs 34) (sample_loaded 82400 82300) sample_policy _ _ _ sample_valid _ _));
    [by apply rate_of_N.. | split; apply valid_of_N | by vm_compute].
Defined.

Lemma unloaded_direction_rests_witness :
  (observe (duration_from_secs 50) sample_idle sample_policy
    (observe (duration_from_secs 15) sample_idle sample_policy
       (ceiling_run sample_start sample_probe)).2).2.(phase) = Cruise.
Proof.
  assert (∀ t, last_eligible_at (ceiling_run sample_start sample_probe) = Some t →
    eligibility_grace sample_policy < duration_from_secs 15 - t) as Hgrace.
  { intros t Ht. vm_compute in Ht. injection Ht as <-. by vm_compute. }
  assert (phase_since (ceiling_run sample_start sample_probe) <= duration_from_secs 15) as Hsince
    by (by vm_compute).
  assert (cooldown sample_policy <= duration_from_secs 50 - duration_from_secs 15) as Hcool by (by vm_compute).
  exact (proj1 (unloaded_direction_rests _ _ _ 0 sample_probe sample_idle sample_idle sample_policy _ _
    (rate_of_N 80000 ltac:(done)) (rate_of_N 100000 ltac:(done)) (rate_of_N 80000 ltac:(done))
    sample_valid Hgrace Hsince Hcool eq_refl eq_refl eq_refl eq_refl)).
Defined.

(** A cap that is not a whole number is exceeded: the target is rounded after it was limited. *)
Lemma fractional_cap_exceeded :
  let start := new_at_with_verified_safe (f64_of_N 80000) (f64_lit 160001 2) (f64_of_N 80000) 0 in
  let d := ceiling_run start (take 2 sample_probe) in
  f64_ltb d.(absolute_cap_kbps) d.(effective_max_kbps) = true ∧
  d.(effective_max_kbps) = f64_of_N 80001.
Proof. by vm_compute. Qed.

Definition sample_bloated : AdaptiveCeilingObservation :=
  {| ob_eligible := false; ob_bufferbloat := true; ob_shaper_rate_kbps := f64_of_N 82400;
     ob_achieved_rate_kbps := f64_of_N 82000 |}.

Lemma failed_bound_from_bufferbloat_witness :
  (ceiling_run sample_start sample_probe).(failed_ceiling_kbps) = Some (f64_of_N 82400) ∨
  (ceiling_run sample_start sample_probe).(phase) ≠ Backoff.
Proof.
  assert (event_valid (Observed (duration_from_secs 20) sample_bloated sample_policy)) as He
    by (repeat constructor; apply valid_of_N || by vm_compute).
  assert (failed_ceiling_kbps (ceiling_step (ceiling_run sample_start sample_probe)
    (Observed (duration_from_secs 20) sample_bloated sample_policy)) = Some (f64_of_N 82400)) as Hf
    by (by vm_compute).
  destruct (failed_bound_from_bufferbloat _ _ _ 0 sample_probe _ _
    (rate_of_N 80000 ltac:(done)) (rate_of_N 100000 ltac:(done)) (rate_of_N 80000 ltac:(done))
    sample_valid He Hf) as [Hold | (now & ob & policy & _ & _ & Hphase & _)]; [by left | by right].
Defined.
