(* ===== verification/SchedulerCalls.v ===== *)
(** * The calls of the scheduler

    What the native scheduler of [operations/coordinator.rs] reads and writes outside its
    own memory: the entries of its store, and what the coordinator and the router tell it.
    With the data these calls carry: the policy of [operations/scheduler_config.rs], the
    launch intent of [operations/autotune_request.rs], the runtime snapshot of
    [operations/rating.rs] and the terminal record of [operations/full_autotune.rs]. *)

From S2P Require Import Prelude RustStr SchedRecord Vocabulary RustNet CapturePolicy OperationRequest ControlProtocol JobJournal Effects Binary64.
Local Open Scope string_scope.

(** ** Policy *)

Record ExplicitRouteAuthority := {
  ra_source : Ipv4Addr;
  ra_table : N;
  ra_mark : N;
  ra_mask : N;
}.

Record ExplicitLaunchRoute := { el_authority : ExplicitRouteAuthority; el_dns_server : Ipv4Addr }.

Record ScheduledInstanceConfig := {
  sc_instance : string;
  sc_instance_enabled : bool;
  sc_scheduled_enabled : bool;
  sc_interval_s : N;
  sc_idle_window_s : N;
  sc_window_start_hour : N;
  sc_window_end_hour : N;
  sc_daily_limit_bytes : N;
  sc_monthly_limit_bytes : N;
  sc_auto_apply : bool;
  sc_active_threshold_kbps : N;
  sc_expected_target_interface : string;
  sc_backend : string;
  sc_route_mode : string;
  sc_explicit_route : option ExplicitLaunchRoute;
  sc_mwan3_member : string;
  sc_profile : AutotuneProfile;
  sc_strategy : CalibrationStrategy;
  sc_access_medium : AccessMedium;
  sc_access_source : AccessEvidenceSource;
  sc_access_confidence_percent : N;
  sc_capacity_learning_policy : CapacityLearningPolicy;
  sc_service_dl_cap_kbps : option N;
  sc_service_ul_cap_kbps : option N;
}.

Record SchedulerConfigIssue := { ci_instance : string; ci_message : string }.
Record SchedulerConfigSnapshot := {
  cs_instances : list ScheduledInstanceConfig;
  cs_issues : list SchedulerConfigIssue;
}.

Record AutotuneLaunchIntent := {
  li_explicit_route : option ExplicitLaunchRoute;
  li_instance : string;
  li_expected_target_interface : string;
  li_backend : string;
  li_route_mode : string;
  li_mwan3_member : string;
  li_profile : AutotuneProfile;
  li_strategy : CalibrationStrategy;
  li_access_medium : AccessMedium;
  li_access_source : AccessEvidenceSource;
  li_access_confidence_percent : N;
  li_capacity_learning_policy : CapacityLearningPolicy;
  li_service_dl_cap_kbps : option N;
  li_service_ul_cap_kbps : option N;
  li_allow_sqm_disable : bool;
  li_allow_active_traffic : bool;
  li_traffic_budget : TrafficPolicy;
  li_traffic_policy_explicit : bool;
  li_traffic_plan : option AutotuneTrafficPlan;
  li_server_failure_retries : option N;
}.

Definition sc_enabled (c : ScheduledInstanceConfig) : bool :=
  c.(sc_instance_enabled) && c.(sc_scheduled_enabled).

(** [MAX_OPERATION_TRAFFIC_BUDGET_BYTES] *)
Definition MAX_LAUNCH_TRAFFIC_BUDGET_BYTES : N := N.shiftl 1 40.

Definition launch_intent (c : ScheduledInstanceConfig) (traffic_budget : N) : Res AutotuneLaunchIntent :=
  fail_if ((traffic_budget =? 0)%N || (MAX_LAUNCH_TRAFFIC_BUDGET_BYTES <? traffic_budget)%N)
    "scheduled launch traffic budget is outside the exact range" ≫= λ _,
  mret {|
    li_explicit_route := c.(sc_explicit_route);
    li_instance := c.(sc_instance);
    li_expected_target_interface := c.(sc_expected_target_interface);
    li_backend := c.(sc_backend);
    li_route_mode := c.(sc_route_mode);
    li_mwan3_member := c.(sc_mwan3_member);
    li_profile := c.(sc_profile);
    li_strategy := c.(sc_strategy);
    li_access_medium := c.(sc_access_medium);
    li_access_source := c.(sc_access_source);
    li_access_confidence_percent := c.(sc_access_confidence_percent);
    li_capacity_learning_policy := c.(sc_capacity_learning_policy);
    li_service_dl_cap_kbps := c.(sc_service_dl_cap_kbps);
    li_service_ul_cap_kbps := c.(sc_service_ul_cap_kbps);
    li_allow_sqm_disable := bool_decide (c.(sc_strategy) = FullRaw);
    li_allow_active_traffic := false;
    li_traffic_budget := Capped traffic_budget;
    li_traffic_policy_explicit := true;
    li_traffic_plan := None;
    li_server_failure_retries := None;
  |}.

(** ** What the router reports *)

(** The fields of [RatingRuntimeSnapshot] the scheduler looks at. *)
Record RatingRuntimeSnapshot := {
  rs_updated_unix_ms : N;
  rs_runtime_generation : N;
  rs_uplink_state : string;
  rs_route_test_ready : bool;
  rs_sqm_runtime_managed : bool;
  rs_sqm_runtime_healthy : bool;
  rs_transport_probe_trusted : bool;
  rs_baseline_ready : bool;
  rs_baseline_samples : N;
  rs_baseline_required_samples : N;
  rs_dl_achieved_kbps : f64;
  rs_ul_achieved_kbps : f64;
  rs_cake_dl_kbps : f64;
  rs_cake_ul_kbps : f64;
}.

Inductive AutotuneTerminal :=
  | TComplete (review_digest : string)
  | TCancelled
  | TInconclusive (code : string)
  | TFailed (code : string).

Record AutotuneTerminalRecord := {
  at_job_id : string;
  at_worker_run_id : string;
  at_consumed_traffic_bytes : N;
  at_terminal : AutotuneTerminal;
}.

Definition terminal_traffic_is_unknown (t : AutotuneTerminal) : bool :=
  match t with
  | TFailed code =>
      String.eqb code "owned-traffic-accounting-failed" || String.eqb code "speedtest-counter-reset"
      || starts_with "speedtest-accounting-" code
  | _ => false
  end.

(** The fields of [ScannedJob] the scheduler looks at. *)
Record ScannedJob := {
  sj_journal : JobJournal;
  sj_request : OperationRequest;
  sj_disposition : JournalDisposition;
}.

Inductive NativeApplyCommitDisposition := ApplyApplied | ApplyAlreadyApplied.
Inductive NativeScheduledAutoApplyOutcome :=
  | NotRequested
  | ReviewRequired
  | PriorThroughputReviewRequired
  | Applied (disposition : NativeApplyCommitDisposition).

(** ** Files *)

(** What the store looks at in a file's metadata. *)
Record FileMetadata := {
  fm_is_file : bool;
  fm_is_symlink : bool;
  fm_uid : N;
  fm_mode : N;
  fm_len : N;
}.

Inductive EntryInspection :=
  | NoSuchEntry
  | InspectionError (error : string)
  | Found (metadata : FileMetadata).

(** ** Calls and answers

    The calls of the store name an entry of its directory; [NextSequence] is
    [write_sequence.fetch_add(1)], and a listed entry has no name if it is not UTF-8. A
    failing call answers with the text of its error. [ListJobs] reads the jobs the
    coordinator holds, [AdmissionRequested] and [StartupIssues] the rest of what
    [admission_available] looks at. [StartJob] is [start_job], answering with its response,
    trimmed. [ReadTerminal] and [VerifyConsumed] read the worker's terminal record and
    replay its traffic evidence. The four calls before [ApplyMarkerPresent] are the steps of
    the Auto-Apply of a successful job: its verified result, the saved decision on its
    history, whether its raw throughput declined by more than half from a verified prior
    result, and the Apply itself. *)
Inductive SchedulerCall :=
  | InspectEntry (name : string)
  | ReadEntry (name : string)
  | NextSequence
  | CreateEntry (name : string)
  | WriteEntry (name contents : string)
  | SyncEntry (name : string)
  | RenameEntry (from to_ : string)
  | SyncRoot
  | RemoveEntry (name : string)
  | ListRoot
  | EpochMs
  | ReadPolicy
  | ListJobs
  | AdmissionRequested
  | StartupIssues
  | ReadRatingSnapshot (instance : string)
  | AttestNoCompeting
  | BuildRequest (intent : AutotuneLaunchIntent) (auto_apply : bool)
  | KernelRequestId
  | StartJob (message : ControlMessage)
  | NativeJobPaths (job_id worker_run_id : string)
  | ReadTerminal (job_id worker_run_id : string)
  | VerifyConsumed (job_id worker_run_id : string) (bytes : N)
  | PublicResult (job_id : string)
  | HistoryDecisionBlocked (job_id result : string)
  | PriorThroughputDecline (job_id : string)
  | ExecuteAutoApply (job_id : string)
  | ApplyMarkerPresent
  | PushStartupIssue (issue : string)
  | PublishStatus.

Definition sched_answer (c : SchedulerCall) : Type :=
  match c with
  | InspectEntry _ => EntryInspection
  | ReadEntry _ => Res string
  | NextSequence => N
  | CreateEntry _ | WriteEntry _ _ | SyncEntry _ | RenameEntry _ _ | SyncRoot | RemoveEntry _ => Res unit
  | ListRoot => Res (list (Res (option string)))
  | EpochMs => Res N
  | ReadPolicy => Res (bool * SchedulerConfigSnapshot)
  | ListJobs => list ScannedJob
  | AdmissionRequested => bool
  | StartupIssues => list string
  | ReadRatingSnapshot _ => Res RatingRuntimeSnapshot
  | AttestNoCompeting => Res unit
  | BuildRequest _ _ => Res OperationRequest
  | KernelRequestId => Res string
  | StartJob _ => string
  | NativeJobPaths _ _ => Res unit
  | ReadTerminal _ _ => Res AutotuneTerminalRecord
  | VerifyConsumed _ _ _ => Res N
  | PublicResult _ => Res string
  | HistoryDecisionBlocked _ _ | PriorThroughputDecline _ => Res bool
  | ExecuteAutoApply _ => Res NativeScheduledAutoApplyOutcome
  | ApplyMarkerPresent => Res bool
  | PushStartupIssue _ => unit
  | PublishStatus => Res unit
  end.

(** A method that makes scheduler calls, on a state, with an error and a result. *)
Abbreviation SM := (method sched_answer).
