(* ===== verification/SchedulerStore.v ===== *)
(** * The store of the scheduler

    Models [operations/scheduler_store.rs]: the directory with one record per scheduled
    instance, the names of its entries, and reading and writing a record. The lock that
    keeps a second owner out, and the permissions of the directory, are not modelled. *)

From stdpp Require Import sorting.
From S2P Require Import Prelude RustStr SchedRecord ScheduleCursor BudgetLedger SchedulerState Vocabulary RustNet CapturePolicy OperationRequest ControlProtocol JobJournal Effects Binary64 SchedulerCalls.
Local Open Scope string_scope.

(** ** Names *)

Definition LOCK_FILE : string := ".scheduler.lock".
Definition STATE_PREFIX : string := "instance-".
Definition RECORD_SUFFIX : string := ".state".
Definition TEMP_PREFIX : string := ".scheduler-write.".
Definition TEMP_SUFFIX : string := ".tmp".
Definition MAX_RECORD_BYTES : N := 16 * 1024.

(** [s.strip_suffix(suffix)] *)
Fixpoint strip_suffix (suffix s : string) : option string :=
  if String.eqb s suffix then Some ""
  else match s with "" => None | String c r => String c <$> strip_suffix suffix r end.

Definition record_instance (name prefix : string) : option string :=
  rest ← strip_prefix prefix name; strip_suffix RECORD_SUFFIX rest.

(** [fields.next().is_some_and(|value| !value.is_empty() && all digits)] *)
Definition decimal_field (value : string) : bool :=
  negb (String.eqb value "") && all_bytes is_ascii_digit value.

Definition is_exact_temp_name (name : string) : bool :=
  match (rest ← strip_prefix TEMP_PREFIX name; strip_suffix TEMP_SUFFIX rest) with
  | None => false
  | Some body =>
      match split_on "." body with
      | [kind; process; sequence] =>
          String.eqb kind "state" && decimal_field process && decimal_field sequence
      | _ => false
      end
  end.

(** The name of the record of an instance, and of a temporary file. *)
Definition record_name (prefix instance : string) : string := prefix +:+ instance +:+ RECORD_SUFFIX.
Definition temp_name (kind : string) (process sequence : N) : string :=
  TEMP_PREFIX +:+ kind +:+ "." +:+ show process +:+ "." +:+ show sequence +:+ TEMP_SUFFIX.

(** ** Operations *)

(** The directory, for messages, with the effective user and the process. *)
Record SchedulerStore := { ss_root : string; ss_uid : N; ss_process : N }.

Section store.
Context {S : Type} (store : SchedulerStore) (usize_max : N).
Abbreviation Sched := (SM S string).

(** [map_err(|error| format!("{message}: {error}"))?] *)
Definition store_call {A} (message : string) (m : Sched (Res A)) : Sched A :=
  r ← m; match r with Ok a => mret a | Err error => raise (message +:+ ": " +:+ error) end.

Definition entry_path (name : string) : string := store.(ss_root) +:+ "/" +:+ name.

Definition private_file (path : string) (m : FileMetadata) : Res unit :=
  fail_if (negb m.(fm_is_file) || m.(fm_is_symlink) || negb (m.(fm_uid) =? store.(ss_uid))%N
           || negb (N.land m.(fm_mode) 63 =? 0)%N)
    (path +:+ " is not a private scheduler-owned regular file").

Definition record_file (prefix instance : string) : Res string :=
  validate_scheduler_instance instance ≫= λ _, mret (record_name prefix instance).

Definition read_optional_record {T} (name : string) (decode : string → Res T) : Sched (option T) :=
  inspection ← call (InspectEntry name);
  match inspection with
  | NoSuchEntry => mret None
  | InspectionError error => raise ("unable to inspect scheduler record: " +:+ error)
  | Found metadata =>
      lift_m (private_file (entry_path name) metadata) ≫= λ _,
      lift_m (fail_if (MAX_RECORD_BYTES <? metadata.(fm_len))%N
                "native scheduler record exceeds its size bound") ≫= λ _,
      bytes ← store_call "unable to read native scheduler record" (call (ReadEntry name));
      lift_m (fail_if (MAX_RECORD_BYTES <? len bytes)%N
                "native scheduler record exceeds its size bound") ≫= λ _,
      contents ← lift_m (from_utf8 bytes "native scheduler record is not UTF-8");
      value ← lift_m (decode contents);
      mret (Some value)
  end.

Definition load_state (instance : string) : Sched (option SchedulerInstanceState) :=
  path ← lift_m (record_file STATE_PREFIX instance);
  record ← read_optional_record path (state_decode usize_max);
  lift_m (fail_if (is_some_and (λ state, negb (String.eqb state.(cursor).(cursor_instance) instance)) record)
            "scheduler state filename and identity differ") ≫= λ _,
  mret record.

(** The steps of a write, up to the first that fails. *)
Definition write_steps (temp final contents : string) : Sched unit :=
  store_call "unable to create native scheduler record" (call (CreateEntry temp)) ≫= λ _,
  store_call "unable to write native scheduler record" (call (WriteEntry temp contents)) ≫= λ _,
  store_call "unable to sync native scheduler record" (call (SyncEntry temp)) ≫= λ _,
  store_call "unable to publish native scheduler record" (call (RenameEntry temp final)) ≫= λ _,
  store_call "unable to sync native scheduler directory" (call SyncRoot).

Definition write_record (final kind contents : string) : Sched unit :=
  lift_m (fail_if (MAX_RECORD_BYTES <? len contents)%N
            "native scheduler record exceeds its size bound") ≫= λ _,
  inspection ← call (InspectEntry final);
  lift_m (match inspection with
          | Found metadata => private_file (entry_path final) metadata
          | _ => mret tt
          end) ≫= λ _,
  sequence ← call NextSequence;
  lift_m (fail_if (sequence =? u32_max)%N "native scheduler store write sequence exhausted") ≫= λ _,
  let temp := temp_name kind store.(ss_process) sequence in
  result ← attempt (write_steps temp final contents);
  match result with
  | Ok _ => mret tt
  | Err error => call (RemoveEntry temp) ≫= λ _, raise error
  end.

Definition persist_state (state : SchedulerInstanceState) : Sched unit :=
  contents ← lift_m (state_encode state);
  path ← lift_m (record_file STATE_PREFIX state.(cursor).(cursor_instance));
  write_record path "state" contents.

(** One entry of the listing: [None] for the lock. *)
Definition listed_instance (entry : Res (option string)) : Sched (option string) :=
  match entry with
  | Err error => raise ("unable to inspect native scheduler state: " +:+ error)
  | Ok None => raise "native scheduler state filename is not UTF-8"
  | Ok (Some name) =>
      if String.eqb name LOCK_FILE then mret None
      else
        match record_instance name STATE_PREFIX with
        | None => raise ("unexpected native scheduler store entry during enumeration: " +:+ name)
        | Some instance =>
            lift_m (validate_scheduler_instance instance) ≫= λ _,
            inspection ← call (InspectEntry name);
            match inspection with
            | NoSuchEntry => raise "unable to inspect native scheduler state: no such entry"
            | InspectionError error => raise ("unable to inspect native scheduler state: " +:+ error)
            | Found metadata =>
                lift_m (private_file (entry_path name) metadata) ≫= λ _, mret (Some instance)
            end
        end
  end.

Fixpoint listed_instances (entries : list (Res (option string))) : Sched (list string) :=
  match entries with
  | [] => mret []
  | entry :: entries =>
      instance ← listed_instance entry;
      instances ← listed_instances entries;
      mret (match instance with Some instance => instance :: instances | None => instances end)
  end.

(** [windows(2).any(|pair| pair[0] == pair[1])] *)
Fixpoint adjacent_equal (l : list string) : bool :=
  match l with
  | a :: (b :: _) as l => String.eqb a b || adjacent_equal l
  | _ => false
  end.

Definition name_le (a b : string) : Prop := str_ltb b a = false.
#[export] Instance name_le_dec : RelDecision name_le.
Proof. intros a b. unfold name_le. apply _. Defined.

Definition store_instances : Sched (list string) :=
  entries ← store_call "unable to enumerate native scheduler state" (call ListRoot);
  instances ← listed_instances entries;
  let instances := merge_sort name_le instances in
  lift_m (fail_if (adjacent_equal instances) "native scheduler store contains duplicate instances") ≫= λ _,
  mret instances.

(** Opening the store: stale temporary files go, anything unexpected is refused. *)
Definition clean_entry (entry : Res (option string)) : Sched unit :=
  match entry with
  | Err error => raise ("unable to read scheduler entry: " +:+ error)
  | Ok None => raise "native scheduler entry name is not UTF-8"
  | Ok (Some name) =>
      inspection ← call (InspectEntry name);
      match inspection with
      | NoSuchEntry => raise "unable to inspect native scheduler entry: no such entry"
      | InspectionError error => raise ("unable to inspect native scheduler entry: " +:+ error)
      | Found metadata =>
          if String.eqb name LOCK_FILE then lift_m (private_file (entry_path name) metadata)
          else
            match record_instance name STATE_PREFIX with
            | Some instance =>
                lift_m (validate_scheduler_instance instance) ≫= λ _,
                lift_m (private_file (entry_path name) metadata) ≫= λ _,
                lift_m (fail_if (MAX_RECORD_BYTES <? metadata.(fm_len))%N
                          "native scheduler record exceeds its size bound")
            | None =>
                if is_exact_temp_name name then
                  lift_m (private_file (entry_path name) metadata) ≫= λ _,
                  store_call "unable to remove stale scheduler record" (call (RemoveEntry name))
                else raise ("unexpected native scheduler store entry: " +:+ name)
            end
      end
  end.

Fixpoint clean_entries (entries : list (Res (option string))) : Sched unit :=
  match entries with
  | [] => mret tt
  | entry :: entries => clean_entry entry ≫= λ _, clean_entries entries
  end.

Definition clean_and_validate_entries : Sched unit :=
  entries ← store_call "unable to scan native scheduler store" (call ListRoot);
  clean_entries entries.
End store.
