(* ===== verification/SchedulerRuntime.v ===== *)
(** * The durable steps of a scheduled calibration

    Models [operations/scheduler_runtime.rs]: the local calendar, the evidence that the
    line was quiet, and the four transactions on the record of an instance: reserve a
    budget for a request, settle it, keep it as unknown, and acknowledge it. The scan of
    other processes is a call. *)

From S2P Require Import Prelude RustStr SchedRecord ScheduleCursor BudgetLedger SchedulerState Vocabulary RustNet CapturePolicy OperationRequest ControlProtocol JobJournal Effects Binary64 SchedulerCalls SchedulerStore.
Local Open Scope string_scope.

#[export] Instance ScheduleCursor_eq_dec : EqDecision ScheduleCursor.
Proof. solve_decision. Defined.
#[export] Instance SchedulerInstanceState_eq_dec : EqDecision SchedulerInstanceState.
Proof. solve_decision. Defined.

Definition SCHEDULER_RUNTIME_FRESHNESS_MS : N := 5000.
Definition MIN_PLAUSIBLE_WALL_CLOCK_UNIX_S : N := 1767225600.

Definition require_plausible_wall_clock (now_unix_s : N) : Res unit :=
  fail_if (now_unix_s <? MIN_PLAUSIBLE_WALL_CLOCK_UNIX_S)%N
    "the system clock has not been set; scheduled calibration waits for a valid time".

(** ** The local calendar *)

Record LocalCalendar := {
  cal_now_unix_s : N;
  cal_day : string;
  cal_month : string;
  cal_hour : N;
  cal_window_open : bool;
  cal_next_window_open_unix_s : option N;
}.

(** [struct tm]: the fields [mktime] reads. *)
Record Tm := {
  tm_sec : Z;
  tm_min : Z;
  tm_hour : Z;
  tm_mday : Z;
  tm_mon : Z;
  tm_year : Z;
  tm_isdst : Z;
}.

Definition window_contains_hour (hour start end_ : N) : bool :=
  if (start =? end_)%N then true
  else if (start <? end_)%N then (start <=? hour)%N && (hour <? end_)%N
  else (start <=? hour)%N || (hour <? end_)%N.

(** [format!("{:0w$}", n)] of a number that is not negative. *)
Definition zero_padded (width : nat) (n : Z) : string :=
  let digits := show (Z.to_N n) in
  Nat.iter (width - String.length digits) (String "0") digits.

(** [(lo..=hi).contains(&x)] *)
Definition in_range (lo hi x : Z) : bool := (lo <=? x)%Z && (x <=? hi)%Z.

(** The candidate for the opening of the window on day [mday] of the same month. *)
Definition window_candidate (local : Tm) (mday : Z) (window_start_hour : N) : Tm :=
  {| tm_sec := 0; tm_min := 0; tm_hour := Z.of_N window_start_hour; tm_mday := mday;
     tm_mon := local.(tm_mon); tm_year := local.(tm_year); tm_isdst := -1 |}.

Section calendar.
(** [localtime_r] and [mktime] of libc, and the range of [time_t]. *)
Context (localtime : N → option Tm) (mktime : Tm → Z) (time_t_max : N).

Definition next_window (local : Tm) (now_unix_s window_start_hour : N) : Res N :=
  let next := mktime (window_candidate local local.(tm_mday) window_start_hour) in
  fail_if (next <? 0)%Z "scheduler could not resolve the next local window" ≫= λ _,
  next ← (if (next <=? Z.of_N now_unix_s)%Z then
            let next := mktime (window_candidate local (local.(tm_mday) + 1) window_start_hour) in
            fail_if (next <? 0)%Z "scheduler could not resolve the next local day window" ≫= λ _,
            mret next
          else mret next);
  fail_if (next <=? Z.of_N now_unix_s)%Z "scheduler next local window did not advance" ≫= λ _,
  mret (Z.to_N next).

Definition local_calendar (now_unix_s window_start_hour window_end_hour : N) : Res LocalCalendar :=
  fail_if ((now_unix_s =? 0)%N || (23 <? window_start_hour)%N || (23 <? window_end_hour)%N)
    "scheduler local calendar input is invalid" ≫= λ _,
  fail_if (time_t_max <? now_unix_s)%N "scheduler wall clock is outside time_t" ≫= λ _,
  local ← ok_or (localtime now_unix_s) "scheduler could not resolve the local calendar";
  fail_if (negb (in_range 0 23 local.(tm_hour)) || negb (in_range 0 11 local.(tm_mon))
           || negb (in_range 1 31 local.(tm_mday)) || (local.(tm_year) <? 70)%Z)
    "scheduler local calendar fields are invalid" ≫= λ _,
  let hour := Z.to_N local.(tm_hour) in
  let open := window_contains_hour hour window_start_hour window_end_hour in
  next ← (if open || (window_start_hour =? window_end_hour)%N then mret None
          else next ← next_window local now_unix_s window_start_hour; mret (Some next));
  let year := zero_padded 4 (local.(tm_year) + 1900) in
  let month := zero_padded 2 (local.(tm_mon) + 1) in
  mret {| cal_now_unix_s := now_unix_s;
          cal_day := year +:+ month +:+ zero_padded 2 local.(tm_mday);
          cal_month := year +:+ month;
          cal_hour := hour;
          cal_window_open := open;
          cal_next_window_open_unix_s := next |}.
End calendar.

(** ** Quiet evidence *)

Record QuietEvidence := {
  q_runtime_generation : option N;
  q_first_snapshot_unix_ms : option N;
  q_last_snapshot_unix_ms : option N;
}.

(** [QuietEvidence::default()] and [reset]. *)
Definition quiet_default : QuietEvidence :=
  {| q_runtime_generation := None; q_first_snapshot_unix_ms := None; q_last_snapshot_unix_ms := None |}.

Definition u64_saturating_mul (a b : N) : N := N.min (a * b) u64_max.

Definition quiet_eligible (snapshot : RatingRuntimeSnapshot) (active_threshold_kbps : N) : bool :=
  let rate := f64_add snapshot.(rs_dl_achieved_kbps) snapshot.(rs_ul_achieved_kbps) in
  negb (snapshot.(rs_runtime_generation) =? 0)%N && negb (snapshot.(rs_updated_unix_ms) =? 0)%N
  && f64_is_finite rate && f64_leb (f64_of_N 0) rate && f64_leb rate (f64_of_N active_threshold_kbps).

(** The evidence that starts with this snapshot. *)
Definition quiet_from (snapshot : RatingRuntimeSnapshot) : QuietEvidence :=
  {| q_runtime_generation := Some snapshot.(rs_runtime_generation);
     q_first_snapshot_unix_ms := Some snapshot.(rs_updated_unix_ms);
     q_last_snapshot_unix_ms := Some snapshot.(rs_updated_unix_ms) |}.

Definition observe (q : QuietEvidence) (snapshot : RatingRuntimeSnapshot)
    (active_threshold_kbps required_window_s : N) : bool * QuietEvidence :=
  let updated := snapshot.(rs_updated_unix_ms) in
  let eligible := quiet_eligible snapshot active_threshold_kbps in
  if negb eligible || negb (bool_decide (q.(q_runtime_generation) = Some snapshot.(rs_runtime_generation))) then
    (false, if eligible then quiet_from snapshot else quiet_default)
  else if is_some_and (λ last, updated <? last)%N q.(q_last_snapshot_unix_ms) then
    (false, quiet_default)
  else if is_some_and (λ last, SCHEDULER_RUNTIME_FRESHNESS_MS <? u64_saturating_sub updated last)%N
            q.(q_last_snapshot_unix_ms) then
    (false, quiet_from snapshot)
  else
    let required_ms := u64_saturating_mul required_window_s 1000 in
    let enough := is_some_and (λ first, required_ms <=? u64_saturating_sub updated first)%N
                    q.(q_first_snapshot_unix_ms) in
    if is_some_and (λ last, updated =? last)%N q.(q_last_snapshot_unix_ms) then (enough, q)
    else
      (enough, {| q_runtime_generation := q.(q_runtime_generation);
                  q_first_snapshot_unix_ms := q.(q_first_snapshot_unix_ms);
                  q_last_snapshot_unix_ms := Some updated |}).

(** ** The transactions *)

Record ScheduledReservation := {
  sr_reservation_id : string;
  sr_job_id : string;
  sr_due_unix_s : N;
  sr_traffic_budget : N;
}.

Inductive ScheduledSettlement := SettleSuccess | SettleFailed.

Definition set_cursor (c : ScheduleCursor) (s : SchedulerInstanceState) : SchedulerInstanceState :=
  {| cursor := c; budget := s.(budget); operator_warning := s.(operator_warning) |}.
Definition set_budget (b : BudgetLedger) (s : SchedulerInstanceState) : SchedulerInstanceState :=
  {| cursor := s.(cursor); budget := b; operator_warning := s.(operator_warning) |}.
Definition set_warning (w : option string) (s : SchedulerInstanceState) : SchedulerInstanceState :=
  {| cursor := s.(cursor); budget := s.(budget); operator_warning := w |}.

(** A method of the cursor or of the ledger, called on that field of [&mut state]. *)
Definition on_cursor {A} (m : M ScheduleCursor string A) : SM SchedulerInstanceState string A :=
  λ s, let '(r, c) := m s.(cursor) in Ret (r, set_cursor c s).
Definition on_budget {A} (m : M BudgetLedger string A) : SM SchedulerInstanceState string A :=
  λ s, let '(r, b) := m s.(budget) in Ret (r, set_budget b s).

Definition build_initial_scheduler_state (config : ScheduledInstanceConfig) (now_unix_s : N)
    (d m : string) (monthly_charged : N) : Res SchedulerInstanceState :=
  fail_if (now_unix_s =? 0)%N "scheduler cannot initialize from a zero wall clock" ≫= λ _,
  b ← ledger_new config.(sc_instance) d m config.(sc_daily_limit_bytes) config.(sc_monthly_limit_bytes);
  let b := set_month b.(month) monthly_charged b in
  ledger_validate b ≫= λ _,
  c ← cursor_new config.(sc_instance) now_unix_s;
  state_new c b.

Section runtime.
Context (store : SchedulerStore) (usize_max : N).
Abbreviation On S := (SM S string).
Abbreviation load_state := (SchedulerStore.load_state store usize_max).
Abbreviation persist_state := (SchedulerStore.persist_state store).

Definition load_or_initialize_state {S} (config : ScheduledInstanceConfig) (now_unix_s : N)
    (d m : string) : On S SchedulerInstanceState :=
  lift_m (fail_if (now_unix_s =? 0)%N "scheduler cannot initialize from a zero wall clock") ≫= λ _,
  existing ← load_state config.(sc_instance);
  before ← (match existing with
            | Some state => mret state
            | None => lift_m (build_initial_scheduler_state config now_unix_s d m 0)
            end);
  let '(r, b) := reconfigure_limits d m config.(sc_daily_limit_bytes) config.(sc_monthly_limit_bytes)
                   before.(budget) in
  lift_m r ≫= λ _,
  let state := set_budget b before in
  (if negb (bool_decide (state = before)) || bool_decide (existing = None)
   then persist_state state else mret tt) ≫= λ _,
  mret state.

Abbreviation State := (SM SchedulerInstanceState string).

(** [state.validate()?] *)
Definition validate_self : State unit := gets state_validate ≫= lift_m.
(** [store.persist_state(state)] *)
Definition persist_self : State unit := gets id ≫= persist_state.

Definition check_request (config : ScheduledInstanceConfig) (state : SchedulerInstanceState)
    (observation : SchedulerObservation) (request : OperationRequest) : Res unit :=
  fail_if (negb (bool_decide (request.(origin) = Scheduler)))
    "native scheduler request has an untrusted origin" ≫= λ _,
  fail_if (negb (Bool.eqb request.(scheduled_auto_apply_requested) config.(sc_auto_apply)))
    "native scheduler request Auto-Apply authority differs from committed policy" ≫= λ _,
  fail_if (negb (String.eqb request.(identity).(OperationRequest.instance) config.(sc_instance))
           || negb (String.eqb state.(cursor).(cursor_instance) config.(sc_instance))
           || negb (String.eqb request.(identity).(OperationRequest.config_fingerprint)
                      observation.(obs_generations).(ScheduleCursor.config_fingerprint))
           || negb (String.eqb request.(identity).(OperationRequest.route_fingerprint)
                      observation.(obs_generations).(ScheduleCursor.route_fingerprint)))
    "native scheduler request and observed authority differ".

Definition reserve_scheduled_request (config : ScheduledInstanceConfig)
    (observation : SchedulerObservation) (request : OperationRequest) (reservation_id d m : string)
    : State (SchedulerDecision * option ScheduledReservation) :=
  validate_self ≫= λ _,
  lift_m (request_validate request) ≫= λ _,
  state ← gets id;
  lift_m (check_request config state observation request) ≫= λ _,
  available ← lift_m (available_bytes state.(budget));
  request_budget ← lift_m (ok_or (limit_bytes request.(traffic_budget))
                             "scheduled requests require a finite traffic cap");
  decision ← lift_m (evaluate_schedule (sc_enabled config) config.(sc_interval_s) request_budget
                       available state.(cursor) observation);
  match decision with
  | Admit due traffic =>
      lift_m (fail_if (negb (traffic =? request_budget)%N)
                "live scheduled request exceeds the admitted traffic budget") ≫= λ _,
      let auth := {| fence_due_unix_s := due; interval_s := config.(sc_interval_s);
                     generations := observation.(obs_generations);
                     explicit_retry_sequence := observation.(obs_explicit_retry_sequence) |} in
      on_budget (reserve reservation_id request.(identity).(OperationRequest.job_id) d m auth traffic) ≫= λ _,
      persist_self ≫= λ _,
      mret (Admit due traffic,
            Some {| sr_reservation_id := reservation_id;
                    sr_job_id := request.(identity).(OperationRequest.job_id);
                    sr_due_unix_s := due; sr_traffic_budget := traffic |})
  | decision => mret (decision, None)
  end.

(** [state.budget.reservation.as_ref().ok_or(..)?.authority.clone()] *)
Definition reservation_authority (message : string) : State FailedAttemptFence :=
  reservation ← gets (λ state, state.(budget).(reservation));
  reservation ← lift_m (ok_or reservation message);
  mret reservation.(authority).

Definition settle_scheduled_request (reservation_id job_id d m : string)
    (completed_unix_s consumed_traffic_bytes : N) (settlement : ScheduledSettlement) : State unit :=
  auth ← reservation_authority "scheduled settlement has no durable reservation";
  on_budget (settle reservation_id job_id d m consumed_traffic_bytes) ≫= λ _,
  match settlement with
  | SettleSuccess => on_cursor (record_success auth.(interval_s) auth.(fence_due_unix_s) completed_unix_s)
  | SettleFailed => on_cursor (record_failure auth)
  end ≫= λ _,
  validate_self ≫= λ _,
  persist_self.

Definition mark_scheduled_accounting_unknown (reservation_id job_id : string) : State unit :=
  auth ← reservation_authority "unknown scheduled accounting has no durable reservation";
  on_budget (mark_accounting_unknown reservation_id job_id) ≫= λ _,
  on_cursor (record_failure auth) ≫= λ _,
  validate_self ≫= λ _,
  persist_self.

Definition acknowledge_scheduled_accounting_unknown : State N :=
  charged_bytes ← on_budget acknowledge_accounting_unknown;
  validate_self ≫= λ _,
  persist_self ≫= λ _,
  mret charged_bytes.
End runtime.
