(* ===== verification/SchedulerPoll.v ===== *)
(** * The polls of the scheduler

    Models the scheduler of [operations/coordinator.rs]: one poll reconciles the
    reservations of all instances with the jobs they were made for, then decides for each
    configured instance whether to reserve a budget and start a job. With the operator's
    acknowledgement of unknown traffic. The status table is a call. *)

From stdpp Require Import gmap.
From S2P Require Import Prelude RustStr SchedRecord ScheduleCursor BudgetLedger SchedulerState Vocabulary RustNet CapturePolicy OperationRequest ControlProtocol JobJournal Effects Binary64 SchedulerCalls SchedulerStore SchedulerRuntime.
Local Open Scope string_scope.

(** ** The state *)

Record NativeSchedulerRuntime := {
  quiet : gmap string QuietEvidence;
  errors : gmap string string;
  auto_apply_errors : gmap string string;
  auto_apply_warnings : gmap string string;
  waiting : gmap string string;
  accounting_blocks : gmap string N;
}.

Definition set_quiet (q : gmap string QuietEvidence) (s : NativeSchedulerRuntime) : NativeSchedulerRuntime :=
  {| quiet := q; errors := s.(errors); auto_apply_errors := s.(auto_apply_errors);
     auto_apply_warnings := s.(auto_apply_warnings); waiting := s.(waiting);
     accounting_blocks := s.(accounting_blocks) |}.
Definition set_errors (e : gmap string string) (s : NativeSchedulerRuntime) : NativeSchedulerRuntime :=
  {| quiet := s.(quiet); errors := e; auto_apply_errors := s.(auto_apply_errors);
     auto_apply_warnings := s.(auto_apply_warnings); waiting := s.(waiting);
     accounting_blocks := s.(accounting_blocks) |}.
Definition set_auto_apply (e w : gmap string string) (s : NativeSchedulerRuntime) : NativeSchedulerRuntime :=
  {| quiet := s.(quiet); errors := s.(errors); auto_apply_errors := e;
     auto_apply_warnings := w; waiting := s.(waiting);
     accounting_blocks := s.(accounting_blocks) |}.
Definition set_waiting (w : gmap string string) (s : NativeSchedulerRuntime) : NativeSchedulerRuntime :=
  {| quiet := s.(quiet); errors := s.(errors); auto_apply_errors := s.(auto_apply_errors);
     auto_apply_warnings := s.(auto_apply_warnings); waiting := w;
     accounting_blocks := s.(accounting_blocks) |}.
Definition set_blocks (b : gmap string N) (s : NativeSchedulerRuntime) : NativeSchedulerRuntime :=
  {| quiet := s.(quiet); errors := s.(errors); auto_apply_errors := s.(auto_apply_errors);
     auto_apply_warnings := s.(auto_apply_warnings); waiting := s.(waiting);
     accounting_blocks := b |}.

Inductive ScheduledInstancePassError := PassInstance (error : string) | PassGlobal (error : string).

(** [ScheduledInstancePassError::instance] *)
Definition pass_instance (context error : string) : ScheduledInstancePassError :=
  PassInstance (context +:+ ": " +:+ error).

(** ** What a snapshot shows *)

Definition scheduled_runtime_substantively_ready (r : RatingRuntimeSnapshot) : bool :=
  negb (r.(rs_runtime_generation) =? 0)%N
  && (String.eqb r.(rs_uplink_state) "ACTIVE" || String.eqb r.(rs_uplink_state) "STANDBY")
  && r.(rs_route_test_ready)
  && (negb r.(rs_sqm_runtime_managed) || r.(rs_sqm_runtime_healthy))
  && r.(rs_transport_probe_trusted)
  && r.(rs_baseline_ready)
  && (r.(rs_baseline_required_samples) <=? r.(rs_baseline_samples))%N
  && f64_leb (f64_of_N 100) r.(rs_cake_dl_kbps)
  && f64_leb (f64_of_N 100) r.(rs_cake_ul_kbps).

Definition scheduled_runtime_snapshot_fresh (r : RatingRuntimeSnapshot) (observed_unix_ms : N) : bool :=
  (r.(rs_updated_unix_ms) <=? observed_unix_ms)%N
  && (observed_unix_ms - r.(rs_updated_unix_ms) <=? SCHEDULER_RUNTIME_FRESHNESS_MS)%N.

Definition scheduled_runtime_and_quiet_ready (q : gmap string QuietEvidence) (inst : string)
    (r : RatingRuntimeSnapshot) (active_threshold_kbps idle_window_s observed_unix_ms : N)
    : bool * bool * gmap string QuietEvidence :=
  if negb (scheduled_runtime_substantively_ready r) then (false, false, delete inst q)
  else if negb (scheduled_runtime_snapshot_fresh r observed_unix_ms) then (false, false, q)
  else
    let '(ready, evidence) := observe (default quiet_default (q !! inst)) r active_threshold_kbps idle_window_s in
    (true, ready, <[inst := evidence]> q).

Definition u128_max : N := 2 ^ 128 - 1.
Definition u128_saturating_add (a b : N) : N := N.min (a + b) u128_max.
Definition u128_saturating_mul (a b : N) : N := N.min (a * b) u128_max.

Definition MIN_ROUTE_PROOF_BYTES : N := 64 * 1024.
Definition TRAFFIC_STOP_RESERVE_WINDOW_MS : N := 1000.
Definition TRAFFIC_STOP_RESERVE_HEADROOM_PERCENT : N := 125.
Definition TRAFFIC_STOP_RESERVE_FIXED_BYTES : N := 1024 * 1024.

Definition traffic_stop_safety_reserve_bytes (download_bound_kbps upload_bound_kbps : N) : N :=
  let aggregate := u128_saturating_add download_bound_kbps upload_bound_kbps in
  let denominator := u128_saturating_mul 8 100 in
  let variable :=
    (u128_saturating_add
       (u128_saturating_mul (u128_saturating_mul aggregate TRAFFIC_STOP_RESERVE_WINDOW_MS)
          TRAFFIC_STOP_RESERVE_HEADROOM_PERCENT)
       (denominator - 1) / denominator)%N in
  let total := u128_saturating_add variable TRAFFIC_STOP_RESERVE_FIXED_BYTES in
  if (total <=? u64_max)%N then total else u64_max.

Definition minimum_attempt_budget (direction : SpeedtestDirection) (safety_reserve_bytes : N) : N :=
  let route_proof := match direction with
                     | Both => 2 * MIN_ROUTE_PROOF_BYTES
                     | Download | Upload => MIN_ROUTE_PROOF_BYTES
                     end%N in
  u64_saturating_add safety_reserve_bytes route_proof.

Definition minimum_full_autotune_traffic_budget_bytes (download_bound_kbps upload_bound_kbps : N) : N :=
  minimum_attempt_budget Both (traffic_stop_safety_reserve_bytes download_bound_kbps upload_bound_kbps).

Definition scheduled_minimum_traffic_budget_bytes (r : RatingRuntimeSnapshot) : N :=
  minimum_full_autotune_traffic_budget_bytes (f64_ceil_u64 r.(rs_cake_dl_kbps)) (f64_ceil_u64 r.(rs_cake_ul_kbps)).

(** ** Methods on a local *)

(** A method on a local variable of a method: the local is dropped when the call fails. *)
Definition on_local {T S E A} (m : SM T E A) (t : T) : SM S E (A * T) := λ s,
  prog_bind (m t) (λ r, Ret (match r.1 with Ok a => Ok (a, r.2) | Err e => Err e end, s)).

Section poll.
Context (store : SchedulerStore) (usize_max : N).
Context (localtime : N → option Tm) (mktime : Tm → Z) (time_t_max : N).
(** [self.coordinator.generation] *)
Context (coordinator_generation : string).

Abbreviation Sched := (SM NativeSchedulerRuntime).
Abbreviation calendar := (local_calendar localtime mktime time_t_max).

(** [map_err(|error| ScheduledInstancePassError::instance(context, error))?] *)
Definition for_instance {A} (context : string) (m : Sched string A) : Sched ScheduledInstancePassError A :=
  map_err (pass_instance context) m.
Definition globally {A} (m : Sched string A) : Sched ScheduledInstancePassError A := map_err PassGlobal m.
(** A call that may fail, under [?]. *)
Definition try_call {S A} (m : SM S string (Res A)) : SM S string A := m ≫= lift_m.

Definition insert_error {E} (inst error : string) : Sched E unit :=
  update (λ s, set_errors (<[inst := error]> s.(errors)) s).
Definition remove_error {E} (inst : string) : Sched E unit :=
  update (λ s, set_errors (delete inst s.(errors)) s).
Definition insert_waiting {E} (inst reason : string) : Sched E unit :=
  update (λ s, set_waiting (<[inst := reason]> s.(waiting)) s).
Definition remove_waiting {E} (inst : string) : Sched E unit :=
  update (λ s, set_waiting (delete inst s.(waiting)) s).
Definition remove_quiet {E} (inst : string) : Sched E unit :=
  update (λ s, set_quiet (delete inst s.(quiet)) s).
Definition insert_block {E} (inst : string) (bytes : N) : Sched E unit :=
  update (λ s, set_blocks (<[inst := bytes]> s.(accounting_blocks)) s).
Definition remove_block {E} (inst : string) : Sched E unit :=
  update (λ s, set_blocks (delete inst s.(accounting_blocks)) s).

Definition live (job : ScannedJob) : bool := negb (terminal job.(sj_journal).(j_state)).
Definition is_scheduled (job : ScannedJob) : bool := bool_decide (job.(sj_request).(origin) = Scheduler).
Definition holds_job (id : string) (jobs : list ScannedJob) : bool :=
  existsb (λ job, String.eqb job.(sj_journal).(j_job_id) id) jobs.

Definition admission_available : Sched ScheduledInstancePassError bool :=
  requested ← call AdmissionRequested;
  issues ← call StartupIssues;
  jobs ← call ListJobs;
  mret (requested && bool_decide (issues = [])
        && negb (existsb (λ job, bool_decide (job.(sj_disposition) = DRecoveryRequired)
                                 || bool_decide (job.(sj_disposition) = DStaleBoot)) jobs)).

(** [let waiting = if .. else if ..] *)
Definition waiting_reason (g : SchedulerGates) : option string :=
  if negb g.(configuration_committed) then Some "configuration-pending"
  else if negb g.(recovery_clear) then Some "recovery-pending"
  else if g.(manual_job_pending) then Some "manual-job-priority"
  else if negb g.(coordinator_idle) then Some "coordinator-busy"
  else if negb g.(route_ready) then Some "route-not-ready"
  else if negb g.(runtime_ready) then Some "runtime-not-ready"
  else if negb g.(quiet_window_ready) then Some "quiet-window-pending"
  else if g.(scheduled_job_active) then Some "scheduled-job-active"
  else None.

(** ** One instance *)

(** From the attestation to the started job: the part of
    [poll_native_scheduler_instance] after the last wait. *)
Definition admit_instance (config : ScheduledInstanceConfig) (now_unix_s : N) (cal : LocalCalendar)
    (persisted : SchedulerInstanceState) (runtime : RatingRuntimeSnapshot) (gates : SchedulerGates)
    (available : N) : Sched ScheduledInstancePassError unit :=
  let inst := config.(sc_instance) in
  globally (try_call (call AttestNoCompeting)) ≫= λ _,
  intent ← for_instance "scheduled launch intent is invalid" (lift_m (launch_intent config available));
  request ← for_instance "scheduled request attestation failed"
              (try_call (call (BuildRequest intent config.(sc_auto_apply))));
  let target := request.(identity).(OperationRequest.target_interface) in
  lift_m (if negb (String.eqb target config.(sc_expected_target_interface))
          then Err (pass_instance "scheduled request target changed"
                      ("expected " +:+ config.(sc_expected_target_interface) +:+ ", observed " +:+ target))
          else Ok tt) ≫= λ _,
  let observation :=
    {| now_unix_s := now_unix_s; window_open := cal.(cal_window_open);
       next_window_open_unix_s := cal.(cal_next_window_open_unix_s);
       obs_generations :=
         {| ScheduleCursor.config_fingerprint := request.(identity).(OperationRequest.config_fingerprint);
            ScheduleCursor.route_fingerprint := request.(identity).(OperationRequest.route_fingerprint);
            runtime_sequence := runtime.(rs_runtime_generation);
            ScheduleCursor.coordinator_generation := coordinator_generation |};
       obs_explicit_retry_sequence := 0;
       gates := gates |} in
  reservation_id ← globally (try_call (call KernelRequestId));
  '((_, reservation), persisted) ←
    for_instance "durable scheduler reservation failed"
      (on_local (reserve_scheduled_request store config observation request reservation_id
                   cal.(cal_day) cal.(cal_month)) persisted);
  match reservation with
  | None => mret tt
  | Some reservation =>
      request_id ← globally (try_call (call KernelRequestId));
      let job := request.(identity).(OperationRequest.job_id) in
      let message :=
        {| control := {| request_id := request_id; command := Start; ctl_job_id := Some job;
                         ctl_job_token := Some request.(identity).(OperationRequest.job_token) |};
           message_operation := Some request |} in
      response ← call (StartJob message);
      jobs ← call ListJobs;
      if negb (holds_job job jobs) then
        for_instance "durable failed-admission settlement failed"
          (on_local (settle_scheduled_request store reservation.(sr_reservation_id) reservation.(sr_job_id)
                       cal.(cal_day) cal.(cal_month) now_unix_s 0 SettleFailed) persisted) ≫= λ _,
        insert_error inst ("scheduled coordinator admission failed: " +:+ response)
      else
        remove_quiet inst ≫= λ _, remove_waiting inst ≫= λ _, remove_error inst
  end.

(** From the runtime snapshot to the last wait. *)
Definition consider_instance (config : ScheduledInstanceConfig) (configuration_committed : bool)
    (now_unix_s : N) (cal : LocalCalendar) (persisted : SchedulerInstanceState)
    : Sched ScheduledInstancePassError unit :=
  let inst := config.(sc_instance) in
  jobs ← call ListJobs;
  let manual_job_pending := existsb (λ job, live job && negb (is_scheduled job)) jobs in
  let scheduled_job_active :=
    existsb (λ job, live job && is_scheduled job
                    && String.eqb job.(sj_request).(identity).(OperationRequest.instance) inst) jobs in
  let coordinator_idle := negb (existsb live jobs) in
  snapshot ← call (ReadRatingSnapshot inst);
  match snapshot with
  | Err error =>
      insert_error inst ("scheduled runtime snapshot is unavailable: " +:+ error) ≫= λ _,
      remove_quiet inst
  | Ok runtime =>
      let route_ready := runtime.(rs_route_test_ready) in
      observed ← globally (try_call (call EpochMs));
      q ← gets quiet;
      let '(runtime_ready, quiet_window_ready, q) :=
        scheduled_runtime_and_quiet_ready q inst runtime config.(sc_active_threshold_kbps)
          config.(sc_idle_window_s) observed in
      update (set_quiet q) ≫= λ _,
      recovery_clear ← admission_available;
      let gates :=
        {| configuration_committed := configuration_committed; recovery_clear := recovery_clear;
           manual_job_pending := manual_job_pending; coordinator_idle := coordinator_idle;
           route_ready := route_ready; runtime_ready := runtime_ready;
           quiet_window_ready := quiet_window_ready;
           accounting_healthy := negb persisted.(budget).(accounting_blocked);
           scheduled_job_active := scheduled_job_active |} in
      match waiting_reason gates with
      | Some reason => insert_waiting inst reason
      | None =>
          available ← for_instance "scheduler budget is invalid" (lift_m (available_bytes persisted.(budget)));
          if (available =? 0)%N then insert_waiting inst "budget-exhausted"
          else if (available <? scheduled_minimum_traffic_budget_bytes runtime)%N
          then insert_waiting inst "budget-insufficient"
          else admit_instance config now_unix_s cal persisted runtime gates available
      end
  end.

Definition poll_native_scheduler_instance (config : ScheduledInstanceConfig)
    (configuration_committed : bool) (now_unix_s : N) : Sched ScheduledInstancePassError unit :=
  let inst := config.(sc_instance) in
  if negb (sc_enabled config) then remove_quiet inst
  else
    cal ← for_instance "scheduler calendar failed"
            (lift_m (calendar now_unix_s config.(sc_window_start_hour) config.(sc_window_end_hour)));
    persisted ← for_instance "scheduler state load or initialization failed"
                  (load_or_initialize_state store usize_max config now_unix_s cal.(cal_day) cal.(cal_month));
    if bool_decide (is_Some persisted.(budget).(reservation)) || persisted.(budget).(accounting_blocked) then
      insert_waiting inst (if persisted.(budget).(accounting_blocked) then "accounting-unavailable"
                           else "terminal-settlement-pending")
    else
      due ← for_instance "scheduler due time is invalid"
              (lift_m (due_unix_s persisted.(cursor) config.(sc_interval_s)));
      if (now_unix_s <? due)%N || negb cal.(cal_window_open) then
        insert_waiting inst (if cal.(cal_window_open) then "not-due" else "window-closed")
      else consider_instance config configuration_committed now_unix_s cal persisted.

Fixpoint poll_native_scheduler_instances (instances : list ScheduledInstanceConfig)
    (configuration_committed : bool) (now_unix_s : N) : Sched string unit :=
  match instances with
  | [] => mret tt
  | config :: instances =>
      result ← attempt (poll_native_scheduler_instance config configuration_committed now_unix_s);
      match result with
      | Ok _ => mret tt
      | Err (PassInstance error) =>
          insert_error config.(sc_instance) error ≫= λ _,
          remove_quiet config.(sc_instance) ≫= λ _, remove_waiting config.(sc_instance)
      | Err (PassGlobal error) => raise error
      end ≫= λ _,
      poll_native_scheduler_instances instances configuration_committed now_unix_s
  end.

(** ** Settling *)

Definition exact_scheduled_terminal_traffic {S} (job : ScannedJob) (expected_job_id : string)
    : SM S string (N * ScheduledSettlement) :=
  let request := job.(sj_request) in
  lift_m (fail_if (negb (is_scheduled job)
                   || negb (String.eqb request.(identity).(OperationRequest.job_id) expected_job_id)
                   || negb (bool_decide (request.(identity).(operation) = FullAutotune)))
            "scheduled terminal job identity is not trustworthy") ≫= λ _,
  lift_m (fail_if (bool_decide (job.(sj_journal).(j_diagnostic_code) = Some "owned-traffic-accounting-failed"))
            "scheduled final traffic is unknown after coordinator accounting failure") ≫= λ _,
  worker_run_id ← lift_m (ok_or job.(sj_journal).(j_worker_run_id) "scheduled terminal has no worker run identity");
  try_call (call (NativeJobPaths expected_job_id worker_run_id)) ≫= λ _,
  record ← try_call (call (ReadTerminal expected_job_id worker_run_id));
  lift_m (fail_if (negb (String.eqb record.(at_job_id) expected_job_id)
                   || negb (String.eqb record.(at_worker_run_id) worker_run_id))
            "scheduled terminal identity changed") ≫= λ _,
  lift_m (fail_if (terminal_traffic_is_unknown record.(at_terminal))
            "scheduled final traffic is unknown after an accounting failure") ≫= λ _,
  consumed ← try_call (call (VerifyConsumed expected_job_id worker_run_id record.(at_consumed_traffic_bytes)));
  let settlement :=
    match record.(at_terminal), job.(sj_journal).(j_state) with
    | TComplete _, (ReviewReady | Completed) => SettleSuccess
    | _, _ => SettleFailed
    end in
  mret (consumed, settlement).

Definition scheduled_auto_apply_with_prior_guard (job : ScannedJob) (id : string)
    : Sched string NativeScheduledAutoApplyOutcome :=
  let request := job.(sj_request) in
  (if request.(scheduled_auto_apply_requested) && request.(traffic_policy_explicit)
   then try_call (call (PriorThroughputDecline id)) else mret false) ≫= λ declined : bool,
  if declined then mret PriorThroughputReviewRequired else try_call (call (ExecuteAutoApply id)).

Definition auto_apply (job : ScannedJob) (id : string) : Sched string NativeScheduledAutoApplyOutcome :=
  if job.(sj_journal).(j_history_decision_required) && job.(sj_request).(scheduled_auto_apply_requested) then
    result ← try_call (call (PublicResult id));
    try_call (call (HistoryDecisionBlocked id result)) ≫= λ blocked : bool,
    if blocked then mret PriorThroughputReviewRequired else try_call (call (ExecuteAutoApply id))
  else scheduled_auto_apply_with_prior_guard job id.

Definition REVIEW_REQUIRED_WARNING : string :=
  "scheduled Auto-Apply skipped: the preferred result requires explicit Review or changes SQM direction ownership".
Definition PRIOR_REVIEW_WARNING : string :=
  "scheduled Auto-Apply skipped: raw throughput fell below 50% of a verified previous same-route result; inspect the link and test sources before applying".

(** The outcome of the Auto-Apply: what becomes of the operator warning, and the error. *)
Definition note_auto_apply (inst id : string) (outcome : Res NativeScheduledAutoApplyOutcome)
    : Sched string (option string * option string) :=
  match outcome with
  | Ok (NotRequested | Applied _) =>
      update (λ s, set_auto_apply (delete inst s.(auto_apply_errors)) (delete inst s.(auto_apply_warnings)) s)
        ≫= λ _, mret (None, None)
  | Ok ReviewRequired =>
      update (λ s, set_auto_apply (delete inst s.(auto_apply_errors))
                     (<[inst := REVIEW_REQUIRED_WARNING]> s.(auto_apply_warnings)) s)
        ≫= λ _, mret (Some REVIEW_REQUIRED_WARNING, None)
  | Ok PriorThroughputReviewRequired =>
      update (λ s, set_auto_apply (delete inst s.(auto_apply_errors))
                     (<[inst := PRIOR_REVIEW_WARNING]> s.(auto_apply_warnings)) s)
        ≫= λ _, mret (Some PRIOR_REVIEW_WARNING, None)
  | Err error =>
      let message := "scheduled Auto-Apply failed: " +:+ error in
      update (λ s, set_auto_apply (<[inst := message]> s.(auto_apply_errors))
                     (delete inst s.(auto_apply_warnings)) s) ≫= λ _,
      marker ← call ApplyMarkerPresent;
      match marker return Sched string unit with
      | Ok false => mret tt
      | Ok true => call (PushStartupIssue ("native Apply recovery remains pending after scheduled job " +:+ id))
      | Err marker_error => call (PushStartupIssue marker_error)
      end ≫= λ _,
      mret (None, Some message)
  end.

(** The exact traffic of the job is known: Auto-Apply, then settle. *)
Definition settle_instance (inst : string) (job : ScannedJob) (r : BudgetReservation)
    (now_unix_s : N) (d m : string) (consumed : N) (settlement : ScheduledSettlement)
    (persisted : SchedulerInstanceState) : Sched string unit :=
  '(warning, auto_apply_error) ←
    match settlement with
    | SettleSuccess =>
        outcome ← attempt (auto_apply job r.(BudgetLedger.job_id));
        note_auto_apply inst r.(BudgetLedger.job_id) outcome
    | SettleFailed => mret (None, None)
    end;
  on_local (settle_scheduled_request store r.(reservation_id) r.(BudgetLedger.job_id) d m now_unix_s consumed settlement)
    (set_warning warning persisted) ≫= λ _,
  match auto_apply_error with
  | Some error => insert_error inst error
  | None => remove_error inst
  end ≫= λ _,
  remove_block inst.

(** [jobs.iter().position(|job| job.journal.job_id == id)] *)
Definition find_job (id : string) (jobs : list ScannedJob) : option ScannedJob :=
  List.find (λ job, String.eqb job.(sj_journal).(j_job_id) id) jobs.

Definition mark_unknown (r : BudgetReservation) (persisted : SchedulerInstanceState) : Sched string unit :=
  on_local (mark_scheduled_accounting_unknown store r.(reservation_id) r.(BudgetLedger.job_id)) persisted ≫= λ _, mret tt.

(** The instance has a reservation: look at its job. *)
Definition reconcile_reserved (inst : string) (now_unix_s : N) (d m : string) (r : BudgetReservation)
    (persisted : SchedulerInstanceState) : Sched string unit :=
  let blocked := persisted.(budget).(accounting_blocked) in
  jobs ← call ListJobs;
  match find_job r.(BudgetLedger.job_id) jobs with
  | None =>
      (if negb blocked then mark_unknown r persisted ≫= λ _, insert_block inst r.(reserved_bytes)
       else mret tt) ≫= λ _,
      insert_error inst "reserved scheduled job is absent; full reservation retained"
  | Some job =>
      if live job then
        if blocked then
          insert_error inst
            "scheduled traffic accounting remains blocked until exact terminal evidence is available"
        else mret tt
      else
        evidence ← attempt (exact_scheduled_terminal_traffic job r.(BudgetLedger.job_id));
        match evidence with
        | Ok (consumed, settlement) =>
            settle_instance inst job r now_unix_s d m consumed settlement persisted
        | Err error =>
            (if negb blocked then mark_unknown r persisted else mret tt) ≫= λ _,
            insert_error inst error
        end
  end.

Definition reconcile_native_scheduler_reservation (inst : string) (now_unix_s : N) (d m : string)
    : Sched string unit :=
  loaded ← load_state store usize_max inst;
  persisted ← lift_m (ok_or loaded ("native scheduler instance " +:+ inst +:+ " disappeared during enumeration"));
  match persisted.(budget).(reservation) with
  | None => mret tt
  | Some r =>
      (if persisted.(budget).(accounting_blocked) then insert_block inst r.(reserved_bytes) else mret tt) ≫= λ _,
      reconcile_reserved inst now_unix_s d m r persisted
  end.

Fixpoint reconcile_instances (instances : list string) (now_unix_s : N) (d m : string) : Sched string unit :=
  match instances with
  | [] => mret tt
  | inst :: instances =>
      result ← attempt (reconcile_native_scheduler_reservation inst now_unix_s d m);
      match result with
      | Ok _ => mret tt
      | Err error => insert_error inst ("scheduled reservation reconciliation failed: " +:+ error)
      end ≫= λ _,
      reconcile_instances instances now_unix_s d m
  end.

Definition reconcile_native_scheduler_reservations (now_unix_s : N) (d m : string) : Sched string unit :=
  instances ← store_instances store;
  reconcile_instances instances now_unix_s d m.

(** ** A poll *)

(** What the configuration leaves of the errors of earlier polls. *)
Definition retain_auto_apply (snapshot : SchedulerConfigSnapshot) (s : NativeSchedulerRuntime)
    : NativeSchedulerRuntime :=
  let instances :=
    sc_instance <$> List.filter (λ c, sc_enabled c && c.(sc_auto_apply)) snapshot.(cs_instances) in
  let errs := filter (λ p, p.1 ∈ instances) s.(auto_apply_errors) in
  let s := set_auto_apply errs (filter (λ p, p.1 ∈ instances) s.(auto_apply_warnings)) s in
  set_errors (foldl (λ e i, <[i.(ci_instance) := i.(ci_message)]> e) (s.(errors) ∪ errs)
                snapshot.(cs_issues)) s.

Definition poll_native_scheduler_inner : Sched string unit :=
  update (λ s, set_blocks ∅ (set_waiting ∅ (set_errors ∅ s))) ≫= λ _,
  now_unix_ms ← try_call (call EpochMs);
  let now_unix_s := (now_unix_ms / 1000)%N in
  lift_m (require_plausible_wall_clock now_unix_s) ≫= λ _,
  cal ← lift_m (calendar now_unix_s 0 0);
  reconcile_native_scheduler_reservations now_unix_s cal.(cal_day) cal.(cal_month) ≫= λ _,
  '(configuration_committed, snapshot) ← try_call (call ReadPolicy);
  update (retain_auto_apply snapshot) ≫= λ _,
  poll_native_scheduler_instances snapshot.(cs_instances) configuration_committed now_unix_s ≫= λ _,
  try_call (call PublishStatus).

Definition poll_native_scheduler : Sched string unit :=
  result ← attempt poll_native_scheduler_inner;
  match result with
  | Ok _ => mret tt
  | Err error => insert_error "_global" error
  end.

(** ** Acknowledging unknown traffic *)

(** The response, and whether the state changed. *)
Inductive AcknowledgementResponse :=
  | AckRefused (error_code error : string)
  | AckAcknowledged (inst : string) (charged_bytes : N).

(** The traffic of the reserved job can still be measured. *)
Definition still_recoverable (r : BudgetReservation) (jobs : list ScannedJob)
    : Sched string (option string) :=
  match find_job r.(BudgetLedger.job_id) jobs with
  | None => mret None
  | Some job =>
      if live job then
        mret (Some "the reserved scheduled job is still live; refusing to discard its exact accounting path")
      else
        evidence ← attempt (exact_scheduled_terminal_traffic job r.(BudgetLedger.job_id));
        mret (match evidence with
              | Ok _ => Some "exact terminal traffic evidence is available; scheduler settlement must consume it"
              | Err _ => None
              end)
  end.

(** The end of an accepted acknowledgement. *)
Definition write_off (inst : string) (state : SchedulerInstanceState) : Sched string AcknowledgementResponse :=
  charged ← attempt (E' := string) (on_local (acknowledge_scheduled_accounting_unknown store) state);
  match charged with
  | Err error => mret (AckRefused "scheduler-accounting-not-blocked" error)
  | Ok (charged_bytes, _) =>
      remove_error inst ≫= λ _, remove_waiting inst ≫= λ _, remove_block inst ≫= λ _,
      mret (AckAcknowledged inst charged_bytes)
  end.

Definition handle_scheduler_accounting_acknowledgement (inst : string)
    : Sched string AcknowledgementResponse :=
  loaded ← attempt (E' := string) (load_state store usize_max inst);
  match loaded with
  | Err error => mret (AckRefused "scheduler-state-invalid" error)
  | Ok None => mret (AckRefused "scheduler-instance-not-found" "native scheduler has no durable state for this instance")
  | Ok (Some state) =>
      if negb state.(budget).(accounting_blocked) then
        mret (AckRefused "scheduler-accounting-not-blocked" "scheduler traffic accounting is not blocked")
      else
        match state.(budget).(reservation) with
        | None => mret (AckRefused "scheduler-state-invalid" "blocked scheduler accounting has no reservation")
        | Some r =>
            jobs ← call ListJobs;
            recoverable ← still_recoverable r jobs;
            match recoverable with
            | Some message => mret (AckRefused "scheduler-accounting-recoverable" message)
            | None =>
                write_off inst state
            end
        end
  end.
End poll.
