(* ===== verification/SchedulerRecords.v ===== *)
(** * The records of the scheduler

    The names of the entries of the store determine what they are, and every state the
    scheduler reads, makes or changes fits its widths, so that it can be read back. *)

From stdpp Require Import strings.
From S2P Require Import Prelude RustStr SchedRecord ScheduleCursor BudgetLedger SchedulerState Vocabulary RustNet CapturePolicy OperationRequest ControlProtocol JobJournal Effects Binary64 SchedulerCalls SchedulerStore SchedulerRuntime.
Local Open Scope string_scope.

(** ** Names *)

Lemma strip_suffix_append suffix s : strip_suffix suffix (s +:+ suffix) = Some s.
Proof.
  induction s as [| c s IH]; cbn -[String.eqb].
  - destruct suffix; cbn [strip_suffix]; by rewrite String.eqb_refl.
  - destruct (String.eqb_spec (String c (s +:+ suffix)) suffix) as [E | _]; [| by rewrite IH].
    apply (f_equal String.length) in E. cbn in E. rewrite length_append in E. lia.
Qed.

Lemma strip_suffix_inv suffix s r : strip_suffix suffix s = Some r → s = r +:+ suffix.
Proof.
  revert r. induction s as [| c s IH]; intros r; cbn [strip_suffix].
  - destruct (String.eqb_spec "" suffix) as [<- | _]; [by intros [= <-] | done].
  - destruct (String.eqb_spec (String c s) suffix) as [<- | _]; [by intros [= <-] |].
    destruct (strip_suffix suffix s) as [q |]; [| done]. intros [= <-]. cbn. by rewrite (IH q).
Qed.

Lemma record_instance_name inst : record_instance (record_name STATE_PREFIX inst) STATE_PREFIX = Some inst.
Proof. unfold record_instance, record_name. rewrite strip_prefix_app. apply strip_suffix_append. Qed.

#[global] Arguments record_name : simpl never.

Lemma record_name_inj inst inst' : record_name STATE_PREFIX inst = record_name STATE_PREFIX inst' → inst = inst'.
Proof. intros H. pose proof (record_instance_name inst) as E. rewrite H, record_instance_name in E. congruence. Qed.

Lemma temp_not_record kind process sequence : record_instance (temp_name kind process sequence) STATE_PREFIX = None.
Proof. done. Qed.

Lemma show_decimal n : decimal_field (show n) = true.
Proof.
  unfold decimal_field. pose proof (show_digits n) as Hd. pose proof (show_nonempty n) as Hn.
  by rewrite Hd, Hn.
Qed.

Lemma split_on_append c a b : contains c a = false → split_on c (a +:+ String c b) = a :: split_on c b.
Proof.
  induction a as [| x a IH]; cbn [append split_on]; [by rewrite Ascii.eqb_refl |].
  rewrite contains_cons, (Ascii.eqb_sym c x). intros [-> Ha]%orb_false_iff. by rewrite IH.
Qed.
Lemma split_on_single c a : contains c a = false → split_on c a = [a].
Proof.
  induction a as [| x a IH]; cbn [split_on]; [done |].
  rewrite contains_cons, (Ascii.eqb_sym c x). intros [-> Ha]%orb_false_iff. by rewrite IH.
Qed.

Lemma temp_name_exact process sequence : is_exact_temp_name (temp_name "state" process sequence) = true.
Proof.
  unfold is_exact_temp_name, temp_name. rewrite strip_prefix_app. cbn [mbind option_bind].
  replace ("state" +:+ "." +:+ show process +:+ "." +:+ show sequence +:+ TEMP_SUFFIX)
    with (("state" +:+ String "." (show process +:+ String "." (show sequence))) +:+ TEMP_SUFFIX)
    by (by rewrite !append_assoc; cbn; rewrite !append_assoc).
  rewrite strip_suffix_append, split_on_append by done.
  rewrite split_on_append, split_on_single by (by apply show_contains). cbn [String.eqb Ascii.eqb].
  by rewrite !show_decimal.
Qed.

(** ** Widths *)

Definition event_typed (e : ledger_event) : Prop :=
  match e with Reserved _ _ _ _ auth bytes => fence_typed auth | _ => True end.

Lemma valid_ledger_typed l :
  ledger_validate l = Ok tt → is_u64 l.(sequence) → (∀ r, l.(reservation) = Some r → fence_typed r.(authority)) →
  ledger_typed l.
Proof.
  intros (_ & _ & _ & H1 & H2 & H3 & H4 & _ & _ & Hr)%ledger_validate_ok Hs Hf.
  assert (Hm : (MAX_EXACT_BYTES ≤ u64_max)%N) by done.
  split_and!; unfold is_u64; try done; try lia.
  intros r E. split; [| by apply Hf]. apply Hr in E as (Hv & _).
  unfold reservation_validate, validate_accounted_bytes in Hv. unbind. reflect_bools. unfold is_u64. lia.
Qed.

Lemma commit_typed next l u l' :
  commit next l = (Ok u, l') → (∀ r, next.(reservation) = Some r → fence_typed r.(authority)) → ledger_typed l'.
Proof. intros (-> & Hs & Hv)%commit_ok Hf. by apply valid_ledger_typed. Qed.

Lemma typed_fence l r : ledger_typed l → l.(reservation) = Some r → fence_typed r.(authority).
Proof. intros (_ & _ & _ & _ & _ & H) E. by apply H. Qed.

Lemma roll_typed d m l u l' : roll_period d m l = (Ok u, l') → ledger_typed l → ledger_typed l'.
Proof.
  unfold roll_period. intros H Ht. unbind.
  match goal with H : (if ?b then _ else _) _ = _ |- _ => destruct b end; [by unbind |].
  eapply commit_typed; [done |]. intros r E. apply (typed_fence l); [done |].
  by repeat case_match.
Qed.

Lemma apply_typed e l l' : ledger_apply e l = (Ok tt, l') → event_typed e → ledger_typed l → ledger_typed l'.
Proof.
  intros H He Ht. destruct e; cbn in H, He.
  - by eapply roll_typed.
  - unfold reconfigure_limits in H. unbind.
    match goal with H : roll_period _ _ _ = _ |- _ => apply roll_typed in H; [| done] end.
    match goal with H : (if ?b then _ else _) _ = _ |- _ => destruct b end; [by injection H as <- |].
    eapply commit_typed; [done |]. intros r E. by eapply (typed_fence a4).
  - unfold reserve in H. unbind. eapply commit_typed; [done |]. by intros r [= <-].
  - unfold settle in H. unbind. by eapply commit_typed.
  - unfold mark_accounting_unknown in H. unbind. eapply commit_typed; [done |].
    intros r E. by eapply typed_fence.
  - unfold acknowledge_accounting_unknown in H. unbind. subst. by eapply commit_typed.
Qed.

Lemma new_ledger_typed inst d m daily monthly l : ledger_new inst d m daily monthly = Ok l → ledger_typed l.
Proof.
  unfold ledger_new. intros H. unbind. destruct a. subst. apply valid_ledger_typed; [done | by vm_compute | done].
Qed.

Lemma failure_typed f c u c' : record_failure f c = (Ok u, c') → fence_typed f → cursor_typed c → cursor_typed c'.
Proof. intros (_ & _ & -> & Hs & _)%record_failure_ok Hf (_ & H1 & H2 & _). split_and!; cbn; try done. by intros ? [= <-]. Qed.

Lemma success_typed i d t c u c' : record_success i d t c = (Ok u, c') → is_u64 t → cursor_typed c → cursor_typed c'.
Proof. intros (_ & _ & _ & -> & Hs & _)%record_success_ok Ht (_ & H1 & _). split_and!; cbn; try done. by intros ? [= <-]. Qed.

Lemma new_cursor_typed inst due c : cursor_new inst due = Ok c → is_u64 due → cursor_typed c.
Proof. unfold cursor_new. intros H Hd. unbind. by subst. Qed.

Lemma due_typed c interval due : due_unix_s c interval = Ok due → cursor_typed c → is_u64 due.
Proof.
  intros [_ H]%due_unix_s_ok (_ & Hi & Hl & _). destruct (last_success_unix_s c) as [last |]; [| by subst].
  destruct H as [Hs ->]. unfold is_u64 in *. lia.
Qed.

Lemma from_utf8_valid text e t : from_utf8 text e = Ok t → utf8_valid t = true.
Proof. unfold from_utf8. intros H. unbind. subst. by reflect_bools. Qed.

Lemma new_state_fields c b s :
  state_new c b = Ok s → s = {| cursor := c; budget := b; operator_warning := None |}.
Proof. unfold state_new. intros H. by unbind. Qed.

Lemma decoded_typed usize_max text s : state_decode usize_max text = Ok s → state_typed s.
Proof.
  unfold state_decode. intros H. unbind. subst.
  match goal with H : state_decode_payload _ _ _ _ _ = _ |- _ => rename H into Hp end.
  unfold state_decode_payload in Hp. unbind.
  destruct (split_at _ _) as [c_text remainder]. destruct (split_at _ remainder) as [b_text w]. unbind.
  subst. repeat match goal with H : state_new _ _ = _ |- _ => apply new_state_fields in H; subst end. cbn.
  split_and!; cbn.
  - by eapply cursor_decode_canonical.
  - by eapply ledger_decode_canonical.
  - intros v E. subst. destruct (String.eqb w ""); [done |].
    match goal with H : (from_utf8 w _ ≫= _) = _ |- _ => apply bind_ok_inv in H as (v' & Hv & H) end.
    simplify_eq. by eapply from_utf8_valid.
Qed.
