(* ===== verification/SchedulerSafety.v ===== *)
(** * The contract of the scheduler's store

    The environment of the scheduler: the entries of its directory, what a power loss
    could leave of each record, the jobs of the coordinator, and two histories that only
    the statements use: which jobs were started for which budget, and whose traffic was
    measured exactly or acknowledged. A record is replaced only by a complete, synced one
    that follows from it by one step of the ledger, and a job is started only when its
    whole budget is reserved in every copy a power loss could leave. *)

From stdpp Require Import gmap.
From S2P Require Import Prelude RustStr SchedRecord ScheduleCursor BudgetLedger SchedulerState Vocabulary RustNet CapturePolicy OperationRequest ControlProtocol JobJournal Effects Binary64 SchedulerCalls SchedulerStore SchedulerRuntime SchedulerPoll SchedulerRecords.
Local Open Scope string_scope.

(** ** The world *)

Record SchedWorld := {
  (** the visible entries, and whether their contents are on the disk *)
  sw_files : gmap string (string * bool);
  (** what a power loss could leave of an entry *)
  sw_crash : string → list (option string);
  (** the jobs the coordinator holds *)
  sw_jobs : list ScannedJob;
  (** the instance and the budget of every job that was started *)
  sw_started : gmap string (string * N);
  (** the jobs whose exact traffic was measured, with the bytes *)
  sw_verified : list (string * N);
  (** the jobs whose unknown traffic the operator acknowledged *)
  sw_acknowledged : list string;
}.

Definition set_files (f : gmap string (string * bool)) (w : SchedWorld) : SchedWorld :=
  {| sw_files := f; sw_crash := w.(sw_crash); sw_jobs := w.(sw_jobs); sw_started := w.(sw_started);
     sw_verified := w.(sw_verified); sw_acknowledged := w.(sw_acknowledged) |}.
Definition set_crash (c : string → list (option string)) (w : SchedWorld) : SchedWorld :=
  {| sw_files := w.(sw_files); sw_crash := c; sw_jobs := w.(sw_jobs); sw_started := w.(sw_started);
     sw_verified := w.(sw_verified); sw_acknowledged := w.(sw_acknowledged) |}.
Definition set_jobs (jobs : list ScannedJob) (started : gmap string (string * N)) (w : SchedWorld) : SchedWorld :=
  {| sw_files := w.(sw_files); sw_crash := w.(sw_crash); sw_jobs := jobs; sw_started := started;
     sw_verified := w.(sw_verified); sw_acknowledged := w.(sw_acknowledged) |}.
Definition set_verified (v : list (string * N)) (w : SchedWorld) : SchedWorld :=
  {| sw_files := w.(sw_files); sw_crash := w.(sw_crash); sw_jobs := w.(sw_jobs); sw_started := w.(sw_started);
     sw_verified := v; sw_acknowledged := w.(sw_acknowledged) |}.

(** The record of an instance. *)
Abbreviation record_of := (record_name STATE_PREFIX).

(** Every content an entry has or could have after a power loss. *)
Definition contents (w : SchedWorld) (name : string) : list (option string) :=
  (fst <$> w.(sw_files) !! name) :: w.(sw_crash) name.

(** What [start_job] starts: the job, its instance and the cap of its traffic. *)
Definition admission (message : ControlMessage) : option (string * string * N) :=
  request ← message.(message_operation);
  cap ← limit_bytes request.(traffic_budget);
  Some (request.(identity).(OperationRequest.job_id), request.(identity).(OperationRequest.instance), cap).

Definition config_typed (c : ScheduledInstanceConfig) : Prop := is_u64 c.(sc_interval_s).

(** Answers and next worlds. A call that fails has changed nothing the store relies on; a
    write that fails may have left anything in the temporary file, and a rename is
    certainly on the disk only once the directory was synced. The job id of a new request
    is fresh, and a job the coordinator accepted is one it holds. *)
Definition sched_step (w : SchedWorld) (c : SchedulerCall) : sched_answer c → SchedWorld → Prop :=
  match c with
  | InspectEntry n => λ (x : EntryInspection) w', w' = w ∧ (x = NoSuchEntry → w.(sw_files) !! n = None)
  | ReadEntry n => λ (x : Res string) w', w' = w ∧ ∀ t, x = Ok t → fst <$> w.(sw_files) !! n = Some t
  | CreateEntry n => λ (x : Res unit) w',
      w' = if is_ok x then set_files (<[n := ("", false)]> w.(sw_files)) w else w
  | WriteEntry n t => λ (x : Res unit) w',
      if is_ok x then w' = set_files (<[n := (t, false)]> w.(sw_files)) w
      else ∃ partial, w' = set_files (<[n := (partial, false)]> w.(sw_files)) w
  | SyncEntry n => λ (x : Res unit) w',
      w' = if is_ok x then set_files (alter (λ p, (p.1, true)) n w.(sw_files)) w else w
  | RenameEntry a b => λ (x : Res unit) w',
      if is_ok x then
        ∃ p, w.(sw_files) !! a = Some p
        ∧ w' = set_crash (λ n, if String.eqb n b then Some p.1 :: w.(sw_crash) n else w.(sw_crash) n)
                 (set_files (<[b := p]> (delete a w.(sw_files))) w)
      else w' = w
  | SyncRoot => λ (x : Res unit) w',
      w' = if is_ok x then
             set_crash (λ n, match w.(sw_files) !! n with
                             | Some (t, true) => [Some t]
                             | Some (_, false) => w.(sw_crash) n
                             | None => [None]
                             end) w
           else w
  | RemoveEntry n => λ (x : Res unit) w',
      w' = if is_ok x then set_files (delete n w.(sw_files)) w else w
  | EpochMs => λ (x : Res N) w', w' = w ∧ ∀ n, x = Ok n → is_u64 n
  | ReadPolicy => λ (x : Res (bool * SchedulerConfigSnapshot)) w',
      w' = w ∧ ∀ b s, x = Ok (b, s) → Forall config_typed s.(cs_instances)
  | ListJobs => λ (x : list ScannedJob) w', w' = w ∧ x = w.(sw_jobs)
  | ReadRatingSnapshot _ => λ (x : Res RatingRuntimeSnapshot) w',
      w' = w ∧ ∀ r, x = Ok r → is_u64 r.(rs_runtime_generation)
  | BuildRequest _ _ => λ (x : Res OperationRequest) w',
      w' = w ∧ ∀ r, x = Ok r → w.(sw_started) !! r.(identity).(OperationRequest.job_id) = None
  | StartJob message => λ _ w',
      w' = w
      ∨ ∃ job inst cap jobs, admission message = Some (job, inst, cap) ∧ holds_job job jobs = true
        ∧ w' = set_jobs jobs (<[job := (inst, cap)]> w.(sw_started)) w
  | VerifyConsumed job _ _ => λ (x : Res N) w',
      w' = match x with Ok n => set_verified ((job, n) :: w.(sw_verified)) w | Err _ => w end
  | _ => λ _ w', w' = w
  end.

(** ** Where a call may be made *)

Section contract.
Context (usize_max : N).
Hypothesis usize_bound : (MAX_RECORD_BYTES ≤ usize_max ≤ u64_max)%N.
Abbreviation decode := (state_decode usize_max).

(** A content is a readable record with a state of [P]. *)
Definition reads_as (P : SchedulerInstanceState → Prop) (o : option string) : Prop :=
  ∃ t s, o = Some t ∧ decode t = Ok s ∧ P s.

Definition visible (w : SchedWorld) (inst : string) (s : SchedulerInstanceState) : Prop :=
  reads_as (λ s', s' = s) (fst <$> w.(sw_files) !! record_of inst).

(** The whole budget of a job is reserved. *)
Definition reserves (job : string) (cap : N) (s : SchedulerInstanceState) : Prop :=
  ∃ r, s.(budget).(reservation) = Some r ∧ r.(BudgetLedger.job_id) = job ∧ r.(reserved_bytes) = cap.

Definition reserved_everywhere (w : SchedWorld) (inst job : string) (cap : N) : Prop :=
  Forall (reads_as (reserves job cap)) (contents w (record_of inst)).

(** A reservation may go when the exact traffic of its job was measured, when the job was
    never started, which costs nothing, or when the operator acknowledged it. *)
Definition justified (w : SchedWorld) (old : BudgetLedger) (e : ledger_event) : Prop :=
  match e with
  | Settled _ job _ _ consumed =>
      (job, consumed) ∈ w.(sw_verified) ∨ consumed = 0%N ∧ w.(sw_started) !! job = None
  | Acknowledged => ∀ r, old.(reservation) = Some r → r.(BudgetLedger.job_id) ∈ w.(sw_acknowledged)
  | _ => True
  end.

(** The new state of a record: a fresh ledger of an instance without a record, or one step
    of the visible ledger. *)
Definition record_step (w : SchedWorld) (s : SchedulerInstanceState) : Prop :=
  let inst := s.(cursor).(cursor_instance) in
  (w.(sw_files) !! record_of inst = None ∧ s.(budget).(reservation) = None ∧ ledger_reaches [] s.(budget))
  ∨ ∃ old e, visible w inst old ∧ justified w old.(budget) e
      ∧ ledger_apply e old.(budget) = (Ok tt, s.(budget)).

Definition sched_pre (w : SchedWorld) (c : SchedulerCall) : Prop :=
  match c with
  | CreateEntry n | WriteEntry n _ | SyncEntry n | RemoveEntry n => record_instance n STATE_PREFIX = None
  | RenameEntry a b =>
      record_instance a STATE_PREFIX = None
      ∧ ∃ t s, w.(sw_files) !! a = Some (t, true) ∧ decode t = Ok s
          ∧ b = record_of s.(cursor).(cursor_instance) ∧ record_step w s
  | StartJob message =>
      ∃ job inst cap, admission message = Some (job, inst, cap)
        ∧ w.(sw_started) !! job = None ∧ reserved_everywhere w inst job cap
  | _ => True
  end.

(** ** The invariant *)

(** A content is no record yet, or one with a ledger that stands for an account book. *)
Definition good_content (o : option string) : Prop :=
  o = None ∨ reads_as (λ s, ∃ book, ledger_reaches book s.(budget)) o.

(** A started job is accounted for: its traffic was measured or acknowledged, or its whole
    budget is reserved in every copy. *)
Definition accounted (w : SchedWorld) (job inst : string) (cap : N) : Prop :=
  job ∈ w.(sw_verified).*1 ∨ job ∈ w.(sw_acknowledged) ∨ reserved_everywhere w inst job cap.

Record world_ok (w : SchedWorld) : Prop := {
  ok_synced : ∀ inst p, w.(sw_files) !! record_of inst = Some p → p.2 = true;
  ok_contents : ∀ inst, Forall good_content (contents w (record_of inst));
  ok_accounted : ∀ job inst cap, w.(sw_started) !! job = Some (inst, cap) → accounted w job inst cap;
}.

(** ** The invariant is kept *)

Lemma reads_as_mono (P Q : SchedulerInstanceState → Prop) o :
  reads_as P o → (∀ s, P s → Q s) → reads_as Q o.
Proof. intros (t & s & E & Hd & Hp) HQ. exists t, s. auto. Qed.

(** Fewer possible contents, and no started job forgotten. *)
Lemma world_ok_sub w w' :
  world_ok w → w'.(sw_started) = w.(sw_started) →
  w.(sw_verified) ⊆ w'.(sw_verified) → w.(sw_acknowledged) ⊆ w'.(sw_acknowledged) →
  (∀ inst p, w'.(sw_files) !! record_of inst = Some p → p.2 = true) →
  (∀ inst, contents w' (record_of inst) ⊆ contents w (record_of inst)) →
  world_ok w'.
Proof.
  intros [Hs Hc Ha] Est Hv Hk Hs' Hsub. split; [done | |].
  - intros inst. apply Forall_forall. intros o Ho. eapply Forall_forall; [apply Hc |]. by apply Hsub.
  - intros job inst cap E. rewrite Est in E. destruct (Ha job inst cap E) as [H | [H | H]].
    + left. apply list_elem_of_fmap in H as (p & -> & Hp). apply list_elem_of_fmap. exists p. auto.
    + right; left. auto.
    + right; right. apply Forall_forall. intros o Ho. eapply Forall_forall; [apply H |]. by apply Hsub.
Qed.

(** Entries that are not records do not matter. *)
Lemma world_ok_files w f :
  world_ok w → (∀ inst, f !! record_of inst = w.(sw_files) !! record_of inst) → world_ok (set_files f w).
Proof.
  intros Hw E. apply (world_ok_sub w); try done.
  - intros inst p. cbn. rewrite E. by apply Hw.
  - intros inst. unfold contents. cbn. by rewrite E.
Qed.

Lemma not_record_ne n inst : record_instance n STATE_PREFIX = None → n ≠ record_of inst.
Proof. intros H ->. by rewrite record_instance_name in H. Qed.

(** What an event leaves of a reservation. *)
Lemma event_keeps_reservation w old e new job cap r :
  ledger_apply e old = (Ok tt, new) → justified w old e →
  old.(reservation) = Some r → r.(BudgetLedger.job_id) = job → r.(reserved_bytes) = cap →
  is_Some (w.(sw_started) !! job) →
  new.(reservation) = Some r ∨ job ∈ w.(sw_verified).*1 ∨ job ∈ w.(sw_acknowledged).
Proof.
  intros H Hj Er Ejob Ecap Hst. destruct e; cbn in H, Hj.
  - apply roll_period_ok in H as (_ & _ & _ & _ & _ & _ & _ & _ & -> & _). by left.
  - apply reconfigure_limits_ok in H as (n & Hn & _ & Hl & _).
    apply roll_period_ok in Hn as (_ & _ & _ & _ & _ & _ & _ & _ & En & _).
    left. destruct Hl as [-> | ->]; cbn; congruence.
  - apply reserve_ok in H as (n & Hn & _ & En & _).
    apply roll_period_ok in Hn as (_ & _ & _ & _ & _ & _ & _ & _ & En' & _). congruence.
  - apply settle_ok in H as (n & r' & _ & Er' & _ & Ej & _). simplify_eq.
    destruct Hj as [Hj | [_ Hn]]; [| by rewrite Hn in Hst; destruct Hst].
    right; left. apply list_elem_of_fmap. by exists (r'.(BudgetLedger.job_id), consumed).
  - apply mark_unknown_ok in H as (r' & Er' & _ & _ & -> & _). left. done.
  - right; right. rewrite <- Ejob. by apply Hj.
Qed.

(** The ledger of a record that may be written stands for an account book. *)
Lemma record_step_reaches w s :
  world_ok w → record_step w s → ∃ book, ledger_reaches book s.(budget).
Proof.
  intros Hw [(_ & _ & H) | (old & e & (t & s' & Ho & Hd & ->) & _ & He)]; [by eexists |].
  pose proof (ok_contents w Hw s.(cursor).(cursor_instance)) as Hc. apply Forall_cons in Hc as [Hc _].
  rewrite Ho in Hc. destruct Hc as [? | (t' & s' & ? & Hd' & book & Hb)]; [done |]. simplify_eq.
  assert (s' = old) as -> by congruence. eexists. by eapply ledger_step.
Qed.

Lemma rename_ok w a b t s p :
  world_ok w → record_instance a STATE_PREFIX = None →
  w.(sw_files) !! a = Some (t, true) → decode t = Ok s → b = record_of s.(cursor).(cursor_instance) →
  record_step w s → p = (t, true) →
  world_ok (set_crash (λ n, if String.eqb n b then Some t :: w.(sw_crash) n else w.(sw_crash) n)
              (set_files (<[b := p]> (delete a w.(sw_files))) w)).
Proof.
  intros Hw Ha Hf Hd Hb Hst ->. set (w' := set_crash _ _).
  assert (Hcont : ∀ inst o, o ∈ contents w' (record_of inst) →
            o ∈ contents w (record_of inst) ∧ inst ≠ s.(cursor).(cursor_instance)
            ∨ inst = s.(cursor).(cursor_instance) ∧ (o = Some t ∨ o ∈ w.(sw_crash) (record_of inst))).
  { intros inst o Ho. destruct (decide (inst = s.(cursor).(cursor_instance))) as [-> | Hne].
    - right. split; [done |]. unfold contents in Ho. cbn in Ho. rewrite <- Hb, lookup_insert_eq, String.eqb_refl in Ho.
      rewrite <- Hb. set_solver.
    - left. split; [| done]. assert (Hnb : record_of inst ≠ b) by (rewrite Hb; intros ?%record_name_inj; done).
      unfold contents in Ho. cbn in Ho. rewrite lookup_insert_ne, lookup_delete_ne in Ho
        by (done || by apply not_record_ne). by rewrite (proj2 (String.eqb_neq _ _) Hnb) in Ho. }
  destruct (record_step_reaches w s Hw Hst) as [book Hbook].
  split.
  - intros inst p. cbn. destruct (decide (b = record_of inst)) as [-> | Hne].
    + rewrite lookup_insert_eq. by intros [= <-].
    + rewrite lookup_insert_ne, lookup_delete_ne by (done || by apply not_record_ne). by apply Hw.
  - intros inst. apply Forall_forall. intros o [[Ho _] | [-> [-> | Ho]]]%Hcont.
    + eapply Forall_forall; [by apply ok_contents | done].
    + right. exists t, s. eauto.
    + eapply Forall_forall; [by apply ok_contents | by right].
  - intros job inst cap E. pose proof (ok_accounted w Hw job inst cap E) as [H | [H | H]]; [by left | by right; left |].
    destruct (decide (inst = s.(cursor).(cursor_instance))) as [Ei | Hne].
    + assert (Hnew : reserves job cap s ∨ job ∈ w.(sw_verified).*1 ∨ job ∈ w.(sw_acknowledged)).
      { destruct Hst as [(Hn & _) | (old & e & (t' & s' & Hv & Hd' & ->) & Hj & He)].
        - apply Forall_cons in H as [(? & ? & Ho & _) _]. rewrite Ei, Hn in Ho. done.
        - apply Forall_cons in H as [(t2 & s2 & Ho & Hd2 & r & Er & Ej & Ec) _]. rewrite Ei, Hv in Ho.
          simplify_eq. assert (s2 = old) as -> by congruence. destruct (event_keeps_reservation w _ e _ _ _ r He Hj Er eq_refl eq_refl) as [Hk | Hk];
            [by eexists | left; by exists r | by right]. }
      destruct Hnew as [Hnew | [Hnew | Hnew]]; [| by left | by right; left].
      right; right. apply Forall_forall. intros o [[_ ?] | [_ [-> | Ho]]]%Hcont; [done | by exists t, s |].
      eapply Forall_forall; [apply H | by right].
    + right; right. apply Forall_forall. intros o [[Ho _] | [? _]]%Hcont; [| done].
      eapply Forall_forall; [apply H | done].
Qed.

Lemma start_ok w job inst cap jobs :
  world_ok w → w.(sw_started) !! job = None → reserved_everywhere w inst job cap →
  world_ok (set_jobs jobs (<[job := (inst, cap)]> w.(sw_started)) w).
Proof.
  intros [H1 H2 H3] Hn Hr. split; [done | done |]. intros job' inst' cap'. cbn.
  destruct (decide (job = job')) as [<- | Hne].
  - rewrite lookup_insert_eq. intros [= <- <-]. right; right. exact Hr.
  - rewrite lookup_insert_ne by done. apply H3.
Qed.

Lemma sync_root_ok w :
  world_ok w →
  world_ok (set_crash (λ n, match w.(sw_files) !! n with
                            | Some (t, true) => [Some t]
                            | Some (_, false) => w.(sw_crash) n
                            | None => [None]
                            end) w).
Proof.
  intros Hw. apply (world_ok_sub w); try done; [by apply Hw |].
  intros inst o. unfold contents. cbn. destruct (sw_files w !! record_of inst) as [[t []] |]; cbn; set_solver.
Qed.

Lemma step_ok w c x w' : sched_pre w c → world_ok w → sched_step w c x w' → world_ok w'.
Proof.
  intros Hp Hw Hs.
  assert (Htemp : ∀ n f, record_instance n STATE_PREFIX = None → (∀ m, m ≠ n → f !! m = w.(sw_files) !! m) →
            world_ok (set_files f w)).
  { intros n f Hn Hf. apply world_ok_files; [done |]. intros inst. apply Hf. intros <-. by rewrite record_instance_name in Hn. }
  destruct c; cbn in Hp, Hs; try (by subst); try (by destruct Hs as [-> _]).
  - subst w'. destruct (is_ok x); [| done]. apply (Htemp name); [done |]. intros m Hm. by rewrite lookup_insert_ne.
  - destruct (is_ok x); [subst w' | destruct Hs as [partial ->]]; apply (Htemp name); try done;
      intros m Hm; by rewrite lookup_insert_ne.
  - subst w'. destruct (is_ok x); [| done]. apply (Htemp name); [done |]. intros m Hm. by rewrite lookup_alter_ne.
  - destruct (is_ok x); [| by subst]. destruct Hs as (p & Hf & ->).
    destruct Hp as (Ha & t & s & Hf' & Hd & Hb & Hst). rewrite Hf' in Hf. injection Hf as <-.
    by apply (rename_ok w from to_ t s).
  - subst w'. destruct (is_ok x); [by apply sync_root_ok | done].
  - subst w'. destruct (is_ok x); [| done]. apply (Htemp name); [done |]. intros m Hm. by rewrite lookup_delete_ne.
  - destruct Hs as [-> | (job & inst & cap & jobs & Ha & _ & ->)]; [done |].
    destruct Hp as (job' & inst' & cap' & Ha' & Hn & Hr). simplify_eq. by apply start_ok.
  - subst w'. destruct x as [n |]; [| done]. apply (world_ok_sub w); try done; [| by apply Hw].
    cbn. set_solver.
Qed.

(** ** Reading and writing a record *)

(** The coordinator's jobs and the histories are as they were. *)
Definition same_jobs (w w' : SchedWorld) : Prop :=
  w'.(sw_jobs) = w.(sw_jobs) ∧ w'.(sw_started) = w.(sw_started)
  ∧ w'.(sw_verified) = w.(sw_verified) ∧ w'.(sw_acknowledged) = w.(sw_acknowledged).

#[local] Instance same_jobs_preorder : PreOrder same_jobs.
Proof.
  split; [done |]. intros w1 w2 w3 (E1 & E2 & E3 & E4) (F1 & F2 & F3 & F4).
  unfold same_jobs. split_and!; congruence.
Qed.

Lemma same_files w f : same_jobs w (set_files f w).
Proof. done. Qed.

Section store.
Context (store : SchedulerStore) {S : Type}.
Implicit Types (d : S) (w : SchedWorld).
Abbreviation msafe := (msafe sched_pre sched_step).

(** A call of the store that may fail, under its message. *)
Lemma try_store_safe {A} w d message (m : SM S string (Res A)) (Q : Res A → S → SchedWorld → Prop) :
  msafe w d m (λ r d' w', match r with
                          | Ok (Ok a) => Q (Ok a) d' w'
                          | Ok (Err e) => Q (Err (message +:+ ": " +:+ e)) d' w'
                          | Err e => Q (Err e) d' w'
                          end) →
  msafe w d (store_call message m) Q.
Proof.
  intros H. apply msafe_bind. eapply msafe_mono; [exact H |]. intros [[a | e] | e] d' w' HQ; exact HQ.
Qed.

Lemma load_state_safe w d inst (Q : Res (option SchedulerInstanceState) → S → SchedWorld → Prop) :
  (∀ r, (∀ s, r = Ok (Some s) → visible w inst s ∧ state_typed s ∧ s.(cursor).(cursor_instance) = inst) →
        (r = Ok None → w.(sw_files) !! record_of inst = None) → Q r d w) →
  msafe w d (load_state store usize_max inst) Q.
Proof.
  intros HQ. unfold load_state, record_file. apply msafe_bind, msafe_lift.
  destruct (validate_scheduler_instance inst) as [u |]; [| by apply HQ]. cbn [mbind result_bind mret result_ret].
  apply msafe_bind. unfold read_optional_record. make_call; [done |]. intros x w' [-> Hn]. destruct x as [| error | m].
  - apply msafe_ret, msafe_bind, msafe_lift, msafe_ret, HQ; [done |]. intros _. by apply Hn.
  - apply msafe_raise. by apply HQ.
  - apply msafe_bind, msafe_lift. destruct (private_file _ _ _); [| by apply HQ].
    apply msafe_bind, msafe_lift. destruct (fail_if _ _); [| by apply HQ].
    apply msafe_bind, try_store_safe. make_call; [done |]. intros x w' [-> Ht].
    destruct x as [bytes | e]; [| by apply HQ].
    apply msafe_bind, msafe_lift. destruct (fail_if _ _); [| by apply HQ].
    apply msafe_bind, msafe_lift. destruct (from_utf8 _ _) as [text |] eqn:Eu; [| by apply HQ].
    apply msafe_bind, msafe_lift. destruct (decode text) as [s |] eqn:Ed; [| by apply HQ].
    apply msafe_ret, msafe_bind, msafe_lift. cbn [is_some_and].
    destruct (String.eqb_spec s.(cursor).(cursor_instance) inst) as [Ei | _]; cbn [negb fail_if]; [| by apply HQ].
    apply msafe_ret, HQ; [| done]. intros s' [= <-]. unfold from_utf8 in Eu. unbind. subst text.
    split_and!; [exists bytes, s; auto | by eapply decoded_typed | done].
Qed.

(** What a write of the record of [s] leaves: a good world, and after a success the new
    record in every copy. *)
Definition persisted_as (s : SchedulerInstanceState) (w : SchedWorld) (r : Res unit) (w' : SchedWorld) : Prop :=
  world_ok w' ∧ same_jobs w w'
  ∧ (r = Ok tt → Forall (reads_as (λ s', s' = s)) (contents w' (record_of s.(cursor).(cursor_instance)))).

Lemma synced_contents w t name s :
  w.(sw_files) !! name = Some (t, true) → decode t = Ok s →
  Forall (reads_as (λ s', s' = s))
    (contents (set_crash (λ n, match w.(sw_files) !! n with
                               | Some (t, true) => [Some t]
                               | Some (_, false) => w.(sw_crash) n
                               | None => [None]
                               end) w) name).
Proof. intros E Hd. unfold contents. cbn. rewrite E. cbn. repeat constructor; by exists t, s. Qed.

Lemma write_steps_safe w d temp t s :
  world_ok w → record_instance temp STATE_PREFIX = None → decode t = Ok s → record_step w s →
  msafe w d (write_steps temp (record_of s.(cursor).(cursor_instance)) t)
    (λ r d' w', d' = d ∧ persisted_as s w r w').
Proof.
  intros Hw Ht Hd Hst. unfold write_steps.
  assert (Herr : ∀ e, persisted_as s w (Err e) w) by (intros e; by split).
  assert (Hfiles : ∀ f e, (∀ inst, f !! record_of inst = w.(sw_files) !! record_of inst) →
            world_ok (set_files f w) ∧ persisted_as s w (Err e) (set_files f w)).
  { intros f e Hf. assert (world_ok (set_files f w)) by (by apply world_ok_files). split; [done |]. by split. }
  assert (Hins : ∀ p inst, <[temp := p]> w.(sw_files) !! record_of inst = w.(sw_files) !! record_of inst).
  { intros p inst. rewrite lookup_insert_ne; [done | by apply not_record_ne]. }
  apply msafe_bind, try_store_safe. make_call; [done |]. intros x w1 ->. destruct x as [u | e]; [cbn [is_ok] | split; [done | apply Herr]].
  apply msafe_bind, try_store_safe. make_call; [done |]. intros x w1 Hs. destruct x as [u' | e]; cbn [is_ok sched_step] in Hs.
  2: { destruct Hs as [partial ->]. split; [done |]. cbn. rewrite insert_insert_eq. apply Hfiles, Hins. }
  subst w1. cbn [set_files sw_files]. rewrite insert_insert_eq.
  apply msafe_bind, try_store_safe. make_call; [done |]. intros x w1 ->. destruct x as [u'' | e]; cbn [is_ok].
  2: { split; [done |]. apply Hfiles, Hins. }
  cbn [set_files sw_files]. rewrite alter_insert_eq. cbn [fst].
  set (w2 := set_files _ _).
  assert (Hw2 : world_ok w2) by (apply (world_ok_files w); [done | apply Hins]).
  assert (Hp : sched_pre w2 (RenameEntry temp (record_of s.(cursor).(cursor_instance)))).
  { split; [done |]. exists t, s. split_and!; [apply lookup_insert_eq | done | done |].
    destruct Hst as [(H1 & H2) | (old & e & H1 & H2 & H3)]; [left | right].
    - cbn. rewrite Hins. by split.
    - exists old, e. split_and!; [| done | done]. unfold visible. cbn. by rewrite Hins. }
  apply msafe_bind, try_store_safe. make_call; [done |]. intros x w3 Hs. pose proof (step_ok _ _ _ _ Hp Hw2 Hs) as Hw3.
  cbn [sched_step] in Hs. destruct x as [u3 | e]; cbn [is_ok] in Hs.
  2: { subst w3. split; [done |]. apply Hfiles, Hins. }
  destruct Hs as (p & Hf & ->). cbn in Hf. rewrite lookup_insert_eq in Hf. injection Hf as <-.
  apply try_store_safe. make_call; [done |]. intros x w4 ->. destruct x as [u4 | e]; cbn [is_ok].
  - split; [done |]. split; [by apply sync_root_ok |]. split; [done |]. intros _.
    destruct u4. apply (synced_contents _ t); [| done]. apply lookup_insert_eq.
  - by split.
Qed.

Lemma state_encode_fits s t : state_typed s → state_encode s = Ok t → (len t ≤ MAX_RECORD_BYTES)%N → decode t = Ok s.
Proof. intros Ht He Hl. apply state_decode_encode; [lia | done | done | lia]. Qed.

Lemma persist_state_safe w d s (Q : Res unit → S → SchedWorld → Prop) :
  world_ok w → state_typed s → record_step w s → (∀ r w', persisted_as s w r w' → Q r d w') →
  msafe w d (persist_state store s) Q.
Proof.
  intros Hw Ht Hst HQ. unfold persist_state, record_file.
  assert (Herr : ∀ e, Q (Err e) d w) by (intros e; apply HQ; by split).
  apply msafe_bind, msafe_lift. destruct (state_encode s) as [t |] eqn:He; [| by apply Herr].
  apply msafe_bind, msafe_lift. destruct (validate_scheduler_instance _); [| by apply Herr].
  cbn [mbind result_bind mret result_ret]. unfold write_record.
  apply msafe_bind, msafe_lift. destruct (fail_if _ _) eqn:Ef; [| by apply Herr].
  assert (Hd : decode t = Ok s).
  { apply state_encode_fits; [done | done |]. apply fail_if_ok_inv, N.ltb_ge in Ef. done. }
  clear Ef. make_call; [done |]. intros x w' [-> _].
  apply msafe_bind, msafe_lift. destruct (match x with Found _ => _ | _ => _ end); [| by apply Herr].
  make_call; [done |]. intros sequence w' ->.
  apply msafe_bind, msafe_lift. destruct (fail_if _ _); [| by apply Herr].
  apply msafe_bind, msafe_attempt. eapply msafe_mono; [by apply (write_steps_safe w d _ t s) |].
  intros r d' w1 (-> & Hw1 & Hj & Hr). destruct r as [[] | e].
  - by apply msafe_ret, HQ.
  - make_call; [done |]. intros x' w2 Hs. apply msafe_raise, HQ. cbn in Hs. subst w2.
    destruct (is_ok x'); [| by split]. split; [| by split].
    apply world_ok_files; [done |]. intros inst. rewrite lookup_delete_ne; [done | by apply not_record_ne].
Qed.
End store.
End contract.
