(* ===== verification/SchedulerTransactions.v ===== *)
(** * The transactions of the scheduler are safe

    Each transaction on the record of an instance makes its calls where they may be made:
    what it writes follows from the visible record by one step of the ledger. *)

From stdpp Require Import gmap.
From S2P Require Import Prelude RustStr SchedRecord ScheduleCursor BudgetLedger SchedulerState Vocabulary RustNet CapturePolicy OperationRequest ControlProtocol JobJournal Effects Binary64 SchedulerCalls SchedulerStore SchedulerRuntime SchedulerPoll SchedulerRecords SchedulerSafety.
Local Open Scope string_scope.

Section transactions.
Context (usize_max : N) (usize_bound : (MAX_RECORD_BYTES ≤ usize_max ≤ u64_max)%N).
Context (store : SchedulerStore).
Abbreviation visible := (visible usize_max).
Abbreviation world_ok := (world_ok usize_max).
Abbreviation msafe := (msafe (sched_pre usize_max) sched_step).
Abbreviation record_step := (record_step usize_max).
Abbreviation reserved_everywhere := (reserved_everywhere usize_max).

(** A local copy of the visible record of its instance, but for the operator warning. *)
Definition current (w : SchedWorld) (s : SchedulerInstanceState) : Prop :=
  state_typed s ∧ ∃ old, visible w s.(cursor).(cursor_instance) old ∧ old.(budget) = s.(budget).

Lemma step_of_event w s e b c warning :
  current w s → justified w s.(budget) e → ledger_apply e s.(budget) = (Ok tt, b) →
  c.(cursor_instance) = s.(cursor).(cursor_instance) →
  record_step w {| cursor := c; budget := b; operator_warning := warning |}.
Proof.
  intros (_ & old & Hv & Eb) Hj He Hc. right. exists old, e. cbn. rewrite Hc, Eb. by split_and!.
Qed.

Lemma persisted_current w w' s r : persisted_as usize_max s w r w' → state_typed s → r = Ok tt → current w' s.
Proof.
  intros (_ & _ & H) Ht Hr. split; [done |]. specialize (H Hr). apply Forall_cons in H as [H _].
  exists s. by split.
Qed.

Section method.
Context {S : Type}.
Implicit Types (d : S) (w : SchedWorld).

Lemma initial_state_ok config now dy mo s b :
  build_initial_scheduler_state config now dy mo 0 = Ok s → is_u64 now →
  reconfigure_limits dy mo config.(sc_daily_limit_bytes) config.(sc_monthly_limit_bytes) s.(budget) = (Ok tt, b) →
  state_typed (set_budget b s) ∧ s.(cursor).(cursor_instance) = config.(sc_instance)
  ∧ b.(reservation) = None ∧ ledger_reaches [] b.
Proof.
  unfold build_initial_scheduler_state. intros H Hnow Hb. unbind.
  match goal with H : ledger_new _ _ _ _ _ = Ok ?l |- _ => rename H into Hl; rename l into l0 end.
  assert (El : set_month l0.(month) 0 l0 = l0).
  { unfold ledger_new in Hl. unbind. by subst. }
  match goal with H : cursor_new _ _ = Ok ?c |- _ => rename H into Hc; rename c into c0 end.
  rewrite El in *. apply new_state_fields in H. subst s. cbn in *.
  assert (Hi : c0.(cursor_instance) = config.(sc_instance)) by (unfold cursor_new in Hc; unbind; by subst).
  assert (Hn : l0.(reservation) = None) by (unfold ledger_new in Hl; unbind; by subst).
  split_and!; [| done | |].
  - split_and!; cbn; [by eapply new_cursor_typed | | done].
    eapply (apply_typed (Reconfigured dy mo _ _)); [exact Hb | done | by eapply new_ledger_typed].
  - apply reconfigure_limits_ok in Hb as (n & Hn' & _ & Hl' & _).
    apply roll_period_ok in Hn' as (_ & _ & _ & _ & _ & _ & _ & _ & En & _).
    destruct Hl' as [-> | ->]; cbn; congruence.
  - apply (ledger_step [] l0 (Reconfigured dy mo config.(sc_daily_limit_bytes) config.(sc_monthly_limit_bytes)));
      [by eapply ledger_fresh | exact Hb].
Qed.

Lemma load_or_initialize_safe w d config now dy mo
    (Q : Res SchedulerInstanceState → S → SchedWorld → Prop) :
  world_ok w → is_u64 now →
  (∀ r w', world_ok w' → same_jobs w w' →
     (∀ s, r = Ok s → current w' s ∧ s.(cursor).(cursor_instance) = config.(sc_instance)) → Q r d w') →
  msafe w d (load_or_initialize_state store usize_max config now dy mo) Q.
Proof.
  intros Hw Hnow HQ. unfold load_or_initialize_state.
  assert (Herr : ∀ e, Q (Err e) d w) by (intros e; by apply HQ).
  apply msafe_bind, msafe_lift. destruct (fail_if _ _); [| by apply Herr].
  apply msafe_bind, load_state_safe. intros r Hsome Hnone. destruct r as [existing |]; [| by apply Herr].
  apply msafe_bind.
  assert (Hfinish : ∀ before b,
    reconfigure_limits dy mo config.(sc_daily_limit_bytes) config.(sc_monthly_limit_bytes) before.(budget) = (Ok tt, b) →
    state_typed (set_budget b before) → before.(cursor).(cursor_instance) = config.(sc_instance) →
    record_step w (set_budget b before) → (set_budget b before = before → existing ≠ None → current w before) →
    msafe w d ((if negb (bool_decide (set_budget b before = before)) || bool_decide (existing = None)
                then persist_state store (set_budget b before) else mret tt) ≫= λ _, mret (set_budget b before)) Q).
  { intros before b Hb Ht Hi Hst Hsame. apply msafe_bind.
    destruct (negb _ || _) eqn:E.
    - apply (persist_state_safe usize_max usize_bound); [done.. |]. intros r w' Hp.
      pose proof Hp as (Hw' & Hj & _). destruct r as [[] | e].
      + apply msafe_ret, HQ; [done | done |]. intros s [= <-]. split; [by eapply persisted_current | done].
      + by apply HQ.
    - apply orb_false_iff in E as [E En]. apply negb_false_iff, bool_decide_eq_true in E.
      apply bool_decide_eq_false in En.
      apply msafe_ret, msafe_ret, HQ; [done | done |]. intros s [= <-].
      rewrite E. split; [by apply Hsame | done]. }
  destruct existing as [before |].
  - apply msafe_ret. destruct (Hsome before eq_refl) as (Hv & Ht & Hi).
    destruct (reconfigure_limits _ _ _ _ _) as [[[] | e] b] eqn:Hb; [| by apply Herr].
    apply msafe_bind, msafe_lift. apply Hfinish; [done | | done | |].
    + destruct Ht as (Hc & Hl & Hwarn). split_and!; [done | | done].
      by eapply (apply_typed (Reconfigured dy mo _ _)).
    + eapply (step_of_event w before (Reconfigured dy mo _ _)); [| done | exact Hb | done].
      split; [done |]. rewrite Hi. by exists before.
    + intros _ _. split; [done |]. rewrite Hi. by exists before.
  - apply msafe_lift. destruct (build_initial_scheduler_state _ _ _ _ _) as [before |] eqn:Hb0; [| by apply Herr].
    destruct (reconfigure_limits _ _ _ _ _) as [[[] | e] b] eqn:Hb; [| by apply Herr].
    apply msafe_bind, msafe_lift. destruct (initial_state_ok _ _ _ _ _ _ Hb0 Hnow Hb) as (Ht & Hi & Hn & Hr).
    apply Hfinish; [done | done | done | | done].
    left. cbn. rewrite Hi. split_and!; [by apply Hnone | done | done].
Qed.
End method.

(** ** On the local state *)

Section local.
Implicit Types (s : SchedulerInstanceState) (w : SchedWorld).

Lemma validate_self_safe w s (Q : Res unit → SchedulerInstanceState → SchedWorld → Prop) :
  (∀ r, Q r s w) → msafe w s validate_self Q.
Proof. intros HQ. apply msafe_bind, msafe_gets, msafe_lift, HQ. Qed.

Lemma persist_self_safe w s (Q : Res unit → SchedulerInstanceState → SchedWorld → Prop) :
  world_ok w → state_typed s → record_step w s → (∀ r w', persisted_as usize_max s w r w' → Q r s w') →
  msafe w s (persist_self store) Q.
Proof. intros Hw Ht Hst HQ. apply msafe_bind, msafe_gets. by apply persist_state_safe. Qed.

Lemma on_budget_safe {A} w s (m : M BudgetLedger string A) (Q : Res A → SchedulerInstanceState → SchedWorld → Prop) :
  (∀ r b, m s.(budget) = (r, b) → Q r (set_budget b s) w) → msafe w s (on_budget m) Q.
Proof. intros HQ. unfold msafe, on_budget. destruct (m (budget s)) as [r b] eqn:E. by apply HQ. Qed.

Lemma on_cursor_safe {A} w s (m : M ScheduleCursor string A) (Q : Res A → SchedulerInstanceState → SchedWorld → Prop) :
  (∀ r c, m s.(cursor) = (r, c) → Q r (set_cursor c s) w) → msafe w s (on_cursor m) Q.
Proof. intros HQ. unfold msafe, on_cursor. destruct (m (cursor s)) as [r c] eqn:E. by apply HQ. Qed.

Lemma record_failure_instance f c u c' : record_failure f c = (Ok u, c') → c'.(cursor_instance) = c.(cursor_instance).
Proof. by intros (_ & _ & -> & _)%record_failure_ok. Qed.
Lemma record_success_instance i du t c u c' :
  record_success i du t c = (Ok u, c') → c'.(cursor_instance) = c.(cursor_instance).
Proof. by intros (_ & _ & _ & -> & _)%record_success_ok. Qed.

(** The rest of a transaction whose ledger event [e] led to the state [s']. *)
Lemma finish_safe w s e s' (Q : Res unit → SchedulerInstanceState → SchedWorld → Prop) :
  world_ok w → current w s → justified w s.(budget) e → ledger_apply e s.(budget) = (Ok tt, s'.(budget)) →
  s'.(cursor).(cursor_instance) = s.(cursor).(cursor_instance) → state_typed s' →
  (∀ r w', persisted_as usize_max s' w r w' → Q r s' w') →
  msafe w s' (validate_self ≫= λ _, persist_self store) Q.
Proof.
  intros Hw Hs Hj He Hi Ht HQ. apply msafe_bind, validate_self_safe. intros [u |].
  - apply persist_self_safe; [done | done | | done]. destruct s' as [c b warning].
    by eapply step_of_event.
  - apply HQ. by split.
Qed.

Lemma settle_safe w s rid jid dy mo completed consumed settlement
    (Q : Res unit → SchedulerInstanceState → SchedWorld → Prop) :
  world_ok w → current w s → is_u64 completed →
  justified w s.(budget) (Settled rid jid dy mo consumed) →
  (∀ r s' w', world_ok w' → same_jobs w w' → Q r s' w') →
  msafe w s (settle_scheduled_request store rid jid dy mo completed consumed settlement) Q.
Proof.
  intros Hw Hs Hc Hj HQ. unfold settle_scheduled_request, reservation_authority.
  assert (Herr : ∀ r s', Q r s' w) by (intros r s'; by apply HQ).
  apply msafe_bind, msafe_bind, msafe_gets, msafe_bind, msafe_lift.
  destruct (reservation (budget s)) as [res |] eqn:Er; [| by apply Herr]. apply msafe_ret.
  apply msafe_bind, on_budget_safe. intros [u |] b Hb; [| by apply Herr]. destruct u.
  pose proof Hs as [(Htc & Htl & Htw) Hv].
  assert (Htb : ledger_typed b) by (by apply (apply_typed (Settled rid jid dy mo consumed) s.(budget))).
  assert (Hf : fence_typed res.(authority)) by exact (typed_fence _ _ Htl Er).
  assert (Hrest : ∀ c, c.(cursor_instance) = s.(cursor).(cursor_instance) → cursor_typed c →
    msafe w (set_cursor c (set_budget b s)) (validate_self ≫= λ _, persist_self store) Q).
  { intros c Hi Ht. apply (finish_safe w s (Settled rid jid dy mo consumed)); try done.
    intros r w' (Hw' & Hj' & _). by apply HQ. }
  apply msafe_bind. destruct settlement; apply on_cursor_safe; intros [u |] c Ec; try by apply Herr.
  - apply Hrest; [by eapply record_success_instance | by eapply success_typed].
  - apply Hrest; [by eapply record_failure_instance | by eapply failure_typed].
Qed.

Lemma mark_unknown_safe w s rid jid (Q : Res unit → SchedulerInstanceState → SchedWorld → Prop) :
  world_ok w → current w s → (∀ r s' w', world_ok w' → same_jobs w w' → Q r s' w') →
  msafe w s (mark_scheduled_accounting_unknown store rid jid) Q.
Proof.
  intros Hw Hs HQ. unfold mark_scheduled_accounting_unknown, reservation_authority.
  assert (Herr : ∀ r s', Q r s' w) by (intros r s'; by apply HQ).
  apply msafe_bind, msafe_bind, msafe_gets, msafe_bind, msafe_lift.
  destruct (reservation (budget s)) as [res |] eqn:Er; [| by apply Herr]. apply msafe_ret.
  apply msafe_bind, on_budget_safe. intros [u |] b Hb; [| by apply Herr]. destruct u.
  pose proof Hs as [(Htc & Htl & Htw) Hv].
  apply msafe_bind, on_cursor_safe. intros [u |] c Ec; [| by apply Herr].
  apply (finish_safe w s (MarkedUnknown rid jid)); try done.
  - by eapply record_failure_instance.
  - split_and!; cbn; [| by apply (apply_typed (MarkedUnknown rid jid) s.(budget)) | done].
    eapply failure_typed; [done | exact (typed_fence _ _ Htl Er) | done].
  - intros r w' (Hw' & Hj' & _). by apply HQ.
Qed.

Lemma acknowledge_safe w s (Q : Res N → SchedulerInstanceState → SchedWorld → Prop) :
  world_ok w → current w s → justified w s.(budget) Acknowledged →
  (∀ r s' w', world_ok w' → same_jobs w w' → Q r s' w') →
  msafe w s (acknowledge_scheduled_accounting_unknown store) Q.
Proof.
  intros Hw Hs Hj HQ. unfold acknowledge_scheduled_accounting_unknown.
  apply msafe_bind, on_budget_safe. intros [n |] b Hb; [| by apply HQ].
  assert (He : ledger_apply Acknowledged s.(budget) = (Ok tt, b)) by (cbn; unfold mbind, M_bind; by rewrite Hb).
  pose proof Hs as [(Htc & Htl & Htw) Hv].
  assert (Hs' : state_typed (set_budget b s)).
  { split_and!; cbn; [done | by apply (apply_typed Acknowledged s.(budget)) | done]. }
  apply msafe_bind, validate_self_safe. intros [u |]; [| by apply HQ].
  apply msafe_bind, persist_self_safe; [done | done | |].
  - destruct s as [c b0 warning]. by eapply (step_of_event w _ Acknowledged).
  - intros r w' (Hw' & Hj' & _). destruct r; [apply msafe_ret |]; by apply HQ.
Qed.

(** The budget the request asks for is the whole budget of the reservation. *)
Definition reserved_for (request : OperationRequest) (w : SchedWorld) (s : SchedulerInstanceState)
    (resv : ScheduledReservation) : Prop :=
  let id := request.(identity) in
  current w s ∧ resv.(sr_job_id) = id.(OperationRequest.job_id)
  ∧ ∃ cap, limit_bytes request.(traffic_budget) = Some cap
      ∧ reserved_everywhere w id.(OperationRequest.instance) id.(OperationRequest.job_id) cap.

Lemma reserve_safe w s config observation request rid dy mo
    (Q : Res (SchedulerDecision * option ScheduledReservation) → SchedulerInstanceState → SchedWorld → Prop) :
  world_ok w → current w s → config_typed config → generations_typed observation.(obs_generations) →
  is_u64 observation.(obs_explicit_retry_sequence) →
  (∀ r s' w', world_ok w' → same_jobs w w' →
     (∀ decision resv, r = Ok (decision, Some resv) → reserved_for request w' s' resv) → Q r s' w') →
  msafe w s (reserve_scheduled_request store config observation request rid dy mo) Q.
Proof.
  intros Hw Hs Hcfg Hgen Hretry HQ. unfold reserve_scheduled_request.
  assert (Herr : ∀ e s', Q (Err e) s' w) by (intros e s'; by apply HQ).
  apply msafe_bind, validate_self_safe. intros [u |]; [| by apply Herr].
  apply msafe_bind, msafe_lift. destruct (request_validate request); [| by apply Herr].
  apply msafe_bind, msafe_gets, msafe_bind, msafe_lift. unfold id.
  destruct (check_request _ _ _ _) as [u' |] eqn:Echeck; [| by apply Herr].
  apply msafe_bind, msafe_lift. destruct (available_bytes _) as [available |]; [| by apply Herr].
  apply msafe_bind, msafe_lift. destruct (limit_bytes _) as [cap |] eqn:Ecap; [| by apply Herr].
  apply msafe_bind, msafe_lift. destruct (evaluate_schedule _ _ _ _ _ _) as [decision |] eqn:Edec; [| by apply Herr].
  destruct decision as [? | ? | ? | | due traffic]; try by (apply msafe_ret, HQ).
  apply evaluate_schedule_admits_sound in Edec as (_ & _ & _ & _ & Hdue%due_unix_s_ok & _).
  apply msafe_bind, msafe_lift. destruct (fail_if (negb (traffic =? cap)%N) _) eqn:Et; [| by apply Herr].
  apply fail_if_ok_inv, negb_false_iff, N.eqb_eq in Et as ->.
  pose proof Hs as [(Htc & Htl & Htw) Hv].
  apply msafe_bind, on_budget_safe. intros [v |] b Hb; [| by apply Herr]. destruct v.
  set (auth := {| fence_due_unix_s := _ |}) in Hb.
  assert (Hauth : fence_typed auth) by (split_and!; [by eapply due_typed | done | done | done]).
  assert (Hs' : state_typed (set_budget b s)).
  { split_and!; cbn; [done | by eapply (apply_typed (Reserved rid _ dy mo auth cap)) | done]. }
  assert (Hi : s.(cursor).(cursor_instance) = request.(identity).(OperationRequest.instance)).
  { unfold check_request in Echeck. unbind. reflect_bools.
    repeat match goal with H : String.eqb _ _ = true |- _ => apply String.eqb_eq in H end. congruence. }
  apply msafe_bind, persist_self_safe; [done | done | |].
  - destruct s as [c b0 warning]. by eapply (step_of_event w _ (Reserved rid _ dy mo auth cap)).
  - intros r w' Hp. pose proof Hp as (Hw' & Hj & Hall). destruct r as [[] | e]; [| by apply HQ].
    apply msafe_ret, HQ; [done | done |]. intros decision resv [= <- <-]. split; [by eapply persisted_current |].
    split; [done |]. exists cap. split; [done |]. specialize (Hall eq_refl). cbn in Hall. rewrite Hi in Hall.
    eapply Forall_impl; [exact Hall |]. intros o Ho. eapply reads_as_mono; [exact Ho |]. intros s' ->.
    apply reserve_ok in Hb as (n & _ & _ & _ & _ & _ & _ & -> & _). by eexists.
Qed.
End local.
End transactions.
