(* ===== verification/SchedulerPasses.v ===== *)
(** * The polls of the scheduler are safe

    Every call of a poll, and of an acknowledgement, is made where it may be, whatever the
    other calls answer. *)

From stdpp Require Import gmap.
From S2P Require Import Prelude RustStr SchedRecord ScheduleCursor BudgetLedger SchedulerState Vocabulary RustNet CapturePolicy OperationRequest ControlProtocol JobJournal Effects Binary64 SchedulerCalls SchedulerStore SchedulerRuntime SchedulerPoll SchedulerRecords SchedulerSafety SchedulerTransactions.
Local Open Scope string_scope.

(** A call that leaves the world alone. *)
Ltac ask := make_call; [done |]; let x := fresh "x" in let w' := fresh "w" in intros x w' ->.

Section passes.
Context (usize_max : N) (usize_bound : (MAX_RECORD_BYTES ≤ usize_max ≤ u64_max)%N).
Context (store : SchedulerStore).
Context (localtime : N → option Tm) (mktime : Tm → Z) (time_t_max : N).
Context (coordinator_generation : string).
Abbreviation visible := (visible usize_max).
Abbreviation world_ok := (world_ok usize_max).
Abbreviation msafe := (msafe (sched_pre usize_max) sched_step).
Abbreviation current := (current usize_max).

(** The result does not matter, the world is good. *)
Definition good {E A S} (_ : result E A) (_ : S) (w : SchedWorld) : Prop := world_ok w.

Section lifted.
Context {T S E : Type}.

Lemma on_local_safe {A} w (d : S) (m : SM T E A) (t : T) (Q : result E (A * T) → S → SchedWorld → Prop) :
  msafe w t m (λ r t' w', Q (match r with Ok a => Ok (a, t') | Err e => Err e end) d w') →
  msafe w d (on_local m t) Q.
Proof. intros H. apply safe_bind. eapply safe_mono; [exact H |]. by intros [r t'] w'. Qed.

Lemma sched_try_call_safe {A} w (d : S) (m : SM S string (Res A)) (Q : Res A → S → SchedWorld → Prop) :
  msafe w d m (λ r d' w', Q (match r with Ok r => r | Err e => Err e end) d' w') →
  msafe w d (try_call m) Q.
Proof. intros H. apply msafe_bind. eapply msafe_mono; [exact H |]. intros [r | e] d' w' HQ; exact HQ. Qed.
End lifted.

Implicit Types (d : NativeSchedulerRuntime) (w : SchedWorld).

Lemma current_set_warning w s warning :
  current w s → (∀ t, warning = Some t → utf8_valid t = true) → current w (set_warning warning s).
Proof. intros [(H1 & H2 & _) H] Hw. split; [by split_and! | exact H]. Qed.

Lemma current_same_files w w' s : current w s → w'.(sw_files) = w.(sw_files) → current w' s.
Proof. intros [Ht (old & Hv & E)] Hf. split; [done |]. exists old. unfold visible. by rewrite Hf. Qed.

(** ** One instance *)

Lemma admit_instance_safe w d config now cal persisted runtime gates available :
  world_ok w → current w persisted → config_typed config → is_u64 now →
  is_u64 runtime.(rs_runtime_generation) →
  msafe w d (admit_instance store coordinator_generation config now cal persisted runtime gates available) good.
Proof.
  intros Hw Hs Hcfg Hnow Hgen. unfold admit_instance.
  apply msafe_bind, msafe_map_err, sched_try_call_safe. ask. destruct x as [u |]; [| done].
  apply msafe_bind, msafe_map_err, msafe_lift. destruct (launch_intent _ _) as [intent |]; [| done].
  apply msafe_bind, msafe_map_err, sched_try_call_safe. make_call; [done |]. intros x w' [-> Hfresh].
  destruct x as [request |]; [| done]. specialize (Hfresh request eq_refl).
  apply msafe_bind, msafe_lift. destruct (negb _); [done |].
  apply msafe_bind, msafe_map_err, sched_try_call_safe. ask. destruct x as [rid |]; [| done].
  apply msafe_bind, msafe_map_err, on_local_safe, (reserve_safe usize_max usize_bound); try done.
  intros r s1 w1 Hw1 Hj1 Hres. destruct r as [[decision reservation] |]; [| done].
  destruct reservation as [resv |]; [| done].
  destruct (Hres decision resv eq_refl) as (Hcur & Hjob & cap & Hcap & Hev).
  apply msafe_bind, msafe_map_err, sched_try_call_safe. ask. destruct x as [request_id |]; [| done].
  assert (Hn1 : w1.(sw_started) !! request.(identity).(OperationRequest.job_id) = None).
  { destruct Hj1 as (_ & -> & _). done. }
  set (message := {| control := _ |}).
  assert (Ha : admission message = Some (request.(identity).(OperationRequest.job_id),
                                         request.(identity).(OperationRequest.instance), cap)).
  { unfold admission. cbn. by rewrite Hcap. }
  assert (Hp : sched_pre usize_max w1 (StartJob message)) by (by repeat eexists).
  make_call; [exact Hp |]. intros response w2 Hs2. pose proof (step_ok _ usize_bound _ _ _ _ Hp Hw1 Hs2) as Hw2.
  make_call; [done |]. intros jobs w3 [-> ->].
  destruct (negb _) eqn:Eh; [| done].
  destruct Hs2 as [-> | (job & inst & cap' & jobs & Ha' & Hh & ->)].
  2: { rewrite Ha in Ha'. injection Ha' as <- <- <-. cbn [set_jobs sw_jobs] in Eh. by rewrite Hh in Eh. }
  apply msafe_bind, msafe_map_err, on_local_safe, (settle_safe usize_max usize_bound); try done.
  - right. split; [done |]. by rewrite Hjob.
  - intros r s2 w4 Hw4 _. by destruct r.
Qed.

Lemma admission_available_safe w d (Q : result ScheduledInstancePassError bool → NativeSchedulerRuntime → SchedWorld → Prop) :
  (∀ b, Q (Ok b) d w) → msafe w d admission_available Q.
Proof. intros HQ. unfold admission_available. ask. ask. make_call; [done |]. intros jobs w' [-> _]. apply msafe_ret, HQ. Qed.

Lemma consider_instance_safe w d config committed now cal persisted :
  world_ok w → current w persisted → config_typed config → is_u64 now →
  msafe w d (consider_instance store coordinator_generation config committed now cal persisted) good.
Proof.
  intros Hw Hs Hcfg Hnow. unfold consider_instance.
  make_call; [done |]. intros jobs w' [-> _].
  make_call; [done |]. intros x w' [-> Hgen]. destruct x as [runtime | error].
  2: { apply msafe_bind, msafe_update, msafe_update, Hw. }
  specialize (Hgen runtime eq_refl).
  apply msafe_bind, msafe_map_err, sched_try_call_safe. make_call; [done |]. intros x w' [-> _]. destruct x as [observed |]; [| done].
  apply msafe_bind, msafe_gets.
  destruct (scheduled_runtime_and_quiet_ready _ _ _ _ _ _) as [[runtime_ready quiet_ready] q].
  apply msafe_bind, msafe_update, msafe_bind, admission_available_safe. intros clear.
  destruct (waiting_reason _); [by apply msafe_update |].
  apply msafe_bind, msafe_map_err, msafe_lift. destruct (available_bytes _) as [available |]; [| done].
  destruct (available =? 0)%N; [by apply msafe_update |].
  destruct (available <? _)%N; [by apply msafe_update |].
  by apply admit_instance_safe.
Qed.

Lemma poll_instance_safe w d config committed now :
  world_ok w → config_typed config → is_u64 now →
  msafe w d (poll_native_scheduler_instance store usize_max localtime mktime time_t_max coordinator_generation
               config committed now) good.
Proof.
  intros Hw Hcfg Hnow. unfold poll_native_scheduler_instance.
  destruct (negb _); [by apply msafe_update |].
  apply msafe_bind, msafe_map_err, msafe_lift. destruct (local_calendar _ _ _ _ _ _) as [cal |]; [| done].
  apply msafe_bind, msafe_map_err, (load_or_initialize_safe usize_max usize_bound); [done.. |].
  intros r w1 Hw1 _ Hr. destruct r as [persisted |]; [| done]. destruct (Hr persisted eq_refl) as [Hcur _].
  destruct (_ || _); [by apply msafe_update |].
  apply msafe_bind, msafe_map_err, msafe_lift. destruct (due_unix_s _ _) as [due |]; [| done].
  destruct (_ || _); [by apply msafe_update |].
  by apply consider_instance_safe.
Qed.

Lemma poll_instances_safe w d instances committed now :
  world_ok w → Forall config_typed instances → is_u64 now →
  msafe w d (poll_native_scheduler_instances store usize_max localtime mktime time_t_max coordinator_generation
               instances committed now) good.
Proof.
  revert w d. induction instances as [| config instances IH]; intros w d Hw Hcfg Hnow;
    cbn [poll_native_scheduler_instances]; [done |].
  apply Forall_cons in Hcfg as [Hc Hcfg].
  apply msafe_bind, msafe_attempt. eapply msafe_mono; [by apply poll_instance_safe |].
  intros r d1 w1 Hw1. apply msafe_bind. destruct r as [u | [error | error]].
  - by apply msafe_ret, IH.
  - apply msafe_bind, msafe_update, msafe_bind, msafe_update, msafe_update. by apply IH.
  - done.
Qed.

(** ** Settling *)

Lemma exact_traffic_safe {S} w (d : S) job id (Q : Res (N * ScheduledSettlement) → S → SchedWorld → Prop) :
  world_ok w →
  (∀ r w', world_ok w' → w'.(sw_files) = w.(sw_files) → w'.(sw_acknowledged) = w.(sw_acknowledged) →
     (∀ n settlement, r = Ok (n, settlement) → (id, n) ∈ w'.(sw_verified)) → Q r d w') →
  msafe w d (exact_scheduled_terminal_traffic job id) Q.
Proof.
  intros Hw HQ. unfold exact_scheduled_terminal_traffic.
  assert (Herr : ∀ e, Q (Err e) d w) by (intros e; by apply HQ).
  apply msafe_bind, msafe_lift. destruct (fail_if _ _); [| by apply Herr].
  apply msafe_bind, msafe_lift. destruct (fail_if _ _); [| by apply Herr].
  apply msafe_bind, msafe_lift. destruct (ok_or _ _) as [run |]; [| by apply Herr].
  apply msafe_bind, sched_try_call_safe. ask. destruct x as [u |]; [| by apply Herr].
  apply msafe_bind, sched_try_call_safe. ask. destruct x as [record |]; [| by apply Herr].
  apply msafe_bind, msafe_lift. destruct (fail_if _ _); [| by apply Herr].
  apply msafe_bind, msafe_lift. destruct (fail_if _ _); [| by apply Herr].
  apply msafe_bind, sched_try_call_safe. make_call; [done |]. intros x w1 Hs.
  assert (Hw1 : world_ok w1) by (by eapply (step_ok _ usize_bound w (VerifyConsumed id run _))).
  cbn in Hs. destruct x as [n | e]; subst w1; [| by apply Herr].
  apply msafe_ret, HQ; [done.. |]. intros n' settlement [= <- _]. left.
Qed.

Lemma auto_apply_safe w d job id (Q : Res NativeScheduledAutoApplyOutcome → NativeSchedulerRuntime → SchedWorld → Prop) :
  (∀ r, Q r d w) → msafe w d (auto_apply job id) Q.
Proof.
  intros HQ. unfold auto_apply. destruct (_ && _).
  - apply msafe_bind, sched_try_call_safe. ask. destruct x as [result |]; [| by apply HQ].
    apply msafe_bind, sched_try_call_safe. ask. destruct x as [[] |]; [by apply HQ | | by apply HQ].
    apply sched_try_call_safe. ask. apply HQ.
  - unfold scheduled_auto_apply_with_prior_guard. apply msafe_bind.
    assert (H : ∀ b : bool, msafe w d (if b then mret PriorThroughputReviewRequired else try_call (call (ExecuteAutoApply id))) Q).
    { intros []; [by apply msafe_ret |]. apply sched_try_call_safe. ask. apply HQ. }
    destruct (_ && _); [| exact (H false)].
    apply sched_try_call_safe. ask. destruct x as [b |]; [exact (H b) | apply HQ].
Qed.

Lemma note_auto_apply_safe w d inst id outcome
    (Q : Res (option string * option string) → NativeSchedulerRuntime → SchedWorld → Prop) :
  (∀ warning error d', (∀ t, warning = Some t → utf8_valid t = true) → Q (Ok (warning, error)) d' w) →
  msafe w d (note_auto_apply inst id outcome) Q.
Proof.
  intros HQ. unfold note_auto_apply. destruct outcome as [[] | error]; apply msafe_bind, msafe_update.
  1-4: apply msafe_ret, HQ; intros t E; by simplify_eq.
  ask. apply msafe_bind.
  destruct x as [[] | e]; [ask | apply msafe_ret | ask]; apply msafe_ret, HQ; intros t E; by simplify_eq.
Qed.

Lemma settle_instance_safe w d inst job r now dy mo consumed settlement persisted :
  world_ok w → current w persisted → is_u64 now → (r.(BudgetLedger.job_id), consumed) ∈ w.(sw_verified) →
  msafe w d (settle_instance store inst job r now dy mo consumed settlement persisted) good.
Proof.
  intros Hw Hs Hnow Hv. unfold settle_instance.
  assert (Hrest : ∀ (warning error : option string) d', (∀ t, warning = Some t → utf8_valid t = true) →
    msafe w d' (on_local (settle_scheduled_request store r.(reservation_id) r.(BudgetLedger.job_id) dy mo now consumed settlement)
                  (set_warning warning persisted) ≫= λ _,
                match error with Some error => insert_error inst error | None => remove_error inst end ≫= λ _,
                remove_block inst) good).
  { intros warning error d' Hwarn. apply msafe_bind, on_local_safe, (settle_safe usize_max usize_bound); try done.
    - by apply current_set_warning.
    - by left.
    - intros [] s' w' Hw' _; [| done]. apply msafe_bind. destruct error; apply msafe_update, msafe_update, Hw'. }
  apply msafe_bind. destruct settlement.
  - apply msafe_bind, msafe_attempt, auto_apply_safe. intros outcome. apply note_auto_apply_safe.
    intros warning error d' Hwarn. by apply Hrest.
  - exact (Hrest None None d ltac:(done)).
Qed.

Lemma mark_instance_safe w d r persisted (Q : Res unit → NativeSchedulerRuntime → SchedWorld → Prop) :
  world_ok w → current w persisted → (∀ x w', world_ok w' → Q x d w') →
  msafe w d (mark_unknown store r persisted) Q.
Proof.
  intros Hw Hs HQ. unfold mark_unknown.
  apply msafe_bind, on_local_safe, (mark_unknown_safe usize_max usize_bound); [done.. |].
  intros x s' w' Hw' _. destruct x; [apply msafe_ret |]; by apply HQ.
Qed.

Lemma reconcile_reserved_safe w d inst now dy mo r persisted :
  world_ok w → current w persisted → is_u64 now →
  msafe w d (reconcile_reserved store inst now dy mo r persisted) good.
Proof.
  intros Hw Hs Hnow. unfold reconcile_reserved. make_call; [done |]. intros jobs w' [-> _].
  destruct (find_job _ _) as [job |].
  - destruct (live job); [by destruct (accounting_blocked _); [apply msafe_update |] |].
    apply msafe_bind, msafe_attempt, exact_traffic_safe; [done |]. intros evidence w1 Hw1 Hf _ Hev.
    destruct evidence as [[consumed settlement] | error].
    + apply settle_instance_safe; [done | by eapply current_same_files | done | by eapply Hev].
    + apply msafe_bind. destruct (negb _); [| by apply msafe_ret, msafe_update].
      apply mark_instance_safe; [done | by eapply current_same_files |]. by intros [] w2 Hw2; [apply msafe_update |].
  - apply msafe_bind. destruct (negb _); [| by apply msafe_ret, msafe_update].
    apply msafe_bind, mark_instance_safe; [done | done |]. by intros [] w2 Hw2; [apply msafe_update, msafe_update |].
Qed.

Lemma reconcile_safe w d inst now dy mo :
  world_ok w → is_u64 now →
  msafe w d (reconcile_native_scheduler_reservation store usize_max inst now dy mo) good.
Proof.
  intros Hw Hnow. unfold reconcile_native_scheduler_reservation.
  apply msafe_bind, load_state_safe. intros loaded Hsome _. destruct loaded as [loaded |]; [| done].
  apply msafe_bind, msafe_lift. destruct loaded as [persisted |]; [| done]. cbn [ok_or].
  destruct (Hsome persisted eq_refl) as (Hv & Ht & Hi).
  assert (Hs : current w persisted) by (split; [done | exists persisted; by rewrite Hi]).
  destruct (reservation (budget persisted)) as [r |]; [| done].
  apply msafe_bind. destruct (accounting_blocked _); [apply msafe_update | apply msafe_ret];
    by apply reconcile_reserved_safe.
Qed.

Lemma reconcile_instances_safe w d instances now dy mo :
  world_ok w → is_u64 now →
  msafe w d (reconcile_instances store usize_max instances now dy mo) good.
Proof.
  revert w d. induction instances as [| inst instances IH]; intros w d Hw Hnow; cbn [reconcile_instances]; [done |].
  apply msafe_bind, msafe_attempt. eapply msafe_mono; [by apply reconcile_safe |].
  intros r d1 w1 Hw1. apply msafe_bind. destruct r as [u | error]; [apply msafe_ret | apply msafe_update]; by apply IH.
Qed.

(** ** The directory *)

Lemma listed_instances_safe {S} w (d : S) entries (Q : Res (list string) → S → SchedWorld → Prop) :
  (∀ r, Q r d w) → msafe w d (listed_instances store entries) Q.
Proof.
  revert Q. induction entries as [| entry entries IH]; intros Q HQ; cbn [listed_instances]; [apply HQ |].
  apply msafe_bind.
  assert (H : ∀ r, match r with
                   | Ok instance => msafe w d (instances ← listed_instances store entries;
                       mret (match instance with Some instance => instance :: instances | None => instances end)) Q
                   | Err e => Q (Err e) d w
                   end).
  { intros [instance | e]; [| apply HQ]. apply msafe_bind, IH. intros [instances |]; apply HQ. }
  unfold listed_instance. destruct entry as [[name |] | e]; [| by apply msafe_raise, (H (Err _))..].
  destruct (String.eqb name LOCK_FILE); [by apply msafe_ret, (H (Ok None)) |].
  destruct (record_instance name STATE_PREFIX) as [inst |]; [| by apply msafe_raise, (H (Err _))].
  apply msafe_bind, msafe_lift. destruct (validate_scheduler_instance inst); [| by apply (H (Err _))].
  make_call; [done |]. intros x w' [-> _]. destruct x as [| e | m]; [by apply msafe_raise, (H (Err _)).. |].
  apply msafe_bind, msafe_lift. destruct (private_file _ _ _); [| by apply (H (Err _))].
  by apply msafe_ret, (H (Ok (Some inst))).
Qed.

Lemma clean_entry_safe {S} w (d : S) entry :
  world_ok w → msafe w d (clean_entry store entry) good.
Proof.
  intros Hw. unfold clean_entry. destruct entry as [[name |] | e]; [| done..].
  make_call; [done |]. intros x w' [-> _]. destruct x as [| e | m]; [done | done |].
  destruct (String.eqb name LOCK_FILE); [done |].
  destruct (record_instance name STATE_PREFIX) as [inst |] eqn:En.
  - apply msafe_bind, msafe_lift. destruct (validate_scheduler_instance inst); [| done].
    apply msafe_bind, msafe_lift. by destruct (private_file _ _ _).
  - destruct (is_exact_temp_name name); [| done].
    apply msafe_bind, msafe_lift. destruct (private_file _ _ _); [| done].
    assert (Hp : sched_pre usize_max w (RemoveEntry name)) by done.
    apply try_store_safe. make_call; [exact Hp |]. intros x w1 Hs.
    pose proof (step_ok _ usize_bound _ _ _ _ Hp Hw Hs). by destruct x.
Qed.

Lemma clean_entries_safe {S} w (d : S) entries :
  world_ok w → msafe w d (clean_entries store entries) good.
Proof.
  revert w d. induction entries as [| entry entries IH]; intros w d Hw; cbn [clean_entries]; [done |].
  apply msafe_bind. eapply msafe_mono; [by apply clean_entry_safe |].
  intros [u | e] d1 w1 Hw1; [by apply IH | done].
Qed.

(** ** A poll and an acknowledgement *)

Lemma sched_poll_safe w d :
  world_ok w →
  msafe w d (poll_native_scheduler store usize_max localtime mktime time_t_max coordinator_generation) good.
Proof.
  intros Hw. unfold poll_native_scheduler. apply msafe_bind, msafe_attempt.
  eapply (msafe_mono _ _ _ _ _ good); [| intros [u | e] d' w' Hw'; [done | by apply msafe_update]].
  unfold poll_native_scheduler_inner. apply msafe_bind, msafe_update.
  apply msafe_bind, sched_try_call_safe. make_call; [done |]. intros x w' [-> Hms]. destruct x as [ms |]; [| done].
  assert (Hnow : is_u64 (ms / 1000)).
  { specialize (Hms ms eq_refl). unfold is_u64 in *. etransitivity; [| exact Hms]. by apply N.Div0.div_le_upper_bound; lia. }
  apply msafe_bind, msafe_lift. destruct (require_plausible_wall_clock _); [| done].
  apply msafe_bind, msafe_lift. destruct (local_calendar _ _ _ _ _ _) as [cal |]; [| done].
  apply msafe_bind, msafe_bind, msafe_bind, try_store_safe. make_call; [done |]. intros x w' ->.
  destruct x as [entries | e]; [| done].
  apply msafe_bind, listed_instances_safe. intros [instances |]; [| done].
  apply msafe_bind, msafe_lift. destruct (fail_if _ _); [| done]. apply msafe_ret.
  eapply msafe_mono; [by apply reconcile_instances_safe |]. intros [u | e] d1 w1 Hw1; [| done].
  apply msafe_bind, sched_try_call_safe. make_call; [done |]. intros x w' [-> Hcfg]. destruct x as [[committed snapshot] |]; [| done].
  apply msafe_bind, msafe_update, msafe_bind.
  eapply msafe_mono; [apply poll_instances_safe; [done | by eapply Hcfg | done] |].
  intros [u' | e] d2 w2 Hw2; [| done]. apply sched_try_call_safe. ask. by destruct x.
Qed.

(** An acknowledgement writes a reservation off only for an operator who asked for that. *)
Lemma acknowledgement_safe w d inst :
  world_ok w →
  (∀ s r, visible w inst s → s.(budget).(reservation) = Some r → r.(BudgetLedger.job_id) ∈ w.(sw_acknowledged)) →
  msafe w d (handle_scheduler_accounting_acknowledgement store usize_max inst) good.
Proof.
  intros Hw Hack. unfold handle_scheduler_accounting_acknowledgement.
  apply msafe_bind, msafe_attempt, load_state_safe. intros loaded Hsome _.
  destruct loaded as [[s |] | e]; [| done..].
  destruct (Hsome s eq_refl) as (Hv & Ht & Hi).
  assert (Hs : current w s) by (split; [done | exists s; by rewrite Hi]).
  destruct (negb _); [done |]. destruct (reservation (budget s)) as [r |] eqn:Er; [| done].
  make_call; [done |]. intros jobs w' [-> _].
  assert (Hoff : ∀ w1, world_ok w1 → w1.(sw_files) = w.(sw_files) → w1.(sw_acknowledged) = w.(sw_acknowledged) →
    msafe w1 d (write_off store inst s) good).
  { intros w1 Hw1 Hf Ha. unfold write_off.
    apply msafe_bind, msafe_attempt, on_local_safe, (acknowledge_safe usize_max usize_bound); [done | | |].
    - by eapply current_same_files.
    - intros r' Er'. rewrite Ha. by eapply Hack.
    - intros [n | e] s' w2 Hw2 _; [| done]. apply msafe_bind, msafe_update, msafe_bind, msafe_update, msafe_bind, msafe_update.
      done. }
  apply msafe_bind. unfold still_recoverable. destruct (find_job _ jobs) as [job |]; [| by apply msafe_ret, Hoff].
  destruct (live job); [done |].
  apply msafe_bind, msafe_attempt, exact_traffic_safe; [done |]. intros evidence w1 Hw1 Hf Ha _.
  destruct evidence as [e | e]; [done | by apply msafe_ret, Hoff].
Qed.
End passes.
