(* ===== verification/SchedulerSystem.v ===== *)
(** * The scheduler as a system

    The scheduler opens its store, polls, and takes acknowledgements; every call may fail,
    the process may be killed between any two calls, the power may be lost, and between the
    polls the coordinator's jobs change. This file states that as a step relation over the
    scheduler's own code and the worlds of [SchedulerSafety], and shows what holds of
    everything that can be reached. *)

From stdpp Require Import gmap.
From S2P Require Import Prelude RustStr SchedRecord ScheduleCursor BudgetLedger SchedulerState Vocabulary RustNet CapturePolicy OperationRequest OperationRoundtrip ControlProtocol JobJournal JournalContract Effects Binary64 SchedulerCalls SchedulerStore SchedulerRuntime SchedulerPoll SchedulerRecords SchedulerSafety SchedulerTransactions SchedulerPasses.
Local Open Scope string_scope.

(** ** Configurations *)

(** No scheduler, the scheduler between two polls, or what is left of a run of its code,
    which ends with a scheduler or without. *)
Inductive SchedConfig :=
  | SchedStopped
  | SchedResting (s : NativeSchedulerRuntime)
  | SchedRunning (m : prog sched_answer (option NativeSchedulerRuntime)).

Definition empty_runtime : NativeSchedulerRuntime :=
  {| quiet := ∅; errors := ∅; auto_apply_errors := ∅; auto_apply_warnings := ∅; waiting := ∅;
     accounting_blocks := ∅ |}.

Definition set_acknowledged (l : list string) (w : SchedWorld) : SchedWorld :=
  {| sw_files := w.(sw_files); sw_crash := w.(sw_crash); sw_jobs := w.(sw_jobs); sw_started := w.(sw_started);
     sw_verified := w.(sw_verified); sw_acknowledged := l |}.

(** A power loss: every record is one of the copies it could be, the histories stay. *)
Record power_loss (w w' : SchedWorld) : Prop := {
  loss_started : w'.(sw_started) = w.(sw_started);
  loss_verified : w'.(sw_verified) = w.(sw_verified);
  loss_acknowledged : w'.(sw_acknowledged) = w.(sw_acknowledged);
  loss_record : ∀ inst, ∃ o, o ∈ w.(sw_crash) (record_of inst)
    ∧ w'.(sw_files) !! record_of inst = (λ t, (t, true)) <$> o ∧ w'.(sw_crash) (record_of inst) = [o];
}.

Section system.
Context (usize_max : N) (usize_bound : (MAX_RECORD_BYTES ≤ usize_max ≤ u64_max)%N).
Context (store : SchedulerStore).
Context (localtime : N → option Tm) (mktime : Tm → Z) (time_t_max : N).
Context (coordinator_generation : string).
Abbreviation visible := (visible usize_max).
Abbreviation world_ok := (world_ok usize_max).

(** The method runs to its end and leaves its state. *)
Definition run_poll (s : NativeSchedulerRuntime) : prog sched_answer (option NativeSchedulerRuntime) :=
  prog_bind (poll_native_scheduler store usize_max localtime mktime time_t_max coordinator_generation s)
    (λ r, Ret (Some r.2)).
Definition run_acknowledgement (inst : string) (s : NativeSchedulerRuntime)
    : prog sched_answer (option NativeSchedulerRuntime) :=
  prog_bind (handle_scheduler_accounting_acknowledgement store usize_max inst s) (λ r, Ret (Some r.2)).
(** [SchedulerStore::open]; without its store there is no scheduler. *)
Definition run_open : prog sched_answer (option NativeSchedulerRuntime) :=
  prog_bind (clean_and_validate_entries store empty_runtime)
    (λ r, Ret (match r.1 with Ok _ => Some r.2 | Err _ => None end)).

Inductive system_step : SchedConfig * SchedWorld → SchedConfig * SchedWorld → Prop :=
  | step_poll s w : system_step (SchedResting s, w) (SchedRunning (run_poll s), w)
  (** the operator asks to write off the unknown traffic of the job an instance reserved for *)
  | step_acknowledge inst jobs s w :
      (∀ state r, visible w inst state → state.(budget).(reservation) = Some r → r.(BudgetLedger.job_id) ∈ jobs) →
      system_step (SchedResting s, w)
        (SchedRunning (run_acknowledgement inst s), set_acknowledged (jobs ++ w.(sw_acknowledged))%list w)
  | step_call c k x w w' : sched_step w c x w' → system_step (SchedRunning (Do c k), w) (SchedRunning (k x), w')
  | step_return s w :
      system_step (SchedRunning (Ret s), w)
        (match s with Some s => SchedResting s | None => SchedStopped end, w)
  (** the coordinator does other work *)
  | step_jobs s jobs w : system_step (SchedResting s, w) (SchedResting s, set_jobs jobs w.(sw_started) w)
  (** the process is killed, at any point, or the power is lost *)
  | step_kill cfg jobs w : system_step (cfg, w) (SchedStopped, set_jobs jobs w.(sw_started) w)
  | step_power_loss cfg w w' : power_loss w w' → system_step (cfg, w) (SchedStopped, w')
  | step_start w : system_step (SchedStopped, w) (SchedRunning run_open, w).

(** From any good world, in particular from an empty store. *)
Inductive sched_reachable : SchedConfig → SchedWorld → Prop :=
  | sched_start w : world_ok w → sched_reachable SchedStopped w
  | sched_next cfg w cfg' w' :
      sched_reachable cfg w → system_step (cfg, w) (cfg', w') → sched_reachable cfg' w'.

(** The call a configuration is about to make. *)
Definition pending_call (cfg : SchedConfig) : option SchedulerCall :=
  match cfg with SchedRunning (Do c _) => Some c | _ => None end.

(** ** The invariant *)

Definition sched_config_ok (cfg : SchedConfig) (w : SchedWorld) : Prop :=
  world_ok w
  ∧ match cfg with
    | SchedRunning m => safe (sched_pre usize_max) sched_step w m (λ _, world_ok)
    | _ => True
    end.

Lemma power_loss_ok w w' : world_ok w → power_loss w w' → world_ok w'.
Proof.
  intros Hw [Hs Hv Ha Hr]. apply (world_ok_sub usize_max w); [done | done | by rewrite Hv | by rewrite Ha | |].
  - intros inst p E. destruct (Hr inst) as (o & _ & Ef & _). rewrite Ef in E. destruct o; [| done]. by injection E as <-.
  - intros inst. destruct (Hr inst) as (o & Ho & Ef & Ec). unfold contents. rewrite Ef, Ec.
    replace (fst <$> ((λ t, (t, true)) <$> o)) with o by (by destruct o). set_solver.
Qed.

(** A good run of a method, followed by what reads its result. *)
Lemma finish_run {E A} w s (m : SM NativeSchedulerRuntime E A) (f : _ → option NativeSchedulerRuntime) :
  msafe (sched_pre usize_max) sched_step w s m (λ _ _, world_ok) →
  safe (sched_pre usize_max) sched_step w (prog_bind (m s) (λ r, Ret (f r))) (λ _, world_ok).
Proof. intros H. apply safe_bind. eapply safe_mono; [exact H |]. by intros r w'. Qed.

Lemma sched_config_step cfg w cfg' w' : sched_config_ok cfg w → system_step (cfg, w) (cfg', w') → sched_config_ok cfg' w'.
Proof.
  intros [Hw Hc] Hs. inversion Hs; subst.
  - split; [done |]. by apply finish_run, sched_poll_safe.
  - assert (Hw' : world_ok (set_acknowledged (jobs ++ w.(sw_acknowledged))%list w)).
    { apply (world_ok_sub usize_max w); try done; [set_solver | by apply Hw]. }
    split; [done |]. apply finish_run, acknowledgement_safe; [done | done |].
    intros state r Hv Er. apply elem_of_app. left.
    match goal with H : ∀ state r, visible _ _ state → _ |- _ => by eapply H end.
  - destruct Hc as [Hp Hk]. split; [by eapply step_ok | by apply Hk].
  - split; [done |]. by destruct s.
  - split; [| done]. apply (world_ok_sub usize_max w); try done. by apply Hw.
  - split; [| done]. apply (world_ok_sub usize_max w); try done. by apply Hw.
  - split; [by eapply power_loss_ok | done].
  - split; [done |]. apply finish_run. unfold clean_and_validate_entries.
    apply msafe_bind, try_store_safe. make_call; [done |]. intros x w1 ->. destruct x as [entries |]; [| done].
    by apply clean_entries_safe.
Qed.

Lemma reachable_sched_config cfg w : sched_reachable cfg w → sched_config_ok cfg w.
Proof. induction 1 as [w Hw | cfg w cfg' w' _ IH Hs]; [by split | by eapply sched_config_step]. Qed.

(** ** Claims *)

(** C14: Whatever fails, and whenever the process is killed or the power is lost: as long as
    the traffic of a job the scheduler started was neither measured exactly nor, at the
    operator's request, written off, its whole budget is reserved in the visible record of
    its instance and in every copy of that record a power loss could leave. *)
Theorem started_traffic_accounted cfg w job inst cap :
  sched_reachable cfg w → w.(sw_started) !! job = Some (inst, cap) →
  job ∈ w.(sw_verified).*1 ∨ job ∈ w.(sw_acknowledged)
  ∨ reserved_everywhere usize_max w inst job cap.
Proof. intros [Hw _]%reachable_sched_config E. by apply Hw. Qed.

(** C15: Every call of the scheduler is made where it may be: only temporary files are
    created, written and removed; a record is replaced only by a complete, synced one that
    follows from the visible record by one step of the ledger, and a reservation disappears
    only against the exact traffic of its job, for a job never started, or at the operator's
    request; and a job is started only when exactly the cap of its traffic is reserved for
    it in every copy of the record. *)
Theorem scheduler_calls_allowed cfg w c :
  sched_reachable cfg w → pending_call cfg = Some c → sched_pre usize_max w c.
Proof.
  intros [_ Hc]%reachable_sched_config Hp. destruct cfg as [| | [|]]; [done | done | done |].
  injection Hp as ->. apply Hc.
Qed.

(** C16: At every moment every record that is there, and every copy of it a power loss could
    leave, can be read, and its ledger is exactly the account book of some history: what is
    charged for the day and for the month is what the book says plus what is reserved. *)
Theorem records_are_account_books cfg w inst o t :
  sched_reachable cfg w → o ∈ contents w (record_of inst) → o = Some t →
  ∃ s book, state_decode usize_max t = Ok s ∧ represents book s.(budget).
Proof.
  intros [Hw _]%reachable_sched_config Ho ->. pose proof (ok_contents usize_max w Hw inst) as Hc.
  rewrite Forall_forall in Hc. destruct (Hc _ Ho) as [? | (t' & s & [= <-] & Hd & book & Hb)]; [done |].
  exists s, book. split; [done | by apply reaches_represents].
Qed.
End system.

(** ** A concrete run *)

Module SchedulerSample.
Definition usize_max : N := 4294967295.
Definition store : SchedulerStore := {| ss_root := "/etc/cake-autorate/scheduler"; ss_uid := 0; ss_process := 77 |}.
Definition localtime (now : N) : option Tm :=
  Some {| tm_sec := 0; tm_min := 30; tm_hour := 3; tm_mday := 5; tm_mon := 7; tm_year := 126; tm_isdst := 0 |}.
Definition mktime (t : Tm) : Z := 0.
Definition generation : string := RequestSample.repeat_char 32 "c".

Definition config : ScheduledInstanceConfig := {|
  sc_instance := "wan"; sc_instance_enabled := true; sc_scheduled_enabled := true; sc_interval_s := 3600;
  sc_idle_window_s := 0; sc_window_start_hour := 2; sc_window_end_hour := 5;
  sc_daily_limit_bytes := 500000000; sc_monthly_limit_bytes := 5000000000; sc_auto_apply := false;
  sc_active_threshold_kbps := 2000; sc_expected_target_interface := "eth0.2"; sc_backend := "speedtest-go";
  sc_route_mode := "explicit"; sc_explicit_route := None; sc_mwan3_member := ""; sc_profile := Gaming;
  sc_strategy := FullRaw; sc_access_medium := Cellular; sc_access_source := UserSelected;
  sc_access_confidence_percent := 90; sc_capacity_learning_policy := PassiveBounded;
  sc_service_dl_cap_kbps := None; sc_service_ul_cap_kbps := None |}.

Definition snapshot : RatingRuntimeSnapshot := {|
  rs_updated_unix_ms := 1789999999000; rs_runtime_generation := 7; rs_uplink_state := "ACTIVE";
  rs_route_test_ready := true; rs_sqm_runtime_managed := true; rs_sqm_runtime_healthy := true;
  rs_transport_probe_trusted := true; rs_baseline_ready := true; rs_baseline_samples := 10;
  rs_baseline_required_samples := 10; rs_dl_achieved_kbps := f64_of_N 100; rs_ul_achieved_kbps := f64_of_N 50;
  rs_cake_dl_kbps := f64_of_N 90000; rs_cake_ul_kbps := f64_of_N 18000 |}.

Definition request (intent : AutotuneLaunchIntent) (auto : bool) : OperationRequest := {|
  identity := RequestSample.id; created_unix_ms := 1790000000000; deadline_unix_ms := 1790000900000;
  origin := Scheduler; backend := "speedtest-go"; speedtest_direction := None;
  speedtest_server_id := Some 42%N; speedtest_topology := None; route := RequestSample.explicit_route;
  target_state := ExistingManaged; capture_policy := None;
  managed_sqm_section := Some "wan_sqm"; profile := Some Gaming; strategy := Some FullRaw;
  access_medium := Some Cellular; access_source := Some UserSelected;
  access_confidence_percent := 90; capacity_learning_policy := Some PassiveBounded;
  service_dl_cap_kbps := None; service_ul_cap_kbps := None;
  allow_sqm_disable := true; allow_active_traffic := false;
  scheduled_auto_apply_requested := auto; traffic_budget := intent.(li_traffic_budget);
  traffic_policy_explicit := true; traffic_plan := None; server_failure_retries := None |}.

Definition sample_request : OperationRequest :=
  match launch_intent config 500000000 with
  | Ok intent => request intent false
  | Err _ => RequestSample.request
  end.
Example sample_request_valid : request_validate sample_request = Ok tt.
Proof. by vm_compute. Qed.

(** The job the coordinator makes of it. *)
Definition job : ScannedJob := {|
  sj_journal := JournalSample.journal []; sj_request := sample_request; sj_disposition := DQueued |}.

Definition metadata (contents : string) : FileMetadata := {|
  fm_is_file := true; fm_is_symlink := false; fm_uid := 0; fm_mode := 384; fm_len := len contents |}.

(** An environment in which everything succeeds. *)
Definition reply (c : SchedulerCall) (w : SchedWorld) : sched_answer c * SchedWorld :=
  match c with
  | InspectEntry n => (match w.(sw_files) !! n with Some p => Found (metadata p.1) | None => NoSuchEntry end, w)
  | ReadEntry n => (ok_or (fst <$> w.(sw_files) !! n) "missing", w)
  | NextSequence => (1%N, w)
  | CreateEntry n => (Ok tt, set_files (<[n := ("", false)]> w.(sw_files)) w)
  | WriteEntry n t => (Ok tt, set_files (<[n := (t, false)]> w.(sw_files)) w)
  | SyncEntry n => (Ok tt, set_files (alter (λ p, (p.1, true)) n w.(sw_files)) w)
  | RenameEntry a b =>
      match w.(sw_files) !! a with
      | Some p =>
          (Ok tt, set_crash (λ n, if String.eqb n b then Some p.1 :: w.(sw_crash) n else w.(sw_crash) n)
                    (set_files (<[b := p]> (delete a w.(sw_files))) w))
      | None => (Err "missing", w)
      end
  | SyncRoot =>
      (Ok tt, set_crash (λ n, match w.(sw_files) !! n with
                              | Some (t, true) => [Some t]
                              | Some (_, false) => w.(sw_crash) n
                              | None => [None]
                              end) w)
  | RemoveEntry n => (Ok tt, set_files (delete n w.(sw_files)) w)
  | ListRoot => (Ok ((λ p, Ok (Some p.1)) <$> map_to_list w.(sw_files)), w)
  | EpochMs => (Ok 1790000000000%N, w)
  | ReadPolicy => (Ok (true, {| cs_instances := [config]; cs_issues := [] |}), w)
  | ListJobs => (w.(sw_jobs), w)
  | AdmissionRequested => (true, w)
  | StartupIssues => ([], w)
  | ReadRatingSnapshot _ => (Ok snapshot, w)
  | AttestNoCompeting => (Ok tt, w)
  | BuildRequest intent auto =>
      (if is_some (w.(sw_started) !! RequestSample.id.(OperationRequest.job_id)) then Err "busy"
       else Ok (request intent auto), w)
  | KernelRequestId => (Ok (RequestSample.repeat_char 32 "d"), w)
  | StartJob message =>
      ("started",
       match admission message with
       | Some (id, inst, cap) =>
           if holds_job id [job] then set_jobs [job] (<[id := (inst, cap)]> w.(sw_started)) w else w
       | None => w
       end)
  | NativeJobPaths _ _ => (Ok tt, w)
  | ReadTerminal _ _ => (Err "missing", w)
  | VerifyConsumed _ _ _ => (Err "missing", w)
  | PublicResult _ => (Err "missing", w)
  | HistoryDecisionBlocked _ _ => (Ok false, w)
  | PriorThroughputDecline _ => (Ok false, w)
  | ExecuteAutoApply _ => (Ok NotRequested, w)
  | ApplyMarkerPresent => (Ok false, w)
  | PushStartupIssue _ => (tt, w)
  | PublishStatus => (Ok tt, w)
  end.

Lemma sched_reply_step c w : sched_step w c (reply c w).1 (reply c w).2.
Proof.
  destruct c; cbn -[holds_job]; try done.
  - split; [done |]. by destruct (sw_files w !! name).
  - split; [done |]. intros t. by destruct (sw_files w !! name); [intros [= <-] |].
  - destruct (sw_files w !! from) as [p |] eqn:E; cbn; [by exists p | done].
  - split; [done |]. by intros n [= <-].
  - split; [done |]. intros b s [= <- <-]. by repeat constructor.
  - split; [done |]. by intros r [= <-].
  - split; [done |]. intros r. destruct (sw_started w !! _) as [v |] eqn:E; cbn; [done |].
    intros [= <-]. exact E.
  - destruct (admission message) as [[[id inst] cap] |]; [| by left].
    destruct (holds_job id [job]) eqn:E; [| by left]. right. by exists id, inst, cap, [job].
Qed.

Definition empty_world : SchedWorld := {|
  sw_files := ∅; sw_crash := λ _, [None]; sw_jobs := []; sw_started := ∅; sw_verified := []; sw_acknowledged := [] |}.

Abbreviation reachable := (sched_reachable usize_max store localtime mktime 9223372036854775807 generation).
Abbreviation poll := (run_poll usize_max store localtime mktime 9223372036854775807 generation).

(** The first [n] calls of a run, and a whole run. *)
Fixpoint call_steps {A} (n : nat) (m : prog sched_answer A) (w : SchedWorld) : prog sched_answer A * SchedWorld :=
  match n, m with
  | S n, Do c k => call_steps n (k (reply c w).1) (reply c w).2
  | _, _ => (m, w)
  end.

Lemma sched_calls_reachable n m w :
  reachable (SchedRunning m) w → reachable (SchedRunning (call_steps n m w).1) (call_steps n m w).2.
Proof.
  revert m w. induction n as [| n IH]; intros [a | c k] w H; try done.
  apply IH. eapply sched_next; [exact H |]. apply step_call, sched_reply_step.
Qed.

(** Opened, then two polls: the first starts the quiet window, the second the job. *)
Definition resting (r : prog sched_answer (option NativeSchedulerRuntime)) : NativeSchedulerRuntime :=
  match r with Ret (Some s) => s | _ => empty_runtime end.
Definition opened := call_steps 100 (run_open store) empty_world.
Definition first_poll := call_steps 100 (poll (resting opened.1)) opened.2.
Definition second_poll := call_steps 100 (poll (resting first_poll.1)) first_poll.2.

Definition finished (r : prog sched_answer (option NativeSchedulerRuntime)) : bool :=
  match r with Ret (Some _) => true | _ => false end.
Example scheduled_run :
  finished opened.1 = true ∧ finished first_poll.1 = true ∧ finished second_poll.1 = true
  ∧ map_to_list (resting first_poll.1).(waiting) = [("wan", "quiet-window-pending")]
  ∧ map_to_list (resting second_poll.1).(errors) = []
  ∧ map_to_list second_poll.2.(sw_started) = [(RequestSample.repeat_char 32 "a", ("wan", 500000000%N))].
Proof. vm_compute. split_and!; reflexivity. Qed.
End SchedulerSample.

Lemma sample_bound : (MAX_RECORD_BYTES ≤ SchedulerSample.usize_max ≤ u64_max)%N.
Proof. by split. Qed.

Lemma empty_world_ok : world_ok SchedulerSample.usize_max SchedulerSample.empty_world.
Proof. split; [done | | done]. intros inst. repeat constructor. Qed.

Lemma run_returns usize_max store localtime mktime time_t_max generation m w :
  sched_reachable usize_max store localtime mktime time_t_max generation (SchedRunning m) w →
  SchedulerSample.finished m = true →
  sched_reachable usize_max store localtime mktime time_t_max generation (SchedResting (SchedulerSample.resting m)) w.
Proof. intros H E. destruct m as [[s |] |]; [| done..]. eapply sched_next; [exact H |]. apply (step_return _ _ _ _ _ _ (Some s)). Qed.

Lemma sample_opened : SchedulerSample.reachable (SchedResting (SchedulerSample.resting SchedulerSample.opened.1)) SchedulerSample.opened.2.
Proof.
  apply run_returns; [| by vm_compute]. apply SchedulerSample.sched_calls_reachable.
  eapply sched_next; [apply sched_start, empty_world_ok | apply step_start].
Qed.

Lemma sample_first : SchedulerSample.reachable (SchedResting (SchedulerSample.resting SchedulerSample.first_poll.1)) SchedulerSample.first_poll.2.
Proof.
  apply run_returns; [| by vm_compute]. apply SchedulerSample.sched_calls_reachable.
  eapply sched_next; [apply sample_opened | apply step_poll].
Qed.

(** The second poll, [n] calls in. *)
Definition second_calls (n : nat) :=
  SchedulerSample.call_steps n (SchedulerSample.poll (SchedulerSample.resting SchedulerSample.first_poll.1))
    SchedulerSample.first_poll.2.

Lemma second_reachable n : SchedulerSample.reachable (SchedRunning (second_calls n).1) (second_calls n).2.
Proof. apply SchedulerSample.sched_calls_reachable. eapply sched_next; [apply sample_first | apply step_poll]. Qed.

Definition is_start (c : SchedulerCall) : bool := match c with StartJob _ => true | _ => false end.

(** Just before the job is started. *)
Lemma scheduler_calls_allowed_witness :
  ∃ c, pending_call (SchedRunning (second_calls 25).1) = Some c ∧ is_start c = true
    ∧ sched_pre SchedulerSample.usize_max (second_calls 25).2 c.
Proof.
  assert (E : is_some_and is_start (pending_call (SchedRunning (second_calls 25).1)) = true) by by vm_compute.
  pose proof (λ c, scheduler_calls_allowed _ sample_bound _ _ _ _ _ _ _ c (second_reachable 25)) as H.
  destruct (pending_call _) as [c |]; [| discriminate E].
  exists c. split; [reflexivity | split; [exact E | exact (H c eq_refl)]].
Defined.

(** Once it has been started. *)
Definition sample_job : string := RequestSample.repeat_char 32 "a".

Lemma started_traffic_accounted_witness :
  (second_calls 26).2.(sw_started) !! sample_job = Some ("wan", 500000000%N)
  ∧ (sample_job ∈ (second_calls 26).2.(sw_verified).*1 ∨ sample_job ∈ (second_calls 26).2.(sw_acknowledged)
     ∨ reserved_everywhere SchedulerSample.usize_max (second_calls 26).2 "wan" sample_job 500000000).
Proof.
  assert (E : (second_calls 26).2.(sw_started) !! sample_job = Some ("wan", 500000000%N)) by by vm_compute.
  split; [exact E |].
  exact (started_traffic_accounted _ sample_bound _ _ _ _ _ _ _ _ _ _ (second_reachable 26) E).
Defined.

Definition sample_record : string := default "" (fst <$> (second_calls 26).2.(sw_files) !! record_of "wan").

Lemma records_are_account_books_witness :
  ∃ s book, state_decode SchedulerSample.usize_max sample_record = Ok s ∧ represents book s.(budget).
Proof.
  refine (records_are_account_books _ sample_bound _ _ _ _ _ _ _ "wan" (Some sample_record) sample_record
            (second_reachable 26) _ eq_refl).
  assert (E : fst <$> (second_calls 26).2.(sw_files) !! record_of "wan" = Some sample_record) by by vm_compute.
  unfold contents. rewrite E. left.
Defined.
