(* ===== verification/SchedulerEvidence.v ===== *)
(** * What admits a scheduled calibration

    The evidence a poll decides on: the observations that prove the line was quiet, the
    local calendar with its windows and periods, and the budget below which nothing is
    started. *)

From stdpp Require Import list.
From S2P Require Import Prelude RustStr SchedRecord ScheduleCursor BudgetLedger SchedulerState Vocabulary Binary64 SchedulerCalls SchedulerRuntime SchedulerPoll.

(** ** Quiet evidence *)

(** An observation: a snapshot, with the threshold of the policy at that time. *)
Definition Observation : Type := RatingRuntimeSnapshot * N.
Abbreviation updated o := (rs_updated_unix_ms (fst o)).

(** The evidence after some observations, whatever window each of them asked for. *)
Definition observe_next (q : QuietEvidence) (o : Observation) : QuietEvidence := (observe q o.1 o.2 0).2.
Definition evidence (observations : list Observation) : QuietEvidence := foldl observe_next quiet_default observations.

(** A quiet observation of a runtime. *)
Definition quiet_at (generation : N) (o : Observation) : Prop :=
  quiet_eligible o.1 o.2 = true ∧ o.1.(rs_runtime_generation) = generation.

(** Neither a regression nor a stall between two observations. *)
Fixpoint paced (l : list Observation) : Prop :=
  match l with
  | a :: ((b :: _) as l) =>
      (updated a ≤ updated b ≤ updated a + SCHEDULER_RUNTIME_FRESHNESS_MS)%N ∧ paced l
  | _ => True
  end.

(** What evidence stands for: the observations since its first. *)
Definition stands_for (q : QuietEvidence) (l : list Observation) : Prop :=
  ∃ earlier first rest latest generation,
    l = earlier ++ first :: rest ∧ last (first :: rest) = Some latest
    ∧ Forall (quiet_at generation) (first :: rest) ∧ paced (first :: rest)
    ∧ q = {| q_runtime_generation := Some generation; q_first_snapshot_unix_ms := Some (updated first);
             q_last_snapshot_unix_ms := Some (updated latest) |}.

(** The window an observation asks for does not change the evidence. *)
Lemma observe_window q o window : (observe q o.1 o.2 window).2 = observe_next q o.
Proof. unfold observe_next, observe. by repeat case_match. Qed.

Lemma paced_snoc l a b :
  paced (l ++ [a]) → (updated a ≤ updated b ≤ updated a + SCHEDULER_RUNTIME_FRESHNESS_MS)%N → paced ((l ++ [a]) ++ [b]).
Proof.
  induction l as [| x l IH]; cbn; [done |]. intros Hp Hb.
  destruct l as [| y l]; cbn in *; [tauto |]. destruct Hp as [Hx Hp]. split; [done | by apply IH].
Qed.

Lemma last_snoc_inv (l : list Observation) x a : last (x :: l) = Some a → ∃ l', x :: l = l' ++ [a].
Proof.
  intros H. destruct (exists_last (l := x :: l)) as (l' & b & E); [done |].
  exists l'. rewrite E, last_snoc in H. congruence.
Qed.

Lemma evidence_stands l : evidence l = quiet_default ∨ stands_for (evidence l) l.
Proof.
  induction l as [| o l IH] using rev_ind; [by left |].
  unfold evidence. rewrite foldl_app. cbn [foldl]. fold (evidence l).
  set (q := evidence l) in *. destruct o as [s threshold]. unfold observe_next. cbn [fst snd].
  assert (Hfrom : quiet_eligible s threshold = true → stands_for (quiet_from s) (l ++ [(s, threshold)])).
  { intros He. exists l, (s, threshold), [], (s, threshold), s.(rs_runtime_generation). split_and!; try done.
    by repeat constructor. }
  unfold observe. destruct (quiet_eligible s threshold) eqn:He; cbn [negb orb]; [| by left].
  case_bool_decide as Hg; cbn [negb]; [| right; by apply Hfrom].
  destruct IH as [Hq | (earlier & first & rest & latest & generation & -> & Hlast & Hquiet & Hpaced & Hq)].
  { rewrite Hq in Hg. done. }
  rewrite Hq in *. cbn in Hg. injection Hg as Hgen. cbn [q_last_snapshot_unix_ms q_first_snapshot_unix_ms is_some_and].
  destruct (N.ltb_spec s.(rs_updated_unix_ms) (updated latest)) as [|Hle]; [by left |].
  destruct (N.ltb_spec SCHEDULER_RUNTIME_FRESHNESS_MS (u64_saturating_sub s.(rs_updated_unix_ms) (updated latest)))
    as [|Hgap]; [right; by apply Hfrom |].
  right. exists earlier, first, (rest ++ [(s, threshold)])%list, (s, threshold), generation.
  apply last_snoc_inv in Hlast as (l' & El).
  split_and!.
  - by rewrite <- app_assoc.
  - by rewrite app_comm_cons, last_snoc.
  - rewrite app_comm_cons. apply Forall_app. split; [done |]. by repeat constructor.
  - rewrite app_comm_cons, El. apply paced_snoc; [by rewrite <- El |].
    unfold u64_saturating_sub in Hgap. cbn. lia.
  - destruct (N.eqb_spec s.(rs_updated_unix_ms) (updated latest)) as [E | E]; cbn; [by rewrite E | done].
Qed.

Lemma paced_le first rest latest :
  paced (first :: rest) → last (first :: rest) = Some latest → (updated first ≤ updated latest)%N.
Proof.
  revert first. induction rest as [| o rest IH]; intros first Hp Hl; [by injection Hl as -> |].
  destruct Hp as [[Ho _] Hp]. etransitivity; [exact Ho | by apply IH].
Qed.

(** C17: Scheduled traffic needs proof that the line was quiet: when an observation completes
    the idle window, then it is the last of a sequence of uninterrupted observations of one
    generation of the runtime, every one of them at or below the threshold of its time,
    none older than the one before nor more than five seconds newer, that together span the
    whole window. *)
Theorem quiet_window_proven observations snapshot threshold window :
  is_u64 snapshot.(rs_updated_unix_ms) →
  (observe (evidence observations) snapshot threshold window).1 = true →
  ∃ earlier first rest,
    observations ++ [(snapshot, threshold)] = earlier ++ first :: rest
    ∧ last (first :: rest) = Some (snapshot, threshold)
    ∧ Forall (quiet_at snapshot.(rs_runtime_generation)) (first :: rest) ∧ paced (first :: rest)
    ∧ (updated first + window * 1000 ≤ snapshot.(rs_updated_unix_ms))%N.
Proof.
  intros Hu H. destruct (evidence_stands (observations ++ [(snapshot, threshold)])) as [E | E];
    unfold evidence in E; rewrite foldl_app in E; cbn [foldl] in E; fold (evidence observations) in E;
    rewrite <- (observe_window _ _ window) in E; cbn [fst snd] in E.
  - exfalso. unfold observe, quiet_default, quiet_from in *. repeat case_match; cbn in *; try done.
    by rewrite E in H.
  - destruct E as (earlier & first & rest & latest & generation & El & Hlast & Hquiet & Hpaced & E).
    exists earlier, first, rest.
    assert (latest = (snapshot, threshold)) as ->.
    { assert (Hl : last (earlier ++ first :: rest) = Some latest) by (by rewrite last_app, Hlast).
      rewrite <- El in Hl. rewrite last_snoc in Hl. congruence. }
    assert (Hg : generation = snapshot.(rs_runtime_generation)).
    { pose proof (proj1 (Forall_forall _ _) Hquiet _ (last_Some_elem_of _ _ Hlast)) as [_ Hg]. by symmetry. }
    subst generation. split_and!; try done.
    assert (Hne : updated first ≠ 0%N).
    { apply Forall_cons in Hquiet as [[He _] _]. unfold quiet_eligible in He. by reflect_bools. }
    pose proof (paced_le _ _ _ Hpaced Hlast) as Hle. clear Hpaced Hquiet Hlast El. cbn [fst] in *.
    unfold observe, u64_saturating_mul, u64_saturating_sub, is_u64 in *.
    destruct (evidence observations) as [g f l]. cbn in H, E.
    repeat case_match; try done; cbn [fst snd] in *; simplify_eq; cbn [is_some_and] in H; reflect_bools; lia.
Qed.

(** ** The local calendar *)

Lemma circle a b : (a < 24 → b < 24 → (a + 24 - b) mod 24 = if b <=? a then a - b else a + 24 - b)%N.
Proof.
  intros Ha Hb. destruct (N.leb_spec b a).
  - replace (a + 24 - b)%N with (a - b + 1 * 24)%N by lia. rewrite N.Div0.mod_add. apply N.mod_small. lia.
  - apply N.mod_small. lia.
Qed.

(** A window lies on the circle of the hours, from its start to before its end; a window
    that ends where it starts is the whole day. *)
Lemma window_circle hour start end_ :
  (hour < 24 → start < 24 → end_ < 24 →
   window_contains_hour hour start end_ = true ↔
   start = end_ ∨ (hour + 24 - start) mod 24 < (end_ + 24 - start) mod 24)%N.
Proof.
  intros Hh Hs He. rewrite !circle by done. unfold window_contains_hour.
  destruct (N.eqb_spec start end_), (N.ltb_spec start end_), (N.leb_spec start hour), (N.leb_spec start end_),
    (N.ltb_spec hour end_); cbn;
    (split; [intros ?; try first [done | left; lia | right; lia] | intros [? | ?]; try first [done | lia]]).
Qed.

(** A number of a date, as it is written and read. *)
Definition written_as (width : N) (parse : string → option N) (n : N) : bool :=
  let s := zero_padded (N.to_nat width) (Z.of_N n) in
  (len s =? width)%N && all_bytes is_ascii_digit s && bool_decide (parse s = Some n).

Lemma checked_range (P : N → bool) (lo count : N) n :
  forallb (λ k, P (lo + N.of_nat k)%N) (seq 0 (N.to_nat count)) = true → (lo ≤ n < lo + count)%N → P n = true.
Proof.
  intros H Hn. rewrite forallb_forall in H. specialize (H (N.to_nat (n - lo))).
  replace (lo + N.of_nat (N.to_nat (n - lo)))%N with n in H by lia. apply H, in_seq. lia.
Qed.

Lemma written_year n : (1970 ≤ n ≤ 9999)%N → written_as 4 str_parse_u16 n = true.
Proof. intros H. apply (checked_range _ 1970 8030); [by vm_compute | lia]. Qed.
Lemma written_small n : (n ≤ 99)%N → written_as 2 str_parse_u8 n = true.
Proof. intros H. apply (checked_range _ 0 100); [by vm_compute | lia]. Qed.

Lemma written_inv width parse n :
  written_as width parse n = true →
  let s := zero_padded (N.to_nat width) (Z.of_N n) in
  len s = width ∧ all_bytes is_ascii_digit s = true ∧ parse s = Some n.
Proof. unfold written_as. intros H. reflect_bools. by split_and!. Qed.

(** A text of this many digits that is read as this number; there is only one. *)
Definition spells (width : N) (s : string) (n : Z) : Prop :=
  len s = width ∧ all_bytes is_ascii_digit s = true ∧ str_parse_u16 s = Some (Z.to_N n).

Lemma written_short n : (n ≤ 99)%N → written_as 2 str_parse_u16 n = true.
Proof. intros H. apply (checked_range _ 0 100); [by vm_compute | lia]. Qed.

Lemma spells_year z : (1970 ≤ z ≤ 9999)%Z → spells 4 (zero_padded 4 z) z.
Proof.
  intros H. pose proof (written_inv _ _ _ (written_year (Z.to_N z) ltac:(lia))) as Hw.
  by rewrite Z2N.id in Hw by lia.
Qed.
Lemma spells_short z : (0 ≤ z ≤ 99)%Z → spells 2 (zero_padded 2 z) z.
Proof.
  intros H. pose proof (written_inv _ _ _ (written_short (Z.to_N z) ltac:(lia))) as Hw.
  by rewrite Z2N.id in Hw by lia.
Qed.

Lemma starts_with_app p s : starts_with p (p +:+ s) = true.
Proof. induction p as [| c p IH]; cbn; [done |]. by rewrite Ascii.eqb_refl. Qed.

Lemma split_at_len n a b : len a = N.of_nat n → split_at n (a +:+ b) = (a, b).
Proof. intros H. unfold len in H. apply Nat2N.inj in H as <-. apply split_at_append. Qed.

Lemma validate_written y m d :
  (1970 ≤ y ≤ 9999)%N → (1 ≤ m ≤ 12)%N → (1 ≤ d ≤ maximum_day y m)%N →
  let month := zero_padded 4 (Z.of_N y) +:+ zero_padded 2 (Z.of_N m) in
  validate_period (month +:+ zero_padded 2 (Z.of_N d)) month = Ok tt.
Proof.
  intros Hy Hm Hd. assert (Hd' : (d ≤ 99)%N).
  { etransitivity; [apply Hd |]. unfold maximum_day. by repeat case_match. }
  destruct (written_inv _ _ _ (written_year y Hy)) as (Ly & Ay & Py).
  destruct (written_inv _ _ _ (written_small m ltac:(lia))) as (Lm & Am & Pm).
  destruct (written_inv _ _ _ (written_small d Hd')) as (Ld & Ad & Pd).
  cbn [N.to_nat Pos.to_nat] in *. change (N.to_nat 4) with 4 in *. change (N.to_nat 2) with 2 in *.
  set (sy := zero_padded 4 _) in *. set (sm := zero_padded 2 (Z.of_N m)) in *. set (sd := zero_padded 2 (Z.of_N d)) in *.
  unfold validate_period. rewrite !len_append, !all_bytes_append, Ly, Lm, Ld, Ay, Am, Ad. cbn [andb negb orb N.eqb].
  rewrite starts_with_app, append_assoc, (split_at_len 4), (split_at_len 2) by done. cbn [negb orb fail_if mbind result_bind].
  change (4 + 2 + 2 =? 8)%N with true. change (4 + 2 =? 6)%N with true. cbn [negb orb fail_if mbind result_bind].
  rewrite Py, Pm, Pd. cbn [ok_or mbind result_bind].
  rewrite (proj2 (N.leb_le 1970 y)), (proj2 (N.leb_le y 9999)), (proj2 (N.leb_le 1 m)), (proj2 (N.leb_le m 12)) by lia.
  rewrite (proj2 (N.eqb_neq d 0)), (proj2 (N.ltb_ge _ d)) by lia. done.
Qed.

Section calendar.
Context (localtime : N → option Tm) (mktime : Tm → Z) (time_t_max : N).

(** [localtime] gives dates of the calendar, in the years the periods can name. *)
Definition calendar_date (t : Tm) : Prop :=
  (t.(tm_mday) ≤ Z.of_N (maximum_day (Z.to_N (t.(tm_year) + 1900)) (Z.to_N (t.(tm_mon) + 1))))%Z
  ∧ (t.(tm_year) ≤ 8099)%Z.

(** The full hour [start] of the day that lies [days] after the one of [local]. *)
Definition opening (local : Tm) (days : Z) (start : N) : Tm :=
  {| tm_sec := 0; tm_min := 0; tm_hour := Z.of_N start; tm_mday := local.(tm_mday) + days;
     tm_mon := local.(tm_mon); tm_year := local.(tm_year); tm_isdst := -1 |}.

(** When the window opens next: today if that is still to come, and tomorrow otherwise. *)
Definition opens_next (local : Tm) (now start n : N) : Prop :=
  (now < n)%N ∧
  Z.of_N n = if bool_decide (Z.of_N now < mktime (opening local 0 start))%Z
             then mktime (opening local 0 start) else mktime (opening local 1 start).

Lemma opening_candidate local days start :
  window_candidate local (local.(tm_mday) + days) start = opening local days start.
Proof. done. Qed.

Lemma opening_today local start : window_candidate local local.(tm_mday) start = opening local 0 start.
Proof. unfold window_candidate, opening. by rewrite Z.add_0_r. Qed.

Lemma next_window_ok local now start n :
  next_window mktime local now start = Ok n → opens_next local now start n.
Proof.
  unfold next_window, opens_next. rewrite opening_today, opening_candidate. intros H. unbind.
  case_match; unbind; subst;
    repeat match goal with H : (_ <? _)%Z = false |- _ => apply Z.ltb_ge in H
                         | H : (_ <=? _)%Z = true |- _ => apply Z.leb_le in H
                         | H : (_ <=? _)%Z = false |- _ => apply Z.leb_gt in H end;
    [rewrite bool_decide_false by lia | rewrite bool_decide_true by lia]; lia.
Qed.

Lemma next_window_total local now start :
  (0 ≤ mktime (opening local 0 start))%Z → (Z.of_N now < mktime (opening local 1 start))%Z →
  ∃ n, next_window mktime local now start = Ok n.
Proof.
  intros H0 H1. unfold next_window. rewrite opening_today, opening_candidate.
  apply Z.ltb_ge in H0 as ->. cbn [fail_if mbind result_bind].
  destruct (Z.leb_spec (mktime (opening local 0 start)) (Z.of_N now)) as [Hn | Hn].
  - assert (mktime (opening local 1 start) <? 0 = false)%Z as -> by (apply Z.ltb_ge; lia).
    apply Z.leb_gt in H1. unfold mret, result_ret. cbn [fail_if mbind result_bind].
    rewrite H1. cbn. eauto.
  - apply Z.leb_gt in Hn. unfold mret, result_ret. cbn [mbind result_bind]. rewrite Hn. cbn. eauto.
Qed.

(** What the calendar of a local time says. *)
Record calendar_of (now start end_ : N) (local : Tm) (cal : LocalCalendar) : Prop := {
  of_now : cal.(cal_now_unix_s) = now;
  of_hour : Z.of_N cal.(cal_hour) = local.(tm_hour);
  of_window : (cal.(cal_window_open) = true ↔
    start = end_ ∨ (cal.(cal_hour) + 24 - start) mod 24 < (end_ + 24 - start) mod 24)%N;
  of_next :
    if cal.(cal_window_open) then cal.(cal_next_window_open_unix_s) = None
    else ∃ n, cal.(cal_next_window_open_unix_s) = Some n ∧ opens_next local now start n;
  of_date : ∃ year month day,
    spells 4 year (local.(tm_year) + 1900) ∧ spells 2 month (local.(tm_mon) + 1) ∧
    spells 2 day local.(tm_mday) ∧
    cal.(cal_day) = year +:+ month +:+ day ∧ cal.(cal_month) = year +:+ month;
  of_period : validate_period cal.(cal_day) cal.(cal_month) = Ok tt;
}.

(** A clock, hours and local fields the calendar takes, with openings that can be resolved. *)
Definition calendar_resolvable (now start end_ : N) (local : Tm) : Prop :=
  (now ≠ 0 ∧ now ≤ time_t_max ∧ start ≤ 23 ∧ end_ ≤ 23)%N ∧
  (0 ≤ local.(tm_hour) ≤ 23 ∧ 0 ≤ local.(tm_mon) ≤ 11 ∧ 1 ≤ local.(tm_mday) ≤ 31 ∧
   70 ≤ local.(tm_year))%Z ∧
  (0 ≤ mktime (opening local 0 start))%Z ∧ (Z.of_N now < mktime (opening local 1 start))%Z.

Lemma local_calendar_ok now start end_ cal local :
  local_calendar localtime mktime time_t_max now start end_ = Ok cal →
  localtime now = Some local → calendar_date local → calendar_of now start end_ local cal.
Proof.
  unfold local_calendar, in_range. intros H Hl [Hday Hyear]. rewrite Hl in H. unbind. simplify_eq.
  reflect_bools.
  repeat match goal with
  | H : (_ <=? _)%Z = true |- _ => apply Z.leb_le in H
  | H : (_ <? _)%Z = false |- _ => apply Z.ltb_ge in H
  end.
  match goal with H : localtime now = Some ?t |- _ => rename t into local end.
  split; cbn [cal_now_unix_s cal_window_open cal_hour cal_next_window_open_unix_s cal_day cal_month].
  - done.
  - lia.
  - apply window_circle; lia.
  - destruct (window_contains_hour _ _ _) eqn:E; cbn [orb] in *; [by unbind |].
    destruct (N.eqb_spec start end_) as [-> | _]; [unfold window_contains_hour in E; by rewrite N.eqb_refl in E |].
    unbind. subst. eexists. split; [done |]. by apply next_window_ok.
  - exists (zero_padded 4 (tm_year local + 1900)), (zero_padded 2 (tm_mon local + 1)), (zero_padded 2 (tm_mday local)).
    split; [apply spells_year; lia |]. split; [apply spells_short; lia |]. split; [apply spells_short; lia |]. done.
  - rewrite <- append_assoc.
    rewrite <- (Z2N.id (tm_year local + 1900)), <- (Z2N.id (tm_mon local + 1)), <- (Z2N.id (tm_mday local)) by lia.
    apply validate_written; lia.
Qed.

Lemma local_calendar_total now start end_ local :
  localtime now = Some local → calendar_resolvable now start end_ local →
  ∃ cal, local_calendar localtime mktime time_t_max now start end_ = Ok cal.
Proof.
  intros Hl ((Hn & Ht & Hs & He) & (Hh & Hm & Hd & Hy) & H0 & H1). unfold local_calendar, in_range.
  apply N.eqb_neq in Hn. apply N.ltb_ge in Ht, Hs, He. rewrite Hn, Ht, Hs, He, Hl.
  cbn [orb fail_if mbind result_bind ok_or].
  rewrite !(proj2 (Z.leb_le _ _)), (proj2 (Z.ltb_ge _ _)) by lia. cbn [andb orb negb fail_if mbind result_bind].
  destruct (_ || _); [by eexists |].
  destruct (next_window_total local now start H0 H1) as [n ->]. by eexists.
Qed.

(** C18: The local calendar is exact. Its hour is the hour of the local time; the window is
    open when that hour lies on the circle of the hours from the start of the window to before
    its end, or always when it starts where it ends; while it is closed the calendar names the
    opening of this day when that is still to come and that of the next day otherwise, and what
    it names is to come; the day and the month are the year in four digits, the month in two
    and the day of the month in two, and they are periods the traffic ledger accepts. A
    calendar is given whenever the clock, the hours and the local fields are in range and the
    openings can be resolved. *)
Theorem calendar_exact now start end_ local :
  localtime now = Some local → calendar_date local →
  (∀ cal, local_calendar localtime mktime time_t_max now start end_ = Ok cal →
     calendar_of now start end_ local cal) ∧
  (calendar_resolvable now start end_ local →
     ∃ cal, local_calendar localtime mktime time_t_max now start end_ = Ok cal).
Proof.
  intros Hl Hd. split; [intros cal H; by apply local_calendar_ok | by apply local_calendar_total].
Qed.
End calendar.

(** ** The smallest budget *)

Lemma u128_add_small a b : (a + b < 2 ^ 128)%N → u128_saturating_add a b = (a + b)%N.
Proof. intros H. unfold u128_saturating_add, u128_max. lia. Qed.
Lemma u128_mul_small a b : (a * b < 2 ^ 128)%N → u128_saturating_mul a b = (a * b)%N.
Proof. intros H. unfold u128_saturating_mul, u128_max. lia. Qed.

(** The reserve without widths: a second and a quarter of both directions, rounded up to a
    byte, and one MiB. *)
Definition exact_stop_reserve (download_kbps upload_kbps : N) : N :=
  (((download_kbps + upload_kbps) * 125000 + 799) / 800 + 1048576)%N.

Lemma stop_reserve_value dl ul :
  is_u64 dl → is_u64 ul → traffic_stop_safety_reserve_bytes dl ul = N.min (exact_stop_reserve dl ul) u64_max.
Proof.
  unfold is_u64, u64_max. intros Hd Hu. unfold traffic_stop_safety_reserve_bytes, exact_stop_reserve,
    TRAFFIC_STOP_RESERVE_WINDOW_MS, TRAFFIC_STOP_RESERVE_HEADROOM_PERCENT, TRAFFIC_STOP_RESERVE_FIXED_BYTES.
  change (u128_saturating_mul 8 100) with 800%N.
  rewrite (u128_add_small dl ul) by lia. rewrite (u128_mul_small (dl + ul) 1000) by lia.
  rewrite (u128_mul_small ((dl + ul) * 1000) 125) by lia.
  rewrite (u128_add_small _ (800 - 1)) by lia.
  replace ((dl + ul) * 1000 * 125 + (800 - 1))%N with ((dl + ul) * 125000 + 799)%N by lia.
  set (v := (((dl + ul) * 125000 + 799) / 800)%N).
  assert (Hv : (v ≤ (dl + ul) * 125000 + 799)%N) by (apply N.Div0.div_le_upper_bound; lia).
  rewrite u128_add_small by lia. change (1024 * 1024)%N with 1048576%N.
  destruct (N.leb_spec (v + 1048576) u64_max); unfold u64_max in *; lia.
Qed.

(** The budget below which nothing is started is exact and nothing in it wraps: unless
    it saturates at the largest [u64], which no budget reaches, it is the traffic both
    directions can carry at their rates in one second and a quarter, rounded up to a byte,
    with one MiB and the two route proofs of 64 KiB. *)
Theorem minimum_budget_exact dl ul b :
  is_u64 dl → is_u64 ul → b = minimum_full_autotune_traffic_budget_bytes dl ul →
  b = N.min (exact_stop_reserve dl ul + 131072) u64_max
  ∧ ((b < u64_max)%N →
     ((dl + ul) * 125000 ≤ 800 * (b - 1179648) < (dl + ul) * 125000 + 800)%N).
Proof.
  intros Hd Hu ->. unfold minimum_full_autotune_traffic_budget_bytes, minimum_attempt_budget, u64_saturating_add,
    MIN_ROUTE_PROOF_BYTES.
  rewrite stop_reserve_value by done. change (2 * (64 * 1024))%N with 131072%N.
  set (x := exact_stop_reserve dl ul). split; [lia |]. intros Hb.
  assert (E : (N.min (N.min x u64_max + 131072) u64_max = x + 131072)%N) by lia. rewrite E.
  unfold x, exact_stop_reserve.
  pose proof (N.Div0.div_mod ((dl + ul) * 125000 + 799) 800) as Hm.
  pose proof (N.mod_lt ((dl + ul) * 125000 + 799) 800 ltac:(done)) as Hr.
  replace (((dl + ul) * 125000 + 799) / 800 + 1048576 + 131072 - 1179648)%N
    with (((dl + ul) * 125000 + 799) / 800)%N by lia.
  clear -Hm Hr. set (q := (_ / 800)%N) in *. set (r := (_ mod 800)%N) in *. lia.
Qed.

(** ** Witnesses *)

Module EvidenceSample.
Definition snapshot (ms : N) : RatingRuntimeSnapshot := {|
  rs_updated_unix_ms := ms; rs_runtime_generation := 7; rs_uplink_state := "ACTIVE"%string;
  rs_route_test_ready := true; rs_sqm_runtime_managed := true; rs_sqm_runtime_healthy := true;
  rs_transport_probe_trusted := true; rs_baseline_ready := true; rs_baseline_samples := 10;
  rs_baseline_required_samples := 10; rs_dl_achieved_kbps := f64_of_N 100; rs_ul_achieved_kbps := f64_of_N 50;
  rs_cake_dl_kbps := f64_of_N 90000; rs_cake_ul_kbps := f64_of_N 18000 |}.
(** A stall, then quiet observations over seven seconds. *)
Definition observations : list Observation :=
  [(snapshot 1000, 200); (snapshot 9000, 200); (snapshot 13000, 150)]%N.

Definition local : Tm :=
  {| tm_sec := 0; tm_min := 30; tm_hour := 6; tm_mday := 5; tm_mon := 7; tm_year := 126; tm_isdst := 0 |}.
Definition localtime (now : N) : option Tm := Some local.
(** Seconds since the start of the month. *)
Definition mktime (t : Tm) : Z := t.(tm_mday) * 86400 + t.(tm_hour) * 3600 + t.(tm_min) * 60.
Definition now : N := 455400.
Definition calendar : LocalCalendar :=
  match local_calendar localtime mktime 9223372036854775807 now 22 5 with
  | Ok cal => cal
  | Err _ => {| cal_now_unix_s := 0; cal_day := ""; cal_month := ""; cal_hour := 0; cal_window_open := true;
                cal_next_window_open_unix_s := None |}
  end.
Example calendar_closed :
  calendar.(cal_day) = "20260805"%string ∧ calendar.(cal_window_open) = false
  ∧ calendar.(cal_next_window_open_unix_s) = Some 511200%N.
Proof. by vm_compute. Qed.
End EvidenceSample.

Lemma quiet_window_proven_witness :
  ∃ earlier first rest,
    EvidenceSample.observations ++ [(EvidenceSample.snapshot 16000, 200%N)] = earlier ++ first :: rest
    ∧ last (first :: rest) = Some (EvidenceSample.snapshot 16000, 200%N)
    ∧ Forall (quiet_at 7) (first :: rest) ∧ paced (first :: rest)
    ∧ (updated first + 7 * 1000 ≤ 16000)%N.
Proof.
  refine (quiet_window_proven EvidenceSample.observations (EvidenceSample.snapshot 16000) 200 7 _ _);
    [vm_compute; discriminate | vm_compute; reflexivity].
Defined.

Lemma calendar_exact_witness :
  calendar_of EvidenceSample.mktime EvidenceSample.now 22 5 EvidenceSample.local EvidenceSample.calendar ∧
  (∃ cal, local_calendar EvidenceSample.localtime EvidenceSample.mktime 9223372036854775807
     EvidenceSample.now 22 5 = Ok cal).
Proof.
  destruct (calendar_exact EvidenceSample.localtime EvidenceSample.mktime 9223372036854775807
    EvidenceSample.now 22 5 EvidenceSample.local eq_refl) as [He Ht]; [by split; vm_compute |].
  split; [apply He; vm_compute; reflexivity |]. apply Ht. by split_and!; vm_compute.
Defined.

Lemma minimum_budget_exact_witness :
  (18054648 = N.min (exact_stop_reserve 90000 18000 + 131072) u64_max)%N.
Proof.
  refine (proj1 (minimum_budget_exact 90000 18000 18054648 _ _ _)); [vm_compute; discriminate.. | vm_compute; reflexivity].
Defined.
