(* ===== verification/TransportQuality.v ===== *)
(** * Transport latency and the search for quality

    [transport_quality.rs]: the windows of transport latencies, the evidence they are for the
    rate controller, and the search of one direction for a rate with an acceptable latency. *)

From stdpp Require Import sorting.
From S2P Require Import Prelude Binary64 StdTime.

Local Open Scope N_scope.

Definition IDLE_WINDOW : nat := 120.
Definition LOADED_WINDOW : nat := 40.
Definition MIN_IDLE_SAMPLES : nat := 20.
Definition MIN_LOADED_SAMPLES : nat := 20.

(** ** The throughput guard *)

Record ThroughputGuardInput := {
  tg_enabled : bool;
  tg_configured_min_kbps : f64;
  tg_configured_base_kbps : f64;
  tg_observed_p20_kbps : f64;
  tg_observed_p50_kbps : f64;
  tg_absolute_floor_kbps : f64;
  tg_retention_percent : f64;
}.

Definition throughput_floor (i : ThroughputGuardInput) : f64 :=
  if negb i.(tg_enabled) then f64_max i.(tg_configured_min_kbps) f64_one
  else
    let p20 := f64_ltb f64_zero i.(tg_observed_p20_kbps) in
    let p50 := f64_ltb f64_zero i.(tg_observed_p50_kbps) in
    let three_quarters := f64_mul (f64_lit 75 100) in
    let reference :=
      if p20 && p50 then f64_max i.(tg_observed_p20_kbps) (three_quarters i.(tg_observed_p50_kbps))
      else if p20 then i.(tg_observed_p20_kbps)
      else if p50 then three_quarters i.(tg_observed_p50_kbps)
      else three_quarters i.(tg_configured_base_kbps) in
    let retention := f64_clamp (f64_div i.(tg_retention_percent) (f64_of_N 100)) f64_zero f64_one in
    f64_max (f64_max (f64_max i.(tg_configured_min_kbps) i.(tg_absolute_floor_kbps))
      (f64_mul reference retention)) f64_one.

(** ** Percentiles *)

Definition sort_f64 : list f64 → list f64 := merge_sort (λ x y, f64_total_leb x y).

Definition f64_as_usize (x : f64) : nat := N.to_nat (f64_to_u64 x).
Definition f64_of_nat (n : nat) : f64 := f64_of_N (N.of_nat n).

(** The indices are at most the last one, so that the lookups find their values; [None] would
    stand for the panic of an index out of range. *)
Definition percentile (values : list f64) (p : f64) : option f64 :=
  let sorted := sort_f64 (filter (λ x, f64_is_finite x = true) values) in
  match sorted with
  | [] => None
  | _ =>
      let index := f64_mul (f64_div (f64_clamp p f64_zero (f64_of_N 100)) (f64_of_N 100))
                     (f64_of_nat (length sorted - 1)) in
      let lower := f64_as_usize (f64_floor index) in
      let upper := f64_as_usize (f64_ceil index) in
      if (lower =? upper)%nat then sorted !! lower
      else
        let weight := f64_sub index (f64_of_nat lower) in
        low ← sorted !! lower;
        high ← sorted !! upper;
        Some (f64_add (f64_mul low (f64_sub f64_one weight)) (f64_mul high weight))
  end.

(** ** The tracker of latencies *)

Record TransportSnapshot := {
  ts_status : string;
  ts_endpoint : option string;
  ts_latency_ms : option f64;
  ts_baseline_ms : option f64;
  ts_delta_ms : option f64;
  ts_confirmed : bool;
  ts_confidence : N;
  ts_sample_age_s : option f64;
  ts_successful_samples : N;
  ts_failed_samples : N;
  ts_last_error : option string;
}.

Record TransportLatencyTracker := {
  tl_idle_samples : gmap string (list f64);
  tl_loaded_deltas : list (N * f64);
  tl_last_endpoint : option string;
  tl_last_latency_ms : option f64;
  tl_last_baseline_ms : option f64;
  tl_last_success_at : option N;
  tl_successful_samples : N;
  tl_failed_samples : N;
  tl_last_error : option string;
}.

Definition tracker_new : TransportLatencyTracker :=
  {| tl_idle_samples := ∅; tl_loaded_deltas := []; tl_last_endpoint := None;
     tl_last_latency_ms := None; tl_last_baseline_ms := None; tl_last_success_at := None;
     tl_successful_samples := 0; tl_failed_samples := 0; tl_last_error := None |}.

Definition u64_saturating_succ (n : N) : N := N.min u64_max (n + 1).

Definition observe_failure (t : TransportLatencyTracker) (error : string) : TransportLatencyTracker :=
  {| tl_idle_samples := t.(tl_idle_samples); tl_loaded_deltas := t.(tl_loaded_deltas);
     tl_last_endpoint := t.(tl_last_endpoint); tl_last_latency_ms := t.(tl_last_latency_ms);
     tl_last_baseline_ms := t.(tl_last_baseline_ms); tl_last_success_at := t.(tl_last_success_at);
     tl_successful_samples := t.(tl_successful_samples);
     tl_failed_samples := u64_saturating_succ t.(tl_failed_samples); tl_last_error := Some error |}.

(** The fifth percentile of the idle samples of the endpoint, once there are enough of them. *)
Definition baseline (samples : gmap string (list f64)) (endpoint : string) : option f64 :=
  samples ← samples !! endpoint;
  if (length samples <? MIN_IDLE_SAMPLES)%nat then None
  else
    let sorted := sort_f64 samples in
    sorted !! f64_as_usize (f64_floor (f64_mul (f64_of_nat (length sorted - 1)) (f64_lit 5 100))).

(** [while window.len() > n { window.pop_front() }]. *)
Definition keep_last {A} (n : nat) (l : list A) : list A := drop (length l - n) l.

Definition confirmed_delta_ms (t : TransportLatencyTracker) : option f64 :=
  if (length t.(tl_loaded_deltas) <? MIN_LOADED_SAMPLES)%nat then None
  else percentile (map snd t.(tl_loaded_deltas)) (f64_of_N 90).

(** The fields every accepted sample writes. *)
Definition accept_sample (t : TransportLatencyTracker) (endpoint : string) (latency : f64) (now : N)
    (idle : gmap string (list f64)) (loaded : list (N * f64)) (baseline_ms : option f64) :
    TransportLatencyTracker :=
  {| tl_idle_samples := idle; tl_loaded_deltas := loaded; tl_last_endpoint := Some endpoint;
     tl_last_latency_ms := Some latency; tl_last_baseline_ms := baseline_ms;
     tl_last_success_at := Some now;
     tl_successful_samples := u64_saturating_succ t.(tl_successful_samples);
     tl_failed_samples := t.(tl_failed_samples); tl_last_error := None |}.

Definition observe_success (t : TransportLatencyTracker) (endpoint : string) (latency : f64)
    (loaded : bool) (now : N) : option f64 * TransportLatencyTracker :=
  if negb (f64_is_finite latency) || f64_leb latency f64_zero then
    (None, observe_failure t "invalid transport latency sample")
  else
    let base := baseline t.(tl_idle_samples) endpoint in
    if negb loaded then
      let samples := keep_last IDLE_WINDOW (default [] (t.(tl_idle_samples) !! endpoint) ++ [latency]) in
      let idle := <[endpoint := samples]> t.(tl_idle_samples) in
      (None, accept_sample t endpoint latency now idle t.(tl_loaded_deltas) (baseline idle endpoint))
    else
      match base with
      | None => (None, accept_sample t endpoint latency now t.(tl_idle_samples) t.(tl_loaded_deltas) None)
      | Some b =>
          let delta := f64_max (f64_sub latency b) f64_zero in
          let t := accept_sample t endpoint latency now t.(tl_idle_samples)
                     (keep_last LOADED_WINDOW (t.(tl_loaded_deltas) ++ [(now, delta)])) (Some b) in
          (confirmed_delta_ms t, t)
      end.

(** [while front is older than max_age { pop_front() }]. *)
Fixpoint drop_old (now max_age : N) (l : list (N * f64)) : list (N * f64) :=
  match l with
  | (at_, _) :: l' => if max_age <? now - at_ then drop_old now max_age l' else l
  | [] => []
  end.

Definition expire_loaded (t : TransportLatencyTracker) (now max_age : N) : TransportLatencyTracker :=
  {| tl_idle_samples := t.(tl_idle_samples);
     tl_loaded_deltas := drop_old now max_age t.(tl_loaded_deltas);
     tl_last_endpoint := t.(tl_last_endpoint); tl_last_latency_ms := t.(tl_last_latency_ms);
     tl_last_baseline_ms := t.(tl_last_baseline_ms); tl_last_success_at := t.(tl_last_success_at);
     tl_successful_samples := t.(tl_successful_samples); tl_failed_samples := t.(tl_failed_samples);
     tl_last_error := t.(tl_last_error) |}.

(** The progress of a window, up to fifty percent. *)
Definition progress (count minimum : nat) : N := N.of_nat (Nat.min count minimum) * 50 / N.of_nat minimum.

Definition snapshot_with_max_age (t : TransportLatencyTracker) (now : N) (enabled : bool)
    (max_age : N) : TransportSnapshot :=
  let loaded := map snd (filter (λ e, now - e.1 <= max_age) t.(tl_loaded_deltas)) in
  let age := (λ at_, duration_as_secs_f64 (now - at_)) <$> t.(tl_last_success_at) in
  let stale := is_some_and (λ age, f64_ltb (duration_as_secs_f64 max_age) age) age in
  let delta :=
    if enabled && negb stale && (MIN_LOADED_SAMPLES <=? length loaded)%nat
    then percentile loaded (f64_of_N 90) else None in
  let baseline_count :=
    default 0%nat (endpoint ← t.(tl_last_endpoint); length <$> t.(tl_idle_samples) !! endpoint) in
  let confidence :=
    if enabled && negb stale
    then N.min 255 (progress baseline_count MIN_IDLE_SAMPLES + progress (length loaded) MIN_LOADED_SAMPLES)
    else 0 in
  let status :=
    if negb enabled then "disabled"
    else if is_some t.(tl_last_error) && negb (is_some t.(tl_last_success_at)) then "error"
    else if negb (is_some t.(tl_last_success_at)) then "missing"
    else if stale then "stale"
    else if is_some delta then "ready"
    else if (MIN_IDLE_SAMPLES <=? baseline_count)%nat && (length loaded =? 0)%nat then "baseline_ready"
    else if (MIN_IDLE_SAMPLES <=? baseline_count)%nat then "learning_loaded"
    else "learning_baseline" in
  {| ts_status := status; ts_endpoint := t.(tl_last_endpoint); ts_latency_ms := t.(tl_last_latency_ms);
     ts_baseline_ms := t.(tl_last_baseline_ms); ts_delta_ms := delta; ts_confirmed := is_some delta;
     ts_confidence := confidence; ts_sample_age_s := age;
     ts_successful_samples := t.(tl_successful_samples); ts_failed_samples := t.(tl_failed_samples);
     ts_last_error := t.(tl_last_error) |}.

(** ** Evidence *)

Inductive QualityClass := ClassLearning | ClassAPlus | ClassA | ClassB | ClassC | ClassD | ClassF.

Definition quality_as_str (c : QualityClass) : string :=
  match c with
  | ClassLearning => "LEARNING" | ClassAPlus => "A+" | ClassA => "A" | ClassB => "B" | ClassC => "C"
  | ClassD => "D" | ClassF => "F"
  end.

Definition classify_quality (delta : option f64) : QualityClass :=
  match delta with
  | None => ClassLearning
  | Some delta =>
      if negb (f64_is_finite delta && f64_leb f64_zero delta) then ClassLearning
      else if f64_ltb delta (f64_of_N 5) then ClassAPlus
      else if f64_ltb delta (f64_of_N 30) then ClassA
      else if f64_ltb delta (f64_of_N 60) then ClassB
      else if f64_ltb delta (f64_of_N 200) then ClassC
      else if f64_ltb delta (f64_of_N 400) then ClassD
      else ClassF
  end.

Definition effective_latency_delta_ms (icmp_dl_us icmp_ul_us : f64) (transport_ms : option f64) : f64 :=
  let icmp_ms := f64_max (f64_div (f64_max icmp_dl_us icmp_ul_us) (f64_of_N 1000)) f64_zero in
  f64_max (default f64_zero transport_ms) icmp_ms.

Inductive TransportEvidence := EvDisabled | EvMissing | EvStale | EvUnconfirmed | EvGood | EvBad.

#[export] Instance transport_evidence_eq_dec : EqDecision TransportEvidence.
Proof. solve_decision. Defined.

Definition allows_icmp_growth (e : TransportEvidence) : bool := bool_decide (e ≠ EvBad).
Definition allows_promotion (e : TransportEvidence) : bool :=
  match e with EvDisabled | EvGood => true | _ => false end.

Definition nonnegative (x : f64) : bool := f64_is_finite x && f64_leb f64_zero x.

Definition transport_evidence (enabled confirmed : bool) (sample_age_s : option f64) (max_age_s : f64)
    (delta_ms : option f64) (target_delay_ms : f64) : TransportEvidence :=
  if negb enabled then EvDisabled
  else
    match sample_age_s with
    | None => EvMissing
    | Some age =>
        if negb (nonnegative age) then EvMissing
        else if negb (f64_is_finite max_age_s) || f64_ltb max_age_s f64_zero || f64_ltb max_age_s age
        then EvStale
        else
          match delta_ms with
          | None => EvUnconfirmed
          | Some delta =>
              if negb (nonnegative delta) then EvUnconfirmed
              else if negb confirmed || negb (f64_is_finite target_delay_ms)
                      || f64_ltb target_delay_ms f64_zero then EvUnconfirmed
              else if f64_leb delta target_delay_ms then EvGood
              else EvBad
          end
    end.
