(* ===== verification/QualitySearch.v ===== *)
(** * The search for a rate with an acceptable latency

    [QualitySearchDirection] of [transport_quality.rs]: under high load with a confirmed
    excess of latency the rate is lowered step by step; a step that does not help ends the
    search, which then asks for the best rate it has seen and pauses. *)

From S2P Require Import Prelude Binary64 StdTime.

Local Open Scope N_scope.

Record QualitySearchPolicy := {
  target_delay_ms : f64;
  floor_kbps : f64;
  max_steps : N;
  observe_duration : N;
  qs_cooldown : N;
}.

Record QualitySearchUpdate := {
  requested_rate_kbps : option f64;
  qu_limited : bool;
  qu_reason : string;
}.

Record QualitySearchDirection := {
  steps : N;
  start_rate_kbps : option f64;
  start_delta_ms : option f64;
  best_rate_kbps : option f64;
  best_delta_ms : option f64;
  previous_rate_kbps : option f64;
  previous_delta_ms : option f64;
  last_step_at : option N;
  cooldown_until : option N;
  limited : bool;
  last_reason : string;
}.

Definition search_new : QualitySearchDirection :=
  {| steps := 0; start_rate_kbps := None; start_delta_ms := None; best_rate_kbps := None;
     best_delta_ms := None; previous_rate_kbps := None; previous_delta_ms := None;
     last_step_at := None; cooldown_until := None; limited := false; last_reason := "learning" |}.

Section operations.
Implicit Types s : QualitySearchDirection.

(** Everything but [last_reason] is as new. *)
Definition reset_episode s : QualitySearchDirection :=
  {| steps := 0; start_rate_kbps := None; start_delta_ms := None; best_rate_kbps := None;
     best_delta_ms := None; previous_rate_kbps := None; previous_delta_ms := None;
     last_step_at := None; cooldown_until := None; limited := false;
     last_reason := s.(last_reason) |}.

(** [self.last_reason = reason]. *)
Definition with_reason s (reason : string) : QualitySearchDirection :=
  {| steps := s.(steps); start_rate_kbps := s.(start_rate_kbps); start_delta_ms := s.(start_delta_ms);
     best_rate_kbps := s.(best_rate_kbps); best_delta_ms := s.(best_delta_ms);
     previous_rate_kbps := s.(previous_rate_kbps); previous_delta_ms := s.(previous_delta_ms);
     last_step_at := s.(last_step_at); cooldown_until := s.(cooldown_until);
     limited := s.(limited); last_reason := reason |}.

(** The starting point of an episode is also its best candidate. *)
Definition with_start s (rate delta : f64) : QualitySearchDirection :=
  {| steps := s.(steps); start_rate_kbps := Some rate; start_delta_ms := Some delta;
     best_rate_kbps := Some rate; best_delta_ms := Some delta;
     previous_rate_kbps := s.(previous_rate_kbps); previous_delta_ms := s.(previous_delta_ms);
     last_step_at := s.(last_step_at); cooldown_until := s.(cooldown_until);
     limited := s.(limited); last_reason := s.(last_reason) |}.

Definition with_best s (rate delta : f64) : QualitySearchDirection :=
  {| steps := s.(steps); start_rate_kbps := s.(start_rate_kbps); start_delta_ms := s.(start_delta_ms);
     best_rate_kbps := Some rate; best_delta_ms := Some delta;
     previous_rate_kbps := s.(previous_rate_kbps); previous_delta_ms := s.(previous_delta_ms);
     last_step_at := s.(last_step_at); cooldown_until := s.(cooldown_until);
     limited := s.(limited); last_reason := s.(last_reason) |}.

Definition note_candidate s (rate delta : f64) : QualitySearchDirection :=
  let replace := match s.(best_delta_ms) with
    | Some best => f64_ltb (f64_add delta f64_one) best | None => true end in
  if replace then with_best s rate delta else s.

(** [unwrap_or(f64::INFINITY)]. *)
Definition f64_infinity : f64 := SpecFloat.S754_infinity false.

Definition fallback_rate s : f64 :=
  let start_rate := default f64_one s.(start_rate_kbps) in
  let start_delta := default f64_infinity s.(start_delta_ms) in
  let best_rate := default start_rate s.(best_rate_kbps) in
  let best_delta := default start_delta s.(best_delta_ms) in
  let meaningful := f64_leb (f64_of_N 30) (f64_sub start_delta best_delta)
    || (f64_ltb f64_zero start_delta && f64_leb best_delta (f64_mul start_delta (f64_lit 75 100))) in
  if meaningful then best_rate else start_rate.

Definition limit s (now cooldown : N) (requested : option f64) (reason : string) :
    QualitySearchUpdate * QualitySearchDirection :=
  ({| requested_rate_kbps := requested; qu_limited := true; qu_reason := reason |},
   {| steps := s.(steps); start_rate_kbps := s.(start_rate_kbps); start_delta_ms := s.(start_delta_ms);
      best_rate_kbps := s.(best_rate_kbps); best_delta_ms := s.(best_delta_ms);
      previous_rate_kbps := s.(previous_rate_kbps); previous_delta_ms := s.(previous_delta_ms);
      last_step_at := s.(last_step_at); cooldown_until := Some (now + cooldown);
      limited := true; last_reason := reason |}).

Definition no_change s (reason : string) : QualitySearchUpdate * QualitySearchDirection :=
  ({| requested_rate_kbps := None; qu_limited := s.(limited); qu_reason := reason |}, s).

Definition causal_state s : string :=
  if bool_decide (s.(last_reason) = "candidate_no_meaningful_gain")
     || bool_decide (s.(last_reason) = "candidate_worsened_latency") then "no_cake_effect"
  else if bool_decide (s.(last_reason) = "target_met") then "controlled"
  else if bool_decide (s.(last_reason) = "transport_latency_backoff")
          || bool_decide (s.(last_reason) = "observing_candidate") then "evaluating"
  else "unknown".

Definition no_cake_effect s : option bool :=
  if bool_decide (causal_state s = "no_cake_effect") then Some true
  else if bool_decide (causal_state s = "controlled") then Some false
  else None.

(** *** One observation *)

Section observe.
Context (now : N) (rate delta : f64) (policy : QualitySearchPolicy).

(** A step down: [(target / delta).max(0.0).sqrt().clamp(0.70, 0.97)] of the rate, not below the
    floor. *)
Definition backoff_candidate : f64 :=
  let factor := f64_clamp (f64_sqrt (f64_max (f64_div policy.(target_delay_ms) delta) f64_zero))
                  (f64_lit 70 100) (f64_lit 97 100) in
  f64_max (f64_mul rate factor) policy.(floor_kbps).

Definition step_down s : QualitySearchUpdate * QualitySearchDirection :=
  if f64_leb rate (f64_mul policy.(floor_kbps) (f64_lit 101 100)) then
    limit s now policy.(qs_cooldown) (Some (fallback_rate s)) "target_unreachable_above_throughput_floor"
  else if policy.(max_steps) <=? s.(steps) then
    limit s now policy.(qs_cooldown) (Some (fallback_rate s)) "quality_search_step_limit"
  else
    ({| requested_rate_kbps := Some backoff_candidate; qu_limited := false;
        qu_reason := "transport_latency_backoff" |},
     {| steps := N.min 255 (s.(steps) + 1); start_rate_kbps := s.(start_rate_kbps);
        start_delta_ms := s.(start_delta_ms); best_rate_kbps := s.(best_rate_kbps);
        best_delta_ms := s.(best_delta_ms); previous_rate_kbps := Some rate;
        previous_delta_ms := Some delta; last_step_at := Some now;
        cooldown_until := s.(cooldown_until); limited := s.(limited);
        last_reason := "transport_latency_backoff" |}).

(** The judgement of the step before: it must have been observed long enough and have helped. *)
Definition judge_step s : QualitySearchUpdate * QualitySearchDirection :=
  match s.(last_step_at) with
  | None => step_down s
  | Some at_ =>
      if now - at_ <? policy.(observe_duration) then no_change s "observing_candidate"
      else
        let previous := default delta s.(previous_delta_ms) in
        if f64_leb (f64_of_N 10) (f64_sub previous delta) then step_down (note_candidate s rate delta)
        else limit s now policy.(qs_cooldown) (Some (fallback_rate s))
               (if f64_ltb (f64_add previous (f64_of_N 5)) delta then "candidate_worsened_latency"
                else "candidate_no_meaningful_gain")
  end.

(** An episode starts with the first excess of latency. *)
Definition begin_episode s : QualitySearchDirection :=
  match s.(start_rate_kbps) with None => with_start s rate delta | Some _ => s end.

Definition observe s (high_load : bool) : QualitySearchUpdate * QualitySearchDirection :=
  if negb high_load || negb (f64_is_finite delta) then no_change s "waiting_for_high_load"
  else if f64_ltb rate policy.(floor_kbps) then
    no_change (with_reason (reset_episode s) "icmp_rate_below_transport_floor")
      "icmp_rate_below_transport_floor"
  else if f64_leb delta policy.(target_delay_ms) then
    no_change (with_reason (reset_episode s) "target_met") "target_met"
  else if is_some_and (λ until, now <? until) s.(cooldown_until) then
    no_change s "quality_limited_cooldown"
  else
    let s := if is_some s.(cooldown_until) then reset_episode s else s in
    judge_step (begin_episode s).
End observe.
End operations.
