(* ===== verification/QualityContract.v ===== *)
(** * What the search for quality promises

    Every rate it asks for is a step down from the current rate or a rate of the same episode,
    never below the throughput floor, and under a persistent excess of latency the search gives
    up after its bounded number of steps. *)

From Stdlib Require Import Reals Lra SpecFloat.
From S2P Require Import Prelude RateLimits Binary64 FloatRounding FloatOps StdTime AdaptiveCeiling CeilingContract QualitySearch.

Local Open Scope N_scope.

Record SearchObservation := {
  so_now : N;
  so_rate_kbps : f64;
  so_delta_ms : f64;
  so_high_load : bool;
}.

Definition search_step (policy : QualitySearchPolicy) (s : QualitySearchDirection)
    (o : SearchObservation) : QualitySearchUpdate * QualitySearchDirection :=
  observe o.(so_now) o.(so_rate_kbps) o.(so_delta_ms) policy s o.(so_high_load).

(** The updates of a run, in order, and where it ends. *)
Fixpoint search_run (policy : QualitySearchPolicy) (s : QualitySearchDirection)
    (os : list SearchObservation) : list QualitySearchUpdate * QualitySearchDirection :=
  match os with
  | [] => ([], s)
  | o :: os =>
      let '(u, s) := search_step policy s o in
      let '(us, s) := search_run policy s os in
      (u :: us, s)
  end.

Section search.
Context (policy : QualitySearchPolicy).
Context (Hfloor : rate_ok policy.(floor_kbps)) (Htarget : f64_valid policy.(target_delay_ms)).
Context (Hsteps : policy.(max_steps) <= 255).

Definition observation_ok (o : SearchObservation) : Prop :=
  rate_ok o.(so_rate_kbps) ∧ f64_valid o.(so_delta_ms).

(** A rate that was seen and is not below the floor. *)
Definition seen (os : list SearchObservation) (r : f64) : Prop :=
  (∃ o, o ∈ os ∧ r = o.(so_rate_kbps)) ∧ f64_leb policy.(floor_kbps) r = true.

(** The rates an episode remembers were seen, and its steps are bounded. *)
Record search_ok (os : list SearchObservation) (s : QualitySearchDirection) : Prop := {
  so_start : ∀ r, s.(start_rate_kbps) = Some r → seen os r;
  so_best : ∀ r, s.(best_rate_kbps) = Some r → seen os r;
  so_started : is_some s.(start_rate_kbps) = is_some s.(best_rate_kbps);
  so_steps : s.(steps) <= policy.(max_steps);
}.

Lemma seen_mono os o r : seen os r → seen (os ++ [o]) r.
Proof using. intros [(o' & Ho & ->) Hr]. split; [| done]. exists o'. split; [| done].
  apply elem_of_app. by left. Qed.

Lemma search_ok_mono os o s : search_ok os s → search_ok (os ++ [o]) s.
Proof using. intros []. split; eauto using seen_mono. Qed.

Lemma reset_ok_search os s : search_ok os (reset_episode s).
Proof using. split; try done; simpl; apply N.le_0_l. Qed.

Lemma target_ok_search os s reason : search_ok os (with_reason (reset_episode s) reason).
Proof using. split; try done; simpl; apply N.le_0_l. Qed.

(** An update asks for nothing, for a step down, or for a rate seen in the episode. *)
Definition update_ok (os : list SearchObservation) (rate : f64) (before after : N)
    (u : QualitySearchUpdate) : Prop :=
  ∀ r, u.(requested_rate_kbps) = Some r →
    if u.(qu_limited) then seen os r
    else f64_leb policy.(floor_kbps) r = true ∧ f64_leb r rate = true ∧
         before < policy.(max_steps) ∧ after = before + 1.

Lemma lit_bounds :
  f64_num (f64_lit 70 100) ∧ f64_num (f64_lit 97 100) ∧
  (0 <= f64_R (f64_lit 70 100) <= f64_R (f64_lit 97 100))%R ∧ (f64_R (f64_lit 97 100) <= 1)%R.
Proof using.
  assert (f64_num (f64_lit 70 100)) as H70 by (by split).
  assert (f64_num (f64_lit 97 100)) as H97 by (by split).
  split; [done |]. split; [done |]. rewrite <- one_R.
  split; [split |]; [apply (leb_R f64_zero) | apply leb_R | apply leb_R]; try done; by apply of_N_num.
Qed.

Lemma backoff_candidate_bounds rate delta :
  rate_ok rate → f64_valid delta → f64_leb policy.(floor_kbps) rate = true →
  f64_leb policy.(floor_kbps) (backoff_candidate rate delta policy) = true ∧
  f64_leb (backoff_candidate rate delta policy) rate = true.
Proof using Hfloor Htarget.
  intros Hrate Hdelta Hfr. apply leb_R in Hfr; [| by apply rate_num..].
  unfold backoff_candidate. destruct lit_bounds as (H70 & H97 & H7097 & H971).
  set (ratio := f64_max (f64_div (target_delay_ms policy) delta) f64_zero).
  assert (f64_num (f64_sqrt ratio)) as Hsqrt.
  { assert (f64_num ratio) as Hn by (apply max_num; [by apply valid_div | done]).
    pose proof (max_ge (f64_div (target_delay_ms policy) delta) f64_zero ltac:(by apply valid_div) ltac:(done)) as Hpos.
    fold ratio in Hpos. change (f64_R f64_zero) with 0%R in Hpos.
    destruct (decide (f64_is_finite ratio = true)) as [Hf | Hf].
    - eapply rounds_num, sqrt_rounds; [by split | done].
    - destruct Hn as [Hv Hnan]. destruct ratio as [| [] | |]; try done.
      cbn [f64_R] in Hpos. pose proof (pow2_pos 1024). lra. }
  destruct (clamp_bounds _ _ _ Hsqrt H70 H97 ltac:(lra)) as [Hcn Hcb].
  set (factor := f64_clamp (f64_sqrt ratio) (f64_lit 70 100) (f64_lit 97 100)) in *.
  destruct Hrate as [Hrf Hrb].
  assert (f64_fin factor) as Hff.
  { apply (between_fin _ f64_zero f64_one); try done. rewrite one_R.
    change (f64_R f64_zero) with 0%R. lra. }
  assert (rounds (f64_R rate * f64_R factor) (f64_mul rate factor)) as Hmul by (by apply mul_rounds).
  assert (f64_R (f64_mul rate factor) <= f64_R rate)%R as Hle.
  { apply (rounds_le _ _ Hmul); [by apply fin_num |]. nra. }
  assert (f64_num (f64_max (f64_mul rate factor) (floor_kbps policy))) as Hmn
    by (apply max_num; [by eapply rounds_valid | by apply rate_num]).
  split; apply leb_R; auto using rate_num, fin_num.
  - apply max_ge; [by eapply rounds_valid | by apply rate_num].
  - apply max_le; [apply Hmul | by apply rate_num | done | done].
Qed.

Lemma fallback_seen os s : search_ok os s → is_some s.(start_rate_kbps) = true → seen os (fallback_rate s).
Proof using.
  intros [Hs Hb Hsb _] Hstart. unfold fallback_rate. rewrite Hstart in Hsb.
  destruct (start_rate_kbps s) as [r |]; [| done]. destruct (best_rate_kbps s) as [b |]; [| done].
  simpl. destruct (_ || _); auto.
Qed.

Section step.
Context (os : list SearchObservation) (now : N) (rate delta : f64).
Context (Hrate : rate_ok rate) (Hdelta : f64_valid delta) (Hseen : seen os rate).
Implicit Types s : QualitySearchDirection.

Lemma step_down_ok s :
  search_ok os s → is_some s.(start_rate_kbps) = true →
  let '(u, s') := step_down now rate delta policy s in
  search_ok os s' ∧ update_ok os rate s.(steps) s'.(steps) u.
Proof using All.
  intros Hok Hstart. pose proof (fallback_seen os s Hok Hstart) as Hfb. unfold step_down.
  destruct (f64_leb rate _).
  { split; [destruct Hok; by split |]. intros r [= <-]. done. }
  destruct (N.leb_spec (max_steps policy) (steps s)).
  { split; [destruct Hok; by split |]. intros r [= <-]. done. }
  split.
  - destruct Hok; split; try done. simpl. lia.
  - intros r [= <-]. simpl. destruct Hseen as [_ Hfr].
    destruct (backoff_candidate_bounds rate delta Hrate Hdelta Hfr). repeat split; try done. lia.
Qed.

Lemma note_ok s : search_ok os s → is_some s.(start_rate_kbps) = true →
  search_ok os (note_candidate s rate delta) ∧
  is_some (note_candidate s rate delta).(start_rate_kbps) = true ∧
  steps (note_candidate s rate delta) = steps s.
Proof using Hseen.
  intros Hok Hstart.
  assert (note_candidate s rate delta = with_best s rate delta ∨ note_candidate s rate delta = s) as [-> | ->].
  { unfold note_candidate. destruct (best_delta_ms s); [destruct (f64_ltb _ _) |]; auto. }
  - split; [| done]. destruct Hok as [? ? ? ?]. split; try done; simpl. by intros r [= <-].
  - done.
Qed.

Lemma judge_ok s :
  search_ok os s → is_some s.(start_rate_kbps) = true →
  let '(u, s') := judge_step now rate delta policy s in
  search_ok os s' ∧ update_ok os rate s.(steps) s'.(steps) u.
Proof using All.
  intros Hok Hstart. unfold judge_step. destruct (last_step_at s); [| by apply step_down_ok].
  destruct (_ <? _); [by split |]. destruct (f64_leb _ _).
  - destruct (note_ok s Hok Hstart) as (Hn & Hns & Hst). rewrite <- Hst. by apply step_down_ok.
  - split; [destruct Hok; by split |]. intros r [= <-]. by apply fallback_seen.
Qed.

Lemma begin_ok s : search_ok os s →
  search_ok os (begin_episode rate delta s) ∧ is_some (begin_episode rate delta s).(start_rate_kbps) = true ∧
  steps (begin_episode rate delta s) = steps s.
Proof using Hseen.
  intros Hok. unfold begin_episode. destruct (start_rate_kbps s) eqn:Hs; [by rewrite Hs |].
  split; [| done]. destruct Hok. split; try done; simpl; by intros r [= <-].
Qed.
End step.

Lemma search_step_ok os o s :
  search_ok os s → observation_ok o →
  let '(u, s') := search_step policy s o in
  search_ok (os ++ [o]) s' ∧
  ∃ before, before <= s.(steps) ∧ update_ok (os ++ [o]) o.(so_rate_kbps) before s'.(steps) u.
Proof using All.
  intros Hok [Hrate Hdelta]. apply (search_ok_mono os o) in Hok. unfold search_step, observe.
  assert (∀ s' reason, update_ok (os ++ [o]) (so_rate_kbps o) 0 (steps s') (no_change s' reason).1) as Hno
    by done.
  destruct (_ || _); [split; [done |]; exists 0; split; [lia | done] |].
  destruct (f64_ltb (so_rate_kbps o) _) eqn:Hfr.
  { split; [by apply target_ok_search |]. exists 0. split; [lia | done]. }
  destruct (f64_leb (so_delta_ms o) _); [split; [by apply target_ok_search |]; exists 0; split; [lia | done] |].
  destruct (is_some_and _ _); [split; [done |]; exists 0; split; [lia | done] |].
  assert (seen (os ++ [o]) (so_rate_kbps o)) as Hseen.
  { split; [exists o; split; [apply elem_of_app; right; by left | done] |].
    apply leb_R; [by apply rate_num.. |]. by apply ltb_false_R in Hfr; [| apply rate_num..]. }
  set (s1 := if is_some (cooldown_until s) then reset_episode s else s).
  assert (search_ok (os ++ [o]) s1 ∧ steps s1 <= steps s) as [Hok1 Hle].
  { unfold s1. destruct (is_some _); [split; [apply reset_ok_search | simpl; lia] | by split]. }
  destruct (begin_ok (os ++ [o]) (so_rate_kbps o) (so_delta_ms o) Hseen s1 Hok1) as (Hok2 & Hst & Hs).
  pose proof (judge_ok (os ++ [o]) (so_now o) (so_rate_kbps o) (so_delta_ms o) Hrate Hdelta Hseen _ Hok2 Hst)
    as Hj.
  destruct (judge_step _ _ _ _ _) as [u s']. destruct Hj as [Hj1 Hj2]. split; [done |].
  exists (steps s1). rewrite <- Hs at 2. by split.
Qed.

Lemma search_run_ok os os' s :
  search_ok os s → Forall observation_ok os' → search_ok (os ++ os') (search_run policy s os').2.
Proof using All.
  revert os s. induction os' as [| o os' IH]; intros os s Hok Hos; [by rewrite app_nil_r |].
  inversion Hos; subst. cbn [search_run]. pose proof (search_step_ok os o s Hok ltac:(done)) as Hstep.
  destruct (search_step policy s o) as [u s1]. destruct Hstep as [Hok1 _].
  specialize (IH (os ++ [o]) s1 Hok1 ltac:(done)).
  destruct (search_run policy s1 os') as [us s2]. by rewrite <- app_assoc in IH.
Qed.

Lemma search_new_ok : search_ok [] search_new.
Proof using. split; try done. apply N.le_0_l. Qed.

(** *** The end of a search *)

(** The search is under way: a step down was made at [at_], nothing is limited. *)
Definition stepping (s : QualitySearchDirection) (at_ : N) : Prop :=
  s.(cooldown_until) = None ∧ s.(last_step_at) = Some at_.

Definition excess (o : SearchObservation) : Prop :=
  o.(so_high_load) = true ∧ f64_is_finite o.(so_delta_ms) = true ∧
  f64_ltb o.(so_rate_kbps) policy.(floor_kbps) = false ∧
  f64_leb o.(so_delta_ms) policy.(target_delay_ms) = false.

Lemma step_down_progress now rate delta s :
  s.(steps) <= 255 → s.(cooldown_until) = None →
  let '(u, s') := step_down now rate delta policy s in
  u.(qu_limited) = true ∨ stepping s' now ∧ s'.(steps) = s.(steps) + 1 ∧ s.(steps) < policy.(max_steps).
Proof using Hsteps.
  intros Hs Hc. unfold step_down. destruct (f64_leb _ _); [by left |].
  destruct (N.leb_spec (max_steps policy) (steps s)); [by left |]. right. simpl.
  split; [by split |]. lia.
Qed.

Lemma excess_progress s o :
  excess o → s.(steps) <= 255 → s.(cooldown_until) = None →
  (∀ at_, s.(last_step_at) = Some at_ → policy.(observe_duration) <= o.(so_now) - at_) →
  let '(u, s') := search_step policy s o in
  u.(qu_limited) = true ∨
  stepping s' o.(so_now) ∧ s'.(steps) = s.(steps) + 1 ∧ s.(steps) < policy.(max_steps).
Proof using Hsteps.
  intros (Hload & Hfin & Hfloor' & Hdelta) Hs Hc Hat. unfold search_step, observe.
  rewrite Hload, Hfin, Hfloor', Hdelta, Hc. cbn [negb orb is_some_and is_some].
  assert (steps (begin_episode (so_rate_kbps o) (so_delta_ms o) s) = steps s ∧
    cooldown_until (begin_episode (so_rate_kbps o) (so_delta_ms o) s) = None ∧
    last_step_at (begin_episode (so_rate_kbps o) (so_delta_ms o) s) = last_step_at s) as (Hs1 & Hc1 & Hl1).
  { unfold begin_episode. by destruct (start_rate_kbps s). }
  set (s1 := begin_episode _ _ s) in *. rewrite <- Hs1. unfold judge_step. rewrite Hl1.
  destruct (last_step_at s) as [at_ |]; [| apply step_down_progress; lia || done].
  rewrite (proj2 (N.ltb_ge _ _)) by (by apply Hat). clear Hdelta Hfloor'. destruct (f64_leb _ _); [| by left].
  assert (steps (note_candidate s1 (so_rate_kbps o) (so_delta_ms o)) = steps s1 ∧
    cooldown_until (note_candidate s1 (so_rate_kbps o) (so_delta_ms o)) = None) as [Hs2 Hc2].
  { unfold note_candidate. destruct (best_delta_ms s1); [destruct (f64_ltb _ _) |]; done. }
  rewrite <- Hs2. apply step_down_progress; [lia | done].
Qed.

(** Observations far enough apart for a judgement each. *)
Fixpoint spaced (last : option N) (os : list SearchObservation) : Prop :=
  match os with
  | [] => True
  | o :: os =>
      (∀ at_, last = Some at_ → policy.(observe_duration) <= o.(so_now) - at_) ∧ spaced (Some o.(so_now)) os
  end.

Lemma gives_up n os s :
  policy.(max_steps) = s.(steps) + N.of_nat n → length os = S n → s.(cooldown_until) = None →
  Forall excess os → spaced s.(last_step_at) os →
  Exists (λ u, u.(qu_limited) = true) (search_run policy s os).1.
Proof using Hsteps.
  revert os s. induction n as [| n IH]; intros [| o os] s Hn Hlen Hc Hex Hsp; try done;
    inversion Hex as [| ? ? Ho Hos]; subst; destruct Hsp as [Hat Hsp]; cbn [search_run].
  all: pose proof (excess_progress s o Ho ltac:(lia) Hc Hat) as Hp.
  all: destruct (search_step policy s o) as [u s1]; destruct (search_run policy s1 os) as [us s2] eqn:Hrun.
  - destruct Hp as [Hlim | (_ & _ & Hlt)]; [by left | lia].
  - destruct Hp as [Hlim | ([Hc1 Hl1] & Hs1 & Hlt)]; [by left |]. right.
    specialize (IH os s1 ltac:(lia) ltac:(simpl in Hlen; lia) Hc1 Hos). rewrite Hrun in IH. apply IH.
    by rewrite Hl1.
Qed.
End search.

(** C11: Whatever is observed, a rate the search asks for is never below the throughput floor;
    as long as the search is not limited it is a step down, not above the current rate, and
    one of at most [max_steps] in its episode; when the search gives up it is a rate that was
    measured before. *)
Theorem search_requests_bounded policy os o r :
  rate_ok policy.(floor_kbps) → f64_valid policy.(target_delay_ms) → policy.(max_steps) <= 255 →
  Forall observation_ok os → observation_ok o →
  let s := (search_run policy search_new os).2 in
  let '(u, s') := search_step policy s o in
  u.(requested_rate_kbps) = Some r →
  f64_leb policy.(floor_kbps) r = true ∧ s'.(steps) <= policy.(max_steps) ∧
  if u.(qu_limited) then ∃ o', o' ∈ os ++ [o] ∧ r = o'.(so_rate_kbps)
  else f64_leb r o.(so_rate_kbps) = true.
Proof.
  intros Hf Ht Hm Hos Ho s.
  pose proof (search_run_ok policy Hf Ht Hm [] os search_new (search_new_ok policy) Hos) as Hok. fold s in Hok.
  pose proof (search_step_ok policy Hf Ht Hm os o s Hok Ho) as Hstep.
  destruct (search_step policy s o) as [u s']. destruct Hstep as [Hok' (n & _ & Hu)].
  intros Hr. specialize (Hu r Hr). pose proof (so_steps _ _ _ Hok'). destruct (qu_limited u).
  - destruct Hu as [Hseen Hfr]. done.
  - by destruct Hu as (? & ? & _).
Qed.

(** C12: The search ends: under high load with an excess of latency, observed at intervals that
    allow a judgement, it asks for at most [max_steps] steps and then gives up. *)
Theorem search_gives_up policy os :
  policy.(max_steps) <= 255 →
  length os = S (N.to_nat policy.(max_steps)) → Forall (excess policy) os → spaced policy None os →
  ∃ u, u ∈ (search_run policy search_new os).1 ∧ u.(qu_limited) = true.
Proof.
  intros Hm Hlen Hex Hsp.
  pose proof (gives_up policy Hm (N.to_nat policy.(max_steps)) os search_new ltac:(simpl; lia) Hlen eq_refl Hex Hsp)
    as He.
  by apply Exists_exists in He.
Qed.

(** ** A run *)

Definition sample_search_policy : QualitySearchPolicy :=
  {| target_delay_ms := f64_of_N 30; floor_kbps := f64_of_N 20000; max_steps := 2;
     observe_duration := duration_from_secs 5; qs_cooldown := duration_from_secs 60 |}.

Definition sample_excess (t rate delta : N) : SearchObservation :=
  {| so_now := duration_from_secs t; so_rate_kbps := f64_of_N rate; so_delta_ms := f64_of_N delta;
     so_high_load := true |}.

Definition sample_observations : list SearchObservation :=
  [sample_excess 0 80000 120; sample_excess 6 56000 90; sample_excess 12 39200 70].

Example sample_search :
  map requested_rate_kbps (search_run sample_search_policy search_new sample_observations).1
    = [Some (f64_of_N 56000); Some (f64_of_N 39200); Some (f64_of_N 39200)].
Proof. by vm_compute. Qed.

Lemma sample_observation_ok t rate delta : rate <= MAX_RATE_KBPS → observation_ok (sample_excess t rate delta).
Proof. intros Hr. split; [by apply rate_of_N | apply valid_of_N]. Qed.

Lemma search_requests_bounded_witness :
  f64_leb (f64_of_N 20000) (f64_of_N 39200) = true.
Proof.
  assert (Forall observation_ok [sample_excess 0 80000 120; sample_excess 6 56000 90]) as Hos
    by (apply Forall_cons; split; [| apply Forall_singleton]; by apply sample_observation_ok).
  pose proof (search_requests_bounded sample_search_policy [sample_excess 0 80000 120; sample_excess 6 56000 90]
    (sample_excess 12 39200 70) (f64_of_N 39200) (rate_of_N 20000 ltac:(done)) (valid_of_N 30) ltac:(done)
    Hos (sample_observation_ok 12 39200 70 ltac:(done))) as H.
  cbv zeta in H. destruct (search_step _ _ _) as [u s'] eqn:Hstep.
  refine (proj1 (H _)). vm_compute in Hstep. injection Hstep as <- _. by vm_compute.
Defined.

Lemma search_gives_up_witness :
  ∃ u, u ∈ (search_run sample_search_policy search_new sample_observations).1 ∧ u.(qu_limited) = true.
Proof.
  refine (search_gives_up sample_search_policy sample_observations _ _ _ _); [done | done | |].
  - repeat constructor; by vm_compute.
  - repeat split; intros at_ [= <-]; by vm_compute.
Defined.
