(* ===== verification/LatencyBaseline.v ===== *)
(** * The first latency baseline

    [latency_baseline.rs]: the baseline of a reflector is not learned from one sample but from
    three quiet ones with new load data each, spread over a minimum time and close together. *)

From Stdlib Require Import Reals SpecFloat.
From stdpp Require Import sorting.
From S2P Require Import Prelude Binary64 FloatRounding FloatOps StdTime.

Local Open Scope N_scope.

(** A pair of one-way delays, download first. *)
Definition Owd : Type := f64 * f64.

Definition owd_finite (o : Owd) : bool := f64_is_finite o.1 && f64_is_finite o.2.

(** [values] is the array of the last three pairs, [next] the slot to write. *)
Record BaselineWarmup := {
  bw_epoch : N;
  bw_last_load : option N;
  bw_quiet_since : option N;
  bw_values : list Owd;
  bw_count : nat;
  bw_next : nat;
}.

Record BaselineObservation := {
  bo_owd_us : Owd;
  bo_now : N;
  bo_load_epoch : N;
  bo_quiet : bool;
}.

Record BaselinePolicy := {
  maximum_load_age : N;
  minimum_quiet_span : N;
  maximum_spread_us : f64 * f64;
}.

Definition warmup_new (epoch : N) : BaselineWarmup :=
  {| bw_epoch := epoch; bw_last_load := None; bw_quiet_since := None;
     bw_values := replicate 3 (f64_zero, f64_zero); bw_count := 0; bw_next := 0 |}.

(** The median of three values, unless they spread too far. *)
Definition median_within (values : list f64) (maximum : f64) : option f64 :=
  let sorted := merge_sort (λ x y, f64_total_leb x y) values in
  low ← sorted !! 0%nat;
  middle ← sorted !! 1%nat;
  high ← sorted !! 2%nat;
  if f64_ltb maximum (f64_sub high low) then None else Some middle.

Definition load_recent (w : BaselineWarmup) (o : BaselineObservation) (p : BaselinePolicy) : bool :=
  (w.(bw_epoch) <? o.(bo_load_epoch)) && (o.(bo_load_epoch) <=? o.(bo_now))
  && (o.(bo_now) - o.(bo_load_epoch) <=? p.(maximum_load_age)).

(** Whether the observation can be part of a baseline at all. *)
Definition admissible (w : BaselineWarmup) (o : BaselineObservation) (p : BaselinePolicy) : bool :=
  load_recent w o p && o.(bo_quiet) && owd_finite o.(bo_owd_us).

Definition observe (w : BaselineWarmup) (o : BaselineObservation) (p : BaselinePolicy) :
    option Owd * BaselineWarmup :=
  if negb (admissible w o p) then
    (None, {| bw_epoch := w.(bw_epoch); bw_last_load := w.(bw_last_load); bw_quiet_since := None;
              bw_values := w.(bw_values); bw_count := 0; bw_next := 0 |})
  else if is_some_and (λ last, o.(bo_load_epoch) <=? last) w.(bw_last_load) then (None, w)
  else
    let since := default o.(bo_load_epoch) w.(bw_quiet_since) in
    let values := <[w.(bw_next) := o.(bo_owd_us)]> w.(bw_values) in
    let count := Nat.min (w.(bw_count) + 1) 3 in
    let w := {| bw_epoch := w.(bw_epoch); bw_last_load := Some o.(bo_load_epoch);
                bw_quiet_since := Some since; bw_values := values; bw_count := count;
                bw_next := ((w.(bw_next) + 1) mod 3)%nat |} in
    if negb (count =? 3)%nat || (o.(bo_now) - since <? p.(minimum_quiet_span)) then (None, w)
    else
      (dl ← median_within (map fst values) p.(maximum_spread_us).1;
       ul ← median_within (map snd values) p.(maximum_spread_us).2;
       Some (dl, ul), w).

Definition warmup_run (w : BaselineWarmup) (os : list (BaselineObservation * BaselinePolicy)) :
    BaselineWarmup := foldl (λ w o, (observe w o.1 o.2).2) w os.

(** ** The window behind a baseline *)

Section window.
Context (epoch : N).

Local Notation Observed := (BaselineObservation * BaselinePolicy)%type.

(** The observations a warm-up has taken in since it was last interrupted. *)
Definition taken (w : BaselineWarmup) (l : list Observed) (o : Observed) : list Observed :=
  if negb (admissible w o.1 o.2) then []
  else if is_some_and (λ last, o.1.(bo_load_epoch) <=? last) w.(bw_last_load) then l
  else l ++ [o].

Fixpoint window (w : BaselineWarmup) (l os : list Observed) : list Observed :=
  match os with
  | [] => l
  | o :: os => window (observe w o.1 o.2).2 (taken w l o) os
  end.

Definition load_of (o : Observed) : N := o.1.(bo_load_epoch).

(** What makes an observation fit for a baseline. *)
Definition fit (o : Observed) : Prop :=
  epoch < load_of o ∧ load_of o <= o.1.(bo_now) ∧ o.1.(bo_now) - load_of o <= o.2.(maximum_load_age) ∧
  o.1.(bo_quiet) = true ∧ owd_finite o.1.(bo_owd_us) = true.

Record warmup_ok (w : BaselineWarmup) (l : list Observed) : Prop := {
  wo_epoch : w.(bw_epoch) = epoch;
  wo_since : w.(bw_quiet_since) = load_of <$> head l;
  wo_count : w.(bw_count) = Nat.min (length l) 3;
  wo_next : w.(bw_next) = (length l mod 3)%nat;
  wo_length : length w.(bw_values) = 3%nat;
  wo_values : ∀ i o, l !! i = Some o → (length l <= i + 3)%nat →
    w.(bw_values) !! (i mod 3)%nat = Some o.1.(bo_owd_us);
  wo_last : ∀ o, last l = Some o → w.(bw_last_load) = Some (load_of o);
  wo_fit : Forall fit l;
  wo_increasing : StronglySorted N.lt (map load_of l);
}.

Lemma admissible_fit w o : w.(bw_epoch) = epoch → admissible w o.1 o.2 = true → fit o.
Proof using.
  intros He. unfold admissible, load_recent. rewrite He, !andb_true_iff, N.ltb_lt, !N.leb_le.
  by intros ((((? & ?) & ?) & ?) & ?).
Qed.

Lemma warmup_new_ok : warmup_ok (warmup_new epoch) [].
Proof using. split; try done; by constructor. Qed.

Lemma sorted_snoc (l : list N) x :
  StronglySorted N.lt l → (∀ y, last l = Some y → y < x) → StronglySorted N.lt (l ++ [x]).
Proof using.
  induction l as [| a l IH]; intros Hs Hlast; [repeat constructor |].
  inversion Hs as [| ? ? Hs' Hall]; subst. cbn [app]. constructor.
  - apply IH; [done |]. intros y Hy. apply Hlast. by rewrite last_cons, Hy.
  - apply Forall_app. split; [done |]. apply Forall_singleton.
    destruct (last l) as [y |] eqn:Hy.
    + specialize (Hlast y). rewrite last_cons, Hy in Hlast. specialize (Hlast eq_refl).
      assert (a < y); [| lia]. apply last_Some in Hy as [l' ->].
      by apply Forall_app in Hall as [_ [? _]%Forall_cons].
    + apply last_None in Hy as ->. apply Hlast. done.
Qed.

(** An observation that is taken in. *)
Definition take_in (w : BaselineWarmup) (o : Observed) : BaselineWarmup :=
  {| bw_epoch := w.(bw_epoch); bw_last_load := Some (load_of o);
     bw_quiet_since := Some (default (load_of o) w.(bw_quiet_since));
     bw_values := <[w.(bw_next) := o.1.(bo_owd_us)]> w.(bw_values);
     bw_count := Nat.min (w.(bw_count) + 1) 3; bw_next := ((w.(bw_next) + 1) mod 3)%nat |}.

Lemma take_in_ok w l o :
  warmup_ok w l → fit o → is_some_and (λ last, load_of o <=? last) w.(bw_last_load) = false →
  warmup_ok (take_in w o) (l ++ [o]).
Proof using.
  intros Hok Hfit Hnew. destruct Hok as [He Hs Hc Hn Hlen Hv Hl Hf Hi].
  split; cbn [take_in bw_epoch bw_last_load bw_quiet_since bw_values bw_count bw_next]; try done.
  - rewrite Hs. destruct l; done.
  - rewrite length_app, Hc. simpl. lia.
  - rewrite length_app, Hn. apply Nat.Div0.add_mod_idemp_l.
  - by rewrite length_insert.
  - intros i o' Hio Hlast. rewrite length_app in Hlast. simpl in Hlast. rewrite Hn.
    apply lookup_app_Some in Hio as [Hio | [Hge Hio]].
    + pose proof (lookup_lt_Some _ _ _ Hio). rewrite list_lookup_insert_ne; [apply Hv; [done | lia] |].
      clear - H Hlast. intros Heq. pose proof (Nat.div_mod_eq (length l) 3).
      pose proof (Nat.div_mod_eq i 3). lia.
    + assert (i = length l) as ->.
      { destruct (i - length l)%nat eqn:Hd; [lia |]. by rewrite lookup_cons, lookup_nil in Hio. }
      rewrite Nat.sub_diag in Hio. injection Hio as <-. apply list_lookup_insert_eq.
      rewrite Hlen. apply Nat.mod_upper_bound. done.
  - intros o' Ho'. rewrite last_snoc in Ho'. by injection Ho' as <-.
  - apply Forall_app. split; [done |]. by apply Forall_singleton.
  - rewrite map_app. apply sorted_snoc; [done |]. intros y Hy. rewrite fmap_last in Hy.
    destruct (last l) as [o' |] eqn:Hlo; [| done]. injection Hy as <-.
    rewrite (Hl o' eq_refl) in Hnew. simpl in Hnew. by apply N.leb_gt in Hnew.
Qed.

Lemma observe_taken w l o :
  warmup_ok w l → warmup_ok (observe w o.1 o.2).2 (taken w l o).
Proof using.
  intros Hok. unfold observe, taken. destruct (admissible w o.1 o.2) eqn:Ha; cbn [negb].
  - destruct (is_some_and _ _) eqn:Hnew; [done |].
    pose proof (take_in_ok w l o Hok (admissible_fit w o (wo_epoch _ _ Hok) Ha) Hnew) as Ht.
    destruct (_ || _); done.
  - destruct Hok. split; try done; by constructor.
Qed.

Lemma window_ok os w l : warmup_ok w l → warmup_ok (warmup_run w os) (window w l os).
Proof using.
  revert w l. induction os as [| o os IH]; intros w l Hok; [done |]. simpl. by apply IH, observe_taken.
Qed.
End window.

(** ** Medians *)

#[export] Instance f64_total_total : Total (λ x y, f64_total_leb x y).
Proof.
  intros x y. destruct x as [s | s | | s m e], y as [s' | s' | | s' m' e']; simpl; auto;
    try (destruct s, s'; by auto).
  unfold SFleb. simpl. destruct s, s'; auto; rewrite (Z.compare_antisym e e');
    destruct (e ?= e')%Z; simpl; auto; change (Pos.compare_cont Eq) with Pos.compare;
    rewrite (Pos.compare_antisym m m'); destruct (m ?= m')%positive; simpl; auto.
Qed.

(** [m] is the median of the three values of [l], which spread at most [maximum]. *)
Definition median_of (l : list f64) (maximum m : f64) : Prop :=
  ∃ low high, l ≡ₚ [low; m; high] ∧ f64_total_leb low m = true ∧ f64_total_leb m high = true ∧
    f64_ltb maximum (f64_sub high low) = false.

Lemma median_within_spec l maximum m :
  length l = 3%nat → median_within l maximum = Some m → median_of l maximum m.
Proof.
  intros Hlen Hm. unfold median_within in Hm.
  pose proof (merge_sort_Permutation (λ x y, f64_total_leb x y) l) as Hp.
  pose proof (Sorted_merge_sort (λ x y, f64_total_leb x y) l) as Hs.
  destruct (merge_sort _ l) as [| low [| m' [| high [| ? ?]]]];
    try (apply Permutation_length in Hp; simpl in Hp; lia).
  simpl in Hm. destruct (f64_ltb maximum (f64_sub high low)) eqn:Hspread; [done |].
  injection Hm as ->. exists low, high. split; [done |].
  inversion Hs as [| ? ? Hs1 Hh1]; subst. inversion Hh1; subst.
  inversion Hs1 as [| ? ? Hs2 Hh2]; subst. inversion Hh2; subst. simpl in *.
  split; [by apply Is_true_true | split; [by apply Is_true_true | done]].
Qed.

(** The slots hold the last three observations in some order. *)
Lemma slots_permutation epoch w l :
  warmup_ok epoch w l → (3 <= length l)%nat →
  ∃ pre a b c, l = pre ++ [a; b; c] ∧
    w.(bw_values) ≡ₚ [a.1.(bo_owd_us); b.1.(bo_owd_us); c.1.(bo_owd_us)].
Proof.
  intros Hok Hlen. destruct Hok as [_ _ _ _ Hvl Hv _ _ _].
  set (n := (length l - 3)%nat). exists (take n l).
  assert (length (drop n l) = 3%nat) as Hd by (rewrite length_drop; lia).
  destruct (drop n l) as [| a [| b [| c [| ? ?]]]] eqn:Hdrop; try (simpl in Hd; lia).
  exists a, b, c. split; [by rewrite <- Hdrop, take_drop |].
  assert (∀ k o, [a; b; c] !! k = Some o → bw_values w !! ((n + k) mod 3)%nat = Some (bo_owd_us o.1)) as Hslot.
  { intros k o Hk. apply Hv; [by rewrite <- lookup_drop, Hdrop | unfold n; lia]. }
  pose proof (Hslot 0%nat a eq_refl) as Ha. pose proof (Hslot 1%nat b eq_refl) as Hb.
  pose proof (Hslot 2%nat c eq_refl) as Hc. clear Hslot Hv. rewrite Nat.add_0_r in Ha.
  destruct (bw_values w) as [| x [| y [| z [| ? ?]]]]; simpl in Hvl; try lia.
  assert (n mod 3 < 3)%nat as Hlt by (by apply Nat.mod_upper_bound).
  rewrite <- (Nat.Div0.add_mod_idemp_l n 1) in Hb. rewrite <- (Nat.Div0.add_mod_idemp_l n 2) in Hc.
  destruct (n mod 3)%nat as [| [| [| ?]]]; [.. | lia]; simpl in Ha, Hb, Hc; simplify_eq.
  - done.
  - apply (Permutation_app_comm [_] [_; _]).
  - apply (Permutation_app_comm [_; _] [_]).
Qed.

Lemma median_perm l l' maximum m :
  l ≡ₚ l' → length l = 3%nat → median_within l maximum = Some m → median_of l' maximum m.
Proof.
  intros Hp Hlen Hm. destruct (median_within_spec l maximum m Hlen Hm) as (low & high & Hl & ?).
  exists low, high. split; [by rewrite <- Hp | done].
Qed.

Lemma window_snoc w l os o :
  window w l (os ++ [o]) = taken (warmup_run w os) (window w l os) o.
Proof. revert w l. induction os as [| o' os IH]; intros w l; [done |]. apply IH. Qed.

(** What it takes for an observation to publish a baseline. *)
Lemma observe_publishes w l o m :
  (observe w o.1 o.2).1 = Some m →
  let w' := (observe w o.1 o.2).2 in
  taken w l o = l ++ [o] ∧ w'.(bw_count) = 3%nat ∧
  o.2.(minimum_quiet_span) <= o.1.(bo_now) - default 0 w'.(bw_quiet_since) ∧
  median_within (map fst w'.(bw_values)) o.2.(maximum_spread_us).1 = Some m.1 ∧
  median_within (map snd w'.(bw_values)) o.2.(maximum_spread_us).2 = Some m.2.
Proof.
  unfold observe, taken. destruct (admissible w o.1 o.2); cbn [negb]; [| done].
  destruct (is_some_and _ _); [done |].
  destruct (negb (Nat.min (bw_count w + 1) 3 =? 3)%nat) eqn:Hc; cbn [orb]; [done |].
  apply negb_false_iff, Nat.eqb_eq in Hc.
  destruct (_ <? _) eqn:Hspan; [done |]. apply N.ltb_ge in Hspan. cbn [fst snd]. intros Hm.
  apply bind_Some in Hm as (dl & Hdl & (ul & Hul & [= <-])%bind_Some).
  simpl. by rewrite Hc.
Qed.

(** C13: A baseline is never learned from one reply: when a warm-up publishes one, the last
    uninterrupted window of quiet observations ends with three that carry new load data each,
    with increasing epochs since the baseline epoch and recent when they were used; the window
    spans the minimum time; and in both directions the baseline is the median of the three,
    which spread no further than the policy allows. *)
Theorem baseline_qualified epoch os o p m :
  let w := warmup_run (warmup_new epoch) os in
  (observe w o p).1 = Some m →
  ∃ first pre a b,
    let l := pre ++ [a; b; (o, p)] in
    window (warmup_new epoch) [] (os ++ [(o, p)]) = l ∧ head l = Some first ∧
    Forall (fit epoch) l ∧ StronglySorted N.lt (map load_of l) ∧
    p.(minimum_quiet_span) <= o.(bo_now) - load_of first ∧
    median_of [a.1.(bo_owd_us).1; b.1.(bo_owd_us).1; o.(bo_owd_us).1] p.(maximum_spread_us).1 m.1 ∧
    median_of [a.1.(bo_owd_us).2; b.1.(bo_owd_us).2; o.(bo_owd_us).2] p.(maximum_spread_us).2 m.2.
Proof.
  intros w Hm. pose proof (window_ok epoch os (warmup_new epoch) [] (warmup_new_ok epoch)) as Hok.
  fold w in Hok. set (l0 := window (warmup_new epoch) [] os) in *.
  assert (window (warmup_new epoch) [] (os ++ [(o, p)]) = taken w l0 (o, p)) as ->.
  { apply window_snoc. }
  pose proof (observe_taken epoch w l0 (o, p) Hok) as Hok1.
  destruct (observe_publishes w l0 (o, p) m Hm) as (Ht & Hcount & Hspan & Hdl & Hul).
  rewrite Ht in *. set (w1 := (observe w (o, p).1 (o, p).2).2) in *.
  assert (3 <= length (l0 ++ [(o, p)]))%nat as Hlen by (pose proof (wo_count _ _ _ Hok1); lia).
  destruct (slots_permutation epoch w1 _ Hok1 Hlen) as (pre & a & b & c & Hl & Hperm).
  assert (l0 = pre ++ [a; b] ∧ c = (o, p)) as [Hl0 ->].
  { change (pre ++ [a; b; c]) with (pre ++ [a; b] ++ [c]) in Hl. rewrite app_assoc in Hl.
    apply app_inj_tail in Hl. by destruct Hl. }
  pose proof (wo_since _ _ _ Hok1) as Hsince. rewrite Hl in *.
  destruct (head (pre ++ [a; b; (o, p)])) as [first |] eqn:Hhead; [| by destruct pre].
  exists first, pre, a, b. split; [done |]. split; [done |]. destruct Hok1.
  split; [done |]. split; [done |]. rewrite Hsince in Hspan. simpl in Hspan. split; [done |].
  split; [apply median_perm with (map fst (bw_values w1)) | apply median_perm with (map snd (bw_values w1))];
    try done; [by rewrite Hperm | by rewrite length_map | by rewrite Hperm | by rewrite length_map].
Qed.

(** ** A warm-up *)

Definition sample_warmup_policy : BaselinePolicy :=
  {| maximum_load_age := 500; minimum_quiet_span := 1500; maximum_spread_us := (f64_of_N 3000, f64_of_N 3000) |}.

Definition sample_reply (t dl ul : N) : BaselineObservation :=
  {| bo_owd_us := (f64_of_N dl, f64_of_N ul); bo_now := t + 100; bo_load_epoch := t; bo_quiet := true |}.

Definition sample_replies : list (BaselineObservation * BaselinePolicy) :=
  [(sample_reply 1000 11000 9000, sample_warmup_policy); (sample_reply 2000 10200 9500, sample_warmup_policy)].

Lemma baseline_qualified_witness :
  ∃ first, head (window (warmup_new 0) [] (sample_replies ++ [(sample_reply 3000 10500 9100, sample_warmup_policy)]))
    = Some first ∧ 1500 <= 3100 - load_of first.
Proof.
  destruct (baseline_qualified 0 sample_replies (sample_reply 3000 10500 9100) sample_warmup_policy
    (f64_of_N 10500, f64_of_N 9100)) as (first & pre & a & b & Hw & Hh & _ & _ & Hspan & _).
  - by vm_compute.
  - exists first. rewrite Hw. done.
Defined.
