(* ===== verification/ControllerConfig.v ===== *)
(** * The configuration of the rate controller

    The fields of [Config] ([main.rs]) that the rate controller reads, and the checks every
    configuration passes before it runs: [validate_core] of [config_validation.rs] and the
    checks of the thresholds, the adaptive ceiling and the transport probe in
    [Config::validate]. The message of a number out of range shows the number and its bounds;
    here the error carries them. *)

From Stdlib Require Import SpecFloat.
From S2P Require Import Prelude RustStr RustWhitespace RateLimits Binary64 StdTime.

Local Open Scope N_scope.

Definition MAX_WINDOW_SAMPLES : N := 4096.
Definition MAX_PINGERS : N := 64.
Definition i32_max : N := 2147483647.
Definition MAX_TIMER_S : f64 := f64_div (f64_of_N i32_max) (f64_of_N 1000).
(** [1e-9]. *)
Definition MIN_TIMER_S : f64 := f64_lit 1 1000000000.
Definition MAX_HISTORY_BYTES : N := 1024 * 1024.
Definition MIN_ENABLED_RATE_KBPS : f64 := f64_one.
(** [f64::MIN_POSITIVE], the least normal number [2 ^ -1022]. *)
Definition f64_min_positive : f64 := S754_finite false 4503599627370496 (-1074).
Definition max_rate_f64 : f64 := f64_of_N MAX_RATE_KBPS.

Record Config := {
  manage_sqm : bool;
  dl_if : string;
  ul_if : string;
  route_check_interval_s : f64;
  adjust_dl_shaper_rate : bool;
  adjust_ul_shaper_rate : bool;
  min_dl_shaper_rate_kbps : f64;
  base_dl_shaper_rate_kbps : f64;
  max_dl_shaper_rate_kbps : f64;
  min_ul_shaper_rate_kbps : f64;
  base_ul_shaper_rate_kbps : f64;
  max_ul_shaper_rate_kbps : f64;
  adaptive_ceiling_enabled : bool;
  adaptive_ceiling_dl_cap_kbps : f64;
  adaptive_ceiling_ul_cap_kbps : f64;
  adaptive_ceiling_dl_safe_kbps : f64;
  adaptive_ceiling_ul_safe_kbps : f64;
  adaptive_ceiling_dl_evidence : string;
  adaptive_ceiling_ul_evidence : string;
  adaptive_ceiling_hold_time_s : f64;
  adaptive_ceiling_growth_percent : f64;
  adaptive_ceiling_probe_duration_s : f64;
  adaptive_ceiling_cooldown_s : f64;
  adaptive_ceiling_failed_bound_ttl_s : f64;
  transport_latency_enabled : bool;
  transport_controller_enabled : bool;
  transport_probe_backend : string;
  transport_probe_endpoint : string;
  transport_probe_idle_interval_s : f64;
  transport_probe_loaded_interval_s : f64;
  transport_probe_timeout_s : N;
  transport_load_hold_s : f64;
  transport_cpu_max_percent : f64;
  rating_load_window_s : f64;
  rating_load_enter_ratio : f64;
  rating_load_exit_ratio : f64;
  rating_load_hold_s : f64;
  rating_load_dropout_s : f64;
  rating_load_min_kbps : f64;
  rating_load_dominance_ratio : f64;
  rating_capture_min_enter_ratio : f64;
  rating_capture_peak_factor : f64;
  rating_capture_contamination_ratio : f64;
  rating_capture_ack_ratio : f64;
  rating_capture_quiet_s : N;
  rating_capture_quiet_timeout_s : N;
  rating_capture_quiet_ratio : f64;
  rating_capture_quiet_min_kbps : f64;
  rating_episode_gap_s : f64;
  quality_target_delay_ms : f64;
  quality_search_max_steps : N;
  quality_search_observe_s : f64;
  quality_search_cooldown_s : f64;
  throughput_guard_enabled : bool;
  throughput_guard_retention_percent : f64;
  throughput_guard_dl_floor_kbps : f64;
  throughput_guard_ul_floor_kbps : f64;
  throughput_reference_dl_p20_kbps : f64;
  throughput_reference_dl_p50_kbps : f64;
  throughput_reference_ul_p20_kbps : f64;
  throughput_reference_ul_p50_kbps : f64;
  connection_active_thr_kbps : f64;
  connection_stall_thr_kbps : f64;
  startup_wait_s : f64;
  sustained_idle_sleep_thr_s : f64;
  if_up_check_interval_s : f64;
  global_ping_response_timeout_s : f64;
  irtt_session_duration_m : f64;
  reflectors : list string;
  no_pingers : N;
  reflector_ping_interval_s : f64;
  reflector_health_check_interval_s : f64;
  reflector_response_deadline_s : f64;
  reflector_misbehaving_detection_window : N;
  reflector_misbehaving_detection_thr : N;
  reflector_replacement_interval_mins : f64;
  reflector_comparison_interval_mins : f64;
  reflector_sum_owd_baselines_delta_thr_ms : f64;
  reflector_owd_delta_ewma_delta_thr_ms : f64;
  monitor_achieved_rates_interval_ms : N;
  monitor_cpu_usage_interval_ms : N;
  bufferbloat_detection_window : N;
  bufferbloat_detection_thr : N;
  high_load_thr : f64;
  dl_owd_delta_delay_thr_ms : f64;
  ul_owd_delta_delay_thr_ms : f64;
  dl_avg_owd_delta_max_adjust_up_thr_ms : f64;
  ul_avg_owd_delta_max_adjust_up_thr_ms : f64;
  dl_avg_owd_delta_max_adjust_down_thr_ms : f64;
  ul_avg_owd_delta_max_adjust_down_thr_ms : f64;
  alpha_baseline_increase : f64;
  alpha_baseline_decrease : f64;
  alpha_delta_ewma : f64;
  shaper_rate_min_adjust_down_bufferbloat : f64;
  shaper_rate_max_adjust_down_bufferbloat : f64;
  shaper_rate_min_adjust_up_load_high : f64;
  shaper_rate_max_adjust_up_load_high : f64;
  shaper_rate_adjust_down_load_low : f64;
  shaper_rate_adjust_up_load_low : f64;
  bufferbloat_refractory_period_ms : N;
  decay_refractory_period_ms : N;
  dl_max_wire_packet_size_bits : N;
  ul_max_wire_packet_size_bits : N;
}.

Inductive ConfigError :=
| OutOfRange (name : string) (minimum maximum : f64)
| ConfigMessage (text : string).

Definition Checked : Type := result ConfigError unit.
Definition check (cond : bool) (text : string) : Checked := fail_if (negb cond) (ConfigMessage text).

Definition in_range (value minimum maximum : f64) : bool :=
  f64_is_finite value && negb (f64_ltb value minimum) && negb (f64_ltb maximum value).

Definition bounded (name : string) (value minimum maximum : f64) : Checked :=
  fail_if (negb (in_range value minimum maximum)) (OutOfRange name minimum maximum).

(** Every check in turn; the first failure is the result. *)
Fixpoint all_checks (cs : list Checked) : Checked :=
  match cs with [] => mret tt | c :: cs => _ ← c; all_checks cs end.

(** [range!(min, max; fields)]. *)
Definition range (minimum maximum : f64) (fields : list (string * f64)) : Checked :=
  all_checks (map (λ f, bounded f.1 f.2 minimum maximum) fields).

Definition rate_tuple (direction : string) (enabled : bool) (low base high : f64) : Checked :=
  if negb enabled && f64_eqb low f64_zero && f64_eqb base f64_zero && f64_eqb high f64_zero
  then mret tt
  else
    _ ← bounded (direction +:+ " minimum rate") low MIN_ENABLED_RATE_KBPS max_rate_f64;
    _ ← bounded (direction +:+ " base rate") base MIN_ENABLED_RATE_KBPS max_rate_f64;
    _ ← bounded (direction +:+ " maximum rate") high MIN_ENABLED_RATE_KBPS max_rate_f64;
    check (negb (f64_ltb base low || f64_ltb high base))
      (direction +:+ " rates must satisfy min <= base <= max").

Definition thresholds_ordered (direction : string) (up delay down : f64) : Checked :=
  check (negb (f64_ltb delay up || f64_ltb down delay))
    (direction +:+ " delay thresholds must satisfy growth <= bloat <= maximum backoff").

Definition monitor_interval (name : string) (value : N) : Checked :=
  check (negb ((value =? 0) || (i32_max <? value))) (name +:+ " must be between 1 and 2147483647").

Definition detection_window (name : string) (window threshold : N) : Checked :=
  _ ← check ((1 <=? window) && (window <=? MAX_WINDOW_SAMPLES)) (name +:+ "_window must be between 1 and 4096");
  check (negb ((threshold =? 0) || (window <? threshold)))
    (name +:+ "_thr must be between 1 and its window length").

(** *** [TransportProbeBackend] of [transport_probe.rs] *)

Inductive TransportProbeBackend := WebSocket | TcpConnect | PersistentHttp | LegacyHttp.

Definition parse_backend (value : string) : option TransportProbeBackend :=
  let value := to_ascii_lowercase (trim value) in
  if String.eqb value "websocket" || String.eqb value "ws" then Some WebSocket
  else if String.eqb value "tcp" || String.eqb value "tcp-connect" then Some TcpConnect
  else if String.eqb value "http" || String.eqb value "persistent-http" then Some PersistentHttp
  else if String.eqb value "legacy-http" then Some LegacyHttp
  else None.

Definition trusted (b : TransportProbeBackend) : bool :=
  match b with LegacyHttp => false | _ => true end.

(** [a.saturating_mul(b)] and [a.saturating_add(b)] on [usize]. *)
Definition sat (usize_max n : N) : N := N.min usize_max n.

Section validate.
Context (usize_max : N) (c : Config).

Definition rate_fields : list (string * f64) :=
  [("connection_active_thr_kbps", c.(connection_active_thr_kbps));
   ("connection_stall_thr_kbps", c.(connection_stall_thr_kbps));
   ("adaptive_ceiling_dl_cap_kbps", c.(adaptive_ceiling_dl_cap_kbps));
   ("adaptive_ceiling_ul_cap_kbps", c.(adaptive_ceiling_ul_cap_kbps));
   ("adaptive_ceiling_dl_safe_kbps", c.(adaptive_ceiling_dl_safe_kbps));
   ("adaptive_ceiling_ul_safe_kbps", c.(adaptive_ceiling_ul_safe_kbps))]%string.

Definition down_factors : list (string * f64) :=
  [("shaper_rate_min_adjust_down_bufferbloat", c.(shaper_rate_min_adjust_down_bufferbloat));
   ("shaper_rate_max_adjust_down_bufferbloat", c.(shaper_rate_max_adjust_down_bufferbloat));
   ("shaper_rate_adjust_down_load_low", c.(shaper_rate_adjust_down_load_low))]%string.

Definition up_factors : list (string * f64) :=
  [("shaper_rate_min_adjust_up_load_high", c.(shaper_rate_min_adjust_up_load_high));
   ("shaper_rate_max_adjust_up_load_high", c.(shaper_rate_max_adjust_up_load_high));
   ("shaper_rate_adjust_up_load_low", c.(shaper_rate_adjust_up_load_low))]%string.

Definition delay_fields : list (string * f64) :=
  [("dl_owd_delta_delay_thr_ms", c.(dl_owd_delta_delay_thr_ms));
   ("ul_owd_delta_delay_thr_ms", c.(ul_owd_delta_delay_thr_ms));
   ("dl_avg_owd_delta_max_adjust_up_thr_ms", c.(dl_avg_owd_delta_max_adjust_up_thr_ms));
   ("ul_avg_owd_delta_max_adjust_up_thr_ms", c.(ul_avg_owd_delta_max_adjust_up_thr_ms));
   ("dl_avg_owd_delta_max_adjust_down_thr_ms", c.(dl_avg_owd_delta_max_adjust_down_thr_ms));
   ("ul_avg_owd_delta_max_adjust_down_thr_ms", c.(ul_avg_owd_delta_max_adjust_down_thr_ms));
   ("reflector_sum_owd_baselines_delta_thr_ms", c.(reflector_sum_owd_baselines_delta_thr_ms));
   ("reflector_owd_delta_ewma_delta_thr_ms", c.(reflector_owd_delta_ewma_delta_thr_ms))]%string.

Definition timer_fields : list (string * f64) :=
  [("reflector_health_check_interval_s", c.(reflector_health_check_interval_s));
   ("reflector_response_deadline_s", c.(reflector_response_deadline_s));
   ("global_ping_response_timeout_s", c.(global_ping_response_timeout_s));
   ("if_up_check_interval_s", c.(if_up_check_interval_s));
   ("route_check_interval_s", c.(route_check_interval_s));
   ("adaptive_ceiling_hold_time_s", c.(adaptive_ceiling_hold_time_s));
   ("adaptive_ceiling_probe_duration_s", c.(adaptive_ceiling_probe_duration_s));
   ("adaptive_ceiling_failed_bound_ttl_s", c.(adaptive_ceiling_failed_bound_ttl_s))]%string.

Definition history_bytes : N :=
  sat usize_max (sat usize_max (c.(bufferbloat_detection_window) * 18)
    + sat usize_max (N.of_nat (length c.(reflectors)) * c.(reflector_misbehaving_detection_window))).

Definition validate_core : Checked :=
  let sixty := f64_of_N 60 in
  _ ← rate_tuple "download" c.(adjust_dl_shaper_rate) c.(min_dl_shaper_rate_kbps)
        c.(base_dl_shaper_rate_kbps) c.(max_dl_shaper_rate_kbps);
  _ ← rate_tuple "upload" c.(adjust_ul_shaper_rate) c.(min_ul_shaper_rate_kbps)
        c.(base_ul_shaper_rate_kbps) c.(max_ul_shaper_rate_kbps);
  _ ← range f64_zero max_rate_f64 rate_fields;
  _ ← range (f64_lit 1 100) f64_one [("high_load_thr", c.(high_load_thr))];
  _ ← range f64_zero f64_one
        [("alpha_baseline_increase", c.(alpha_baseline_increase));
         ("alpha_baseline_decrease", c.(alpha_baseline_decrease));
         ("alpha_delta_ewma", c.(alpha_delta_ewma))];
  _ ← range f64_min_positive f64_one down_factors;
  _ ← range f64_one max_rate_f64 up_factors;
  _ ← check (negb (f64_ltb c.(shaper_rate_min_adjust_down_bufferbloat)
                     c.(shaper_rate_max_adjust_down_bufferbloat)))
        "shaper_rate_max_adjust_down_bufferbloat must not exceed shaper_rate_min_adjust_down_bufferbloat";
  _ ← check (negb (f64_ltb c.(shaper_rate_max_adjust_up_load_high)
                     c.(shaper_rate_min_adjust_up_load_high)))
        "shaper_rate_min_adjust_up_load_high must not exceed shaper_rate_max_adjust_up_load_high";
  _ ← range f64_zero (f64_mul MAX_TIMER_S (f64_of_N 1000)) delay_fields;
  _ ← thresholds_ordered "download" c.(dl_avg_owd_delta_max_adjust_up_thr_ms)
        c.(dl_owd_delta_delay_thr_ms) c.(dl_avg_owd_delta_max_adjust_down_thr_ms);
  _ ← thresholds_ordered "upload" c.(ul_avg_owd_delta_max_adjust_up_thr_ms)
        c.(ul_owd_delta_delay_thr_ms) c.(ul_avg_owd_delta_max_adjust_down_thr_ms);
  _ ← range (f64_lit 5 100) MAX_TIMER_S [("reflector_ping_interval_s", c.(reflector_ping_interval_s))];
  _ ← range MIN_TIMER_S MAX_TIMER_S timer_fields;
  _ ← range f64_zero MAX_TIMER_S
        [("startup_wait_s", c.(startup_wait_s));
         ("sustained_idle_sleep_thr_s", c.(sustained_idle_sleep_thr_s));
         ("adaptive_ceiling_cooldown_s", c.(adaptive_ceiling_cooldown_s))];
  _ ← range f64_zero (f64_div MAX_TIMER_S sixty)
        [("reflector_replacement_interval_mins", c.(reflector_replacement_interval_mins));
         ("reflector_comparison_interval_mins", c.(reflector_comparison_interval_mins))];
  _ ← range (f64_div MIN_TIMER_S sixty) (f64_div MAX_TIMER_S sixty)
        [("irtt_session_duration_m", c.(irtt_session_duration_m))];
  _ ← monitor_interval "monitor_achieved_rates_interval_ms" c.(monitor_achieved_rates_interval_ms);
  _ ← monitor_interval "monitor_cpu_usage_interval_ms" c.(monitor_cpu_usage_interval_ms);
  _ ← detection_window "bufferbloat_detection" c.(bufferbloat_detection_window)
        c.(bufferbloat_detection_thr);
  _ ← detection_window "reflector_misbehaving_detection" c.(reflector_misbehaving_detection_window)
        c.(reflector_misbehaving_detection_thr);
  _ ← check ((1 <=? c.(no_pingers)) && (c.(no_pingers) <=? MAX_PINGERS)) "no_pingers must be between 1 and 64";
  check (history_bytes <=? MAX_HISTORY_BYTES)
    "configured reflector and controller history exceeds the 1 MiB logical sample budget".

(** *** The adaptive ceiling *)

Definition ceiling_evidence : list string :=
  ["legacy_unverified"; "shaped_validation"; "retained_configuration"; "user_configured"].

Definition adaptive_direction (direction evidence : string) (safe base maximum : f64) : Checked :=
  _ ← check (bool_decide (evidence ∈ ceiling_evidence))
        ("adaptive ceiling " +:+ direction +:+ " evidence is unsupported");
  if bool_decide (evidence = "legacy_unverified") then
    check (f64_eqb safe f64_zero)
      ("legacy-unverified adaptive ceiling " +:+ direction +:+ " must not claim a safe rate")
  else
    check (f64_is_finite safe && negb (f64_ltb safe base) && negb (f64_ltb maximum safe))
      ("adaptive ceiling " +:+ direction +:+ " safe rate must stay between base and maximum").

Definition positive (x : f64) : bool := f64_is_finite x && f64_ltb f64_zero x.

Definition validate_adaptive_ceiling : Checked :=
  if negb c.(adaptive_ceiling_enabled) then mret tt
  else
    _ ← adaptive_direction "download" c.(adaptive_ceiling_dl_evidence) c.(adaptive_ceiling_dl_safe_kbps)
          c.(base_dl_shaper_rate_kbps) c.(max_dl_shaper_rate_kbps);
    _ ← adaptive_direction "upload" c.(adaptive_ceiling_ul_evidence) c.(adaptive_ceiling_ul_safe_kbps)
          c.(base_ul_shaper_rate_kbps) c.(max_ul_shaper_rate_kbps);
    _ ← check (f64_is_finite c.(adaptive_ceiling_dl_cap_kbps)
               && negb (f64_ltb c.(adaptive_ceiling_dl_cap_kbps) c.(max_dl_shaper_rate_kbps)))
          "adaptive_ceiling_dl_cap_kbps cannot be lower than max_dl_shaper_rate_kbps";
    _ ← check (f64_is_finite c.(adaptive_ceiling_ul_cap_kbps)
               && negb (f64_ltb c.(adaptive_ceiling_ul_cap_kbps) c.(max_ul_shaper_rate_kbps)))
          "adaptive_ceiling_ul_cap_kbps cannot be lower than max_ul_shaper_rate_kbps";
    _ ← check (positive c.(adaptive_ceiling_hold_time_s)) "adaptive_ceiling_hold_time_s must be greater than zero";
    _ ← check (positive c.(adaptive_ceiling_growth_percent)
               && negb (f64_ltb (f64_of_N 10) c.(adaptive_ceiling_growth_percent)))
          "adaptive_ceiling_growth_percent must be greater than zero and no more than 10";
    _ ← check (positive c.(adaptive_ceiling_probe_duration_s))
          "adaptive_ceiling_probe_duration_s must be greater than zero";
    _ ← check (f64_is_finite c.(adaptive_ceiling_cooldown_s)
               && negb (f64_ltb c.(adaptive_ceiling_cooldown_s) f64_zero))
          "adaptive_ceiling_cooldown_s must not be negative";
    check (positive c.(adaptive_ceiling_failed_bound_ttl_s))
      "adaptive_ceiling_failed_bound_ttl_s must be greater than zero".

(** *** Counts and thresholds *)

Definition validate_thresholds : Checked :=
  _ ← check (negb (c.(no_pingers) =? 0)) "no_pingers must be greater than zero";
  _ ← check (c.(no_pingers) <=? N.of_nat (length c.(reflectors))) "no_pingers cannot exceed reflector count";
  _ ← check (negb (c.(adjust_dl_shaper_rate)
                   && f64_ltb c.(min_dl_shaper_rate_kbps) c.(connection_active_thr_kbps)))
        "connection_active_thr_kbps cannot be greater than min_dl_shaper_rate_kbps";
  check (negb (c.(adjust_ul_shaper_rate)
               && f64_ltb c.(min_ul_shaper_rate_kbps) c.(connection_active_thr_kbps)))
    "connection_active_thr_kbps cannot be greater than min_ul_shaper_rate_kbps".

(** *** The transport probe *)

(** A finite number in [low..=high]. *)
Definition within (x low high : f64) : bool :=
  f64_is_finite x && (f64_leb low x && f64_leb x high).

Definition lit_within (x : f64) (low high : N) : bool := within x (f64_of_N low) (f64_of_N high).

(** The scheme of the endpoint belongs to the backend. *)
Definition endpoint_matches (backend : TransportProbeBackend) (endpoint : string) : bool :=
  match backend with
  | WebSocket => starts_with "ws://" endpoint || starts_with "wss://" endpoint
  | TcpConnect => starts_with "tcp://" endpoint
  | PersistentHttp => starts_with "https://" endpoint
  | LegacyHttp => starts_with "http://" endpoint || starts_with "https://" endpoint
  end.

Definition ratio_checks : list Checked :=
  [check (lit_within c.(transport_load_hold_s) 1 30) "transport_load_hold_s must be between 1 and 30";
   check (lit_within c.(transport_cpu_max_percent) 50 100) "transport_cpu_max_percent must be between 50 and 100";
   check (within c.(rating_load_window_s) (f64_lit 5 10) (f64_of_N 10))
     "rating_load_window_s must be between 0.5 and 10";
   check (within c.(rating_load_enter_ratio) (f64_lit 1 10) f64_one)
     "rating_load_enter_ratio must be between 0.10 and 1.0";
   check (f64_is_finite c.(rating_load_exit_ratio)
          && (f64_leb (f64_lit 5 100) c.(rating_load_exit_ratio)
              && f64_ltb c.(rating_load_exit_ratio) f64_one)
          && negb (f64_leb c.(rating_load_enter_ratio) c.(rating_load_exit_ratio)))
     "rating_load_exit_ratio must be below rating_load_enter_ratio";
   check (within c.(rating_load_hold_s) (f64_lit 2 10) (f64_of_N 10))
     "rating_load_hold_s must be between 0.2 and 10";
   check (within c.(rating_load_dropout_s) (f64_lit 2 10) (f64_of_N 10))
     "rating_load_dropout_s must be between 0.2 and 10";
   check (f64_is_finite c.(rating_load_min_kbps) && negb (f64_ltb c.(rating_load_min_kbps) f64_zero))
     "rating_load_min_kbps must not be negative";
   check (within c.(rating_load_dominance_ratio) (f64_lit 11 10) (f64_of_N 10))
     "rating_load_dominance_ratio must be between 1.1 and 10";
   check (within c.(rating_capture_min_enter_ratio) (f64_lit 5 100) (f64_lit 50 100))
     "rating_capture_min_enter_ratio must be between 0.05 and 0.50";
   check (within c.(rating_capture_peak_factor) (f64_lit 20 100) (f64_lit 80 100))
     "rating_capture_peak_factor must be between 0.20 and 0.80";
   check (within c.(rating_capture_contamination_ratio) (f64_lit 5 100) (f64_lit 50 100))
     "rating_capture_contamination_ratio must be between 0.05 and 0.50";
   check (within c.(rating_capture_ack_ratio) (f64_lit 1 100) (f64_lit 25 100))
     "rating_capture_ack_ratio must be between 0.01 and 0.25";
   check ((2 <=? c.(rating_capture_quiet_s)) && (c.(rating_capture_quiet_s) <=? 30))
     "rating_capture_quiet_s must be between 2 and 30";
   check ((5 <=? c.(rating_capture_quiet_timeout_s)) && (c.(rating_capture_quiet_timeout_s) <=? 120))
     "rating_capture_quiet_timeout_s must be between 5 and 120";
   check (within c.(rating_capture_quiet_ratio) (f64_lit 1 100) (f64_lit 25 100))
     "rating_capture_quiet_ratio must be between 0.01 and 0.25";
   check (f64_is_finite c.(rating_capture_quiet_min_kbps)
          && negb (f64_ltb c.(rating_capture_quiet_min_kbps) f64_zero))
     "rating_capture_quiet_min_kbps must not be negative";
   check (lit_within c.(rating_episode_gap_s) 5 120) "rating_episode_gap_s must be between 5 and 120";
   check (lit_within c.(quality_target_delay_ms) 5 200) "quality_target_delay_ms must be between 5 and 200";
   check ((1 <=? c.(quality_search_max_steps)) && (c.(quality_search_max_steps) <=? 10))
     "quality_search_max_steps must be between 1 and 10";
   check (lit_within c.(quality_search_observe_s) 2 120) "quality_search_observe_s must be between 2 and 120";
   check (lit_within c.(quality_search_cooldown_s) 30 86400)
     "quality_search_cooldown_s must be between 30 and 86400"].

(** The checks made only while the transport probe is enabled. *)
Definition validate_probe : Checked :=
  backend ← match parse_backend c.(transport_probe_backend) with
            | Some backend => Ok backend
            | None => Err (ConfigMessage "transport_probe_backend is unsupported")
            end;
  let endpoint := c.(transport_probe_endpoint) in
  _ ← check (negb (String.eqb endpoint "" || (512 <? len endpoint) || any_whitespace endpoint))
        "transport_probe_endpoint is invalid";
  _ ← check (endpoint_matches backend endpoint)
        "transport_probe_endpoint scheme does not match transport_probe_backend";
  _ ← check (negb (c.(transport_controller_enabled) && negb (trusted backend)))
        "transport_controller_enabled requires a trusted native transport backend";
  _ ← check (f64_is_finite c.(transport_probe_idle_interval_s)
             && negb (f64_ltb c.(transport_probe_idle_interval_s) (f64_of_N 5))
             && negb (f64_ltb (f64_of_N 3600) c.(transport_probe_idle_interval_s)))
        "transport_probe_idle_interval_s must be between 5 and 3600";
  _ ← check (f64_is_finite c.(transport_probe_loaded_interval_s)
             && negb (f64_ltb c.(transport_probe_loaded_interval_s) (f64_lit 5 10))
             && negb (f64_ltb (f64_of_N 60) c.(transport_probe_loaded_interval_s)))
        "transport_probe_loaded_interval_s must be between 0.5 and 60";
  _ ← check ((1 <=? c.(transport_probe_timeout_s)) && (c.(transport_probe_timeout_s) <=? 30))
        "transport_probe_timeout_s must be between 1 and 30";
  all_checks ratio_checks.

Definition guard_rates : list (string * f64) :=
  [("throughput_guard_dl_floor_kbps", c.(throughput_guard_dl_floor_kbps));
   ("throughput_guard_ul_floor_kbps", c.(throughput_guard_ul_floor_kbps));
   ("throughput_reference_dl_p20_kbps", c.(throughput_reference_dl_p20_kbps));
   ("throughput_reference_dl_p50_kbps", c.(throughput_reference_dl_p50_kbps));
   ("throughput_reference_ul_p20_kbps", c.(throughput_reference_ul_p20_kbps));
   ("throughput_reference_ul_p50_kbps", c.(throughput_reference_ul_p50_kbps))]%string.

Definition validate_transport : Checked :=
  _ ← check (negb (c.(transport_controller_enabled) && negb c.(transport_latency_enabled)))
        "transport_controller_enabled requires transport_latency_enabled";
  _ ← (if c.(transport_latency_enabled) then validate_probe else mret tt);
  _ ← check (f64_leb (f64_of_N 50) c.(throughput_guard_retention_percent)
             && f64_leb c.(throughput_guard_retention_percent) (f64_of_N 100))
        "throughput_guard_retention_percent must be between 50 and 100";
  all_checks (map (λ f, check (f64_is_finite f.2 && negb (f64_ltb f.2 f64_zero))
                          (f.1 +:+ " must not be negative")) guard_rates).

(** The checks of [Config::validate] on the numbers the rate controller works with. *)
Definition validate : Checked :=
  _ ← validate_core;
  _ ← check (within c.(route_check_interval_s) f64_one (f64_of_N 60))
        "route_check_interval_s must be between 1 and 60";
  _ ← validate_thresholds;
  _ ← validate_adaptive_ceiling;
  validate_transport.
End validate.
