(* ===== verification/CakeControl.v ===== *)
(** * The CAKE qdisc of an interface

    The part of [main.rs] that reads the root qdisc of an interface and changes its bandwidth:
    [root_cake_control_identity] and [change_cake_rate]. [tc] runs outside; a call gives the
    result of [tc_output] or of the command, the error text included. *)

From S2P Require Import Prelude RustStr RustWhitespace RustNet TemporaryTopology RateLimits Effects.

Local Open Scope N_scope.

(** [CakeQdiscKind] of [main.rs], which the runtime types of Auto-Tune repeat. *)
Inductive CakeQdiscKind := Cake | CakeMq.

#[export] Instance cake_kind_eq_dec : EqDecision CakeQdiscKind.
Proof. solve_decision. Defined.

Definition as_tc_kind (kind : CakeQdiscKind) : string :=
  match kind with Cake => "cake" | CakeMq => "cake_mq" end.

(** ** Calls *)

Inductive TcCall :=
| Now
| TcShow (interface : string)
| TcChange (interface handle : string) (kind : CakeQdiscKind) (rate_kbps : N).

(** [Instant::now()], the output of [tc qdisc show dev], and the outcome of
    [tc qdisc change root dev .. handle .. <kind> bandwidth <rate>Kbit]. *)
Definition tc_answer (c : TcCall) : Type :=
  match c with
  | Now => N
  | TcShow _ => result string string
  | TcChange _ _ _ _ => result string unit
  end.

(** ** The identity of the root qdisc *)

(** The kind and the handle on the line of a root qdisc. *)
Definition line_identity (fields : list string) : result string (CakeQdiscKind * string) :=
  kind ← match fields !! 1%nat with
         | Some "cake" => Ok Cake
         | Some "cake_mq" => Ok CakeMq
         | _ => Err "configured control target is not a root CAKE qdisc"
         end;
  match value ← fields !! 2%nat; split_once ":" value with
  | None => Err "root CAKE handle is missing"
  | Some (major, minor) =>
      match from_str_radix_16 u16_max major with
      | None => Err "root CAKE handle is invalid"
      | Some major =>
          if (major =? 0)%N || negb (String.eqb minor "" || String.eqb minor "0")
          then Err "root CAKE handle is not addressable"
          else Ok (kind, show_hex major +:+ ":")
      end
  end%string.

Definition root_line (fields : list string) : bool :=
  bool_decide (head fields = Some "qdisc"%string) && bool_decide ("root"%string ∈ fields).

Fixpoint scan_lines (found : option (CakeQdiscKind * string)) (ls : list string) :
    result string (option (CakeQdiscKind * string)) :=
  match ls with
  | [] => Ok found
  | line :: ls =>
      let fields := split_whitespace line in
      if negb (root_line fields) then scan_lines found ls
      else if is_some found then Err "root qdisc identity is ambiguous"%string
      else identity ← line_identity fields; scan_lines (Some identity) ls
  end.

Definition root_cake_control_identity (output : string) : result string (CakeQdiscKind * string) :=
  found ← scan_lines None (lines output);
  match found with
  | Some identity => Ok identity
  | None => Err "root CAKE qdisc is missing"%string
  end.

Example identity_sample :
  root_cake_control_identity
    ("qdisc noqueue 0: dev lo" +:+ str1 nl +:+ "qdisc cake 8001: root refcnt 2 bandwidth 20Mbit" +:+ str1 nl)
  = Ok (Cake, "8001:"%string).
Proof. by vm_compute. Qed.

(** ** Changing the bandwidth *)

Definition change_cake_rate {S} (interface : string) (rate_kbps : N) (qdisc_kind : CakeQdiscKind) :
    method tc_answer S string unit :=
  if String.eqb interface "" || negb ((100 <=? rate_kbps) && (rate_kbps <=? MAX_RATE_KBPS))
  then raise "requested CAKE rate is outside the supported range"%string
  else
    shown ← call (TcShow interface);
    output ← lift_m shown;
    identity ← lift_m (root_cake_control_identity output);
    if negb (bool_decide (identity.1 = qdisc_kind))
    then raise "root CAKE kind changed before bandwidth update"%string
    else
      changed ← call (TcChange interface identity.2 qdisc_kind rate_kbps);
      lift_m changed.

(** ** What the identity is read from *)

(** Exactly one line belongs to a root qdisc, and it names the kind and the handle. *)
Definition root_lines (output : string) : list (list string) :=
  filter (λ fields, root_line fields = true) (map split_whitespace (lines output)).

Lemma scan_found identity ls r :
  scan_lines (Some identity) ls = Ok r →
  r = Some identity ∧ filter (λ fields, root_line fields = true) (map split_whitespace ls) = [].
Proof.
  induction ls as [| line ls IH]; simpl; [by intros [= <-] |].
  rewrite filter_cons. destruct (root_line _); simpl; [done |]. apply IH.
Qed.

Lemma scan_none ls r :
  scan_lines None ls = Ok r →
  match r with
  | None => filter (λ fields, root_line fields = true) (map split_whitespace ls) = []
  | Some identity => ∃ fields,
      filter (λ fields, root_line fields = true) (map split_whitespace ls) = [fields] ∧
      line_identity fields = Ok identity
  end.
Proof.
  induction ls as [| line ls IH]; cbn [scan_lines map]; [by intros [= <-] |].
  rewrite filter_cons. destruct (root_line _) eqn:E; simpl; [| done].
  destruct (line_identity _) as [identity |] eqn:Hl; simpl; [| done].
  intros [-> ->]%scan_found. eauto.
Qed.
