(* ===== verification/RateControl.v ===== *)
(** * The rate controller

    The control part of [Controller] in [main.rs]: what a latency sample does to the rates of
    the two directions, and when a rate is written to CAKE. The source has one field per
    direction, [x_dl] and [x_ul]; here a direction is a record and [is_dl] selects it. Log
    lines, the status file, the history, the displayed rating and the observations of a running
    Auto-Tune are left out: nothing below reads them. [Duration::from_secs_f64] panics on a
    negative or too large number; the panic is the only error of these methods. *)

From Stdlib Require Import SpecFloat.
From S2P Require Import Prelude RateLimits Effects Binary64 StdTime AdaptiveCeiling TransportQuality QualitySearch LatencyBaseline ControllerConfig CakeControl.

Local Open Scope N_scope.

(** ** Data *)

Inductive LoadKind := High | Low | Idle.

#[export] Instance load_kind_eq_dec : EqDecision LoadKind.
Proof. solve_decision. Defined.

(** [UplinkState] of [routing.rs]. *)
Inductive UplinkState := Active | Standby | Rechecking | Offline | Learning.

Record Sample := {
  reflector : string;
  timestamp : f64;
  rtt_ms : f64;
  dl_owd_us : f64;
  ul_owd_us : f64;
  timestamped_owd : bool;
}.

Record RateSample := {
  dl_kbps : f64;
  ul_kbps : f64;
  fresh : bool;
  dl_observed_at : N;
  ul_observed_at : N;
}.

(** What one direction has learned about latency. *)
Record Learned := {
  baseline_us : gmap string f64;
  ewma_us : gmap string f64;
  delays : list bool;
  delta_us : list f64;
}.

(** What one direction has written to CAKE. *)
Record Applied := {
  last_set : N;
  last_shaper_attempt : N;
  cached_kind : option CakeQdiscKind;
}.

(** What one direction knows from the transport probe. *)
Record Quality := {
  transport_latency : TransportLatencyTracker;
  quality_search : QualitySearchDirection;
  transport_bad_windows : N;
  throughput_floor_kbps : f64;
}.

Record Direction := {
  shaper : f64;
  adaptive : AdaptiveCeilingDirection;
  last_bb : N;
  last_decay : N;
  quality : Quality;
  learned : Learned;
  applied : Applied;
}.

(** [RatingPhase] of [rating_load.rs]. *)
Inductive RatingPhase := RatingIdle | RatingDownload | RatingUpload | RatingBidirectional.

#[export] Instance rating_phase_eq_dec : EqDecision RatingPhase.
Proof. solve_decision. Defined.

(** The fields of the last published status that the controller reads back. *)
Record StatusSnapshot := {
  st_dl_load_pct : f64;
  st_ul_load_pct : f64;
  st_avg_dl_delta : f64;
  st_avg_ul_delta : f64;
}.

(** The part of [Controller] that the handlers here do not change. *)
Record Surroundings := {
  sr_cfg : Config;
  sr_baseline_epoch : N;
  sr_uplink_state : UplinkState;
  sr_route_identity : option string;
  sr_rating_phase : RatingPhase;
  sr_cpu_total_percent : option f64;
  sr_sqm_runtime_healthy : bool;
  sr_runtime_override_active : bool;
  sr_runtime_operation_active : bool;
}.

Record Controller := {
  surroundings : Surroundings;
  dl : Direction;
  ul : Direction;
  baseline_warmup : gmap string BaselineWarmup;
  run_state : string;
  transport_latency_all : TransportLatencyTracker;
  last_status : option StatusSnapshot;
}.

(** ** Fields *)

Section accessors.
Context (c : Controller).

Definition cfg : Config := c.(surroundings).(sr_cfg).
Definition baseline_epoch : N := c.(surroundings).(sr_baseline_epoch).
Definition uplink_state : UplinkState := c.(surroundings).(sr_uplink_state).
Definition route_identity : option string := c.(surroundings).(sr_route_identity).
Definition rating_phase : RatingPhase := c.(surroundings).(sr_rating_phase).
Definition cpu_total_percent : option f64 := c.(surroundings).(sr_cpu_total_percent).
Definition sqm_runtime_healthy : bool := c.(surroundings).(sr_sqm_runtime_healthy).
Definition runtime_override_active : bool := c.(surroundings).(sr_runtime_override_active).
Definition runtime_operation_active : bool := c.(surroundings).(sr_runtime_operation_active).
End accessors.

(** ** Fields of a direction *)

Definition direction (is_dl : bool) (c : Controller) : Direction := if is_dl then c.(dl) else c.(ul).

Definition on_direction (is_dl : bool) (f : Direction → Direction) (c : Controller) : Controller :=
  {| surroundings := c.(surroundings);
     dl := if is_dl then f c.(dl) else c.(dl); ul := if is_dl then c.(ul) else f c.(ul);
     baseline_warmup := c.(baseline_warmup); run_state := c.(run_state);
     transport_latency_all := c.(transport_latency_all); last_status := c.(last_status) |}.

Definition on_both (f : Direction → Direction) (c : Controller) : Controller :=
  on_direction false f (on_direction true f c).

Definition with_surroundings (s : Surroundings) (c : Controller) : Controller :=
  {| surroundings := s; dl := c.(dl); ul := c.(ul);
     baseline_warmup := c.(baseline_warmup); run_state := c.(run_state);
     transport_latency_all := c.(transport_latency_all); last_status := c.(last_status) |}.

Definition with_warmup (w : gmap string BaselineWarmup) (c : Controller) : Controller :=
  {| surroundings := c.(surroundings); dl := c.(dl); ul := c.(ul);
     baseline_warmup := w; run_state := c.(run_state);
     transport_latency_all := c.(transport_latency_all); last_status := c.(last_status) |}.

Definition with_run_state (s : string) (c : Controller) : Controller :=
  {| surroundings := c.(surroundings); dl := c.(dl); ul := c.(ul);
     baseline_warmup := c.(baseline_warmup); run_state := s;
     transport_latency_all := c.(transport_latency_all); last_status := c.(last_status) |}.

Definition with_tracker (t : TransportLatencyTracker) (c : Controller) : Controller :=
  {| surroundings := c.(surroundings); dl := c.(dl); ul := c.(ul);
     baseline_warmup := c.(baseline_warmup); run_state := c.(run_state);
     transport_latency_all := t; last_status := c.(last_status) |}.

Definition with_status (st : StatusSnapshot) (c : Controller) : Controller :=
  {| surroundings := c.(surroundings); dl := c.(dl); ul := c.(ul);
     baseline_warmup := c.(baseline_warmup); run_state := c.(run_state);
     transport_latency_all := c.(transport_latency_all); last_status := Some st |}.

Section setters.
Implicit Types d : Direction.

(** [self.shaper_xl = rate]. *)
Definition with_shaper (rate : f64) d : Direction :=
  {| shaper := rate; adaptive := d.(adaptive); last_bb := d.(last_bb); last_decay := d.(last_decay);
     quality := d.(quality); learned := d.(learned); applied := d.(applied) |}.

Definition with_adaptive (a : AdaptiveCeilingDirection) d : Direction :=
  {| shaper := d.(shaper); adaptive := a; last_bb := d.(last_bb); last_decay := d.(last_decay);
     quality := d.(quality); learned := d.(learned); applied := d.(applied) |}.

Definition with_times (bb decay : N) d : Direction :=
  {| shaper := d.(shaper); adaptive := d.(adaptive); last_bb := bb; last_decay := decay;
     quality := d.(quality); learned := d.(learned); applied := d.(applied) |}.

Definition with_quality (q : Quality) d : Direction :=
  {| shaper := d.(shaper); adaptive := d.(adaptive); last_bb := d.(last_bb);
     last_decay := d.(last_decay); quality := q; learned := d.(learned); applied := d.(applied) |}.

Definition with_learned (l : Learned) d : Direction :=
  {| shaper := d.(shaper); adaptive := d.(adaptive); last_bb := d.(last_bb);
     last_decay := d.(last_decay); quality := d.(quality); learned := l; applied := d.(applied) |}.

Definition with_applied (set_ attempt_ : N) (kind : option CakeQdiscKind) d : Direction :=
  {| shaper := d.(shaper); adaptive := d.(adaptive); last_bb := d.(last_bb);
     last_decay := d.(last_decay); quality := d.(quality); learned := d.(learned);
     applied := {| last_set := set_; last_shaper_attempt := attempt_; cached_kind := kind |} |}.

Definition with_search (s : QualitySearchDirection) (q : Quality) : Quality :=
  {| transport_latency := q.(transport_latency); quality_search := s;
     transport_bad_windows := q.(transport_bad_windows);
     throughput_floor_kbps := q.(throughput_floor_kbps) |}.

Definition with_bad_windows (n : N) (q : Quality) : Quality :=
  {| transport_latency := q.(transport_latency); quality_search := q.(quality_search);
     transport_bad_windows := n; throughput_floor_kbps := q.(throughput_floor_kbps) |}.

Definition with_latency (t : TransportLatencyTracker) (q : Quality) : Quality :=
  {| transport_latency := t; quality_search := q.(quality_search);
     transport_bad_windows := q.(transport_bad_windows);
     throughput_floor_kbps := q.(throughput_floor_kbps) |}.

(** [self.quality_search_xl.reset()]. *)
Definition reset_search d : Direction := with_quality (with_search search_new d.(quality)) d.

(** [self.shaper_xl = rate], the search reset when the rate falls below [previous]. *)
Definition lower_resets (rate previous : f64) d : Direction :=
  with_shaper rate (if f64_ltb rate previous then reset_search d else d).
End setters.

(** ** The configuration of a direction *)

Section config.
Context (is_dl : bool) (c : Config).

Definition pick {A} (x y : A) : A := if is_dl then x else y.
Definition interface : string := pick c.(dl_if) c.(ul_if).
Definition adjusts : bool := pick c.(adjust_dl_shaper_rate) c.(adjust_ul_shaper_rate).
Definition min_rate : f64 := pick c.(min_dl_shaper_rate_kbps) c.(min_ul_shaper_rate_kbps).
Definition base_rate : f64 := pick c.(base_dl_shaper_rate_kbps) c.(base_ul_shaper_rate_kbps).
Definition max_rate_kbps : f64 := pick c.(max_dl_shaper_rate_kbps) c.(max_ul_shaper_rate_kbps).
Definition cap_rate : f64 := pick c.(adaptive_ceiling_dl_cap_kbps) c.(adaptive_ceiling_ul_cap_kbps).
Definition safe_rate : f64 := pick c.(adaptive_ceiling_dl_safe_kbps) c.(adaptive_ceiling_ul_safe_kbps).
Definition evidence : string := pick c.(adaptive_ceiling_dl_evidence) c.(adaptive_ceiling_ul_evidence).
Definition wire_packet_bits : N := pick c.(dl_max_wire_packet_size_bits) c.(ul_max_wire_packet_size_bits).
Definition delay_thr_ms : f64 := pick c.(dl_owd_delta_delay_thr_ms) c.(ul_owd_delta_delay_thr_ms).
Definition adjust_up_thr_ms : f64 :=
  pick c.(dl_avg_owd_delta_max_adjust_up_thr_ms) c.(ul_avg_owd_delta_max_adjust_up_thr_ms).
Definition adjust_down_thr_ms : f64 :=
  pick c.(dl_avg_owd_delta_max_adjust_down_thr_ms) c.(ul_avg_owd_delta_max_adjust_down_thr_ms).
End config.

(** The lowest rate a direction is set to: [min_shaper_rate_kbps.max(1.0)]. *)
Definition floor_rate (is_dl : bool) (c : Config) : f64 := f64_max (min_rate is_dl c) f64_one.

(** ** Functions *)

Definition thousand : f64 := f64_of_N 1000.

Definition packet_compensation_us (packet_size_bits : N) (shaper_rate_kbps : f64) : f64 :=
  if (packet_size_bits =? 0) || f64_leb shaper_rate_kbps f64_zero then f64_zero
  else f64_div (f64_mul thousand (f64_of_N packet_size_bits)) shaper_rate_kbps.

Definition max_wire_packet_rtt_us (c : Config) (dl_rate ul_rate : f64) : f64 :=
  f64_add (packet_compensation_us c.(dl_max_wire_packet_size_bits) dl_rate)
    (packet_compensation_us c.(ul_max_wire_packet_size_bits) ul_rate).

(** In nanoseconds. *)
Definition monitor_tick_timeout (c : Config) : N :=
  let configured_us := N.min u64_max (N.max c.(monitor_achieved_rates_interval_ms) 100 * 1000) in
  let compensated_us :=
    f64_to_u64 (f64_ceil (f64_mul (f64_of_N 10)
      (max_wire_packet_rtt_us c c.(min_dl_shaper_rate_kbps) c.(min_ul_shaper_rate_kbps)))) in
  N.max configured_us compensated_us * 1000.

Definition push_window {A} (window : list A) (value : A) : list A :=
  match window with [] => [] | _ :: rest => rest ++ [value] end.

(** The sum starts from zero; a sum of negative zeros may show the other sign, which no
    comparison sees. *)
Definition average (values : list f64) : f64 :=
  match values with
  | [] => f64_zero
  | _ => f64_div (foldl f64_add f64_zero values) (f64_of_nat (length values))
  end.

Definition classify_load (load_pct achieved_kbps active_thr_kbps high_load_pct : f64) : LoadKind :=
  if f64_ltb high_load_pct load_pct then High
  else if f64_ltb active_thr_kbps achieved_kbps then Low
  else Idle.

Definition CAKE_GROWTH_UPDATE_MIN_INTERVAL : N := duration_from_millis 100.

Definition shaper_update_due (last target since_last_attempt : N) : bool :=
  if target =? last then false
  else (last =? 0) || (target <? last) || (CAKE_GROWTH_UPDATE_MIN_INTERVAL <=? since_last_attempt).

Definition percent (value base : f64) : f64 :=
  if f64_leb base f64_zero then f64_zero else f64_div (f64_mul value (f64_of_N 100)) base.

Definition runtime_rate_control_suspended (c : Controller) : bool :=
  runtime_override_active c || runtime_operation_active c.

(** ** Thresholds *)

Section thresholds.
Context (is_dl : bool) (c : Controller).

Definition direction_compensation_us : f64 :=
  packet_compensation_us (wire_packet_bits is_dl (cfg c)) (direction is_dl c).(shaper).
Definition threshold_us (base_ms : f64) : f64 := f64_add (f64_mul base_ms thousand) direction_compensation_us.
Definition delay_thr_us : f64 := threshold_us (delay_thr_ms is_dl (cfg c)).
Definition avg_adjust_up_thr_us : f64 := threshold_us (adjust_up_thr_ms is_dl (cfg c)).
Definition avg_adjust_down_thr_us : f64 := threshold_us (adjust_down_thr_ms is_dl (cfg c)).
End thresholds.

(** ** One step of a rate *)

(** How far [part] is of [whole], at most one. *)
Definition share (part whole : f64) : f64 := f64_min (f64_div part whole) f64_one.

(** Between [least] at no share and [most] at a whole one. *)
Definition interpolate (least most factor : f64) : f64 := f64_sub least (f64_mul factor (f64_sub least most)).

Section step.
Context (c : Config) (avg_delta_us delay_thr_us up_thr_us down_thr_us : f64).

Definition down_factor : f64 :=
  if f64_leb down_thr_us delay_thr_us then f64_one
  else if f64_ltb delay_thr_us avg_delta_us
  then share (f64_sub avg_delta_us delay_thr_us) (f64_sub down_thr_us delay_thr_us)
  else f64_zero.

Definition up_factor : f64 :=
  if f64_leb delay_thr_us up_thr_us then f64_one
  else if f64_ltb avg_delta_us delay_thr_us
  then share (f64_sub delay_thr_us avg_delta_us) (f64_sub delay_thr_us up_thr_us)
  else f64_zero.

Definition backed_off (rate : f64) : f64 :=
  f64_mul rate (interpolate c.(shaper_rate_min_adjust_down_bufferbloat)
                  c.(shaper_rate_max_adjust_down_bufferbloat) down_factor).

Definition grown (rate : f64) : f64 :=
  f64_mul rate (interpolate c.(shaper_rate_min_adjust_up_load_high)
                  c.(shaper_rate_max_adjust_up_load_high) up_factor).

Definition decayed (base rate : f64) : f64 :=
  if f64_ltb base rate then f64_max (f64_mul rate c.(shaper_rate_adjust_down_load_low)) base
  else if f64_ltb rate base then f64_min (f64_mul rate c.(shaper_rate_adjust_up_load_low)) base
  else rate.
End step.

Definition update_direction (is_dl : bool) (kind : LoadKind) (bufferbloat : bool) (avg_delta_us : f64)
    (allow_growth : bool) (now : N) (c : Controller) : Controller :=
  if negb (adjusts is_dl (cfg c)) then c
  else
    let d := direction is_dl c in
    let delay := delay_thr_us is_dl c in
    let up := avg_adjust_up_thr_us is_dl c in
    let down := avg_adjust_down_thr_us is_dl c in
    let bb_ready := duration_from_millis (cfg c).(bufferbloat_refractory_period_ms) <=? now - d.(last_bb) in
    let decay_ready := duration_from_millis (cfg c).(decay_refractory_period_ms) <=? now - d.(last_decay) in
    let '(rate, bb, decay) :=
      if bufferbloat && bb_ready then (backed_off (cfg c) avg_delta_us delay down d.(shaper), now, now)
      else if bool_decide (kind = High) && bb_ready && allow_growth
      then (grown (cfg c) avg_delta_us delay up d.(shaper), d.(last_bb), now)
      else if negb (bool_decide (kind = High)) && decay_ready
      then (decayed (cfg c) (base_rate is_dl (cfg c)) d.(shaper), d.(last_bb), now)
      else (d.(shaper), d.(last_bb), d.(last_decay)) in
    on_direction is_dl (λ d, with_times bb decay (lower_resets rate d.(shaper) d)) c.

(** ** The adaptive ceilings *)

Inductive Fault := Panicked.

(** [Duration::from_secs_f64(x)]. *)
Definition duration_from_secs_f64 (x : f64) : result Fault N :=
  match duration_try_from_secs_f64 x with Some d => Ok d | None => Err Panicked end.

Definition adaptive_policy (c : Config) : result Fault AdaptiveCeilingPolicy :=
  hold ← duration_from_secs_f64 c.(adaptive_ceiling_hold_time_s);
  probe ← duration_from_secs_f64 c.(adaptive_ceiling_probe_duration_s);
  cooldown ← duration_from_secs_f64 c.(adaptive_ceiling_cooldown_s);
  ttl ← duration_from_secs_f64 c.(adaptive_ceiling_failed_bound_ttl_s);
  grace ← duration_from_secs_f64 (f64_max c.(reflector_response_deadline_s) f64_one);
  Ok {| hold_time := hold; probe_step_percent := c.(adaptive_ceiling_growth_percent);
        probe_duration := probe; cooldown := cooldown; failed_bound_ttl := ttl;
        eligibility_grace := grace;
        minimum_throughput_gain_percent :=
          f64_clamp (f64_mul c.(adaptive_ceiling_growth_percent) (f64_lit 5 10)) f64_one (f64_of_N 5) |}.

(** What a sample says about one direction. *)
Record Load := {
  load_kind : LoadKind;
  achieved_kbps : f64;
  bloat : bool;
  delay_count : N;
  avg_delta : f64;
}.

Definition eligible (is_dl : bool) (l : Load) (bufferbloat clean : bool) (c : Controller) : bool :=
  adjusts is_dl (cfg c) && bool_decide (l.(load_kind) = High) && negb bufferbloat
  && (l.(delay_count) <? (cfg c).(bufferbloat_detection_thr))
  && f64_leb l.(avg_delta) (avg_adjust_up_thr_us is_dl c) && clean.

Definition observe_ceiling (is_dl : bool) (l : Load) (bufferbloat is_eligible : bool) (now : N)
    (policy : AdaptiveCeilingPolicy) (c : Controller) : Controller :=
  if negb (adjusts is_dl (cfg c)) then c
  else
    let ob := {| ob_eligible := is_eligible; ob_bufferbloat := bufferbloat;
                 ob_shaper_rate_kbps := (direction is_dl c).(shaper);
                 ob_achieved_rate_kbps := l.(achieved_kbps) |} in
    on_direction is_dl (λ d, with_adaptive (AdaptiveCeiling.observe now ob policy d.(adaptive)).2 d) c.

(** [dl_bloat] and [ul_bloat] include the transport evidence, unlike [bloat] of the load. *)
Definition update_adaptive_ceilings (dl_load ul_load : Load) (dl_bloat ul_bloat dl_clean ul_clean : bool)
    (now : N) (c : Controller) : result Fault Controller :=
  if negb (cfg c).(adaptive_ceiling_enabled)
     || match (uplink_state c) with Offline | Learning | Rechecking => true | _ => false end
  then Ok c
  else
    policy ← adaptive_policy (cfg c);
    let dl_eligible := eligible true dl_load dl_bloat dl_clean c in
    let ul_eligible := eligible false ul_load ul_bloat ul_clean c in
    Ok (observe_ceiling false ul_load ul_bloat ul_eligible now policy
          (observe_ceiling true dl_load dl_bloat dl_eligible now policy c)).

Definition clamp_direction (is_dl : bool) (c : Controller) : Controller :=
  if negb (adjusts is_dl (cfg c)) then c
  else on_direction is_dl (λ d,
    lower_resets (f64_min (f64_max d.(shaper) (floor_rate is_dl (cfg c)))
                    d.(adaptive).(effective_max_kbps)) d.(shaper) d) c.

Definition clamp_rates (c : Controller) : Controller := clamp_direction false (clamp_direction true c).

(** ** Writing rates *)

Definition Ctl (A : Type) : Type := method tc_answer Controller Fault A.

(** [&mut self] as it is now. *)
Definition self : Ctl Controller := gets (λ c, c).

Definition qdisc_kind (is_dl : bool) (interface : string) :
    method tc_answer Controller string CakeQdiscKind :=
  cached ← gets (λ c, (direction is_dl c).(applied).(cached_kind));
  match cached with
  | Some kind => mret kind
  | None =>
      shown ← call (TcShow interface);
      output ← lift_m shown;
      identity ← lift_m (root_cake_control_identity output);
      _ ← update (on_direction is_dl (λ d,
            with_applied d.(applied).(last_set) d.(applied).(last_shaper_attempt) (Some identity.1) d));
      mret identity.1
  end.

(** [rate.round().max(1.0) as u64]. *)
Definition written_rate (rate : f64) : N := f64_to_u64 (f64_max (f64_round rate) f64_one).

Definition apply_shaper (is_dl : bool) : Ctl unit :=
  c ← self;
  if runtime_rate_control_suspended c || (negb (cfg c).(manage_sqm) && negb (sqm_runtime_healthy c))
  then mret tt
  else
    let d := direction is_dl c in
    let name := interface is_dl (cfg c) in
    now ← call Now;
    if negb (adjusts is_dl (cfg c)) then mret tt
    else
      let rounded := written_rate d.(shaper) in
      if negb (shaper_update_due d.(applied).(last_set) rounded (now - d.(applied).(last_shaper_attempt)))
      then mret tt
      else
        attempted ← call Now;
        _ ← update (on_direction is_dl (λ d,
              with_applied d.(applied).(last_set) attempted d.(applied).(cached_kind) d));
        kind ← attempt (qdisc_kind is_dl name);
        match kind with
        | Err _ => mret tt
        | Ok kind =>
            changed ← attempt (change_cake_rate name rounded kind);
            update (on_direction is_dl (λ d,
              match changed with
              | Ok _ => with_applied rounded d.(applied).(last_shaper_attempt) d.(applied).(cached_kind) d
              | Err _ => with_applied d.(applied).(last_set) d.(applied).(last_shaper_attempt) None d
              end))
        end.

Definition apply_shapers : Ctl unit := _ ← apply_shaper true; apply_shaper false.

(** ** Pauses *)

(** [observe] is applied to the ceiling of each adjusted direction; when it changed one, the
    rates are clamped and written. *)
Definition settle_ceilings (f : N → AdaptiveCeilingDirection → AdaptiveCeilingUpdate * AdaptiveCeilingDirection) :
    Ctl unit :=
  now ← call Now;
  c ← self;
  let one is_dl : bool :=
    adjusts is_dl (cfg c) && is_some (f now (direction is_dl c).(adaptive)).1.(up_change) in
  let step (is_dl : bool) (c : Controller) : Controller :=
    if adjusts is_dl (cfg c)
    then on_direction is_dl (λ d, with_adaptive (f now d.(adaptive)).2 d) c else c in
  _ ← update (λ c : Controller, step false (step true c));
  if one true || one false
  then _ ← update clamp_rates; apply_shapers
  else mret tt.

Definition set_min_direction (is_dl : bool) (c : Controller) : Controller :=
  if adjusts is_dl (cfg c)
  then on_direction is_dl (λ d, reset_search (with_shaper (floor_rate is_dl (cfg c)) d)) c else c.

Definition set_min_shaper_rates : Ctl unit :=
  _ ← update (λ c, set_min_direction false (set_min_direction true c));
  apply_shapers.

Definition set_run_state (state : string) : Ctl unit :=
  c ← self;
  if bool_decide (c.(run_state) = state) then mret tt
  else
    _ ← update (with_run_state state);
    if (cfg c).(adaptive_ceiling_enabled) && negb (bool_decide (state = "RUNNING"%string))
    then settle_ceilings (λ now a, pause a now "autorate state paused")
    else mret tt.

Definition reset_adaptive_after_sustained_gap : Ctl unit :=
  c ← self;
  if negb (cfg c).(adaptive_ceiling_enabled) then mret tt
  else settle_ceilings (λ now a, reset_to_configured a now).

Definition note_probe_gap : Ctl unit :=
  c ← self;
  if (cfg c).(adaptive_ceiling_enabled) then settle_ceilings (λ now a, abort_probe_gap a now) else mret tt.

(** ** A sample *)

Definition transport_max_age (c : Config) : result Fault N :=
  duration_from_secs_f64 (f64_add (f64_mul c.(transport_probe_loaded_interval_s) (f64_of_N 3))
                            (f64_of_N c.(transport_probe_timeout_s))).

Definition transport_control_evidence (is_dl : bool) (now : N) (c : Controller) :
    result Fault TransportEvidence :=
  max_age ← transport_max_age (cfg c);
  let s := snapshot_with_max_age (direction is_dl c).(quality).(transport_latency) now
             (cfg c).(transport_latency_enabled) max_age in
  Ok (transport_evidence (cfg c).(transport_controller_enabled) s.(ts_confirmed) s.(ts_sample_age_s)
        (duration_as_secs_f64 max_age) s.(ts_delta_ms) (cfg c).(quality_target_delay_ms)).

Definition sample_usable (s : Sample) : bool :=
  negb (negb (f64_is_finite s.(timestamp)) || f64_ltb s.(timestamp) f64_zero
        || negb (f64_is_finite s.(rtt_ms)) || f64_ltb s.(rtt_ms) f64_zero
        || negb (f64_is_finite s.(dl_owd_us)) || negb (f64_is_finite s.(ul_owd_us))).

(** Both directions achieve at most a tenth of their rate and the threshold of activity. *)
Definition link_quiet (rates : RateSample) (c : Controller) : bool :=
  let limit shaper := f64_min (cfg c).(connection_active_thr_kbps) (f64_mul shaper (f64_lit 1 10)) in
  f64_is_finite rates.(dl_kbps) && f64_is_finite rates.(ul_kbps)
  && f64_leb f64_zero rates.(dl_kbps) && f64_leb f64_zero rates.(ul_kbps)
  && f64_leb rates.(dl_kbps) (limit c.(dl).(shaper)) && f64_leb rates.(ul_kbps) (limit c.(ul).(shaper)).

Definition with_baseline (reflector : string) (value : f64) (l : Learned) : Learned :=
  {| baseline_us := <[reflector := value]> l.(baseline_us); ewma_us := l.(ewma_us);
     delays := l.(delays); delta_us := l.(delta_us) |}.

(** The part of [on_sample_with_rates] that qualifies the baseline of a new reflector; [true]
    when the sample may be judged. *)
Definition learn_baseline (s : Sample) (interval_s : f64) (rates : RateSample) (dl_pct ul_pct : f64)
    (now : N) : Ctl bool :=
  c ← self;
  if is_some (c.(dl).(learned).(baseline_us) !! s.(reflector))
     && is_some (c.(ul).(learned).(baseline_us) !! s.(reflector))
  then mret true
  else
    match duration_try_from_secs_f64
            (f64_max (f64_div s.(rtt_ms) thousand) (f64_mul (f64_of_N 2) interval_s)) with
    | None => mret false
    | Some quiet_span =>
        let policy :=
          {| maximum_load_age :=
               duration_saturating_mul (monitor_tick_timeout (cfg c)) (if rates.(fresh) then 1 else 2);
             minimum_quiet_span := quiet_span;
             maximum_spread_us := (delay_thr_us true c, delay_thr_us false c) |} in
        let warmup := default (warmup_new (baseline_epoch c)) (c.(baseline_warmup) !! s.(reflector)) in
        let '(warmed, warmup) :=
          LatencyBaseline.observe warmup
            {| bo_owd_us := (s.(dl_owd_us), s.(ul_owd_us)); bo_now := now;
               bo_load_epoch := N.min rates.(dl_observed_at) rates.(ul_observed_at);
               bo_quiet := link_quiet rates c |} policy in
        _ ← update (with_warmup (<[s.(reflector) := warmup]> c.(baseline_warmup)));
        match warmed with
        | Some (dl_value, ul_value) =>
            let learn value d := with_learned (with_baseline s.(reflector) value d.(learned)) d in
            _ ← update (λ c,
                  with_warmup (delete s.(reflector) c.(baseline_warmup))
                    (on_direction false (learn ul_value) (on_direction true (learn dl_value) c)));
            _ ← (if bool_decide (c.(run_state) = "LEARNING"%string)
                 then set_run_state "RUNNING" else mret tt);
            mret true
        | None =>
            _ ← (if bool_decide (c.(dl).(learned).(baseline_us) = ∅)
                 then set_run_state "LEARNING" else mret tt);
            _ ← update (with_status {| st_dl_load_pct := dl_pct; st_ul_load_pct := ul_pct;
                                       st_avg_dl_delta := f64_zero; st_avg_ul_delta := f64_zero |});
            mret false
        end
    end.

(** *** The delays of a sample *)

Definition blend (alpha value previous : f64) : f64 :=
  f64_add (f64_mul alpha value) (f64_mul (f64_sub f64_one alpha) previous).

Definition three_billion : f64 := f64_of_N 3000000000.

(** The baselines and the deltas over them, download first. *)
Definition track_baselines (c : Config) (s : Sample) (base : Owd) : Owd * Owd :=
  let delta := (f64_sub s.(dl_owd_us) base.1, f64_sub s.(ul_owd_us) base.2) in
  if s.(timestamped_owd) && f64_leb three_billion (f64_add (f64_abs delta.1) (f64_abs delta.2))
  then ((s.(dl_owd_us), s.(ul_owd_us)), (f64_zero, f64_zero))
  else
    let alpha owd base :=
      if f64_leb base owd then c.(alpha_baseline_increase) else c.(alpha_baseline_decrease) in
    let base := (blend (alpha s.(dl_owd_us) base.1) s.(dl_owd_us) base.1,
                 blend (alpha s.(ul_owd_us) base.2) s.(ul_owd_us) base.2) in
    (base, (f64_sub s.(dl_owd_us) base.1, f64_sub s.(ul_owd_us) base.2)).

(** The new baseline, the average when the link is not loaded, and the two windows. *)
Definition note_delta (c : Config) (reflector : string) (base delta threshold : f64) (unloaded : bool)
    (l : Learned) : Learned :=
  {| baseline_us := <[reflector := base]> l.(baseline_us);
     ewma_us :=
       if unloaded
       then <[reflector := blend c.(alpha_delta_ewma) delta (default f64_zero (l.(ewma_us) !! reflector))]>
              l.(ewma_us)
       else l.(ewma_us);
     delays := push_window l.(delays) (f64_ltb threshold delta);
     delta_us := push_window l.(delta_us) delta |}.

Definition high_load_pct (c : Config) : f64 := f64_mul c.(high_load_thr) (f64_of_N 100).

Definition load_of (c : Config) (l : Learned) (load_pct achieved : f64) : Load :=
  let count := N.of_nat (length (filter (λ late : bool, late = true) l.(delays))) in
  {| load_kind := classify_load load_pct achieved c.(connection_active_thr_kbps) (high_load_pct c);
     achieved_kbps := achieved; bloat := c.(bufferbloat_detection_thr) <=? count;
     delay_count := count; avg_delta := average l.(delta_us) |}.

(** The rates after a judged sample; [dl_ev] and [ul_ev] are the transport evidence. *)
Definition control_rates (dl_load ul_load : Load) (dl_ev ul_ev : TransportEvidence) (now : N)
    (c : Controller) : result Fault Controller :=
  let c := update_direction true dl_load.(load_kind) dl_load.(bloat) dl_load.(avg_delta)
             (allows_icmp_growth dl_ev) now c in
  let c := update_direction false ul_load.(load_kind) ul_load.(bloat) ul_load.(avg_delta)
             (allows_icmp_growth ul_ev) now c in
  let bad l ev := l.(bloat) || (bool_decide (l.(load_kind) = High) && bool_decide (ev = EvBad)) in
  c ← update_adaptive_ceilings dl_load ul_load (bad dl_load dl_ev) (bad ul_load ul_ev)
        (allows_promotion dl_ev) (allows_promotion ul_ev) now c;
  Ok (clamp_rates c).

(** The part of [on_sample_with_rates] after the baselines are known. [dl_pct] and [ul_pct] are
    the loads at the start of the handler. *)
Definition judge_sample (s : Sample) (rates : RateSample) (dl_pct ul_pct : f64) (now : N) : Ctl unit :=
  c ← self;
  match c.(dl).(learned).(baseline_us) !! s.(reflector), c.(ul).(learned).(baseline_us) !! s.(reflector) with
  | Some dl_base, Some ul_base =>
      let '(base, delta) := track_baselines (cfg c) s (dl_base, ul_base) in
      let unloaded := f64_ltb dl_pct (high_load_pct (cfg c)) && f64_ltb ul_pct (high_load_pct (cfg c)) in
      let dl_learned := note_delta (cfg c) s.(reflector) base.1 delta.1 (delay_thr_us true c) unloaded
                          c.(dl).(learned) in
      let ul_learned := note_delta (cfg c) s.(reflector) base.2 delta.2 (delay_thr_us false c) unloaded
                          c.(ul).(learned) in
      _ ← update (λ c, on_direction false (with_learned ul_learned)
                         (on_direction true (with_learned dl_learned) c));
      let dl_load := load_of (cfg c) dl_learned dl_pct rates.(dl_kbps) in
      let ul_load := load_of (cfg c) ul_learned ul_pct rates.(ul_kbps) in
      c ← self;
      dl_ev ← lift_m (transport_control_evidence true now c);
      ul_ev ← lift_m (transport_control_evidence false now c);
      _ ← (if runtime_rate_control_suspended c then mret tt
           else
             c ← lift_m (control_rates dl_load ul_load dl_ev ul_ev now c);
             _ ← update (λ _, c);
             apply_shapers);
      update (with_status {| st_dl_load_pct := dl_pct; st_ul_load_pct := ul_pct;
                             st_avg_dl_delta := dl_load.(avg_delta); st_avg_ul_delta := ul_load.(avg_delta) |})
  | _, _ => mret tt
  end.

(** [interval_s] is the probe interval of the reflector health. *)
Definition on_sample_with_rates (s : Sample) (interval_s : f64) (rates : RateSample) (now : N) : Ctl unit :=
  if negb (sample_usable s) then note_probe_gap
  else
    c ← self;
    let dl_pct := percent rates.(dl_kbps) c.(dl).(shaper) in
    let ul_pct := percent rates.(ul_kbps) c.(ul).(shaper) in
    judged ← learn_baseline s interval_s rates dl_pct ul_pct now;
    if negb judged then mret tt else judge_sample s rates dl_pct ul_pct now.

(** ** A result of the transport probe *)

Section probe.
Context {Request : Type} `{EqDecision Request}.

(** The fields of [TransportProbeResult] that decide about the rates; [autotune_capture] is the
    request of a running Auto-Tune the probe was made for. *)
Record TransportProbeResult := {
  control_valid : bool;
  capture_interval_valid : option bool;
  tp_endpoint : string;
  dl_loaded : bool;
  ul_loaded : bool;
  tp_rating_phase : RatingPhase;
  autotune_capture : option Request;
  latency_ms : option f64;
  tp_error : option string;
  tp_route_identity : option string;
  tp_trusted : bool;
  raw_samples_ms : list f64;
}.

Definition direction_flags (p : RatingPhase) : bool * bool :=
  match p with
  | RatingIdle => (false, false)
  | RatingDownload => (true, false)
  | RatingUpload => (false, true)
  | RatingBidirectional => (true, true)
  end.

Definition transport_result_matches_route (result current : option string) : bool :=
  is_some result && bool_decide (result = current).

(** Old samples go; a direction without a confirmed excess starts over. *)
Definition expire_direction (now max_age : N) (d : Direction) : Direction :=
  let t := expire_loaded d.(quality).(transport_latency) now max_age in
  let q := with_latency t d.(quality) in
  with_quality (if is_some (confirmed_delta_ms t) then q
                else with_search search_new (with_bad_windows 0 q)) d.

Definition note_failure (error : string) (c : Controller) : Controller :=
  with_tracker (observe_failure c.(transport_latency_all) error) c.

(** The loads of the last status are those the probe was made under. *)
Definition controller_phase_valid (r : TransportProbeResult) (active_capture : option Request)
    (c : Controller) : bool :=
  match r.(autotune_capture) with
  | Some capture =>
      bool_decide (Some capture = active_capture)
      && bool_decide (r.(capture_interval_valid) = Some true) && r.(control_valid)
  | None =>
      r.(control_valid)
      && match c.(last_status) with
         | None => false
         | Some st =>
             Bool.eqb (f64_leb (high_load_pct (cfg c)) st.(st_dl_load_pct)) r.(dl_loaded)
             && Bool.eqb (f64_leb (high_load_pct (cfg c)) st.(st_ul_load_pct)) r.(ul_loaded)
         end
  end.

(** The excesses of latency a list of samples confirms: of both directions together, of the
    download and of the upload. The last confirmed one counts. *)
Record Confirmed := { co_all : option f64; co_dl : option f64; co_ul : option f64 }.

Definition later (x y : option f64) : option f64 := if is_some x then x else y.

Definition observe_latency (endpoint : string) (sample : f64) (loaded : bool) (now : N) (is_dl : bool)
    (c : Controller) : option f64 * Controller :=
  let '(delta, t) :=
    observe_success (direction is_dl c).(quality).(transport_latency) endpoint sample loaded now in
  (delta, on_direction is_dl (λ d, with_quality (with_latency t d.(quality)) d) c).

(** One sample of a probe; [flags] tells which directions it was loaded in. *)
Definition observe_sample (endpoint : string) (flags : bool * bool) (now : N) (acc : Confirmed * Controller)
    (sample : f64) : Confirmed * Controller :=
  let '(co, c) := acc in
  let loaded := flags.1 || flags.2 in
  let '(delta, t) := observe_success c.(transport_latency_all) endpoint sample loaded now in
  let c := with_tracker t c in
  let one := observe_latency endpoint sample loaded now in
  if negb loaded then
    ({| co_all := later delta co.(co_all); co_dl := co.(co_dl); co_ul := co.(co_ul) |},
     (one false (one true c).2).2)
  else
    let '(dl_delta, c) := if flags.1 then one true c else (None, c) in
    let '(ul_delta, c) := if flags.2 then one false c else (None, c) in
    ({| co_all := later delta co.(co_all); co_dl := later dl_delta co.(co_dl);
        co_ul := later ul_delta co.(co_ul) |}, c).

(** [usize::min(u8::MAX) as u8]. *)
Definition quality_policy (c : Config) (floor : f64) : result Fault QualitySearchPolicy :=
  observe ← duration_from_secs_f64 c.(quality_search_observe_s);
  cooldown ← duration_from_secs_f64 c.(quality_search_cooldown_s);
  Ok {| target_delay_ms := c.(quality_target_delay_ms); floor_kbps := floor;
        max_steps := N.min c.(quality_search_max_steps) 255; observe_duration := observe;
        qs_cooldown := cooldown |}.

(** Counts the consecutive windows above the target. *)
Definition count_bad (target : f64) (delta : option f64) (d : Direction) : Direction :=
  match delta with
  | None => d
  | Some delta =>
      with_quality (with_bad_windows
        (if f64_ltb target delta then N.min 255 (d.(quality).(transport_bad_windows) + 1) else 0)
        d.(quality)) d
  end.

(** The search of one direction sees the confirmed excess. *)
Definition search_direction (is_dl enabled : bool) (delta : option f64) (policy : QualitySearchPolicy)
    (now : N) (c : Controller) : option QualitySearchUpdate * Controller :=
  let d := direction is_dl c in
  match delta with
  | None => (None, c)
  | Some delta =>
      if enabled && adjusts is_dl (cfg c)
         && (f64_leb delta (cfg c).(quality_target_delay_ms) || (2 <=? d.(quality).(transport_bad_windows)))
      then
        let '(u, s) := QualitySearch.observe now d.(shaper) delta policy d.(quality).(quality_search) true in
        (Some u, on_direction is_dl (λ d, with_quality (with_search s d.(quality)) d) c)
      else (None, c)
  end.

Definition requested (is_dl : bool) (u : option QualitySearchUpdate) (c : Controller) : option f64 :=
  rate ← u ≫= requested_rate_kbps;
  if adjusts is_dl (cfg c) then Some rate else None.

(** The part of [on_transport_probe] after the confirmed excesses are known. *)
Definition request_rates (co : Confirmed) (now : N) : Ctl unit :=
  _ ← update (λ c : Controller,
        on_direction false (count_bad (cfg c).(quality_target_delay_ms) co.(co_ul))
          (on_direction true (count_bad (cfg c).(quality_target_delay_ms) co.(co_dl)) c));
  c ← self;
  dl_policy ← lift_m (quality_policy (cfg c) c.(dl).(quality).(throughput_floor_kbps));
  ul_policy ← lift_m (quality_policy (cfg c) c.(ul).(quality).(throughput_floor_kbps));
  let enabled := (cfg c).(transport_controller_enabled) && negb (runtime_rate_control_suspended c) in
  let '(dl_update, c) := search_direction true enabled co.(co_dl) dl_policy now c in
  let '(ul_update, c) := search_direction false enabled co.(co_ul) ul_policy now c in
  let dl_rate := requested true dl_update c in
  let ul_rate := requested false ul_update c in
  let set (rate : option f64) d := match rate with Some rate => with_shaper rate d | None => d end in
  _ ← update (λ _, on_direction false (set ul_rate) (on_direction true (set dl_rate) c));
  if is_some dl_rate || is_some ul_rate
  then _ ← update clamp_rates; apply_shapers
  else mret tt.

(** [active_capture] is the capture request the running Auto-Tune accepts observations for. *)
Definition on_transport_probe (r : TransportProbeResult) (active_capture : option Request) : Ctl unit :=
  now ← call Now;
  c ← self;
  max_age ← lift_m (transport_max_age (cfg c));
  _ ← update (λ c : Controller, on_both (expire_direction now max_age)
        (with_tracker (expire_loaded c.(transport_latency_all) now max_age) c));
  c ← self;
  match r.(tp_error) with
  | Some error => update (note_failure error)
  | None =>
    if is_some r.(latency_ms)
       && negb (transport_result_matches_route r.(tp_route_identity) (route_identity c))
    then update (note_failure "route changed before transport result was accepted")
    else if negb r.(tp_trusted)
    then update (note_failure "untrusted transport backend is diagnostic-only")
    else
      match r.(latency_ms) with
      | None => update (note_failure "transport probe returned no result")
      | Some latency =>
          let samples := if bool_decide (r.(raw_samples_ms) = []) then [latency] else r.(raw_samples_ms) in
          let phase_valid := controller_phase_valid r active_capture c in
          let rating_valid := bool_decide ((rating_phase c) = r.(tp_rating_phase)) in
          if is_some_and (λ cpu, f64_ltb (cfg c).(transport_cpu_max_percent) cpu) (cpu_total_percent c)
          then mret tt
          else if negb phase_valid && negb rating_valid then mret tt
          else
            let enabled := (cfg c).(transport_controller_enabled) in
            let measured := if enabled then phase_valid else rating_valid in
            let flags := if enabled then (r.(dl_loaded), r.(ul_loaded))
                         else direction_flags r.(tp_rating_phase) in
            if negb measured then mret tt
            else
              let '(co, c) :=
                foldl (observe_sample r.(tp_endpoint) flags now)
                  ({| co_all := None; co_dl := None; co_ul := None |}, c) samples in
              _ ← update (λ _, c);
              if is_some co.(co_all) then request_rates co now else mret tt
      end
  end.
End probe.
Arguments TransportProbeResult : clear implicits.

(** ** The initial controller *)

Definition initial_safe (is_dl : bool) (c : Config) : f64 :=
  if c.(adaptive_ceiling_enabled) && bool_decide (evidence is_dl c = "legacy_unverified"%string)
  then f64_min (base_rate is_dl c) (max_rate_kbps is_dl c)
  else if c.(adaptive_ceiling_enabled) then safe_rate is_dl c
  else max_rate_kbps is_dl c.

Definition floor_input (is_dl : bool) (c : Config) : ThroughputGuardInput :=
  {| tg_enabled := c.(transport_controller_enabled) && c.(throughput_guard_enabled);
     tg_configured_min_kbps := min_rate is_dl c;
     tg_configured_base_kbps := base_rate is_dl c;
     tg_observed_p20_kbps := pick is_dl c.(throughput_reference_dl_p20_kbps) c.(throughput_reference_ul_p20_kbps);
     tg_observed_p50_kbps := pick is_dl c.(throughput_reference_dl_p50_kbps) c.(throughput_reference_ul_p50_kbps);
     tg_absolute_floor_kbps := pick is_dl c.(throughput_guard_dl_floor_kbps) c.(throughput_guard_ul_floor_kbps);
     tg_retention_percent := c.(throughput_guard_retention_percent) |}.

(** [created] is the time [new_with_verified_safe] reads. *)
Definition direction_new (is_dl : bool) (c : Config) (now created : N) : Direction :=
  let window {A} (x : A) := replicate (N.to_nat c.(bufferbloat_detection_window)) x in
  let ceiling :=
    new_at_with_verified_safe (max_rate_kbps is_dl c) (cap_rate is_dl c) (initial_safe is_dl c) created in
  {| shaper := base_rate is_dl c; adaptive := ceiling; last_bb := now; last_decay := now;
     quality := {| transport_latency := tracker_new; quality_search := search_new;
                   transport_bad_windows := 0;
                   throughput_floor_kbps :=
                     f64_min (throughput_floor (floor_input is_dl c)) ceiling.(absolute_cap_kbps) |};
     learned := {| baseline_us := ∅; ewma_us := ∅; delays := window false; delta_us := window f64_zero |};
     applied := {| last_set := 0; last_shaper_attempt := now; cached_kind := None |} |}.

(** [Controller::new], of which [now], [dl_created] and [ul_created] are the times read. *)
Definition controller_new (c : Config) (now dl_created ul_created : N) : Controller :=
  {| surroundings :=
       {| sr_cfg := c; sr_baseline_epoch := now; sr_uplink_state := Offline; sr_route_identity := None;
          sr_rating_phase := RatingIdle; sr_cpu_total_percent := None; sr_sqm_runtime_healthy := true;
          sr_runtime_override_active := false; sr_runtime_operation_active := false |};
     dl := direction_new true c now dl_created; ul := direction_new false c now ul_created;
     baseline_warmup := ∅; run_state := "RUNNING"; transport_latency_all := tracker_new;
     last_status := None |}.

(** [start]. *)
Definition start : Ctl unit := apply_shapers.
