(* ===== verification/ConfigDefaults.v ===== *)
(** * The default configuration

    [Config::defaults] of [main.rs], on the fields the rate controller reads. *)

From S2P Require Import Prelude RateLimits CapturePolicy Binary64 ControllerConfig.

Local Open Scope N_scope.

(** The defaults but for the minimum of the download, the threshold of activity and the interval
    of the loaded probe. *)
Definition defaults_but (min_dl active_thr loaded_interval : f64) : Config := {|
  manage_sqm := true;
  dl_if := "ifb-wan";
  ul_if := "wan";
  route_check_interval_s := f64_of_N 2;
  adjust_dl_shaper_rate := true;
  adjust_ul_shaper_rate := true;
  min_dl_shaper_rate_kbps := min_dl;
  base_dl_shaper_rate_kbps := f64_of_N DEFAULT_BASE_DL_SHAPER_RATE_KBPS;
  max_dl_shaper_rate_kbps := f64_of_N DEFAULT_MAX_DL_SHAPER_RATE_KBPS;
  min_ul_shaper_rate_kbps := f64_of_N DEFAULT_MIN_UL_SHAPER_RATE_KBPS;
  base_ul_shaper_rate_kbps := f64_of_N DEFAULT_BASE_UL_SHAPER_RATE_KBPS;
  max_ul_shaper_rate_kbps := f64_of_N DEFAULT_MAX_UL_SHAPER_RATE_KBPS;
  adaptive_ceiling_enabled := false;
  adaptive_ceiling_dl_cap_kbps := f64_of_N DEFAULT_MAX_DL_SHAPER_RATE_KBPS;
  adaptive_ceiling_ul_cap_kbps := f64_of_N DEFAULT_MAX_UL_SHAPER_RATE_KBPS;
  adaptive_ceiling_dl_safe_kbps := f64_zero;
  adaptive_ceiling_ul_safe_kbps := f64_zero;
  adaptive_ceiling_dl_evidence := "legacy_unverified";
  adaptive_ceiling_ul_evidence := "legacy_unverified";
  adaptive_ceiling_hold_time_s := f64_of_N 20;
  adaptive_ceiling_growth_percent := f64_of_N 3;
  adaptive_ceiling_probe_duration_s := f64_of_N 8;
  adaptive_ceiling_cooldown_s := f64_of_N 30;
  adaptive_ceiling_failed_bound_ttl_s := f64_of_N 900;
  transport_latency_enabled := false;
  transport_controller_enabled := false;
  transport_probe_backend := "websocket";
  transport_probe_endpoint := "wss://ping-bufferbloat.libreqos.com/ws";
  transport_probe_idle_interval_s := f64_of_N 15;
  transport_probe_loaded_interval_s := loaded_interval;
  transport_probe_timeout_s := 5;
  transport_load_hold_s := f64_of_N 3;
  transport_cpu_max_percent := f64_of_N 85;
  rating_load_window_s := f64_of_N 2;
  rating_load_enter_ratio := f64_lit 6 10;
  rating_load_exit_ratio := f64_lit 4 10;
  rating_load_hold_s := f64_one;
  rating_load_dropout_s := f64_lit 15 10;
  rating_load_min_kbps := f64_of_N 2000;
  rating_load_dominance_ratio := f64_lit 15 10;
  rating_capture_min_enter_ratio := f64_lit 15 100;
  rating_capture_peak_factor := f64_lit 35 100;
  rating_capture_contamination_ratio := f64_lit 1 10;
  rating_capture_ack_ratio := f64_lit 8 100;
  rating_capture_quiet_s := 5;
  rating_capture_quiet_timeout_s := 30;
  rating_capture_quiet_ratio := f64_lit 5 100;
  rating_capture_quiet_min_kbps := f64_of_N 1000;
  rating_episode_gap_s := f64_of_N 30;
  quality_target_delay_ms := f64_of_N 30;
  quality_search_max_steps := 3;
  quality_search_observe_s := f64_of_N 6;
  quality_search_cooldown_s := f64_of_N 900;
  throughput_guard_enabled := true;
  throughput_guard_retention_percent := f64_of_N 80;
  throughput_guard_dl_floor_kbps := f64_zero;
  throughput_guard_ul_floor_kbps := f64_zero;
  throughput_reference_dl_p20_kbps := f64_zero;
  throughput_reference_dl_p50_kbps := f64_zero;
  throughput_reference_ul_p20_kbps := f64_zero;
  throughput_reference_ul_p50_kbps := f64_zero;
  connection_active_thr_kbps := active_thr;
  connection_stall_thr_kbps := f64_of_N 10;
  startup_wait_s := f64_zero;
  sustained_idle_sleep_thr_s := f64_of_N 60;
  if_up_check_interval_s := f64_of_N 10;
  global_ping_response_timeout_s := f64_of_N 10;
  irtt_session_duration_m := f64_of_N 10;
  reflectors := standard_reflectors;
  no_pingers := 6;
  reflector_ping_interval_s := f64_lit 3 10;
  reflector_health_check_interval_s := f64_one;
  reflector_response_deadline_s := f64_one;
  reflector_misbehaving_detection_window := 60;
  reflector_misbehaving_detection_thr := 3;
  reflector_replacement_interval_mins := f64_of_N 60;
  reflector_comparison_interval_mins := f64_one;
  reflector_sum_owd_baselines_delta_thr_ms := f64_of_N 20;
  reflector_owd_delta_ewma_delta_thr_ms := f64_of_N 10;
  monitor_achieved_rates_interval_ms := 200;
  monitor_cpu_usage_interval_ms := 2000;
  bufferbloat_detection_window := 6;
  bufferbloat_detection_thr := 3;
  high_load_thr := f64_lit 75 100;
  dl_owd_delta_delay_thr_ms := f64_of_N 30;
  ul_owd_delta_delay_thr_ms := f64_of_N 30;
  dl_avg_owd_delta_max_adjust_up_thr_ms := f64_of_N 10;
  ul_avg_owd_delta_max_adjust_up_thr_ms := f64_of_N 10;
  dl_avg_owd_delta_max_adjust_down_thr_ms := f64_of_N 60;
  ul_avg_owd_delta_max_adjust_down_thr_ms := f64_of_N 60;
  alpha_baseline_increase := f64_lit 1 1000;
  alpha_baseline_decrease := f64_lit 9 10;
  alpha_delta_ewma := f64_lit 95 1000;
  shaper_rate_min_adjust_down_bufferbloat := f64_lit 99 100;
  shaper_rate_max_adjust_down_bufferbloat := f64_lit 75 100;
  shaper_rate_min_adjust_up_load_high := f64_one;
  shaper_rate_max_adjust_up_load_high := f64_lit 104 100;
  shaper_rate_adjust_down_load_low := f64_lit 99 100;
  shaper_rate_adjust_up_load_low := f64_lit 101 100;
  bufferbloat_refractory_period_ms := 300;
  decay_refractory_period_ms := 1000;
  dl_max_wire_packet_size_bits := 0;
  ul_max_wire_packet_size_bits := 0
|}.

Definition defaults : Config :=
  defaults_but (f64_of_N DEFAULT_MIN_DL_SHAPER_RATE_KBPS) (f64_of_N 2000) f64_one.

(** They pass every check, on 32 and 64 bits. *)
Example defaults_accepted :
  validate 4294967295 defaults = Ok tt ∧ validate u64_max defaults = Ok tt.
Proof. by vm_compute. Qed.
