(* ===== verification/ConfigContract.v ===== *)
(** * What an accepted configuration promises

    The checks of [ControllerConfig] as facts about the numbers: the rates are finite, ordered
    and in range, the factors move a rate in the direction they are for, and the times fit a
    [Duration]. *)

From Stdlib Require Import Reals Lra SpecFloat.
From S2P Require Import Prelude RateLimits Binary64 StdTime FloatRounding FloatOps AdaptiveCeiling CeilingContract ControllerConfig CakeControl RateControl.

Local Open Scope N_scope.

(** The numbers of the configuration that the controller computes with. *)
Definition config_floats (c : Config) : list f64 :=
  [min_dl_shaper_rate_kbps c; base_dl_shaper_rate_kbps c; max_dl_shaper_rate_kbps c;
   min_ul_shaper_rate_kbps c; base_ul_shaper_rate_kbps c; max_ul_shaper_rate_kbps c]
  ++ map snd (rate_fields c) ++ map snd (down_factors c) ++ map snd (up_factors c)
  ++ map snd (delay_fields c) ++ map snd (timer_fields c)
  ++ [adaptive_ceiling_growth_percent c; adaptive_ceiling_cooldown_s c;
      transport_probe_loaded_interval_s c; alpha_baseline_increase c; alpha_baseline_decrease c;
      quality_target_delay_ms c; quality_search_observe_s c; quality_search_cooldown_s c;
      throughput_guard_retention_percent c]
  ++ map snd (guard_rates c).

(** They are data of their type, and the packet sizes fit 64 bits. *)
Definition config_typed (c : Config) : Prop :=
  Forall f64_valid (config_floats c) ∧
  c.(dl_max_wire_packet_size_bits) <= u64_max ∧ c.(ul_max_wire_packet_size_bits) <= u64_max.

Lemma config_field c x : config_typed c → x ∈ config_floats c → f64_valid x.
Proof. unfold config_typed. rewrite Forall_forall. intros [H _]. auto. Qed.

(** Membership of a field in the list. *)
Ltac typed_field H :=
  refine (config_field _ _ H _); unfold config_floats; cbn [map app rate_fields down_factors up_factors
    delay_fields timer_fields guard_rates snd]; repeat (first [apply list_elem_of_here | apply list_elem_of_further]).

(** Membership of an entry in a table of fields. *)
Ltac in_fields :=
  cbv [rate_fields down_factors up_factors delay_fields timer_fields guard_rates];
  repeat (first [apply list_elem_of_here | apply list_elem_of_further]).

(** ** Durations *)

Lemma nearest_even_le a b : 0 < b → nearest_even a b <= a / b + 1.
Proof. intros Hb. unfold nearest_even. repeat case_match; lia. Qed.

(** A number of seconds below [2 ^ 32] is a [Duration]. *)
Lemma duration_fits x :
  f64_fin x → (0 <= f64_R x <= IZR (2 ^ 32))%R → is_some (duration_try_from_secs_f64 x) = true.
Proof.
  intros [[Hx Hn] Hf] [Hlo Hhi]. destruct x as [s | | | [] m e]; try done.
  { rewrite finite_neg in Hlo. pose proof (magnitude_bounds m e Hx). lra. }
  unfold duration_try_from_secs_f64. cbn [f64_R cond_Zopp] in Hhi. case_match; [done |].
  match goal with H : (?n <=? _) = false |- _ => assert (n <= 2 ^ 64) as Hle; [| exfalso; revert H Hle] end.
  2: { rewrite N.leb_gt. unfold duration_max, nanos_per_sec. lia. }
  clear H. unfold nanos_per_sec. destruct (Z.leb_spec 0 e) as [He | He].
  - rewrite pow2_IZR, <- mult_IZR in Hhi by done. apply le_IZR in Hhi.
    assert (N.pos m * 2 ^ Z.to_N e <= 2 ^ 32); [| lia].
    apply N2Z.inj_le. rewrite N2Z.inj_mul, N2Z.inj_pow, Z2N.id by lia. done.
  - set (b := 2 ^ Z.to_N (- e)). assert (0 < b) by (unfold b; lia).
    etransitivity; [by apply nearest_even_le |].
    assert (N.pos m <= 2 ^ 32 * b) as Hm.
    { assert (IZR (2 ^ - e) * pow2 e = 1)%R as Hinv.
      { rewrite <- pow2_mult by lia. by replace (- e + e)%Z with 0%Z by lia. }
      pose proof (pow2_pos e). apply N2Z.inj_le. unfold b.
      rewrite N2Z.inj_mul, (N2Z.inj_pow 2 (Z.to_N (- e))), Z2N.id by lia. apply le_IZR. change (Z.of_N (N.pos m)) with (Z.pos m).
      assert (0 < 2 ^ (- e))%Z as Hp by (apply Z.pow_pos_nonneg; lia). apply IZR_lt in Hp.
      change (Z.of_N (2 ^ 32)) with (2 ^ 32)%Z. change (Z.of_N 2) with 2%Z. rewrite mult_IZR.
      replace (IZR (Z.pos m)) with ((IZR (Z.pos m) * pow2 e) * IZR (2 ^ - e))%R by (rewrite Rmult_assoc, (Rmult_comm (pow2 e)), Hinv; lra).
      apply Rmult_le_compat_r; [lra | done]. }
    assert (N.pos m * 1000000000 / b <= 2 ^ 32 * 1000000000); [| lia].
    apply N.Div0.div_le_upper_bound. nia.
Qed.

(** ** Checks *)

Lemma in_range_spec x lo hi :
  f64_valid x → f64_num lo → f64_num hi → in_range x lo hi = true →
  f64_fin x ∧ (f64_R lo <= f64_R x <= f64_R hi)%R.
Proof.
  intros Hx Hlo Hhi. unfold in_range. rewrite !andb_true_iff, !negb_true_iff. intros [[Hf H1] H2].
  assert (f64_num x) as Hn by (destruct (valid_cases x Hx) as [-> |]; done).
  rewrite ltb_false_R in H1 by done. rewrite ltb_false_R in H2 by done. by split; [split | split].
Qed.

Lemma bounded_ok name x lo hi : bounded name x lo hi = Ok tt → in_range x lo hi = true.
Proof. unfold bounded. intros H%fail_if_ok. by rewrite negb_false_iff in H. Qed.

Lemma check_ok b text : check b text = Ok tt → b = true.
Proof. unfold check. intros H%fail_if_ok. by rewrite negb_false_iff in H. Qed.

Lemma all_checks_ok cs k : all_checks cs = Ok tt → k ∈ cs → k = Ok tt.
Proof.
  induction cs as [| k' cs IH]; intros H; [by intros ?%elem_of_nil |].
  cbn [all_checks] in H. destruct k' as [[] |]; [| done]. rewrite elem_of_cons. intros [-> | ?]; auto.
Qed.

Lemma range_ok lo hi fields name x :
  range lo hi fields = Ok tt → (name, x) ∈ fields → in_range x lo hi = true.
Proof.
  intros H Hin. apply (bounded_ok name). apply (all_checks_ok _ _ H).
  apply list_elem_of_fmap. by exists (name, x).
Qed.

(** ** The facts *)

(** The rates of an adjusted direction. *)
Record direction_rates (is_dl : bool) (c : Config) : Prop := {
  dr_min : f64_fin (min_rate is_dl c) ∧ (1 <= f64_R (min_rate is_dl c))%R;
  dr_base : f64_fin (base_rate is_dl c) ∧ (f64_R (min_rate is_dl c) <= f64_R (base_rate is_dl c))%R;
  dr_max : f64_fin (max_rate_kbps is_dl c) ∧
    (f64_R (base_rate is_dl c) <= f64_R (max_rate_kbps is_dl c) <= IZR max_rate)%R;
}.

(** The adaptive ceiling of an adjusted direction. *)
Record direction_ceiling (is_dl : bool) (c : Config) : Prop := {
  dc_cap : (f64_R (max_rate_kbps is_dl c) <= f64_R (cap_rate is_dl c))%R;
  dc_safe : evidence is_dl c ≠ "legacy_unverified"%string →
    (f64_R (base_rate is_dl c) <= f64_R (safe_rate is_dl c) <= f64_R (max_rate_kbps is_dl c))%R;
}.

(** Backing off lowers a rate, growing raises it. *)
Record factors_ok (c : Config) : Prop := {
  fo_down_least : f64_fin c.(shaper_rate_min_adjust_down_bufferbloat) ∧
    (f64_R c.(shaper_rate_min_adjust_down_bufferbloat) <= 1)%R;
  fo_down_most : f64_fin c.(shaper_rate_max_adjust_down_bufferbloat) ∧
    (0 < f64_R c.(shaper_rate_max_adjust_down_bufferbloat)
     <= f64_R c.(shaper_rate_min_adjust_down_bufferbloat))%R;
  fo_up_least : f64_fin c.(shaper_rate_min_adjust_up_load_high) ∧
    (1 <= f64_R c.(shaper_rate_min_adjust_up_load_high))%R;
  fo_up_most : f64_fin c.(shaper_rate_max_adjust_up_load_high) ∧
    (f64_R c.(shaper_rate_min_adjust_up_load_high)
     <= f64_R c.(shaper_rate_max_adjust_up_load_high) <= IZR max_rate)%R;
  fo_decay : f64_fin c.(shaper_rate_adjust_down_load_low) ∧
    (0 < f64_R c.(shaper_rate_adjust_down_load_low) <= 1)%R;
  fo_recover : f64_fin c.(shaper_rate_adjust_up_load_low) ∧
    (1 <= f64_R c.(shaper_rate_adjust_up_load_low) <= IZR max_rate)%R;
}.

Definition timers_ok (c : Config) : Prop :=
  Forall (λ x, is_some (duration_try_from_secs_f64 x) = true)
    [c.(adaptive_ceiling_hold_time_s); c.(adaptive_ceiling_probe_duration_s);
     c.(adaptive_ceiling_cooldown_s); c.(adaptive_ceiling_failed_bound_ttl_s);
     f64_max c.(reflector_response_deadline_s) f64_one].

(** The times of the transport probe are checked only while it is enabled. *)
Definition probe_timers_ok (c : Config) : Prop :=
  is_some (duration_try_from_secs_f64
    (f64_add (f64_mul c.(transport_probe_loaded_interval_s) (f64_of_N 3))
       (f64_of_N c.(transport_probe_timeout_s)))) = true ∧
  is_some (duration_try_from_secs_f64 c.(quality_search_observe_s)) = true ∧
  is_some (duration_try_from_secs_f64 c.(quality_search_cooldown_s)) = true.

(** ** From the checks *)

Lemma max_rate_f64_fin : f64_fin max_rate_f64.
Proof. apply of_N_fin. unfold MAX_RATE_KBPS. lia. Qed.

Lemma max_rate_f64_R : f64_R max_rate_f64 = IZR max_rate.
Proof. apply (of_N_R MAX_RATE_KBPS). unfold MAX_RATE_KBPS. lia. Qed.

Lemma enabled_num : f64_num MIN_ENABLED_RATE_KBPS ∧ f64_R MIN_ENABLED_RATE_KBPS = 1%R.
Proof. split; [apply fin_num, one_fin | apply one_R]. Qed.

Lemma rate_tuple_ok direction low base high :
  f64_valid low → f64_valid base → f64_valid high →
  rate_tuple direction true low base high = Ok tt →
  (f64_fin low ∧ (1 <= f64_R low)%R) ∧
  (f64_fin base ∧ (f64_R low <= f64_R base)%R) ∧
  (f64_fin high ∧ (f64_R base <= f64_R high <= IZR max_rate)%R).
Proof.
  intros Hl Hb Hh. unfold rate_tuple. cbn [negb andb]. intros H. unbind.
  repeat match goal with a : unit |- _ => destruct a end.
  destruct enabled_num as [Hn1 HR1]. pose proof max_rate_f64_fin as Hmax%fin_num.
  pose proof max_rate_f64_R as HRm.
  repeat match goal with
  | H : bounded _ ?x _ _ = Ok tt |- _ =>
      apply bounded_ok, in_range_spec in H; [destruct H as [? ?] | done..]
  end.
  apply check_ok in H. rewrite negb_true_iff, orb_false_iff in H. destruct H as [Hlb Hbh].
  apply ltb_false_R in Hlb; [| by apply fin_num..]. apply ltb_false_R in Hbh; [| by apply fin_num..].
  rewrite HR1, HRm in *. split; [split; [done | lra] | split; split; try done; lra].
Qed.

Section accepted.
Context (usize_max : N) (c : Config).
Context (Htyped : config_typed c) (Hok : validate usize_max c = Ok tt).

(** The checks that matter below, each of them passed. *)
Lemma checks_passed :
  rate_tuple "download" c.(adjust_dl_shaper_rate) c.(min_dl_shaper_rate_kbps)
    c.(base_dl_shaper_rate_kbps) c.(max_dl_shaper_rate_kbps) = Ok tt ∧
  rate_tuple "upload" c.(adjust_ul_shaper_rate) c.(min_ul_shaper_rate_kbps)
    c.(base_ul_shaper_rate_kbps) c.(max_ul_shaper_rate_kbps) = Ok tt ∧
  range f64_zero max_rate_f64 (rate_fields c) = Ok tt ∧
  range f64_min_positive f64_one (down_factors c) = Ok tt ∧
  range f64_one max_rate_f64 (up_factors c) = Ok tt ∧
  f64_ltb c.(shaper_rate_min_adjust_down_bufferbloat) c.(shaper_rate_max_adjust_down_bufferbloat) = false ∧
  f64_ltb c.(shaper_rate_max_adjust_up_load_high) c.(shaper_rate_min_adjust_up_load_high) = false ∧
  range MIN_TIMER_S MAX_TIMER_S (timer_fields c) = Ok tt ∧
  range f64_zero MAX_TIMER_S
    [("startup_wait_s", c.(startup_wait_s)); ("sustained_idle_sleep_thr_s", c.(sustained_idle_sleep_thr_s));
     ("adaptive_ceiling_cooldown_s", c.(adaptive_ceiling_cooldown_s))]%string = Ok tt ∧
  validate_adaptive_ceiling c = Ok tt ∧ validate_transport c = Ok tt ∧
  range f64_zero (f64_mul MAX_TIMER_S (f64_of_N 1000)) (delay_fields c) = Ok tt.
Proof using Hok.
  pose proof Hok as H. unfold validate in H. unbind.
  repeat match goal with a : unit |- _ => destruct a end.
  match goal with H : validate_core _ _ = _ |- _ => unfold validate_core in H end. unbind.
  repeat match goal with a : unit |- _ => destruct a end.
  repeat match goal with H : check (negb (f64_ltb _ _)) _ = Ok tt |- _ =>
    apply check_ok in H; rewrite negb_true_iff in H end.
  by repeat split.
Qed.

Lemma max_num_f : f64_num max_rate_f64.
Proof using. apply fin_num, max_rate_f64_fin. Qed.

Lemma delay_field_ok name x : (name, x) ∈ delay_fields c →
  f64_fin x ∧ (0 <= f64_R x <= IZR (2 ^ 32))%R.
Proof using Htyped Hok.
  intros Hin. destruct checks_passed as (_ & _ & _ & _ & _ & _ & _ & _ & _ & _ & _ & Hr).
  assert (f64_valid x) as Hx.
  { refine (config_field _ _ Htyped _). unfold config_floats. rewrite !elem_of_app. do 4 right. left.
    apply list_elem_of_fmap. by exists (name, x). }
  apply (range_ok _ _ _ _ _ Hr), in_range_spec in Hin as [Hf Hb]; [| done | done | by split; vm_compute].
  split; [done |]. change (f64_R f64_zero) with 0%R in Hb. split; [lra |].
  assert (f64_leb (f64_mul MAX_TIMER_S (f64_of_N 1000)) (f64_of_N (2 ^ 32)) = true) as Hm by (by vm_compute).
  apply leb_R in Hm; [| by split; vm_compute | by split; vm_compute].
  rewrite (of_N_R (2 ^ 32)) in Hm by lia. change (Z.of_N (2 ^ 32)) with (2 ^ 32)%Z in Hm. lra.
Qed.

Lemma rate_field_ok name x : (name, x) ∈ rate_fields c → rate_ok x.
Proof using Htyped Hok.
  intros Hin. destruct checks_passed as (_ & _ & Hr & _).
  assert (f64_valid x) as Hx.
  { refine (config_field _ _ Htyped _). unfold config_floats. rewrite !elem_of_app. right. left.
    apply list_elem_of_fmap. by exists (name, x). }
  apply (range_ok _ _ _ _ _ Hr) in Hin. apply in_range_spec in Hin as [Hf Hb]; [| done | done | apply max_num_f].
  rewrite max_rate_f64_R in Hb. by split.
Qed.

Lemma accepted_rates is_dl : adjusts is_dl c = true → direction_rates is_dl c.
Proof using Htyped Hok.
  intros Ha. destruct checks_passed as (Hdl & Hul & _).
  destruct is_dl; cbn in Ha; rewrite Ha in *; [apply rate_tuple_ok in Hdl as (? & ? & ?)
    | apply rate_tuple_ok in Hul as (? & ? & ?)]; try done; try typed_field Htyped.
Qed.

Lemma accepted_cap is_dl : rate_ok (cap_rate is_dl c) ∧ rate_ok (safe_rate is_dl c).
Proof using Htyped Hok.
  destruct is_dl; cbn; split; eapply rate_field_ok; in_fields.
Qed.

Lemma not_below x y : f64_fin x → f64_fin y → negb (f64_ltb x y) = true → (f64_R y <= f64_R x)%R.
Proof using. intros Hx Hy. rewrite negb_true_iff. by apply ltb_false_R; apply fin_num. Qed.

Lemma adaptive_direction_ok direction ev safe base maximum :
  adaptive_direction direction ev safe base maximum = Ok tt → ev ≠ "legacy_unverified"%string →
  negb (f64_ltb safe base) = true ∧ negb (f64_ltb maximum safe) = true.
Proof using.
  unfold adaptive_direction. intros H Hev. unbind. rewrite bool_decide_false in H by done.
  apply check_ok in H. rewrite !andb_true_iff in H. tauto.
Qed.

Lemma accepted_ceiling is_dl :
  c.(adaptive_ceiling_enabled) = true → adjusts is_dl c = true → direction_ceiling is_dl c.
Proof using Htyped Hok.
  intros He Ha. destruct checks_passed as (_ & _ & _ & _ & _ & _ & _ & _ & _ & Hc & _).
  destruct (accepted_rates is_dl Ha) as [_ [Hb _] [Hm _]].
  destruct (accepted_cap is_dl) as [[Hcap _] [Hsafe _]].
  unfold validate_adaptive_ceiling in Hc. rewrite He in Hc. cbn [negb] in Hc. unbind.
  repeat match goal with
  | a : unit |- _ => destruct a
  | H : check _ _ = Ok tt |- _ => apply check_ok in H; rewrite ?andb_true_iff in H
  | H : _ ∧ _ |- _ => destruct H
  end.
  split.
  - destruct is_dl; by apply not_below.
  - intros Hev. destruct is_dl; edestruct adaptive_direction_ok as [? ?];
      [| exact Hev | | | exact Hev |]; try eassumption; split; by apply not_below.
Qed.

Lemma accepted_factors : factors_ok c.
Proof using Htyped Hok.
  destruct checks_passed as (_ & _ & _ & Hd & Hu & Hdo & Huo & _).
  assert (∀ name x, (name, x) ∈ down_factors c → f64_fin x ∧ (0 < f64_R x <= 1)%R) as Hdown.
  { intros name x Hin. assert (f64_valid x) as Hx.
    { refine (config_field _ _ Htyped _). unfold config_floats. rewrite !elem_of_app. do 2 right. left.
      apply list_elem_of_fmap. by exists (name, x). }
    apply (range_ok _ _ _ _ _ Hd), in_range_spec in Hin as [Hf Hb]; [| done | done | apply fin_num, one_fin].
    rewrite one_R in Hb. split; [done |].
    assert (0 < f64_R f64_min_positive)%R; [| lra]. cbn [f64_R f64_min_positive cond_Zopp].
    apply Rmult_lt_0_compat; [by apply IZR_lt | apply pow2_pos]. }
  assert (∀ name x, (name, x) ∈ up_factors c → f64_fin x ∧ (1 <= f64_R x <= IZR max_rate)%R) as Hup.
  { intros name x Hin. assert (f64_valid x) as Hx.
    { refine (config_field _ _ Htyped _). unfold config_floats. rewrite !elem_of_app. do 3 right. left.
      apply list_elem_of_fmap. by exists (name, x). }
    apply (range_ok _ _ _ _ _ Hu), in_range_spec in Hin as [Hf Hb];
      [| done | apply fin_num, one_fin | apply max_num_f].
    by rewrite one_R, max_rate_f64_R in Hb. }
  destruct (Hdown "shaper_rate_min_adjust_down_bufferbloat"%string _ ltac:(in_fields)) as [Hf1 H1].
  destruct (Hdown "shaper_rate_max_adjust_down_bufferbloat"%string _ ltac:(in_fields)) as [Hf2 H2].
  destruct (Hup "shaper_rate_min_adjust_up_load_high"%string _ ltac:(in_fields)) as [Hf3 H3].
  destruct (Hup "shaper_rate_max_adjust_up_load_high"%string _ ltac:(in_fields)) as [Hf4 H4].
  apply ltb_false_R in Hdo; [| by apply fin_num..]. apply ltb_false_R in Huo; [| by apply fin_num..].
  pose proof (Hdown "shaper_rate_adjust_down_load_low"%string _ ltac:(in_fields)).
  pose proof (Hup "shaper_rate_adjust_up_load_low"%string _ ltac:(in_fields)).
  split; try done; split; done || lra.
Qed.

Lemma timer_fits x : f64_fin x → (0 <= f64_R x <= f64_R MAX_TIMER_S)%R →
  is_some (duration_try_from_secs_f64 x) = true.
Proof using.
  intros Hx [? Hle]. apply duration_fits; [done |]. split; [done |].
  etransitivity; [exact Hle |].
  assert (f64_leb MAX_TIMER_S (f64_of_N (2 ^ 32)) = true) as Hm by (by vm_compute).
  apply leb_R in Hm; [| by split; vm_compute | by split; vm_compute].
  by rewrite (of_N_R (2 ^ 32)) in Hm.
Qed.

Lemma accepted_timer name x : (name, x) ∈ timer_fields c →
  f64_fin x ∧ (0 <= f64_R x <= f64_R MAX_TIMER_S)%R.
Proof using Htyped Hok.
  intros Hin. destruct checks_passed as (_ & _ & _ & _ & _ & _ & _ & Ht & _).
  assert (f64_valid x) as Hx.
  { refine (config_field _ _ Htyped _). unfold config_floats. rewrite !elem_of_app. do 5 right. left.
    apply list_elem_of_fmap. by exists (name, x). }
  apply (range_ok _ _ _ _ _ Ht), in_range_spec in Hin as [Hf Hb]; [| done | by split; vm_compute..].
  split; [done |]. assert (f64_leb f64_zero MIN_TIMER_S = true) as H0 by (by vm_compute).
  apply leb_R in H0; [| by split; vm_compute..]. change (f64_R f64_zero) with 0%R in H0. lra.
Qed.

Lemma accepted_timers : timers_ok c.
Proof using Htyped Hok.
  destruct checks_passed as (_ & _ & _ & _ & _ & _ & _ & _ & Hcool & _).
  repeat apply Forall_cons_2; [.. | done].
  - apply timer_fits; eapply (accepted_timer "adaptive_ceiling_hold_time_s"%string); in_fields.
  - apply timer_fits; eapply (accepted_timer "adaptive_ceiling_probe_duration_s"%string); in_fields.
  - apply (range_ok _ _ _ "adaptive_ceiling_cooldown_s"%string (adaptive_ceiling_cooldown_s c)) in Hcool;
      [| by in_fields].
    apply in_range_spec in Hcool as [Hf Hb]; [| typed_field Htyped | by split; vm_compute..].
    by apply timer_fits.
  - apply timer_fits; eapply (accepted_timer "adaptive_ceiling_failed_bound_ttl_s"%string); in_fields.
  - destruct (accepted_timer "reflector_response_deadline_s"%string (reflector_response_deadline_s c))
      as [Hf Hb]; [in_fields |].
    assert (f64_leb f64_one MAX_TIMER_S = true) as H1 by (by vm_compute).
    apply leb_R in H1; [| by split; vm_compute..].
    unfold f64_max. repeat case_match; try by apply timer_fits.
    all: apply timer_fits; [apply one_fin |]; rewrite one_R in *; split; [lra | done].
Qed.

(** A checked number of seconds between two literals. *)
Lemma lit_timer x low high :
  f64_valid x → high <= 2 ^ 20 → lit_within x low high = true → is_some (duration_try_from_secs_f64 x) = true.
Proof using.
  intros Hx Hh. unfold lit_within, within. rewrite !andb_true_iff. intros [Hf [Hlo Hhi]].
  assert (f64_num x) as Hn by (destruct (valid_cases x Hx) as [-> |]; done).
  apply leb_R in Hlo; [| apply of_N_num | done]. apply leb_R in Hhi; [| done | apply of_N_num].
  rewrite of_N_R in Hhi by lia. apply duration_fits; [done |]. split.
  - etransitivity; [| exact Hlo]. apply (rounds_ge_int _ _ 0 (of_N_rounds low)); [lia |]. apply IZR_le. lia.
  - etransitivity; [exact Hhi |]. apply IZR_le. lia.
Qed.

(** Three intervals and the timeout. *)
Lemma max_age_timer interval timeout :
  f64_fin interval → (0 <= f64_R interval <= 60)%R → timeout <= 30 →
  is_some (duration_try_from_secs_f64
    (f64_add (f64_mul interval (f64_of_N 3)) (f64_of_N timeout))) = true.
Proof using.
  intros Hi Hr Ht. assert (f64_fin (f64_of_N 3) ∧ f64_fin (f64_of_N timeout)) as [H3 Hf]
    by (split; apply of_N_fin; lia).
  pose proof (mul_rounds interval (f64_of_N 3) Hi H3) as Hm. rewrite of_N_R in Hm by lia.
  change (IZR (Z.of_N 3)) with 3%R in Hm.
  assert (0 <= f64_R (f64_mul interval (f64_of_N 3)) <= 180)%R as Hb.
  { split; [apply (rounds_ge_int _ _ 0 Hm) | apply (rounds_le_int _ _ 180 Hm)]; lia || lra. }
  assert (f64_fin (f64_mul interval (f64_of_N 3))) as Hmf.
  { apply (rounds_fin _ _ Hm). assert (180 <= IZR (2 ^ 52))%R by (by apply IZR_le). lra. }
  pose proof (add_rounds _ _ Hmf Hf) as Ha. rewrite (of_N_R timeout) in Ha by lia.
  assert (0 <= IZR (Z.of_N timeout) <= 30)%R by (split; apply IZR_le; lia).
  assert (0 <= f64_R (f64_add (f64_mul interval (f64_of_N 3)) (f64_of_N timeout)) <= 210)%R as Hs.
  { split; [apply (rounds_ge_int _ _ 0 Ha) | apply (rounds_le_int _ _ 210 Ha)]; lia || lra. }
  assert (210 <= IZR (2 ^ 32))%R by (by apply IZR_le). apply duration_fits; [| lra].
  apply (rounds_fin _ _ Ha). assert (210 <= IZR (2 ^ 52))%R by (by apply IZR_le). lra.
Qed.

Lemma ratio_check_ok k : all_checks (ratio_checks c) = Ok tt → k ∈ ratio_checks c → k = Ok tt.
Proof using. apply all_checks_ok. Qed.

(** With the probe enabled its times are in range. *)
Lemma accepted_probe_timers :
  c.(transport_latency_enabled) = true → probe_timers_ok c.
Proof using Htyped Hok.
  intros He. destruct checks_passed as (_ & _ & _ & _ & _ & _ & _ & _ & _ & _ & Ht & _).
  unfold validate_transport in Ht. rewrite He in Ht. unbind.
  match goal with H : validate_probe c = _ |- _ => unfold validate_probe in H end. unbind.
  repeat match goal with
  | a : unit |- _ => destruct a
  | H : check ((1 <=? _) && _) _ = Ok tt |- _ => apply check_ok in H; rewrite andb_true_iff, !N.leb_le in H
  | H : check (_ && negb (f64_ltb _ (f64_lit 5 10)) && _) _ = Ok tt |- _ =>
      apply check_ok in H; rewrite !andb_true_iff in H; rename H into Hload
  | H : all_checks (ratio_checks c) = _ |- _ => rename H into Hratio
  end.
  assert (∀ k, k ∈ ratio_checks c → k = Ok tt) as Hk by (intros k; apply ratio_check_ok, Hratio).
  split; [| split].
  - destruct Hload as [[Hf Hlo] Hhi].
    assert (f64_valid (transport_probe_loaded_interval_s c)) as Hx by typed_field Htyped.
    assert (f64_num (transport_probe_loaded_interval_s c)) as Hn by (destruct (valid_cases _ Hx) as [Hq |]; [rewrite Hq in Hf |]; done).
    rewrite negb_true_iff in Hlo, Hhi. apply ltb_false_R in Hlo; [| done | by split; vm_compute].
    apply ltb_false_R in Hhi; [| apply of_N_num | done]. rewrite of_N_R in Hhi by lia.
    assert (f64_leb f64_zero (f64_lit 5 10) = true) as H0 by (by vm_compute).
    apply leb_R in H0; [| by split; vm_compute..]. change (f64_R f64_zero) with 0%R in H0.
    apply max_age_timer; [by split | | lia]. split; [lra | done].
  - apply (lit_timer _ 2 120); [typed_field Htyped | lia |]. eapply check_ok, Hk.
    cbv [ratio_checks]. repeat (first [apply list_elem_of_here | apply list_elem_of_further]).
  - apply (lit_timer _ 30 86400); [typed_field Htyped | lia |]. eapply check_ok, Hk.
    cbv [ratio_checks]. repeat (first [apply list_elem_of_here | apply list_elem_of_further]).
Qed.
End accepted.
