(* ===== verification/RateTypes.v ===== *)
(** * The numbers of the rate controller

    Whatever it is told, the controller works with data of its type; the state and the events
    are typed by the predicates here, and every operation preserves them. *)

From Stdlib Require Import Reals Lra SpecFloat.
From stdpp Require Import sorting.
From S2P Require Import Prelude RateLimits Effects Binary64 StdTime FloatRounding FloatOps AdaptiveCeiling CeilingContract TransportQuality QualitySearch LatencyBaseline ControllerConfig CakeControl RateControl ConfigContract.

Local Open Scope N_scope.

Definition opt_valid (o : option f64) : Prop := match o with Some x => f64_valid x | None => True end.

Lemma opt_valid_lookup (m : gmap string f64) k : map_Forall (λ _, f64_valid) m → opt_valid (m !! k).
Proof. intros H. destruct (m !! k) eqn:E; [by eapply H | done]. Qed.

#[export] Hint Resolve num_valid : f64.

(** ** The search *)

Record search_typed (s : QualitySearchDirection) : Prop := {
  se_start : opt_valid s.(start_rate_kbps);
  se_best : opt_valid s.(best_rate_kbps);
}.

Lemma search_new_typed : search_typed search_new.
Proof. by split. Qed.

Lemma default_valid d o : f64_valid d → opt_valid o → f64_valid (default d o).
Proof. by destruct o. Qed.

Lemma fallback_valid s : search_typed s → f64_valid (fallback_rate s).
Proof.
  intros [Hs Hb]. assert (f64_valid f64_one) by apply fin_valid, one_fin.
  unfold fallback_rate. case_match; by repeat apply default_valid.
Qed.

(** What a search asks for and what it becomes. *)
Definition answer_typed (r : QualitySearchUpdate * QualitySearchDirection) : Prop :=
  opt_valid r.1.(requested_rate_kbps) ∧ search_typed r.2.

Section search.
Context (now : N) (rate delta : f64) (policy : QualitySearchPolicy).
Context (Hrate : f64_valid rate) (Hdelta : f64_valid delta).
Context (Hfloor : f64_valid policy.(floor_kbps)) (Htarget : f64_valid policy.(target_delay_ms)).
Implicit Types s : QualitySearchDirection.

Lemma limit_typed s cooldown reason :
  search_typed s → answer_typed (limit s now cooldown (Some (fallback_rate s)) reason).
Proof using. intros Hs. split; [by apply fallback_valid | by destruct Hs]. Qed.

Lemma candidate_valid : f64_valid (backoff_candidate rate delta policy).
Proof using Hrate Hdelta Hfloor Htarget.
  unfold backoff_candidate. apply valid_max; [| done]. apply valid_mul; [done |].
  apply valid_clamp; [| done..]. apply valid_sqrt, valid_max; [| done]. by apply valid_div.
Qed.

Lemma step_down_typed s : search_typed s → answer_typed (step_down now rate delta policy s).
Proof using All.
  intros Hs. unfold step_down. case_match; [by apply limit_typed |]. case_match; [by apply limit_typed |].
  split; [apply candidate_valid | by destruct Hs].
Qed.

Lemma judge_typed s : search_typed s → answer_typed (judge_step now rate delta policy s).
Proof using All.
  intros Hs. unfold judge_step. case_match; [| by apply step_down_typed].
  case_match; [by split |]. case_match; [| by apply limit_typed].
  apply step_down_typed. unfold note_candidate. case_match; [| done]. by split; [apply Hs |].
Qed.

Lemma search_observe_typed s high :
  search_typed s → answer_typed (QualitySearch.observe now rate delta policy s high).
Proof using All.
  intros Hs. unfold QualitySearch.observe. repeat (case_match; [by split |]).
  apply judge_typed. unfold begin_episode. case_match; [| by split]. by case_match.
Qed.
End search.

(** ** The tracker of transport latencies *)

Record tracker_typed (t : TransportLatencyTracker) : Prop := {
  tr_idle : map_Forall (λ _, Forall f64_valid) t.(tl_idle_samples);
  tr_loaded : Forall (λ e, f64_valid e.2) t.(tl_loaded_deltas);
}.

Lemma tracker_new_typed : tracker_typed tracker_new.
Proof. by split; [apply map_Forall_empty | constructor]. Qed.

Lemma sort_valid l : Forall f64_valid l → Forall f64_valid (sort_f64 l).
Proof. intros H. pose proof (merge_sort_Permutation (λ x y, f64_total_leb x y) l) as Hp. by rewrite <- Hp in H. Qed.

Lemma lookup_valid l i : Forall f64_valid l → opt_valid (l !! i).
Proof. intros H. destruct (l !! i) eqn:E; [exact (Forall_lookup_1 _ _ _ _ H E) | done]. Qed.

Lemma idle_baseline_valid samples endpoint :
  map_Forall (λ _, Forall f64_valid) samples → opt_valid (baseline samples endpoint).
Proof.
  intros H. unfold baseline. destruct (samples !! endpoint) as [l |] eqn:E; [| done]. cbn [mbind option_bind].
  case_match; [done |]. apply lookup_valid, sort_valid. by eapply H.
Qed.

Lemma percentile_valid values p :
  Forall f64_valid values → f64_valid p → opt_valid (percentile values p).
Proof.
  intros H Hp. unfold percentile.
  assert (Forall f64_valid (sort_f64 (filter (λ x, f64_is_finite x = true) values))) as Hs
    by (apply sort_valid; rewrite Forall_forall in *; intros x [_ Hx]%list_elem_of_filter; auto).
  destruct (sort_f64 _) as [| x l]; [done |]. cbv zeta. case_match; [by apply lookup_valid |].
  destruct (_ !! f64_as_usize (f64_floor _)) as [low |] eqn:El; [| done].
  destruct (_ !! f64_as_usize (f64_ceil _)) as [high |] eqn:Eh; [| done]. cbn [mbind option_bind opt_valid].
  apply (Forall_lookup_1 _ _ _ _ Hs) in El, Eh.
  assert (∀ n, f64_valid (f64_of_nat n)) as Hn by (intros n; apply valid_of_N).
  assert (f64_valid (f64_of_N 100)) by apply valid_of_N. assert (f64_valid f64_one) by done.
  assert (f64_valid (f64_clamp p f64_zero (f64_of_N 100))) by (by apply valid_clamp).
  apply valid_add; apply valid_mul; try done; repeat apply valid_sub; try done;
    apply valid_mul; try done; by apply valid_div.
Qed.

Lemma confirmed_valid t : tracker_typed t → opt_valid (confirmed_delta_ms t).
Proof.
  intros [_ H]. unfold confirmed_delta_ms. case_match; [done |]. apply percentile_valid; [| apply valid_of_N].
  by apply Forall_map.
Qed.

Lemma observe_failure_typed t error : tracker_typed t → tracker_typed (observe_failure t error).
Proof. by intros []. Qed.

Lemma expire_typed t now max_age : tracker_typed t → tracker_typed (expire_loaded t now max_age).
Proof.
  intros [Hi Hl]. split; [done |]. simpl. induction Hl as [| [at_ x] l Hx Hl IH]; [done |].
  cbn [drop_old]. case_match; [done | by constructor].
Qed.

Lemma keep_last_valid {A} (P : A → Prop) n l : Forall P l → Forall P (keep_last n l).
Proof. intros H. by apply Forall_drop. Qed.

Lemma observe_success_typed t endpoint latency loaded now :
  tracker_typed t → f64_valid latency →
  opt_valid (observe_success t endpoint latency loaded now).1 ∧
  tracker_typed (observe_success t endpoint latency loaded now).2.
Proof.
  intros Ht Hx. pose proof Ht as [Hi Hl]. unfold observe_success.
  case_match; [by split; [| apply observe_failure_typed] |]. case_match.
  - split; [done |]. split; [| done]. apply map_Forall_insert_2; [| done]. apply keep_last_valid, Forall_app.
    split; [| by constructor]. destruct (_ !! endpoint) eqn:E; [by eapply Hi | constructor].
  - destruct (baseline _ endpoint) as [b |] eqn:Eb; [| by split].
    assert (f64_valid b) by (pose proof (idle_baseline_valid _ endpoint Hi) as Hb; by rewrite Eb in Hb).
    match goal with |- _ (confirmed_delta_ms ?t', _).1 ∧ _ => assert (tracker_typed t') as Ht' end.
    { split; [done |]. apply keep_last_valid, Forall_app. split; [done |]. constructor; [| constructor].
      apply valid_max; [| done]. by apply valid_sub. }
    split; [by apply confirmed_valid | done].
Qed.

(** ** The state *)

Record direction_typed (d : Direction) : Prop := {
  dt_shaper : f64_valid d.(shaper);
  dt_baseline : map_Forall (λ _, f64_valid) d.(learned).(baseline_us);
  dt_delta : Forall f64_valid d.(learned).(delta_us);
  dt_tracker : tracker_typed d.(quality).(transport_latency);
  dt_search : search_typed d.(quality).(quality_search);
  dt_floor : f64_valid d.(quality).(throughput_floor_kbps);
}.

Definition owd_typed (o : Owd) : Prop := f64_valid o.1 ∧ f64_valid o.2.
Definition warmup_typed (w : BaselineWarmup) : Prop := Forall owd_typed w.(bw_values).

Record controller_typed (c : Controller) : Prop := {
  ct_direction is_dl : direction_typed (direction is_dl c);
  ct_tracker : tracker_typed c.(transport_latency_all);
  ct_warmup : map_Forall (λ _, warmup_typed) c.(baseline_warmup);
}.

Lemma median_valid l m x : Forall f64_valid l → median_within l m = Some x → f64_valid x.
Proof.
  intros Hl. unfold median_within.
  pose proof (merge_sort_Permutation (λ x y, f64_total_leb x y) l) as Hp. rewrite <- Hp in Hl.
  destruct (merge_sort _ l !! 0%nat); [| done]. cbn [mbind option_bind].
  destruct (merge_sort _ l !! 1%nat) eqn:E; [| done]. cbn [mbind option_bind].
  destruct (merge_sort _ l !! 2%nat); [| done]. cbn [mbind option_bind]. case_match; [done |].
  intros [= <-]. exact (Forall_lookup_1 _ _ _ _ Hl E).
Qed.

Lemma warmup_observe_typed w o p :
  warmup_typed w → owd_typed o.(bo_owd_us) →
  warmup_typed (LatencyBaseline.observe w o p).2 ∧
  match (LatencyBaseline.observe w o p).1 with Some r => owd_typed r | None => True end.
Proof.
  intros Hw Ho. unfold LatencyBaseline.observe. case_match; [by split |]. case_match; [by split |].
  assert (Forall owd_typed (<[bw_next w:=bo_owd_us o]> (bw_values w))) as Hv by by apply Forall_insert.
  cbv zeta. case_match; [by split |]. split; [done |].
  cbn [fst]. destruct (median_within (map fst _) _) as [a |] eqn:Ea; [| done]. cbn [mbind option_bind].
  destruct (median_within (map snd _) _) as [b |] eqn:Eb; [| done]. cbn [mbind option_bind].
  split; cbn [fst snd]; [refine (median_valid _ _ _ _ Ea) | refine (median_valid _ _ _ _ Eb)];
    apply Forall_map; eapply Forall_impl; eauto; by intros ? [].
Qed.

Lemma warmup_new_typed epoch : warmup_typed (warmup_new epoch).
Proof. repeat constructor; done. Qed.

(** Fields written one by one. *)
Lemma shaper_typed rate d : f64_valid rate → direction_typed d → direction_typed (with_shaper rate d).
Proof. by intros ? []. Qed.
Lemma adaptive_typed a d : direction_typed d → direction_typed (with_adaptive a d).
Proof. by intros []. Qed.
Lemma times_typed bb decay d : direction_typed d → direction_typed (with_times bb decay d).
Proof. by intros []. Qed.
Lemma applied_typed s a k d : direction_typed d → direction_typed (with_applied s a k d).
Proof. by intros []. Qed.
Lemma reset_search_typed d : direction_typed d → direction_typed (reset_search d).
Proof. intros []. by split. Qed.
Lemma lower_resets_typed rate previous d :
  f64_valid rate → direction_typed d → direction_typed (lower_resets rate previous d).
Proof.
  intros Hr Hd. unfold lower_resets. apply shaper_typed; [done |].
  case_match; [by apply reset_search_typed | done].
Qed.

#[export] Hint Resolve shaper_typed adaptive_typed times_typed applied_typed reset_search_typed
  lower_resets_typed : rate.

Lemma on_direction_typed is_dl f c :
  controller_typed c → (direction_typed (direction is_dl c) → direction_typed (f (direction is_dl c))) →
  controller_typed (on_direction is_dl f c).
Proof.
  intros [Hd Ht Hw] Hf. split; [| done..]. specialize (Hf (Hd is_dl)).
  intros is_dl'. specialize (Hd is_dl'). by destruct is_dl, is_dl'.
Qed.
