(* ===== verification/RateContract.v ===== *)
(** * What the rate controller promises

    Under an accepted configuration, whatever the samples, the probes and [tc] say: no handler
    panics, and a bandwidth is written only to the CAKE root qdisc [tc] has just shown on the
    interface of an adjusted direction, between the minimum and the largest rate configured for
    it. *)

From Stdlib Require Import Reals Lra SpecFloat.
From S2P Require Import Prelude RateLimits Effects Binary64 StdTime FloatRounding FloatOps AdaptiveCeiling CeilingContract TransportQuality QualitySearch LatencyBaseline ControllerConfig CakeControl RateControl ConfigContract RateTypes.

Local Open Scope N_scope.

(** ** The bounds *)

(** The largest rate of a direction. *)
Definition top_rate (is_dl : bool) (c : Config) : f64 :=
  if c.(adaptive_ceiling_enabled) then f64_max (cap_rate is_dl c) (max_rate_kbps is_dl c)
  else max_rate_kbps is_dl c.

(** The adaptive ceiling belongs to the configuration. *)
Record ceiling_fits (is_dl : bool) (c : Config) (a : AdaptiveCeilingDirection) : Prop := {
  cf_ok : ceiling_ok a;
  cf_cap : a.(absolute_cap_kbps) = f64_max (cap_rate is_dl c) (max_rate_kbps is_dl c);
  cf_floor : (f64_R (floor_rate is_dl c) <= f64_R a.(initial_safe_ceiling_kbps))%R;
  cf_off : c.(adaptive_ceiling_enabled) = false →
    (f64_R a.(effective_max_kbps) <= f64_R (max_rate_kbps is_dl c))%R;
}.

(** The rate of a direction may be written. *)
Definition ready (is_dl : bool) (c : Config) (rate : f64) : Prop :=
  f64_fin rate ∧ (f64_R (floor_rate is_dl c) <= f64_R rate)%R ∧
  (f64_R rate <= Rmax (f64_R (top_rate is_dl c)) (f64_R (f64_round (top_rate is_dl c))))%R.

(** ** Writing a rate *)

Lemma to_u64_mono x y :
  rate_ok x → rate_ok y → (f64_R x <= f64_R y)%R → f64_to_u64 x <= f64_to_u64 y.
Proof.
  intros [Hx Hbx] [Hy Hby] Hxy.
  assert (IZR max_rate < IZR (Z.of_N (2 ^ 53)))%R by (apply IZR_lt; vm_compute; done).
  pose proof (to_u64_floor x Hx ltac:(lra)). pose proof (to_u64_floor y Hy ltac:(lra)).
  assert (IZR (Z.of_N (f64_to_u64 x)) < IZR (Z.of_N (f64_to_u64 y)) + 1)%R as Hlt by lra.
  change 1%R with (IZR 1) in Hlt. rewrite <- plus_IZR in Hlt. apply lt_IZR in Hlt. lia.
Qed.

Lemma one_rate : rate_ok f64_one.
Proof. split; [apply one_fin |]. rewrite one_R. split; [lra | by apply IZR_le]. Qed.

Lemma written_mono x y :
  rate_ok x → rate_ok y → (f64_R (f64_round x) <= f64_R (f64_round y))%R → written_rate x <= written_rate y.
Proof.
  intros Hx%round_rate Hy%round_rate Hxy. pose proof one_rate as H1.
  apply to_u64_mono; [by apply max_rate_ok.. |]. rewrite !max_R by auto using rate_num.
  by apply Rle_max_compat_r.
Qed.

(** A rate that may be written is written between the bounds. *)
Lemma written_between is_dl c rate :
  rate_ok (top_rate is_dl c) → rate_ok (floor_rate is_dl c) → ready is_dl c rate →
  written_rate (floor_rate is_dl c) <= written_rate rate <= written_rate (top_rate is_dl c).
Proof.
  intros Htop Hfloor (Hf & Hlo & Hhi). pose proof (round_rate _ Htop) as [Hrf Hr].
  assert (rate_ok rate) as Hrate.
  { split; [done |]. split; [apply Rle_trans with (2 := Hlo), Hfloor |].
    apply Rle_trans with (1 := Hhi). apply Rmax_lub; [apply Htop | apply Hr]. }
  pose proof (proj2 Hfloor) as Hb1. pose proof (proj2 Hrate) as Hb2.
  split; apply written_mono; try done.
  - apply round_mono; [apply Hfloor | done | lra].
  - destruct (Rle_or_lt (f64_R rate) (f64_R (top_rate is_dl c))) as [Hle | Hlt].
    + apply round_mono; [done | apply Htop | lra].
    + destruct (round_integer (top_rate is_dl c)) as (j & _ & Hj & _); [apply Htop |].
      rewrite Hj in *. apply round_le_int; [done |]. unfold Rmax in Hhi. destruct (Rle_dec _ _); lra.
Qed.

(** ** Calls to [tc] *)

(** What [tc qdisc show] has last shown, with the interface. *)
Definition Shown : Type := option (string * string).

(** The clock and [tc] may answer anything; a failed command has shown nothing. *)
Definition tc_step (w : Shown) (c : TcCall) : tc_answer c → Shown → Prop :=
  match c with
  | Now => λ _ w', w' = w
  | TcShow i => λ shown w', w' = match shown with Ok output => Some (i, output) | Err _ => None end
  | TcChange _ _ _ _ => λ _ w', w' = None
  end.

(** A bandwidth is written only to the root qdisc that was just shown, in the supported range
    and between the bounds of an adjusted direction with that interface. *)
Definition change_allowed (c : Config) (w : Shown) (call : TcCall) : Prop :=
  match call with
  | TcChange i handle kind rate => ∃ output is_dl,
      w = Some (i, output) ∧ root_cake_control_identity output = Ok (kind, handle) ∧
      100 <= rate <= MAX_RATE_KBPS ∧ i = interface is_dl c ∧ i ≠ ""%string ∧
      adjusts is_dl c = true ∧
      written_rate (floor_rate is_dl c) <= rate <= written_rate (top_rate is_dl c)
  | _ => True
  end.

Section accepted.
Context (usize_max : N) (c0 : Config).
Context (Htyped : config_typed c0) (Hok : validate usize_max c0 = Ok tt).

Notation csafe := (msafe (change_allowed c0) tc_step).

Lemma floor_ok is_dl : adjusts is_dl c0 = true →
  rate_ok (floor_rate is_dl c0) ∧ (f64_R (floor_rate is_dl c0) = f64_R (min_rate is_dl c0))%R.
Proof using Htyped Hok.
  intros Ha. destruct (accepted_rates usize_max c0 Htyped Hok is_dl Ha) as [[Hmf Hm] [Hbf Hb] [Hxf Hx]].
  assert (f64_R (floor_rate is_dl c0) = f64_R (min_rate is_dl c0)) as HR.
  { unfold floor_rate. rewrite max_R by (apply fin_num; [done || apply one_fin..]).
    rewrite one_R. apply Rmax_left. lra. }
  split; [| done]. unfold floor_rate. apply max_rate_ok; [| apply one_rate]. split; [done | lra].
Qed.

Lemma base_ready is_dl : adjusts is_dl c0 = true → rate_ok (base_rate is_dl c0) ∧ rate_ok (max_rate_kbps is_dl c0).
Proof using Htyped Hok.
  intros Ha. destruct (accepted_rates usize_max c0 Htyped Hok is_dl Ha) as [[Hmf Hm] [Hbf Hb] [Hxf Hx]].
  split; (split; [done | lra]).
Qed.

Lemma top_ok is_dl : adjusts is_dl c0 = true →
  rate_ok (top_rate is_dl c0) ∧ (f64_R (max_rate_kbps is_dl c0) <= f64_R (top_rate is_dl c0))%R.
Proof using Htyped Hok.
  intros Ha. destruct (base_ready is_dl Ha) as [_ Hm].
  destruct (accepted_cap usize_max c0 Htyped Hok is_dl) as [Hc _].
  unfold top_rate. case_match; [| by split; [| lra]]. split; [by apply max_rate_ok |].
  apply max_ge; auto with f64.
Qed.

(** *** [apply_shaper] *)

Lemma qdisc_kind_safe w c is_dl name (Q : result string CakeQdiscKind → Controller → Shown → Prop) :
  (∀ r w' kind, Q r (match kind with None => c | Some k => on_direction is_dl (λ d,
       with_applied d.(applied).(last_set) d.(applied).(last_shaper_attempt) k d) c end) w') →
  csafe w c (qdisc_kind is_dl name) Q.
Proof using.
  intros HQ. unfold qdisc_kind. apply msafe_bind, msafe_gets.
  destruct (cached_kind _) as [k |]; [apply msafe_ret, (HQ _ _ None) |].
  make_call; [done |]. intros shown w' Hs. apply msafe_bind, msafe_lift.
  destruct shown as [output | e]; [| apply (HQ _ _ None)]. apply msafe_bind, msafe_lift.
  destruct (root_cake_control_identity output) as [identity | e]; [| apply (HQ _ _ None)].
  apply msafe_bind, msafe_update, msafe_ret. apply (HQ _ _ (Some (Some identity.1))).
Qed.

Lemma change_cake_safe w c is_dl rate kind (Q : result string unit → Controller → Shown → Prop) :
  adjusts is_dl c0 = true →
  written_rate (floor_rate is_dl c0) <= rate <= written_rate (top_rate is_dl c0) →
  (∀ r w', Q r c w') → csafe w c (change_cake_rate (interface is_dl c0) rate kind) Q.
Proof using.
  intros Ha Hr HQ. unfold change_cake_rate.
  destruct (String.eqb_spec (interface is_dl c0) "") as [| Hi]; [apply msafe_raise, HQ |].
  cbn [orb]. destruct (_ && _) eqn:Hb; cbn [negb]; [| apply msafe_raise, HQ].
  apply andb_true_iff in Hb as [H1 H2]. rewrite N.leb_le in H1, H2.
  make_call; [done |]. intros shown w' Hs. apply msafe_bind, msafe_lift.
  destruct shown as [output | e]; [| apply HQ]. apply msafe_bind, msafe_lift.
  destruct (root_cake_control_identity output) as [[k h] | e] eqn:Hid; [| apply HQ]. cbn [fst snd].
  case_bool_decide as Hk; [| apply msafe_raise, HQ]. subst k. cbn [negb].
  make_call.
  - cbn in Hs. subst w'. by exists output, is_dl.
  - intros a w'' _. apply msafe_lift, HQ.
Qed.

(** A predicate the records of what was applied do not matter to. *)
Definition blind (P : Controller → Prop) : Prop :=
  ∀ is_dl f c, (∀ d, ∃ s a k, f d = with_applied s a k d) → P c → P (on_direction is_dl f c).

Lemma apply_shaper_safe (P : Controller → Prop) w c is_dl :
  blind P → P c → cfg c = c0 →
  (∀ c, P c → cfg c = c0 ∧ (adjusts is_dl c0 = true → ready is_dl c0 (direction is_dl c).(shaper))) →
  csafe w c (apply_shaper is_dl) (λ r c' _, r = Ok tt ∧ P c').
Proof using Htyped Hok.
  intros Hb HP Hc Hready. unfold apply_shaper, self. apply msafe_bind, msafe_gets. rewrite Hc.
  case_match; [by apply msafe_ret |]. make_call; [done |]. intros now w' _.
  destruct (adjusts is_dl c0) eqn:Ha; cbn [negb]; [| by apply msafe_ret].
  case_match; [by apply msafe_ret |]. make_call; [done |]. intros attempted w'' _.
  apply msafe_bind, msafe_update.
  assert (∀ c f, (∀ d, ∃ s a k, f d = with_applied s a k d) → P c → P (on_direction is_dl f c)) as Hkeep
    by (intros; by apply Hb).
  set (c1 := on_direction _ _ _). assert (P c1) as HP1 by (apply Hkeep; eauto).
  apply msafe_bind, msafe_attempt, qdisc_kind_safe. intros [k | e] w3 kind.
  all: match goal with |- csafe _ ?c2 _ _ => assert (P c2) as HP2; [destruct kind; [apply Hkeep; eauto | done] |] end.
  2: by apply msafe_ret.
  apply msafe_bind, msafe_attempt, change_cake_safe; [done | |].
  - apply written_between; [by apply top_ok | by apply floor_ok |]. by apply (Hready c HP).
  - intros r w4. apply msafe_update. split; [done |]. apply Hkeep; [| done]. intros d. destruct r; eauto.
Qed.

(** *** The invariant *)

Record inv (c : Controller) : Prop := {
  inv_cfg : cfg c = c0;
  inv_typed : controller_typed c;
  inv_fits is_dl : adjusts is_dl c0 = true → ceiling_fits is_dl c0 (direction is_dl c).(adaptive);
}.

(** Between two handlers the invariant holds; [settled] when rates are written. *)
Definition settled (c : Controller) : Prop :=
  inv c ∧ ∀ is_dl, adjusts is_dl c0 = true → ready is_dl c0 (direction is_dl c).(shaper).

Lemma on_direction_inv is_dl f c :
  inv c → (∀ d, direction_typed d → direction_typed (f d)) →
  (∀ d, adjusts is_dl c0 = true → ceiling_fits is_dl c0 d.(adaptive) → ceiling_fits is_dl c0 (f d).(adaptive)) →
  inv (on_direction is_dl f c).
Proof using.
  intros [Hc Ht Hf] Hd Ha. split; [done | by apply on_direction_typed; auto |].
  intros is_dl' Hadj. specialize (Hf is_dl' Hadj).
  destruct is_dl, is_dl'; cbn [direction on_direction dl ul] in *; auto.
Qed.

Lemma inv_blind : blind inv.
Proof using.
  intros is_dl f c Hf Hi. apply on_direction_inv; [done | |]; intros d; destruct (Hf d) as (s & a & k & ->);
    auto with rate.
Qed.

Lemma settled_blind : blind settled.
Proof using.
  intros is_dl f c Hf [Hi Hr]. split; [by apply inv_blind |]. intros is_dl' Ha. specialize (Hr is_dl' Ha).
  destruct (Hf (direction is_dl c)) as (s & a & k & Heq).
  destruct is_dl, is_dl'; try done; simpl in *; by rewrite Heq.
Qed.

Lemma apply_shapers_safe w c : settled c → csafe w c apply_shapers (λ r c' _, r = Ok tt ∧ settled c').
Proof using Htyped Hok.
  intros Hs. unfold apply_shapers. apply msafe_bind.
  assert (∀ is_dl c, settled c → cfg c = c0 ∧
    (adjusts is_dl c0 = true → ready is_dl c0 (direction is_dl c).(shaper))) as Hready.
  { intros is_dl c' [Hi Hr]. split; [apply Hi | apply Hr]. }
  eapply msafe_mono; [apply (apply_shaper_safe settled); [apply settled_blind | done | apply Hs | apply Hready] |].
  intros r c1 w1 [-> Hs1]. apply (apply_shaper_safe settled); [apply settled_blind | done | apply Hs1 | apply Hready].
Qed.

(** *** Clamping *)

Lemma lower_resets_shaper rate previous d : shaper (lower_resets rate previous d) = rate.
Proof using. done. Qed.

Lemma lower_resets_adaptive rate previous d : adaptive (lower_resets rate previous d) = adaptive d.
Proof using. unfold lower_resets. simpl. by case_match. Qed.

Lemma fits_effective is_dl a :
  adjusts is_dl c0 = true → ceiling_fits is_dl c0 a →
  rate_ok a.(effective_max_kbps) ∧
  (f64_R (floor_rate is_dl c0) <= f64_R a.(effective_max_kbps)
   <= Rmax (f64_R (top_rate is_dl c0)) (f64_R (f64_round (top_rate is_dl c0))))%R.
Proof using.
  intros Ha [Hok' Hcap Hfl Hoff]. destruct (effective_rate a Hok') as [He _]. split; [done |].
  destruct (ok_safe a Hok') as (_ & His & Hsc). unfold top_rate.
  destruct (adaptive_ceiling_enabled c0) eqn:Hen.
  - rewrite <- Hcap. destruct (probing a.(phase)) eqn:Hp.
    + destruct (ok_probing a Hok' Hp) as (t & _ & -> & _ & Hb & _).
      pose proof (Rmax_r (f64_R (absolute_cap_kbps a)) (f64_R (f64_round (absolute_cap_kbps a)))). lra.
    + destruct (ok_resting a Hok' Hp) as [-> _]. lra.
  - specialize (Hoff eq_refl).
    pose proof (Rmax_l (f64_R (max_rate_kbps is_dl c0)) (f64_R (f64_round (max_rate_kbps is_dl c0)))).
    split; [| lra]. destruct (probing a.(phase)) eqn:Hp.
    + destruct (ok_probing a Hok' Hp) as (t & _ & -> & _ & Hb & _). lra.
    + destruct (ok_resting a Hok' Hp) as [-> _]. lra.
Qed.

Lemma clamp_direction_inv is_dl c :
  inv c → inv (clamp_direction is_dl c) ∧
  (adjusts is_dl c0 = true → ready is_dl c0 (direction is_dl (clamp_direction is_dl c)).(shaper)).
Proof using Htyped Hok.
  intros Hi. pose proof Hi as [Hc Ht Hf]. unfold clamp_direction. rewrite Hc.
  destruct (adjusts is_dl c0) eqn:Ha; cbn [negb]; [| done].
  destruct (floor_ok is_dl Ha) as [Hfl _]. destruct (ct_direction c Ht is_dl) as [Hv _ _ _ _ _].
  destruct (fits_effective is_dl _ Ha (Hf is_dl Ha)) as [He [Hlo Hhi]].
  set (rate := f64_min (f64_max (direction is_dl c).(shaper) (floor_rate is_dl c0))
                 (direction is_dl c).(adaptive).(effective_max_kbps)).
  assert (f64_num (f64_max (direction is_dl c).(shaper) (floor_rate is_dl c0))) as Hm
    by (apply max_num; auto with f64).
  assert (f64_num rate) as Hn by (apply min_num; auto with f64).
  assert (f64_R (floor_rate is_dl c0) <= f64_R rate)%R as Hge.
  { apply min_ge; auto with f64. apply max_ge; auto with f64. }
  assert (f64_R rate <= f64_R (direction is_dl c).(adaptive).(effective_max_kbps))%R as Hle
    by (apply min_le; auto with f64).
  assert (f64_fin rate) as Hfin.
  { apply (between_fin rate (floor_rate is_dl c0) (direction is_dl c).(adaptive).(effective_max_kbps));
      auto with f64. }
  split.
  - set (f := λ d : Direction, _). split; [done | |].
    + apply on_direction_typed; [done |]. intros Hd. apply lower_resets_typed; auto with f64.
    + intros is_dl' Ha'. specialize (Hf is_dl' Ha').
      destruct is_dl, is_dl'; cbn [direction on_direction dl ul] in *; try done; unfold f;
        by rewrite lower_resets_adaptive.
  - intros _. assert (ready is_dl c0 rate) as Hrate by (split; [done | split; [done | lra]]).
    by destruct is_dl.
Qed.

Lemma clamp_rates_settled c : inv c → settled (clamp_rates c).
Proof using Htyped Hok.
  intros Hi. unfold clamp_rates. destruct (clamp_direction_inv true c Hi) as [Hi1 Hr1].
  destruct (clamp_direction_inv false _ Hi1) as [Hi2 Hr2]. split; [done |]. intros [] Ha; [| by apply Hr2].
  replace (direction true _) with (direction true (clamp_direction true c)); [by apply Hr1 |].
  unfold clamp_direction at 2. by case_match.
Qed.

(** *** The ceilings *)

Lemma fits_event is_dl a e :
  adaptive_ceiling_enabled c0 = true → event_valid e →
  ceiling_fits is_dl c0 a → ceiling_fits is_dl c0 (ceiling_step a e).
Proof using.
  intros Hen He [Hok' Hcap Hfl Hoff]. pose proof (run_kept [e] a) as [Hk1 Hk2]. simpl in Hk1, Hk2.
  split; [by apply ceiling_step_ok | congruence | by rewrite Hk2 | congruence].
Qed.

Lemma settle_ceilings_safe w c f :
  inv c → adaptive_ceiling_enabled c0 = true →
  (∀ now a, ∃ e, event_valid e ∧ (f now a).2 = ceiling_step a e) →
  csafe w c (settle_ceilings f) (λ r c' _, r = Ok tt ∧ inv c').
Proof using Htyped Hok.
  intros Hi Hen Hf. unfold settle_ceilings, self. make_call; [done |]. intros now w' _.
  apply msafe_bind, msafe_gets, msafe_bind, msafe_update.
  pose (step := λ (is_dl : bool) (c : Controller), if adjusts is_dl (cfg c)
    then on_direction is_dl (λ d, with_adaptive (f now d.(adaptive)).2 d) c else c).
  assert (∀ is_dl c, inv c → inv (step is_dl c)) as Hstep.
  { intros is_dl c1 Hi1. unfold step. case_match; [| done]. apply on_direction_inv; [done | auto with rate |].
    intros d Ha Hfits. destruct (Hf now d.(adaptive)) as (e & He & Heq). simpl. rewrite Heq. by apply fits_event. }
  assert (inv (step false (step true c))) as Hi2 by auto.
  match goal with |- csafe _ _ (if ?b then _ else _) _ => destruct b end; [| by apply msafe_ret]. apply msafe_bind, msafe_update.
  eapply msafe_mono; [by apply apply_shapers_safe, clamp_rates_settled |]. by intros r c' w2 [? [? _]].
Qed.

Lemma run_state_inv state c : inv c → inv (with_run_state state c).
Proof using. by intros [? [? ? ?] ?]. Qed.
Lemma status_inv st c : inv c → inv (with_status st c).
Proof using. by intros [? [? ? ?] ?]. Qed.
Lemma warmup_inv m c : map_Forall (λ _, warmup_typed) m → inv c → inv (with_warmup m c).
Proof using. by intros ? [? [? ? ?] ?]. Qed.
Lemma tracker_inv t c : tracker_typed t → inv c → inv (with_tracker t c).
Proof using. by intros ? [? [? ? ?] ?]. Qed.

Lemma set_run_state_safe w c state : inv c → csafe w c (set_run_state state) (λ r c' _, r = Ok tt ∧ inv c').
Proof using Htyped Hok.
  intros Hi. unfold set_run_state, self. apply msafe_bind, msafe_gets.
  case_bool_decide; [by apply msafe_ret |]. apply msafe_bind, msafe_update. rewrite (inv_cfg c Hi).
  destruct (_ && _) eqn:E; [| apply msafe_ret; by split; [| apply run_state_inv]].
  apply andb_true_iff in E as [Hen _]. apply settle_ceilings_safe; [by apply run_state_inv | done |].
  intros now a. by exists (Paused now "autorate state paused").
Qed.

Lemma gap_safe w c : inv c → csafe w c note_probe_gap (λ r c' _, r = Ok tt ∧ inv c').
Proof using Htyped Hok.
  intros Hi. unfold note_probe_gap, self. apply msafe_bind, msafe_gets. rewrite (inv_cfg c Hi).
  destruct (adaptive_ceiling_enabled c0) eqn:Hen; [| by apply msafe_ret].
  apply settle_ceilings_safe; [done | done |]. intros now a. by exists (ProbeGap now).
Qed.

Lemma stall_safe w c :
  inv c → csafe w c reset_adaptive_after_sustained_gap (λ r c' _, r = Ok tt ∧ inv c').
Proof using Htyped Hok.
  intros Hi. unfold reset_adaptive_after_sustained_gap, self. apply msafe_bind, msafe_gets. rewrite (inv_cfg c Hi).
  destruct (adaptive_ceiling_enabled c0) eqn:Hen; cbn [negb]; [| by apply msafe_ret].
  apply settle_ceilings_safe; [done | done |]. intros now a. by exists (StallReset now).
Qed.

Lemma floor_ready is_dl : adjusts is_dl c0 = true → ready is_dl c0 (floor_rate is_dl c0).
Proof using Htyped Hok.
  intros Ha. destruct (floor_ok is_dl Ha) as [Hf HR]. destruct (top_ok is_dl Ha) as [_ Ht].
  destruct (accepted_rates usize_max c0 Htyped Hok is_dl Ha) as [[_ Hm] [_ Hb] [_ Hx]].
  split; [apply Hf |]. split; [lra |]. apply Rle_trans with (2 := Rmax_l _ _). lra.
Qed.

Lemma base_rate_ready is_dl : adjusts is_dl c0 = true → ready is_dl c0 (base_rate is_dl c0).
Proof using Htyped Hok.
  intros Ha. destruct (floor_ok is_dl Ha) as [Hf HR]. destruct (top_ok is_dl Ha) as [_ Ht].
  destruct (accepted_rates usize_max c0 Htyped Hok is_dl Ha) as [[_ Hm] [Hbf Hb] [_ Hx]].
  split; [apply Hbf |]. split; [lra |]. apply Rle_trans with (2 := Rmax_l _ _). lra.
Qed.

Lemma set_min_safe w c : inv c → csafe w c set_min_shaper_rates (λ r c' _, r = Ok tt ∧ inv c').
Proof using Htyped Hok.
  intros Hi. unfold set_min_shaper_rates. apply msafe_bind, msafe_update.
  assert (∀ is_dl c, inv c → inv (set_min_direction is_dl c)) as Hmin.
  { intros is_dl c1 Hi1. unfold set_min_direction. rewrite (inv_cfg c1 Hi1).
    destruct (adjusts is_dl c0) eqn:Ha; [| done]. apply on_direction_inv; [done | | done].
    intros d Hd. apply reset_search_typed, shaper_typed; [| done]. apply rate_valid, (floor_ok is_dl Ha). }
  eapply msafe_mono; [apply apply_shapers_safe | by intros r c' w' [? [? _]]].
  split; [auto |]. intros is_dl Ha. pose proof (inv_cfg c Hi) as Hc.
  unfold set_min_direction. destruct is_dl.
  - rewrite Hc, Ha. destruct (adjusts false _); by apply floor_ready.
  - replace (cfg (if adjusts true (cfg c) then _ else c)) with c0 by (by case_match).
    rewrite Ha. by apply floor_ready.
Qed.

(** *** The step of a rate *)

Lemma compensation_valid bits rate : f64_valid rate → f64_valid (packet_compensation_us bits rate).
Proof using.
  intros Hr. unfold packet_compensation_us. case_match; [done |]. apply valid_div; [| done].
  apply valid_mul; apply valid_of_N.
Qed.

Lemma threshold_valid is_dl c base :
  f64_valid base → f64_valid (direction is_dl c).(shaper) → f64_valid (threshold_us is_dl c base).
Proof using.
  intros Hb Hs. unfold threshold_us. apply valid_add; [apply valid_mul; [done | apply valid_of_N] |].
  by apply compensation_valid.
Qed.

Lemma delay_thresholds_valid is_dl c :
  inv c → f64_valid (delay_thr_us is_dl c) ∧ f64_valid (avg_adjust_up_thr_us is_dl c) ∧
  f64_valid (avg_adjust_down_thr_us is_dl c).
Proof using Htyped.
  intros Hi. destruct (ct_direction c (inv_typed c Hi) is_dl) as [Hs _ _ _ _ _].
  unfold delay_thr_us, avg_adjust_up_thr_us, avg_adjust_down_thr_us. rewrite (inv_cfg c Hi).
  destruct is_dl; repeat split; apply threshold_valid; try done; typed_field Htyped.
Qed.

Lemma share_valid x y : f64_valid x → f64_valid y → f64_valid (share x y).
Proof using. intros Hx Hy. apply valid_min; [by apply valid_div | done]. Qed.

Lemma interpolate_valid x y z : f64_valid x → f64_valid y → f64_valid z → f64_valid (interpolate x y z).
Proof using. intros Hx Hy Hz. apply valid_sub; [done |]. apply valid_mul; [done |]. by apply valid_sub. Qed.

Lemma down_factor_valid avg delay down :
  f64_valid avg → f64_valid delay → f64_valid down → f64_valid (down_factor avg delay down).
Proof using. intros. unfold down_factor. repeat case_match; try done. apply share_valid; by apply valid_sub. Qed.

Lemma up_factor_valid avg delay up :
  f64_valid avg → f64_valid delay → f64_valid up → f64_valid (up_factor avg delay up).
Proof using. intros. unfold up_factor. repeat case_match; try done. apply share_valid; by apply valid_sub. Qed.

Lemma decayed_valid base rate : f64_valid base → f64_valid rate → f64_valid (decayed c0 base rate).
Proof using Htyped Hok.
  intros Hb Hr. destruct (accepted_factors usize_max c0 Htyped Hok) as [_ _ _ _ [Hd _] [Hu _]].
  unfold decayed. repeat case_match; [apply valid_max | apply valid_min |]; try done;
    apply valid_mul; auto using fin_valid.
Qed.

Lemma update_direction_inv is_dl kind bb avg growth now c :
  inv c → f64_valid avg → inv (update_direction is_dl kind bb avg growth now c).
Proof using Htyped Hok.
  intros Hi Havg. unfold update_direction. rewrite (inv_cfg c Hi).
  destruct (adjusts is_dl c0) eqn:Ha; cbn [negb]; [| done].
  destruct (delay_thresholds_valid is_dl c Hi) as (Hdelay & Hup & Hdown).
  destruct (ct_direction c (inv_typed c Hi) is_dl) as [Hs _ _ _ _ _].
  destruct (accepted_factors usize_max c0 Htyped Hok) as [[H1 _] [H2 _] [H3 _] [H4 _] _ _].
  destruct (base_ready is_dl Ha) as [Hbase _].
  match goal with |- inv (let '_ := ?e in _) => destruct e as [[rate t1] t2] eqn:E end.
  assert (f64_valid rate) as Hrate.
  { repeat case_match; simplify_eq; try done.
    - apply valid_mul; [done |]. apply interpolate_valid; auto using fin_valid, down_factor_valid.
    - apply valid_mul; [done |]. apply interpolate_valid; auto using fin_valid, up_factor_valid.
    - apply decayed_valid; [by apply rate_valid | done]. }
  apply on_direction_inv; [done | |].
  - intros d Hd. apply times_typed, lower_resets_typed; done.
  - intros d _ Hfits. unfold with_times. cbn [adaptive]. by rewrite lower_resets_adaptive.
Qed.

(** *** The ceilings after a sample *)

Lemma duration_ok x : is_some (duration_try_from_secs_f64 x) = true → ∃ d, duration_from_secs_f64 x = Ok d.
Proof using. unfold duration_from_secs_f64. destruct (duration_try_from_secs_f64 x); [eauto | done]. Qed.

Lemma adaptive_policy_ok : ∃ p, adaptive_policy c0 = Ok p ∧ policy_valid p.
Proof using Htyped Hok.
  pose proof (accepted_timers usize_max c0 Htyped Hok) as H. unfold timers_ok in H.
  repeat (apply Forall_cons in H; destruct H as [?%duration_ok H]). repeat match goal with E : ∃ _, duration_from_secs_f64 _ = _ |- _ => destruct E end.
  unfold adaptive_policy. repeat match goal with E : duration_from_secs_f64 _ = _ |- _ => rewrite E; clear E end.
  eexists. split; [reflexivity |]. split; simpl; [typed_field Htyped |].
  apply valid_clamp; [| done..]. apply valid_mul; [typed_field Htyped | done].
Qed.

Lemma observe_ceiling_inv is_dl l bb el now p c :
  inv c → adaptive_ceiling_enabled c0 = true → f64_valid l.(achieved_kbps) → policy_valid p →
  inv (observe_ceiling is_dl l bb el now p c).
Proof using.
  intros Hi Hen Hl Hp. unfold observe_ceiling. case_match; [done |].
  destruct (ct_direction c (inv_typed c Hi) is_dl) as [Hs _ _ _ _ _].
  apply on_direction_inv; [done | auto with rate |]. intros d _ Hfits.
  apply (fits_event _ _ (Observed now _ p)); [done | | done]. by split.
Qed.

Lemma update_ceilings_inv dl_load ul_load b1 b2 k1 k2 now c :
  inv c → f64_valid dl_load.(achieved_kbps) → f64_valid ul_load.(achieved_kbps) →
  ∃ c', update_adaptive_ceilings dl_load ul_load b1 b2 k1 k2 now c = Ok c' ∧ inv c'.
Proof using Htyped Hok.
  intros Hi Hd Hu. unfold update_adaptive_ceilings. rewrite (inv_cfg c Hi).
  destruct (adaptive_ceiling_enabled c0) eqn:Hen; cbn [negb orb]; [| by exists c].
  destruct adaptive_policy_ok as (p & -> & Hp). cbn [mbind result_bind].
  destruct (uplink_state c); try (by exists c); eexists; split; try done;
    by repeat apply observe_ceiling_inv.
Qed.

Lemma control_rates_settled dl_load ul_load e1 e2 now c :
  inv c → f64_valid dl_load.(achieved_kbps) → f64_valid ul_load.(achieved_kbps) →
  f64_valid dl_load.(avg_delta) → f64_valid ul_load.(avg_delta) →
  ∃ c', control_rates dl_load ul_load e1 e2 now c = Ok c' ∧ settled c'.
Proof using Htyped Hok.
  intros Hi Hd Hu Had Hau. unfold control_rates.
  edestruct update_ceilings_inv as (c1 & -> & Hi1); [| exact Hd | exact Hu |].
  { apply update_direction_inv; [| exact Hau]. apply update_direction_inv; [exact Hi | exact Had]. }
  eexists. split; [reflexivity |]. by apply clamp_rates_settled.
Qed.

(** *** A sample *)

Definition sample_typed (s : Sample) : Prop :=
  f64_valid s.(dl_owd_us) ∧ f64_valid s.(ul_owd_us).
Definition rates_typed (r : RateSample) : Prop := f64_valid r.(dl_kbps) ∧ f64_valid r.(ul_kbps).

Lemma learned_inv is_dl l c :
  map_Forall (λ _, f64_valid) l.(baseline_us) → Forall f64_valid l.(delta_us) →
  inv c → inv (on_direction is_dl (with_learned l) c).
Proof using.
  intros Hb Hd Hi. apply on_direction_inv; [done | | done]. by intros d [].
Qed.

Lemma baseline_inv is_dl r x c :
  f64_valid x → inv c → inv (on_direction is_dl (λ d, with_learned (with_baseline r x d.(learned)) d) c).
Proof using.
  intros Hx Hi. apply on_direction_inv; [done | | done]. intros d []. split; try done.
  by apply map_Forall_insert_2.
Qed.

Lemma learn_baseline_safe w c s interval_s rates dl_pct ul_pct now :
  inv c → sample_typed s →
  csafe w c (learn_baseline s interval_s rates dl_pct ul_pct now) (λ r c' _, (∃ b, r = Ok b) ∧ inv c').
Proof using Htyped Hok.
  intros Hi Hs. unfold learn_baseline, self. apply msafe_bind, msafe_gets.
  case_match; [apply msafe_ret; by eauto |].
  destruct (duration_try_from_secs_f64 _) as [span |]; [| apply msafe_ret; by eauto].
  cbv zeta. set (warmup := default _ _). set (ob := {| bo_owd_us := _ |}). set (policy := {| maximum_load_age := _ |}).
  assert (warmup_typed warmup) as Hw.
  { unfold warmup. destruct (baseline_warmup c !! _) eqn:E; [| apply warmup_new_typed].
    by eapply (ct_warmup c (inv_typed c Hi)). }
  destruct (warmup_observe_typed warmup ob policy Hw Hs) as [Hw' Hr].
  destruct (LatencyBaseline.observe warmup ob policy) as [warmed warmup']. cbn [fst snd] in *.
  apply msafe_bind, msafe_update. set (c1 := with_warmup _ c).
  assert (inv c1) as Hi1.
  { apply warmup_inv; [| done]. apply map_Forall_insert_2; [done | apply (inv_typed c Hi)]. }
  destruct warmed as [[dl_value ul_value] |].
  - destruct Hr as [Hdl Hul]. apply msafe_bind, msafe_update. set (c2 := with_warmup _ _).
    assert (inv c2) as Hi2.
    { apply warmup_inv; [apply map_Forall_delete; exact (ct_warmup c1 (inv_typed c1 Hi1)) |].
      apply baseline_inv; [done |]. by apply baseline_inv. }
    apply msafe_bind. case_bool_decide.
    + eapply msafe_mono; [by apply set_run_state_safe |]. intros r c3 w3 [-> Hi3]. apply msafe_ret. by eauto.
    + apply msafe_ret, msafe_ret. by eauto.
  - apply msafe_bind. case_bool_decide.
    + eapply msafe_mono; [by apply set_run_state_safe |]. intros r c3 w3 [-> Hi3].
      apply msafe_bind, msafe_update, msafe_ret. split; [by eauto | by apply status_inv].
    + apply msafe_ret, msafe_bind, msafe_update, msafe_ret. split; [by eauto | by apply status_inv].
Qed.

Lemma blend_valid a x y : f64_valid a → f64_valid x → f64_valid y → f64_valid (blend a x y).
Proof using.
  intros Ha Hx Hy. apply valid_add; [by apply valid_mul |]. apply valid_mul; [| done]. by apply valid_sub.
Qed.

Lemma track_typed s base :
  sample_typed s → owd_typed base →
  owd_typed (track_baselines c0 s base).1 ∧ owd_typed (track_baselines c0 s base).2.
Proof using Htyped.
  intros [Hd Hu] [Hb1 Hb2]. unfold track_baselines. case_match; [by repeat split |].
  assert (∀ owd b, f64_valid (if f64_leb b owd then alpha_baseline_increase c0 else alpha_baseline_decrease c0))
    as Ha by (intros owd b; case_match; typed_field Htyped).
  split; split; cbn [fst snd]; try apply valid_sub; try done; by apply blend_valid.
Qed.

Lemma push_valid l x : Forall f64_valid l → f64_valid x → Forall f64_valid (push_window l x).
Proof using.
  intros Hl Hx. destruct l as [| y l]; [done |]. apply Forall_cons in Hl as [_ Hl].
  apply Forall_app. split; [done | by constructor].
Qed.

Lemma average_valid l : Forall f64_valid l → f64_valid (average l).
Proof using.
  intros Hl. unfold average. destruct l as [| x l]; [done |]. apply valid_div; [| apply valid_of_N].
  generalize (x :: l) f64_zero (eq_refl : f64_valid f64_zero) Hl. clear x l Hl.
  induction l as [| x l IH]; intros a Ha Hl; [done |]. apply Forall_cons in Hl as [Hx Hl].
  apply IH; [by apply valid_add | done].
Qed.

Context (Hprobe : probe_timers_ok c0).

Lemma evidence_ok is_dl now c : inv c → ∃ e, transport_control_evidence is_dl now c = Ok e.
Proof using Hprobe.
  intros Hi. unfold transport_control_evidence, transport_max_age. rewrite (inv_cfg c Hi).
  destruct Hprobe as [H _]. apply duration_ok in H as [d Hd]. rewrite Hd. by eexists.
Qed.

Lemma note_delta_typed r base delta thr unloaded l :
  f64_valid base → f64_valid delta → map_Forall (λ _, f64_valid) l.(baseline_us) → Forall f64_valid l.(delta_us) →
  map_Forall (λ _, f64_valid) (note_delta c0 r base delta thr unloaded l).(baseline_us) ∧
  Forall f64_valid (note_delta c0 r base delta thr unloaded l).(delta_us).
Proof using. intros. split; [by apply map_Forall_insert_2 | by apply push_valid]. Qed.

Lemma judge_sample_safe w c s rates dl_pct ul_pct now :
  inv c → sample_typed s → rates_typed rates →
  csafe w c (judge_sample s rates dl_pct ul_pct now) (λ r c' _, r = Ok tt ∧ inv c').
Proof using Htyped Hok Hprobe.
  intros Hi Hs [Hdr Hur]. unfold judge_sample, self. apply msafe_bind, msafe_gets.
  destruct (ct_direction c (inv_typed c Hi) true) as [_ Hbd Hdd _ _ _].
  destruct (ct_direction c (inv_typed c Hi) false) as [_ Hbu Hdu _ _ _]. cbn [direction] in *.
  destruct (baseline_us (learned (dl c)) !! _) as [dl_base |] eqn:Ed; [| by apply msafe_ret].
  destruct (baseline_us (learned (ul c)) !! _) as [ul_base |] eqn:Eu; [| by apply msafe_ret].
  rewrite (inv_cfg c Hi).
  destruct (track_typed s (dl_base, ul_base) Hs) as [[Hb1 Hb2] [Hd1 Hd2]];
    [by split; [eapply Hbd | eapply Hbu] |].
  destruct (track_baselines c0 s _) as [base delta]. cbn [fst snd] in Hb1, Hb2, Hd1, Hd2.
  set (unloaded := _ && _). set (dl_learned := note_delta _ _ base.1 _ _ _ _).
  set (ul_learned := note_delta _ _ base.2 _ _ _ _).
  destruct (note_delta_typed (reflector s) base.1 delta.1 (delay_thr_us true c) unloaded (learned (dl c)))
    as [Hl1 Hl2]; try done.
  destruct (note_delta_typed (reflector s) base.2 delta.2 (delay_thr_us false c) unloaded (learned (ul c)))
    as [Hl3 Hl4]; try done.
  apply msafe_bind, msafe_update. set (c1 := on_direction _ _ _).
  assert (inv c1) as Hi1 by (apply learned_inv; [done.. |]; by apply learned_inv).
  apply msafe_bind, msafe_gets.
  destruct (evidence_ok true now c1 Hi1) as [e1 He1], (evidence_ok false now c1 Hi1) as [e2 He2].
  apply msafe_bind, msafe_lift. rewrite He1. apply msafe_bind, msafe_lift. rewrite He2.
  apply msafe_bind. case_match.
  { apply msafe_ret, msafe_update. split; [done | by apply status_inv]. }
  destruct (control_rates_settled (load_of c0 dl_learned dl_pct (dl_kbps rates))
    (load_of c0 ul_learned ul_pct (ul_kbps rates)) e1 e2 now c1) as (c2 & Hc2 & Hset);
    [done | done | done | by apply average_valid | by apply average_valid |].
  apply msafe_bind, msafe_lift. rewrite Hc2. apply msafe_bind, msafe_update.
  eapply msafe_mono; [by apply apply_shapers_safe |]. intros r c3 w3 [-> [Hi3 _]].
  apply msafe_update. split; [done | by apply status_inv].
Qed.

Lemma sample_safe w c s interval_s rates now :
  inv c → sample_typed s → rates_typed rates →
  csafe w c (on_sample_with_rates s interval_s rates now) (λ r c' _, r = Ok tt ∧ inv c').
Proof using Htyped Hok Hprobe.
  intros Hi Hs Hr. unfold on_sample_with_rates, self. case_match; [by apply gap_safe |].
  apply msafe_bind, msafe_gets, msafe_bind.
  eapply msafe_mono; [by apply learn_baseline_safe |]. intros r c1 w1 [[b ->] Hi1].
  destruct b; cbn [negb]; [by apply judge_sample_safe | by apply msafe_ret].
Qed.

(** *** A result of the transport probe *)

Section probe.
Context {Request : Type} `{EqDecision Request}.
Implicit Types r : TransportProbeResult Request.

Definition probe_typed r : Prop :=
  opt_valid r.(latency_ms) ∧ Forall f64_valid r.(raw_samples_ms).

Lemma quality_inv is_dl f c :
  inv c → (∀ d, direction_typed d → direction_typed (with_quality (f d) d)) →
  inv (on_direction is_dl (λ d, with_quality (f d) d) c).
Proof using. intros Hi Hf. by apply on_direction_inv. Qed.

Lemma expire_inv is_dl now max_age c : inv c → inv (on_direction is_dl (expire_direction now max_age) c).
Proof using.
  intros Hi. apply on_direction_inv; [done | | done]. intros d [Hs Hb Hd Ht Hse Hf].
  pose proof (expire_typed _ now max_age Ht). unfold expire_direction. case_match; by split.
Qed.

Lemma failure_inv error c : inv c → inv (note_failure error c).
Proof using. intros Hi. apply tracker_inv; [| done]. apply observe_failure_typed, (inv_typed c Hi). Qed.

Lemma latency_inv endpoint sample loaded now is_dl c :
  inv c → f64_valid sample →
  opt_valid (observe_latency endpoint sample loaded now is_dl c).1 ∧
  inv (observe_latency endpoint sample loaded now is_dl c).2.
Proof using.
  intros Hi Hx. pose proof (ct_direction c (inv_typed c Hi) is_dl) as Hd.
  unfold observe_latency. destruct (observe_success_typed (direction is_dl c).(quality).(transport_latency)
    endpoint sample loaded now) as [Ho Ht]; [apply Hd | done |].
  destruct (observe_success _ _ _ _ _) as [delta t]. cbn [fst snd] in *. split; [done |].
  apply on_direction_inv; [done | | done]. by intros d [].
Qed.

Definition confirmed_typed (co : Confirmed) : Prop :=
  opt_valid co.(co_all) ∧ opt_valid co.(co_dl) ∧ opt_valid co.(co_ul).

Lemma later_valid x y : opt_valid x → opt_valid y → opt_valid (later x y).
Proof using. by destruct x. Qed.

Lemma observe_sample_inv endpoint flags now acc sample :
  confirmed_typed acc.1 → inv acc.2 → f64_valid sample →
  confirmed_typed (observe_sample endpoint flags now acc sample).1 ∧
  inv (observe_sample endpoint flags now acc sample).2.
Proof using.
  destruct acc as [co c]. intros (Ha & Hd & Hu) Hi Hx. cbn [fst snd] in *. unfold observe_sample.
  destruct (observe_success_typed c.(transport_latency_all) endpoint sample (flags.1 || flags.2) now)
    as [Ho Ht]; [apply Hi | done |].
  destruct (observe_success _ _ _ _ _) as [delta t]. cbn [fst snd] in *.
  set (one := observe_latency endpoint sample (flags.1 || flags.2) now).
  assert (∀ is_dl c, inv c → opt_valid (one is_dl c).1 ∧ inv (one is_dl c).2) as Hone
    by (intros is_dl c1 Hi1; by apply latency_inv).
  assert (inv (with_tracker t c)) as Hi1 by by apply tracker_inv.
  destruct (flags.1 || flags.2); cbn [negb].
  - destruct (if flags.1 then one true _ else _) as [dl_delta c2] eqn:E2.
    assert (opt_valid dl_delta ∧ inv c2) as [Hd2 Hi2].
    { destruct flags.1; [| by simplify_eq]. destruct (Hone true _ Hi1). by rewrite E2 in *. }
    destruct (if flags.2 then one false _ else _) as [ul_delta c3] eqn:E3.
    assert (opt_valid ul_delta ∧ inv c3) as [Hd3 Hi3].
    { destruct flags.2; [| by simplify_eq]. destruct (Hone false _ Hi2). by rewrite E3 in *. }
    split; [| done]. by repeat split; apply later_valid.
  - split; [repeat split; by try apply later_valid |]. by do 2 apply Hone.
Qed.

Lemma observe_samples_inv endpoint flags now samples acc :
  confirmed_typed acc.1 → inv acc.2 → Forall f64_valid samples →
  confirmed_typed (foldl (observe_sample endpoint flags now) acc samples).1 ∧
  inv (foldl (observe_sample endpoint flags now) acc samples).2.
Proof using.
  revert acc. induction samples as [| x l IH]; intros acc Hco Hi Hl; [done |].
  apply Forall_cons in Hl as [Hx Hl]. destruct (observe_sample_inv endpoint flags now acc x); try done.
  by apply IH.
Qed.

Lemma count_bad_inv is_dl target delta c : inv c → inv (on_direction is_dl (count_bad target delta) c).
Proof using.
  intros Hi. apply on_direction_inv; [done | |].
  - intros d []. unfold count_bad. by destruct delta.
  - intros d _. unfold count_bad. by destruct delta.
Qed.

Lemma quality_policy_ok floor :
  ∃ p, quality_policy c0 floor = Ok p ∧ floor_kbps p = floor ∧ target_delay_ms p = quality_target_delay_ms c0.
Proof using Hprobe.
  destruct Hprobe as (_ & H1 & H2). apply duration_ok in H1 as [d1 H1], H2 as [d2 H2].
  unfold quality_policy. rewrite H1. cbn [mbind result_bind]. rewrite H2. by eexists.
Qed.

Lemma search_inv is_dl enabled delta policy now c :
  inv c → opt_valid delta → f64_valid policy.(floor_kbps) → f64_valid policy.(target_delay_ms) →
  opt_valid ((search_direction is_dl enabled delta policy now c).1 ≫= requested_rate_kbps) ∧
  inv (search_direction is_dl enabled delta policy now c).2.
Proof using.
  intros Hi Hd Hf Ht. unfold search_direction. destruct delta as [delta |]; [| done].
  case_match; [| done].
  destruct (ct_direction c (inv_typed c Hi) is_dl) as [Hs _ _ _ Hse _].
  destruct (search_observe_typed now (direction is_dl c).(shaper) delta policy Hs Hd Hf Ht
    (direction is_dl c).(quality).(quality_search) true Hse) as [Hr Hse'].
  destruct (QualitySearch.observe _ _ _ _ _ _) as [u q]. cbn [fst snd] in *. split; [done |].
  apply on_direction_inv; [done | | done]. by intros d [].
Qed.

Lemma request_rates_safe w c co now :
  inv c → confirmed_typed co → csafe w c (request_rates co now) (λ a c' _, a = Ok tt ∧ inv c').
Proof using Htyped Hok Hprobe.
  intros Hi (_ & Hd & Hu). unfold request_rates, self. apply msafe_bind, msafe_update.
  set (c1 := on_direction _ _ _). assert (inv c1) as Hi1 by (by do 2 apply count_bad_inv).
  apply msafe_bind, msafe_gets. rewrite (inv_cfg c1 Hi1).
  assert (f64_valid (quality_target_delay_ms c0)) as Htv by typed_field Htyped.
  destruct (quality_policy_ok (dl c1).(quality).(throughput_floor_kbps)) as (p1 & Hp1 & Hf1 & Ht1).
  destruct (quality_policy_ok (ul c1).(quality).(throughput_floor_kbps)) as (p2 & Hp2 & Hf2 & Ht2).
  pose proof (dt_floor _ (ct_direction c1 (inv_typed c1 Hi1) true)) as Hfd.
  pose proof (dt_floor _ (ct_direction c1 (inv_typed c1 Hi1) false)) as Hfu. cbn [direction] in Hfd, Hfu.
  apply msafe_bind, msafe_lift. rewrite Hp1. apply msafe_bind, msafe_lift. rewrite Hp2.
  set (enabled := _ && _).
  destruct (search_inv true enabled (co_dl co) p1 now c1) as [Hr1 Hi2]; try done; [by rewrite Hf1 | by rewrite Ht1 |].
  destruct (search_direction true _ _ _ _ _) as [u1 c2]. cbn [fst snd] in *.
  destruct (search_inv false enabled (co_ul co) p2 now c2) as [Hr2 Hi3]; try done; [by rewrite Hf2 | by rewrite Ht2 |].
  destruct (search_direction false _ _ _ _ _) as [u2 c3]. cbn [fst snd] in *.
  assert (∀ is_dl u, opt_valid (u ≫= requested_rate_kbps) → opt_valid (requested is_dl u c3)) as Hreq.
  { intros is_dl u Hu'. unfold requested. destruct (u ≫= requested_rate_kbps); [| done]. simpl. by case_match. }
  apply Hreq with (is_dl := true) in Hr1. apply Hreq with (is_dl := false) in Hr2.
  apply msafe_bind, msafe_update.
  assert (∀ is_dl rate c, opt_valid rate → inv c →
    inv (on_direction is_dl (λ d, match rate with Some rate => with_shaper rate d | None => d end) c)) as Hset.
  { intros is_dl [rate |] c' Hv Hi'; apply on_direction_inv; try done. intros d Hd'. by apply shaper_typed. }
  set (c4 := on_direction false _ _). assert (inv c4) as Hi4 by (apply Hset; [done |]; by apply Hset).
  match goal with |- csafe _ _ (if ?b then _ else _) _ => destruct b end; [| by apply msafe_ret].
  apply msafe_bind, msafe_update.
  eapply msafe_mono; [by apply apply_shapers_safe, clamp_rates_settled |]. by intros r c' w2 [? [? _]].
Qed.

Lemma on_probe_safe w c r active :
  inv c → probe_typed r → csafe w c (on_transport_probe r active) (λ a c' _, a = Ok tt ∧ inv c').
Proof using Htyped Hok Hprobe.
  intros Hi [Hlat Hraw]. unfold on_transport_probe, self. make_call; [done |]. intros now w1 _.
  apply msafe_bind, msafe_gets. rewrite (inv_cfg c Hi). pose proof Hprobe as [Hage _].
  apply duration_ok in Hage as [max_age Hage]. apply msafe_bind, msafe_lift.
  unfold transport_max_age. rewrite Hage. apply msafe_bind, msafe_update.
  set (c1 := on_both _ _). assert (inv c1) as Hi1.
  { unfold c1, on_both. do 2 apply expire_inv. apply tracker_inv; [| done]. apply expire_typed, (inv_typed c Hi). }
  apply msafe_bind, msafe_gets.
  assert (∀ error, csafe w1 c1 (update (note_failure error) : Ctl unit) (λ a c' _, a = Ok tt ∧ inv c')) as Hfail
    by (intros error; apply msafe_update; split; [done | by apply failure_inv]).
  destruct (tp_error r); [apply Hfail |]. case_match; [apply Hfail |]. case_match; [apply Hfail |].
  destruct (latency_ms r) as [latency |]; [| apply Hfail].
  case_match; [by apply msafe_ret |]. case_match; [by apply msafe_ret |].
  case_match; [by apply msafe_ret |].
  match goal with |- context [foldl ?f ?a ?l] => destruct (observe_samples_inv (tp_endpoint r)
    (if transport_controller_enabled (cfg c1) then (dl_loaded r, ul_loaded r)
     else direction_flags (tp_rating_phase r)) now l a) as [Hco Hi2] end; [done | done | |].
  { destruct (bool_decide (raw_samples_ms r = [])); [by constructor | done]. }
  destruct (foldl _ _ _) as [co c2]. cbn [fst snd] in *. apply msafe_bind, msafe_update.
  destruct (is_some (co_all co)); [by apply request_rates_safe | by apply msafe_ret].
Qed.
End probe.
End accepted.
