(* ===== verification/RateSystem.v ===== *)
(** * Runs of the rate controller

    The controller from its first configuration on, under any sequence of events: every
    bandwidth it writes is allowed, it does not panic, and while an override or an operation
    holds the rates it writes none. *)

From Stdlib Require Import Reals Lra SpecFloat.
From S2P Require Import Prelude RustStr RateLimits Effects Binary64 StdTime FloatRounding FloatOps AdaptiveCeiling CeilingContract TransportQuality QualitySearch LatencyBaseline ControllerConfig CakeControl RateControl ConfigDefaults ConfigContract RateTypes RateContract.

Local Open Scope N_scope.

(** ** Events *)

Section events.
Context {Request : Type} `{EqDecision Request}.

(** [RatesRestored] is what the runtime driver writes into the controller when it gives a
    baseline back; [Changed] is everything the handlers here only read. *)
Inductive ControlEvent :=
| Sampled (s : Sample) (interval_s : f64) (rates : RateSample) (now : N)
| Probed (r : TransportProbeResult Request) (active : option Request)
| GapNoted
| GapSustained
| StateSet (state : string)
| MinimumEnforced
| RatesRestored (is_dl : bool) (rate : N)
| Changed (s : Surroundings).

Definition event_typed (e : ControlEvent) : Prop :=
  match e with
  | Sampled s _ rates _ => sample_typed s ∧ rates_typed rates
  | Probed r _ => probe_typed r
  | _ => True
  end.

(** The new surroundings under the configuration the controller was made with. *)
Definition change_surroundings (s : Surroundings) (c : Controller) : Controller :=
  with_surroundings
    {| sr_cfg := cfg c; sr_baseline_epoch := s.(sr_baseline_epoch); sr_uplink_state := s.(sr_uplink_state);
       sr_route_identity := s.(sr_route_identity); sr_rating_phase := s.(sr_rating_phase);
       sr_cpu_total_percent := s.(sr_cpu_total_percent);
       sr_sqm_runtime_healthy := s.(sr_sqm_runtime_healthy);
       sr_runtime_override_active := s.(sr_runtime_override_active);
       sr_runtime_operation_active := s.(sr_runtime_operation_active) |} c.

(** [self.controller.shaper_xl = rate as f64; self.controller.last_set_xl = rate]. *)
Definition restore_rate (rate : N) (d : Direction) : Direction :=
  with_applied rate d.(applied).(last_shaper_attempt) d.(applied).(cached_kind)
    (with_shaper (f64_of_N rate) d).

Definition handle (e : ControlEvent) : Ctl unit :=
  match e with
  | Sampled s interval_s rates now => on_sample_with_rates s interval_s rates now
  | Probed r active => on_transport_probe r active
  | GapNoted => note_probe_gap
  | GapSustained => reset_adaptive_after_sustained_gap
  | StateSet state => set_run_state state
  | MinimumEnforced => set_min_shaper_rates
  | RatesRestored is_dl rate => update (on_direction is_dl (restore_rate rate))
  | Changed s => update (change_surroundings s)
  end.

Fixpoint control (es : list ControlEvent) : Ctl unit :=
  match es with [] => mret tt | e :: es => _ ← handle e; control es end.

(** The controller is made and started, and handles the events. *)
Definition controller_run (c : Config) (now dl_created ul_created : N) (es : list ControlEvent) :
    prog tc_answer (result Fault unit * Controller) :=
  (_ ← start; control es) (controller_new c now dl_created ul_created).

(** The call a run makes next. *)
Definition next_call {A} (m : prog tc_answer A) : option TcCall :=
  match m with Ret _ => None | Do call _ => Some call end.

Section accepted.
Context (usize_max : N) (c0 : Config).
Context (Htyped : config_typed c0) (Hok : validate usize_max c0 = Ok tt) (Hprobe : probe_timers_ok c0).

Notation csafe := (msafe (change_allowed c0) tc_step).
Notation inv := (inv c0).

Lemma restored_inv is_dl rate c : inv c → inv (on_direction is_dl (restore_rate rate) c).
Proof using.
  intros Hi. apply on_direction_inv; [done | | done]. intros d Hd. apply applied_typed, shaper_typed; [| done].
  apply valid_of_N.
Qed.

Lemma changed_inv s c : inv c → inv (change_surroundings s c).
Proof using. by intros [? [? ? ?] ?]. Qed.

Lemma handle_safe w c e : inv c → event_typed e → csafe w c (handle e) (λ r c' _, r = Ok tt ∧ inv c').
Proof using Htyped Hok Hprobe.
  intros Hi He. destruct e; cbn [handle].
  - destruct He. by eapply sample_safe.
  - by eapply on_probe_safe.
  - by eapply gap_safe.
  - by eapply stall_safe.
  - by eapply set_run_state_safe.
  - by eapply set_min_safe.
  - apply msafe_update. split; [done | by apply restored_inv].
  - apply msafe_update. split; [done | by apply changed_inv].
Qed.

Lemma control_safe w c es :
  inv c → Forall event_typed es → csafe w c (control es) (λ r c' _, r = Ok tt ∧ inv c').
Proof using Htyped Hok Hprobe.
  intros Hi Hes. revert w c Hi. induction Hes as [| e es He Hes IH]; intros w c Hi; [by apply msafe_ret |].
  cbn [control]. apply msafe_bind. eapply msafe_mono; [by apply handle_safe |].
  intros r c1 w1 [-> Hi1]. by apply IH.
Qed.

(** *** The initial state *)

Lemma initial_safe_rate is_dl : adjusts is_dl c0 = true →
  rate_ok (initial_safe is_dl c0) ∧ (f64_R (floor_rate is_dl c0) <= f64_R (initial_safe is_dl c0))%R ∧
  (adaptive_ceiling_enabled c0 = false → initial_safe is_dl c0 = max_rate_kbps is_dl c0).
Proof using Htyped Hok.
  intros Ha. destruct (floor_ok _ _ Htyped Hok is_dl Ha) as [Hf HR].
  destruct (base_ready _ _ Htyped Hok is_dl Ha) as [Hb Hm].
  destruct (accepted_rates _ _ Htyped Hok is_dl Ha) as [[_ Hmin] [_ Hbase] [_ Hmax]].
  destruct (accepted_cap _ _ Htyped Hok is_dl) as [_ Hs].
  unfold initial_safe. destruct (adaptive_ceiling_enabled c0) eqn:Hen; cbn [andb]; [| split; [done | split; [lra | done]]].
  case_bool_decide as Hev; [| destruct (accepted_ceiling _ _ Htyped Hok is_dl Hen Ha) as [_ Hsafe];
    split; [done | split; [specialize (Hsafe Hev); lra | done]]].
  split; [| split; [| done]].
  - apply (between_rate _ (floor_rate is_dl c0) (base_rate is_dl c0)); auto with f64; [apply min_num; auto with f64 |].
    rewrite min_R by auto with f64. rewrite Rmin_left by lra. lra.
  - rewrite min_R by auto with f64. rewrite Rmin_left by lra. lra.
Qed.

Lemma ceiling_new_fits is_dl created : adjusts is_dl c0 = true →
  ceiling_fits is_dl c0 (new_at_with_verified_safe (max_rate_kbps is_dl c0) (cap_rate is_dl c0)
    (initial_safe is_dl c0) created).
Proof using Htyped Hok.
  intros Ha. destruct (initial_safe_rate is_dl Ha) as (Hs & Hle & Hoff).
  destruct (base_ready _ _ Htyped Hok is_dl Ha) as [_ Hm].
  destruct (accepted_cap _ _ Htyped Hok is_dl) as [Hc _].
  destruct (floor_ok _ _ Htyped Hok is_dl Ha) as [Hfloor HR].
  destruct (accepted_rates _ _ Htyped Hok is_dl Ha) as [[_ Hmin] [_ Hbase] [_ Hmax]].
  set (x := max_rate_kbps is_dl c0) in *. set (v := initial_safe is_dl c0) in *.
  assert (f64_num (f64_max v f64_one) ∧ f64_num (f64_max x f64_one) ∧ f64_num (f64_max (cap_rate is_dl c0) x))
    as (H1 & H2 & H3) by (repeat split; apply max_num; auto using fin_num, one_fin with f64).
  assert (f64_num (f64_min (f64_max v f64_one) (f64_max x f64_one))) as H4 by (apply min_num; auto with f64).
  pose proof (fin_num _ one_fin) as Hone.
  split; [by apply new_ok | done | |].
  - cbn [initial_safe_ceiling_kbps new_at_with_verified_safe]. rewrite !min_R, !max_R by auto with f64.
    pose proof (Rmax_l (f64_R v) (f64_R f64_one)). pose proof (Rmax_l (f64_R x) (f64_R f64_one)).
    pose proof (Rmax_r (f64_R (cap_rate is_dl c0)) (f64_R x)). repeat apply Rmin_glb; lra.
  - intros _. cbn [effective_max_kbps new_at_with_verified_safe]. rewrite !min_R, !max_R by auto with f64.
    fold x. eapply Rle_trans; [apply Rmin_l |]. eapply Rle_trans; [apply Rmin_r |]. rewrite one_R, Rmax_left; lra.
Qed.

(** The throughput floor is typed. *)
Lemma floor_valid is_dl : f64_valid (throughput_floor (floor_input is_dl c0)).
Proof using Htyped.
  assert (f64_valid f64_one) as H1 by done. assert (∀ n, f64_valid (f64_of_N n)) as HN by apply valid_of_N.
  assert (f64_valid (f64_lit 75 100)) as H75 by done.
  assert (∀ x, f64_valid x → f64_valid (f64_mul (f64_lit 75 100) x)) as Hq by (intros; by apply valid_mul).
  assert (f64_valid (tg_configured_min_kbps (floor_input is_dl c0))
    ∧ f64_valid (tg_configured_base_kbps (floor_input is_dl c0))
    ∧ f64_valid (tg_observed_p20_kbps (floor_input is_dl c0))
    ∧ f64_valid (tg_observed_p50_kbps (floor_input is_dl c0))
    ∧ f64_valid (tg_absolute_floor_kbps (floor_input is_dl c0))
    ∧ f64_valid (tg_retention_percent (floor_input is_dl c0))) as (Hm & Hb & H20 & H50 & Ha & Hr)
    by (destruct is_dl; repeat split; typed_field Htyped).
  unfold throughput_floor. generalize dependent (floor_input is_dl c0). intros i Hm Hb H20 H50 Ha Hr.
  case_match; [by apply valid_max |]. repeat apply valid_max; try done. apply valid_mul.
  - repeat case_match; auto using valid_max.
  - apply valid_clamp; try done. by apply valid_div.
Qed.

Lemma direction_new_typed is_dl now created : direction_typed (direction_new is_dl c0 now created).
Proof using Htyped Hok.
  split; cbn.
  - destruct is_dl; typed_field Htyped.
  - done.
  - by apply Forall_replicate.
  - apply tracker_new_typed.
  - apply search_new_typed.
  - apply valid_min; [apply floor_valid |]. apply valid_max; destruct is_dl; typed_field Htyped.
Qed.

Lemma controller_new_inv now dl_created ul_created : inv (controller_new c0 now dl_created ul_created).
Proof using Htyped Hok.
  split; [done | |].
  - split; [intros []; apply direction_new_typed | apply tracker_new_typed | apply map_Forall_empty].
  - intros is_dl Ha. by destruct is_dl; apply ceiling_new_fits.
Qed.

Lemma run_safe now dl_created ul_created es :
  Forall event_typed es →
  safe (change_allowed c0) tc_step None (controller_run c0 now dl_created ul_created es)
    (λ r _, r.1 = Ok tt ∧ inv r.2).
Proof using Htyped Hok Hprobe.
  intros Hes. pose proof (controller_new_inv now dl_created ul_created) as Hi.
  change (csafe None (controller_new c0 now dl_created ul_created) (_ ← start; control es)
    (λ r c' _, r = Ok tt ∧ inv c')).
  apply msafe_bind. eapply msafe_mono; [eapply apply_shapers_safe; try done |].
  - split; [done |]. intros is_dl Ha. pose proof (base_rate_ready _ _ Htyped Hok is_dl Ha). by destruct is_dl.
  - intros r c1 w1 [-> [Hi1 _]]. by apply control_safe.
Qed.
End accepted.
End events.
Arguments ControlEvent : clear implicits.

(** ** What holds in every run *)

(** The clock and [tc] may give any answer in any world. *)
Lemma safe_any_reply {W A} (reply : ∀ call, W → tc_answer call * W) (Q : A → Prop) pre v (m : prog tc_answer A) w :
  safe pre tc_step v m (λ a _, Q a) → Q (run_with tc_answer reply w m).1.
Proof.
  revert v w. induction m as [a | call k IH]; intros v w; cbn [safe run_with]; [done |].
  intros [_ H]. destruct (reply call w) as [x w'].
  assert (∃ v', tc_step v call x v') as [v' Hv] by (destruct call; by eexists).
  exact (IH x v' w' (H x v' Hv)).
Qed.

(** The run after [n] calls, with the answers of a function. *)
Fixpoint follow {W A} (reply : ∀ call, W → tc_answer call * W) (n : nat) (w : W) (m : prog tc_answer A) :
    W * prog tc_answer A :=
  match n, m with
  | S n, Do call k => let '(x, w') := reply call w in follow reply n w' (k x)
  | _, _ => (w, m)
  end.

Lemma follow_runs {W A} (reply : ∀ call, W → tc_answer call * W) step n w (m : prog tc_answer A) :
  (∀ call w, step w call (reply call w).1 (reply call w).2) →
  runs step m w (follow reply n w m).2 (follow reply n w m).1.
Proof.
  intros Hr. revert w m. induction n as [| n IH]; intros w m; [apply runs_here |].
  destruct m as [a | call k]; [apply runs_here |]. cbn [follow].
  specialize (Hr call w). destruct (reply call w) as [x w']. eapply runs_call; [exact Hr | apply IH].
Qed.

(** ** Held rates *)

(** The run makes no call that writes a bandwidth. *)
Fixpoint writes_nothing {A} (m : prog tc_answer A) : Prop :=
  match m with
  | Ret _ => True
  | Do call k => match call with TcChange _ _ _ _ => False | _ => True end ∧ ∀ x, writes_nothing (k x)
  end.

Section held.
Context {Request : Type} `{EqDecision Request}.

Definition leaves_rates (call : TcCall) : Prop :=
  match call with TcChange _ _ _ _ => False | _ => True end.

Lemma safe_writes_nothing {A} (m : prog tc_answer A) Q :
  safe (λ (_ : unit), leaves_rates) (λ _ _ _ _, True) tt m Q → writes_nothing m.
Proof using.
  induction m as [a | call k IH]; cbn; [done |]. intros [Hc H]. split; [done |].
  intros x. apply IH. by apply (H x tt).
Qed.

Notation held := runtime_rate_control_suspended.

(** The method writes no bandwidth and the rates stay held. *)
Definition idle {E A} (c : Controller) (m : method tc_answer Controller E A) : Prop :=
  msafe (λ (_ : unit), leaves_rates) (λ _ _ _ _, True) tt c m (λ _ c' _, held c' = true).

Lemma idle_bind {E A B} c (m : method tc_answer Controller E A) (f : A → method tc_answer Controller E B) :
  idle c m → (∀ a c', held c' = true → idle c' (f a)) → idle c (m ≫= f).
Proof using.
  intros Hm Hf. apply msafe_bind. eapply msafe_mono; [exact Hm |].
  intros [a | e] c' []; [apply Hf | done].
Qed.

Lemma idle_ret {E A} c (a : A) : held c = true → idle c (mret a : method tc_answer Controller E A).
Proof using. done. Qed.
Lemma idle_lift {E A} c (r : result E A) : held c = true → idle c (lift_m r).
Proof using. done. Qed.
Lemma idle_self c : held c = true → idle c self.
Proof using. done. Qed.
Lemma idle_now {E} c : held c = true → idle c (call (E := E) Now).
Proof using. done. Qed.
Lemma idle_update {E} c f : held (f c) = true → idle c (update (E := E) f).
Proof using. done. Qed.

Lemma held_clamp c : held (clamp_rates c) = held c.
Proof using. unfold clamp_rates, clamp_direction. by repeat case_match. Qed.

Lemma idle_apply c is_dl : held c = true → idle c (apply_shaper is_dl).
Proof using. intros Hh. apply msafe_bind, msafe_gets. rewrite Hh. by apply idle_ret. Qed.

Lemma idle_shapers c : held c = true → idle c apply_shapers.
Proof using. intros Hh. apply idle_bind; [by apply idle_apply |]. intros _ c' Hc'. by apply idle_apply. Qed.

Lemma idle_settle c f : held c = true → idle c (settle_ceilings f).
Proof using.
  intros Hh. unfold settle_ceilings. apply idle_bind; [by apply idle_now |]. intros now c1 H1.
  apply idle_bind; [by apply idle_self |]. intros c2 c3 H3. apply idle_bind.
  - apply idle_update. by repeat case_match.
  - intros _ c4 H4. match goal with |- idle _ (if ?b then _ else _) => destruct b end; [| by apply idle_ret].
    apply idle_bind; [apply idle_update; by rewrite held_clamp |]. intros _ c5. apply idle_shapers.
Qed.

Lemma idle_run_state c state : held c = true → idle c (set_run_state state).
Proof using.
  intros Hh. unfold set_run_state. apply idle_bind; [by apply idle_self |]. intros c1 c2 H2.
  case_match; [by apply idle_ret |]. apply idle_bind; [by apply idle_update |]. intros _ c3 H3.
  case_match; [by apply idle_settle | by apply idle_ret].
Qed.

Lemma idle_gap c : held c = true → idle c note_probe_gap.
Proof using.
  intros Hh. unfold note_probe_gap. apply idle_bind; [by apply idle_self |]. intros c1 c2 H2.
  case_match; [by apply idle_settle | by apply idle_ret].
Qed.

Lemma idle_learn c s interval_s rates p q now :
  held c = true → idle c (learn_baseline s interval_s rates p q now).
Proof using.
  intros Hh. unfold learn_baseline. apply idle_bind; [by apply idle_self |]. intros c1 c2 H2.
  case_match; [by apply idle_ret |]. case_match; [| by apply idle_ret]. cbv zeta.
  destruct (LatencyBaseline.observe _ _ _) as [warmed warmup]. apply idle_bind; [by apply idle_update |].
  intros _ c3 H3. destruct warmed as [[dl_value ul_value] |].
  - apply idle_bind; [by apply idle_update |]. intros _ c4 H4. apply idle_bind; [| by intros; apply idle_ret].
    case_match; [by apply idle_run_state | by apply idle_ret].
  - apply idle_bind; [case_match; [by apply idle_run_state | by apply idle_ret] |]. intros _ c4 H4.
    apply idle_bind; [by apply idle_update |]. by intros; apply idle_ret.
Qed.

Lemma idle_judge c s rates p q now : held c = true → idle c (judge_sample s rates p q now).
Proof using.
  intros Hh. unfold judge_sample. apply msafe_bind, msafe_gets.
  case_match; [| by apply idle_ret]. case_match; [| by apply idle_ret].
  destruct (track_baselines _ _ _) as [base delta]. apply msafe_bind, msafe_update.
  set (c1 := on_direction _ _ _). assert (held c1 = true) as H1 by done.
  apply msafe_bind, msafe_gets. apply idle_bind; [by apply idle_lift |]. intros e1 c2 H2.
  apply idle_bind; [by apply idle_lift |]. intros e2 c3 H3. rewrite H1.
  apply idle_bind; [by apply idle_ret |]. intros _ c4 H4. by apply idle_update.
Qed.

Lemma idle_sample c s interval_s rates now : held c = true → idle c (on_sample_with_rates s interval_s rates now).
Proof using.
  intros Hh. unfold on_sample_with_rates. case_match; [by apply idle_gap |].
  apply idle_bind; [by apply idle_self |]. intros c1 c2 H2. apply idle_bind; [by apply idle_learn |].
  intros b c3 H3. destruct b; cbn [negb]; [by apply idle_judge | by apply idle_ret].
Qed.

Lemma held_samples endpoint flags now samples acc :
  held (foldl (observe_sample endpoint flags now) acc samples).2 = held acc.2.
Proof using.
  revert acc. induction samples as [| x l IH]; intros [co c]; [done |]. cbn [foldl]. rewrite IH.
  unfold observe_sample, observe_latency.
  repeat match goal with |- context [let '_ := ?e in _] => destruct e eqn:?E end; simplify_eq; try done;
    repeat case_match; by simplify_eq.
Qed.

Lemma idle_request c co now : held c = true → idle c (request_rates co now).
Proof using.
  intros Hh. unfold request_rates. apply msafe_bind, msafe_update. set (c1 := on_direction _ _ _).
  assert (held c1 = true) as H1 by done. apply msafe_bind, msafe_gets.
  apply msafe_bind, msafe_lift. destruct (quality_policy _ (throughput_floor_kbps (quality (dl c1)))); [| done].
  apply msafe_bind, msafe_lift. destruct (quality_policy _ _); [| done]. rewrite H1, andb_false_r.
  unfold search_direction. cbn [andb]. destruct (co_dl co), (co_ul co); apply msafe_bind, msafe_update; by apply msafe_ret.
Qed.

Lemma idle_probe c (r : TransportProbeResult Request) active : held c = true → idle c (on_transport_probe r active).
Proof using.
  intros Hh. unfold on_transport_probe. apply idle_bind; [by apply idle_now |]. intros now c1 H1.
  apply idle_bind; [by apply idle_self |]. intros c2 c3 H3. apply idle_bind; [by apply idle_lift |].
  intros max_age c4 H4. apply msafe_bind, msafe_update. set (c5 := on_both _ _).
  assert (held c5 = true) as H5 by done. apply msafe_bind, msafe_gets.
  destruct (tp_error r); [by apply idle_update |]. case_match; [by apply idle_update |].
  case_match; [by apply idle_update |]. destruct (latency_ms r) as [latency |]; [| by apply idle_update].
  case_match; [by apply idle_ret |]. case_match; [by apply idle_ret |]. case_match; [by apply idle_ret |].
  match goal with |- context [foldl ?f ?a ?l] => pose proof (held_samples (tp_endpoint r)
    (if transport_controller_enabled (cfg c5) then (dl_loaded r, ul_loaded r)
     else direction_flags (tp_rating_phase r)) now l a) as Hs end.
  destruct (foldl _ _ _) as [co c6]. cbn [snd] in Hs. apply msafe_bind, msafe_update.
  destruct (is_some (co_all co)); [apply idle_request | apply idle_ret]; by rewrite Hs.
Qed.

(** An event after which the rates are still held. *)
Definition stays_held (e : ControlEvent Request) : Prop :=
  match e with
  | Changed s => s.(sr_runtime_override_active) || s.(sr_runtime_operation_active) = true
  | _ => True
  end.

Lemma idle_handle c e : held c = true → stays_held e → idle c (handle e).
Proof using.
  intros Hh He. destruct e; cbn [handle].
  - by apply idle_sample.
  - by apply idle_probe.
  - by apply idle_gap.
  - unfold reset_adaptive_after_sustained_gap. apply idle_bind; [by apply idle_self |]. intros c1 c2 H2.
    case_match; [by apply idle_ret | by apply idle_settle].
  - by apply idle_run_state.
  - unfold set_min_shaper_rates. apply idle_bind; [| intros _ c1; apply idle_shapers].
    apply idle_update. unfold set_min_direction. by repeat case_match.
  - by apply idle_update.
  - by apply idle_update.
Qed.

Lemma idle_control c es : held c = true → Forall stays_held es → idle c (control es).
Proof using.
  intros Hh Hes. revert c Hh. induction Hes as [| e es He Hes IH]; intros c Hh; [by apply idle_ret |].
  cbn [control]. apply idle_bind; [by apply idle_handle |]. intros _ c1. apply IH.
Qed.
End held.
