(* ===== verification/RateSafety.v ===== *)
(** * How the rates move

    Bufferbloat lowers a rate or leaves it; a rate rises above its base only under a clean high
    load; a write follows the rate, at once when it falls and paced when it grows; and two
    things the configuration lets through. *)

From Stdlib Require Import Reals Lra SpecFloat.
From S2P Require Import Prelude RustStr RateLimits Effects Binary64 StdTime FloatRounding FloatOps AdaptiveCeiling CeilingContract TransportQuality QualitySearch LatencyBaseline ControllerConfig CakeControl RateControl ConfigDefaults ConfigContract RateTypes RateContract RateSystem.

Local Open Scope N_scope.

(** ** Shares *)

(** Every finite number is a multiple of the smallest one. *)
Lemma fin_multiple x : f64_fin x → ∃ k, f64_R x = (IZR k * pow2 (-1074))%R.
Proof.
  intros [[Hx Hn] Hf]. destruct x as [s | | | s m e]; try done.
  { exists 0%Z. simpl. lra. }
  cbn [valid_binary] in Hx. apply bounded_iff in Hx as (_ & He & _).
  exists (cond_Zopp s (Z.pos m) * 2 ^ (e + 1074))%Z. cbn [f64_R].
  rewrite mult_IZR, <- pow2_IZR by lia. rewrite Rmult_assoc, <- pow2_add. do 2 f_equal. lia.
Qed.

Lemma sub_positive x y : f64_fin x → f64_fin y → (f64_R y < f64_R x)%R → (0 < f64_R (f64_sub x y))%R.
Proof.
  intros Hx Hy Hlt. destruct (fin_multiple x Hx) as [j Hj], (fin_multiple y Hy) as [k Hk].
  pose proof (pow2_pos (-1074)) as Hp. destruct (representable 1 (-1074)) as (z & Hz & HR); [lia | lia |].
  rewrite Rmult_1_l in HR. apply Rlt_le_trans with (f64_R z); [by rewrite HR |].
  apply (rounds_ge _ _ (sub_rounds x y Hx Hy)); [by apply fin_num |]. rewrite HR, Hj, Hk in *.
  assert (k < j)%Z as Hkj by (eapply scaled_lt; exact Hlt).
  assert (IZR k + 1 <= IZR j)%R by (rewrite <- plus_IZR; apply IZR_le; lia). nra.
Qed.

(** A share of a positive whole is between nothing and everything. *)
Lemma share_bounds part whole :
  f64_num part → (0 <= f64_R part)%R → f64_num whole → (0 < f64_R whole)%R →
  f64_num (share part whole) ∧ (0 <= f64_R (share part whole) <= 1)%R.
Proof.
  intros Hp Hp0 Hw Hw0. pose proof (fin_num _ one_fin) as H1. unfold share.
  assert (f64_valid (f64_div part whole)) as Hv by (apply valid_div; by apply num_valid).
  split; [by apply min_num |]. split; [| rewrite <- one_R; by apply min_le].
  destruct (valid_cases _ Hv) as [-> | Hn]; [change (0 <= f64_R f64_one)%R; rewrite one_R; lra |].
  apply min_ge; [done | done | | rewrite one_R; lra].
  pose proof (pow2_pos 1024) as Hbig.
  assert (f64_fin part ∧ f64_fin whole → (0 <= f64_R (f64_div part whole))%R) as Hfin.
  { intros [Hpf Hwf]. apply (rounds_ge _ _ (div_rounds part whole Hpf Hwf ltac:(lra)) f64_zero); [done |].
    change (f64_R f64_zero) with 0%R. apply Rmult_le_pos; [done | left; by apply Rinv_0_lt_compat]. }
  destruct part as [s | s | | s m e], whole as [s' | s' | | s' m' e']; cbn [f64_R] in Hw0; try lra;
    try (by apply Hfin); try (by destruct Hp); try (by destruct Hw); try done.
  assert (s' = false) as ->.
  { destruct s'; [| done]. pose proof (pow2_pos e'). cbn [cond_Zopp] in Hw0.
    assert (IZR (- Z.pos m') < 0)%R by (by apply IZR_lt). nra. }
  destruct s; cbn [f64_R] in Hp0; [lra |]. simpl. lra.
Qed.

(** ** Factors *)

Section factors.
Context (usize_max : N) (c0 : Config).
Context (Htyped : config_typed c0) (Hok : validate usize_max c0 = Ok tt).

Lemma down_factor_bounds avg delay down :
  f64_valid avg → f64_fin delay → f64_fin down →
  f64_num (down_factor avg delay down) ∧ (0 <= f64_R (down_factor avg delay down) <= 1)%R.
Proof using.
  intros Ha Hd Hw. unfold down_factor. pose proof (fin_num _ one_fin) as H1. pose proof one_R as HR1.
  destruct (f64_leb down delay) eqn:Hle; [split; [done | lra] |].
  apply leb_false_R in Hle; [| by apply fin_num..].
  destruct (f64_ltb delay avg) eqn:Hlt; [| split; [done | simpl; lra]].
  assert (f64_num avg) as Hn by (destruct (valid_cases avg Ha) as [-> |]; [by destruct delay | done]).
  apply ltb_R in Hlt; [| by apply fin_num | done].
  assert (f64_num (f64_sub down delay)) as Hwn by apply (rounds_num _ _ (sub_rounds down delay Hw Hd)).
  pose proof (sub_positive down delay Hw Hd Hle) as Hwp.
  destruct (f64_is_finite avg) eqn:Hf.
  - assert (f64_fin avg) as Hfin by done. apply share_bounds; try done.
    + apply (rounds_num _ _ (sub_rounds avg delay Hfin Hd)).
    + left. by apply sub_positive.
  - destruct avg as [s | s | | s m e]; cbn in Hf; try done; [| by destruct Hn].
    pose proof (fin_bound delay Hd). pose proof (pow2_pos 1024).
    destruct s; cbn [f64_R] in Hlt; [lra |]. destruct Hd as [_ Hdf].
    destruct delay as [s | s | | s m e]; try done; (apply share_bounds; [done | simpl; lra | done | done]).
Qed.

(** Lowering by a share of the span never raises and never turns the sign. *)
Lemma interpolate_down factor :
  f64_num factor → (0 <= f64_R factor <= 1)%R →
  let x := interpolate c0.(shaper_rate_min_adjust_down_bufferbloat)
             c0.(shaper_rate_max_adjust_down_bufferbloat) factor in
  f64_fin x ∧ (0 <= f64_R x <= 1)%R.
Proof using Htyped Hok.
  destruct (accepted_factors usize_max c0 Htyped Hok) as [[Hlf Hl] [Hmf Hm] _ _ _ _].
  set (least := shaper_rate_min_adjust_down_bufferbloat c0) in *.
  set (most := shaper_rate_max_adjust_down_bufferbloat c0) in *. intros Hfn Hfb x.
  pose proof (fin_num _ Hlf) as Hln.
  assert (f64_fin factor) as Hff by (apply (between_fin factor f64_zero f64_one);
    [done | done | apply one_fin | rewrite one_R; exact Hfb]).
  pose proof (sub_rounds least most Hlf Hmf) as Hd. set (d := SFsub _ _ least most) in *.
  assert (0 <= f64_R d <= f64_R least)%R as Hdb.
  { split; [apply (rounds_ge _ _ Hd f64_zero); [done | simpl; lra] | apply (rounds_le _ _ Hd least); [done | lra]]. }
  assert (f64_fin d) as Hdf by (apply (between_fin d f64_zero least);
    [apply (rounds_num _ _ Hd) | done | done | exact Hdb]).
  pose proof (mul_rounds factor d Hff Hdf) as Hp. set (p := SFmul _ _ factor d) in *.
  assert (0 <= f64_R p <= f64_R d)%R as Hpb.
  { split; [apply (rounds_ge _ _ Hp f64_zero); [done | simpl; nra] | apply (rounds_le _ _ Hp d); [by apply fin_num | nra]]. }
  assert (f64_fin p) as Hpf by (apply (between_fin p f64_zero d);
    [apply (rounds_num _ _ Hp) | done | done | exact Hpb]).
  pose proof (sub_rounds least p Hlf Hpf) as Hx. change (rounds (f64_R least - f64_R p) x) in Hx.
  assert (0 <= f64_R x <= f64_R least)%R as Hxb.
  { split; [apply (rounds_ge _ _ Hx f64_zero); [done | simpl; lra] | apply (rounds_le _ _ Hx least); [done | lra]]. }
  split; [| lra]. apply (between_fin x f64_zero least); [apply (rounds_num _ _ Hx) | done | done | exact Hxb].
Qed.

(** A product with a factor of at most one. *)
Lemma shrink rate factor :
  f64_fin rate → (0 <= f64_R rate)%R → f64_fin factor → (0 <= f64_R factor <= 1)%R →
  (f64_R (f64_mul rate factor) <= f64_R rate)%R.
Proof using.
  intros Hr Hr0 Hf Hfb. apply (rounds_le _ _ (mul_rounds rate factor Hr Hf) rate); [by apply fin_num | nra].
Qed.

Lemma backed_off_le avg delay down rate :
  f64_valid avg → f64_fin delay → f64_fin down → f64_fin rate → (0 <= f64_R rate)%R →
  (f64_R (backed_off c0 avg delay down rate) <= f64_R rate)%R.
Proof using Htyped Hok.
  intros Ha Hd Hw Hr Hr0. destruct (down_factor_bounds avg delay down Ha Hd Hw) as [Hn Hb].
  destruct (interpolate_down _ Hn Hb) as [Hxf Hxb]. by apply shrink.
Qed.

Lemma decayed_le base rate :
  f64_fin base → f64_fin rate → (0 <= f64_R rate)%R →
  (f64_R (decayed c0 base rate) <= Rmax (f64_R rate) (f64_R base))%R.
Proof using Htyped Hok.
  intros Hb Hr Hr0. destruct (accepted_factors usize_max c0 Htyped Hok) as [_ _ _ _ [Hdf Hd] [Huf Hu]].
  unfold decayed. destruct (f64_ltb base rate); [| destruct (f64_ltb rate base)].
  - pose proof (mul_rounds rate _ Hr Hdf) as Hm.
    rewrite max_R; [| apply (rounds_num _ _ Hm) | by apply fin_num]. apply Rle_max_compat_r.
    by apply shrink; [| | | lra].
  - eapply Rle_trans; [| apply Rmax_r]. apply min_le; [| by apply fin_num].
    apply num_valid, (rounds_num _ _ (mul_rounds rate _ Hr Huf)).
  - apply Rmax_l.
Qed.

(** *** Thresholds are finite *)

(** A non-negative result below a power of two. *)
Lemma rounds_below v x e :
  rounds v x → (0 <= e <= 971)%Z → (0 <= v <= pow2 e)%R → f64_fin x ∧ (0 <= f64_R x <= pow2 e)%R.
Proof using.
  intros Hr He [Hv0 Hv]. destruct (representable 1 e) as (y & Hy & HR); [lia | lia |].
  rewrite Rmult_1_l in HR.
  assert (0 <= f64_R x <= f64_R y)%R as Hb.
  { split; [apply (rounds_ge _ _ Hr f64_zero); [done | simpl; lra] |].
    apply (rounds_le _ _ Hr y); [by apply fin_num | lra]. }
  split; [| lra]. apply (between_fin x f64_zero y); [apply (rounds_num _ _ Hr) | done | done | exact Hb].
Qed.

Lemma thousand_fin : f64_fin thousand ∧ f64_R thousand = 1000%R.
Proof using. split; [by apply of_N_fin | by apply (of_N_R 1000)]. Qed.

Lemma compensation_fin bits rate :
  bits <= u64_max → f64_fin rate → (1 <= f64_R rate)%R →
  f64_fin (packet_compensation_us bits rate) ∧ (0 <= f64_R (packet_compensation_us bits rate) <= pow2 75)%R.
Proof using.
  intros Hb Hr Hr1. pose proof (pow2_pos 75) as Hp. unfold packet_compensation_us.
  case_match; [split; [done | simpl; lra] |]. destruct thousand_fin as [Ht HR].
  assert (0 <= IZR (Z.of_N bits) <= pow2 64)%R as Hbits.
  { rewrite pow2_IZR by lia. split; apply IZR_le; unfold u64_max in Hb; lia. }
  destruct (rounds_below _ _ 64 (of_N_rounds bits) ltac:(lia) Hbits) as [Hbf Hbb].
  assert (pow2 75 = 2048 * pow2 64)%R as H75 by (change 75%Z with (11 + 64)%Z; by rewrite pow2_add, (pow2_IZR 11) by lia).
  destruct (rounds_below _ _ 75 (mul_rounds thousand (f64_of_N bits) Ht Hbf) ltac:(lia)) as [Hmf Hmb];
    [rewrite HR, H75; nra |].
  apply (rounds_below _ _ 75 (div_rounds _ rate Hmf Hr ltac:(lra)) ltac:(lia)).
  set (m := f64_R (SFmul _ _ _ _)) in *. split.
  - apply Rmult_le_pos; [lra | left; apply Rinv_0_lt_compat; lra].
  - apply Rle_trans with (m / 1)%R; [| lra]. apply Rmult_le_compat_l; [lra |].
    apply Rinv_le_contravar; lra.
Qed.

Lemma threshold_fin is_dl c base :
  cfg c = c0 → f64_fin base → (0 <= f64_R base <= IZR (2 ^ 32))%R →
  f64_fin (direction is_dl c).(shaper) → (1 <= f64_R (direction is_dl c).(shaper))%R →
  f64_fin (threshold_us is_dl c base).
Proof using Htyped.
  intros Hc Hb Hbb Hs Hs1. unfold threshold_us, direction_compensation_us. rewrite Hc.
  destruct thousand_fin as [Ht HR]. destruct Htyped as (_ & Hd & Hu).
  destruct (compensation_fin (wire_packet_bits is_dl c0) (direction is_dl c).(shaper)) as [Hcf Hcb];
    [by destruct is_dl | done | done |].
  pose proof (pow2_IZR 32 ltac:(lia)) as H32. pose proof (pow2_pos 75) as Hp.
  assert (pow2 42 = 1024 * pow2 32)%R as H42 by (change 42%Z with (10 + 32)%Z; by rewrite pow2_add, (pow2_IZR 10) by lia).
  destruct (rounds_below _ _ 42 (mul_rounds base thousand Hb Ht) ltac:(lia)) as [Hmf Hmb];
    [rewrite HR, H42, H32; nra |].
  assert (pow2 42 <= pow2 75)%R by (apply pow2_le; lia).
  assert (pow2 76 = 2 * pow2 75)%R as H76 by (change 76%Z with (1 + 75)%Z; by rewrite pow2_add, (pow2_IZR 1) by lia).
  apply (rounds_below _ _ 76 (add_rounds _ _ Hmf Hcf) ltac:(lia)). rewrite H76. lra.
Qed.

Lemma delay_thresholds_fin is_dl c :
  cfg c = c0 → f64_fin (direction is_dl c).(shaper) → (1 <= f64_R (direction is_dl c).(shaper))%R →
  f64_fin (delay_thr_us is_dl c) ∧ f64_fin (avg_adjust_down_thr_us is_dl c).
Proof using Htyped Hok.
  intros Hc Hs Hs1. unfold delay_thr_us, avg_adjust_down_thr_us. rewrite Hc.
  assert (∀ name x, (name, x) ∈ delay_fields c0 → f64_fin (threshold_us is_dl c x)) as Hf.
  { intros name x Hin. destruct (delay_field_ok usize_max c0 Htyped Hok name x Hin). by apply threshold_fin. }
  destruct is_dl; split; cbn [delay_thr_ms adjust_down_thr_ms pick]; eapply Hf; in_fields.
Qed.
End factors.

(** ** One direction of a step *)

Section step.
Context (usize_max : N) (c0 : Config).
Context (Htyped : config_typed c0) (Hok : validate usize_max c0 = Ok tt).

(** The refractory period after the last reaction to bufferbloat is over. *)
Definition refractory_over (is_dl : bool) (now : N) (c : Controller) : Prop :=
  duration_from_millis (cfg c).(bufferbloat_refractory_period_ms) <= now - (direction is_dl c).(last_bb).

Lemma update_other is_dl kind bb avg growth now c :
  direction (negb is_dl) (update_direction is_dl kind bb avg growth now c) = direction (negb is_dl) c ∧
  surroundings (update_direction is_dl kind bb avg growth now c) = surroundings c.
Proof using.
  unfold update_direction. case_match; [done |].
  match goal with |- context [let '_ := ?e in _] => destruct e as [[rate t1] t2] end. by destruct is_dl.
Qed.

(** The rate a direction gets. *)
Lemma update_shaper is_dl kind bb avg growth now c :
  cfg c = c0 → adjusts is_dl c0 = true →
  f64_fin (direction is_dl c).(shaper) → (1 <= f64_R (direction is_dl c).(shaper))%R → f64_valid avg →
  let d := direction is_dl c in
  let d' := direction is_dl (update_direction is_dl kind bb avg growth now c) in
  d'.(adaptive) = d.(adaptive) ∧
  (bb = true → refractory_over is_dl now c →
   (f64_R d'.(shaper) <= f64_R d.(shaper))%R ∧ d'.(last_bb) = now) ∧
  ((f64_R d'.(shaper) <= Rmax (f64_R d.(shaper)) (f64_R (base_rate is_dl c0)))%R ∨
   kind = High ∧ bb = false ∧ growth = true ∧ refractory_over is_dl now c).
Proof using Htyped Hok.
  intros Hc Ha Hs Hs1 Hv d d'.
  destruct (delay_thresholds_fin usize_max c0 Htyped Hok is_dl c Hc Hs Hs1) as [Hdel Hdown].
  destruct (base_ready usize_max c0 Htyped Hok is_dl Ha) as [Hbase _].
  pose proof (backed_off_le usize_max c0 Htyped Hok avg (delay_thr_us is_dl c) (avg_adjust_down_thr_us is_dl c)
    d.(shaper) Hv Hdel Hdown Hs ltac:(unfold d; lra)) as Hback.
  pose proof (decayed_le usize_max c0 Htyped Hok (base_rate is_dl c0) d.(shaper) ltac:(apply Hbase) Hs ltac:(unfold d; lra)) as Hdecay.
  pose proof (Rmax_l (f64_R d.(shaper)) (f64_R (base_rate is_dl c0))) as Hl.
  unfold d', update_direction, refractory_over. rewrite Hc, Ha. cbn [negb].
  match goal with |- context [let '_ := ?e in _] => destruct e as [[rate t1] t2] eqn:E end.
  assert (∀ f : Direction → Direction, direction is_dl (on_direction is_dl f c) = f d) as Hon by (by destruct is_dl).
  rewrite Hon. cbn [with_times adaptive shaper last_bb]. rewrite lower_resets_adaptive.
  change (shaper (lower_resets rate (shaper d) d)) with rate. split; [done |]. fold d in E |- *.
  destruct (_ <=? now - last_bb d) eqn:Eready; [apply N.leb_le in Eready | apply N.leb_gt in Eready];
    cbn [andb] in E; rewrite ?andb_true_r, ?andb_false_r in E; cbn [andb] in E.
  - destruct bb; [| split; [done |]].
    + injection E as <- <- <-. split; [done |]. left. lra.
    + case_bool_decide as Hk; [destruct growth; [by right |] |]; cbn [andb negb] in E;
        left; repeat case_match; simplify_eq; lra.
  - split; [lia |]. left. repeat case_match; simplify_eq; lra.
Qed.

(** Clamping gives at most the rate or the floor. *)
Lemma clamp_le is_dl c :
  inv c0 c → adjusts is_dl c0 = true →
  (f64_R (direction is_dl (clamp_rates c)).(shaper)
   <= Rmax (f64_R (direction is_dl c).(shaper)) (f64_R (floor_rate is_dl c0)))%R ∧
  (direction is_dl (clamp_rates c)).(last_bb) = (direction is_dl c).(last_bb).
Proof using Htyped Hok.
  intros Hi Ha. destruct (floor_ok usize_max c0 Htyped Hok is_dl Ha) as [Hf _].
  destruct (ct_direction c (inv_typed c0 c Hi) is_dl) as [Hs _ _ _ _ _].
  destruct (fits_effective c0 is_dl _ Ha (inv_fits c0 c Hi is_dl Ha)) as [He _].
  assert (∀ d, shaper d = shaper (direction is_dl c) → adaptive d = adaptive (direction is_dl c) →
    (f64_R (f64_min (f64_max (shaper d) (floor_rate is_dl c0)) (effective_max_kbps (adaptive d)))
     <= Rmax (f64_R (direction is_dl c).(shaper)) (f64_R (floor_rate is_dl c0)))%R) as Hle.
  { intros d -> ->. rewrite min_R by auto using max_num with f64. eapply Rle_trans; [apply Rmin_l |].
    destruct (valid_cases _ Hs) as [-> | Hn]; [apply Rmax_r |]. rewrite max_R by auto with f64. lra. }
  unfold clamp_rates, clamp_direction. rewrite !(inv_cfg c0 c Hi).
  destruct is_dl; cbn [direction] in *.
  - rewrite Ha. cbn [negb]. case_match; cbn; by split; [apply Hle | case_match].
  - replace (cfg (if negb (adjusts true c0) then _ else _)) with c0
      by (case_match; symmetry; apply (inv_cfg c0 c Hi)).
    rewrite Ha. cbn [negb]. case_match; cbn; by split; [apply Hle | case_match].
Qed.
End step.

(** ** A judged sample *)

Section judged.
Context (usize_max : N) (c0 : Config).
Context (Htyped : config_typed c0) (Hok : validate usize_max c0 = Ok tt).
Context (dl_load ul_load : Load) (dl_ev ul_ev : TransportEvidence) (now : N) (c c' : Controller).

Definition load (is_dl : bool) : Load := if is_dl then dl_load else ul_load.
Definition evidence_of (is_dl : bool) : TransportEvidence := if is_dl then dl_ev else ul_ev.

(** The numbers of the loads, and a rate the clamp left. *)
Record judged_start (is_dl : bool) : Prop := {
  js_inv : inv c0 c;
  js_adjusts : adjusts is_dl c0 = true;
  js_ready : ready is_dl c0 (direction is_dl c).(shaper);
  js_loads b : f64_valid (load b).(achieved_kbps) ∧ f64_valid (load b).(avg_delta);
}.

Lemma ceilings_shaper b1 b2 k1 k2 c1 c2 is_dl :
  update_adaptive_ceilings dl_load ul_load b1 b2 k1 k2 now c1 = Ok c2 →
  (direction is_dl c2).(shaper) = (direction is_dl c1).(shaper) ∧
  (direction is_dl c2).(last_bb) = (direction is_dl c1).(last_bb).
Proof using.
  unfold update_adaptive_ceilings. case_match; [by intros [= <-] |].
  destruct (adaptive_policy _); [| done]. cbn [mbind result_bind]. intros [= <-].
  unfold observe_ceiling. by destruct is_dl; repeat case_match.
Qed.

(** What one step does to the rate of a direction. *)
Lemma control_step is_dl :
  judged_start is_dl → control_rates dl_load ul_load dl_ev ul_ev now c = Ok c' →
  ((load is_dl).(bloat) = true → refractory_over is_dl now c →
   (f64_R (direction is_dl c').(shaper) <= f64_R (direction is_dl c).(shaper))%R ∧
   (direction is_dl c').(last_bb) = now) ∧
  ((f64_R (direction is_dl c').(shaper)
    <= Rmax (f64_R (direction is_dl c).(shaper)) (f64_R (base_rate is_dl c0)))%R ∨
   (load is_dl).(load_kind) = High ∧ (load is_dl).(bloat) = false ∧
   evidence_of is_dl ≠ EvBad ∧ refractory_over is_dl now c).
Proof using Htyped Hok.
  intros [Hi Ha (Hsf & Hlo & _) Hl] Hstep. unfold control_rates in Hstep.
  set (c1 := update_direction true _ _ _ _ _ c) in *.
  set (c2 := update_direction false _ _ _ _ _ c1) in *.
  assert (inv c0 c1) as Hi1 by (eapply update_direction_inv; [done | done | done | apply (Hl true)]).
  assert (inv c0 c2) as Hi2 by (eapply update_direction_inv; [done | done | done | apply (Hl false)]).
  destruct (floor_ok usize_max c0 Htyped Hok is_dl Ha) as [_ HR].
  destruct (accepted_rates usize_max c0 Htyped Hok is_dl Ha) as [[_ Hm] [_ Hb] _].
  assert (∃ f, direction is_dl c2 = direction is_dl (update_direction is_dl (load is_dl).(load_kind)
    (load is_dl).(bloat) (load is_dl).(avg_delta) (allows_icmp_growth (evidence_of is_dl)) now f) ∧
    surroundings f = surroundings c ∧ direction is_dl f = direction is_dl c) as (f & Hdir & Hsur & Hf).
  { destruct is_dl; cbn [load evidence_of].
    - exists c. split; [apply (update_other false) | done].
    - exists c1. split; [done |]. split; [apply (update_other true) | apply (update_other true)]. }
  assert (cfg f = c0) as Hcf by (unfold cfg; rewrite Hsur; apply Hi).
  destruct (update_shaper usize_max c0 Htyped Hok is_dl (load is_dl).(load_kind) (load is_dl).(bloat)
    (load is_dl).(avg_delta) (allows_icmp_growth (evidence_of is_dl)) now f) as (_ & Hbloat & Hgrow);
    [done | done | by rewrite Hf | rewrite Hf; lra | apply (Hl is_dl) |].
  unfold refractory_over, cfg in Hbloat, Hgrow. rewrite Hsur in Hbloat, Hgrow. fold (cfg c) in Hbloat, Hgrow.
  rewrite Hf, <- Hdir in Hbloat, Hgrow.
  destruct (update_adaptive_ceilings _ _ _ _ _ _ _ c2) as [c3 |] eqn:E3; [| done]. injection Hstep as <-.
  destruct (ceilings_shaper _ _ _ _ _ _ is_dl E3) as [Hs3 Hbb3].
  destruct (update_ceilings_inv usize_max c0 Htyped Hok dl_load ul_load
    (dl_load.(bloat) || (bool_decide (dl_load.(load_kind) = High) && bool_decide (dl_ev = EvBad)))
    (ul_load.(bloat) || (bool_decide (ul_load.(load_kind) = High) && bool_decide (ul_ev = EvBad)))
    (allows_promotion dl_ev) (allows_promotion ul_ev) now c2 Hi2) as (c3' & Hc3' & Hi3);
    [apply (Hl true) | apply (Hl false) |].
  rewrite E3 in Hc3'. injection Hc3' as <-.
  destruct (clamp_le usize_max c0 Htyped Hok is_dl c3 Hi3 Ha) as [Hle Hbb].
  rewrite Hs3 in Hle. rewrite Hbb, Hbb3.
  split.
  - intros Hb' Hr'. destruct (Hbloat Hb' Hr') as [Hd Ht]. split; [| done].
    eapply Rle_trans; [exact Hle |]. apply Rmax_lub; lra.
  - destruct Hgrow as [Hg | (Hk & Hb' & Hev & Hr')]; [left | right].
    + eapply Rle_trans; [exact Hle |]. apply Rmax_lub; [done |]. eapply Rle_trans; [| apply Rmax_r]. lra.
    + repeat split; try done. intros Heq. by rewrite Heq in Hev.
Qed.
End judged.

(** C3: When bufferbloat is detected in a direction and its refractory period is over, the step
    does not raise the rate of the direction, whatever the delays and the ceilings are, and the
    refractory period starts again. *)
Theorem bufferbloat_never_raises usize_max c0 dl_load ul_load dl_ev ul_ev now c c' is_dl :
  config_typed c0 → validate usize_max c0 = Ok tt →
  judged_start c0 dl_load ul_load c is_dl → control_rates dl_load ul_load dl_ev ul_ev now c = Ok c' →
  (load dl_load ul_load is_dl).(bloat) = true → refractory_over is_dl now c →
  (f64_R (direction is_dl c').(shaper) <= f64_R (direction is_dl c).(shaper))%R ∧
  (direction is_dl c').(last_bb) = now.
Proof. intros Ht Hv Hj Hs. by apply (control_step usize_max c0 Ht Hv _ _ _ _ _ _ _ is_dl Hj Hs). Qed.

(** C4: A step raises a rate above both its value and the base rate of the direction only under
    a high load without bufferbloat, with no transport evidence against it, and with the
    refractory period over. *)
Theorem rate_grows_only_clean usize_max c0 dl_load ul_load dl_ev ul_ev now c c' is_dl :
  config_typed c0 → validate usize_max c0 = Ok tt →
  judged_start c0 dl_load ul_load c is_dl → control_rates dl_load ul_load dl_ev ul_ev now c = Ok c' →
  (Rmax (f64_R (direction is_dl c).(shaper)) (f64_R (base_rate is_dl c0))
   < f64_R (direction is_dl c').(shaper))%R →
  (load dl_load ul_load is_dl).(load_kind) = High ∧ (load dl_load ul_load is_dl).(bloat) = false ∧
  evidence_of dl_ev ul_ev is_dl ≠ EvBad ∧ refractory_over is_dl now c.
Proof.
  intros Ht Hv Hj Hs Hlt.
  destruct (control_step usize_max c0 Ht Hv _ _ _ _ _ _ _ is_dl Hj Hs) as [_ [Hle | H]]; [lra | done].
Qed.

(** ** Writing a rate *)

(** A clock that stands at [t], and a [tc] that shows [output] and answers [changed]; the world is
    the log of the calls made so far. *)
Definition tc_reply (t : N) (output : string) (changed : result string unit) (c : TcCall)
    (log : list TcCall) : tc_answer c * list TcCall :=
  (match c return tc_answer c with
   | Now => t
   | TcShow _ => Ok output
   | TcChange _ _ _ _ => changed
   end, (log ++ [c])%list).

(** The same as a relation. *)
Definition reply_step (t : N) (output : string) (changed : result string unit) (log : list TcCall)
    (c : TcCall) (x : tc_answer c) (log' : list TcCall) : Prop :=
  (x, log') = tc_reply t output changed c log.

Lemma reply_step_ok t output changed c w :
  reply_step t output changed w c (tc_reply t output changed c w).1 (tc_reply t output changed c w).2.
Proof. by destruct c. Qed.

Lemma update_due_iff last target elapsed :
  shaper_update_due last target elapsed = true ↔
  target ≠ last ∧ (last = 0 ∨ target < last ∨ duration_from_millis 100 <= elapsed).
Proof.
  unfold shaper_update_due, CAKE_GROWTH_UPDATE_MIN_INTERVAL. destruct (N.eqb_spec target last); [naive_solver |].
  rewrite !orb_true_iff, N.eqb_eq, N.ltb_lt, N.leb_le. tauto.
Qed.

Lemma update_due_decide last target elapsed :
  bool_decide (target ≠ last ∧ (last = 0 ∨ target < last ∨ duration_from_millis 100 <= elapsed)) =
  shaper_update_due last target elapsed.
Proof.
  destruct (shaper_update_due last target elapsed) eqn:E.
  - apply bool_decide_eq_true_2. by apply update_due_iff.
  - apply bool_decide_eq_false_2. rewrite <- update_due_iff, E. done.
Qed.

Lemma on_direction_at is_dl f c : direction is_dl (on_direction is_dl f c) = f (direction is_dl c).
Proof. by destruct is_dl. Qed.

Section replied.
Context (t : N) (output : string) (changed : result string unit).
Notation rsafe := (msafe (λ (_ : list TcCall) (_ : TcCall), True) (reply_step t output changed)).

(** The kind of the shown qdisc becomes known; it is looked up only when it is not. *)
Lemma kind_known is_dl name c handle kind log :
  root_cake_control_identity output = Ok (kind, handle) →
  (direction is_dl c).(applied).(cached_kind) ∈ [None; Some kind] →
  let a := (direction is_dl c).(applied) in
  rsafe log c (qdisc_kind is_dl name) (λ r c2 log', r = Ok kind ∧
    log' = (log ++ if a.(cached_kind) is None then [TcShow name] else [])%list ∧
    (direction is_dl c2).(applied) =
      {| last_set := a.(last_set); last_shaper_attempt := a.(last_shaper_attempt); cached_kind := Some kind |}).
Proof using.
  intros Hid Hk a. unfold qdisc_kind. apply msafe_bind, msafe_gets. fold a in Hk |- *.
  destruct (cached_kind a) as [k |] eqn:Ek.
  - apply msafe_ret. assert (k = kind) as -> by set_solver. split; [done |]. split; [by rewrite app_nil_r |].
    fold a. rewrite <- Ek. by destruct a.
  - make_call; [done |]. intros shown w Hs. injection Hs as -> ->. apply msafe_bind, msafe_lift.
    apply msafe_bind, msafe_lift. rewrite Hid. apply msafe_bind, msafe_update, msafe_ret.
    split; [done |]. split; [done |]. by rewrite on_direction_at.
Qed.

(** The bandwidth is written under the shown identity, by one command after one look. *)
Lemma change_replied c name rate kind handle log (Q : result string unit → Controller → list TcCall → Prop) :
  root_cake_control_identity output = Ok (kind, handle) → name ≠ ""%string →
  100 <= rate <= MAX_RATE_KBPS →
  Q changed c (log ++ [TcShow name; TcChange name handle kind rate])%list →
  rsafe log c (change_cake_rate name rate kind) Q.
Proof using.
  intros Hid Hn [H1 H2] HQ. unfold change_cake_rate. apply N.leb_le in H1, H2. rewrite H1, H2.
  destruct (String.eqb_spec name ""); [done |]. cbn [orb andb negb].
  make_call; [done |]. intros shown w Hs. injection Hs as -> ->. apply msafe_bind, msafe_lift.
  apply msafe_bind, msafe_lift. rewrite Hid. cbn [fst snd]. rewrite bool_decide_true by done. cbn [negb].
  make_call; [done |]. intros x w Hs. injection Hs as -> ->. apply msafe_lift.
  rewrite <- app_assoc. by destruct changed.
Qed.
End replied.


(** ** Whole runs *)

(** C1: Under an accepted configuration whose probe times fit a [Duration], however the clock and [tc] answer and whatever the
    samples, probes and states are, a bandwidth is only ever written with [tc] to an interface of
    an adjusted direction, under the kind and handle of the single CAKE root qdisc that [tc] has
    just shown there, in the supported range and between the minimum of the direction and its
    largest rate: the cap of the adaptive ceiling, or the maximum when the ceiling is off. *)
Theorem rate_changes_allowed {Request} `{EqDecision Request} usize_max c now dl_created ul_created
    (es : list (ControlEvent Request)) m w call :
  config_typed c → validate usize_max c = Ok tt → probe_timers_ok c → Forall event_typed es →
  runs tc_step (controller_run c now dl_created ul_created es) None m w →
  next_call m = Some call → change_allowed c w call.
Proof.
  intros Ht Hv Hp Hes Hr Hc. eapply safe_runs in Hr; [| by eapply run_safe].
  destruct m as [| c' k]; [done |]. injection Hc as <-. apply Hr.
Qed.

(** C2: Under an accepted configuration whose probe times fit a [Duration], no handler of the
    controller panics: whatever the events and the answers of the clock and of [tc], the run
    returns and has handled every event. *)
Theorem controller_never_panics {Request} `{EqDecision Request} {W} usize_max c now dl_created ul_created
    (es : list (ControlEvent Request)) (reply : ∀ call, W → tc_answer call * W) (w : W) :
  config_typed c → validate usize_max c = Ok tt → probe_timers_ok c → Forall event_typed es →
  (run_with tc_answer reply w (controller_run c now dl_created ul_created es)).1.1 = Ok tt.
Proof.
  intros Ht Hv Hp Hes. eapply (safe_any_reply reply (λ r, r.1 = Ok tt)).
  eapply safe_mono; [by eapply run_safe |]. by intros r w' [-> _].
Qed.

(** C5: While a runtime override or an operation holds the rates, the controller goes on
    learning but writes no bandwidth, whatever the events are; the runtime driver is then the
    only one to write. *)
Theorem held_rates_untouched {Request} `{EqDecision Request} c (es : list (ControlEvent Request)) :
  runtime_rate_control_suspended c = true → Forall stays_held es → writes_nothing (control es c).
Proof. intros Hc Hes. eapply safe_writes_nothing. by apply idle_control. Qed.

(** ** What the configuration lets through *)

Definition sample_output : string := "qdisc cake 8001: root refcnt 2 bandwidth 20Mbit" +:+ str1 nl.

(** A minimum of 50 kbit/s. *)
Definition low_minimum : Config := defaults_but (f64_of_N 50) (f64_of_N 10) f64_one.

(** A minimum below 100 kbit/s is accepted, but [change_cake_rate] refuses such a rate: with the
    minimum enforced the controller holds 50 kbit/s, and CAKE stays at the base rate. *)
Lemma low_minimum_not_written :
  validate u64_max low_minimum = Ok tt ∧
  (let run := run_with tc_answer (tc_reply 1 sample_output (Ok tt)) []
     (controller_run (Request := unit) low_minimum 0 0 0 [MinimumEnforced]) in
   run.1.1 = Ok tt ∧ run.1.2.(dl).(shaper) = f64_of_N 50 ∧ run.1.2.(dl).(applied).(last_set) = 20000).
Proof. by vm_compute. Qed.

(** The probe off, and an interval that was never checked. *)
Definition negative_interval : Config :=
  defaults_but (f64_of_N DEFAULT_MIN_DL_SHAPER_RATE_KBPS) (f64_of_N 2000) (SFopp (f64_of_N 10)).

Definition quiet_sample (second : N) : ControlEvent unit :=
  Sampled {| reflector := "1.1.1.1"; timestamp := f64_of_N second; rtt_ms := f64_of_N 20;
             dl_owd_us := f64_of_N 10000; ul_owd_us := f64_of_N 10000; timestamped_owd := false |}
    (f64_lit 3 10)
    {| dl_kbps := f64_zero; ul_kbps := f64_zero; fresh := true;
       dl_observed_at := second * nanos_per_sec; ul_observed_at := second * nanos_per_sec |}
    (second * nanos_per_sec).

(** The interval of the probe is checked only while the probe is on, but every judged sample
    makes a [Duration] of it: an accepted configuration panics with the first baseline. *)
Lemma unchecked_interval_panics :
  validate u64_max negative_interval = Ok tt ∧
  (run_with tc_answer (tc_reply 1 sample_output (Ok tt)) []
     (controller_run negative_interval 0 0 0 (map quiet_sample [1; 2; 3]))).1.1 = Err Panicked.
Proof. by vm_compute. Qed.

Lemma default_run_works :
  (run_with tc_answer (tc_reply 1 sample_output (Ok tt)) []
     (controller_run defaults 0 0 0 (map quiet_sample [1; 2; 3; 4]))).1.1 = Ok tt.
Proof. by vm_compute. Qed.

(** ** Concrete runs *)

Lemma config_typed_by c :
  forallb (valid_binary f64_prec f64_emax) (config_floats c) = true →
  c.(dl_max_wire_packet_size_bits) <= u64_max → c.(ul_max_wire_packet_size_bits) <= u64_max →
  config_typed c.
Proof. intros H ? ?. split; [| done]. apply Forall_forall. intros x Hx. by eapply forallb_forall in H; [| apply list_elem_of_In]. Qed.

Lemma defaults_typed : config_typed defaults.
Proof. by apply config_typed_by; vm_compute. Qed.

Lemma defaults_valid : validate u64_max defaults = Ok tt.
Proof. by vm_compute. Qed.

Lemma defaults_probe_timers : probe_timers_ok defaults.
Proof. by vm_compute. Qed.

Lemma quiet_typed seconds : Forall event_typed (map quiet_sample seconds).
Proof. induction seconds; constructor; [by split | done]. Qed.

(** A world that keeps what was shown. *)
Definition shown_reply (c : TcCall) (w : Shown) : tc_answer c * Shown :=
  match c with
  | Now => (1, w)
  | TcShow i => (Ok sample_output, Some (i, sample_output))
  | TcChange _ _ _ _ => (Ok tt, None)
  end.

Lemma shown_step c w : tc_step w c (shown_reply c w).1 (shown_reply c w).2.
Proof. by destruct c. Qed.

Lemma rate_changes_allowed_witness :
  config_typed defaults ∧ validate u64_max defaults = Ok tt ∧ probe_timers_ok defaults ∧
  change_allowed defaults (Some ("ifb-wan", sample_output)%string)
    (TcChange "ifb-wan" "8001:" Cake 20000).
Proof.
  split; [apply defaults_typed |]. split; [apply defaults_valid |]. split; [apply defaults_probe_timers |].
  pose proof (follow_runs shown_reply tc_step 4 None
    (controller_run (Request := unit) defaults 0 0 0 []) shown_step) as Hr.
  refine (rate_changes_allowed u64_max defaults 0 0 0 (@nil (ControlEvent unit)) _ _ _ defaults_typed
    defaults_valid defaults_probe_timers _ Hr _); [constructor | by vm_compute].
Defined.

Lemma controller_never_panics_witness :
  (run_with tc_answer shown_reply None
     (controller_run defaults 0 0 0 (map quiet_sample [1; 2; 3; 4]))).1.1 = Ok tt.
Proof.
  apply (controller_never_panics u64_max defaults 0 0 0 _ shown_reply None defaults_typed defaults_valid
    defaults_probe_timers (quiet_typed [1; 2; 3; 4])).
Defined.

Definition held_surroundings : Surroundings :=
  {| sr_cfg := defaults; sr_baseline_epoch := 0; sr_uplink_state := Active; sr_route_identity := None;
     sr_rating_phase := RatingIdle; sr_cpu_total_percent := None; sr_sqm_runtime_healthy := true;
     sr_runtime_override_active := true; sr_runtime_operation_active := false |}.

Lemma held_rates_untouched_witness :
  let c := change_surroundings held_surroundings (controller_new defaults 0 0 0) in
  runtime_rate_control_suspended c = true ∧ writes_nothing (control [quiet_sample 1; MinimumEnforced] c).
Proof.
  split; [reflexivity |]. apply held_rates_untouched; [reflexivity |].
  constructor; [exact I |]. constructor; [exact I | constructor].
Defined.

Definition bloated_load : Load :=
  {| load_kind := High; achieved_kbps := f64_of_N 19000; bloat := true; delay_count := 4;
     avg_delta := f64_of_N 50000 |}.
Definition clean_load : Load :=
  {| load_kind := High; achieved_kbps := f64_of_N 19000; bloat := false; delay_count := 0;
     avg_delta := f64_of_N 2000 |}.

Local Notation new_controller := (controller_new defaults 0 0 0).
(** One second after the start. *)
Local Notation after dl_load ul_load :=
  (match control_rates dl_load ul_load EvDisabled EvDisabled nanos_per_sec new_controller with
   | Ok c => c | Err _ => new_controller end).

Lemma new_judged : judged_start defaults bloated_load clean_load new_controller true ∧
  judged_start defaults bloated_load clean_load new_controller false.
Proof.
  pose proof (controller_new_inv u64_max defaults defaults_typed defaults_valid 0 0 0) as Hi.
  pose proof (base_rate_ready u64_max defaults defaults_typed defaults_valid) as Hr.
  split; (split; [done | reflexivity | by apply Hr | by intros []]).
Qed.

Lemma bufferbloat_never_raises_witness :
  (f64_R (direction true (after bloated_load clean_load)).(shaper)
   <= f64_R (direction true new_controller).(shaper))%R ∧
  (direction true (after bloated_load clean_load)).(last_bb) = nanos_per_sec.
Proof.
  apply (bufferbloat_never_raises u64_max defaults bloated_load clean_load EvDisabled EvDisabled nanos_per_sec
    new_controller (after bloated_load clean_load) true defaults_typed defaults_valid (proj1 new_judged)).
  - vm_compute. reflexivity.
  - reflexivity.
  - vm_compute. discriminate.
Defined.

Lemma rate_grows_only_clean_witness :
  load_kind (load bloated_load clean_load false) = High ∧ bloat (load bloated_load clean_load false) = false ∧
  evidence_of EvDisabled EvDisabled false ≠ EvBad ∧ refractory_over false nanos_per_sec new_controller.
Proof.
  apply (rate_grows_only_clean u64_max defaults bloated_load clean_load EvDisabled EvDisabled nanos_per_sec
    new_controller (after bloated_load clean_load) false defaults_typed defaults_valid (proj2 new_judged)).
  - vm_compute. reflexivity.
  - rewrite Rmax_left; [| apply Rle_refl].
    apply ltb_R; [by split; vm_compute | by split; vm_compute | vm_compute; reflexivity].
Defined.

